(* ===== verification/_CoqProject ===== *)
-Q . S2P
Prelude.v
AddrRange.v
Float64.v
AddrRangeMap.v
AddrRangeMapSpec.v
Detector.v
FuncCache.v
Murmur.v
Bloom.v
Mitigation.v
BlockHammer.v
RRS.v
RRSAccess.v
RQ.v
RQTables.v
RQInit.v
RQEpoch.v
RQAccess.v
CmdBus.v
Flags.v
Packet.v
MemCmd.v
Request.v
PacketData.v
PacketQueue.v
PacketQueueSpec.v
FunctionalAccess.v
Clocked.v
Bridge.v
BridgeSpec.v
AbstractMem.v
AbstractMemSpec.v
SimpleMemory.v
SimpleMemorySpec.v
Layer.v
XBarLayer.v
XBar.v
XBarRanges.v
XBarSpec.v
EventQueue.v
EventQueueRep.v
EventQueueSpec.v
Dram.v
Refresh.v
DramTiming.v
DramSched.v
DramDecode.v
RefreshCycle.v
NVM.v
NVMInv.v
Defense.v
QoSPolicy.v
QoS.v
QoSEscalate.v
QoSAccount.v
QoSSchedule.v
QoSLife.v
QoSTurn.v
MemSink.v
MemMedium.v
MemSinkSafe.v
MemSinkServe.v
MemCtrl.v
MemCtrlSched.v
MemCtrlSplit.v
MemCtrlInv.v
MemCtrlReq.v
MemCtrlGuard.v
MemCtrlServe.v
MemCtrlRun.v
MemPort.v
MemPortSpec.v
