(* ===== verification/Prelude.v ===== *)
(** * A Rowhammer-protected memory controller

    The program is gem5 with a memory controller that defends against Rowhammer (AQUA row
    quarantine, randomized row swap, BlockHammer).  The code of the defence and of the
    controller is under src/gem5/src/mem; paths below are relative to src/gem5/src.

    ** How the parts interact

    A requestor sends a request to the controller (MemCtrl.v), which asks the address ranges
    (AddrRange.v) for the interface, splits the request into bursts (MemCtrlSplit.v) and
    gives each burst to the decoder of its interface (Dram.v, NVM.v).  A DRAM burst goes
    through the defence (Defense.v), whose mitigation (RQ.v, RRS.v, BlockHammer.v) counts
    activations with a detector (Detector.v) or counters (Mitigation.v) and answers how long
    the request is delayed.  The QoS base class (QoSPolicy.v, QoS.v) gives the request a
    priority, accounts for it and chooses the direction of the bus.  The scheduler
    (MemCtrlSched.v) chooses a waiting packet with the interface, which issues its commands
    on the command bus (CmdBus.v), keeps the timing of the banks (Dram.v) and refreshes them
    (Refresh.v); responses wait until they are ready.  MemSink.v is a second client of the
    QoS base class.  The packets of
    requests and responses travel through packet queues (PacketQueue.v), bridges (Bridge.v)
    and crossbars (XBar.v), which learn from the ranges of their ports (AddrRangeMap.v) where
    an address goes; SimpleMemory.v is the memory without a controller, over the same
    contents (AbstractMem.v).

    ** The files

    - Prelude.v (this file): record update, the fault monad [comp S A = S -> result (A * S)]
      with its loops, the rules of the weakest preconditions [wp] (total correctness) and
      [wpf] (total or partial, by a parameter), machine words ([u8] to [u64]), arrays with
      their bounds ([aread], [awrite]), lemmas on lists.
    - mem/rowhammer_detector.{hh,cc}: Detector.v (class Misra_Gries, its Trackers).
    - mem/rowhammer_mitigation.{hh,cc}: Mitigation.v (Decision, RH_Mitigation), FuncCache.v
      (Functional_Cache), Murmur.v and Bloom.v (the hash and CountingBloomFilter),
      BlockHammer.v, RRS.v (Randomized_Row_Swap), RRSAccess.v (its accesses over a refresh
      window) and RQ.v (Row_Quarantine); RQTables.v is the
      invariant of its tables, RQInit.v its constructor, RQEpoch.v the refresh window and
      RQAccess.v a whole access.
    - mem/mem_interface.{hh,cc}: Dram.v (DRAMInterface), DramTiming.v (doBurstAccess),
      DramSched.v (chooseNextFRFCFS, minBankPrep), DramDecode.v (decodePacket), Refresh.v and
      RefreshCycle.v (DRAMInterface::Rank), NVM.v and NVMInv.v (NVMInterface).
    - mem/qos: QoSPolicy.v (the policies), QoS.v (MemCtrl), QoSEscalate.v, QoSAccount.v,
      QoSSchedule.v, QoSLife.v and QoSTurn.v (its lemmas), MemSink.v, MemSinkSafe.v and
      MemSinkServe.v (MemSinkCtrl and the queue policies).
    - mem/mem_ctrl.{hh,cc}: CmdBus.v (burstTicks), Packet.v (MemPacket, BurstHelper), Defense.v
      (every use of rh_defense), MemCtrl.v (state and requests), MemCtrlSched.v (scheduler and
      events); MemCtrlSplit.v, MemCtrlInv.v (the invariant), MemCtrlReq.v (requests),
      MemCtrlGuard.v, MemCtrlServe.v (events) and MemCtrlRun.v (runs); MemPort.v and
      MemPortSpec.v (its port with whole packets: the contents of the interfaces and the queue
      of responses).
    - base/addr_range.hh, base/bitfield.hh: AddrRange.v; base/flags.hh: Flags.v;
      base/addr_range_map.hh: AddrRangeMap.v and AddrRangeMapSpec.v (the list of ranges it
      implements); the double precision of the code: Float64.v.
    - sim/clocked_object.hh: Clocked.v.
    - sim/eventq.{hh,cc}: EventQueue.v (events and the queue over an explicit heap),
      EventQueueRep.v (the two-level linked bins), EventQueueSpec.v (the list they implement).
    - mem/packet.{hh,cc}, mem/request.hh: MemCmd.v (the commands and their table), Request.v,
      PacketData.v (class Packet with its payload).
    - mem/packet_queue.{hh,cc}, mem/qport.hh: PacketQueue.v, PacketQueueSpec.v and
      FunctionalAccess.v (functional accesses through the queue).
    - mem/abstract_mem.{hh,cc}: AbstractMem.v, AbstractMemSpec.v; MemMedium.v shows that this
      memory keeps what the class [Medium] of the controllers promises.
    - mem/bridge.{hh,cc}: Bridge.v, BridgeSpec.v (its invariant over runs, and that it
      empties); mem/simple_mem.{hh,cc}: SimpleMemory.v over AbstractMem.v,
      SimpleMemorySpec.v.
    - mem/xbar.{hh,cc}, mem/noncoherent_xbar.{hh,cc}: Layer.v (BaseXBar::Layer), XBarLayer.v
      (the invariant of a group of layers and of the ports that wait for them), XBar.v (the
      crossbar), XBarRanges.v (its range changes), XBarSpec.v (its runs).

    ** Conventions

    A class is a Record of its members in the order of the code, a method a [comp] over that
    Record; the constructor parameters that never change are a [Config].  A failed assertion,
    a panic, an access out of bounds and a division by zero are the faults of [result].
    Unsigned members are [Z], wrapped by [u32] and the like where the code computes on them
    at that width.  What the allocator leaves uninitialised is an argument ([Raw], [Alloc]).
    rand() is a stream of integers; std::sort and the iteration order of unordered_map are
    the class [StdLib]; the memory behind the controller is the class [Medium]; floating
    point is [SpecFloat].  The order of events is the order of the calls; what the requestor
    sends when it is told to retry, or from within a call, is a list of packets given to the
    handler; the last members of a Bridge, of a SimpleMemory and of a crossbar record what
    passed its ports.  The peers of a crossbar are arguments of its operations, computations
    over its state that may call it again; in a run they are the calls of a tree ([perform]),
    each made only if the protocol allows it ([permits]); the requestor of the controller's
    port is treated the same way.

    ** What the theorems show

    - The tracker flags every row in time (Detector.v); a flagged row is in the quarantine
      region and stays there for the window, and the filters of the look-up never miss it
      (RQAccess.v, RQEpoch.v); a swap keeps the row map a bijection (RRS.v) and a row swapped
      stays so for its window (RRSAccess.v); the counting
      filter has no false negatives and the hash separates rows (Bloom.v, Murmur.v); the
      throttle of BlockHammer is exact short of its threshold, divides by zero next to it,
      and never reaches the bus (BlockHammer.v, Defense.v).
    - A burst respects the DRAM timings and the activation window, the scheduler finds a ready
      packet, decoding inverts the address map, the refresh cycle closes its banks and recurs,
      the command bus is never overbooked, the NVM interface stays well formed.
    - The QoS accounts are those of the queues, escalation moves what it should; the memory
      sink refines a list of waiting packets and drains.
    - The controller: the bursts of a request are its bytes (MemCtrlSplit.v); receiving a
      request never faults and does what it promises; over any run the counters are the
      queues and as many reads are answered or wait as were accepted (MemCtrlRun.v).
    - The port of the controller answers what the contents of the interfaces say, in time and
      in order per address; a functional access sees the waiting responses or the contents
      (MemPortSpec.v).
    - The event queue refines a list of events in order of tick and priority, last in first
      out among equals, and running it to a tick ends (EventQueueSpec.v); a packet queue
      sends every packet in order and not before its tick, and drains (PacketQueueSpec.v);
      the memory refines a map of bytes and of reservations (AbstractMemSpec.v).
    - A crossbar forwards every request to the port of its address and every response to where
      its request came from, and no port that it refused is forgotten, whatever calls its peers
      make from within its own (XBarSpec.v); it knows the ranges its ports announced last, and
      the default range, or stops if they do not agree (XBarRanges.v).
    - A bridge loses, duplicates and reorders nothing, keeps room for every response, wakes
      who waits, and empties (BridgeSpec.v); the simple memory answers what the memory
      specification says, in order of acceptance per address, within its bandwidth and not
      before its latency (SimpleMemorySpec.v); the address range map refines a list of ranges
      (AddrRangeMapSpec.v).

    The class [Guard] (MemCtrlReq.v) is the interface between the controller and the defence:
    what the packet of a burst needs in order to be made.  MemCtrlGuard.v has four instances:
    one for partial correctness (a call that returns), one for a controller without defence,
    and one each for row quarantine and row swap, which need the detector to have room for
    the activations.

    [recvTimingReq_safe] is total: the call returns.  The events of the controller are
    covered by [wpf True]: whatever they do before a fault stops the simulation keeps the
    invariant; whether the interface can fault below the scheduler is settled per operation
    (DramTiming.v, DramSched.v, RefreshCycle.v, NVMInv.v) and not for the composition.

    A theorem about runs says in its comment what the peers and the configuration must keep to.
    Where the code fails without it, a theorem of the same file shows it failing:
    [refusal_after_send], [refusal_after_request], [low_bits_fail], [shared_bit_collides],
    [erase_range_dangles], [unaligned_start_missed], [chooseRead_wrong_queue],
    [queue_policies_fail], [oversize_request], [bank_mask_loses_bank_40],
    [throttle_divides_by_zero].

    ** Bounds and fuel

    Loops over a container have its length as fuel, or are structural.  The searches of the
    command bus get one more step than windows in use, which
    [verifySingleCmd_first_free] and [verifyMultiCmd_pair] show to be enough.  Row swap draws
    a row ten times and then scans them all, as the code does: a free one exists when there
    are more rows than the tables and the trackers can name.  Escalation has one more pass
    than packets of the requestor as fuel, the searches of the event queue the number of objects, and
    [serviceEvents_stops] bounds the events served up to a tick.  Ticks are 64 bits; the
    timing theorems assume a horizon below 2^64.

    ** What is not modelled

    The copying of mitigation statistics (copy_rh_stats), most statistics of gem5, the energy
    read back from the power library, the text of checkpoints and the binding of ports: none
    of them changes the state of the modelled parts.  The controllers have the view of events and packets of Packet.v, in
    which an event is the tick it is scheduled at and the payload of a packet is left out;
    MemPort.v has the answers of the memory controller with whole packets.
    Of a crossbar the counters of packets and the backdoor of an atomic access are left out;
    a peer does not change the packet it is offered.  The coherent crossbar, its snoop filter
    and the caches are not modelled.
    A controller with both a DRAM and an NVM interface is modelled; the invariant of
    MemCtrlInv.v is for one with DRAM only.  The rest of gem5 and the vendored libraries are
    unchanged upstream code. *)
From Stdlib Require Export ZArith Lia Bool.
From stdpp Require Export base tactics list gmap numbers option.
#[export] Set Default Goal Selector "!".
#[export] Set Warnings "-clear-no-such-hyp".
Open Scope Z_scope.

(** * Record update *)

(** [Settable R] is the eta-expansion of a record through its own
    projections; [Setter proj] is the update of one field, found by
    abstracting that projection in the eta-expansion. *)
Class Settable (R : Type) := eta_record : R -> R.
#[global] Hint Mode Settable ! : typeclass_instances.
Class Setter {R T : Type} (proj : R -> T) := over : (T -> T) -> R -> R.
Arguments over {R T} proj {_} f r : simpl nomatch.

Ltac find_setter R proj :=
  let e := constr:(_ : Settable R) in
  let body := eval hnf in e in
  match eval pattern proj in body with
  | ?ctx _ =>
      let s := eval cbv beta in (fun upd => ctx (fun r => upd (proj r))) in
      exact s
  end.
#[global] Hint Extern 1 (@Setter ?R _ ?proj) => find_setter R proj : typeclass_instances.

Declare Scope model_scope.
Delimit Scope model_scope with model.
Notation "r <| p := v |>" := (over p (fun _ => v) r)
  (at level 1, left associativity, p at next level, v at level 200,
   format "r  <| p  :=  v |>") : model_scope.
Notation "r <| p ::= f |>" := (over p f r)
  (at level 1, left associativity, p at next level, f at level 200,
   format "r  <| p  ::=  f |>") : model_scope.
Open Scope model_scope.

(** * Outcomes *)

(** What stops a C++ execution: a failed [assert], a [panic]/[fatal], an
    access outside an array, a division by zero.  [OutOfFuel] is no fault of the
    code: it marks a loop cut short by its fuel, which the termination theorems
    exclude. *)
Inductive fault := AssertFail | Panic | OutOfBounds | DivByZero | OutOfFuel.
#[global] Instance fault_eq_dec : EqDecision fault.
Proof. solve_decision. Defined.

Inductive result (A : Type) := Ok (a : A) | Fault (f : fault).
Arguments Ok {A} a.
Arguments Fault {A} f.

Lemma Ok_inj {A} (a b : A) : Ok a = Ok b -> a = b.
Proof. congruence. Qed.

#[global] Instance result_ret : MRet result := fun A a => Ok a.
#[global] Instance result_bind : MBind result := fun A B k m =>
  match m with Ok a => k a | Fault f => Fault f end.
#[global] Instance result_fmap : FMap result := fun A B g m =>
  match m with Ok a => Ok (g a) | Fault f => Fault f end.

(** The state-and-fault monad of an operation that updates a record [S]. *)
Definition comp (S A : Type) : Type := S -> result (A * S).

#[global] Instance comp_ret S : MRet (comp S) := fun A a s => Ok (a, s).
#[global] Instance comp_bind S : MBind (comp S) := fun A B k m s =>
  match m s with Ok (a, s') => k a s' | Fault f => Fault f end.

Section Operations.
Context {S : Type}.

Definition get : comp S S := fun s => Ok (s, s).
Definition gets {A} (g : S -> A) : comp S A := fun s => Ok (g s, s).
Definition modify (g : S -> S) : comp S unit := fun s => Ok (tt, g s).
Definition lift {A} (m : result A) : comp S A := fun s =>
  match m with Ok a => Ok (a, s) | Fault f => Fault f end.
Definition assert_ (b : bool) : comp S unit := fun s =>
  if b then Ok (tt, s) else Fault AssertFail.
Definition when_ (b : bool) (m : comp S unit) : comp S unit :=
  if b then m else mret tt.

(** [for (i = lo; i < lo + n; i++) body(i)] *)
Fixpoint for_ (n : nat) (lo : Z) (body : Z -> comp S unit) : comp S unit :=
  match n with
  | O => mret tt
  | Datatypes.S n' => body lo ;; for_ n' (lo + 1) body
  end.

(** Running an operation of a member object of [S]. *)
Definition zoom {T A} (g : S -> T) (put : T -> S -> S) (m : comp T A) : comp S A :=
  fun s => match m (g s) with
           | Ok (a, t) => Ok (a, put t s)
           | Fault f => Fault f
           end.
End Operations.

(** [m] run from [s] ends without a fault in a value and a state in [Q]. *)
Definition wp {S A} (m : comp S A) (s : S) (Q : A -> S -> Prop) : Prop :=
  match m s with Ok (a, s') => Q a s' | Fault _ => False end.

(** The same for an operation without state. *)
Definition rp {A} (m : result A) (Q : A -> Prop) : Prop :=
  match m with Ok a => Q a | Fault _ => False end.

Section Rules.
Context {S : Type}.
Implicit Types s : S.

Lemma wp_ret {A} (a : A) s (Q : A -> S -> Prop) : Q a s -> wp (mret a) s Q.
Proof. exact id. Qed.
Lemma wp_bind {A B} (m : comp S A) (k : A -> comp S B) s Q :
  wp m s (fun a s' => wp (k a) s' Q) -> wp (mbind k m) s Q.
Proof. unfold wp, mbind, comp_bind. by destruct (m s) as [[a s']|]. Qed.
Lemma wp_bind_inv {A B} (m : comp S A) (k : A -> comp S B) s Q :
  wp (mbind k m) s Q -> wp m s (fun a s' => wp (k a) s' Q).
Proof. unfold wp, mbind, comp_bind. by destruct (m s) as [[a s']|]. Qed.
Lemma wp_mono {A} (m : comp S A) s (P Q : A -> S -> Prop) :
  wp m s P -> (forall a s', P a s' -> Q a s') -> wp m s Q.
Proof. unfold wp. destruct (m s) as [[a s']|]; auto. Qed.
Lemma wp_get s (Q : S -> S -> Prop) : Q s s -> wp get s Q.
Proof. exact id. Qed.
Lemma wp_gets {A} (g : S -> A) s (Q : A -> S -> Prop) : Q (g s) s -> wp (gets g) s Q.
Proof. exact id. Qed.
Lemma wp_modify g s (Q : unit -> S -> Prop) : Q tt (g s) -> wp (modify g) s Q.
Proof. exact id. Qed.
Lemma wp_lift {A} (m : result A) s Q : rp m (fun a => Q a s) -> wp (lift m) s Q.
Proof. unfold wp, lift. by destruct m. Qed.
Lemma wp_assert b s (Q : unit -> S -> Prop) : b = true -> Q tt s -> wp (assert_ b) s Q.
Proof. by intros ->. Qed.
Lemma wp_when b m s (Q : unit -> S -> Prop) :
  (b = true -> wp m s Q) -> (b = false -> Q tt s) -> wp (when_ b m) s Q.
Proof. intros H1 H2. destruct b; [by apply H1|by apply H2]. Qed.
Lemma wp_zoom {T A} (g : S -> T) put (m : comp T A) s Q :
  wp m (g s) (fun a t => Q a (put t s)) -> wp (zoom g put m) s Q.
Proof. unfold wp, zoom. by destruct (m (g s)) as [[a t]|]. Qed.
(** The loop rule: an invariant indexed by the loop counter. *)
Lemma wp_for (I : Z -> S -> Prop) body n lo s Q :
  I lo s ->
  (forall i s', lo <= i < lo + Z.of_nat n -> I i s' ->
                wp (body i) s' (fun _ s'' => I (i + 1) s'')) ->
  (forall s', I (lo + Z.of_nat n) s' -> Q tt s') ->
  wp (for_ n lo body) s Q.
Proof.
  revert lo s. induction n as [|n IH]; intros lo s Hi Hb Hq; cbn [for_].
  - apply wp_ret, Hq. by rewrite Z.add_0_r.
  - apply wp_bind. eapply wp_mono; [apply Hb; [lia|exact Hi]|].
    intros [] s' Hs'. apply (IH (lo + 1)); [exact Hs'| |].
    + intros i s'' Hr Hi'. apply Hb; [lia|exact Hi'].
    + intros s'' H. apply Hq. by replace (lo + Z.of_nat (Datatypes.S n)) with (lo + 1 + Z.of_nat n) by lia.
Qed.

Lemma wp_ok {A} (m : comp S A) s a s' Q : m s = Ok (a, s') -> Q a s' -> wp m s Q.
Proof. unfold wp. by intros ->. Qed.
Lemma wp_run {A} (m : comp S A) s a s' (Q : A -> S -> Prop) : wp m s Q -> m s = Ok (a, s') -> Q a s'.
Proof. unfold wp. intros H E. by rewrite E in H. Qed.
Lemma wp_inv {A} (m : comp S A) s Q : wp m s Q -> exists a s', m s = Ok (a, s') /\ Q a s'.
Proof. unfold wp. destruct (m s) as [[a s']|]; [eauto|done]. Qed.
End Rules.

Lemma rp_ret {A} (a : A) Q : Q a -> rp (mret a) Q.
Proof. exact id. Qed.
Lemma rp_bind {A B} (m : result A) (k : A -> result B) Q :
  rp m (fun a => rp (k a) Q) -> rp (mbind k m) Q.
Proof. by destruct m. Qed.
Lemma rp_mono {A} (m : result A) (P Q : A -> Prop) :
  rp m P -> (forall a, P a -> Q a) -> rp m Q.
Proof. destruct m; cbn; auto. Qed.

(** [m] run from [s] faults only under [F], and otherwise ends in a value and a state in
    [Q]: total correctness when [F] is [False], partial correctness when it is [True]. *)
Definition wpf (F : Prop) {S A} (m : comp S A) (s : S) (Q : A -> S -> Prop) : Prop :=
  match m s with Ok (a, s') => Q a s' | Fault _ => F end.

Section Partial_rules.
Context {S : Type} (F : Prop).
Implicit Types s : S.

Lemma wpf_ret {A} (a : A) s (Q : A -> S -> Prop) : Q a s -> wpf F (mret a) s Q.
Proof. exact id. Qed.
Lemma wpf_bind {A B} (m : comp S A) (k : A -> comp S B) s Q :
  wpf F m s (fun a s' => wpf F (k a) s' Q) -> wpf F (mbind k m) s Q.
Proof. unfold wpf, mbind, comp_bind. by destruct (m s) as [[a s']|]. Qed.
Lemma wpf_mono {A} (m : comp S A) s (P Q : A -> S -> Prop) :
  wpf F m s P -> (forall a s', P a s' -> Q a s') -> wpf F m s Q.
Proof. unfold wpf. destruct (m s) as [[a s']|]; auto. Qed.
Lemma wpf_get s (Q : S -> S -> Prop) : Q s s -> wpf F get s Q.
Proof. exact id. Qed.
Lemma wpf_modify g s (Q : unit -> S -> Prop) : Q tt (g s) -> wpf F (modify g) s Q.
Proof. exact id. Qed.
Lemma wpf_lift {A} (m : result A) s Q :
  (forall f, m = Fault f -> F) -> (forall a, m = Ok a -> Q a s) -> wpf F (lift m) s Q.
Proof. unfold wpf, lift. destruct m; eauto. Qed.
Lemma wpf_assert b s (Q : unit -> S -> Prop) : (b = false -> F) -> (b = true -> Q tt s) -> wpf F (assert_ b) s Q.
Proof. unfold wpf, assert_. destruct b; auto. Qed.
Lemma wpf_when b m s (Q : unit -> S -> Prop) :
  (b = true -> wpf F m s Q) -> (b = false -> Q tt s) -> wpf F (when_ b m) s Q.
Proof. intros H1 H2. destruct b; [by apply H1|by apply H2]. Qed.
Lemma wpf_zoom {T A} (g : S -> T) put (m : comp T A) s Q :
  wpf F m (g s) (fun a t => Q a (put t s)) -> wpf F (zoom g put m) s Q.
Proof. unfold wpf, zoom. by destruct (m (g s)) as [[a t]|]. Qed.

(** From total correctness, and back. *)
Lemma wpf_wp {A} (m : comp S A) s Q : wp m s Q -> wpf F m s Q.
Proof. unfold wp, wpf. by destruct (m s) as [[a s']|]. Qed.
Lemma wpf_any {A} (m : comp S A) s (Q : A -> S -> Prop) : F -> (forall a s', Q a s') -> wpf F m s Q.
Proof. unfold wpf. destruct (m s) as [[a s']|]; auto. Qed.
Lemma wpf_run {A} (m : comp S A) s a s' (Q : A -> S -> Prop) : wpf F m s Q -> m s = Ok (a, s') -> Q a s'.
Proof. unfold wpf. intros H E. by rewrite E in H. Qed.
Lemma wpf_of {A} (m : comp S A) s (Q : A -> S -> Prop) :
  F -> (forall a s', m s = Ok (a, s') -> Q a s') -> wpf F m s Q.
Proof. unfold wpf. intros H HQ. destruct (m s) as [[a s']|]; auto. Qed.
End Partial_rules.
Lemma wpf_total {S A} (m : comp S A) (s : S) Q : wpf False m s Q -> wp m s Q.
Proof. exact id. Qed.

(** One structural step of a [wpf] goal. *)
Ltac wpf_step :=
  cbv beta;
  lazymatch goal with
  | |- wpf _ (mbind _ _) _ _ => apply wpf_bind
  | |- wpf _ (mret _) _ _ => apply wpf_ret
  | |- wpf _ get _ _ => apply wpf_get
  | |- wpf _ (modify _) _ _ => apply wpf_modify
  | |- wpf _ (zoom _ _ _) _ _ => apply wpf_zoom
  | |- wpf _ (when_ _ _) _ _ => apply wpf_when; intros ?
  end.

(** One structural step of a [wp] goal. *)
Ltac wp_step :=
  cbv beta;
  lazymatch goal with
  | |- wp (mbind _ _) _ _ => apply wp_bind
  | |- wp (mret _) _ _ => apply wp_ret
  | |- wp get _ _ => apply wp_get
  | |- wp (gets _) _ _ => apply wp_gets
  | |- wp (modify _) _ _ => apply wp_modify
  | |- wp (lift _) _ _ => apply wp_lift
  | |- wp (zoom _ _ _) _ _ => apply wp_zoom
  | |- rp (mbind _ _) _ => apply rp_bind
  | |- rp (mret _) _ => apply rp_ret
  | |- rp (Ok _) _ => apply rp_ret
  end.
Ltac wp_steps := repeat (wp_step; cbn beta iota).
(** The same with a case split at every conditional met. *)
Ltac wp_split :=
  lazymatch goal with
  | |- wp (when_ ?b _) _ _ => apply wp_when; intros ?
  | |- wp (if ?b then _ else _) _ _ => destruct b eqn:?
  end.
Ltac wp_cases := repeat ((wp_step || wp_split); cbn beta iota).

(** * Machine integers *)

Definition u8 (x : Z) : Z := x mod 2 ^ 8.
Definition u32 (x : Z) : Z := x mod 2 ^ 32.
Definition u64 (x : Z) : Z := x mod 2 ^ 64.
Arguments u8 : simpl never.
Arguments u32 : simpl never.
Arguments u64 : simpl never.

Lemma u8_small x : 0 <= x < 2 ^ 8 -> u8 x = x.
Proof. apply Z.mod_small. Qed.
Lemma u32_small x : 0 <= x < 2 ^ 32 -> u32 x = x.
Proof. apply Z.mod_small. Qed.
Lemma u64_small x : 0 <= x < 2 ^ 64 -> u64 x = x.
Proof. apply Z.mod_small. Qed.
Lemma u32_range x : 0 <= u32 x < 2 ^ 32.
Proof. apply Z.mod_pos_bound. lia. Qed.
Lemma u64_range x : 0 <= u64 x < 2 ^ 64.
Proof. apply Z.mod_pos_bound. lia. Qed.

(** Unsigned division and remainder; C++ leaves a zero divisor undefined. *)
Definition udiv (x y : Z) : result Z := if y =? 0 then Fault DivByZero else Ok (x / y).
Definition umod (x y : Z) : result Z := if y =? 0 then Fault DivByZero else Ok (x mod y).

Lemma rp_udiv x y Q : y <> 0 -> Q (x / y) -> rp (udiv x y) Q.
Proof. intros H. unfold udiv. by destruct (Z.eqb_spec y 0). Qed.
Lemma rp_umod x y Q : y <> 0 -> Q (x mod y) -> rp (umod x y) Q.
Proof. intros H. unfold umod. by destruct (Z.eqb_spec y 0). Qed.

(** * Bits *)

(** [x] is a [w]-bit value. *)
Definition in_width (w x : Z) : Prop := 0 <= x < 2 ^ w.

Create Rewrite HintDb bits.
#[export] Hint Rewrite Z.lxor_spec Z.land_spec Z.lor_spec Z.ldiff_spec Z.bits_0 : bits.
#[export] Hint Rewrite Z.shiftr_spec Z.shiftl_spec Z.lnot_spec using lia : bits.

Lemma in_width_bits w x : 0 <= w ->
  in_width w x <-> 0 <= x /\ forall i, w <= i -> Z.testbit x i = false.
Proof.
  intros Hw. unfold in_width. split.
  - intros Hx. split; [lia|]. intros i Hi. rewrite <- (Z.mod_small x (2 ^ w)) by done.
    by apply Z.mod_pow2_bits_high.
  - intros [Hx Hb]. split; [done|]. destruct (decide (x = 0)) as [->|]; [lia|].
    apply Z.log2_lt_pow2; [lia|]. destruct (Z.lt_ge_cases (Z.log2 x) w) as [|Hge]; [done|].
    pose proof (Hb _ Hge) as Hb'. by rewrite Z.bit_log2 in Hb' by lia.
Qed.

Lemma in_width_high w x i : in_width w x -> 0 <= w <= i -> Z.testbit x i = false.
Proof. intros Hx Hi. apply (in_width_bits w x) in Hx as [_ H]; [apply H|]; lia. Qed.

Lemma in_width_lxor w x y : 0 <= w -> in_width w x -> in_width w y -> in_width w (Z.lxor x y).
Proof.
  intros Hw Hx Hy. apply in_width_bits; [done|].
  split; [by apply Z.lxor_nonneg; unfold in_width in *; intuition lia|].
  intros i Hi. autorewrite with bits. rewrite !(in_width_high w); done.
Qed.
Lemma in_width_lor w x y : 0 <= w -> in_width w x -> in_width w y -> in_width w (Z.lor x y).
Proof.
  intros Hw Hx Hy. apply in_width_bits; [done|].
  split; [by apply Z.lor_nonneg; unfold in_width in *; lia|].
  intros i Hi. autorewrite with bits. rewrite !(in_width_high w); done.
Qed.
Lemma in_width_shiftr w x k : 0 <= w -> 0 <= k -> in_width w x -> in_width w (Z.shiftr x k).
Proof.
  intros Hw Hk Hx. apply in_width_bits; [done|].
  split; [by apply Z.shiftr_nonneg; unfold in_width in *; lia|].
  intros i Hi. autorewrite with bits. apply (in_width_high w); [done|lia].
Qed.
Lemma in_width_mod w x : 0 <= w -> in_width w (x mod 2 ^ w).
Proof. intros Hw. apply Z.mod_pos_bound. lia. Qed.

(** Splitting a value at bit [k]. *)
Lemma lor_low_high x k : 0 <= k ->
  Z.lor (Z.land x (Z.ones k)) (Z.shiftl (Z.shiftr x k) k) = x.
Proof.
  intros Hk. apply Z.bits_inj'. intros i Hi. autorewrite with bits.
  destruct (Z.lt_ge_cases i k).
  - rewrite Z.ones_spec_low, (Z.testbit_neg_r _ (i - k)) by lia.
    by rewrite andb_true_r, orb_false_r.
  - rewrite Z.ones_spec_high, Z.shiftr_spec by lia.
    rewrite andb_false_r. cbn. f_equal. lia.
Qed.

(** * Arrays *)

(** A C array is a list read and written at a [Z] index. *)
Definition zlen {A} (l : list A) : Z := Z.of_nat (length l).

#[global] Instance zlist_lookup A : Lookup Z A (list A) := fun i l =>
  if i <? 0 then None else l !! Z.to_nat i.
#[global] Instance zlist_insert A : Insert Z A (list A) := fun i x l =>
  if i <? 0 then l else <[Z.to_nat i := x]> l.

(** [calloc(n, sizeof(A))] with the all-zero element. *)
Definition calloc {A} (n : Z) (zero : A) : list A := replicate (Z.to_nat n) zero.

Definition aread {A} (l : list A) (i : Z) : result A :=
  match l !! i with Some x => Ok x | None => Fault OutOfBounds end.
Definition awrite {A} (l : list A) (i : Z) (x : A) : result (list A) :=
  if (0 <=? i) && (i <? zlen l) then Ok (<[i := x]> l) else Fault OutOfBounds.
(** An operation on an element of an array that is part of the state. *)
Definition zoom_at {S T A} (g : S -> list T) (put : list T -> S -> S) (i : Z) (m : comp T A) : comp S A :=
  fun s => match g s !! i with
           | Some x => match m x with
                       | Ok (a, x') => Ok (a, put (<[i := x']> (g s)) s)
                       | Fault f => Fault f
                       end
           | None => Fault OutOfBounds
           end.
Lemma wp_zoom_at {S T A} (g : S -> list T) put i x (m : comp T A) (s : S) Q :
  g s !! i = Some x -> wp m x (fun a x' => Q a (put (<[i := x']> (g s)) s)) -> wp (zoom_at g put i m) s Q.
Proof. unfold wp, zoom_at. intros ->. by destruct (m x) as [[a x']|]. Qed.

Section Arrays.
Context {A : Type}.
Implicit Types (l : list A) (i j : Z).

Lemma zlen_nonneg l : 0 <= zlen l.
Proof. unfold zlen. lia. Qed.
Lemma zlookup_lt l i x : l !! i = Some x -> 0 <= i < zlen l.
Proof.
  unfold lookup, zlist_lookup, zlen. destruct (Z.ltb_spec i 0); [done|].
  intros H'%lookup_lt_Some. lia.
Qed.
Lemma zlookup_is_Some l i : 0 <= i < zlen l -> exists x, l !! i = Some x.
Proof.
  unfold lookup, zlist_lookup, zlen. intros. destruct (Z.ltb_spec i 0); [lia|].
  apply lookup_lt_is_Some. lia.
Qed.
Lemma zlookup_None l i : l !! i = None -> i < 0 \/ zlen l <= i.
Proof.
  unfold lookup, zlist_lookup, zlen. destruct (Z.ltb_spec i 0); [lia|].
  intros H2%lookup_ge_None. lia.
Qed.
Lemma zlookup_nat l (n : nat) : l !! Z.of_nat n = l !! n.
Proof.
  unfold lookup at 1, zlist_lookup. destruct (Z.ltb_spec (Z.of_nat n) 0); [lia|].
  by rewrite Nat2Z.id.
Qed.
Lemma zlookup_nil i : ([] : list A) !! i = None.
Proof. unfold lookup, zlist_lookup. by destruct (i <? 0). Qed.
Lemma zlookup_cons_0 a l : (a :: l) !! 0 = Some a.
Proof. done. Qed.
Lemma zlookup_cons_succ a l i : 0 <= i -> (a :: l) !! (i + 1) = l !! i.
Proof.
  intros H. unfold lookup, zlist_lookup.
  destruct (Z.ltb_spec i 0), (Z.ltb_spec (i + 1) 0); try lia.
  by rewrite Z2Nat.inj_add, Nat.add_1_r by lia.
Qed.
Lemma zlookup_cons a l i x :
  (a :: l) !! i = Some x -> (i = 0 /\ x = a) \/ (0 < i /\ l !! (i - 1) = Some x).
Proof.
  intros H. pose proof (zlookup_lt _ _ _ H). destruct (decide (i = 0)) as [->|].
  - rewrite zlookup_cons_0 in H. left. by simplify_eq.
  - right. replace i with (i - 1 + 1) in H by lia.
    rewrite zlookup_cons_succ in H by lia. split; [lia|done].
Qed.
Lemma zlen_insert l i x : zlen (<[i := x]> l) = zlen l.
Proof.
  unfold insert, zlist_insert, zlen. destruct (i <? 0); [done|].
  by rewrite length_insert.
Qed.
Lemma zlookup_insert_eq l i x : 0 <= i < zlen l -> <[i := x]> l !! i = Some x.
Proof.
  unfold lookup, zlist_lookup, insert, zlist_insert, zlen. intros.
  destruct (Z.ltb_spec i 0); [lia|]. apply list_lookup_insert_eq. lia.
Qed.
Lemma zlookup_insert_ne l i j x : i <> j -> <[i := x]> l !! j = l !! j.
Proof.
  unfold lookup, zlist_lookup, insert, zlist_insert. intros.
  destruct (Z.ltb_spec i 0), (Z.ltb_spec j 0); try done.
  apply list_lookup_insert_ne. lia.
Qed.
Lemma zlookup_insert l i j x y :
  <[i := x]> l !! j = Some y ->
  (i = j /\ y = x /\ 0 <= i < zlen l) \/ (i <> j /\ l !! j = Some y).
Proof.
  intros H. destruct (decide (i = j)) as [->|Hne].
  - left. pose proof (zlookup_lt _ _ _ H) as Hr. rewrite zlen_insert in Hr.
    rewrite zlookup_insert_eq in H by done. by simplify_eq.
  - right. by rewrite zlookup_insert_ne in H.
Qed.
Lemma zlookup_calloc n i (x y : A) : calloc n x !! i = Some y -> y = x /\ 0 <= i < n.
Proof.
  unfold calloc, lookup, zlist_lookup. destruct (Z.ltb_spec i 0); [done|].
  intros [-> Hlt]%lookup_replicate. split; [done|lia].
Qed.
Lemma zlookup_calloc_eq n i (x : A) : 0 <= i < n -> calloc n x !! i = Some x.
Proof.
  unfold calloc, lookup, zlist_lookup. intros. destruct (Z.ltb_spec i 0); [lia|].
  apply lookup_replicate. split; [done|lia].
Qed.
Lemma zlen_calloc n (x : A) : 0 <= n -> zlen (calloc n x) = n.
Proof. unfold zlen, calloc. rewrite length_replicate. lia. Qed.

Lemma rp_aread l i x Q : l !! i = Some x -> Q x -> rp (aread l i) Q.
Proof. unfold aread. by intros ->. Qed.
Lemma rp_awrite l i x Q : 0 <= i < zlen l -> Q (<[i := x]> l) -> rp (awrite l i x) Q.
Proof.
  unfold awrite. intros H. destruct (Z.leb_spec 0 i), (Z.ltb_spec i (zlen l)); try lia.
  done.
Qed.
End Arrays.

Lemma zlookup_fmap {A B} (g : A -> B) (l : list A) (i : Z) : (g <$> l) !! i = g <$> l !! i.
Proof.
  unfold lookup, zlist_lookup. destruct (i <? 0); [done|]. apply list_lookup_fmap.
Qed.
Lemma zlen_fmap {A B} (g : A -> B) (l : list A) : zlen (g <$> l) = zlen l.
Proof. unfold zlen. by rewrite length_fmap. Qed.

Lemma elem_of_zlookup {A} (l : list A) (i : Z) x : l !! i = Some x -> x ∈ l.
Proof.
  unfold lookup, zlist_lookup. destruct (i <? 0); [done|]. apply list_elem_of_lookup_2.
Qed.

Lemma Forall_zlookup {A} (P : A -> Prop) l (i : Z) x : Forall P l -> l !! i = Some x -> P x.
Proof. unfold lookup, zlist_lookup. destruct (i <? 0); [done|]. intros H Hx. by eapply Forall_lookup_1. Qed.
Lemma Forall_zinsert {A} (P : A -> Prop) l (i : Z) x : Forall P l -> P x -> Forall P (<[i := x]> l).
Proof.
  intros H Hx. unfold insert, zlist_insert. destruct (i <? 0); [done|]. by apply Forall_insert.
Qed.

(** [for (i ...) if (p(l[i])) { found = i; break; }]: the first index, from
    [lo] on, of an element that satisfies [p]. *)
Fixpoint first_index {A} (p : A -> bool) (l : list A) (lo : Z) : option Z :=
  match l with
  | [] => None
  | x :: l' => if p x then Some lo else first_index p l' (lo + 1)
  end.

Lemma first_index_spec {A} (p : A -> bool) (l : list A) :
  match first_index p l 0 with
  | Some i => exists x, l !! i = Some x /\ p x = true
  | None => forall (i : Z) x, l !! i = Some x -> p x = false
  end.
Proof.
  enough (H : forall lo, match first_index p l lo with
    | Some i => exists x, l !! (i - lo) = Some x /\ p x = true
    | None => forall (i : Z) x, l !! i = Some x -> p x = false end).
  { specialize (H 0). destruct (first_index p l 0); [|done]. by rewrite Z.sub_0_r in H. }
  induction l as [|x l IH]; intros lo; cbn.
  { intros i x Hx. by rewrite zlookup_nil in Hx. }
  destruct (p x) eqn:Hp.
  { exists x. by rewrite Z.sub_diag, zlookup_cons_0. }
  specialize (IH (lo + 1)). destruct (first_index p l (lo + 1)) as [i|].
  - destruct IH as (x' & Hx' & Hp'). exists x'. split; [|done].
    pose proof (zlookup_lt _ _ _ Hx'). replace (i - lo) with (i - (lo + 1) + 1) by lia.
    by rewrite zlookup_cons_succ by lia.
  - intros i x' [[-> ->]|[_ Hx']]%zlookup_cons; [done|by eapply IH].
Qed.

(** * Sums over an array *)

Section Sums.
Context {A : Type} (f : A -> Z).

Fixpoint lsum (l : list A) : Z :=
  match l with [] => 0 | x :: l' => f x + lsum l' end.

Lemma lsum_insert_nat l (n : nat) x y :
  l !! n = Some x -> lsum (<[n := y]> l) = lsum l - f x + f y.
Proof.
  revert n. induction l as [|a l IH]; intros [|n] H; try done.
  - cbn in *. simplify_eq. lia.
  - change (f a + lsum (<[n := y]> l) = f a + lsum l - f x + f y).
    rewrite (IH n H). lia.
Qed.
Lemma lsum_insert l (i : Z) x y :
  l !! i = Some x -> lsum (<[i := y]> l) = lsum l - f x + f y.
Proof.
  intros H. pose proof (zlookup_lt _ _ _ H).
  unfold lookup, zlist_lookup in H. unfold insert, zlist_insert.
  destruct (Z.ltb_spec i 0); [lia|]. by apply lsum_insert_nat.
Qed.
Lemma lsum_lower l c :
  (forall (i : Z) x, l !! i = Some x -> c <= f x) -> c * zlen l <= lsum l.
Proof.
  induction l as [|a l IH]; intros H; unfold zlen in *; cbn [lsum length]; [lia|].
  pose proof (H 0 a (zlookup_cons_0 a l)).
  enough (c * Z.of_nat (length l) <= lsum l) by lia.
  apply IH. intros i x Hx. pose proof (zlookup_lt _ _ _ Hx).
  apply (H (i + 1)). by rewrite zlookup_cons_succ by lia.
Qed.
Lemma lsum_calloc n x : 0 <= n -> lsum (calloc n x) = n * f x.
Proof.
  intros Hn. unfold calloc. rewrite <- (Z2Nat.id n) at 2 by done.
  induction (Z.to_nat n) as [|k IH]; cbn [replicate lsum]; lia.
Qed.
(** One element of a sum of naturals is at most the sum. *)
Lemma lsum_elem l (i : Z) x :
  (forall (j : Z) y, l !! j = Some y -> 0 <= f y) -> l !! i = Some x -> f x <= lsum l.
Proof.
  intros H Hi. revert i Hi. induction l as [|a l IH]; intros i Hi.
  { by rewrite zlookup_nil in Hi. }
  assert (Htl : forall (j : Z) y, l !! j = Some y -> 0 <= f y).
  { intros j y Hj. pose proof (zlookup_lt _ _ _ Hj). apply (H (j + 1)).
    by rewrite zlookup_cons_succ by lia. }
  pose proof (H 0 a (zlookup_cons_0 a l)). pose proof (lsum_lower l 0 Htl).
  cbn [lsum]. apply zlookup_cons in Hi as [[-> ->]|[? Hi]]; [lia|].
  enough (f x <= lsum l) by lia. by apply (IH Htl (i - 1)).
Qed.
End Sums.

Lemma lsum_app {A} (f : A -> Z) (l k : list A) : lsum f (l ++ k) = lsum f l + lsum f k.
Proof. induction l as [|x l IH]; [done|]. change (f x + lsum f (l ++ k) = f x + lsum f l + lsum f k). lia. Qed.

(** [bump f r k] adds [k] to the value of [f] at [r]. *)
Definition bump (f : Z -> Z) (r k : Z) : Z -> Z :=
  fun x => if x =? r then f x + k else f x.
Lemma bump_eq f r k : bump f r k r = f r + k.
Proof. unfold bump. by rewrite Z.eqb_refl. Qed.
Lemma bump_ne f r k x : x <> r -> bump f r k x = f x.
Proof. unfold bump. by destruct (Z.eqb_spec x r). Qed.

(** A counter passes a multiple of [d] exactly when its remainder is zero. *)
Lemma div_succ c d : 0 <= c -> 0 < d ->
  (c + 1) / d = c / d + Z.b2z ((c + 1) mod d =? 0).
Proof.
  intros Hc Hd. pose proof (Z.div_mod (c + 1) d ltac:(lia)).
  pose proof (Z.mod_pos_bound (c + 1) d Hd).
  pose proof (Z.div_mod c d ltac:(lia)). pose proof (Z.mod_pos_bound c d Hd).
  destruct (Z.eqb_spec ((c + 1) mod d) 0); cbn [Z.b2z]; nia.
Qed.
