(* ===== verification/AddrRange.v ===== *)
(** Address ranges with interleaving ([base/addr_range.hh], [base/bitfield.hh]): which
    addresses belong to a channel, and their offsets in it. *)
From S2P Require Import Prelude.
From stdpp Require Import sorting.
From Stdlib Require Import Btauto.
Open Scope Z_scope.

Module AddrRange.

(** ** Bit fields *)

Definition mask (nbits : Z) : Z := if 64 <=? nbits then 2 ^ 64 - 1 else 2 ^ nbits - 1.
Definition insertBits (val first last bit_val : Z) : result Z :=
  if 0 <=? first - last then
    let bmask := u64 (Z.shiftl (mask (first - last + 1)) last) in
    Ok (Z.lor (Z.land (u64 (Z.shiftl bit_val last)) bmask) (Z.ldiff val bmask))
  else Fault AssertFail.
Definition bits (val bit : Z) : Z := Z.land (Z.shiftr val bit) (mask 1).
Definition popCount (val : Z) : Z := lsum (fun i => Z.b2z (Z.testbit val i)) (seqZ 0 64).
Definition ctz64 (value : Z) : Z := default 64 (first_index (Z.testbit value) (seqZ 0 64) 0).

(** ** The range *)

Record t := mkRange { start : Z; end_ : Z; masks : list Z; intlvMatch : Z }.

Definition create_masks (start end_ : Z) (masks : list Z) (intlv_match : Z) : result t :=
  if negb (zlen masks =? 0) && (2 ^ zlen masks <=? intlv_match) then Fault Panic
  else Ok (mkRange start end_ masks intlv_match).
(** The mask at [_intlv_bits - i - 1]. *)
Definition intlv_mask (high_bit xor_high_bit i : Z) : Z :=
  let bit1 := u8 (high_bit - i) in
  if negb (xor_high_bit =? 0) then Z.lor (Z.shiftl 1 bit1) (Z.shiftl 1 (u8 (xor_high_bit - i))) else Z.shiftl 1 bit1.
Definition create (start end_ high_bit xor_high_bit intlv_bits intlv_match : Z) : result t :=
  if negb (intlv_bits =? 0) && (2 ^ intlv_bits <=? intlv_match) then Fault Panic
  else if negb (intlv_bits =? 0) && negb (xor_high_bit =? 0)
          && ((xor_high_bit =? high_bit) || (Z.abs (xor_high_bit - high_bit) <? intlv_bits)) then Fault Panic
  else Ok (mkRange start end_ (rev (intlv_mask high_bit xor_high_bit <$> seqZ 0 intlv_bits)) intlv_match).

Definition interleaved (r : t) : bool := 0 <? zlen (masks r).
(** The masks are combined in an [int]; the cast to [uint64_t] extends its sign. *)
Definition s32 (x : Z) : Z := (x + 2 ^ 31) mod 2 ^ 32 - 2 ^ 31.
Definition size (r : t) : Z := Z.shiftr (u64 (end_ r - start r)) (zlen (masks r)).
Definition granularity (r : t) : Z :=
  if interleaved r then 2 ^ ctz64 (u64 (foldl (fun c m => s32 (Z.lor (u64 c) m)) 0 (masks r))) else size r.
Definition stripes (r : t) : Z := u32 (2 ^ zlen (masks r)).
Definition valid (r : t) : bool := start r <=? end_ r.
Definition mergesWith (q r : t) : bool :=
  (start r =? start q) && (end_ r =? end_ q) && bool_decide (masks r = masks q).

(** The selector of an address, of which mask [i] gives bit [i]. *)
Fixpoint selector (a i : Z) (ms : list Z) : Z :=
  match ms with
  | [] => 0
  | m :: ms' => Z.lor (Z.shiftl (popCount (Z.land a m) mod 2) i) (selector a (i + 1) ms')
  end.
Definition contains (r : t) (a : Z) : bool :=
  (start r <=? a) && (a <? end_ r) && (selector a 0 (masks r) =? intlvMatch r).

Definition intersects (q r : t) : result bool :=
  if (end_ r <=? start q) || (end_ q <=? start r) then Ok false
  else if negb (interleaved q) && negb (interleaved r) then Ok true
  else if size r =? 1 then Ok (contains q (start r))
  else if mergesWith q r then Ok (intlvMatch q =? intlvMatch r)
  else Fault Panic.
Definition isSubset (q r : t) : result bool :=
  if interleaved q then Fault Panic
  else if interleaved r then Ok (contains r (start q) && contains r (u64 (end_ q - 1)) && (size q <=? granularity r))
  else Ok ((start r <=? start q) && (end_ q <=? end_ r)).

(** The merge of a list of ranges. *)
Fixpoint check_merge (q : t) (match_ : Z) (l : list t) : result unit :=
  match l with
  | [] => Ok tt
  | r :: l' => if negb (mergesWith q r) then Fault Panic
               else if negb (intlvMatch r =? match_) then Fault Panic else check_merge q (u8 (match_ + 1)) l'
  end.
Definition merge (l : list t) : result t :=
  match l with
  | [] => Ok (mkRange 1 0 [] 0)
  | [r] => Ok r
  | r :: _ =>
      if negb (zlen l =? 2 ^ zlen (masks r)) then Fault Panic
      else check_merge r 0 l;; Ok (mkRange (start r) (end_ r) [] 0)
  end.

(** ** Interleaving bits *)

#[global] Instance le_dec : RelDecision Z.le := fun x y => decide (x <= y).
Definition masks_lsb (r : t) : list Z := merge_sort Z.le (ctz64 <$> masks r).

Fixpoint remove_bits (l : list Z) (i a : Z) : result Z :=
  match l with
  | [] => Ok a
  | intlv_bit :: l' =>
      a ← (if 0 <? intlv_bit then insertBits (Z.shiftr a 1) (intlv_bit - i - 1) 0 a else Ok (Z.shiftr a 1));
      remove_bits l' (i + 1) a
  end.
Definition removeIntlvBits (r : t) (a : Z) : result Z := remove_bits (masks_lsb r) 0 a.

Fixpoint add_bits (l : list Z) (i a : Z) : result Z :=
  match l with
  | [] => Ok a
  | intlv_bit :: l' =>
      a ← (if 0 <? intlv_bit then insertBits (u64 (Z.shiftl a 1)) (intlv_bit + i - 1) 0 a else Ok (u64 (Z.shiftl a 1)));
      add_bits l' (i + 1) a
  end.
(** The lowest bit of each mask is set to what the selector wants. *)
Fixpoint set_selector (match_ i : Z) (ms : list Z) (a : Z) : result Z :=
  match ms with
  | [] => Ok a
  | m :: ms' =>
      let lsb := ctz64 m in
      let intlv_bit := bits match_ i in
      let masked := Z.ldiff (Z.land a m) (s32 (Z.shiftl 1 lsb)) in
      a ← insertBits a lsb lsb (Z.lxor intlv_bit (popCount masked));
      set_selector match_ (i + 1) ms' a
  end.
Definition addIntlvBits (r : t) (a : Z) : result Z :=
  a ← add_bits (masks_lsb r) 0 a; set_selector (intlvMatch r) 0 (masks r) a.

Definition MaxAddr : Z := 2 ^ 64 - 1.
Definition getOffset (r : t) (a : Z) : result Z :=
  if (start r <=? a) && (a <? end_ r) then
    if interleaved r then
      x ← removeIntlvBits r a; y ← removeIntlvBits r (start r); Ok (u64 (x - y))
    else Ok (u64 (a - start r))
  else Ok MaxAddr.

(** ** Removing the interleaving bits *)

(** Two addresses agree on the bits outside [l]. *)
Definition agree (l : list Z) (x y : Z) : Prop := forall i, 0 <= i -> ~ In i l -> Z.testbit x i = Z.testbit y i.

Lemma testbit_mask n i : 0 <= n <= 64 -> 0 <= i -> Z.testbit (mask n) i = (i <? n).
Proof.
  intros Hn Hi. unfold mask. destruct (Z.leb_spec 64 n).
  - replace n with 64 by lia. change (2 ^ 64 - 1) with (Z.ones 64). apply Z.testbit_ones_nonneg; lia.
  - replace (2 ^ n - 1) with (Z.ones n) by (rewrite Z.ones_equiv; lia). apply Z.testbit_ones_nonneg; lia.
Qed.
(** One removal: the bits below [k] stay, those above move down. *)
Lemma remove_bit_spec k a : 0 < k < 64 -> in_width 64 a ->
  exists b, insertBits (Z.shiftr a 1) (k - 1) 0 a = Ok b /\ in_width 64 b /\
    forall i, 0 <= i -> Z.testbit b i = if i <? k then Z.testbit a i else Z.testbit a (i + 1).
Proof.
  intros Hk Ha. unfold insertBits. destruct (Z.leb_spec 0 (k - 1 - 0)); [|lia]. eexists. split; [reflexivity|].
  rewrite !Z.shiftl_0_r. replace (k - 1 - 0 + 1) with k by lia.
  assert (forall i, 0 <= i -> Z.testbit (u64 (mask k)) i = (i <? k)) as Hm.
  { intros i Hi. unfold u64. destruct (Z.ltb_spec i 64).
    - rewrite Z.mod_pow2_bits_low by lia. apply testbit_mask; lia.
    - rewrite Z.mod_pow2_bits_high by lia. symmetry. apply Z.ltb_ge. lia. }
  assert (u64 a = a) as -> by (by apply u64_small).
  assert (forall i, 0 <= i -> Z.testbit (Z.lor (Z.land a (u64 (mask k))) (Z.ldiff (Z.shiftr a 1) (u64 (mask k)))) i =
    if i <? k then Z.testbit a i else Z.testbit a (i + 1)) as Hb.
  { intros i Hi. autorewrite with bits. rewrite Hm by lia. destruct (i <? k); cbn; btauto. }
  split; [|exact Hb]. apply in_width_bits; [lia|]. split.
  - apply Z.lor_nonneg. split; [apply Z.land_nonneg; left; unfold in_width in Ha; lia|].
    apply Z.ldiff_nonneg. left. apply Z.shiftr_nonneg. unfold in_width in Ha. lia.
  - intros i Hi. rewrite Hb by lia. destruct (Z.ltb_spec i k); [lia|]. apply (in_width_high 64); [done|lia].
Qed.

(** From position [i] on: the lowest bits still to be removed, in increasing order. *)
Fixpoint ascending (lo : Z) (l : list Z) : Prop :=
  match l with [] => True | k :: l' => lo <= k < 64 /\ ascending (k + 1) l' end.

Lemma ascending_lower lo l k : ascending lo l -> In k l -> lo <= k < 64.
Proof. revert lo. induction l as [|x l IH]; intros lo H; [done|]. destruct H as [Hx H]. intros [->|Hk]; [lia|]. specialize (IH _ H Hk). lia. Qed.

Lemma remove_bits_spec l : forall i a a', 0 <= i -> ascending (i + 1) l -> in_width 64 a -> in_width 64 a' ->
  exists b b', remove_bits l i a = Ok b /\ remove_bits l i a' = Ok b' /\ in_width 64 b /\ in_width 64 b' /\
    (b = b' -> agree ((fun k => k - i) <$> l) a a').
Proof.
  induction l as [|k l IH]; intros i a a' Hi Hl Ha Ha'; cbn [remove_bits].
  { exists a, a'. do 4 (split; [done|]). by intros ->. }
  destruct Hl as [Hk Hl]. rewrite (proj2 (Z.ltb_lt 0 k)) by lia.
  destruct (remove_bit_spec (k - i) a ltac:(lia) Ha) as (x & -> & Hx & Ex).
  destruct (remove_bit_spec (k - i) a' ltac:(lia) Ha') as (x' & -> & Hx' & Ex').
  destruct (IH (i + 1) x x' ltac:(lia)) as (b & b' & Eb & Eb' & Hb & Hb' & Hag); [|done|done|].
  { clear -Hl Hk. destruct l as [|k' l]; [done|]. destruct Hl. split; [lia|done]. }
  exists b, b'. cbn. do 4 (split; [done|]). intros <-. specialize (Hag eq_refl). intros j Hj Hn.
  assert (forall k', In k' l -> j + i <> k') as Hne.
  { intros k' Hk' Ek. apply Hn. right. apply in_map_iff. exists k'. split; [lia|done]. }
  destruct (Z.lt_trichotomy j (k - i)) as [Hlt|[Heq|Hgt]].
  - specialize (Hag j Hj). rewrite Ex, Ex' in Hag by lia. destruct (Z.ltb_spec j (k - i)); [|lia]. apply Hag.
    intros (k' & E' & Hk')%in_map_iff. pose proof (ascending_lower _ _ _ Hl Hk'). lia.
  - exfalso. apply Hn. left. lia.
  - specialize (Hag (j - 1) ltac:(lia)). rewrite Ex, Ex' in Hag by lia. destruct (Z.ltb_spec (j - 1) (k - i)); [lia|].
    replace (j - 1 + 1) with j in Hag by lia. apply Hag. intros (k' & E' & Hk')%in_map_iff. apply (Hne k' Hk'). lia.
Qed.

(** ** The selector *)

Lemma lsum_flip (f g : Z -> Z) l b : NoDup l -> In b l -> (forall i, In i l -> i <> b -> f i = g i) ->
  lsum f l - f b = lsum g l - g b.
Proof.
  induction l as [|x l IH]; [done|]. intros [Hx Hl]%NoDup_cons Hb Hfg. cbn [lsum].
  destruct (decide (x = b)) as [->|Hne].
  - enough (lsum f l = lsum g l) by lia. clear IH Hb.
    assert (forall i, In i l -> f i = g i) as Hall.
    { intros i Hi. apply Hfg; [by right|]. intros ->. apply Hx. by apply list_elem_of_In. }
    clear Hfg Hx Hl. induction l as [|y l IH]; [done|]. cbn. rewrite (Hall y) by (by left). rewrite IH; [done|].
    intros i Hi. apply Hall. by right.
  - destruct Hb as [->|Hb]; [done|]. rewrite (Hfg x) by (by left || done).
    enough (lsum f l - f b = lsum g l - g b) by lia. apply IH; [done|done|]. intros i Hi. apply Hfg. by right.
Qed.
(** One bit more changes the parity. *)
Lemma popCount_flip x y b : 0 <= b < 64 -> Z.testbit x b <> Z.testbit y b ->
  (forall i, 0 <= i < 64 -> i <> b -> Z.testbit x i = Z.testbit y i) -> popCount x mod 2 <> popCount y mod 2.
Proof.
  intros Hb Hd Hs. pose proof (lsum_flip (fun i => Z.b2z (Z.testbit x i)) (fun i => Z.b2z (Z.testbit y i)) (seqZ 0 64) b) as HF.
  assert (forall i, In i (seqZ 0 64) <-> 0 <= i < 64) as Hin.
  { intros i. rewrite <- list_elem_of_In, elem_of_seqZ. lia. }
  specialize (HF (NoDup_seqZ _ _)). rewrite Hin in HF. specialize (HF Hb).
  assert (forall i, In i (seqZ 0 64) -> i <> b -> Z.b2z (Z.testbit x i) = Z.b2z (Z.testbit y i)) as Hall.
  { intros i Hi%Hin Hne. by rewrite Hs. }
  specialize (HF Hall). unfold popCount. cbn beta in HF.
  destruct (Z.testbit x b), (Z.testbit y b); cbn [Z.b2z] in HF; try done;
  pose proof (Z.div_mod (lsum (fun i => Z.b2z (Z.testbit x i)) (seqZ 0 64)) 2);
  pose proof (Z.div_mod (lsum (fun i => Z.b2z (Z.testbit y i)) (seqZ 0 64)) 2); lia.
Qed.

Definition parity (a m : Z) : Z := popCount (Z.land a m) mod 2.
Lemma parity_bit a m : parity a m = Z.b2z (Z.testbit (parity a m) 0) /\ 0 <= parity a m.
Proof.
  unfold parity. pose proof (Z.mod_pos_bound (popCount (Z.land a m)) 2 ltac:(lia)).
  assert (popCount (Z.land a m) mod 2 = 0 \/ popCount (Z.land a m) mod 2 = 1) as [-> | ->] by lia; cbn; lia.
Qed.
Lemma selector_bits a ms : forall i, 0 <= i -> 0 <= selector a i ms /\ forall p, p < i -> Z.testbit (selector a i ms) p = false.
Proof.
  induction ms as [|m ms IH]; intros i Hi; cbn [selector].
  { split; [done|]. intros p _. apply Z.bits_0. }
  destruct (IH (i + 1) ltac:(lia)) as [Hn Hb]. destruct (parity_bit a m) as [_ Hp]. fold (parity a m). split.
  - apply Z.lor_nonneg. split; [by apply Z.shiftl_nonneg|done].
  - intros p Hp'. rewrite Z.lor_spec, Hb by lia. destruct (Z.lt_ge_cases p 0); [by rewrite Z.testbit_neg_r|].
    by rewrite Z.shiftl_spec_low.
Qed.
(** Equal selectors: every mask sees the same parity. *)
Lemma selector_inj a a' ms : forall i, 0 <= i -> selector a i ms = selector a' i ms -> forall m, In m ms -> parity a m = parity a' m.
Proof.
  induction ms as [|m ms IH]; intros i Hi E m' Hm'; [done|]. cbn [selector] in E. fold (parity a m) in E. fold (parity a' m) in E.
  destruct (selector_bits a ms (i + 1) ltac:(lia)) as [Hn Hb]. destruct (selector_bits a' ms (i + 1) ltac:(lia)) as [Hn' Hb'].
  destruct (parity_bit a m) as [Ep Hp], (parity_bit a' m) as [Ep' Hp'].
  assert (forall p, Z.testbit (Z.lor (Z.shiftl (parity a m) i) (selector a (i + 1) ms)) p =
                    Z.testbit (Z.lor (Z.shiftl (parity a' m) i) (selector a' (i + 1) ms)) p) as Hbits by (intros p; by rewrite E).
  setoid_rewrite Z.lor_spec in Hbits.
  destruct Hm' as [->|Hm'].
  - specialize (Hbits i). rewrite Hb, Hb', !orb_false_r, !Z.shiftl_spec, !Z.sub_diag in Hbits by lia.
    rewrite Ep, Ep'. by rewrite Hbits.
  - apply (IH (i + 1)); [lia| |done]. apply Z.bits_inj'. intros p Hpn. specialize (Hbits p).
    destruct (Z.le_gt_cases p i); [by rewrite Hb, Hb' by lia|].
    rewrite !Z.shiftl_spec in Hbits by lia. rewrite Ep, Ep' in Hbits.
    assert (forall x : bool, Z.testbit (Z.b2z x) (p - i) = false) as Hz.
    { intros x. apply (in_width_high 1); [destruct x; done|lia]. }
    by rewrite !Hz in Hbits.
Qed.

Lemma first_bit_spec m (n : nat) : forall lo k, first_index (Z.testbit m) (seqZ lo (Z.of_nat n)) lo = Some k ->
  lo <= k < lo + Z.of_nat n /\ Z.testbit m k = true /\ forall i, lo <= i < k -> Z.testbit m i = false.
Proof.
  induction n as [|n IH]; intros lo k; [done|]. rewrite seqZ_cons by lia. cbn [first_index].
  destruct (Z.testbit m lo) eqn:E.
  - intros [= <-]. split; [lia|]. split; [done|lia].
  - replace (Z.pred (Z.of_nat (S n))) with (Z.of_nat n) by lia. intros (Hk & Hb & Hl)%IH. split; [lia|]. split; [done|].
    intros i Hi. destruct (decide (i = lo)) as [->|]; [done|]. apply Hl. lia.
Qed.
Lemma ctz64_spec m : ctz64 m < 64 -> 0 <= ctz64 m /\ Z.testbit m (ctz64 m) = true /\ forall i, 0 <= i < ctz64 m -> Z.testbit m i = false.
Proof.
  unfold ctz64. destruct (first_index (Z.testbit m) (seqZ 0 64) 0) as [k|] eqn:E; cbn; [|lia]. intros _.
  apply (first_bit_spec m 64) in E as (? & ? & ?). split; [lia|]. by split.
Qed.

(** ** Offsets *)

(** A range of 64-bit addresses; the lowest bits of its masks are distinct, and not both bit 0
    and bit 1 are among them. *)
Record range_ok (r : t) : Prop := {
  ra_bounds : 0 <= start r <= end_ r /\ end_ r <= 2 ^ 64;
  ra_lsb : Forall (fun m => ctz64 m < 64) (masks r);
  ra_distinct : NoDup (ctz64 <$> masks r);
  ra_low : 0 ∈ ctz64 <$> masks r -> 1 ∉ ctz64 <$> masks r
}.

#[local] Instance le_transitive : Transitive Z.le := Z.le_trans.
#[local] Instance le_total : Total Z.le.
Proof. intros x y. lia. Qed.

Lemma sorted_ascending lo l : StronglySorted Z.le l -> NoDup l -> (forall k, In k l -> lo <= k < 64) -> ascending lo l.
Proof.
  revert lo. induction l as [|k l IH]; intros lo Hs Hd Hr; [done|]. apply StronglySorted_inv in Hs as [Hs Hk].
  apply NoDup_cons in Hd as [Hn Hd]. split; [apply Hr; by left|]. apply IH; [done|done|]. intros k' Hk'.
  assert (k <= k') by (by eapply List.Forall_forall in Hk). specialize (Hr k' (or_intror Hk')).
  enough (k <> k') by lia. intros ->. apply Hn. by apply list_elem_of_In.
Qed.
Lemma masks_lsb_perm r : masks_lsb r ≡ₚ ctz64 <$> masks r.
Proof. apply merge_sort_Permutation. Qed.
Lemma masks_lsb_ascending r : Forall (fun m => ctz64 m < 64) (masks r) -> NoDup (ctz64 <$> masks r) -> ascending 0 (masks_lsb r).
Proof.
  intros Hl Hd. apply sorted_ascending.
  - apply StronglySorted_merge_sort; apply _.
  - by rewrite masks_lsb_perm.
  - intros k Hk%list_elem_of_In. rewrite masks_lsb_perm in Hk. apply list_elem_of_fmap in Hk as (m & -> & Hm).
    eapply Forall_forall in Hl; [|exact Hm]. split; [by apply ctz64_spec|done].
Qed.
(** Bit 0 is shifted out, and the others are then one lower. *)
Lemma masks_lsb_cases r : range_ok r -> ascending 1 (masks_lsb r) \/ exists l, masks_lsb r = 0 :: l /\ ascending 2 l.
Proof.
  intros [_ Hl Hd Hlow]. pose proof (masks_lsb_ascending r Hl Hd) as Hasc. rewrite <- !masks_lsb_perm in Hlow.
  destruct (masks_lsb r) as [|k l]; [by left|]. destruct Hasc as [Hk Hasc]. destruct (decide (k = 0)) as [->|Hne]; [|left; split; [lia|done]].
  right. exists l. split; [done|]. specialize (Hlow ltac:(left)). destruct l as [|k' l]; [done|]. destruct Hasc as [Hk' Hasc]. split; [|done].
  enough (k' <> 1) by lia. intros ->. apply Hlow. right. left.
Qed.
Lemma removeIntlvBits_spec r a a' : range_ok r -> in_width 64 a -> in_width 64 a' ->
  exists b b', removeIntlvBits r a = Ok b /\ removeIntlvBits r a' = Ok b' /\ in_width 64 b /\ in_width 64 b' /\ (b = b' -> agree (masks_lsb r) a a').
Proof.
  intros Hok Ha Ha'. unfold removeIntlvBits. destruct (masks_lsb_cases r Hok) as [Hasc|(l & -> & Hasc)].
  - destruct (remove_bits_spec (masks_lsb r) 0 a a' ltac:(lia) Hasc Ha Ha') as (b & b' & E & E' & Hb & Hb' & Hag).
    exists b, b'. do 4 (split; [done|]). intros Ebb. apply Hag in Ebb. intros i Hi Hn. apply Ebb; [done|].
    intros (k & Ek & Hk)%in_map_iff. apply Hn. by replace i with k by lia.
  - assert (forall x, in_width 64 x -> in_width 64 (Z.shiftr x 1)) as Hw.
    { intros x Hx. unfold in_width in *. rewrite Z.shiftr_div_pow2 by lia. change (2 ^ 1) with 2. pose proof (Z.div_pos x 2). pose proof (Z.div_le_upper_bound x 2 (2 ^ 64 - 1)). lia. }
    cbn [remove_bits]. rewrite (proj2 (Z.ltb_ge 0 0)) by lia. cbn [mbind result_bind].
    destruct (remove_bits_spec l 1 _ _ ltac:(lia) Hasc (Hw a Ha) (Hw a' Ha')) as (b & b' & E & E' & Hb & Hb' & Hag).
    exists b, b'. do 4 (split; [done|]). intros Ebb. apply Hag in Ebb. intros i Hi Hn.
    assert (i <> 0) by (intros ->; apply Hn; by left). specialize (Ebb (i - 1) ltac:(lia)).
    rewrite !Z.shiftr_spec in Ebb by lia. replace (i - 1 + 1) with i in Ebb by lia. apply Ebb.
    intros (k & Ek & Hk)%in_map_iff. apply Hn. right. by replace i with k by lia.
Qed.

(** The selector and the other bits determine an address. *)
Lemma selected_inj r a a' : range_ok r -> in_width 64 a -> in_width 64 a' -> selector a 0 (masks r) = selector a' 0 (masks r) ->
  agree (masks_lsb r) a a' -> a = a'.
Proof.
  intros Hok Ha Ha' Hsel Hag. destruct (decide (a = a')) as [|Hne]; [done|exfalso].
  set (d := Z.lxor a a'). assert (0 < d) as Hd.
  { enough (d <> 0 /\ 0 <= d) by lia. split; [|apply Z.lxor_nonneg; unfold in_width in *; lia].
    unfold d. intros E. apply Hne. by apply Z.lxor_eq. }
  set (b := Z.log2 d). assert (Z.testbit d b = true) as Hb by (by apply Z.bit_log2).
  pose proof (Z.log2_nonneg d) as Hb0.
  assert (in_width 64 d) as Hdw by (by apply in_width_lxor).
  assert (b < 64) as Hb64.
  { destruct (Z.lt_ge_cases b 64) as [|Hge]; [done|]. rewrite (in_width_high 64) in Hb by (done || lia). done. }
  assert (forall i, Z.testbit a i = Z.testbit a' i <-> Z.testbit d i = false) as Hx.
  { intros i. unfold d. rewrite Z.lxor_spec. destruct (Z.testbit a i), (Z.testbit a' i); cbn; intuition congruence. }
  assert (In b (masks_lsb r)) as Hin.
  { destruct (in_dec Z.eq_dec b (masks_lsb r)) as [|Hn]; [done|]. exfalso. specialize (Hag b Hb0 Hn). apply Hx in Hag. congruence. }
  apply list_elem_of_In in Hin. rewrite masks_lsb_perm in Hin. apply list_elem_of_fmap in Hin as (m & Em & Hm).
  pose proof (ra_lsb _ Hok) as Hl. eapply Forall_forall in Hl; [|exact Hm].
  destruct (ctz64_spec m Hl) as (_ & Hmb & Hlow). rewrite <- Em in *.
  assert (parity a m = parity a' m) as Hpar.
  { eapply selector_inj; [|exact Hsel|by apply list_elem_of_In]. lia. }
  unfold parity in Hpar. revert Hpar. apply (popCount_flip _ _ b); [lia| |].
  - rewrite !Z.land_spec, Hmb, !andb_true_r. intros E%Hx. congruence.
  - intros i Hi Hib. rewrite !Z.land_spec. destruct (Z.lt_trichotomy i b) as [Hlt|[?|Hgt]]; [|lia|].
    + rewrite Hlow by lia. by rewrite !andb_false_r.
    + f_equal. apply Hx. apply Z.bits_above_log2; [lia|]. exact Hgt.
Qed.

Lemma getOffset_ok r a : range_ok r -> contains r a = true -> exists x, getOffset r a = Ok x /\ 0 <= x.
Proof.
  intros Hok Hc. pose proof (ra_bounds _ Hok). unfold contains in Hc. apply andb_true_iff in Hc as [Hr _].
  unfold getOffset. rewrite Hr. apply andb_true_iff in Hr as [?%Z.leb_le ?%Z.ltb_lt].
  assert (in_width 64 a /\ in_width 64 (start r)) as (Ha & Hst) by (unfold in_width; lia). destruct (interleaved r).
  - destruct (removeIntlvBits_spec r a a Hok Ha Ha) as (b & b' & -> & _).
    destruct (removeIntlvBits_spec r (start r) (start r) Hok Hst Hst) as (y & y' & -> & _).
    cbn. eexists. split; [done|apply u64_range].
  - eexists. split; [done|apply u64_range].
Qed.

(** C39. getOffset fails no assertion on the addresses of a range, interleaved or not, and no
    two addresses of one channel share an offset, for masks that are not 0 and whose lowest bits are distinct and
    not both bit 0 and bit 1 among them (otherwise [low_bits_fail] and [shared_bit_collides]). *)
Theorem getOffset_injective r a a' : range_ok r -> contains r a = true -> contains r a' = true ->
  exists x x', getOffset r a = Ok x /\ getOffset r a' = Ok x' /\ (x = x' -> a = a').
Proof.
  intros Hok Hc Hc'. pose proof (ra_bounds _ Hok). unfold contains in Hc, Hc'.
  apply andb_true_iff in Hc as [Hr Hs%Z.eqb_eq], Hc' as [Hr' Hs'%Z.eqb_eq].
  unfold getOffset. rewrite Hr, Hr'. apply andb_true_iff in Hr as [?%Z.leb_le ?%Z.ltb_lt], Hr' as [?%Z.leb_le ?%Z.ltb_lt].
  assert (in_width 64 a /\ in_width 64 a' /\ (start r < end_ r -> in_width 64 (start r))) as (Ha & Ha' & Hst) by (unfold in_width; lia).
  specialize (Hst ltac:(lia)). destruct (interleaved r) eqn:Ei.
  - destruct (removeIntlvBits_spec r a a' Hok Ha Ha') as (b & b' & -> & -> & Hb & Hb' & Hag).
    destruct (removeIntlvBits_spec r (start r) (start r) Hok Hst Hst) as (y & y' & -> & _ & Hy & _ & _).
    cbn. eexists _, _. split; [done|]. split; [done|]. intros E. apply (selected_inj r); [done..|congruence|].
    assert (b = b') as Ebb.
    { unfold in_width, u64 in *. pose proof (Z.div_mod (b - y) (2 ^ 64)). pose proof (Z.div_mod (b' - y) (2 ^ 64)). lia. }
    by apply Hag.
  - eexists _, _. split; [done|]. split; [done|]. rewrite !u64_small by lia. lia.
Qed.

Lemma distinct_bits : NoDup [6; 7; 8].
Proof. repeat (apply NoDup_cons; split; [set_solver|]). apply NoDup_nil_2. Qed.
Lemma low_free : 0 ∈ [6; 7; 8] -> 1 ∉ [6; 7; 8].
Proof. set_solver. Qed.
(** A channel of eight, interleaved at 64 bytes, with the low selector bit hashed. *)
Definition small_range : t := mkRange 4096 65536 [64 + 1024; 128; 256] 5.
Lemma small_range_ok : range_ok small_range.
Proof. split; [cbn; lia|repeat constructor; vm_compute; congruence|exact distinct_bits|exact low_free]. Qed.
Lemma getOffset_injective_witness :
  exists x x', getOffset small_range 4416 = Ok x /\ getOffset small_range 4928 = Ok x' /\ (x = x' -> 4416 = 4928).
Proof. apply (getOffset_injective small_range 4416 4928 small_range_ok); vm_compute; reflexivity. Defined.

(** With masks whose lowest bits are bit 0 and bit 1, as in the test TwoInterleavingMasks,
    bit 1 has moved to bit 0 by the time it is to be removed; the test for bit 0 is of the bit
    it was, and insertBits is asked for the bits below bit 0. *)
Theorem low_bits_fail r a : Forall (fun m => ctz64 m < 64) (masks r) -> NoDup (ctz64 <$> masks r) ->
  0 ∈ ctz64 <$> masks r -> 1 ∈ ctz64 <$> masks r -> removeIntlvBits r a = Fault AssertFail.
Proof.
  intros Hl Hd H0 H1. pose proof (masks_lsb_ascending r Hl Hd) as Hasc. rewrite <- !masks_lsb_perm in H0, H1. unfold removeIntlvBits.
  assert (forall lo l k, ascending lo l -> k ∈ l -> k <= lo -> exists l', l = k :: l' /\ ascending (k + 1) l') as Hhead.
  { intros lo l k Ha Hk Hlo. destruct l as [|x l]; [by apply elem_of_nil in Hk|]. destruct Ha as [Hx Ha]. exists l.
    apply elem_of_cons in Hk as [->|Hk]; [done|]. apply list_elem_of_In, (ascending_lower _ _ _ Ha) in Hk. lia. }
  destruct (Hhead _ _ _ Hasc H0 ltac:(lia)) as (l & El & Hl'). rewrite El in *. apply elem_of_cons in H1 as [?|H1]; [done|].
  by destruct (Hhead _ _ _ Hl' H1 ltac:(lia)) as (l' & -> & _).
Qed.
Lemma low_bits_fail_witness : removeIntlvBits (mkRange 0 65535 [1; 2] 3) 65535 = Fault AssertFail.
Proof. apply low_bits_fail; [repeat constructor; vm_compute; congruence|apply (bool_decide_eq_true_1 _); vm_compute; reflexivity|left|right; left]. Defined.
(** With masks that share their lowest bit, two addresses of a channel have one offset. *)
Lemma shared_bit_collides : let r := mkRange 0 65536 [64; 64 + 128] 0 in
  contains r 0 = true /\ contains r 32 = true /\ getOffset r 0 = Ok 0 /\ getOffset r 32 = Ok 0.
Proof. vm_compute. by repeat split. Qed.

(** addIntlvBits does not invert removeIntlvBits from three masks on: with eight
    channels interleaved at 64 bytes, the offsets 0 and 64 of every channel are mapped
    to the same address. *)
Theorem addIntlvBits_collides m : 0 <= m < 8 ->
  let r := mkRange 0 65536 [64; 128; 256] m in
  range_ok r /\
  exists a b, contains r a = true /\ contains r b = true /\ a <> b /\
    removeIntlvBits r a = Ok 0 /\ removeIntlvBits r b = Ok 64 /\ addIntlvBits r 0 = Ok a /\ addIntlvBits r 64 = Ok a.
Proof.
  intros Hm r. split.
  { split; [cbn; lia|repeat constructor; vm_compute; congruence|exact distinct_bits|exact low_free]. }
  exists (64 * m), (64 * m + 512).
  assert (m = 0 \/ m = 1 \/ m = 2 \/ m = 3 \/ m = 4 \/ m = 5 \/ m = 6 \/ m = 7) as Hc by lia. subst r.
  repeat (destruct Hc as [->|Hc]; [repeat split; vm_compute; congruence|]). subst m. repeat split; vm_compute; congruence.
Qed.
Lemma addIntlvBits_collides_witness :
  let r := mkRange 0 65536 [64; 128; 256] 5 in
  range_ok r /\
  exists a b, contains r a = true /\ contains r b = true /\ a <> b /\
    removeIntlvBits r a = Ok 0 /\ removeIntlvBits r b = Ok 64 /\ addIntlvBits r 0 = Ok a /\ addIntlvBits r 64 = Ok a.
Proof. apply (addIntlvBits_collides 5). lia. Defined.
End AddrRange.
