(* ===== verification/Float64.v ===== *)
(** Binary64 arithmetic on [SpecFloat], shared by the components that compute with doubles. *)
From S2P Require Import Prelude.
From Stdlib Require Import Floats.SpecFloat.
Open Scope Z_scope.

(** Binary64 arithmetic, rounded to nearest even. *)
Definition f64_add : spec_float -> spec_float -> spec_float := SFadd 53 1024.
Definition f64_sub : spec_float -> spec_float -> spec_float := SFsub 53 1024.
Definition f64_mul : spec_float -> spec_float -> spec_float := SFmul 53 1024.
Definition f64_of (n : Z) : spec_float := binary_normalize 53 1024 n 0 false.

(** The conversion to an integer. *)
Definition sf_trunc (x : spec_float) : Z :=
  match x with
  | S754_finite s m e =>
      let a := if 0 <=? e then Z.pos m * 2 ^ e else Z.pos m / 2 ^ (- e) in
      if s then - a else a
  | _ => 0
  end.
