(* ===== verification/AddrRangeMap.v ===== *)
(** The map from address ranges to values ([base/addr_range_map.hh]): a binary search tree of
    ranges that do not intersect, and a cache of the entries used last. *)
From S2P Require Import Prelude AddrRange.
Open Scope Z_scope.

(** The order of the tree. *)
Definition range_lt (q r : AddrRange.t) : bool :=
  if negb (AddrRange.start q =? AddrRange.start r) then AddrRange.start q <? AddrRange.start r
  else AddrRange.intlvMatch q <? AddrRange.intlvMatch r.
Definition RangeSize (start size : Z) : AddrRange.t := AddrRange.mkRange start (u64 (start + size)) [] 0.

Module AddrRangeMap.
Section Code.
Context {V : Type}.
(** The template parameter. *)
Context (max_cache_size : Z).

(** A node of the tree; an iterator is the number of its node. *)
Record entry := mkEntry { node : nat; key : AddrRange.t; val : V }.
(** The tree in its order; [nodes] counts the nodes allocated. *)
Record t := mkMap { tree : list entry; cache : list nat; nodes : nat }.
#[global] Instance eta_t : Settable t := fun r => mkMap (tree r) (cache r) (nodes r).
Definition create : t := mkMap [] [] 0.

(** The entry of an iterator, which an erased node leaves dangling. *)
Definition deref (i : nat) (l : list entry) : result entry :=
  match list_find (fun e => node e = i) l with Some (_, e) => Ok e | None => Fault OutOfBounds end.
Definition addNewEntryToCache (i : nat) : comp t unit :=
  when_ (negb (max_cache_size =? 0))
    (modify (fun s => s <| cache ::= fun l => i :: (if u64 max_cache_size <=? zlen l then removelast l else l) |>)).

(** The cache up to the first entry that satisfies the condition, which moves to the front. *)
Fixpoint search_cache (cond : AddrRange.t -> result bool) (l : list entry) (c : list nat) : result (option (entry * list nat)) :=
  match c with
  | [] => Ok None
  | i :: c' =>
      e ← deref i l;
      b ← cond (key e);
      if b : bool then Ok (Some (e, i :: c'))
      else o ← search_cache cond l c';
           Ok (match o with Some (e, j :: c'') => Some (e, j :: i :: c'') | _ => None end)
  end.
(** From an entry towards the first, as long as the ranges merge; the list is reversed. *)
Fixpoint walk (cond : AddrRange.t -> result bool) (l : list entry) : result (option entry) :=
  match l with
  | [] => Ok None
  | i :: l' =>
      b ← cond (key i);
      if b : bool then Ok (Some i)
      else match l' with
           | [] => Ok None
           | next :: _ => if AddrRange.mergesWith (key next) (key i) then walk cond l' else Ok None
           end
  end.
(** [tree.upper_bound]: the entries not above [r], and those above. *)
Fixpoint upper_bound (r : AddrRange.t) (l : list entry) : list entry * list entry :=
  match l with
  | [] => ([], [])
  | e :: l' => if range_lt r (key e) then ([], l) else let '(lo, hi) := upper_bound r l' in (e :: lo, hi)
  end.
Definition find (r : AddrRange.t) (cond : AddrRange.t -> result bool) : comp t (option entry) :=
  s ← get;
  o ← lift (search_cache cond (tree s) (cache s));
  match o with
  | Some (e, c) => modify (fun s => s <| cache := c |>);; mret (Some e)
  | None =>
      let '(lo, hi) := upper_bound r (tree s) in
      above ← (match hi with
               | [] => mret None
               | next :: _ => b ← lift (cond (key next)); mret (if b : bool then Some next else None)
               end);
      match above with
      | Some next => addNewEntryToCache (node next);; mret (Some next)
      | None =>
          i ← lift (walk cond (rev lo));
          match i with Some i => addNewEntryToCache (node i);; mret (Some i) | None => mret None end
      end
  end.
Definition contains (r : AddrRange.t) : comp t (option entry) := find r (fun r1 => AddrRange.isSubset r r1).
Definition contains_addr (a : Z) : comp t (option entry) := contains (RangeSize a 1).
Definition intersects (r : AddrRange.t) : comp t (option entry) := find r (fun r1 => AddrRange.intersects r r1).

(** [tree.insert]: an equivalent key stays. *)
Fixpoint tree_insert (i : nat) (r : AddrRange.t) (d : V) (l : list entry) : entry * list entry :=
  match l with
  | [] => (mkEntry i r d, [mkEntry i r d])
  | e :: l' =>
      if range_lt r (key e) then (mkEntry i r d, mkEntry i r d :: l)
      else if range_lt (key e) r then let '(x, l'') := tree_insert i r d l' in (x, e :: l'')
      else (e, l)
  end.
(** [None]: the range intersects an entry. *)
Definition insert (r : AddrRange.t) (d : V) : comp t (option entry) :=
  o ← intersects r;
  match o with
  | Some _ => mret None
  | None =>
      s ← get;
      let '(e, l) := tree_insert (nodes s) r d (tree s) in
      modify (fun s => s <| tree := l |> <| nodes ::= S |>);; mret (Some e)
  end.
Definition erase (p : nat) : comp t unit :=
  modify (fun s => s <| cache ::= filter (fun i => i <> p) |> <| tree ::= filter (fun e => node e <> p) |>).
(** The nodes from [p] up to [q], the end if [None]. *)
Fixpoint between (p : nat) (q : option nat) (inside : bool) (l : list entry) : list nat :=
  match l with
  | [] => []
  | e :: l' =>
      if bool_decide (Some (node e) = q) then []
      else let inside := inside || bool_decide (node e = p) in
           if inside then node e :: between p q inside l' else between p q inside l'
  end.
(** The loop removes the first node from the cache again and again. *)
Definition erase_range (p : nat) (q : option nat) : comp t unit :=
  s ← get;
  let l := between p q false (tree s) in
  modify (fun s => s <| cache ::= (match l with [] => id | _ => filter (fun i => i <> p) end) |> <| tree ::= filter (fun e => node e ∉ l) |>).
Definition clear : comp t unit := modify (fun s => s <| cache := [] |> <| tree := [] |>).
End Code.
End AddrRangeMap.
Arguments AddrRangeMap.entry V : clear implicits.
Arguments AddrRangeMap.t V : clear implicits.
