(* ===== verification/AddrRangeMapSpec.v ===== *)
(** What the map of address ranges promises: whatever has been inserted, erased and looked up,
    a look-up finds the one entry that holds the address, through the cache or the tree.  It
    misses the start of an interleaved range that does not begin with its first channel, and
    erasing several entries leaves the cache dangling. *)
From S2P Require Import Prelude AddrRange AddrRangeMap.
From stdpp Require Import list sorting.
Open Scope Z_scope.

Module RangeMapSpec.
Import AddrRangeMap.
Import AddrRange(start, end_, masks, intlvMatch, interleaved, mergesWith).

(** ** Ranges *)

Abbreviation range := AddrRange.t.
Definition selector (a : Z) (r : range) : Z := AddrRange.selector a 0 (masks r).
(** A range of at least two addresses per channel whose first address belongs to the first
    channel; without interleaving there is one channel. *)
Record range_ok (r : range) : Prop := {
  ro_span : 0 <= start r < end_ r /\ end_ r < 2 ^ 64;
  ro_match : 0 <= intlvMatch r;
  ro_plain : interleaved r = false -> intlvMatch r = 0;
  ro_first : selector (start r) r = 0;
  ro_size : interleaved r = true -> AddrRange.size r <> 1 }.
Definition disjoint (q r : range) : Prop := end_ q <= start r \/ end_ r <= start q.
Definition apart (q r : range) : Prop := disjoint q r \/ (mergesWith q r = true /\ intlvMatch q <> intlvMatch r).
(** The ranges whose intersection the code can decide. *)
Definition agreeable (q r : range) : Prop :=
  disjoint q r \/ (interleaved q = false /\ interleaved r = false) \/ (mergesWith q r = true /\ interleaved r = true).

Lemma merges_spec q r : mergesWith q r = true <-> start r = start q /\ end_ r = end_ q /\ masks r = masks q.
Proof. unfold mergesWith. rewrite !andb_true_iff, !Z.eqb_eq, bool_decide_eq_true. tauto. Qed.
Lemma apart_sym q r : apart q r -> apart r q.
Proof. intros [[H|H]|[(H1 & H2 & H3)%merges_spec H4]]; [left; by right|left; by left|right]. split; [by apply merges_spec|done]. Qed.
Lemma interleaved_merges q r : mergesWith q r = true -> interleaved q = interleaved r.
Proof. intros (_ & _ & E)%merges_spec. unfold interleaved. by rewrite E. Qed.

(** An address is in one of two ranges that are apart. *)
Lemma contains_span r a : AddrRange.contains r a = true -> start r <= a < end_ r /\ selector a r = intlvMatch r.
Proof. unfold AddrRange.contains. rewrite !andb_true_iff, Z.leb_le, Z.ltb_lt, Z.eqb_eq. tauto. Qed.
Lemma contains_apart q r a : apart q r -> AddrRange.contains q a = true -> AddrRange.contains r a = true -> False.
Proof.
  intros H [Hq Eq]%contains_span [Hr Er]%contains_span. destruct H as [[H|H]|[(_ & _ & E)%merges_spec H]]; [lia|lia|].
  unfold selector in *. rewrite E in Er. congruence.
Qed.
(** Ranges apart overlap only if they merge. *)
Lemma apart_overlap q r a : apart q r -> start q <= a < end_ q -> start r <= a < end_ r -> mergesWith q r = true.
Proof. intros [[H|H]|[H _]]; [lia|lia|done]. Qed.

(** A query: a range of addresses without interleaving. *)
Record query_ok (q : range) : Prop := {
  qo_masks : masks q = []; qo_match : intlvMatch q = 0; qo_span : 0 <= start q < end_ q /\ end_ q < 2 ^ 64 }.
Lemma query_plain q : query_ok q -> interleaved q = false.
Proof. intros []. unfold interleaved. by rewrite qo_masks0. Qed.
Definition covers (q r : range) : bool := match AddrRange.isSubset q r with Ok b => b | Fault _ => false end.
Lemma covers_eq q r : query_ok q -> AddrRange.isSubset q r = Ok (covers q r).
Proof. intros H. unfold covers, AddrRange.isSubset. rewrite (query_plain q H). by destruct (interleaved r). Qed.
Lemma plain_contains r a : interleaved r = false -> range_ok r -> start r <= a < end_ r -> AddrRange.contains r a = true.
Proof.
  intros Hi H Ha. unfold AddrRange.contains. rewrite (ro_plain _ H Hi). unfold interleaved, zlen in Hi. apply Z.ltb_ge in Hi.
  destruct (masks r); [|cbn in Hi; lia]. cbn. destruct (Z.leb_spec (start r) a), (Z.ltb_spec a (end_ r)); lia || done.
Qed.
Lemma covers_contains q r : query_ok q -> range_ok r -> covers q r = true -> AddrRange.contains r (start q) = true.
Proof.
  intros Hq Hr. unfold covers, AddrRange.isSubset. rewrite (query_plain q Hq). destruct (interleaved r) eqn:Ei.
  - by intros [[H _]%andb_true_iff _]%andb_true_iff.
  - rewrite andb_true_iff, !Z.leb_le. intros [H1 H2]. apply plain_contains; [done..|]. destruct Hq. lia.
Qed.

(** ** The order *)

Definition lt (q r : range) : Prop := start q < start r \/ (start q = start r /\ intlvMatch q < intlvMatch r).
Lemma range_lt_spec q r : range_lt q r = true <-> lt q r.
Proof.
  unfold range_lt, lt. destruct (Z.eqb_spec (start q) (start r)); cbn [negb]; rewrite Z.ltb_lt; lia.
Qed.
Lemma range_lt_false q r : range_lt q r = false <-> ~ lt q r.
Proof. rewrite <- range_lt_spec. by destruct (range_lt q r). Qed.
Lemma lt_trans q r x : lt q r -> lt r x -> lt q x.
Proof. unfold lt. lia. Qed.

(** ** The search *)

Lemma elem_of_rev {A} (x : A) l : x ∈ rev l <-> x ∈ l.
Proof. rewrite !list_elem_of_In. symmetry. apply in_rev. Qed.
Lemma sorted_after {A} (R : A -> A -> Prop) k1 a k2 : StronglySorted R (k1 ++ a :: k2) -> forall b, b ∈ k2 -> R a b.
Proof. intros (_ & _ & H)%StronglySorted_app. apply StronglySorted_inv in H as [_ H]. by apply Forall_forall. Qed.

Section Map.
Context {V : Type} (max_cache_size : Z).
Implicit Types (s : t V) (e x y : entry V) (l : list (entry V)).

Record ok s : Prop := {
  ok_sorted : StronglySorted (fun x y => lt (key x) (key y)) (tree s);
  ok_ranges : forall e, e ∈ tree s -> range_ok (key e);
  ok_apart : forall x y, x ∈ tree s -> y ∈ tree s -> x <> y -> apart (key x) (key y);
  ok_nodes : NoDup (node <$> tree s);
  ok_fresh : forall e, e ∈ tree s -> (node e < nodes s)%nat;
  ok_cache : forall i, i ∈ cache s -> i ∈ node <$> tree s }.

(** The condition is decided on the entries. *)
Definition decides (cond : range -> result bool) (f : range -> bool) l : Prop := forall e, e ∈ l -> cond (key e) = Ok (f (key e)).

Lemma deref_spec i l : i ∈ node <$> l -> exists e, deref i l = Ok e /\ e ∈ l /\ node e = i.
Proof.
  intros (e & -> & He)%list_elem_of_fmap. unfold deref. destruct (list_find (fun x => node x = node e) l) as [[j x]|] eqn:E.
  - apply list_find_Some in E as (H1 & H2 & _). exists x. split; [done|]. split; [by eapply list_elem_of_lookup_2|done].
  - apply list_find_None in E. rewrite Forall_forall in E. by destruct (E e He).
Qed.
Lemma search_cache_spec cond f l c : decides cond f l -> (forall i, i ∈ c -> i ∈ node <$> l) ->
  exists o, search_cache cond l c = Ok o /\
    match o with Some (e, c') => e ∈ l /\ f (key e) = true /\ c' ≡ₚ c /\ c' <> [] | None => True end.
Proof.
  intros Hd. induction c as [|i c IH]; intros Hc; cbn [search_cache]; [by exists None|].
  destruct (deref_spec i l) as (e & -> & He & _); [apply Hc; left|]. cbn [mbind result_bind]. rewrite (Hd e He). cbn [mbind result_bind].
  destruct (f (key e)) eqn:Ef; [by eexists (Some _)|]. destruct IH as (o & -> & Ho); [intros j Hj; apply Hc; by right|]. cbn [mbind result_bind].
  eexists. split; [done|]. destruct o as [[x [|j c']]|]; [by destruct Ho as (_ & _ & _ & ?)| |done]. destruct Ho as (H1 & H2 & H3 & _).
  split; [done|]. split; [done|]. split; [|done]. rewrite <- H3. apply Permutation_swap.
Qed.
Lemma walk_spec cond f l : decides cond f l -> exists o, walk cond l = Ok o /\ (forall e, o = Some e -> e ∈ l /\ f (key e) = true) /\
  (forall l1 e l2, l = l1 ++ e :: l2 -> f (key e) = true -> (forall x, x ∈ l1 -> mergesWith (key x) (key e) = true) -> o <> None).
Proof.
  induction l as [|x l IH]; intros Hd; cbn [walk].
  { exists None. split; [done|]. split; [done|]. by intros [|]. }
  rewrite (Hd x) by left. cbn [mbind result_bind]. destruct (f (key x)) eqn:Ef.
  { eexists. split; [done|]. split; [|done]. intros e [= <-]. by split; [left|]. }
  destruct IH as (o & E & Hs & Hcpl); [intros e He; apply Hd; by right|]. destruct l as [|y l].
  { exists None. split; [done|]. split; [done|]. intros l1 e l2 El Hf _. destruct l1 as [|z l1]; [injection El as -> _; congruence|]. by destruct l1. }
  destruct (mergesWith (key y) (key x)) eqn:Em.
  - exists o. split; [done|]. split; [intros e He; destruct (Hs e He); by split; [right|]|]. intros l1 e l2 El Hf Hm.
    destruct l1 as [|z l1]; [injection El as -> _; congruence|]. injection El as -> El. apply (Hcpl l1 e l2 El Hf). intros w Hw. apply Hm. by right.
  - exists None. split; [done|]. split; [done|]. intros l1 e l2 El Hf Hm. destruct l1 as [|z l1]; [injection El as -> _; congruence|]. injection El as -> El.
    assert (mergesWith (key y) (key z) = true) as E2; [|by rewrite E2 in Em].
    assert (mergesWith (key z) (key e) = true) as (Z1 & Z2 & Z3)%merges_spec by (apply Hm; left).
    apply merges_spec. destruct l1 as [|w l1]; injection El as -> _; [by rewrite Z1, Z2, Z3|].
    assert (mergesWith (key w) (key e) = true) as (W1 & W2 & W3)%merges_spec by (apply Hm; right; left). by rewrite <- Z1, <- Z2, <- Z3.
Qed.
Lemma upper_bound_spec (r : range) l : StronglySorted (fun x y => lt (key x) (key y)) l ->
  let '(lo, hi) := upper_bound r l in l = lo ++ hi /\ (forall x, x ∈ lo -> ~ lt r (key x)) /\ (forall x, x ∈ hi -> lt r (key x)).
Proof.
  induction l as [|e l IH]; intros Hs; cbn [upper_bound]; [by split_and!; [|intros ? ?%elem_of_nil..]|].
  apply StronglySorted_inv in Hs as [Hs Hf]. destruct (range_lt r (key e)) eqn:E.
  - apply range_lt_spec in E. split; [done|]. split; [by intros ? ?%elem_of_nil|]. rewrite Forall_forall in Hf.
    intros x [->|Hx]%elem_of_cons; [done|]. eapply lt_trans; [exact E|]. by apply Hf.
  - apply range_lt_false in E. specialize (IH Hs). destruct (upper_bound r l) as [lo hi]. destruct IH as (-> & H1 & H2). split; [done|]. split; [|done].
    intros x [->|Hx]%elem_of_cons; [done|by apply H1].
Qed.

Lemma ok_cached s c : ok s -> (forall i, i ∈ c -> i ∈ node <$> tree s) -> ok (s <| cache := c |>).
Proof. intros [] H. by split. Qed.
Lemma addNewEntryToCache_wp s e : ok s -> e ∈ tree s ->
  wp (addNewEntryToCache max_cache_size (node e)) s (fun _ s' => ok s' /\ tree s' = tree s /\ nodes s' = nodes s).
Proof.
  intros H He. unfold addNewEntryToCache. apply wp_when; intros _; [|done]. wp_step. split; [|done]. apply (ok_cached s _ H).
  intros i [->|Hi]%elem_of_cons; [by apply list_elem_of_fmap_2|]. apply (ok_cache _ H). destruct (u64 max_cache_size <=? _); [|done].
  destruct (cache s) as [|j c _] using rev_ind; [done|]. rewrite removelast_last in Hi. apply elem_of_app. by left.
Qed.
(** What the tree is searched for can be reached from [r]. *)
Definition reachable (r : range) (f : range -> bool) l : Prop := forall lo hi e, upper_bound r l = (lo, hi) -> e ∈ l -> f (key e) = true ->
  (exists y k, hi = y :: k /\ f (key y) = true) \/
  (exists l1 x l2, rev lo = l1 ++ x :: l2 /\ f (key x) = true /\ forall z, z ∈ l1 -> mergesWith (key z) (key x) = true).
Lemma find_wp (r : range) cond f s : ok s -> decides cond f (tree s) -> reachable r f (tree s) ->
  wp (find max_cache_size r cond) s (fun o s' => ok s' /\ tree s' = tree s /\ nodes s' = nodes s /\
    match o with Some e => e ∈ tree s /\ f (key e) = true | None => forall e, e ∈ tree s -> f (key e) = false end).
Proof.
  intros H Hd Hr. unfold find. wp_step. wp_step. wp_step. apply wp_lift.
  destruct (search_cache_spec cond f (tree s) (cache s) Hd (ok_cache _ H)) as (o & -> & Ho). cbn [rp]. destruct o as [[e c]|].
  { destruct Ho as (H1 & H2 & H3 & _). wp_step. wp_step. wp_step. split; [|done]. apply ok_cached; [done|]. intros i Hi. apply (ok_cache _ H). by rewrite <- H3. }
  pose proof (upper_bound_spec r (tree s) (ok_sorted _ H)) as Hu. unfold reachable in Hr. destruct (upper_bound r (tree s)) as [lo hi]. specialize (Hr lo hi).
  destruct Hu as (El & _ & _). assert (decides cond f (rev lo)) as Hd'.
  { intros e He. apply Hd. rewrite El. apply elem_of_app. left. by apply elem_of_rev. }
  wp_step. apply (wp_mono _ _ (fun a s' => s' = s /\ match a with Some y => y ∈ tree s /\ f (key y) = true | None => forall y k, hi = y :: k -> f (key y) = false end)).
  { destruct hi as [|y k]; [by wp_step|]. wp_step. wp_step. rewrite (Hd y) by (rewrite El; apply elem_of_app; right; left). cbn [rp].
    destruct (f (key y)) eqn:Ef; wp_step; (split; [done|]); [split; [rewrite El; apply elem_of_app; right; left|done]|]. by intros ? ? [= <- _]. }
  intros [y|] _ [-> Hy].
  { destruct Hy as [Hin Hf]. wp_step. eapply wp_mono; [by apply addNewEntryToCache_wp|]. intros [] s' (H' & Et & En). wp_step. by rewrite Et. }
  destruct (walk_spec cond f (rev lo) Hd') as (o & E & Hs & Hcpl). wp_step. wp_step. rewrite E. cbn [rp]. destruct o as [e|].
  - destruct (Hs e eq_refl) as [He Hf]; rewrite elem_of_rev in He. assert (e ∈ tree s) by (rewrite El; apply elem_of_app; by left).
    wp_step. eapply wp_mono; [by apply addNewEntryToCache_wp|]. intros [] s' (H' & Et & En). wp_step. by rewrite Et.
  - wp_step. split; [done|]. split; [done|]. split; [done|]. intros e He. destruct (f (key e)) eqn:Ef; [|done].
    destruct (Hr e eq_refl He Ef) as [(y & k & -> & Hfy)|(l1 & x & l2 & E1 & E2 & E3)]; [by rewrite (Hy y k eq_refl) in Hfy|].
    by destruct (Hcpl l1 x l2 E1 E2 E3).
Qed.

(** ** Reaching the entry *)

(** An entry not above [r] that ends after its start: those between merge with it. *)
Lemma reach_low (r : range) (f : range -> bool) s lo hi e : ok s -> upper_bound r (tree s) = (lo, hi) -> e ∈ lo -> f (key e) = true -> start r < end_ (key e) ->
  exists l1 x l2, rev lo = l1 ++ x :: l2 /\ f (key x) = true /\ forall z, z ∈ l1 -> mergesWith (key z) (key x) = true.
Proof.
  intros H E He Hf Hr. pose proof (upper_bound_spec r (tree s) (ok_sorted _ H)) as Hu. rewrite E in Hu. destruct Hu as (El & Hlo & _).
  destruct (list_elem_of_split lo e He) as (l1 & l2 & ->). exists (rev l2), e, (rev l1).
  split; [by rewrite rev_app_distr; cbn [rev]; rewrite <- app_assoc|]. split; [done|]. intros z Hz. rewrite elem_of_rev in Hz.
  assert (z ∈ tree s /\ e ∈ tree s) as [Hzt Het].
  { rewrite El. split; apply elem_of_app; left; apply elem_of_app; right; [by right|left]. }
  pose proof (ok_sorted _ H) as Hs. rewrite El in Hs. apply StronglySorted_app in Hs as (_ & Hs & _).
  pose proof (sorted_after _ _ _ _ Hs z Hz) as Hlt. cbn in Hlt.
  assert (~ lt r (key z)) as Hnz by (apply Hlo, elem_of_app; right; by right).
  assert (z <> e) as Hne by (intros ->; unfold lt in Hlt; lia).
  destruct (ro_span _ (ok_ranges _ H _ Hzt)) as [Hz1 _]. destruct (ro_span _ (ok_ranges _ H _ Het)) as [He1 _].
  apply (apart_overlap _ _ (start (key z)) (ok_apart _ H z e Hzt Het Hne)); [lia|]. unfold lt in *. lia.
Qed.
Lemma reach_contains (q : range) s : ok s -> query_ok q -> reachable q (covers q) (tree s).
Proof.
  intros H Hq lo hi e E He Hf. pose proof (upper_bound_spec q (tree s) (ok_sorted _ H)) as Hu. rewrite E in Hu. destruct Hu as (El & _ & Hhi).
  pose proof (ok_ranges _ H e He) as Hr. destruct (contains_span _ _ (covers_contains q (key e) Hq Hr Hf)) as [Hs Hsel].
  right. eapply reach_low; [done|exact E| |exact Hf|lia]. rewrite El in He. apply elem_of_app in He as [He|He]; [done|]. exfalso.
  specialize (Hhi e He). unfold lt in Hhi. destruct Hhi as [Hlt|[Heq Hm]]; [lia|]. rewrite Heq, (ro_first _ Hr) in Hsel. rewrite (qo_match _ Hq) in Hm. lia.
Qed.

Definition meets (q r : range) : bool := match AddrRange.intersects q r with Ok b => b | Fault _ => false end.
Lemma meets_spec q r : agreeable q r -> range_ok q -> range_ok r ->
  AddrRange.intersects q r = Ok (meets q r) /\
  (if meets q r then ~ disjoint q r /\ (interleaved r = true -> mergesWith q r = true /\ intlvMatch q = intlvMatch r) else apart q r).
Proof.
  intros Ha Hq Hr. unfold meets, AddrRange.intersects, disjoint.
  destruct ((end_ r <=? start q) || (end_ q <=? start r)) eqn:Ed.
  { split; [done|]. left. apply orb_true_iff in Ed as [Ed%Z.leb_le|Ed%Z.leb_le]; [by right|by left]. }
  apply orb_false_iff in Ed as [E1%Z.leb_gt E2%Z.leb_gt]. destruct Ha as [[H|H]|[[H1 H2]|[H1 H2]]]; [lia|lia| |].
  - rewrite H1, H2. cbn. split; [done|]. split; [lia|done].
  - pose proof (interleaved_merges _ _ H1) as Ei. rewrite Ei, H2. cbn [negb andb]. rewrite (proj2 (Z.eqb_neq _ _) (ro_size _ Hr H2)), H1.
    split; [done|]. destruct (Z.eqb_spec (intlvMatch q) (intlvMatch r)); [split; [lia|done]|]. right. done.
Qed.
Lemma reach_intersects (r : range) s : ok s -> range_ok r -> (forall e, e ∈ tree s -> agreeable r (key e)) -> reachable r (meets r) (tree s).
Proof.
  intros H Hr Ha lo hi e E He Hf. pose proof (upper_bound_spec r (tree s) (ok_sorted _ H)) as Hu. rewrite E in Hu. destruct Hu as (El & _ & Hhi).
  pose proof (meets_spec r (key e) (Ha e He) Hr (ok_ranges _ H e He)) as [_ Hm]. rewrite Hf in Hm. destruct Hm as [Hov Him]. unfold disjoint in Hov.
  rewrite El in He. apply elem_of_app in He as [Helo|Hehi]; [right; eapply reach_low; [done|exact E|exact Helo|exact Hf|lia]|]. left.
  specialize (Hhi e Hehi) as Hlt. destruct hi as [|y k]; [by apply elem_of_nil in Hehi|]. exists y, k. split; [done|].
  assert (y ∈ tree s) as Hy by (rewrite El; apply elem_of_app; right; left). assert (e ∈ tree s) as He by (rewrite El; apply elem_of_app; by right).
  pose proof (meets_spec r (key y) (Ha y Hy) Hr (ok_ranges _ H y Hy)) as [_ Hmy]. destruct (meets r (key y)) eqn:Efy; [done|]. exfalso.
  apply elem_of_cons in Hehi as [->|Hk]; [congruence|].
  assert (lt (key y) (key e)) as Hye.
  { pose proof (ok_sorted _ H) as Hs. rewrite El in Hs. by apply (sorted_after _ _ _ _ Hs e Hk). }
  assert (lt r (key y)) as Hry by (apply Hhi; left).
  destruct (ro_span _ (ok_ranges _ H y Hy)) as [Sy _]. destruct (ro_span _ (ok_ranges _ H e He)) as [Se _]. destruct (ro_span _ Hr) as [Sr _].
  assert (mergesWith r (key y) = true) as Hmr.
  { apply (apart_overlap _ _ (Z.max (start r) (start (key y))) Hmy); unfold lt in *; lia. }
  apply merges_spec in Hmr as (M1 & M2 & M3).
  assert (mergesWith (key y) (key e) = true) as Hme.
  { assert (y <> e) as Hne by (intros ->; unfold lt in Hye; lia).
    apply (apart_overlap _ _ (start (key e)) (ok_apart _ H y e Hy He Hne)); unfold lt in *; lia. }
  apply merges_spec in Hme as (N1 & N2 & N3).
  assert (intlvMatch (key e) <= intlvMatch r) as Hle.
  { destruct (interleaved (key e)) eqn:Ei; [destruct (Him eq_refl) as [_ ->]; lia|]. rewrite (ro_plain _ (ok_ranges _ H e He) Ei). apply Hr. }
  unfold lt in *. lia.
Qed.

(** ** Operations *)

Lemma contains_wp q s : ok s -> query_ok q ->
  wp (contains max_cache_size q) s (fun o s' => ok s' /\ tree s' = tree s /\ nodes s' = nodes s /\
    match o with Some e => e ∈ tree s /\ covers q (key e) = true | None => forall e, e ∈ tree s -> covers q (key e) = false end).
Proof. intros H Hq. unfold contains. apply find_wp; [done| |by apply reach_contains]. intros e He. by apply covers_eq. Qed.
Lemma intersects_wp r s : ok s -> range_ok r -> (forall e, e ∈ tree s -> agreeable r (key e)) ->
  wp (intersects max_cache_size r) s (fun o s' => ok s' /\ tree s' = tree s /\ nodes s' = nodes s /\
    match o with Some e => e ∈ tree s /\ meets r (key e) = true | None => forall e, e ∈ tree s -> meets r (key e) = false end).
Proof.
  intros H Hr Ha. unfold intersects. apply find_wp; [done| |by apply reach_intersects]. intros e He. apply meets_spec; [by apply Ha|done|by apply H].
Qed.

Lemma tree_insert_spec i (r : range) (d : V) l : StronglySorted (fun x y => lt (key x) (key y)) l -> (forall e, e ∈ l -> lt r (key e) \/ lt (key e) r) ->
  exists l', tree_insert i r d l = (mkEntry i r d, l') /\ l' ≡ₚ mkEntry i r d :: l /\ StronglySorted (fun x y => lt (key x) (key y)) l'.
Proof.
  induction l as [|e l IH]; intros Hs Ht; cbn [tree_insert]; [eexists; split; [done|]; split; [done|by repeat constructor]|].
  pose proof Hs as Hs'. apply StronglySorted_inv in Hs' as [Hs' Hf]. destruct (range_lt r (key e)) eqn:E.
  - apply range_lt_spec in E. eexists. split; [done|]. split; [done|]. constructor; [done|]. constructor; [done|].
    eapply Forall_impl; [exact Hf|]. intros x Hx. cbn in Hx |- *. by eapply lt_trans.
  - apply range_lt_false in E. destruct (Ht e) as [H|H]; [left|done|]. rewrite (proj2 (range_lt_spec _ _) H).
    destruct IH as (l' & -> & Hp & Hs''); [done|intros x Hx; apply Ht; by right|]. eexists. split; [done|]. split; [rewrite Hp; apply Permutation_swap|].
    constructor; [done|]. apply Forall_forall. intros x Hx. rewrite Hp in Hx. apply elem_of_cons in Hx as [->|Hx]; [done|]. rewrite Forall_forall in Hf. by apply Hf.
Qed.
Lemma apart_lt q r : range_ok q -> range_ok r -> apart q r -> lt q r \/ lt r q.
Proof.
  intros Hq Hr. destruct (ro_span _ Hq) as [Sq _], (ro_span _ Hr) as [Sr _]. unfold lt. intros [[H|H]|[(H1 & _)%merges_spec H2]]; lia.
Qed.
Lemma map_insert_wp r d s : ok s -> range_ok r -> (forall e, e ∈ tree s -> agreeable r (key e)) ->
  wp (insert max_cache_size r d) s (fun o s' => ok s' /\
    match o with
    | Some e => key e = r /\ val e = d /\ tree s' ≡ₚ e :: tree s /\ forall x, x ∈ tree s -> meets r (key x) = false
    | None => tree s' = tree s /\ exists x, x ∈ tree s /\ meets r (key x) = true
    end).
Proof.
  intros H Hr Ha. unfold insert. wp_step. eapply wp_mono; [by apply intersects_wp|]. intros o s1 (H1 & Et & En & Ho). destruct o as [x|].
  { wp_step. split; [done|]. split; [done|]. by exists x. }
  assert (forall e, e ∈ tree s -> apart r (key e)) as Hap.
  { intros e He. pose proof (meets_spec r (key e) (Ha e He) Hr (ok_ranges _ H e He)) as [_ Hm]. by rewrite (Ho e He) in Hm. }
  wp_step. wp_step. destruct (tree_insert_spec (nodes s1) r d (tree s1)) as (l' & -> & Hp & Hs); [apply H1| |].
  { intros e He. rewrite Et in He. apply apart_lt; [done|by apply H|by apply Hap]. }
  set (e0 := mkEntry (nodes s1) r d) in *. wp_step. wp_step. wp_step.
  assert (forall e, e ∈ l' -> e = e0 \/ e ∈ tree s) as Hin.
  { intros e He. rewrite Hp, Et in He. by apply elem_of_cons in He. }
  split; [|split; [done|split; [done|split; [by rewrite <- Et|done]]]]. split; cbn [tree cache nodes over].
  - exact Hs.
  - intros e [->|He]%Hin; [done|by apply H].
  - intros x y [->|Hx]%Hin [->|Hy]%Hin Hne; [done|by apply Hap|by apply apart_sym, Hap|by apply H].
  - rewrite Hp. cbn. apply NoDup_cons. split; [|apply H1]. intros (e & E & He)%list_elem_of_fmap. pose proof (ok_fresh _ H1 e He). cbn in E. lia.
  - intros e [->|He]%Hin; [cbn; lia|]. rewrite <- Et in He. pose proof (ok_fresh _ H1 e He). lia.
  - intros i Hi. rewrite Hp. right. by apply H1.
Qed.
Lemma erase_wp p s : ok s -> wp (erase p) s (fun _ s' => ok s' /\ tree s' = filter (fun e => node e <> p) (tree s)).
Proof.
  intros []. unfold erase. wp_step. split; [|done]. split; cbn [tree cache nodes over].
  - clear -ok_sorted0. induction ok_sorted0 as [|e l Hs IH Hf]; [constructor|]. rewrite filter_cons. destruct (decide _); [|done].
    constructor; [done|]. apply Forall_forall. intros x [_ Hx]%list_elem_of_filter. rewrite Forall_forall in Hf. by apply Hf.
  - intros e [_ He]%list_elem_of_filter. auto.
  - intros x y [_ Hx]%list_elem_of_filter [_ Hy]%list_elem_of_filter. auto.
  - eapply sublist_NoDup; [exact ok_nodes0|]. apply fmap_sublist, sublist_filter.
  - intros e [_ He]%list_elem_of_filter. auto.
  - intros i [Hne Hi]%list_elem_of_filter. apply ok_cache0 in Hi as (e & -> & He)%list_elem_of_fmap. apply list_elem_of_fmap_2.
    by apply list_elem_of_filter.
Qed.

(** ** Runs *)

#[local] Instance range_eq : EqDecision range.
Proof. solve_decision. Defined.

Inductive op := Insert (r : range) (d : V) | Find (q : range) | Erase (r : range).
Inductive answer := Inserted (b : bool) | Found (d : option V) | Erased.
(** An iterator is taken from the tree. *)
Definition erase_key (r : range) : comp (t V) unit :=
  s ← get; match list_find (fun e => key e = r) (tree s) with Some (_, e) => erase (node e) | None => mret tt end.
Definition exec (o : op) : comp (t V) answer :=
  match o with
  | Insert r d => x ← insert max_cache_size r d; mret (Inserted (if x is Some _ then true else false))
  | Find q => x ← contains max_cache_size q; mret (Found (val <$> x))
  | Erase r => erase_key r;; mret Erased
  end.
(** The specification: a list of pairs. *)
Definition exec_spec (o : op) (l : list (range * V)) : answer * list (range * V) :=
  match o with
  | Insert r d => if existsb (fun x : range * V => meets r x.1) l then (Inserted false, l) else (Inserted true, (r, d) :: l)
  | Find q => (Found (snd <$> head (List.filter (fun x : range * V => covers q x.1) l)), l)
  | Erase r => (Erased, filter (fun x : range * V => x.1 <> r) l)
  end.
Definition legal (o : op) (l : list (range * V)) : Prop :=
  match o with
  | Insert r d => range_ok r /\ forall x : range * V, x ∈ l -> agreeable r x.1
  | Find q => query_ok q
  | Erase r => True
  end.
Definition pairs s : list (range * V) := (fun e => (key e, val e)) <$> tree s.
Definition represents s (l : list (range * V)) : Prop := ok s /\ pairs s ≡ₚ l.

Lemma pairs_elem s (x : range * V) : x ∈ pairs s <-> exists e, e ∈ tree s /\ x = (key e, val e).
Proof. unfold pairs. rewrite list_elem_of_fmap. split; intros (e & H1 & H2); by exists e. Qed.
Lemma represents_elem s (l : list (range * V)) e : represents s l -> e ∈ tree s -> (key e, val e) ∈ l.
Proof. intros [_ Hp] He. rewrite <- Hp. apply pairs_elem. by exists e. Qed.
Lemma node_unique s x y : ok s -> x ∈ tree s -> y ∈ tree s -> node x = node y -> x = y.
Proof.
  intros H [i Hi]%list_elem_of_lookup [j Hj]%list_elem_of_lookup En. assert (i = j) as ->; [|congruence].
  eapply NoDup_lookup; [apply H| |]; rewrite list_lookup_fmap, ?Hi, ?Hj; [done|]. cbn. by rewrite En.
Qed.
Lemma apart_unique s x y : ok s -> x ∈ tree s -> y ∈ tree s -> ~ apart (key x) (key y) -> x = y.
Proof.
  intros H Hx Hy Ha. destruct (decide (node x = node y)) as [E|E]; [by eapply node_unique|]. destruct Ha. apply (ok_apart _ H x y Hx Hy). congruence.
Qed.
Lemma key_unique s x y : ok s -> x ∈ tree s -> y ∈ tree s -> key x = key y -> x = y.
Proof.
  intros H Hx Hy E. eapply apart_unique; [done..|]. rewrite E. pose proof (ro_span _ (ok_ranges _ H y Hy)).
  intros [[?|?]|[_ ?]]; [lia|lia|done].
Qed.
(** One entry covers a query. *)
Lemma covers_unique s (q : range) x y : ok s -> query_ok q -> x ∈ tree s -> y ∈ tree s -> covers q (key x) = true -> covers q (key y) = true -> x = y.
Proof.
  intros H Hq Hx Hy Cx Cy. apply covers_contains in Cx; [|done|by apply H]. apply covers_contains in Cy; [|done|by apply H].
  eapply apart_unique; [done..|]. intros Ha. by eapply contains_apart.
Qed.
(** A look-up finds the value of the pair that covers the query. *)
Lemma lookup_wp (q : range) s (l : list (range * V)) : represents s l -> query_ok q ->
  wp (contains max_cache_size q) s (fun o s' => val <$> o = snd <$> head (List.filter (fun x : range * V => covers q x.1) l) /\ represents s' l).
Proof.
  intros [H Hp] Hl. pose proof (fun e => represents_elem s l e (conj H Hp)) as Hin.
  eapply wp_mono; [by apply contains_wp|]. intros o s' (H' & Et & _ & Ho). split; [|split; [done|unfold pairs; by rewrite Et]].
  assert (forall y : range * V, y ∈ List.filter (fun x : range * V => covers q x.1) l -> exists e, e ∈ tree s /\ covers q (key e) = true /\ y = (key e, val e)) as Hfil.
  { intros y Hy. apply list_elem_of_In, filter_In in Hy as [Hy Hc]. apply list_elem_of_In in Hy. rewrite <- Hp in Hy. apply pairs_elem in Hy as (e & He & ->). by exists e. }
  destruct (List.filter (fun x : range * V => covers q x.1) l) as [|y k] eqn:Ef.
  - destruct o as [e|]; [|done]. destruct Ho as [He Hc]. assert ((key e, val e) ∈ List.filter (fun x : range * V => covers q x.1) l) as Hx.
    { apply list_elem_of_In, filter_In. split; [by apply list_elem_of_In, Hin|done]. }
    rewrite Ef in Hx. by apply elem_of_nil in Hx.
  - destruct (Hfil y) as (e' & He' & Hc' & ->); [left|]. destruct o as [e|]; [|by rewrite (Ho e' He') in Hc']. destruct Ho as [He Hc].
    by rewrite (covers_unique s q e e' H Hl He He' Hc Hc').
Qed.
(** An insertion, in terms of the pairs. *)
Lemma add_wp (r : range) (d : V) s (l : list (range * V)) : represents s l -> range_ok r -> (forall x : range * V, x ∈ l -> agreeable r x.1) ->
  wp (insert max_cache_size r d) s (fun o s' => if existsb (fun x : range * V => meets r x.1) l then o = None else o <> None /\ represents s' ((r, d) :: l)).
Proof.
  intros [H Hp] Hr Ha. pose proof (fun e => represents_elem s l e (conj H Hp)) as Hin.
  eapply wp_mono; [apply map_insert_wp; [done|done|]; intros e He; by apply (Ha _ (Hin e He))|]. intros [e|] s' [H' Ho].
  - destruct Ho as (<- & <- & Ht & Hn). assert (existsb (fun x : range * V => meets (key e) x.1) l = false) as ->.
    { apply not_true_is_false. intros (x & Hx & Hm)%existsb_exists. apply list_elem_of_In in Hx. rewrite <- Hp in Hx. apply pairs_elem in Hx as (y & Hy & ->).
      cbn in Hm. by rewrite (Hn y Hy) in Hm. }
    split; [done|]. split; [done|]. unfold pairs. rewrite Ht. cbn. by rewrite <- Hp.
  - destruct Ho as [Et (x & Hx & Hm)]. assert (existsb (fun x : range * V => meets r x.1) l = true) as ->; [|done].
    apply existsb_exists. exists (key x, val x). split; [by apply list_elem_of_In, Hin|done].
Qed.
Lemma map_exec_wp o s (l : list (range * V)) : represents s l -> legal o l ->
  wp (exec o) s (fun a s' => a = (exec_spec o l).1 /\ represents s' (exec_spec o l).2).
Proof.
  intros [H Hp] Hl. pose proof (fun e => represents_elem s l e (conj H Hp)) as Hin. destruct o as [r d|q|r]; cbn [exec exec_spec legal] in *.
  - destruct Hl as [Hr Ha]. wp_step. eapply wp_mono; [apply map_insert_wp; [done|done|]; intros e He; by apply (Ha _ (Hin e He))|].
    intros [e|] s' [H' Ho]; wp_step.
    + destruct Ho as (<- & <- & Ht & Hn). assert (existsb (fun x : range * V => meets (key e) x.1) l = false) as ->.
      { apply not_true_is_false. intros (x & Hx & Hm)%existsb_exists. apply list_elem_of_In in Hx. rewrite <- Hp in Hx. apply pairs_elem in Hx as (y & Hy & ->).
        cbn in Hm. by rewrite (Hn y Hy) in Hm. }
      split; [done|]. split; [done|]. unfold pairs. rewrite Ht. cbn. by rewrite <- Hp.
    + destruct Ho as [Et (x & Hx & Hm)]. assert (existsb (fun x : range * V => meets r x.1) l = true) as ->.
      { apply existsb_exists. exists (key x, val x). split; [by apply list_elem_of_In, Hin|done]. }
      split; [done|]. split; [done|]. unfold pairs. by rewrite Et.
  - wp_step. eapply wp_mono; [by apply lookup_wp|]. intros o s' [Eo H']. wp_step. by rewrite Eo.
  - unfold erase_key. wp_step. wp_step. wp_step. destruct (list_find (fun e => key e = r) (tree s)) as [[i e]|] eqn:Ef.
    + apply list_find_Some in Ef as (Hi & He & _). apply list_elem_of_lookup_2 in Hi. eapply wp_mono; [by apply erase_wp|]. intros [] s' [H' Et]. wp_step.
      split; [done|]. split; [done|]. unfold pairs. rewrite Et, <- Hp. unfold pairs. clear -H Hi He.
      assert (forall k : list (entry V), (forall x, x ∈ k -> x ∈ tree s) ->
        (fun e => (key e, val e)) <$> filter (fun x => node x <> node e) k = filter (fun x : range * V => x.1 <> r) ((fun e => (key e, val e)) <$> k)) as Hk; [|by rewrite Hk].
      induction k as [|x k IH]; intros Hk; [done|]. cbn [fmap list_fmap]. rewrite !filter_cons. cbn [fst]. specialize (IH ltac:(intros y Hy; apply Hk; by right)).
      assert (x ∈ tree s) as Hx by (apply Hk; left). destruct (decide (node x <> node e)) as [Hn|Hn], (decide (key x <> r)) as [Hr|Hr]; cbn [fmap list_fmap].
      * by rewrite IH.
      * exfalso. apply dec_stable in Hr. apply Hn. f_equal. eapply key_unique; [done..|]. congruence.
      * exfalso. apply dec_stable in Hn. apply Hr. by rewrite (node_unique s x e H Hx Hi Hn).
      * exact IH.
    + wp_step. wp_step. split; [done|]. split; [done|]. apply list_find_None in Ef. rewrite <- Hp. unfold pairs. clear -Ef.
      induction Ef as [|x k Hx Ef IH]; [done|]. cbn [fmap list_fmap]. rewrite filter_cons. cbn [fst]. rewrite decide_True by done. by rewrite <- IH.
Qed.
Fixpoint run (ops : list op) : comp (t V) (list answer) :=
  match ops with [] => mret [] | o :: ops' => a ← exec o; l ← run ops'; mret (a :: l) end.
Fixpoint run_spec (ops : list op) (l : list (range * V)) : list answer * list (range * V) :=
  match ops with [] => ([], l) | o :: ops' => let '(a, l1) := exec_spec o l in let '(r, l2) := run_spec ops' l1 in (a :: r, l2) end.
Fixpoint legal_run (ops : list op) (l : list (range * V)) : Prop :=
  match ops with [] => True | o :: ops' => legal o l /\ legal_run ops' (exec_spec o l).2 end.
Lemma map_run_wp ops : forall s (l : list (range * V)), represents s l -> legal_run ops l ->
  wp (run ops) s (fun a s' => a = (run_spec ops l).1 /\ represents s' (run_spec ops l).2).
Proof.
  induction ops as [|o ops IH]; intros s l H Hl; cbn [run run_spec]; [by wp_step|]. destruct Hl as [Ho Hl].
  wp_step. eapply wp_mono; [by apply map_exec_wp|]. intros a s1 [-> H1]. destruct (exec_spec o l) as [a l1]. cbn [fst snd] in *.
  wp_step. eapply wp_mono; [by apply IH|]. intros r s2 [-> H2]. destruct (run_spec ops l1). wp_step. done.
Qed.
Lemma create_represents : represents (create : t V) [].
Proof.
  split; [|done]. split; cbn; try (by constructor); intros; by match goal with H : _ ∈ [] |- _ => apply elem_of_nil in H end.
Qed.
End Map.

(** ** Properties *)

(** C16. Any sequence of insertions, look-ups of address ranges and erasures of single entries on
    a map of ranges (plain, or the channels of interleaved ranges that begin with the first
    channel, not of one byte; every two disjoint, both plain or of the same interleaving, so
    that the code can decide whether they intersect), with a cache of any size,
    answers what a list of pairs answers: an insertion is refused exactly
    if the range intersects one of the list, a look-up finds the value of the one range that
    covers the query, and nothing faults. *)
Theorem range_map_refines {V} max_cache_size (s : t V) (l : list (AddrRange.t * V)) ops : represents s l -> legal_run ops l ->
  exists a s', run max_cache_size ops s = Ok (a, s') /\ a = (run_spec ops l).1 /\ represents s' (run_spec ops l).2.
Proof. intros H Hl. by apply wp_inv, map_run_wp. Qed.

(** Two channels of 64 bytes, and a plain range after them. *)
Definition channel (start end_ high bits match_ : Z) : AddrRange.t :=
  match AddrRange.create start end_ high 0 bits match_ with Ok r => r | Fault _ => AddrRange.mkRange 0 0 [] 0 end.
Definition two_channels (m : Z) : AddrRange.t := channel 0 256 6 1 m.
Definition plain_range : AddrRange.t := AddrRange.mkRange 256 512 [] 0.
Definition demo_ops : list (op (V := Z)) :=
  [Insert (two_channels 1) 11; Insert plain_range 20; Insert (two_channels 0) 10; Insert (AddrRange.mkRange 500 600 [] 0) 30;
   Find (RangeSize 64 64); Find (RangeSize 0 8); Find (RangeSize 500 4); Erase (two_channels 1); Find (RangeSize 64 64); Find (RangeSize 128 4)].
Lemma range_map_refines_witness : exists a s', run 3 demo_ops create = Ok (a, s') /\
  a = [Inserted true; Inserted true; Inserted true; Inserted false; Found (Some 11); Found (Some 10); Found (Some 20); Erased; Found None; Found (Some 10)].
Proof.
  assert (forall m, 0 <= m < 2 -> range_ok (two_channels m)) as H2.
  { intros m Hm. assert (m = 0 \/ m = 1) as [-> | ->] by lia; (split; [split_and!; vm_compute; done|vm_compute; done..]). }
  assert (range_ok plain_range) as Hp by by split.
  destruct (range_map_refines 3 (create : t Z) [] demo_ops create_represents) as (a & s' & E & -> & _).
  - unfold demo_ops. cbn [legal_run legal exec_spec]. repeat (match goal with
      | |- _ /\ _ => split
      | |- range_ok (two_channels _) => apply H2; done
      | |- range_ok plain_range => exact Hp
      | |- range_ok _ => by split
      | |- query_ok _ => by split
      | |- True => exact I
      end); intros x Hx; vm_compute in Hx;
      repeat (apply elem_of_cons in Hx as [->|Hx]; [first [by left; left; vm_compute|by left; right; vm_compute|by right; left; vm_compute|by right; right; vm_compute]|]);
      by apply elem_of_nil in Hx.
  - eexists _, s'. split; [exact E|]. vm_compute. reflexivity.
Defined.

(** Four channels of 64 bytes from address 128, which is in the third one: the tree is not
    searched there, and the address is not found. *)
Theorem unaligned_start_missed : exists s, run 3 ((fun m => Insert (channel 128 1152 7 2 m) m) <$> [0; 1; 2; 3]) create = Ok (replicate 4 (Inserted true), s) /\
  AddrRange.contains (channel 128 1152 7 2 2) 128 = true /\ val <$> tree s = [0; 1; 2; 3] /\
  (exists s', contains_addr 3 128 s = Ok (None, s')) /\ exists e s', contains_addr 3 129 s = Ok (Some e, s') /\ val e = 2.
Proof. eexists. split; [vm_compute; reflexivity|]. split; [vm_compute; done|]. split; [vm_compute; done|]. split; [eexists; vm_compute; reflexivity|]. eexists _, _. split; vm_compute; reflexivity. Qed.

(** Erasing both entries after both have been looked up leaves the second one in the cache:
    the next look-up follows an iterator to an erased node. *)
Theorem erase_range_dangles : exists s, run 3 [Insert (AddrRange.mkRange 0 64 [] 0) 1; Insert (AddrRange.mkRange 64 128 [] 0) 2; Find (RangeSize 0 1); Find (RangeSize 64 1)] create =
    Ok ([Inserted true; Inserted true; Found (Some 1); Found (Some 2)], s) /\
  exists s', erase_range 0 None s = Ok (tt, s') /\ tree s' = [] /\ cache s' = [1%nat] /\ contains_addr 3 64 s' = Fault OutOfBounds.
Proof. eexists. split; [vm_compute; reflexivity|]. eexists. split; [vm_compute; reflexivity|]. split; [vm_compute; done|]. split; [vm_compute; done|]. vm_compute. reflexivity. Qed.
End RangeMapSpec.
