(* ===== verification/Detector.v ===== *)
(** The Misra-Gries aggressor tracker of [mem/rowhammer_detector.{hh,cc}]:
    one [Tracker] per DRAM bank, the detector that dispatches to it, the
    tracker invariant and the detection guarantee.  *)
From S2P Require Import Prelude.

Module Misra_Gries.

(** ** State *)

Record Tracker_Entry := mkEntry { valid : bool; addr : Z; count : Z }.
#[global] Instance eta_Tracker_Entry : Settable Tracker_Entry :=
  fun r => mkEntry (valid r) (addr r) (count r).
Definition zero_entry : Tracker_Entry := mkEntry false 0 0.

Record Tracker := mkTracker {
  entries : list Tracker_Entry;
  spill_counter : Z;
  uniq_rows : gset Z;
  rowHasEntry : list Z;
  s_num_reset : Z;
  s_glob_spill_count : Z;
  s_num_access : Z;
  s_num_install : Z;
  s_aggressors : Z }.
#[global] Instance eta_Tracker : Settable Tracker := fun r =>
  mkTracker (entries r) (spill_counter r) (uniq_rows r) (rowHasEntry r)
    (s_num_reset r) (s_glob_spill_count r) (s_num_access r) (s_num_install r)
    (s_aggressors r).

(** A bank is addressed as [trackers[channelID][rankID][bankID]]. *)
Abbreviation bank := (Z * Z * Z)%type.

Record t := mkDetector {
  trackers : gmap bank Tracker;
  threshold : Z;
  numEntries : Z;
  numRows : Z;
  numBanks : Z;
  numRanks : Z;
  numChannels : Z;
  s_numUniqRows : Z }.
#[global] Instance eta_t : Settable t := fun r =>
  mkDetector (trackers r) (threshold r) (numEntries r) (numRows r)
    (numBanks r) (numRanks r) (numChannels r) (s_numUniqRows r).

(** The index space of the three nested loops. *)
Definition bank_keys (channels ranks banks : Z) : list bank :=
  ii ← seqZ 0 channels; jj ← seqZ 0 ranks; kk ← seqZ 0 banks; mret (ii, jj, kk).

(** ** Operations *)

(** [new Tracker[n]] runs no initialiser for the plain members, so their
    values are those the allocator left: the argument [uninit]. *)
Definition create (uninit : bank -> Tracker)
    (__numEntries __threshold __numRows __numBanks __numRanks __numChannels : Z) : t :=
  mkDetector
    (list_to_map ((fun k => (k, (uninit k)
       <| uniq_rows := ∅ |>
       <| entries := calloc __numEntries zero_entry |>
       <| rowHasEntry := calloc __numRows 0 |>))
       <$> bank_keys __numChannels __numRanks __numBanks))
    __threshold __numEntries __numRows __numBanks __numRanks __numChannels 0.

Definition reset_tracker (numEntries numRows : Z) (tr : Tracker) : Tracker :=
  tr <| s_num_reset ::= fun n => u32 (n + 1) |>
     <| s_glob_spill_count ::= fun n => u32 (n + spill_counter tr) |>
     <| spill_counter := 0 |>
     <| entries := calloc numEntries zero_entry |>
     <| rowHasEntry := calloc numRows 0 |>.

Definition reset (d : t) : t :=
  d <| trackers ::= fmap (reset_tracker (numEntries d) (numRows d)) |>.

(** [if (count % threshold == 0)]: the row is an aggressor; the second
    component tells whether it is one for the first time. *)
Definition note_aggressor (thr rowAddr c : Z) : comp Tracker (bool * bool) :=
  m ← lift (umod c thr);
  if m =? 0 then
    seen ← gets (fun tr => bool_decide (rowAddr ∈ uniq_rows tr));
    modify (fun tr => tr <| uniq_rows ::= fun u => {[rowAddr]} ∪ u |>);;
    mret (true, negb seen)
  else mret (false, false).

(** The branch taken when [rowHasEntry[rowAddr]] names an entry. *)
Definition hit_entry (thr rowAddr entryID : Z) (isFuncLookup : bool)
    : comp Tracker (bool * bool) :=
  es ← gets entries;
  e ← lift (aread es entryID);
  assert_ (valid e && (addr e =? rowAddr));;
  if isFuncLookup then mret (false, false)
  else
    let e' := e <| count ::= fun c => u32 (c + 1) |> in
    es' ← lift (awrite es entryID e');
    modify (fun tr => tr <| entries := es' |>);;
    note_aggressor thr rowAddr (count e').

(** The [for] loop over the entries: the first one whose count equals the
    spill counter; an invalid entry met before that is an assertion failure. *)
Fixpoint find_slot (spill : Z) (es : list Tracker_Entry) (ii : Z) : result (option Z) :=
  match es with
  | [] => Ok None
  | e :: es' =>
      if count e =? spill then Ok (Some ii)
      else if negb (valid e) then Fault AssertFail
      else find_slot spill es' (ii + 1)
  end.

Definition install_entry (thr rowAddr ii : Z) : comp Tracker (bool * bool) :=
  es ← gets entries;
  e ← lift (aread es ii);
  rhe ← gets rowHasEntry;
  rhe1 ← lift (if valid e then awrite rhe (addr e) 0 else Ok rhe);
  let e' := mkEntry true rowAddr (u32 (count e + 1)) in
  es' ← lift (awrite es ii e');
  rhe2 ← lift (awrite rhe1 rowAddr (u32 (ii + 1)));
  modify (fun tr => tr <| entries := es' |> <| rowHasEntry := rhe2 |>
                       <| s_num_install ::= fun n => u64 (n + 1) |>);;
  note_aggressor thr rowAddr (count e').

(** [Misra_Gries::access] on the tracker of one bank: the returned flag, and
    whether the row entered [uniq_rows]. *)
Definition access_tracker (thr rowAddr : Z) (isFuncLookup : bool)
    : comp Tracker (bool * bool) :=
  when_ (negb isFuncLookup) (modify (fun tr => tr <| s_num_access ::= fun n => u64 (n + 1) |>));;
  rhe ← gets rowHasEntry;
  v ← lift (aread rhe rowAddr);
  let entry_found := negb (v =? 0) in
  '(aggressor_detected, fresh) ←
    (if entry_found then hit_entry thr rowAddr (u32 (v - 1)) isFuncLookup
     else if isFuncLookup then mret (false, false)
     else
       tr ← get;
       slot ← lift (find_slot (spill_counter tr) (entries tr) 0);
       match slot with
       | Some ii => install_entry thr rowAddr ii
       | None =>
           modify (fun tr => tr <| spill_counter ::= fun n => u32 (n + 1) |>);;
           mret (false, false)
       end);
  when_ (aggressor_detected && negb isFuncLookup)
    (modify (fun tr => tr <| s_aggressors ::= fun n => u64 (n + 1) |>));;
  mret (if isFuncLookup then entry_found else aggressor_detected, fresh).

Definition access (rowAddr bankID rankID channelID : Z) (isFuncLookup : bool) : comp t bool :=
  d ← get;
  match trackers d !! (channelID, rankID, bankID) with
  | None => lift (Fault OutOfBounds)
  | Some tr =>
      '((ret, fresh), tr') ← lift (access_tracker (threshold d) rowAddr isFuncLookup tr);
      modify (fun d => d <| trackers ::= <[(channelID, rankID, bankID) := tr']> |>);;
      when_ fresh (modify (fun d => d <| s_numUniqRows ::= fun n => u64 (n + 1) |>));;
      mret ret
  end.

(** ** The tracker invariant *)

(** [wf es spill rhe W f] ties the entry array, the spill counter and the
    reverse index to the ghost history of the window: [W] accesses in all,
    [f r] of them to row [r]. *)
Section Tracker_invariant.
Context (numEntries numRows : Z).

Record wf (es : list Tracker_Entry) (spill : Z) (rhe : list Z)
    (W : Z) (f : Z -> Z) : Prop := {
  wf_entries : zlen es = numEntries;
  wf_rows : zlen rhe = numRows;
  wf_entry : forall i e, es !! i = Some e -> valid e = true ->
               rhe !! addr e = Some (i + 1);
  wf_row : forall r v, rhe !! r = Some v -> v <> 0 ->
             exists e, es !! (v - 1) = Some e /\ valid e = true /\ addr e = r;
  wf_invalid : forall i e, es !! i = Some e -> valid e = false -> count e = 0;
  wf_spill : 0 <= spill;
  wf_count : forall i e, es !! i = Some e -> spill <= count e;
  wf_sum : lsum count es + spill = W;
  wf_tracked : forall i e, es !! i = Some e -> valid e = true ->
                 count e - spill <= f (addr e) <= count e;
  wf_untracked : forall r, rhe !! r = Some 0 -> 0 <= f r <= spill }.

Implicit Types (es : list Tracker_Entry) (rhe : list Z).

Lemma wf_fresh : 0 <= numEntries -> 0 <= numRows ->
  wf (calloc numEntries zero_entry) 0 (calloc numRows 0) 0 (fun _ => 0).
Proof.
  intros Hn Hr. split; rewrite ?zlen_calloc, ?lsum_calloc by done; try done.
  - intros i e [-> _]%zlookup_calloc. done.
  - intros r v [-> _]%zlookup_calloc. done.
  - intros i e [-> _]%zlookup_calloc. done.
  - intros i e [-> _]%zlookup_calloc. done.
  - cbn. lia.
  - intros i e [-> _]%zlookup_calloc. done.
Qed.

(** The spill counter is at most the window's accesses over [numEntries+1]. *)
Lemma wf_spill_bound es spill rhe W f :
  wf es spill rhe W f -> spill * (numEntries + 1) <= W.
Proof.
  intros H. pose proof (lsum_lower count es spill (wf_count _ _ _ _ _ H)).
  pose proof (wf_sum _ _ _ _ _ H). rewrite (wf_entries _ _ _ _ _ H) in *. lia.
Qed.
Lemma wf_count_bound es spill rhe W f i e :
  wf es spill rhe W f -> es !! i = Some e -> 0 <= count e <= W.
Proof.
  intros H Hi. pose proof (wf_spill _ _ _ _ _ H). pose proof (wf_sum _ _ _ _ _ H).
  assert (forall j e', es !! j = Some e' -> 0 <= count e') as Hpos.
  { intros j e' Hj. pose proof (wf_count _ _ _ _ _ H j e' Hj). lia. }
  pose proof (lsum_elem count es i e Hpos Hi). pose proof (Hpos i e Hi). lia.
Qed.

Lemma wf_hit es spill rhe W f i e :
  wf es spill rhe W f -> es !! i = Some e -> valid e = true ->
  wf (<[i := mkEntry true (addr e) (count e + 1)]> es) spill rhe (W + 1) (bump f (addr e) 1).
Proof.
  intros H Hi Hv. pose proof (wf_entry _ _ _ _ _ H) as Hentry.
  split.
  - rewrite zlen_insert. apply H.
  - apply H.
  - intros j e' [(<- & -> & _)|[Hne Hj]]%zlookup_insert Hv'; cbn;
      by apply Hentry.
  - intros r v Hr Hnz. destruct (wf_row _ _ _ _ _ H r v Hr Hnz) as (e' & Hj & Hv' & <-).
    destruct (decide (i = v - 1)) as [->|Hne].
    + rewrite zlookup_insert_eq by (by eapply zlookup_lt). simplify_eq. eauto.
    + rewrite zlookup_insert_ne by done. eauto.
  - intros j e' [(<- & -> & _)|[Hne Hj]]%zlookup_insert Hv'; cbn in *; [congruence|].
    by eapply wf_invalid.
  - by eapply wf_spill.
  - intros j e' [(<- & -> & _)|[Hne Hj]]%zlookup_insert; cbn;
      [pose proof (wf_count _ _ _ _ _ H i e Hi); lia|by eapply wf_count].
  - rewrite (lsum_insert count es i e _ Hi). cbn. rewrite <- (wf_sum _ _ _ _ _ H). lia.
  - intros j e' [(<- & -> & _)|[Hne Hj]]%zlookup_insert Hv'; cbn.
    + rewrite bump_eq. pose proof (wf_tracked _ _ _ _ _ H i e Hi Hv). lia.
    + rewrite bump_ne; [by eapply wf_tracked|].
      intros Heq. pose proof (Hentry j e' Hj Hv'). pose proof (Hentry i e Hi Hv).
      rewrite Heq in *. simplify_eq. lia.
  - intros r Hr. rewrite bump_ne; [by eapply wf_untracked|].
    intros ->. pose proof (Hentry i e Hi Hv). simplify_eq.
    pose proof (zlookup_lt _ _ _ Hi). lia.
Qed.

Lemma wf_miss es spill rhe W f r :
  wf es spill rhe W f -> rhe !! r = Some 0 ->
  (forall i e, es !! i = Some e -> count e <> spill) ->
  wf es (spill + 1) rhe (W + 1) (bump f r 1).
Proof.
  intros H Hr Hall. pose proof (wf_spill _ _ _ _ _ H).
  assert (Hne : forall i e, es !! i = Some e -> valid e = true -> addr e <> r).
  { intros i e Hi Hv <-. pose proof (wf_entry _ _ _ _ _ H i e Hi Hv). simplify_eq.
    pose proof (zlookup_lt _ _ _ Hi). lia. }
  split; try apply H.
  - lia.
  - intros i e Hi. pose proof (wf_count _ _ _ _ _ H i e Hi).
    pose proof (Hall i e Hi). lia.
  - rewrite <- (wf_sum _ _ _ _ _ H). lia.
  - intros i e Hi Hv. rewrite bump_ne by eauto.
    pose proof (wf_tracked _ _ _ _ _ H i e Hi Hv). lia.
  - intros x Hx. pose proof (wf_untracked _ _ _ _ _ H x Hx).
    unfold bump. destruct (x =? r); lia.
Qed.

(** The reverse index once the occupant of a recycled entry is dropped. *)
Definition unindex (e : Tracker_Entry) (rhe : list Z) : list Z :=
  if valid e then <[addr e := 0]> rhe else rhe.

Lemma zlen_unindex e rhe : zlen (unindex e rhe) = zlen rhe.
Proof. unfold unindex. destruct (valid e); [apply zlen_insert|done]. Qed.

Lemma unindex_lookup e rhe x v :
  unindex e rhe !! x = Some v -> v = 0 /\ valid e = true /\ x = addr e \/
  rhe !! x = Some v /\ (valid e = true -> x <> addr e).
Proof.
  unfold unindex. destruct (valid e); [|naive_solver].
  intros [(<- & -> & _)|[Hne Hv]]%zlookup_insert; [by left|right; split; [done|]].
  intros _ ->. done.
Qed.

Lemma unindex_other e rhe x :
  (valid e = true -> x <> addr e) -> unindex e rhe !! x = rhe !! x.
Proof.
  intros H. unfold unindex. destruct (valid e); [|done].
  apply zlookup_insert_ne. intros <-. by apply H.
Qed.

Lemma wf_install es spill rhe W f i e r :
  wf es spill rhe W f -> es !! i = Some e -> count e = spill -> rhe !! r = Some 0 ->
  wf (<[i := mkEntry true r (spill + 1)]> es) spill
     (<[r := i + 1]> (unindex e rhe)) (W + 1) (bump f r 1).
Proof.
  intros H Hi Hc Hr. pose proof (wf_entry _ _ _ _ _ H) as Hentry.
  pose proof (zlookup_lt _ _ _ Hi) as Hilt. pose proof (zlookup_lt _ _ _ Hr) as Hrlt.
  assert (Hfresh : forall j e', es !! j = Some e' -> valid e' = true -> addr e' <> r).
  { intros j e' Hj Hv <-. pose proof (Hentry j e' Hj Hv). simplify_eq.
    pose proof (zlookup_lt _ _ _ Hj). lia. }
  assert (Hother : forall j e', j <> i -> es !! j = Some e' -> valid e' = true ->
            valid e = true -> addr e' <> addr e).
  { intros j e' Hne Hj Hv' Hv Heq. pose proof (Hentry j e' Hj Hv').
    pose proof (Hentry i e Hi Hv). rewrite Heq in *. simplify_eq. lia. }
  split.
  - rewrite zlen_insert. apply H.
  - rewrite zlen_insert, zlen_unindex. apply H.
  - intros j e' [(<- & -> & _)|[Hne Hj]]%zlookup_insert Hv'; cbn in *.
    + apply zlookup_insert_eq. by rewrite zlen_unindex.
    + rewrite zlookup_insert_ne by (symmetry; by eapply Hfresh).
      rewrite unindex_other by (by eauto). by apply Hentry.
  - intros x v [(<- & -> & _)|[Hne Hx]]%zlookup_insert Hnz.
    + replace (i + 1 - 1) with i by lia. rewrite zlookup_insert_eq by done. eauto.
    + apply unindex_lookup in Hx as [(-> & _)|[Hx Hxe]]; [done|].
      destruct (wf_row _ _ _ _ _ H x v Hx Hnz) as (e' & Hj & Hv' & <-).
      rewrite zlookup_insert_ne; [eauto|]. intros ->. simplify_eq. by apply Hxe.
  - intros j e' [(<- & -> & _)|[Hne Hj]]%zlookup_insert Hv'; cbn in *; [done|].
    by eapply wf_invalid.
  - by eapply wf_spill.
  - intros j e' [(<- & -> & _)|[Hne Hj]]%zlookup_insert; cbn; [lia|by eapply wf_count].
  - rewrite (lsum_insert count es i e _ Hi). cbn. rewrite <- (wf_sum _ _ _ _ _ H). lia.
  - intros j e' [(<- & -> & _)|[Hne Hj]]%zlookup_insert Hv'; cbn in *.
    + rewrite bump_eq. pose proof (wf_untracked _ _ _ _ _ H r Hr). lia.
    + rewrite bump_ne by eauto. by eapply wf_tracked.
  - intros x Hx. apply zlookup_insert in Hx as [(<- & Hz & _)|[Hne Hx]]; [lia|].
    rewrite bump_ne by done.
    apply unindex_lookup in Hx as [(_ & Hv & ->)|[Hx Hxe]].
    + pose proof (wf_tracked _ _ _ _ _ H i e Hi Hv). lia.
    + by eapply wf_untracked.
Qed.

(** The scan finds the first entry at the spill count, or tells that there
    is none; its assertion cannot fail on a well-formed tracker. *)
Lemma find_slot_spec es spill rhe W f :
  wf es spill rhe W f ->
  rp (find_slot spill es 0) (fun slot =>
    match slot with
    | Some ii => exists e, es !! ii = Some e /\ count e = spill
    | None => forall i e, es !! i = Some e -> count e <> spill
    end).
Proof.
  intros H. pose proof (wf_spill _ _ _ _ _ H) as Hs.
  assert (Hok : forall j e, es !! j = Some e -> valid e = false -> count e = spill).
  { intros j e Hj Hv. pose proof (wf_invalid _ _ _ _ _ H j e Hj Hv).
    pose proof (wf_count _ _ _ _ _ H j e Hj). lia. }
  clear H. enough (Hgen : forall lo, 0 <= lo -> rp (find_slot spill es lo) (fun slot =>
    match slot with
    | Some ii => exists e, es !! (ii - lo) = Some e /\ count e = spill
    | None => forall i e, es !! i = Some e -> count e <> spill
    end)).
  { eapply rp_mono; [by apply (Hgen 0)|]. intros [ii|]; [|done]. by rewrite Z.sub_0_r. }
  induction es as [|e es IH]; intros lo Hlo; cbn [find_slot].
  { cbn. intros i e He. by rewrite zlookup_nil in He. }
  destruct (Z.eqb_spec (count e) spill) as [Hc|Hc].
  { cbn. exists e. by rewrite Z.sub_diag, zlookup_cons_0. }
  destruct (valid e) eqn:Hv; cbn [negb];
    [|by destruct Hc; apply (Hok 0 e)].
  eapply rp_mono; [apply (IH (fun j e' Hj => Hok (j + 1) e'
                     ltac:(rewrite zlookup_cons_succ; [done|pose proof (zlookup_lt _ _ _ Hj); lia])) (lo + 1)); lia|].
  intros [ii|]; cbn.
  - intros (e' & Hj & He'). exists e'. split; [|done].
    pose proof (zlookup_lt _ _ _ Hj).
    replace (ii - lo) with (ii - (lo + 1) + 1) by lia. rewrite zlookup_cons_succ by lia. done.
  - intros Hall i e' [(-> & ->)|[Hi Hi']]%zlookup_cons; [done|by eapply Hall].
Qed.
End Tracker_invariant.

(** ** One access *)

Section Access.
Context (numEntries numRows thr : Z).
Context (Hentries : 0 <= numEntries < 2 ^ 32) (Hthr : 0 < thr).

Definition tracker_wf (tr : Tracker) (W : Z) (f : Z -> Z) : Prop :=
  wf numEntries numRows (entries tr) (spill_counter tr) (rowHasEntry tr) W f.

(** [g r] counts the flags raised for row [r] in the window: one for every
    multiple of the threshold its counter has passed. *)
Definition flagged (es : list Tracker_Entry) (rhe : list Z) (g : Z -> Z) : Prop :=
  (forall i e, es !! i = Some e -> valid e = true -> g (addr e) = count e / thr) /\
  forall r, rhe !! r = Some 0 -> g r = 0.

(** [tr'] differs from [tr] at most in [uniq_rows] and the statistics. *)
Definition same_table (tr tr' : Tracker) : Prop :=
  entries tr' = entries tr /\ spill_counter tr' = spill_counter tr /\
  rowHasEntry tr' = rowHasEntry tr.

Lemma note_aggressor_spec r c tr :
  wp (note_aggressor thr r c) tr (fun '(fl, _) tr' =>
    fl = (c mod thr =? 0) /\ same_table tr tr').
Proof.
  unfold note_aggressor. wp_steps. apply rp_umod; [lia|].
  destruct (c mod thr =? 0); wp_steps; done.
Qed.

(** Writing entry [i] for row [r] with counter [c + 1] keeps [flagged], when
    the row's flags so far agree with [c] and no other entry holds it. *)
Lemma flagged_set es rhe rhe' g i r c fl :
  flagged es rhe g -> 0 <= c -> g r = c / thr -> fl = ((c + 1) mod thr =? 0) ->
  (forall j e, es !! j = Some e -> valid e = true -> j <> i -> addr e <> r) ->
  (forall x, rhe' !! x = Some 0 -> x <> r /\
     (rhe !! x = Some 0 \/
      exists e, es !! i = Some e /\ valid e = true /\ addr e = x /\ count e < thr /\ 0 <= count e)) ->
  flagged (<[i := mkEntry true r (c + 1)]> es) rhe' (bump g r (Z.b2z fl)).
Proof.
  intros [Hes Hrhe] Hc Hcr -> Hne Hun. split.
  - intros j e [(<- & -> & _)|[Hij Hj]]%zlookup_insert Hv; cbn [addr count].
    + rewrite bump_eq, div_succ by done. lia.
    + rewrite bump_ne by (by eapply Hne). by eapply Hes.
  - intros x Hx. destruct (Hun x Hx) as [Hxr [H0|(e & Hi & Hv & <- & ? & ?)]].
    + rewrite bump_ne by done. by apply Hrhe.
    + rewrite bump_ne by done. rewrite (Hes i e Hi Hv). by apply Z.div_small.
Qed.

(** The flags the counters have raised so far. *)
Definition raised (es : list Tracker_Entry) : Z := lsum (fun e => count e / thr) es.
Lemma raised_set es i e r fl : es !! i = Some e -> 0 <= count e -> fl = ((count e + 1) mod thr =? 0) ->
  raised (<[i := mkEntry true r (count e + 1)]> es) = raised es + Z.b2z fl.
Proof. intros Hi H0 ->. unfold raised. rewrite (lsum_insert _ _ _ _ _ Hi). cbn [count]. rewrite div_succ by done. lia. Qed.
Lemma raised_bound tr W f : tracker_wf tr W f -> 0 <= raised (entries tr) <= W / thr.
Proof.
  intros H. pose proof (wf_sum _ _ _ _ _ _ _ H) as Hs. pose proof (wf_spill _ _ _ _ _ _ _ H) as Hsp.
  assert (0 <= raised (entries tr) /\ thr * raised (entries tr) <= lsum count (entries tr)) as [Hge Hle].
  { unfold raised. assert (forall i e, entries tr !! i = Some e -> 0 <= count e) as Hc.
    { intros i e Hi. apply (wf_count_bound _ _ _ _ _ _ _ _ _ H Hi). }
    clear -Hc Hthr. induction (entries tr) as [|e es IH]; cbn [lsum]; [lia|].
    pose proof (Hc 0 e (zlookup_cons_0 _ _)) as He. pose proof (Z.mul_div_le (count e) thr Hthr). pose proof (Z.div_pos (count e) thr He Hthr).
    enough (0 <= lsum (fun e => count e / thr) es /\ thr * lsum (fun e => count e / thr) es <= lsum count es) by lia.
    apply IH. intros i e' Hi. apply (Hc (i + 1) e'). rewrite zlookup_cons_succ; [done|pose proof (zlookup_lt _ _ _ Hi); lia]. }
  split; [done|]. apply Z.div_le_lower_bound; lia.
Qed.

Implicit Types (tr : Tracker) (f g : Z -> Z).

Lemma hit_entry_spec tr W f g r v :
  W + 1 < 2 ^ 32 -> tracker_wf tr W f -> rowHasEntry tr !! r = Some v -> v <> 0 ->
  wp (hit_entry thr r (u32 (v - 1)) false) tr (fun '(fl, _) tr' =>
    tracker_wf tr' (W + 1) (bump f r 1) /\ raised (entries tr') = raised (entries tr) + Z.b2z fl /\
    (flagged (entries tr) (rowHasEntry tr) g ->
     flagged (entries tr') (rowHasEntry tr') (bump g r (Z.b2z fl)))).
Proof.
  intros HW H Hv Hnz. destruct (wf_row _ _ _ _ _ _ _ H r v Hv Hnz) as (e & Hi & He & <-).
  pose proof (zlookup_lt _ _ _ Hi) as Hlt. rewrite (wf_entries _ _ _ _ _ _ _ H) in Hlt.
  pose proof (wf_count_bound _ _ _ _ _ _ _ _ _ H Hi) as Hc.
  rewrite u32_small by lia. unfold hit_entry. wp_steps.
  eapply rp_aread; [exact Hi|]. wp_steps. apply wp_assert.
  { by rewrite He, Z.eqb_refl. }
  unfold over. cbn [count]. rewrite He, u32_small by lia. wp_steps.
  apply rp_awrite; [by eapply zlookup_lt|]. wp_steps.
  eapply wp_mono; [apply note_aggressor_spec|].
  intros [fl fresh] tr' [Hfl (Hes & Hsp & Hrhe)]. cbn in Hfl, Hes, Hsp, Hrhe.
  split; [|split].
  - unfold tracker_wf. rewrite Hes, Hsp, Hrhe.
    exact (wf_hit _ _ _ _ _ _ _ _ _ H Hi He).
  - rewrite Hes. apply raised_set; [done|lia|done].
  - intros Hg. rewrite Hes, Hrhe. pose proof (wf_entry _ _ _ _ _ _ _ H _ e Hi He) as Hre.
    eapply flagged_set; [done|lia|by eapply Hg|done| |].
    + intros j e' Hj He' Hne Heq. apply Hne.
      pose proof (wf_entry _ _ _ _ _ _ _ H j e' Hj He'). rewrite Heq in *.
      simplify_eq. lia.
    + intros x Hx. split; [intros ->; simplify_eq; lia|by left].
Qed.

Lemma install_entry_spec tr W f g r ii e :
  W + 1 < 2 ^ 32 -> tracker_wf tr W f -> rowHasEntry tr !! r = Some 0 ->
  entries tr !! ii = Some e -> count e = spill_counter tr ->
  wp (install_entry thr r ii) tr (fun '(fl, _) tr' =>
    tracker_wf tr' (W + 1) (bump f r 1) /\ raised (entries tr') = raised (entries tr) + Z.b2z fl /\
    (flagged (entries tr) (rowHasEntry tr) g -> spill_counter tr < thr ->
     flagged (entries tr') (rowHasEntry tr') (bump g r (Z.b2z fl)))).
Proof.
  intros HW H Hr Hi Hc. pose proof (zlookup_lt _ _ _ Hi) as Hlt.
  pose proof Hlt as Hlt'. rewrite (wf_entries _ _ _ _ _ _ _ H) in Hlt'.
  pose proof (wf_count_bound _ _ _ _ _ _ _ _ _ H Hi).
  unfold install_entry. wp_steps. eapply rp_aread; [exact Hi|]. wp_steps.
  assert (Hun : (if valid e then awrite (rowHasEntry tr) (addr e) 0 else Ok (rowHasEntry tr))
                = Ok (unindex e (rowHasEntry tr))).
  { unfold unindex. destruct (valid e) eqn:He; [|done].
    pose proof (wf_entry _ _ _ _ _ _ _ H _ e Hi He) as He'%zlookup_lt.
    unfold awrite. destruct (Z.leb_spec 0 (addr e)), (Z.ltb_spec (addr e) (zlen (rowHasEntry tr)));
      try lia. done. }
  rewrite Hun. wp_steps. apply rp_awrite; [done|]. wp_steps.
  apply rp_awrite; [rewrite zlen_unindex; by eapply zlookup_lt|]. wp_steps.
  eapply wp_mono; [apply note_aggressor_spec|].
  intros [fl fresh] tr' [Hfl (Hes & Hsp & Hrhe)]. cbn in Hfl, Hes, Hsp, Hrhe.
  rewrite Hc, u32_small in Hfl, Hes by lia. rewrite u32_small in Hrhe by lia. split; [|split].
  - unfold tracker_wf. rewrite Hes, Hsp, Hrhe. by eapply wf_install.
  - rewrite Hes, <- Hc. apply raised_set; [done|lia|by rewrite Hc].
  - intros Hg Hspill. rewrite Hes, Hrhe. pose proof (wf_spill _ _ _ _ _ _ _ H).
    eapply flagged_set; [done|lia|rewrite Z.div_small by lia; by apply Hg|done| |].
    + intros j e' Hj He' Hne <-. pose proof (wf_entry _ _ _ _ _ _ _ H j e' Hj He').
      pose proof (zlookup_lt _ _ _ Hj). simplify_eq. lia.
    + intros x [(<- & Hz & _)|[Hne Hx]]%zlookup_insert; [lia|]. split; [done|].
      apply unindex_lookup in Hx as [(_ & Hv & ->)|[Hx _]]; [right|by left].
      exists e. repeat split; try done; lia.
Qed.

(** A counted access never faults, keeps the tracker well formed, and
    raises the flags the counters call for. *)
Lemma access_tracker_spec tr W f g r :
  W + 1 < 2 ^ 32 -> tracker_wf tr W f -> 0 <= r < numRows ->
  wp (access_tracker thr r false) tr (fun '(fl, _) tr' =>
    tracker_wf tr' (W + 1) (bump f r 1) /\ raised (entries tr') = raised (entries tr) + Z.b2z fl /\
    (flagged (entries tr) (rowHasEntry tr) g -> W < thr * (numEntries + 1) ->
     flagged (entries tr') (rowHasEntry tr') (bump g r (Z.b2z fl)))).
Proof.
  intros HW H Hr. pose proof (wf_spill_bound _ _ _ _ _ _ _ H) as Hsb.
  pose proof (wf_spill _ _ _ _ _ _ _ H). cbn in Hsb.
  unfold access_tracker. cbn [negb]. unfold over.
  apply wp_bind, wp_when; [intros _|done]. wp_steps.
  destruct (zlookup_is_Some (rowHasEntry tr) r) as [v Hv].
  { by rewrite (wf_rows _ _ _ _ _ _ _ H). }
  eapply rp_aread; [exact Hv|]. wp_steps.
  eapply (wp_mono _ _ (fun '(fl, _) tr' => tracker_wf tr' (W + 1) (bump f r 1) /\ raised (entries tr') = raised (entries tr) + Z.b2z fl /\
    (flagged (entries tr) (rowHasEntry tr) g -> W < thr * (numEntries + 1) ->
     flagged (entries tr') (rowHasEntry tr') (bump g r (Z.b2z fl))))); last first.
  { intros [fl fresh] tr' Hpost. wp_cases; exact Hpost. }
  destruct (Z.eqb_spec v 0) as [->|Hnz]; cbn [negb].
  - wp_steps. eapply rp_mono; [by apply (find_slot_spec _ _ _ _ _ _ _ H)|].
    intros [ii|].
    + intros (e & Hi & Hc). eapply wp_mono; [by eapply install_entry_spec|].
      intros [fl fresh] tr' (Hwf & Hra & Hg). split; [done|]. split; [exact Hra|]. intros Hfl HWb. apply Hg; [done|cbn; nia].
    + intros Hall. wp_steps. split; [|split; [change (raised (entries tr) = raised (entries tr) + 0); lia|]].
      * unfold tracker_wf. cbn in *. rewrite u32_small by nia. by eapply wf_miss.
      * intros [Hg Hg0] _. cbn [Z.b2z]. split; cbn.
        -- intros i e Hi He. unfold bump. rewrite Z.add_0_r.
           destruct (addr e =? r); by eapply Hg.
        -- intros x Hx. unfold bump. rewrite Z.add_0_r. destruct (x =? r); by apply Hg0.
  - eapply wp_mono; [by eapply hit_entry_spec|].
    intros [fl fresh] tr' (Hwf & Hra & Hg). split; [done|]. split; [exact Hra|]. intros Hfl _. by apply Hg.
Qed.

(** A functional lookup tells whether the row is tracked and changes nothing. *)
Lemma access_tracker_lookup tr W f r v :
  tracker_wf tr W f -> rowHasEntry tr !! r = Some v ->
  access_tracker thr r true tr = Ok ((negb (v =? 0), false), tr).
Proof.
  intros H Hv. unfold access_tracker, when_. cbn [negb].
  unfold mbind, comp_bind, mret, comp_ret, gets, lift, aread. rewrite Hv.
  destruct (Z.eqb_spec v 0) as [->|Hnz]; cbn [negb]; [by rewrite andb_false_r|].
  destruct (wf_row _ _ _ _ _ _ _ H r v Hv Hnz) as (e & Hi & He & <-).
  pose proof (zlookup_lt _ _ _ Hi) as Hlt. rewrite (wf_entries _ _ _ _ _ _ _ H) in Hlt.
  unfold hit_entry, assert_. unfold mbind, comp_bind, mret, comp_ret, gets, lift, aread.
  rewrite u32_small, Hi, He, Z.eqb_refl by lia. done.
Qed.
End Access.

(** ** A refresh window of accesses *)

(** One row activation: the row and the bank it is in. *)
Abbreviation event := (Z * bank)%type.

Fixpoint run (evs : list event) : comp t (list bool) :=
  match evs with
  | [] => mret []
  | (r, (ch, rk, bk)) :: evs' =>
      fl ← access r bk rk ch false;
      fls ← run evs';
      mret (fl :: fls)
  end.

(** Activations of row [r] of bank [k], and of the whole bank, in a trace. *)
Definition is_row (r : Z) (k : bank) (e : event) : bool := bool_decide (e = (r, k)).
Definition occ (r : Z) (k : bank) (evs : list event) : Z :=
  lsum (fun e => Z.b2z (is_row r k e)) evs.
Definition load (k : bank) (evs : list event) : Z :=
  lsum (fun e => Z.b2z (bool_decide (snd e = k))) evs.
(** Flags raised for the row, given the flag of each event. *)
Fixpoint flags (r : Z) (k : bank) (evs : list event) (fls : list bool) : Z :=
  match evs, fls with
  | e :: evs', fl :: fls' => Z.b2z (is_row r k e && fl) + flags r k evs' fls'
  | _, _ => 0
  end.

Section Window.
Context (n rows thr : Z) (Hn : 0 <= n < 2 ^ 32) (Hthr : 0 < thr).

(** The detector after [W k] accesses to each bank [k], [f k r] of them to
    row [r], which was flagged [g k r] times. *)
Record window (d : t) (W : bank -> Z) (f g : bank -> Z -> Z) : Prop := {
  win_n : numEntries d = n;
  win_thr : threshold d = thr;
  win_wf : forall k tr, trackers d !! k = Some tr -> tracker_wf n rows tr (W k) (f k);
  win_flags : forall k tr, trackers d !! k = Some tr ->
                flagged thr (entries tr) (rowHasEntry tr) (g k) }.

Definition upd_bank {A} (h : bank -> A) (k : bank) (v : A) : bank -> A :=
  fun k' => if bool_decide (k' = k) then v else h k'.

Lemma access_window d W f g r ch rk bk :
  window d W f g -> (ch, rk, bk) ∈ dom (trackers d) -> 0 <= r < rows ->
  W (ch, rk, bk) + 1 < 2 ^ 32 -> W (ch, rk, bk) < thr * (n + 1) ->
  wp (access r bk rk ch false) d (fun fl d' =>
    let k := (ch, rk, bk) in
    dom (trackers d') = dom (trackers d) /\
    window d' (upd_bank W k (W k + 1)) (upd_bank f k (bump (f k) r 1))
              (upd_bank g k (bump (g k) r (Z.b2z fl)))).
Proof.
  intros H [tr Htr]%elem_of_dom Hr H32 HW. unfold access. wp_step. wp_step.
  rewrite Htr. wp_step. wp_step. rewrite (win_thr _ _ _ _ H).
  pose proof (access_tracker_spec n rows thr Hn Hthr tr _ _ (g (ch, rk, bk)) r H32
                (win_wf _ _ _ _ H _ _ Htr) Hr) as Ha.
  apply wp_inv in Ha as ([fl fresh] & tr' & -> & Hwf & _ & Hfl). cbn.
  specialize (Hfl (win_flags _ _ _ _ H _ _ Htr) HW).
  unfold over. wp_cases; cbn.
  all: split; [rewrite dom_insert_lookup_L; [done|by eexists]|].
  all: split; cbn; try apply H; unfold upd_bank.
  all: intros k tr0 Hk; case_bool_decide as Hkk; subst.
  all: rewrite ?lookup_insert_eq, ?lookup_insert_ne in Hk by done; simplify_eq; try done.
  all: try by eapply win_wf. all: by eapply win_flags.
Qed.

(** An access touches the tracker of its bank only, and counts a flag it raises. *)
Lemma access_raised d W f g r ch rk bk : let k := (ch, rk, bk) in
  window d W f g -> k ∈ dom (trackers d) -> 0 <= r < rows -> W k + 1 < 2 ^ 32 ->
  wp (access r bk rk ch false) d (fun fl d' => exists tr tr', trackers d !! k = Some tr /\
    trackers d' = <[k := tr']> (trackers d) /\ raised thr (entries tr') = raised thr (entries tr) + Z.b2z fl /\
    numEntries d' = numEntries d /\ numRows d' = numRows d).
Proof.
  intros k H [tr Htr]%elem_of_dom Hr H32. unfold access. fold k. wp_step. wp_step.
  rewrite Htr. wp_step. wp_step. rewrite (win_thr _ _ _ _ H).
  pose proof (access_tracker_spec n rows thr Hn Hthr tr _ _ (g k) r H32 (win_wf _ _ _ _ H _ _ Htr) Hr) as Ha.
  apply wp_inv in Ha as ([fl fresh] & tr' & -> & _ & Hra & _). cbn. unfold over.
  wp_cases; cbn; by exists tr, tr'.
Qed.

Lemma occ_nonneg r k evs : 0 <= occ r k evs.
Proof. unfold occ. induction evs as [|e evs IH]; cbn; [lia|]. destruct (is_row r k e); cbn; lia. Qed.
Lemma load_nonneg k evs : 0 <= load k evs.
Proof. unfold load. induction evs as [|e evs IH]; cbn; [lia|]. case_bool_decide; cbn; lia. Qed.

Definition in_range (d : t) (e : event) : Prop :=
  0 <= fst e < rows /\ snd e ∈ dom (trackers d).

Lemma run_window evs : forall d W f g,
  window d W f g -> Forall (in_range d) evs ->
  (forall k, W k + load k evs < 2 ^ 32) ->
  (forall k, W k + load k evs <= thr * (n + 1)) ->
  wp (run evs) d (fun fls d' => length fls = length evs /\
    dom (trackers d') = dom (trackers d) /\ exists W' f' g', window d' W' f' g' /\
      (forall k, W' k = W k + load k evs) /\
      (forall k r, f' k r = f k r + occ r k evs) /\
      (forall k r, g' k r = g k r + flags r k evs fls)).
Proof.
  induction evs as [|[r [[ch rk] bk]] evs IH]; intros d W f g Hwin Hall H32 HW.
  { cbn. apply wp_ret. split_and!; try done. exists W, f, g. cbn.
    split_and!; intros; rewrite ?Z.add_0_r; done. }
  pose proof (Forall_inv Hall) as [Hr Hk]. apply Forall_inv_tail in Hall. cbn in Hr, Hk.
  set (k0 := (ch, rk, bk)) in *. pose proof (load_nonneg k0 evs).
  assert (Hload : load k0 ((r, k0) :: evs) = 1 + load k0 evs).
  { unfold load. cbn. by rewrite bool_decide_true. }
  pose proof (H32 k0) as H32'. pose proof (HW k0) as HW'.
  rewrite Hload in H32', HW'.
  cbn [run]. apply wp_bind.
  eapply wp_mono; [eapply (access_window d W f g r ch rk bk); fold k0; try done; lia|].
  fold k0. intros fl d1 [Hdom Hwin1]. wp_steps.
  eapply wp_mono; [apply (IH _ _ _ _ Hwin1)|].
  - eapply Forall_impl; [|exact Hall]. intros e [? ?]. split; [done|by rewrite Hdom].
  - intros k. pose proof (H32 k). unfold upd_bank. unfold load in *. cbn in *.
    case_bool_decide as Hkk; [subst k; rewrite bool_decide_true in * by done; cbn in *; lia|].
    rewrite bool_decide_false in * by (cbn; congruence). cbn in *. lia.
  - intros k. pose proof (HW k). unfold upd_bank. unfold load in *. cbn in *.
    case_bool_decide as Hkk; [subst k; rewrite bool_decide_true in * by done; cbn in *; lia|].
    rewrite bool_decide_false in * by (cbn; congruence). cbn in *. lia.
  - intros fls d' (Hlen & Hdom' & W' & f' & g' & Hwin' & HW'' & Hf' & Hg'). wp_steps.
    split_and!; [cbn; lia|congruence|]. exists W', f', g'. split; [done|].
    split_and!; intros k; [|intros x..].
    + rewrite HW''. unfold upd_bank, load. cbn.
      case_bool_decide as Hkk; [subst k; rewrite bool_decide_true by done; cbn; lia|].
      rewrite bool_decide_false by (cbn; congruence). cbn. lia.
    + rewrite Hf'. unfold upd_bank, occ, is_row, bump. cbn.
      case_bool_decide as Hkk; [subst k|rewrite bool_decide_false by (cbn; congruence); cbn; lia].
      destruct (Z.eqb_spec x r) as [->|Hne];
        [rewrite bool_decide_true by done|rewrite bool_decide_false by (cbn; congruence)]; cbn; lia.
    + rewrite Hg'. unfold upd_bank, is_row, bump. cbn [flags]. unfold is_row.
      case_bool_decide as Hkk; [subst k|rewrite bool_decide_false by (cbn; congruence); cbn; lia].
      destruct (Z.eqb_spec x r) as [->|Hne];
        [rewrite bool_decide_true by done|rewrite bool_decide_false by (cbn; congruence)];
        destruct fl; cbn; lia.
Qed.

(** Reading the final window off: the flags of a row lie between its true
    activation count over the threshold and the tracker's estimate of it. *)
Lemma window_flags d W f g r k tr :
  window d W f g -> trackers d !! k = Some tr -> 0 <= r < rows -> W k < thr * (n + 1) ->
  f k r / thr <= g k r <= (f k r + W k / (n + 1)) / thr.
Proof.
  intros H Hk Hr HW. pose proof (win_wf _ _ _ _ H k tr Hk) as Hwf.
  destruct (win_flags _ _ _ _ H k tr Hk) as [Hfl Hfl0].
  pose proof (wf_spill_bound _ _ _ _ _ _ _ Hwf). pose proof (wf_spill _ _ _ _ _ _ _ Hwf).
  assert (Hs : spill_counter tr <= W k / (n + 1)) by (apply Z.div_le_lower_bound; lia).
  destruct (zlookup_is_Some (rowHasEntry tr) r) as [v Hv].
  { by rewrite (wf_rows _ _ _ _ _ _ _ Hwf). }
  destruct (decide (v = 0)) as [->|Hnz].
  - pose proof (wf_untracked _ _ _ _ _ _ _ Hwf r Hv). rewrite (Hfl0 r Hv).
    rewrite Z.div_small by nia. split; [lia|]. apply Z.div_pos; lia.
  - destruct (wf_row _ _ _ _ _ _ _ Hwf r v Hv Hnz) as (e & Hi & He & <-).
    pose proof (wf_tracked _ _ _ _ _ _ _ Hwf _ e Hi He). rewrite (Hfl _ e Hi He).
    split; apply Z.div_le_mono; lia.
Qed.
End Window.

(** A refresh of the detector opens a window. *)
Lemma reset_window (d : t) :
  0 <= numEntries d -> 0 <= numRows d -> 0 < threshold d ->
  window (numEntries d) (numRows d) (threshold d) (reset d)
    (fun _ => 0) (fun _ _ => 0) (fun _ _ => 0).
Proof.
  intros Hn Hr Ht. split; [done|done| |].
  - intros k tr. unfold reset, over. cbn. rewrite lookup_fmap.
    destruct (trackers d !! k); [|done]. intros [= <-]. by apply wf_fresh.
  - intros k tr. unfold reset, over. cbn. rewrite lookup_fmap.
    destruct (trackers d !! k); [|done]. intros [= <-]. split; cbn; [|done].
    intros i e [-> _]%zlookup_calloc. done.
Qed.

(** ** Properties *)

(** C2. Detection guarantee.  In a window that opens with [reset] and holds
    fewer than [threshold * (numEntries + 1)] activations of each bank, no
    access faults, and every row is flagged as an aggressor at least once per
    [threshold] of its activations; it is flagged at most as often as its
    activations plus the bank's spill bound allow. *)
Theorem detection_guarantee (d : t) (evs : list event) :
  0 <= numEntries d < 2 ^ 32 -> 0 <= numRows d -> 0 < threshold d ->
  Forall (in_range (numRows d) d) evs ->
  (forall k, load k evs < 2 ^ 32) ->
  (forall k, load k evs < threshold d * (numEntries d + 1)) ->
  exists fls d', run evs (reset d) = Ok (fls, d') /\ length fls = length evs /\
    forall r k, 0 <= r < numRows d -> k ∈ dom (trackers d) ->
      occ r k evs / threshold d <= flags r k evs fls
        <= (occ r k evs + load k evs / (numEntries d + 1)) / threshold d.
Proof.
  intros Hn Hr Ht Hall H32 HW.
  assert (Hdom : dom (trackers (reset d)) = dom (trackers d)).
  { unfold reset, over. cbn. by rewrite dom_fmap_L. }
  pose proof (reset_window d ltac:(lia) Hr Ht) as Hwin.
  pose proof (run_window _ _ _ Hn Ht evs _ _ _ _ Hwin) as Hrun.
  unshelve epose proof (Hrun _ _ _) as Hw.
  { eapply Forall_impl; [|exact Hall]. intros e [? ?]. split; [done|by rewrite Hdom]. }
  { intros k. cbn. apply H32. }
  { intros k. cbn. pose proof (HW k). lia. }
  apply wp_inv in Hw as (fls & d' & Hok & Hlen & Hdom' & W' & f' & g' & Hwin' & HW' & Hf' & Hg').
  exists fls, d'. split_and!; [done|done|]. intros r k Hrr Hk.
  rewrite <- Hdom, <- Hdom' in Hk. apply elem_of_dom in Hk as [tr Htr].
  pose proof (window_flags _ _ _ Hn Ht _ _ _ _ r k tr Hwin' Htr Hrr) as Hfl.
  rewrite HW', Hf', Hg' in Hfl. cbn in Hfl. apply Hfl. apply HW.
Qed.

Lemma load_le_length k evs : load k evs <= zlen evs.
Proof.
  unfold load, zlen. induction evs as [|e evs IH]; cbn [lsum length]; [lia|].
  case_bool_decide; cbn [Z.b2z]; lia.
Qed.

(** Two banks, one counter each, threshold 2. *)
Definition det0 : t :=
  create (fun _ => mkTracker [] 0 ∅ [] 0 0 0 0 0) 1 2 4 2 1 1.
Definition evs0 : list event := [(1, (0, 0, 0)); (3, (0, 0, 0)); (1, (0, 0, 0))].

Lemma detection_guarantee_witness :
  exists fls d', run evs0 (reset det0) = Ok (fls, d') /\ length fls = length evs0 /\
    forall r k, 0 <= r < 4 -> k ∈ dom (trackers det0) ->
      occ r k evs0 / 2 <= flags r k evs0 fls <= (occ r k evs0 + load k evs0 / (1 + 1)) / 2.
Proof.
  apply (detection_guarantee det0 evs0).
  - vm_compute. split; congruence.
  - vm_compute. congruence.
  - reflexivity.
  - repeat constructor; cbn; try lia; apply elem_of_dom; vm_compute; eexists; reflexivity.
  - intros k. pose proof (load_le_length k evs0). change (zlen evs0) with 3 in *. lia.
  - intros k. pose proof (load_le_length k evs0). change (zlen evs0) with 3 in *.
    change (threshold det0 * (numEntries det0 + 1)) with 4. lia.
Defined.
End Misra_Gries.
