(* ===== verification/FuncCache.v ===== *)
(** The set-associative functional cache of [mem/rowhammer_mitigation.cc]
    (class [Functional_Cache]) that holds recently used entries of the
    {Row->QR} table: operations, invariant, and the abstract content. *)
From S2P Require Import Prelude.

Module Functional_Cache.

(** ** State *)

Record FuncCacheBlock := mkBlock {
  tag : Z;
  valid : bool;
  dirty : bool;
  onlyOneRowRemapped : bool;
  rrip : Z }.
#[global] Instance eta_FuncCacheBlock : Settable FuncCacheBlock := fun r =>
  mkBlock (tag r) (valid r) (dirty r) (onlyOneRowRemapped r) (rrip r).
Definition zero_block : FuncCacheBlock := mkBlock 0 false false false 0.

Inductive LOOKUP_TYPE := ONLY_LOOKUP | LOOKUP_AND_UPDATE.

Record t := mkCache {
  m_blk_offset : Z;
  m_cache : list (list FuncCacheBlock);
  s_lookups : Z;
  s_hits : Z;
  s_fills : Z;
  s_invalidations : Z;
  s_evictions : Z;
  m_sets : Z;
  m_ways : Z;
  partial_lookup_factor : Z }.
#[global] Instance eta_t : Settable t := fun r =>
  mkCache (m_blk_offset r) (m_cache r) (s_lookups r) (s_hits r) (s_fills r)
    (s_invalidations r) (s_evictions r) (m_sets r) (m_ways r) (partial_lookup_factor r).

(** ** Operations *)

(** The constructor leaves [partial_lookup_factor] unset; its owner assigns
    it right after ([factor]). *)
Definition create (sets ways factor : Z) : t :=
  mkCache 5 (calloc sets (calloc ways zero_block)) 0 0 0 0 0 sets ways factor.

(** [uint32_t set = (addr >> m_blk_offset) % m_sets;] *)
Definition set_of (c : t) (a : Z) : result Z :=
  s ← umod (Z.shiftr a (m_blk_offset c)) (m_sets c); mret (u32 s).

(** [m_cache[set]], [m_cache[set][way]] and its update. *)
Definition read_set (a : Z) : comp t (list FuncCacheBlock) :=
  c ← get; s ← lift (set_of c a); lift (aread (m_cache c) s).
Definition write_set (a : Z) (ws : list FuncCacheBlock) : comp t unit :=
  c ← get; s ← lift (set_of c a);
  m ← lift (awrite (m_cache c) s ws); modify (fun c => c <| m_cache := m |>).
Definition read_block (a way : Z) : comp t FuncCacheBlock :=
  ws ← read_set a; lift (aread ws way).
Definition write_block (a way : Z) (b : FuncCacheBlock) : comp t unit :=
  ws ← read_set a; ws' ← lift (awrite ws way b); write_set a ws'.

Definition tag_match (a : Z) (b : FuncCacheBlock) : bool := valid b && (tag b =? a).

Definition Lookup (a : Z) (lookup_type : LOOKUP_TYPE) : comp t Z :=
  ways ← gets m_ways;
  ws ← read_set a;
  let hit := first_index (tag_match a) ws 0 in
  match lookup_type with
  | ONLY_LOOKUP => mret tt
  | LOOKUP_AND_UPDATE =>
      modify (fun c => c <| s_lookups ::= fun n => u64 (n + 1) |>);;
      match hit with
      | Some way =>
          modify (fun c => c <| s_hits ::= fun n => u64 (n + 1) |>);;
          b ← read_block a way;
          write_block a way (b <| rrip := 3 |>)
      | None => mret tt
      end
  end;;
  mret (default ways hit).

(** [partial_lookup_factor] divides an address into its line of rows. *)
Definition line_match (factor a : Z) (b : FuncCacheBlock) : bool :=
  valid b && (tag b / factor =? a / factor).

Definition PartialLookup (a : Z) : comp t Z :=
  factor ← gets partial_lookup_factor;
  ways ← gets m_ways;
  _ ← lift (udiv a factor);
  ws ← read_set a;
  match first_index (line_match factor a) ws 0 with
  | Some way =>
      b ← read_block a way;
      write_block a way (b <| rrip := 3 |>);;
      mret way
  | None => mret ways
  end.

Definition Fill (a blk_way : Z) : comp t unit :=
  b ← read_block a blk_way;
  assert_ (negb (valid b));;
  write_block a blk_way (mkBlock a true false true 1);;
  modify (fun c => c <| s_fills ::= fun n => u64 (n + 1) |>).

Definition Invalidate (a blk_way : Z) : comp t unit :=
  b ← read_block a blk_way;
  if negb (valid b) then mret tt
  else
    write_block a blk_way (mkBlock 0 false false false 0);;
    modify (fun c => c <| s_invalidations ::= fun n => u64 (n + 1) |>).

(** The [while (loop_count)] search for a block with [rrip == 0], ageing the
    whole set between two rounds. *)
Fixpoint rrip_victim (loop_count : nat) (ws : list FuncCacheBlock)
    : option Z * list FuncCacheBlock :=
  match loop_count with
  | O => (None, ws)
  | S loop_count' =>
      match first_index (fun b => rrip b =? 0) ws 0 with
      | Some way => (Some way, ws)
      | None => rrip_victim loop_count'
                  ((fun b => b <| rrip ::= fun r => u32 (r - 1) |>) <$> ws)
      end
  end.

Definition Find_Victim (a : Z) : comp t Z :=
  ws ← read_set a;
  match first_index (fun b => negb (valid b)) ws 0 with
  | Some way => mret way
  | None =>
      modify (fun c => c <| s_evictions ::= fun n => u64 (n + 1) |>);;
      let '(victim, ws') := rrip_victim 4 ws in
      write_set a ws';;
      match victim with
      | Some way => mret way
      | None => lift (Fault AssertFail)
      end
  end.

Definition Is_Block_Valid (a blk_way : Z) : comp t bool :=
  b ← read_block a blk_way; mret (valid b).

Definition Get_Block_Addr (a blk_way : Z) : comp t Z :=
  b ← read_block a blk_way; assert_ (valid b);; mret (tag b).

Definition Get_Block_Way (a : Z) : comp t Z :=
  ws ← read_set a;
  match first_index (tag_match a) ws 0 with
  | Some way => mret way
  | None => lift (Fault AssertFail)
  end.

Definition SetORRBit (a : Z) (bitvalue : bool) : comp t unit :=
  factor ← gets partial_lookup_factor;
  _ ← lift (udiv a factor);
  ws ← read_set a;
  write_set a ((fun b => if line_match factor a b
                         then b <| onlyOneRowRemapped := bitvalue |> else b) <$> ws).

Definition QueryORRBit (a blk_way : Z) : comp t bool :=
  b ← read_block a blk_way; assert_ (valid b);; mret (onlyOneRowRemapped b).

Definition SetDirtyBit (a blk_way : Z) : comp t unit :=
  b ← read_block a blk_way; assert_ (valid b);; write_block a blk_way (b <| dirty := true |>).

Definition QueryDirtyBit (a blk_way : Z) : comp t bool :=
  b ← read_block a blk_way; assert_ (valid b);; mret (dirty b).

(** ** Content and invariant *)

Implicit Types (m : list (list FuncCacheBlock)) (ws : list FuncCacheBlock)
  (b : FuncCacheBlock) (s w : Z).

(** The block at a set and a way. *)
Definition slot m s w : option FuncCacheBlock := m !! s ≫= fun ws => ws !! w.

(** The content of a block that lookups may not change. *)
Definition key b : Z * bool * bool * bool := (tag b, valid b, dirty b, onlyOneRowRemapped b).
Definition same_content m m' : Prop := forall s w, key <$> slot m s w = key <$> slot m' s w.

(** [a] is cached, with its dirty bit. *)
Definition cached m (a : Z) (d : bool) : Prop :=
  exists s w b, slot m s w = Some b /\ valid b = true /\ tag b = a /\ dirty b = d.

Definition set_index (off sets a : Z) : Z := Z.shiftr a off mod sets.

Record wf_cache (off sets ways : Z) m : Prop := {
  wf_sets : 0 < sets < 2 ^ 32;
  wf_ways : 0 < ways < 2 ^ 32;
  wf_len : zlen m = sets;
  wf_row : forall s ws, m !! s = Some ws -> zlen ws = ways;
  wf_rrip : forall s w b, slot m s w = Some b -> 0 <= rrip b <= 3;
  wf_place : forall s w b, slot m s w = Some b -> valid b = true ->
               s = set_index off sets (tag b);
  wf_uniq : forall s w w' b b', slot m s w = Some b -> slot m s w' = Some b' ->
              valid b = true -> valid b' = true -> tag b = tag b' -> w = w' }.

Definition wf (c : t) : Prop := wf_cache (m_blk_offset c) (m_sets c) (m_ways c) (m_cache c).
Definition index (c : t) (a : Z) : Z := set_index (m_blk_offset c) (m_sets c) a.
Definition same_dims (c c' : t) : Prop :=
  m_blk_offset c' = m_blk_offset c /\ m_sets c' = m_sets c /\ m_ways c' = m_ways c /\
  partial_lookup_factor c' = partial_lookup_factor c.

Lemma slot_lt off sets ways m s w b :
  wf_cache off sets ways m -> slot m s w = Some b -> 0 <= s < sets /\ 0 <= w < ways.
Proof.
  intros H Hs. unfold slot in Hs. destruct (m !! s) as [ws|] eqn:Hm; [|done]. cbn in Hs.
  pose proof (zlookup_lt _ _ _ Hm). pose proof (zlookup_lt _ _ _ Hs).
  rewrite (wf_len _ _ _ _ H), (wf_row _ _ _ _ H _ _ Hm) in *. lia.
Qed.

Lemma slot_is_Some off sets ways m s w :
  wf_cache off sets ways m -> 0 <= s < sets -> 0 <= w < ways -> exists b, slot m s w = Some b.
Proof.
  intros H Hs Hw. rewrite <- (wf_len _ _ _ _ H) in Hs. apply zlookup_is_Some in Hs as [ws Hm].
  rewrite <- (wf_row _ _ _ _ H _ _ Hm) in Hw. apply zlookup_is_Some in Hw as [b Hb].
  exists b. unfold slot. by rewrite Hm.
Qed.

Lemma index_range (c : t) a : wf c -> 0 <= index c a < m_sets c.
Proof. intros H. apply Z.mod_pos_bound. apply H. Qed.

(** A fresh cache is well formed and empty. *)
Lemma wf_create sets ways factor :
  0 < sets < 2 ^ 32 -> 0 < ways < 2 ^ 32 -> wf (create sets ways factor).
Proof.
  intros Hs Hw.
  assert (Hz : forall s w b, slot (calloc sets (calloc ways zero_block)) s w = Some b ->
            b = zero_block).
  { intros s w b. unfold slot. destruct (_ !! s) as [ws|] eqn:Hm; [|done].
    apply zlookup_calloc in Hm as [-> _]. cbn. by intros [-> _]%zlookup_calloc. }
  split; cbn; try done.
  - apply zlen_calloc. lia.
  - intros s ws [-> _]%zlookup_calloc. apply zlen_calloc. lia.
  - by intros s w b ->%Hz.
  - by intros s w b ->%Hz.
  - by intros s w w' b b' ->%Hz.
Qed.

(** *** Updating one slot *)

Definition put_slot m s w b : list (list FuncCacheBlock) :=
  match m !! s with Some ws => <[s := <[w := b]> ws]> m | None => m end.

Lemma slot_put_eq m s w b0 b : slot m s w = Some b0 -> slot (put_slot m s w b) s w = Some b.
Proof.
  unfold slot, put_slot. destruct (m !! s) as [ws|] eqn:Hm; [|done]. cbn. intros Hw.
  rewrite zlookup_insert_eq by (by eapply zlookup_lt). cbn.
  by rewrite zlookup_insert_eq by (by eapply zlookup_lt).
Qed.
Lemma slot_put_ne m s w b s' w' :
  (s', w') <> (s, w) -> slot (put_slot m s w b) s' w' = slot m s' w'.
Proof.
  intros Hne. unfold slot, put_slot. destruct (m !! s) as [ws|] eqn:Hm; [|done].
  destruct (decide (s' = s)) as [->|Hs].
  - rewrite zlookup_insert_eq by (by eapply zlookup_lt). cbn. rewrite Hm. cbn.
    apply zlookup_insert_ne. congruence.
  - by rewrite zlookup_insert_ne.
Qed.
Lemma slot_put m s w b0 b s' w' b' :
  slot m s w = Some b0 -> slot (put_slot m s w b) s' w' = Some b' ->
  (s' = s /\ w' = w /\ b' = b) \/ ((s', w') <> (s, w) /\ slot m s' w' = Some b').
Proof.
  intros H0 H. destruct (decide ((s', w') = (s, w))) as [[= -> ->]|Hne].
  - left. rewrite (slot_put_eq _ _ _ _ _ H0) in H. by simplify_eq.
  - right. by rewrite slot_put_ne in H.
Qed.

Lemma wf_put off sets ways m s w b0 b :
  wf_cache off sets ways m -> slot m s w = Some b0 -> 0 <= rrip b <= 3 ->
  (valid b = true -> s = set_index off sets (tag b) /\
     forall w' b', slot m s w' = Some b' -> valid b' = true -> tag b' = tag b -> w' = w) ->
  wf_cache off sets ways (put_slot m s w b).
Proof.
  intros H H0 Hr Hv. split; try apply H.
  - unfold put_slot. destruct (m !! s); rewrite ?zlen_insert; apply H.
  - intros s' ws'. unfold put_slot. destruct (m !! s) as [ws|] eqn:Hm; [|apply H].
    intros [(<- & -> & _)|[_ Hs']]%zlookup_insert; [rewrite zlen_insert|]; by eapply wf_row.
  - intros s' w' b' [(-> & -> & ->)|[_ Hs]]%(slot_put _ _ _ _ _ _ _ _ H0); [done|].
    by eapply wf_rrip.
  - intros s' w' b' [(-> & -> & ->)|[_ Hs]]%(slot_put _ _ _ _ _ _ _ _ H0) Hb; [by apply Hv|].
    by eapply wf_place.
  - intros s' w1 w2 b1 b2 H1 H2 V1 V2 Heq.
    apply (slot_put _ _ _ _ _ _ _ _ H0) in H1 as [(-> & -> & ->)|[N1 H1]];
      apply (slot_put _ _ _ _ _ _ _ _ H0) in H2 as [(Hs & -> & ->)|[N2 H2]]; try done.
    + symmetry. eapply Hv; eauto.
    + subst s'. eapply Hv; eauto.
    + by eapply (wf_uniq _ _ _ _ H s').
Qed.

(** *** The access primitives *)

Implicit Types c : t.

Lemma set_of_ok c a : wf c -> set_of c a = Ok (index c a).
Proof.
  intros H. pose proof (wf_sets _ _ _ _ H). pose proof (index_range c a H) as Hi.
  unfold set_of, umod. destruct (Z.eqb_spec (m_sets c) 0); [lia|].
  unfold mbind, result_bind, mret, result_ret. f_equal. apply u32_small.
  unfold index, set_index in *. lia.
Qed.

Lemma read_set_spec c a Q :
  wf c -> (forall ws, m_cache c !! index c a = Some ws -> zlen ws = m_ways c -> Q ws c) ->
  wp (read_set a) c Q.
Proof.
  intros H HQ. unfold read_set. wp_steps. rewrite set_of_ok by done. wp_steps.
  destruct (zlookup_is_Some (m_cache c) (index c a)) as [ws Hws].
  { rewrite (wf_len _ _ _ _ H). by apply index_range. }
  eapply rp_aread; [exact Hws|]. apply HQ; [done|]. by eapply wf_row.
Qed.

Lemma write_set_spec c a ws Q :
  wf c -> Q tt (c <| m_cache := <[index c a := ws]> (m_cache c) |>) -> wp (write_set a ws) c Q.
Proof.
  intros H HQ. unfold write_set. wp_steps. rewrite set_of_ok by done. wp_steps.
  apply rp_awrite; [rewrite (wf_len _ _ _ _ H); by apply index_range|]. by wp_steps.
Qed.

Lemma read_block_spec c a w b Q :
  wf c -> slot (m_cache c) (index c a) w = Some b -> Q b c -> wp (read_block a w) c Q.
Proof.
  intros H Hb HQ. unfold read_block. wp_steps. apply read_set_spec; [done|].
  intros ws Hws _. unfold slot in Hb. rewrite Hws in Hb. wp_steps. by eapply rp_aread.
Qed.

Lemma write_block_spec c a w b0 b Q :
  wf c -> slot (m_cache c) (index c a) w = Some b0 ->
  Q tt (c <| m_cache := put_slot (m_cache c) (index c a) w b |>) ->
  wp (write_block a w b) c Q.
Proof.
  intros H Hb HQ. unfold write_block. wp_steps. apply read_set_spec; [done|].
  intros ws Hws _. unfold slot in Hb. rewrite Hws in Hb. wp_steps.
  apply rp_awrite; [by eapply zlookup_lt|]. wp_steps. apply write_set_spec; [done|].
  unfold put_slot in HQ. by rewrite Hws in HQ.
Qed.

(** *** Lookups *)

Lemma same_content_refl m : same_content m m.
Proof. by intros s w. Qed.

Lemma same_dims_trans c1 c2 c3 : same_dims c1 c2 -> same_dims c2 c3 -> same_dims c1 c3.
Proof. unfold same_dims. intros (-> & -> & -> & ->) (-> & -> & -> & ->). done. Qed.
Lemma same_dims_refl c : same_dims c c.
Proof. done. Qed.
#[local] Hint Resolve same_content_refl same_dims_refl : core.

Lemma same_content_put m s w b0 b :
  slot m s w = Some b0 -> key b = key b0 -> same_content m (put_slot m s w b).
Proof.
  intros H0 Hk s' w'. destruct (decide ((s', w') = (s, w))) as [[= -> ->]|Hne].
  - rewrite (slot_put_eq _ _ _ _ _ H0), H0. cbn. by rewrite Hk.
  - by rewrite slot_put_ne.
Qed.

Lemma same_content_slot m m' s w b' :
  same_content m m' -> slot m' s w = Some b' -> exists b, slot m s w = Some b /\ key b = key b'.
Proof.
  intros H Hb. specialize (H s w). rewrite Hb in H. cbn in H.
  destruct (slot m s w) as [b|]; [|done]. exists b. split; [done|]. exact (inj Some _ _ H).
Qed.

Lemma cached_same_content m m' a d : same_content m m' -> cached m' a d -> cached m a d.
Proof.
  intros H (s & w & b' & Hs & Hv & Ht & Hd).
  destruct (same_content_slot _ _ _ _ _ H Hs) as (b & Hb & Hk).
  unfold key in Hk. exists s, w, b. naive_solver.
Qed.

Lemma touch_wf off sets ways m s w b :
  wf_cache off sets ways m -> slot m s w = Some b ->
  wf_cache off sets ways (put_slot m s w (b <| rrip := 3 |>)).
Proof.
  intros H Hb. eapply wf_put; [done|done|done|]. cbn. intros Hv.
  split; [by eapply wf_place|]. intros w' b' Hb' Hv' Ht. by eapply wf_uniq.
Qed.

(** [a] sits in way [w] of its set when [w] is a way, and nowhere otherwise. *)
Definition found_at c (a w : Z) (p : FuncCacheBlock -> bool) : Prop :=
  (0 <= w < m_ways c /\ exists b, slot (m_cache c) (index c a) w = Some b /\ p b = true) \/
  (w = m_ways c /\ forall w' b, slot (m_cache c) (index c a) w' = Some b -> p b = false).

Lemma found_at_find c a p ws :
  m_cache c !! index c a = Some ws -> zlen ws = m_ways c ->
  found_at c a (default (m_ways c) (first_index p ws 0)) p.
Proof.
  intros Hws Hl. pose proof (first_index_spec p ws) as Hf. unfold found_at, slot. rewrite Hws. cbn.
  destruct (first_index p ws 0) as [w|]; cbn; [left|by right].
  destruct Hf as (b & Hb & Hp). split; [|eauto]. pose proof (zlookup_lt _ _ _ Hb). lia.
Qed.

Lemma Lookup_spec c a ty :
  wf c -> wp (Lookup a ty) c (fun w c' =>
    wf c' /\ same_dims c c' /\ same_content (m_cache c) (m_cache c') /\
    found_at c a w (tag_match a)).
Proof.
  intros H. unfold Lookup. wp_steps. apply read_set_spec; [done|]. intros ws Hws Hl.
  pose proof (found_at_find c a (tag_match a) ws Hws Hl) as Hf. wp_steps.
  destruct ty; wp_steps; [by split_and!|].
  pose proof (first_index_spec (tag_match a) ws) as Hfw.
  destruct (first_index (tag_match a) ws 0) as [w|]; wp_steps; [|by split_and!].
  destruct Hfw as (b & Hb & _).
  assert (Hs : slot (m_cache c) (index c a) w = Some b) by (unfold slot; by rewrite Hws).
  unfold over. apply (read_block_spec _ _ _ b); [done|done|]. wp_steps.
  apply (write_block_spec _ _ _ b); [done|done|]. wp_steps. split_and!; [|done| |done].
  - exact (touch_wf _ _ _ _ _ _ _ H Hs).
  - by eapply same_content_put.
Qed.

Lemma PartialLookup_spec c a :
  wf c -> partial_lookup_factor c <> 0 -> wp (PartialLookup a) c (fun w c' =>
    wf c' /\ same_dims c c' /\ same_content (m_cache c) (m_cache c') /\
    found_at c a w (line_match (partial_lookup_factor c) a)).
Proof.
  intros H Hf. unfold PartialLookup. wp_steps. apply rp_udiv; [done|]. wp_steps.
  apply read_set_spec; [done|]. intros ws Hws Hl.
  set (p := line_match (partial_lookup_factor c) a).
  pose proof (found_at_find c a p ws Hws Hl) as Hfa. pose proof (first_index_spec p ws) as Hfw.
  destruct (first_index p ws 0) as [w|]; wp_steps; [|by split_and!].
  destruct Hfw as (b & Hb & _).
  assert (Hs : slot (m_cache c) (index c a) w = Some b) by (unfold slot; by rewrite Hws).
  apply (read_block_spec _ _ _ b); [done|done|]. wp_steps.
  apply (write_block_spec _ _ _ b); [done|done|]. wp_steps. split_and!; [|done| |done].
  - exact (touch_wf _ _ _ _ _ _ _ H Hs).
  - by eapply same_content_put.
Qed.

(** *** Replacement *)

(** The aged set: same content way by way, counters in range. *)
Definition aged ws ws' : Prop :=
  zlen ws' = zlen ws /\
  forall w b', ws' !! w = Some b' -> 0 <= rrip b' <= 3 /\
    exists b, ws !! w = Some b /\ key b' = key b.

(** Four rounds are enough: counters start at most at 3, and a round that
    finds no zero lowers them all by one. *)
Lemma rrip_victim_spec n : forall ws,
  (forall w b, ws !! w = Some b -> 0 <= rrip b <= 3) ->
  (exists w b, ws !! w = Some b /\ rrip b < Z.of_nat n) ->
  exists w ws', rrip_victim n ws = (Some w, ws') /\ 0 <= w < zlen ws /\ aged ws ws'.
Proof.
  induction n as [|n IH]; intros ws Hr (w0 & b0 & Hb0 & Hlt).
  { pose proof (Hr _ _ Hb0). lia. }
  cbn [rrip_victim]. pose proof (first_index_spec (fun b => rrip b =? 0) ws) as Hf.
  destruct (first_index _ ws 0) as [w|].
  { destruct Hf as (b & Hb & _). exists w, ws. split_and!; try done.
    - by eapply zlookup_lt.
    - by eapply zlookup_lt.
    - split; [done|]. intros w' b' Hb'. split; [by eapply Hr|eauto]. }
  assert (Hpos : forall w b, ws !! w = Some b -> 1 <= rrip b <= 3).
  { intros w b Hb. pose proof (Hr _ _ Hb). pose proof (Hf _ _ Hb). lia. }
  edestruct (IH ((fun b => b <| rrip ::= fun r => u32 (r - 1) |>) <$> ws))
    as (w & ws' & -> & Hw & Hlen & Haged).
  - intros w b. rewrite zlookup_fmap. destruct (ws !! w) as [b'|] eqn:Hb'; [|done].
    intros [= <-]. unfold over. cbn. pose proof (Hpos _ _ Hb').
    rewrite u32_small by lia. lia.
  - eexists w0, _. rewrite zlookup_fmap, Hb0. split; [done|].
    unfold over. cbn. pose proof (Hpos _ _ Hb0). rewrite u32_small by lia. lia.
  - rewrite zlen_fmap in *. exists w, ws'. split_and!; try done; try lia.
    split; [done|]. intros w' b' Hb'. destruct (Haged _ _ Hb') as (Hrr & b & Hb & Hk). split; [done|].
    rewrite zlookup_fmap in Hb. destruct (ws !! w') as [b1|]; [|done].
    injection Hb as <-. exists b1. done.
Qed.

Lemma wf_aged off sets ways m s ws ws' :
  wf_cache off sets ways m -> m !! s = Some ws -> aged ws ws' ->
  wf_cache off sets ways (<[s := ws']> m) /\ same_content m (<[s := ws']> m).
Proof.
  intros H Hs [Hlen Hag]. pose proof (zlookup_lt _ _ _ Hs) as Hlt.
  assert (Hslot : forall s' w b', slot (<[s := ws']> m) s' w = Some b' ->
            exists b, slot m s' w = Some b /\ key b' = key b /\ 0 <= rrip b' <= 3).
  { intros s' w b'. unfold slot. destruct (decide (s = s')) as [->|Hne].
    - rewrite zlookup_insert_eq, Hs by done. cbn. intros Hb'.
      destruct (Hag _ _ Hb') as (? & b & ? & ?). eauto.
    - rewrite zlookup_insert_ne by done. intros Hb'. exists b'. split_and!; try done.
      all: by eapply (wf_rrip _ _ _ _ H s' w). }
  assert (Hk : same_content m (<[s := ws']> m)).
  { intros s' w. destruct (slot (<[s := ws']> m) s' w) as [b'|] eqn:Hb'.
    - destruct (Hslot _ _ _ Hb') as (b & -> & Hk & _). by cbn; rewrite Hk.
    - unfold slot in *. destruct (decide (s = s')) as [->|Hne].
      + rewrite zlookup_insert_eq in Hb' by done. rewrite Hs. cbn in *.
        destruct (ws !! w) eqn:Hw; [|done]. apply zlookup_lt in Hw.
        apply zlookup_None in Hb'. lia.
      + rewrite zlookup_insert_ne in Hb' by done. by rewrite Hb'. }
  split; [|done]. split; try apply H.
  - rewrite zlen_insert. apply H.
  - intros s' x [(<- & -> & _)|[_ Hx]]%zlookup_insert; [rewrite Hlen|]; by eapply wf_row.
  - intros s' w b' Hb'. by destruct (Hslot _ _ _ Hb') as (b & _ & _ & ?).
  - intros s' w b' Hb' Hv. destruct (Hslot _ _ _ Hb') as (b & Hb & Hkb & _).
    unfold key in Hkb. replace (tag b') with (tag b) by congruence.
    eapply (wf_place _ _ _ _ H); [done|congruence].
  - intros s' w w' b1 b2 H1 H2 V1 V2 Ht.
    destruct (Hslot _ _ _ H1) as (c1 & S1 & K1 & _), (Hslot _ _ _ H2) as (c2 & S2 & K2 & _).
    unfold key in *. eapply (wf_uniq _ _ _ _ H s'); eauto; congruence.
Qed.

Lemma Find_Victim_spec c a :
  wf c -> wp (Find_Victim a) c (fun w c' =>
    wf c' /\ same_dims c c' /\ same_content (m_cache c) (m_cache c') /\ 0 <= w < m_ways c).
Proof.
  intros H. unfold Find_Victim. wp_steps. apply read_set_spec; [done|]. intros ws Hws Hl.
  pose proof (first_index_spec (fun b => negb (valid b)) ws) as Hf.
  destruct (first_index _ ws 0) as [w|].
  { destruct Hf as (b & Hb & _). pose proof (zlookup_lt _ _ _ Hb). wp_steps.
    split_and!; try done; lia. }
  pose proof (wf_ways _ _ _ _ H).
  destruct (zlookup_is_Some ws 0) as [b0 Hb0]; [lia|].
  assert (Hr : forall w b, ws !! w = Some b -> 0 <= rrip b <= 3).
  { intros w b Hb. eapply (wf_rrip _ _ _ _ H (index c a) w). unfold slot. by rewrite Hws. }
  destruct (rrip_victim_spec 4 ws Hr) as (w & ws' & -> & Hw & Hag).
  { exists 0, b0. split; [done|]. pose proof (Hr _ _ Hb0). lia. }
  destruct (wf_aged _ _ _ _ _ _ _ H Hws Hag) as [Hwf Hsame].
  unfold over. wp_steps. apply write_set_spec; [exact H|]. wp_steps.
  split_and!; [exact Hwf|done|exact Hsame|lia|lia].
Qed.

(** *** Filling and invalidating *)

(** Two valid blocks of a well-formed cache with the same tag are one. *)
Lemma wf_tag_inj off sets ways m s w b s' w' b' :
  wf_cache off sets ways m -> slot m s w = Some b -> slot m s' w' = Some b' ->
  valid b = true -> valid b' = true -> tag b = tag b' -> s = s' /\ w = w'.
Proof.
  intros H Hb Hb' Hv Hv' Ht.
  pose proof (wf_place _ _ _ _ H _ _ _ Hb Hv). pose proof (wf_place _ _ _ _ H _ _ _ Hb' Hv').
  assert (s = s') as <- by congruence. split; [done|]. by eapply (wf_uniq _ _ _ _ H s).
Qed.

Lemma cached_put off sets ways m s w b0 b x d :
  wf_cache off sets ways m -> slot m s w = Some b0 ->
  cached (put_slot m s w b) x d <->
  (valid b = true /\ tag b = x /\ dirty b = d) \/
  (cached m x d /\ (valid b0 = true -> tag b0 <> x)).
Proof.
  intros H H0. split.
  - intros (s' & w' & b' & Hb' & Hv & Ht & Hd).
    apply (slot_put _ _ _ _ _ _ _ _ H0) in Hb' as [(-> & -> & ->)|[Hne Hb']]; [by left|right].
    split; [by exists s', w', b'|]. intros Hv0 Ht0. apply Hne.
    destruct (wf_tag_inj _ _ _ _ _ _ _ _ _ _ H Hb' H0 Hv Hv0) as [-> ->]; [congruence|done].
  - intros [(Hv & Ht & Hd)|[(s' & w' & b' & Hb' & Hv & Ht & Hd) Hne]].
    + exists s, w, b. split_and!; try done. by eapply slot_put_eq.
    + exists s', w', b'. split_and!; try done. rewrite slot_put_ne; [done|].
      intros [= -> ->]. simplify_eq. by apply Hne.
Qed.

Lemma Is_Block_Valid_spec c a w b :
  wf c -> slot (m_cache c) (index c a) w = Some b ->
  wp (Is_Block_Valid a w) c (fun v c' => c' = c /\ v = valid b).
Proof.
  intros H Hb. unfold Is_Block_Valid. wp_steps.
  apply (read_block_spec _ _ _ b); [done|done|]. by wp_steps.
Qed.

Lemma Get_Block_Addr_spec c a w b :
  wf c -> slot (m_cache c) (index c a) w = Some b -> valid b = true ->
  wp (Get_Block_Addr a w) c (fun x c' => c' = c /\ x = tag b).
Proof.
  intros H Hb Hv. unfold Get_Block_Addr. wp_steps.
  apply (read_block_spec _ _ _ b); [done|done|]. wp_steps. apply wp_assert; [done|]. by wp_steps.
Qed.

Lemma QueryDirtyBit_spec c a w b :
  wf c -> slot (m_cache c) (index c a) w = Some b -> valid b = true ->
  wp (QueryDirtyBit a w) c (fun d c' => c' = c /\ d = dirty b).
Proof.
  intros H Hb Hv. unfold QueryDirtyBit. wp_steps.
  apply (read_block_spec _ _ _ b); [done|done|]. wp_steps. apply wp_assert; [done|]. by wp_steps.
Qed.

Lemma Invalidate_spec c a w b :
  wf c -> slot (m_cache c) (index c a) w = Some b ->
  wp (Invalidate a w) c (fun _ c' => wf c' /\ same_dims c c' /\
    (exists b', slot (m_cache c') (index c' a) w = Some b' /\ valid b' = false) /\
    forall x d, cached (m_cache c') x d <-> cached (m_cache c) x d /\ (valid b = true -> tag b <> x)).
Proof.
  intros H Hb. unfold Invalidate. wp_steps. apply (read_block_spec _ _ _ b); [done|done|].
  destruct (valid b) eqn:Hv; cbn [negb]; wp_steps.
  - apply (write_block_spec _ _ _ b); [done|done|]. wp_steps. split_and!; [|done| |].
    + eapply (wf_put _ _ _ _ _ _ b); [exact H|done|cbn; lia|done].
    + eexists. split; [by eapply slot_put_eq|done].
    + intros x d. cbn. rewrite (cached_put _ _ _ _ _ _ _ _ _ _ H Hb). cbn.
      split; [intros [[? _]|?]; [done|naive_solver]|naive_solver].
  - split_and!; try done; [eauto|naive_solver].
Qed.

Lemma Fill_spec c a w b :
  wf c -> slot (m_cache c) (index c a) w = Some b -> valid b = false ->
  (forall d, ~ cached (m_cache c) a d) ->
  wp (Fill a w) c (fun _ c' => wf c' /\ same_dims c c' /\
    slot (m_cache c') (index c' a) w = Some (mkBlock a true false true 1) /\
    forall x d, cached (m_cache c') x d <-> (x = a /\ d = false) \/ cached (m_cache c) x d).
Proof.
  intros H Hb Hv Hnot. unfold Fill. wp_steps. apply (read_block_spec _ _ _ b); [done|done|].
  wp_steps. apply wp_assert; [by rewrite Hv|]. wp_steps.
  apply (write_block_spec _ _ _ b); [done|done|]. wp_steps. split_and!; [|done| |].
  - eapply (wf_put _ _ _ _ _ _ b); [exact H|done|cbn; lia|]. cbn. intros _. split; [done|].
    intros w' b' Hb' Hv' Ht. destruct (Hnot (dirty b')). by exists (index c a), w', b'.
  - by eapply slot_put_eq.
  - intros x d. cbn. rewrite (cached_put _ _ _ _ _ _ _ _ _ _ H Hb). cbn. rewrite Hv.
    split; [intros [(_ & <- & <-)|[? _]]; auto|].
    intros [[-> ->]|?]; [by left|right]. by split.
Qed.

Lemma SetDirtyBit_spec c a w b :
  wf c -> slot (m_cache c) (index c a) w = Some b -> valid b = true ->
  wp (SetDirtyBit a w) c (fun _ c' => wf c' /\ same_dims c c' /\
    forall x d, cached (m_cache c') x d <->
      (x = tag b /\ d = true) \/ (x <> tag b /\ cached (m_cache c) x d)).
Proof.
  intros H Hb Hv. unfold SetDirtyBit. wp_steps. apply (read_block_spec _ _ _ b); [done|done|].
  wp_steps. apply wp_assert; [done|]. wp_steps.
  apply (write_block_spec _ _ _ b); [done|done|]. split_and!; [|done|].
  - eapply (wf_put _ _ _ _ _ _ b); [exact H|done|cbn; by eapply (wf_rrip _ _ _ _ H)|].
    cbn. intros _. split; [by eapply (wf_place _ _ _ _ H)|].
    intros w' b' Hb' Hv' Ht. by eapply (wf_uniq _ _ _ _ H).
  - intros x d. unfold over. cbn. rewrite (cached_put _ _ _ _ _ _ _ _ _ _ H Hb). cbn. naive_solver.
Qed.

(** A hit of [found_at] is a cached tag, a miss is none. *)
Lemma found_at_cached c a w :
  wf c -> found_at c a w (tag_match a) ->
  (w < m_ways c <-> exists d, cached (m_cache c) a d).
Proof.
  intros H [[Hw (b & Hb & Hm)]|[-> Hnone]].
  - unfold tag_match in Hm. apply andb_true_iff in Hm as [Hv Ht%Z.eqb_eq].
    split; [|lia]. intros _. by exists (dirty b), (index c a), w, b.
  - split; [lia|]. intros (d & s & w & b & Hb & Hv & Ht & _).
    pose proof (wf_place _ _ _ _ H _ _ _ Hb Hv) as ->. rewrite Ht in Hb.
    pose proof (Hnone _ _ Hb) as Hf. unfold tag_match in Hf.
    by rewrite Hv, Ht, Z.eqb_refl in Hf.
Qed.

(** A lookup's outcome read in a cache of the same content. *)
Lemma index_same c c' a : same_dims c c' -> index c' a = index c a.
Proof. intros (E1 & E2 & _). unfold index. by rewrite E1, E2. Qed.

Lemma found_at_same c c' a w p :
  (forall b b', key b = key b' -> p b = p b') ->
  same_dims c c' -> same_content (m_cache c) (m_cache c') -> found_at c a w p -> found_at c' a w p.
Proof.
  intros Hp Hd Hs. pose proof Hd as (_ & _ & Ew & _). unfold found_at.
  rewrite (index_same c c'), Ew by done. intros [[Hw (b & Hb & Hpb)]|[Hw Hn]].
  - left. split; [done|]. destruct (same_content_slot _ _ _ _ _ (fun s w => eq_sym (Hs s w)) Hb)
      as (b' & Hb' & Hk). exists b'. split; [done|]. by rewrite (Hp b' b).
  - right. split; [done|]. intros w' b' Hb'.
    destruct (same_content_slot _ _ _ _ _ Hs Hb') as (b & Hb & Hk).
    rewrite <- (Hp b b') by done. by eapply Hn.
Qed.

Lemma tag_match_key a b b' : key b = key b' -> tag_match a b = tag_match a b'.
Proof. unfold key, tag_match. intros [= -> -> _ _]. done. Qed.
Lemma line_match_key f a b b' : key b = key b' -> line_match f a b = line_match f a b'.
Proof. unfold key, line_match. intros [= -> -> _ _]. done. Qed.

(** A hit by tag is a block whose tag is cached. *)
Lemma tag_match_cached c a w b :
  slot (m_cache c) (index c a) w = Some b -> tag_match a b = true ->
  valid b = true /\ tag b = a /\ cached (m_cache c) a (dirty b).
Proof.
  intros Hb [Hv Ht%Z.eqb_eq]%andb_true_iff. split_and!; try done.
  by exists (index c a), w, b.
Qed.
Lemma line_match_cached c f a w b :
  slot (m_cache c) (index c a) w = Some b -> line_match f a b = true ->
  tag b / f = a / f /\ cached (m_cache c) (tag b) (dirty b).
Proof.
  intros Hb [Hv Ht%Z.eqb_eq]%andb_true_iff. split_and!; try done.
  by exists (index c a), w, b.
Qed.
End Functional_Cache.
