(* ===== verification/Murmur.v ===== *)
(** MurmurHash3_x64_128 of [mem/rowhammer_mitigation.cc] on 64-bit words, the
    invertibility of its mixing steps, and the absence of collisions between
    32-bit row addresses. *)
From S2P Require Import Prelude.

Module Murmur.

(** ** Mixing steps *)

Definition rotl32 (x r : Z) : Z := Z.lor (u32 (Z.shiftl x r)) (Z.shiftr x (32 - r)).
Definition rotl64 (x r : Z) : Z := Z.lor (u64 (Z.shiftl x r)) (Z.shiftr x (64 - r)).

Definition fmix32 (h : Z) : Z :=
  let h := Z.lxor h (Z.shiftr h 16) in
  let h := u32 (h * 0x85ebca6b) in
  let h := Z.lxor h (Z.shiftr h 13) in
  let h := u32 (h * 0xc2b2ae35) in
  Z.lxor h (Z.shiftr h 16).

Definition fmix64 (k : Z) : Z :=
  let k := Z.lxor k (Z.shiftr k 33) in
  let k := u64 (k * 0xff51afd7ed558ccd) in
  let k := Z.lxor k (Z.shiftr k 33) in
  let k := u64 (k * 0xc4ceb9fe1a85ec53) in
  Z.lxor k (Z.shiftr k 33).

Definition c1 : Z := 0x87c37b91114253d5.
Definition c2 : Z := 0x4cf5ad432745937f.

(** The word made of the [n] bytes at [off], least significant first: the
    64-bit load of [getblock64] and, for a partial word, the cases of the
    tail's [switch]. *)
Fixpoint bytes_le (data : list Z) (off : Z) (n : nat) : result Z :=
  match n with
  | O => mret 0
  | S n' =>
      b ← aread data off;
      hi ← bytes_le data (off + 1) n';
      mret (Z.lor b (Z.shiftl hi 8))
  end.

Definition getblock32 (data : list Z) (i : Z) : result Z := bytes_le data (4 * i) 4.
Definition getblock64 (data : list Z) (i : Z) : result Z := bytes_le data (8 * i) 8.

Definition mix_k1 (k1 : Z) : Z := u64 (rotl64 (u64 (k1 * c1)) 31 * c2).
Definition mix_k2 (k2 : Z) : Z := u64 (rotl64 (u64 (k2 * c2)) 33 * c1).

(** One iteration of the body loop. *)
Definition body_step (data : list Z) (i : Z) (h : Z * Z) : result (Z * Z) :=
  let '(h1, h2) := h in
  k1 ← getblock64 data (i * 2 + 0);
  k2 ← getblock64 data (i * 2 + 1);
  let h1 := Z.lxor h1 (mix_k1 k1) in
  let h1 := u64 (u64 (rotl64 h1 27 + h2) * 5 + 0x52dce729) in
  let h2 := Z.lxor h2 (mix_k2 k2) in
  let h2 := u64 (u64 (rotl64 h2 31 + h1) * 5 + 0x38495ab5) in
  mret (h1, h2).

Fixpoint body_loop (data : list Z) (n : nat) (i : Z) (h : Z * Z) : result (Z * Z) :=
  match n with
  | O => mret h
  | S n' => h' ← body_step data i h; body_loop data n' (i + 1) h'
  end.

(** The [switch (len & 15)] on the remaining bytes. *)
Definition tail_step (data : list Z) (off rest : Z) (h : Z * Z) : result (Z * Z) :=
  let '(h1, h2) := h in
  h2 ← (if 9 <=? rest
        then k2 ← bytes_le data (off + 8) (Z.to_nat (rest - 8)); mret (Z.lxor h2 (mix_k2 k2))
        else mret h2);
  h1 ← (if 1 <=? rest
        then k1 ← bytes_le data off (Z.to_nat (Z.min rest 8)); mret (Z.lxor h1 (mix_k1 k1))
        else mret h1);
  mret (h1, h2).

Definition finalize (len : Z) (h : Z * Z) : Z * Z :=
  let '(h1, h2) := h in
  let h1 := Z.lxor h1 len in
  let h2 := Z.lxor h2 len in
  let h1 := u64 (h1 + h2) in
  let h2 := u64 (h2 + h1) in
  let h1 := fmix64 h1 in
  let h2 := fmix64 h2 in
  let h1 := u64 (h1 + h2) in
  let h2 := u64 (h2 + h1) in
  (h1, h2).

Definition MurmurHash3_x64_128 (data : list Z) (seed : Z) : result (Z * Z) :=
  let len := zlen data in
  let nblocks := len / 16 in
  h ← body_loop data (Z.to_nat nblocks) 0 (seed, seed);
  h ← tail_step data (nblocks * 16) (Z.land len 15) h;
  mret (finalize len h).

Definition RQhash (data : list Z) : result (Z * Z) := MurmurHash3_x64_128 data 0xdeadbeef.

(** The four bytes of a row address, as [CountingBloomFilter] builds them. *)
Definition row_bytes (rowAddr : Z) : list Z :=
  [u8 (Z.land rowAddr 255); u8 (Z.land (Z.shiftr rowAddr 8) 255);
   u8 (Z.land (Z.shiftr rowAddr 16) 255); u8 (Z.land (Z.shiftr rowAddr 24) 255)].


(** ** Every mixing step is invertible *)

Abbreviation w64 := (in_width 64).

Lemma u64_width x : w64 (u64 x).
Proof. apply u64_range. Qed.
#[local] Hint Resolve u64_width : core.

(** [x ^= x >> s] undoes itself on a word of at most [2 s] bits. *)
Lemma xorshift_involutive w s x :
  0 < s -> w <= 2 * s -> 0 <= w -> in_width w x ->
  Z.lxor (Z.lxor x (Z.shiftr x s)) (Z.shiftr (Z.lxor x (Z.shiftr x s)) s) = x.
Proof.
  intros Hs Hws Hw Hx. apply Z.bits_inj'. intros i Hi. autorewrite with bits.
  rewrite (in_width_high w x (i + s + s)) by (done || lia).
  by destruct (Z.testbit x i), (Z.testbit x (i + s)).
Qed.

Lemma xorshift_width w s x : 0 <= w -> 0 <= s -> in_width w x ->
  in_width w (Z.lxor x (Z.shiftr x s)).
Proof. intros. apply in_width_lxor; [done|done|]. by apply in_width_shiftr. Qed.

(** Multiplication by a constant with an inverse modulo [2^64]. *)
Lemma mul_inv64 c c' x : (c * c') mod 2 ^ 64 = 1 -> w64 x -> u64 (u64 (x * c) * c') = x.
Proof.
  intros Hc Hx. unfold u64. rewrite Zmult_mod_idemp_l, <- Z.mul_assoc, <- Zmult_mod_idemp_r, Hc.
  rewrite Z.mul_1_r. by apply Z.mod_small.
Qed.

Lemma rotl64_width x r : 0 <= r <= 64 -> w64 x -> w64 (rotl64 x r).
Proof.
  intros Hr Hx. unfold rotl64. apply in_width_lor; [done|done|].
  by apply in_width_shiftr; [|lia|].
Qed.

Lemma rotl64_testbit x r i : 0 < r < 64 -> w64 x -> 0 <= i < 64 ->
  Z.testbit (rotl64 x r) i = Z.testbit x ((i - r) mod 64).
Proof.
  intros Hr Hx Hi. unfold rotl64, u64. autorewrite with bits.
  rewrite Z.mod_pow2_bits_low by lia. autorewrite with bits.
  destruct (Z.lt_ge_cases i r).
  - rewrite Z.testbit_neg_r by lia. cbn. f_equal.
    rewrite <- (Z.mod_add _ 1), Z.mod_small by lia. lia.
  - rewrite (in_width_high 64 x (i + (64 - r))) by (done || lia).
    rewrite orb_false_r, Z.mod_small by lia. done.
Qed.

Lemma rotl64_inv x r : 0 < r < 64 -> w64 x -> rotl64 (rotl64 x r) (64 - r) = x.
Proof.
  intros Hr Hx. apply Z.bits_inj'. intros i Hi.
  pose proof (rotl64_width x r ltac:(lia) Hx) as Hw.
  pose proof (rotl64_width _ (64 - r) ltac:(lia) Hw).
  destruct (Z.lt_ge_cases i 64).
  - pose proof (Z.mod_pos_bound (i - (64 - r)) 64 ltac:(lia)).
    rewrite !rotl64_testbit by (done || lia). f_equal.
    rewrite Zminus_mod_idemp_l. replace (i - (64 - r) - r) with (i + (-1) * 64) by lia.
    rewrite Z.mod_add by lia. apply Z.mod_small. lia.
  - by rewrite !(in_width_high 64) by (done || lia).
Qed.

(** The inverse of the finalization mix. *)
Definition unfmix64 (k : Z) : Z :=
  let k := Z.lxor k (Z.shiftr k 33) in
  let k := u64 (k * 11291846944257947611) in
  let k := Z.lxor k (Z.shiftr k 33) in
  let k := u64 (k * 5725274745694666757) in
  Z.lxor k (Z.shiftr k 33).

Lemma fmix64_width k : w64 k -> w64 (fmix64 k).
Proof. intros. unfold fmix64. by apply xorshift_width. Qed.

Lemma unfmix64_fmix64 k : w64 k -> unfmix64 (fmix64 k) = k.
Proof.
  intros Hk. unfold unfmix64, fmix64.
  rewrite (xorshift_involutive 64) by (done || lia).
  rewrite mul_inv64; [|done|by apply xorshift_width].
  rewrite (xorshift_involutive 64) by (done || lia).
  rewrite mul_inv64; [|done|by apply xorshift_width].
  by apply (xorshift_involutive 64).
Qed.

Lemma fmix64_unfmix64 k : w64 k -> fmix64 (unfmix64 k) = k.
Proof.
  intros Hk. unfold unfmix64, fmix64.
  rewrite (xorshift_involutive 64) by (done || lia).
  rewrite mul_inv64; [|done|by apply xorshift_width].
  rewrite (xorshift_involutive 64) by (done || lia).
  rewrite mul_inv64; [|done|by apply xorshift_width].
  by apply (xorshift_involutive 64).
Qed.

Lemma mix_k1_inj x y : w64 x -> w64 y -> mix_k1 x = mix_k1 y -> x = y.
Proof.
  intros Hx Hy H. apply (f_equal (fun z => u64 (z * 12114143059468233855))) in H.
  unfold mix_k1 in H.
  rewrite !mul_inv64 in H by (done || by apply rotl64_width).
  apply (f_equal (fun z => rotl64 z (64 - 31))) in H.
  rewrite !rotl64_inv in H by (done || lia).
  apply (f_equal (fun z => u64 (z * 12214898983567248765))) in H.
  by rewrite !mul_inv64 in H by done.
Qed.

Lemma u64_add_inj x y c : w64 x -> w64 y -> u64 (x + c) = u64 (y + c) -> x = y.
Proof.
  intros Hx Hy H. apply (f_equal (fun z => u64 (z - c))) in H. unfold u64 in H.
  rewrite !Zminus_mod_idemp_l, !Z.add_simpl_r in H.
  by rewrite !Z.mod_small in H.
Qed.

Lemma lxor_inj a x y : Z.lxor a x = Z.lxor a y -> x = y.
Proof.
  intros H. apply (f_equal (Z.lxor a)) in H.
  by rewrite <- !Z.lxor_assoc, Z.lxor_nilpotent, !Z.lxor_0_l in H.
Qed.

Lemma pair_add_inj a b a' b' :
  w64 a -> w64 b -> w64 a' -> w64 b' ->
  u64 (a + b) = u64 (a' + b') -> u64 (b + u64 (a + b)) = u64 (b' + u64 (a' + b')) ->
  a = a' /\ b = b'.
Proof.
  intros Ha Hb Ha' Hb' H1 H2. rewrite H1 in H2. apply u64_add_inj in H2 as ->; [|done|done].
  by apply u64_add_inj in H1.
Qed.

(** Finalization loses nothing. *)
Lemma finalize_inj len h1 h2 h1' h2' :
  w64 len -> w64 h1 -> w64 h2 -> w64 h1' -> w64 h2' ->
  finalize len (h1, h2) = finalize len (h1', h2') -> h1 = h1' /\ h2 = h2'.
Proof.
  intros Hl H1 H2 H1' H2' H. unfold finalize in H. injection H as Ha Hb.
  assert (w64 (Z.lxor h1 len) /\ w64 (Z.lxor h2 len) /\ w64 (Z.lxor h1' len) /\ w64 (Z.lxor h2' len))
    as (W1 & W2 & W1' & W2') by (split_and!; by apply in_width_lxor).
  apply pair_add_inj in Hb as [Hf1 Hf2]; [|by apply fmix64_width..|done].
  apply (f_equal unfmix64) in Hf1, Hf2. rewrite !unfmix64_fmix64 in Hf1, Hf2 by done.
  apply pair_add_inj in Hf2 as [Hx1 Hx2]; [|done..].
  rewrite (Z.lxor_comm h1), (Z.lxor_comm h1') in Hx1.
  rewrite (Z.lxor_comm h2), (Z.lxor_comm h2') in Hx2. split; by eapply lxor_inj.
Qed.

(** ** Row addresses do not collide *)

Lemma row_bytes_le r : in_width 32 r -> bytes_le (row_bytes r) 0 4 = Ok r.
Proof.
  intros Hr. unfold row_bytes.
  assert (Hb : forall x, u8 (Z.land x 255) = Z.land x (Z.ones 8)).
  { intros x. apply u8_small. change 255 with (Z.ones 8). rewrite Z.land_ones by lia.
    apply Z.mod_pos_bound. lia. }
  rewrite !Hb. unfold bytes_le, aread, mbind, result_bind, mret, result_ret.
  cbn -[Z.land Z.lor Z.shiftl Z.shiftr Z.ones]. f_equal.
  rewrite Z.shiftl_0_l, Z.lor_0_r.
  assert (H24 : Z.shiftr r 24 = Z.land (Z.shiftr r 24) (Z.ones 8)).
  { rewrite Z.land_ones by lia. symmetry. apply Z.mod_small.
    rewrite Z.shiftr_div_pow2 by lia. unfold in_width in Hr. split; [apply Z.div_pos; lia|].
    apply Z.div_lt_upper_bound; lia. }
  rewrite <- H24.
  replace (Z.shiftr r 24) with (Z.shiftr (Z.shiftr r 16) 8) by (rewrite Z.shiftr_shiftr by lia; done).
  rewrite lor_low_high by lia.
  replace (Z.shiftr r 16) with (Z.shiftr (Z.shiftr r 8) 8) by (rewrite Z.shiftr_shiftr by lia; done).
  by rewrite !lor_low_high by lia.
Qed.

(** The hash of a row address in closed form: no body block, a 4-byte tail. *)
Lemma RQhash_row r : in_width 32 r ->
  RQhash (row_bytes r) =
    Ok (finalize 4 (Z.lxor 0xdeadbeef (mix_k1 r), 0xdeadbeef)).
Proof.
  intros Hr. unfold RQhash, MurmurHash3_x64_128.
  change (zlen (row_bytes r)) with 4. change (4 / 16) with 0.
  change (Z.land 4 15) with 4. cbn [Z.to_nat body_loop].
  unfold tail_step. change (9 <=? 4) with false. change (1 <=? 4) with true.
  change (Z.to_nat (Z.min 4 8)) with 4%nat. change (0 * 16) with 0.
  unfold mbind, result_bind, mret, result_ret. by rewrite row_bytes_le.
Qed.

(** C27. Two distinct 32-bit row addresses never have the same 128-bit hash:
    [RQhash] on the four bytes of a row always returns, and is injective. *)
Theorem RQhash_row_injective (r r' : Z) :
  in_width 32 r -> in_width 32 r' ->
  exists h h', RQhash (row_bytes r) = Ok h /\ RQhash (row_bytes r') = Ok h' /\
    (h = h' -> r = r').
Proof.
  intros Hr Hr'. eexists _, _. split; [by apply RQhash_row|]. split; [by apply RQhash_row|].
  intros Hf.
  assert (w64 r /\ w64 r') as [W W'] by (unfold in_width in *; lia).
  assert (forall x, w64 x -> w64 (Z.lxor 0xdeadbeef (mix_k1 x))) as Hw.
  { intros x Hx. apply in_width_lxor; [done|done|]. apply u64_width. }
  apply finalize_inj in Hf as [Hf _]; [|done|by apply Hw|done|by apply Hw|done].
  apply lxor_inj in Hf. by apply mix_k1_inj.
Qed.

Lemma RQhash_row_injective_witness :
  exists h h', RQhash (row_bytes 77) = Ok h /\ RQhash (row_bytes 78) = Ok h' /\
    (h = h' -> 77 = 78).
Proof. apply (RQhash_row_injective 77 78); split; vm_compute; congruence. Defined.
End Murmur.
