(* ===== verification/Bloom.v ===== *)
(** The counting Bloom filter of [mem/rowhammer_mitigation.cc] over the hash
    of Murmur.v: it represents a multiset of rows, and answers no row of that
    multiset negatively. *)
From S2P Require Import Prelude Murmur.

Module CountingBloomFilter.

Record t := mkFilter {
  numHashes : Z;
  maxCount : Z;
  numEntries : Z;
  entries : list Z;
  s_truePositives : Z;
  s_falsePositives : Z;
  s_trueNegatives : Z }.
#[global] Instance eta_t : Settable t := fun r =>
  mkFilter (numHashes r) (maxCount r) (numEntries r) (entries r)
    (s_truePositives r) (s_falsePositives r) (s_trueNegatives r).

(** ** Operations *)

(** The statistics members are not initialised: [st] is what the allocator left. *)
Definition create (__numEntries __maxCount __numHashes : Z) (st : Z * Z * Z) : t :=
  mkFilter __numHashes __maxCount __numEntries (calloc __numEntries 0) st.1.1 st.1.2 st.2.

Definition nthHash (n hashA hashB filterSize : Z) : result Z :=
  umod (u64 (hashA + u64 (n * hashB))) filterSize.

(** [entries[nthHash(n, hashValues[0], hashValues[1], numEntries)]] *)
Definition probe (h : Z * Z) (n : Z) : comp t (Z * Z) :=
  size ← gets numEntries;
  i ← lift (nthHash n h.1 h.2 size);
  es ← gets entries;
  v ← lift (aread es i);
  mret (i, v).

Definition write_entry (i v : Z) : comp t unit :=
  es ← gets entries; es' ← lift (awrite es i v); modify (fun f => f <| entries := es' |>).

Definition add (rowAddr : Z) : comp t unit :=
  h ← lift (Murmur.RQhash (Murmur.row_bytes rowAddr));
  nh ← gets numHashes;
  for_ (Z.to_nat nh) 0 (fun n =>
    '(i, v) ← probe h n; write_entry i (u32 (v + 1))).

(** The early [return false] of the loop. *)
Fixpoint query_loop (h : Z * Z) (k : nat) (n : Z) : comp t bool :=
  match k with
  | O => mret true
  | S k' => '(_, v) ← probe h n; if v =? 0 then mret false else query_loop h k' (n + 1)
  end.

Definition query (rowAddr : Z) : comp t bool :=
  h ← lift (Murmur.RQhash (Murmur.row_bytes rowAddr));
  nh ← gets numHashes;
  query_loop h (Z.to_nat nh) 0.

Definition del (rowAddr : Z) : comp t unit :=
  h ← lift (Murmur.RQhash (Murmur.row_bytes rowAddr));
  nh ← gets numHashes;
  for_ (Z.to_nat nh) 0 (fun n =>
    '(i, v) ← probe h n; when_ (negb (v =? 0)) (write_entry i (u32 (v - 1)))).

(** ** The represented multiset *)

(** The counters a row hashes to, one per hash function. *)
Definition row_hash (r : Z) : Z * Z :=
  match Murmur.RQhash (Murmur.row_bytes r) with Ok h => h | Fault _ => (0, 0) end.
Definition pos (size : Z) (h : Z * Z) (n : Z) : Z := u64 (h.1 + u64 (n * h.2)) mod size.

(** How many of the first [k] hash functions send the row to counter [i]. *)
Fixpoint hits (size : Z) (h : Z * Z) (k : nat) (i : Z) : Z :=
  match k with
  | O => 0
  | S k' => hits size h k' i + Z.b2z (pos size h (Z.of_nat k') =? i)
  end.

(** The counters of a filter that holds the rows [M] (with repetitions). *)
Definition total (size : Z) (nh : nat) (M : list Z) (i : Z) : Z :=
  lsum (fun r => hits size (row_hash r) nh i) M.

Record represents (f : t) (M : list Z) : Prop := {
  rep_size : 0 < numEntries f;
  rep_len : zlen (entries f) = numEntries f;
  rep_rows : Forall (in_width 32) M;
  rep_bound : numHashes f * zlen M < 2 ^ 32;
  rep_entries : forall i, 0 <= i < numEntries f ->
    entries f !! i = Some (total (numEntries f) (Z.to_nat (numHashes f)) M i) }.

Lemma hits_range size h k i : 0 <= hits size h k i <= Z.of_nat k.
Proof. induction k as [|k IH]; cbn [hits]; [lia|]. destruct (_ =? i); cbn [Z.b2z]; lia. Qed.

Lemma hits_mono size h k k' i : (k <= k')%nat -> hits size h k i <= hits size h k' i.
Proof.
  induction 1 as [|k' _ IH]; [done|]. cbn [hits]. destruct (_ =? i); cbn [Z.b2z]; lia.
Qed.

Lemma total_range size nh M i : 0 <= total size nh M i <= Z.of_nat nh * zlen M.
Proof.
  unfold total, zlen. induction M as [|r M IH]; cbn [lsum length]; [lia|].
  pose proof (hits_range size (row_hash r) nh i). lia.
Qed.

Lemma total_member size nh M i r :
  r ∈ M -> hits size (row_hash r) nh i <= total size nh M i.
Proof.
  unfold total. induction 1 as [r M|r r' M _ IH]; cbn [lsum].
  - pose proof (total_range size nh M i). unfold total in *. lia.
  - pose proof (hits_range size (row_hash r') nh i). lia.
Qed.

Lemma total_permutation size nh M M' i : M ≡ₚ M' -> total size nh M i = total size nh M' i.
Proof. unfold total. induction 1; cbn [lsum]; lia. Qed.

Lemma row_hash_ok r : in_width 32 r -> Murmur.RQhash (Murmur.row_bytes r) = Ok (row_hash r).
Proof. intros Hr. unfold row_hash. by rewrite Murmur.RQhash_row. Qed.

Lemma pos_range size h n : 0 < size -> 0 <= pos size h n < size.
Proof. intros. by apply Z.mod_pos_bound. Qed.

(** One probe reads the counter of its hash function. *)
Lemma probe_spec f h n v Q :
  0 < numEntries f -> entries f !! pos (numEntries f) h n = Some v ->
  Q (pos (numEntries f) h n, v) f -> wp (probe h n) f Q.
Proof.
  intros Hs Hv HQ. unfold probe. wp_steps. unfold nthHash. apply rp_umod; [lia|]. wp_steps.
  by eapply rp_aread.
Qed.

Lemma write_entry_spec f i v Q :
  0 <= i < zlen (entries f) -> Q tt (f <| entries := <[i := v]> (entries f) |>) ->
  wp (write_entry i v) f Q.
Proof. intros Hi HQ. unfold write_entry. wp_steps. apply rp_awrite; [done|]. by wp_steps. Qed.

(** ** Adding, deleting, querying *)

Section Loop.
Context (f0 : t) (base : Z -> Z) (h : Z * Z).
Context (Hsize : 0 < numEntries f0) (Hbase : forall i, 0 <= base i).

(** After [n] rounds of a loop that shifts every probed counter by [sgn]. *)
Definition shifted (sgn n : Z) (f : t) : Prop :=
  numEntries f = numEntries f0 /\ numHashes f = numHashes f0 /\
  zlen (entries f) = numEntries f0 /\
  forall i, 0 <= i < numEntries f0 ->
    entries f !! i = Some (base i + sgn * hits (numEntries f0) h (Z.to_nat n) i).

Lemma shifted_step sgn n f i :
  0 <= n -> shifted sgn n f -> i = pos (numEntries f0) h n ->
  shifted sgn (n + 1)
    (f <| entries := <[i := base i + sgn * hits (numEntries f0) h (Z.to_nat n) i + sgn]> (entries f) |>).
Proof.
  intros Hn (H1 & H2 & H3 & H4) ->. unfold shifted, over. cbn.
  split_and!; [done|done|by rewrite zlen_insert|]. intros i Hi.
  replace (Z.to_nat (n + 1)) with (S (Z.to_nat n)) by lia. cbn [hits].
  rewrite Z2Nat.id by done. pose proof (pos_range (numEntries f0) h n Hsize).
  destruct (Z.eqb_spec (pos (numEntries f0) h n) i) as [<-|Hne]; cbn [Z.b2z].
  - rewrite zlookup_insert_eq by lia. f_equal. lia.
  - rewrite zlookup_insert_ne, H4 by done. f_equal. lia.
Qed.
End Loop.

Lemma add_spec f M r :
  represents f M -> in_width 32 r -> numHashes f * (zlen M + 1) < 2 ^ 32 ->
  wp (add r) f (fun _ f' => represents f' (r :: M) /\
    numEntries f' = numEntries f /\ numHashes f' = numHashes f).
Proof.
  intros H Hr Hb. unfold add. wp_steps. rewrite row_hash_ok by done. wp_steps.
  set (nh := Z.to_nat (numHashes f)).
  set (base := total (numEntries f) nh M).
  apply (wp_for (shifted f base (row_hash r) 1)).
  - split_and!; try done; [apply H|]. intros i Hi. rewrite (rep_entries _ _ H i Hi).
    change (Z.to_nat 0) with O. cbn [hits]. fold nh. fold base. f_equal. lia.
  - intros n f1 Hn Hs. pose proof Hs as (E1 & E2 & E3 & E4).
    pose proof (pos_range (numEntries f) (row_hash r) n (rep_size _ _ H)) as Hp.
    wp_step. eapply probe_spec; rewrite ?E1; [apply H|by apply E4|]. wp_steps.
    apply write_entry_spec; [lia|].
    pose proof (hits_range (numEntries f) (row_hash r) (Z.to_nat n) (pos (numEntries f) (row_hash r) n)).
    pose proof (total_range (numEntries f) nh M (pos (numEntries f) (row_hash r) n)) as Htot.
    assert (Hnh : Z.of_nat nh = numHashes f) by lia. rewrite Hnh in Htot.
    rewrite u32_small by (unfold base; lia).
    eapply (shifted_step f base (row_hash r)); [apply H|lia|done|done].
  - intros f' (E1 & E2 & E3 & E4). split; [|done]. rewrite Z.add_0_l, Nat2Z.id in E4.
    split; rewrite ?E1, ?E2; try done; [apply H|by constructor; [|apply H]| |].
    + unfold zlen in *. cbn [length]. lia.
    + intros i Hi. rewrite (E4 i Hi). f_equal. unfold total, base, total. cbn [lsum].
      fold nh. lia.
Qed.

Lemma del_spec f M r :
  represents f (r :: M) -> 
  wp (del r) f (fun _ f' => represents f' M /\
    numEntries f' = numEntries f /\ numHashes f' = numHashes f).
Proof.
  intros H. pose proof (Forall_inv (rep_rows _ _ H)) as Hr.
  unfold del. wp_steps. rewrite row_hash_ok by done. wp_steps.
  set (nh := Z.to_nat (numHashes f)).
  set (base := total (numEntries f) nh (r :: M)).
  apply (wp_for (shifted f base (row_hash r) (-1))).
  - split_and!; try done; [apply H|]. intros i Hi. rewrite (rep_entries _ _ H i Hi).
    change (Z.to_nat 0) with O. cbn [hits]. fold nh. fold base. f_equal. lia.
  - intros n f1 Hn Hs. pose proof Hs as (E1 & E2 & E3 & E4).
    set (i := pos (numEntries f) (row_hash r) n).
    pose proof (pos_range (numEntries f) (row_hash r) n (rep_size _ _ H)) as Hp. fold i in Hp.
    wp_step. eapply probe_spec; rewrite ?E1; [apply H|by apply E4|]. fold i.
    pose proof (hits_range (numEntries f) (row_hash r) (Z.to_nat n) i).
    assert (Hlt : hits (numEntries f) (row_hash r) (Z.to_nat n) i < base i <= Z.of_nat nh * zlen (r :: M)).
    { pose proof (total_range (numEntries f) nh (r :: M) i). split; [|unfold base; lia].
      pose proof (total_member (numEntries f) nh (r :: M) i r ltac:(constructor)).
      pose proof (hits_mono (numEntries f) (row_hash r) (S (Z.to_nat n)) nh i ltac:(lia)) as Hm.
      cbn [hits] in Hm. rewrite Z2Nat.id in Hm by lia. fold i in Hm. rewrite Z.eqb_refl in Hm.
      cbn [Z.b2z] in Hm. unfold base. lia. }
    assert (Hnh : Z.of_nat nh = numHashes f) by lia. rewrite Hnh in *.
    pose proof (rep_bound _ _ H). wp_steps. apply wp_when; intros Hz; [|lia].
    apply write_entry_spec; [lia|]. rewrite u32_small by lia.
    replace (base i + -1 * hits (numEntries f) (row_hash r) (Z.to_nat n) i - 1)
      with (base i + -1 * hits (numEntries f) (row_hash r) (Z.to_nat n) i + -1) by lia.
    eapply (shifted_step f base (row_hash r)); [apply H|lia|done|done].
  - intros f' (E1 & E2 & E3 & E4). split; [|done]. rewrite Z.add_0_l, Nat2Z.id in E4.
    split; rewrite ?E1, ?E2; try done; [apply H|exact (Forall_inv_tail (rep_rows _ _ H))| |].
    + pose proof (rep_bound _ _ H) as Hb. unfold zlen in *. cbn [length] in Hb. nia.
    + intros i Hi. rewrite (E4 i Hi). f_equal. unfold base, total. cbn [lsum]. fold nh. lia.
Qed.

Lemma represents_permutation f M M' : M ≡ₚ M' -> represents f M -> represents f M'.
Proof.
  intros HM H. split; try apply H.
  - by rewrite <- HM; apply H.
  - unfold zlen. rewrite <- HM. apply H.
  - intros i Hi. rewrite <- (total_permutation _ _ _ _ _ HM). by apply (rep_entries _ _ H).
Qed.

(** A query of a represented filter changes nothing; it is negative only when
    one of the row's counters is zero. *)
Lemma query_loop_spec f M h k n :
  represents f M -> 0 <= n ->
  wp (query_loop h k n) f (fun b f' => f' = f /\
    (b = false -> exists j, n <= j < n + Z.of_nat k /\
       total (numEntries f) (Z.to_nat (numHashes f)) M (pos (numEntries f) h j) = 0)).
Proof.
  intros H. revert n. induction k as [|k IH]; intros n Hn; cbn [query_loop].
  { apply wp_ret. done. }
  pose proof (pos_range (numEntries f) h n (rep_size _ _ H)) as Hp.
  wp_step. eapply probe_spec; [apply H|by apply (rep_entries _ _ H)|]. wp_split; wp_steps.
  - split; [done|]. intros _. exists n. split; [lia|]. by apply Z.eqb_eq.
  - eapply wp_mono; [apply IH; lia|]. intros b f' [-> Hb]. split; [done|].
    intros ->. destruct (Hb eq_refl) as (j & ? & ?). exists j. split; [lia|done].
Qed.

Lemma query_spec f M r :
  represents f M -> in_width 32 r ->
  wp (query r) f (fun b f' => f' = f /\ (r ∈ M -> b = true)).
Proof.
  intros H Hr. unfold query. wp_steps. rewrite row_hash_ok by done. wp_steps.
  eapply wp_mono; [by apply (query_loop_spec f M)|]. intros b f' [-> Hb]. split; [done|].
  intros Hin. destruct b; [done|]. destruct (Hb eq_refl) as (j & Hj & Hz).
  set (i := pos (numEntries f) (row_hash r) j) in *. set (nh := Z.to_nat (numHashes f)) in *.
  pose proof (total_member (numEntries f) nh M i r Hin).
  pose proof (hits_mono (numEntries f) (row_hash r) (S (Z.to_nat j)) nh i ltac:(lia)) as Hm.
  cbn [hits] in Hm. rewrite Z2Nat.id in Hm by lia. fold i in Hm. rewrite Z.eqb_refl in Hm.
  cbn [Z.b2z] in Hm. pose proof (hits_range (numEntries f) (row_hash r) (Z.to_nat j) i). lia.
Qed.

(** ** Histories of insertions and deletions *)

Inductive op := Add (r : Z) | Del (r : Z).
Definition op_row (o : op) : Z := match o with Add r | Del r => r end.

Fixpoint exec (ops : list op) : comp t unit :=
  match ops with
  | [] => mret tt
  | Add r :: ops' => add r;; exec ops'
  | Del r :: ops' => del r;; exec ops'
  end.

(** Removing one occurrence of a row. *)
Fixpoint remove_one (r : Z) (M : list Z) : option (list Z) :=
  match M with
  | [] => None
  | x :: M' => if x =? r then Some M' else cons x <$> remove_one r M'
  end.

Lemma remove_one_Some r M M' : remove_one r M = Some M' -> M ≡ₚ r :: M'.
Proof.
  revert M'. induction M as [|x M IH]; intros M'; [done|]. cbn [remove_one].
  destruct (Z.eqb_spec x r) as [->|]; [by intros [= ->]|].
  destruct (remove_one r M) as [M1|]; [|done]. intros [= <-].
  rewrite (IH M1 eq_refl). apply Permutation_swap.
Qed.

(** The rows left by a history; [None] if it deletes a row that is absent. *)
Fixpoint contents (M : list Z) (ops : list op) : option (list Z) :=
  match ops with
  | [] => Some M
  | Add r :: ops' => contents (r :: M) ops'
  | Del r :: ops' => M' ← remove_one r M; contents M' ops'
  end.

Lemma exec_spec ops : forall f M M',
  represents f M -> Forall (fun o => in_width 32 (op_row o)) ops ->
  0 <= numHashes f -> numHashes f * (zlen M + zlen ops) < 2 ^ 32 ->
  contents M ops = Some M' ->
  wp (exec ops) f (fun _ f' => represents f' M').
Proof.
  induction ops as [|o ops IH]; intros f M M' H Hops Hnh Hb HM; cbn [exec contents] in *.
  { simplify_eq. by apply wp_ret. }
  pose proof (Forall_inv Hops) as Hr. apply Forall_inv_tail in Hops.
  assert (zlen (o :: ops) = zlen ops + 1) as Hlen by (unfold zlen; cbn [length]; lia).
  pose proof (zlen_nonneg ops). rewrite Hlen in Hb.
  destruct o as [r|r]; cbn in Hr; wp_step.
  - eapply wp_mono; [apply (add_spec f M); [done|done|nia]|].
    intros _ f' (H' & E1 & E2). apply (IH f' (r :: M)); try done; [lia|].
    rewrite E2. unfold zlen in *. cbn [length]. nia.
  - destruct (remove_one r M) as [M1|] eqn:Hrem; [|done]. cbn in HM.
    apply remove_one_Some in Hrem.
    eapply wp_mono; [apply (del_spec f M1 r); by eapply represents_permutation|].
    intros _ f' (H' & E1 & E2). apply (IH f' M1); try done; [lia|].
    rewrite E2. assert (zlen M = zlen M1 + 1) as HlenM.
    { unfold zlen. rewrite Hrem. cbn [length]. lia. }
    pose proof (zlen_nonneg M1). nia.
Qed.

Lemma represents_create n mc k st :
  0 < n -> represents (create n mc k st) [].
Proof.
  intros Hn. split; cbn; try done; [apply zlen_calloc; lia|unfold zlen; cbn; lia|].
  intros i Hi. by rewrite zlookup_calloc_eq.
Qed.

(** C26. No false negatives.  After any history of insertions and deletions
    that deletes only rows it holds, and is short enough for the 32-bit
    counters, no operation faults and a query of every row still held returns
    [true], leaving the filter as it was. *)
Theorem no_false_negative (n mc k : Z) (st : Z * Z * Z) (ops : list op) (M : list Z) :
  0 < n -> 0 <= k -> k * zlen ops < 2 ^ 32 ->
  Forall (fun o => in_width 32 (op_row o)) ops ->
  contents [] ops = Some M ->
  exists f, exec ops (create n mc k st) = Ok (tt, f) /\
    forall r, r ∈ M -> query r f = Ok (true, f).
Proof.
  intros Hn Hk Hb Hops HM.
  pose proof (exec_spec ops _ [] M (represents_create n mc k st Hn) Hops Hk Hb HM) as He.
  apply wp_inv in He as ([] & f & Hok & Hrep). exists f. split; [done|].
  intros r Hin. assert (in_width 32 r) as Hr.
  { pose proof (rep_rows _ _ Hrep) as HF. rewrite Forall_forall in HF. by apply HF, list_elem_of_In. }
  pose proof (query_spec f M r Hrep Hr) as Hq.
  apply wp_inv in Hq as (b & f' & Hq & -> & Hb'). by rewrite Hq, (Hb' Hin).
Qed.

Definition example_ops : list op := [Add 5; Add 77; Add 5; Del 5; Add 1000; Del 77].

Lemma no_false_negative_witness :
  exists f, exec example_ops (create 64 15 3 (0, 0, 0)) = Ok (tt, f) /\
    forall r, r ∈ [1000; 5] -> query r f = Ok (true, f).
Proof.
  apply (no_false_negative 64 15 3 (0, 0, 0) example_ops [1000; 5]).
  - lia.
  - lia.
  - vm_compute. reflexivity.
  - repeat constructor; vm_compute; congruence.
  - vm_compute. reflexivity.
Defined.
End CountingBloomFilter.
