(* ===== verification/Mitigation.v ===== *)
(** What the Rowhammer mitigations of [mem/rowhammer_mitigation.{hh,cc}]
    share: the [Decision] handed to the memory controller, the members of the
    base class [RH_Mitigation], and the per-row access census of a reset. *)
From S2P Require Import Prelude.

(** ** Decisions *)

Record Decision := mkDecision {
  mitigate : bool;
  isActionSwap : list bool;
  validAddrs : Z;
  addrs : list Z;
  remappedAddr : Z;
  delay : Z;
  SRAM_delay : Z;
  MC_delay : Z }.
#[global] Instance eta_Decision : Settable Decision := fun r =>
  mkDecision (mitigate r) (isActionSwap r) (validAddrs r) (addrs r) (remappedAddr r)
    (delay r) (SRAM_delay r) (MC_delay r).

(** [resetDecision()], the same in the three classes: [-1] and [false] land in
    [Addr] members. *)
Definition resetDecision : Decision :=
  mkDecision false (replicate 6 false) 0 (replicate 6 0) (u64 (-1)) 0 0 0.

(** [isActionSwap[validAddrs] = true; addrs[validAddrs] = a; validAddrs++;] *)
Definition push_action (a : Z) : comp Decision unit :=
  d ← get;
  sw ← lift (awrite (isActionSwap d) (validAddrs d) true);
  ad ← lift (awrite (addrs d) (validAddrs d) a);
  modify (fun d => d <| isActionSwap := sw |> <| addrs := ad |>
                     <| validAddrs ::= fun n => u32 (n + 1) |>).

(** ** The base class *)

(** The literal [64000000000]: the 64 ms refresh window in ticks (ps). *)
Definition refresh_window : Z := 64000000000.

Record RH_Mitigation := mkMitigation {
  numRows : Z;
  numBanks : Z;
  numRanks : Z;
  numChannels : Z;
  last_reset : Z;
  threshold : Z;
  decision : Decision;
  numAccessesToRow : list Z;
  moveDelay : Z;
  accDelay : Z;
  swapDelay : Z;
  virtualize_RIT : bool;
  SRAM_RQT_accDelay : Z;
  SRAM_Cache_accDelay : Z;
  SRAM_CBF_accDelay : Z;
  SRAM_RIT_accDelay : Z;
  s_num_resets : Z;
  s_num_accesses : Z;
  s_numLogRowAccesses : list Z;
  s_numRowAccesses_RH : Z }.
#[global] Instance eta_RH_Mitigation : Settable RH_Mitigation := fun r =>
  mkMitigation (numRows r) (numBanks r) (numRanks r) (numChannels r) (last_reset r)
    (threshold r) (decision r) (numAccessesToRow r) (moveDelay r) (accDelay r) (swapDelay r)
    (virtualize_RIT r) (SRAM_RQT_accDelay r) (SRAM_Cache_accDelay r) (SRAM_CBF_accDelay r)
    (SRAM_RIT_accDelay r) (s_num_resets r) (s_num_accesses r) (s_numLogRowAccesses r)
    (s_numRowAccesses_RH r).

Definition numDRAMRows (b : RH_Mitigation) : Z :=
  u32 (numRows b * numBanks b * numRanks b * numChannels b).

(** [if (currTick - last_reset >= 64000000000)] *)
Definition window_over (b : RH_Mitigation) (currTick : Z) : bool :=
  refresh_window <=? u64 (currTick - last_reset b).

Definition on_decision (m : comp Decision unit) : comp RH_Mitigation unit :=
  zoom decision (fun d b => b <| decision := d |>) m.

(** ** The access census *)

(** The inner loop over [logval]: the decade of [n], the last one open. *)
Fixpoint log_class (k : nat) (i logval n : Z) : option Z :=
  match k with
  | O => None
  | S k' =>
      let next_logval := 10 * logval in
      if (logval <=? n) && ((n <? next_logval) || (k' =? 0)%nat) then Some i
      else log_class k' (i + 1) next_logval n
  end.

Definition count_decade (k : nat) (n : Z) : comp RH_Mitigation unit :=
  match log_class k 0 1 n with
  | Some i =>
      l ← gets s_numLogRowAccesses;
      c ← lift (aread l i);
      l' ← lift (awrite l i (u64 (c + 1)));
      modify (fun b => b <| s_numLogRowAccesses := l' |>)
  | None => mret tt
  end.

Definition clear_row (rval : Z) : comp RH_Mitigation unit :=
  l ← gets numAccessesToRow; l' ← lift (awrite l rval 0);
  modify (fun b => b <| numAccessesToRow := l' |>).

(** The body of the census loop of RRS and RQ. *)
Definition census_row (rval : Z) : comp RH_Mitigation unit :=
  l ← gets numAccessesToRow;
  n ← lift (aread l rval);
  thr ← gets threshold;
  when_ (thr <=? n) (modify (fun b => b <| s_numRowAccesses_RH ::= fun c => u64 (c + 1) |>));;
  count_decade 4 n;;
  clear_row rval.

(** [numAccessesToRow[id]++] *)
Definition count_access (id : Z) : comp RH_Mitigation Z :=
  l ← gets numAccessesToRow;
  n ← lift (aread l id);
  l' ← lift (awrite l id (u32 (n + 1)));
  modify (fun b => b <| numAccessesToRow := l' |>);;
  mret (u32 (n + 1)).

(** ** Facts *)

(** A decade other than the last is [10^i <= n < 10^(i+1)]; zero has none. *)
Lemma log_class_spec k : forall i lv n, 0 < lv ->
  match log_class k i lv n with
  | Some j => i <= j < i + Z.of_nat k /\ lv * 10 ^ (j - i) <= n /\
              (n < lv * 10 ^ (j - i + 1) \/ j = i + Z.of_nat k - 1)
  | None => n < lv \/ k = O
  end.
Proof.
  induction k as [|k IH]; intros i lv n Hlv; cbn [log_class]; [by right|].
  destruct (Z.leb_spec lv n) as [Hle|]; cbn [andb].
  - destruct (Z.ltb_spec n (10 * lv)) as [Hlt|Hge]; cbn [orb].
    { rewrite Z.sub_diag. split; [lia|]. split; [lia|left; lia]. }
    destruct (Nat.eqb_spec k 0) as [->|Hk].
    { rewrite Z.sub_diag. split; [lia|]. split; [lia|right; lia]. }
    specialize (IH (i + 1) (10 * lv) n ltac:(lia)).
    destruct (log_class k (i + 1) (10 * lv) n) as [j|]; [|destruct IH; lia].
    destruct IH as (Hj & Hlo & Hhi). split; [lia|].
    assert (forall e, 0 <= e -> lv * 10 ^ (e + 1) = 10 * lv * 10 ^ e) as Hpow.
    { intros e He. rewrite Z.pow_add_r by lia. lia. }
    split.
    + replace (j - i) with (j - (i + 1) + 1) by lia. rewrite Hpow; lia.
    + destruct Hhi as [Hhi|Hhi]; [left|right; lia].
      replace (j - i + 1) with (j - (i + 1) + 1 + 1) by lia. rewrite Hpow by lia. done.
  - specialize (IH (i + 1) (10 * lv) n ltac:(lia)).
    destruct (log_class k (i + 1) (10 * lv) n) as [j|] eqn:E; [|left; lia].
    destruct IH as (Hj & Hlo & _).
    assert (1 <= 10 ^ (j - (i + 1))) by (assert (0 < 10 ^ (j - (i + 1))) by (apply Z.pow_pos_nonneg; lia); lia).
    nia.
Qed.

(** The members a census may change are the three it counts in. *)
Definition same_setup (b b' : RH_Mitigation) : Prop :=
  numRows b' = numRows b /\ numBanks b' = numBanks b /\ numRanks b' = numRanks b /\
  numChannels b' = numChannels b /\ last_reset b' = last_reset b /\
  threshold b' = threshold b /\ decision b' = decision b /\
  moveDelay b' = moveDelay b /\ accDelay b' = accDelay b /\ swapDelay b' = swapDelay b /\
  virtualize_RIT b' = virtualize_RIT b /\
  zlen (numAccessesToRow b') = zlen (numAccessesToRow b) /\
  zlen (s_numLogRowAccesses b') = zlen (s_numLogRowAccesses b).

Lemma same_setup_refl b : same_setup b b.
Proof. done. Qed.
#[export] Hint Resolve same_setup_refl : core.

Lemma same_setup_trans b1 b2 b3 : same_setup b1 b2 -> same_setup b2 b3 -> same_setup b1 b3.
Proof. unfold same_setup. naive_solver congruence. Qed.

Lemma count_decade_spec k n b Q :
  Z.of_nat k <= zlen (s_numLogRowAccesses b) ->
  (forall b', same_setup b b' -> numAccessesToRow b' = numAccessesToRow b -> Q tt b') ->
  wp (count_decade k n) b Q.
Proof.
  intros Hl HQ. unfold count_decade. pose proof (log_class_spec k 0 1 n ltac:(lia)) as Hc.
  destruct (log_class k 0 1 n) as [j|]; [|apply wp_ret, HQ; done].
  destruct Hc as [Hj _]. wp_steps.
  destruct (zlookup_is_Some (s_numLogRowAccesses b) j) as [c Hcj]; [lia|].
  eapply rp_aread; [exact Hcj|]. wp_steps. apply rp_awrite; [lia|]. wp_steps.
  apply HQ; [|done]. unfold same_setup, over. cbn. by rewrite zlen_insert.
Qed.

Lemma clear_row_spec rval b Q :
  0 <= rval < zlen (numAccessesToRow b) ->
  Q tt (b <| numAccessesToRow := <[rval := 0]> (numAccessesToRow b) |>) ->
  wp (clear_row rval) b Q.
Proof. intros Hr HQ. unfold clear_row. wp_steps. apply rp_awrite; [done|]. by wp_steps. Qed.

Lemma census_row_spec rval b Q :
  0 <= rval < zlen (numAccessesToRow b) -> 4 <= zlen (s_numLogRowAccesses b) ->
  (forall b', same_setup b b' ->
     numAccessesToRow b' = <[rval := 0]> (numAccessesToRow b) -> Q tt b') ->
  wp (census_row rval) b Q.
Proof.
  intros Hr Hl HQ. unfold census_row. wp_steps.
  destruct (zlookup_is_Some _ _ Hr) as [n Hn]. eapply rp_aread; [exact Hn|]. wp_steps.
  apply wp_when; intros _; wp_steps.
  all: apply count_decade_spec; [cbn; lia|]; intros b1 Hs E1.
  all: apply clear_row_spec; [by rewrite E1|].
  all: apply HQ; unfold over; cbn in *; [|by rewrite E1].
  all: unfold same_setup in *; cbn in *; rewrite zlen_insert, E1; naive_solver congruence.
Qed.

Lemma count_access_spec id b n Q :
  numAccessesToRow b !! id = Some n ->
  Q (u32 (n + 1)) (b <| numAccessesToRow := <[id := u32 (n + 1)]> (numAccessesToRow b) |>) ->
  wp (count_access id) b Q.
Proof.
  intros Hn HQ. unfold count_access. wp_steps. eapply rp_aread; [exact Hn|]. wp_steps.
  apply rp_awrite; [by eapply zlookup_lt|]. by wp_steps.
Qed.
