(* ===== verification/BlockHammer.v ===== *)
(** BlockHammer ([mem/rowhammer_mitigation.cc], class [BlockHammer]): rows
    activated more often than a blacklist threshold within a refresh window
    are throttled by a delay in the memory controller. *)
From S2P Require Import Prelude Mitigation.

Module BlockHammer.

Record t := mkBH {
  base : RH_Mitigation;
  BlackListThreshold : Z }.
#[global] Instance eta_t : Settable t := fun r => mkBH (base r) (BlackListThreshold r).

Definition on_base {A} (m : comp RH_Mitigation A) : comp t A :=
  zoom base (fun b r => r <| base := b |>) m.

(** ** Operations *)

(** The constructor initialises the members listed here; the others hold what
    the allocator left ([raw]) until the memory controller sets them. *)
Definition create (raw : RH_Mitigation)
    (__threshold __numRows __BLThreshold __numBanks __numRanks __numChannels : Z) : t :=
  let b := raw <| threshold := __threshold |> <| numRows := __numRows |>
               <| numBanks := __numBanks |> <| numRanks := __numRanks |>
               <| numChannels := __numChannels |> <| last_reset := 0 |> in
  mkBH (b <| numAccessesToRow := calloc (numDRAMRows b) 0 |>
          <| s_numRowAccesses_RH := 0 |>
          <| s_numLogRowAccesses := replicate 4 0 |>) __BLThreshold.

(** The body of the reset loop: the fourth class counts blacklisted rows. *)
Definition bh_census_row (bl rval : Z) : comp RH_Mitigation unit :=
  l ← gets numAccessesToRow;
  n ← lift (aread l rval);
  thr ← gets threshold;
  when_ (thr <=? n) (modify (fun b => b <| s_numRowAccesses_RH ::= fun c => u64 (c + 1) |>));;
  when_ (bl <=? n) (
    logs ← gets s_numLogRowAccesses;
    c ← lift (aread logs 3);
    logs' ← lift (awrite logs 3 (u64 (c + 1)));
    modify (fun b => b <| s_numLogRowAccesses := logs' |>));;
  count_decade 3 n;;
  clear_row rval.

Definition reset : comp t unit :=
  on_base (modify (fun b => b <| s_num_resets ::= fun c => u64 (c + 1) |>));;
  r ← get;
  on_base (for_ (Z.to_nat (numDRAMRows (base r))) 0 (bh_census_row (BlackListThreshold r))).

(** The activations the row has left in the window, as the code computes
    them: [threshold - numAccessesToRow[DRAMRowID] - 1] on [uint32_t]. *)
Definition ACTs_Remaining (thr n : Z) : Z :=
  if u32 (n - 1) <? thr then u32 (u32 (thr - n) - 1) else 1.

Definition throttle (currTick n : Z) : comp t unit :=
  r ← get;
  let b := base r in
  when_ (BlackListThreshold r <=? n) (
    d ← lift (udiv (u64 (u64 (refresh_window + last_reset b) - currTick))
                   (ACTs_Remaining (threshold b) n));
    on_base (on_decision (modify (fun dec => dec <| MC_delay := d |> <| mitigate := true |>)))).

Definition access (currTick rowID bankID rankID channelID : Z) : comp t Decision :=
  on_base (modify (fun b => b <| s_num_accesses ::= fun c => u64 (c + 1) |>
                              <| decision := resetDecision |>));;
  r ← get;
  when_ (window_over (base r) currTick) (
    on_base (modify (fun b => b <| last_reset := currTick |>));; reset);;
  let DRAMRowID := u32 (bankID + numBanks (base r) * rowID) in
  n ← on_base (count_access DRAMRowID);
  throttle currTick n;;
  on_base (b ← get;
           on_decision (modify (fun dec => dec <| SRAM_delay ::= fun s => u64 (s + SRAM_CBF_accDelay b) |>)));;
  gets (fun r => decision (base r)).

(** ** The arithmetic of the throttle *)

(** Short of the threshold by at least two, the count of remaining
    activations is exact. *)
Lemma ACTs_Remaining_exact thr n :
  in_width 32 thr -> 1 <= n -> n + 1 < thr -> ACTs_Remaining thr n = thr - n - 1.
Proof.
  unfold in_width, ACTs_Remaining. intros Ht Hn Hlt.
  rewrite u32_small by lia. destruct (Z.ltb_spec (n - 1) thr); [|lia].
  rewrite (u32_small (thr - n)) by lia. apply u32_small. lia.
Qed.

(** One short of the threshold it is zero. *)
Lemma ACTs_Remaining_zero thr n :
  in_width 32 thr -> 1 <= n -> n + 1 = thr -> ACTs_Remaining thr n = 0.
Proof.
  unfold in_width, ACTs_Remaining. intros Ht Hn <-.
  rewrite u32_small by lia. destruct (Z.ltb_spec (n - 1) (n + 1)); [|lia].
  replace (n + 1 - n) with 1 by lia. done.
Qed.

(** At the threshold it wraps around to the largest [uint32_t]. *)
Lemma ACTs_Remaining_wrap thr :
  in_width 32 thr -> 1 <= thr -> ACTs_Remaining thr thr = 2 ^ 32 - 1.
Proof.
  unfold in_width, ACTs_Remaining. intros Ht Hn.
  rewrite u32_small by lia. destruct (Z.ltb_spec (thr - 1) thr); [|lia].
  by rewrite Z.sub_diag.
Qed.

Lemma ACTs_Remaining_over thr n :
  in_width 32 n -> thr < n -> 0 <= thr -> ACTs_Remaining thr n = 1.
Proof.
  unfold in_width, ACTs_Remaining. intros Hn Hlt H0.
  rewrite u32_small by lia. by destruct (Z.ltb_spec (n - 1) thr); [lia|].
Qed.

(** ** One access inside a window *)

(** The state an access of [rowID] inside the window meets: its counter [c]. *)
Record ready (r : t) (currTick id c : Z) : Prop := {
  rd_window : last_reset (base r) <= currTick < last_reset (base r) + refresh_window;
  rd_ticks : 0 <= last_reset (base r) /\ last_reset (base r) + refresh_window < 2 ^ 64;
  rd_thr : in_width 32 (threshold (base r));
  rd_id : u32 id = id;
  rd_count : numAccessesToRow (base r) !! id = Some c;
  rd_c : 0 <= c < 2 ^ 32 - 1 }.

(** What is left of the window. *)
Definition remaining (r : t) (currTick : Z) : Z := last_reset (base r) + refresh_window - currTick.

(** The decision of an access whose counter becomes [n]. *)
Definition decide_access (r : t) (currTick n : Z) : result Decision :=
  let thr := threshold (base r) in
  let sram := u64 (SRAM_CBF_accDelay (base r)) in
  if n <? BlackListThreshold r then Ok (resetDecision <| SRAM_delay := sram |>)
  else
    let a := if n + 1 <? thr then thr - n - 1
             else if n + 1 =? thr then 0
             else if n =? thr then 2 ^ 32 - 1 else 1 in
    d ← udiv (remaining r currTick) a;
    mret (resetDecision <| MC_delay := d |> <| mitigate := true |> <| SRAM_delay := sram |>).

Lemma ACTs_Remaining_cases thr n :
  in_width 32 thr -> 1 <= n < 2 ^ 32 ->
  ACTs_Remaining thr n =
    if n + 1 <? thr then thr - n - 1
    else if n + 1 =? thr then 0
    else if n =? thr then 2 ^ 32 - 1 else 1.
Proof.
  intros Ht Hn. destruct (Z.ltb_spec (n + 1) thr); [by apply ACTs_Remaining_exact; [|lia|]|].
  destruct (Z.eqb_spec (n + 1) thr); [by apply ACTs_Remaining_zero; [|lia|]|].
  destruct (Z.eqb_spec n thr) as [->|]; [apply ACTs_Remaining_wrap; [done|lia]|].
  unfold in_width in Ht. apply ACTs_Remaining_over; [split|..]; lia.
Qed.

(** An access inside the window is the counter update and [decide_access]. *)
Lemma access_in_window r currTick rowID bankID rankID channelID c :
  let id := u32 (bankID + numBanks (base r) * rowID) in
  ready r currTick id c ->
  match decide_access r currTick (c + 1) with
  | Ok d => exists r', access currTick rowID bankID rankID channelID r = Ok (d, r') /\
              numAccessesToRow (base r') = <[id := c + 1]> (numAccessesToRow (base r))
  | Fault f => access currTick rowID bankID rankID channelID r = Fault f
  end.
Proof.
  intros id [Hw Ht Hthr Hid Hc Hcr].
  assert (Hwin : window_over (base r) currTick = false).
  { unfold window_over, refresh_window in *. rewrite u64_small by lia. apply Z.leb_gt. lia. }
  assert (Hrem : u64 (u64 (refresh_window + last_reset (base r)) - currTick) = remaining r currTick).
  { unfold remaining, refresh_window in *. rewrite (u64_small (_ + _)) by lia.
    rewrite u64_small by lia. lia. }
  assert (Hn : u32 (c + 1) = c + 1) by (apply u32_small; lia).
  unfold access, on_base, on_decision, zoom, mbind, comp_bind, modify, get, gets, when_, over.
  cbn -[id window_over resetDecision u32 u64].
  replace (window_over _ currTick) with false by (rewrite <- Hwin; done).
  cbn -[id resetDecision u32 u64]. fold id.
  unfold count_access, lift, aread, awrite, mbind, comp_bind, gets, modify, over.
  pose proof (zlookup_lt _ _ _ Hc) as Hlt.
  cbn -[id resetDecision u32 u64]. rewrite Hc.
  destruct (Z.leb_spec 0 id), (Z.ltb_spec id (zlen (numAccessesToRow (base r)))); try lia.
  cbn -[id resetDecision u32 u64]. rewrite Hn.
  unfold throttle, get, mbind, comp_bind, when_, lift. cbn -[id resetDecision u32 u64 udiv ACTs_Remaining].
  unfold decide_access. rewrite Z.ltb_antisym.
  destruct (BlackListThreshold r <=? c + 1); cbn -[id resetDecision u32 u64 udiv ACTs_Remaining].
  - rewrite Hrem, ACTs_Remaining_cases by (done || lia).
    destruct (udiv _ _) as [d|f]; [|done]. eexists. done.
  - eexists. done.
Qed.

(** ** Reset *)

Lemma bh_census_row_spec bl rval b Q :
  0 <= rval < zlen (numAccessesToRow b) -> 4 <= zlen (s_numLogRowAccesses b) ->
  (forall b', same_setup b b' ->
     numAccessesToRow b' = <[rval := 0]> (numAccessesToRow b) -> Q tt b') ->
  wp (bh_census_row bl rval) b Q.
Proof.
  intros Hr Hl HQ. unfold bh_census_row. wp_steps.
  destruct (zlookup_is_Some _ _ Hr) as [n Hn]. eapply rp_aread; [exact Hn|]. wp_steps.
  destruct (zlookup_is_Some (s_numLogRowAccesses b) 3) as [c Hc]; [lia|].
  apply wp_when; intros _; wp_steps; apply wp_when; intros _; wp_steps.
  all: try (eapply rp_aread; [exact Hc|]; wp_steps; apply rp_awrite; [cbn; lia|]; wp_steps).
  all: apply count_decade_spec; [cbn; rewrite ?zlen_insert; lia|]; intros b1 Hs E1.
  all: apply clear_row_spec; [by rewrite E1|].
  all: apply HQ; unfold over in *; cbn in *; [|by rewrite E1].
  all: unfold same_setup in *; cbn in *; rewrite ?zlen_insert, ?E1 in *; naive_solver congruence.
Qed.

(** Clearing rows [0 .. i) of a counter array. *)
Definition cleared (l l' : list Z) (i : Z) : Prop :=
  zlen l' = zlen l /\ forall j v, l' !! j = Some v -> j < i -> v = 0.

Lemma cleared_step l l' i :
  cleared l l' i -> cleared l (<[i := 0]> l') (i + 1).
Proof.
  intros [Hl Hv]. split; [by rewrite zlen_insert|].
  intros j v [(<- & -> & _)|[Hne Hj]]%zlookup_insert Hlt; [done|]. eapply Hv; [done|lia].
Qed.

Lemma reset_spec r :
  zlen (numAccessesToRow (base r)) = numDRAMRows (base r) ->
  zlen (s_numLogRowAccesses (base r)) = 4 ->
  wp reset r (fun _ r' => same_setup (base r) (base r') /\
    BlackListThreshold r' = BlackListThreshold r /\
    numAccessesToRow (base r') = calloc (numDRAMRows (base r)) 0).
Proof.
  intros Hlen Hlog. unfold reset, on_base. wp_steps.
  set (b0 := (base r) <| s_num_resets ::= fun c => u64 (c + 1) |>).
  pose proof (zlen_nonneg (numAccessesToRow (base r))) as Hnn. rewrite Hlen in Hnn.
  apply (wp_for (fun i b => same_setup b0 b /\
           cleared (numAccessesToRow b0) (numAccessesToRow b) i)).
  - split; [done|]. split; [done|]. intros j v Hj%zlookup_lt ?. lia.
  - intros i b Hi [Hs Hc]. pose proof Hc as [Hl _].
    pose proof Hs as (E & _ & _ & _ & _ & _ & _ & _ & _ & _ & _ & _ & EL). cbn in EL, Hl.
    apply bh_census_row_spec; [cbn in Hi; unfold over in Hi; cbn in Hi|lia|].
    + rewrite Hl, Hlen. unfold numDRAMRows in *. cbn in Hi. lia.
    + intros b' Hs' E'. split; [by eapply same_setup_trans|]. rewrite E'. by apply cleared_step.
  - intros b [Hs [Hl Hc]]. cbn. split; [exact Hs|]. split; [done|].
    apply list_eq. intros n. rewrite <- !zlookup_nat.
    assert (Hl' : zlen (numAccessesToRow b) = numDRAMRows (base r)) by (rewrite Hl; exact Hlen).
    destruct (decide (Z.of_nat n < numDRAMRows (base r))) as [Hlt|Hge].
    + rewrite zlookup_calloc_eq by lia.
      destruct (zlookup_is_Some (numAccessesToRow b) (Z.of_nat n)) as [v Hv]; [lia|].
      rewrite Hv. f_equal. eapply Hc; [exact Hv|].
      unfold over, numDRAMRows in *. cbn in *. lia.
    + destruct (_ !! _) as [v|] eqn:Hv; [apply zlookup_lt in Hv; lia|].
      symmetry. destruct (calloc _ _ !! _) as [v|] eqn:Hv'; [|done].
      apply zlookup_calloc in Hv'. lia.
Qed.

(** ** Properties *)

(** C28. Throttling.  An access in the current window to a row that it leaves short
    of the threshold by at least two activations (so that one is left before the
    last) adds one to the count of that row and of no other.  If the new count is
    below the blacklist threshold the row is not delayed; otherwise it is delayed by
    the time left in the window divided by the activations it has left, so that at
    this pace it cannot use them up before the window ends.  With fewer activations
    left the code divides by zero or wraps around
    ([throttle_divides_by_zero], [throttle_wraps]). *)
Theorem throttle_exact (r : t) (currTick rowID bankID rankID channelID c : Z) :
  let id := u32 (bankID + numBanks (base r) * rowID) in
  let acts := threshold (base r) - (c + 1) - 1 in
  ready r currTick id c -> 0 < acts ->
  exists d r', access currTick rowID bankID rankID channelID r = Ok (d, r') /\
    numAccessesToRow (base r') = <[id := c + 1]> (numAccessesToRow (base r)) /\
    (c + 1 < BlackListThreshold r -> mitigate d = false /\ MC_delay d = 0) /\
    (BlackListThreshold r <= c + 1 -> mitigate d = true /\
       MC_delay d = remaining r currTick / acts /\
       remaining r currTick < acts * (MC_delay d + 1)).
Proof.
  intros id acts Hr Hacts.
  pose proof (access_in_window r currTick rowID bankID rankID channelID c Hr) as Ha.
  unfold decide_access in Ha. cbv zeta in Ha.
  replace (c + 1 + 1 <? threshold (base r)) with true in Ha by (symmetry; apply Z.ltb_lt; lia).
  destruct (Z.ltb_spec (c + 1) (BlackListThreshold r)).
  - destruct Ha as (r' & Ha & Hcount). eexists _, r'. split; [exact Ha|]. split; [exact Hcount|].
    unfold over. cbn. split; [done|lia].
  - fold acts in Ha. unfold udiv in Ha. destruct (Z.eqb_spec acts 0); [lia|].
    destruct Ha as (r' & Ha & Hcount). eexists _, r'. split; [exact Ha|]. split; [exact Hcount|].
    unfold over. cbn. split; [lia|]. intros _. split_and!; [done|done|].
    pose proof (Z.div_mod (remaining r currTick) acts ltac:(lia)).
    pose proof (Z.mod_pos_bound (remaining r currTick) acts Hacts). lia.
Qed.

(** The access that brings a blacklisted row to one activation short of
    the threshold divides by zero. *)
Theorem throttle_divides_by_zero (r : t) (currTick rowID bankID rankID channelID c : Z) :
  ready r currTick (u32 (bankID + numBanks (base r) * rowID)) c ->
  BlackListThreshold r <= c + 1 -> c + 2 = threshold (base r) ->
  access currTick rowID bankID rankID channelID r = Fault DivByZero.
Proof.
  intros Hr Hbl Hc.
  pose proof (access_in_window r currTick rowID bankID rankID channelID c Hr) as Ha.
  unfold decide_access in Ha. cbv zeta in Ha.
  replace (c + 1 <? BlackListThreshold r) with false in Ha by (symmetry; apply Z.ltb_ge; lia).
  replace (c + 1 + 1 <? threshold (base r)) with false in Ha by (symmetry; apply Z.ltb_ge; lia).
  replace (c + 1 + 1 =? threshold (base r)) with true in Ha by (symmetry; apply Z.eqb_eq; lia).
  exact Ha.
Qed.

(** C29. The access that brings a blacklisted row to the threshold is let
    through with almost no delay (at most 14 ps), because the count of
    remaining activations wraps around. *)
Theorem throttle_wraps (r : t) (currTick rowID bankID rankID channelID c : Z) :
  ready r currTick (u32 (bankID + numBanks (base r) * rowID)) c ->
  BlackListThreshold r <= c + 1 -> c + 1 = threshold (base r) ->
  exists d r', access currTick rowID bankID rankID channelID r = Ok (d, r') /\
    mitigate d = true /\ 0 <= MC_delay d <= 14.
Proof.
  intros Hr Hbl Hc.
  pose proof (access_in_window r currTick rowID bankID rankID channelID c Hr) as Ha.
  unfold decide_access in Ha. cbv zeta in Ha.
  replace (c + 1 <? BlackListThreshold r) with false in Ha by (symmetry; apply Z.ltb_ge; lia).
  replace (c + 1 + 1 <? threshold (base r)) with false in Ha by (symmetry; apply Z.ltb_ge; lia).
  replace (c + 1 + 1 =? threshold (base r)) with false in Ha by (symmetry; apply Z.eqb_neq; lia).
  rewrite (proj2 (Z.eqb_eq _ _) Hc) in Ha. destruct Ha as (r' & Ha & _).
  eexists _, r'. split; [exact Ha|]. unfold over. cbn [mitigate MC_delay]. split; [done|].
  pose proof (rd_window _ _ _ _ Hr) as Hw. unfold remaining, refresh_window in *.
  split; [apply Z.div_pos; lia|]. apply Z.lt_succ_r, Z.div_lt_upper_bound; lia.
Qed.

(** ** Witnesses *)

Definition raw_base : RH_Mitigation :=
  mkMitigation 0 0 0 0 0 0 resetDecision [] 0 0 0 false 0 0 5 0 0 0 [] 0.
(** Threshold 8, blacklist at 4, two banks of four rows; row 1 of bank 1 has
    been activated [c] times. *)
Definition example_bh (c : Z) : t :=
  let r := create raw_base 8 4 4 2 1 1 in
  r <| base ::= fun b => b <| numAccessesToRow := <[3 := c]> (numAccessesToRow b) |> |>.

Lemma example_ready c : 0 <= c < 9 -> ready (example_bh c) 1000 3 c.
Proof.
  intros Hc. split; unfold in_width, refresh_window; cbn; try lia; [done|].
  by apply zlookup_insert_eq.
Qed.

Lemma throttle_exact_witness :
  exists d r', access 1000 1 1 0 0 (example_bh 4) = Ok (d, r') /\
    numAccessesToRow (base r') = <[3 := 4 + 1]> (numAccessesToRow (base (example_bh 4))) /\
    (4 + 1 < BlackListThreshold (example_bh 4) -> mitigate d = false /\ MC_delay d = 0) /\
    (BlackListThreshold (example_bh 4) <= 4 + 1 -> mitigate d = true /\
       MC_delay d = remaining (example_bh 4) 1000 / 2 /\
       remaining (example_bh 4) 1000 < 2 * (MC_delay d + 1)).
Proof. apply (throttle_exact (example_bh 4) 1000 1 1 0 0 4); [apply example_ready; lia|done]. Defined.

Lemma throttle_divides_by_zero_witness :
  access 1000 1 1 0 0 (example_bh 6) = Fault DivByZero.
Proof.
  apply (throttle_divides_by_zero (example_bh 6) 1000 1 1 0 0 6);
    [apply example_ready; lia|done|done].
Defined.

Lemma throttle_wraps_witness :
  exists d r', access 1000 1 1 0 0 (example_bh 7) = Ok (d, r') /\
    mitigate d = true /\ 0 <= MC_delay d <= 14.
Proof.
  apply (throttle_wraps (example_bh 7) 1000 1 1 0 0 7); [apply example_ready; lia|done|done].
Defined.
End BlockHammer.
