(* ===== verification/RRS.v ===== *)
(** Randomized Row Swap ([mem/rowhammer_mitigation.cc], class
    [Randomized_Row_Swap]): aggressor rows are swapped with random rows, and a
    row-indirection table (RIT) per bank records the pairs. *)
From S2P Require Import Prelude Float64 Detector Mitigation.
From Stdlib Require Import SpecFloat.

Module Randomized_Row_Swap.

Abbreviation bank := Misra_Gries.bank.

(** ** State *)

Record RIT_Entry := mkTuple {
  valid : bool;
  locked : bool;
  origRowID : Z;
  remappedRowID : Z }.
#[global] Instance eta_RIT_Entry : Settable RIT_Entry := fun r =>
  mkTuple (valid r) (locked r) (origRowID r) (remappedRowID r).
Definition zero_tuple : RIT_Entry := mkTuple false false 0 0.

Record RIT := mkRIT {
  tuples : list RIT_Entry;
  rowHasEntry : list Z;
  valid_tuples : Z }.
#[global] Instance eta_RIT : Settable RIT := fun r =>
  mkRIT (tuples r) (rowHasEntry r) (valid_tuples r).

Record Stats := mkStats {
  s_remapped_row_accessed : Z;
  s_clean_install : Z;
  s_only_unswap : Z;
  s_clean_reswap : Z;
  s_dirty_reswap : Z;
  s_randRowGenerationFailed : Z }.
#[global] Instance eta_Stats : Settable Stats := fun r =>
  mkStats (s_remapped_row_accessed r) (s_clean_install r) (s_only_unswap r)
    (s_clean_reswap r) (s_dirty_reswap r) (s_randRowGenerationFailed r).

Record t := mkRRS {
  base : RH_Mitigation;
  tables : gmap bank RIT;
  maxValidTuples : Z;
  numTuples : Z;
  detector : Misra_Gries.t;
  stats : Stats;
  rand_calls : nat }.
#[global] Instance eta_t : Settable t := fun r =>
  mkRRS (base r) (tables r) (maxValidTuples r) (numTuples r) (detector r) (stats r) (rand_calls r).

(** ** Construction *)

(** [uint32_t(1.428571*float(demandTuples))]: conversion to binary32, product
    with the binary64 literal, truncation. *)
Definition lit_1_428571 : spec_float := SFdiv 53 1024
  (binary_normalize 53 1024 1428571 0 false) (binary_normalize 53 1024 1000000 0 false).
Definition provisioned_tuples (demandTuples : Z) : Z :=
  u32 (sf_trunc (SFmul 53 1024 lit_1_428571 (binary_normalize 24 128 demandTuples 0 false))).

Definition create (raw : RH_Mitigation) (st : Z) (det : Misra_Gries.t)
    (demandTuples __numRows __threshold __numBanks __numRanks __numChannels : Z) : t :=
  let nt := provisioned_tuples demandTuples in
  let b := raw <| threshold := __threshold |> <| numRows := __numRows |>
               <| numBanks := __numBanks |> <| numRanks := __numRanks |>
               <| numChannels := __numChannels |> <| last_reset := 0 |> in
  mkRRS (b <| numAccessesToRow := calloc (numDRAMRows b) 0 |>
           <| s_numRowAccesses_RH := 0 |> <| s_numLogRowAccesses := replicate 4 0 |>
           <| s_num_resets := 0 |> <| s_num_accesses := 0 |>)
    (list_to_map ((fun k => (k, mkRIT (calloc nt zero_tuple) (calloc __numRows 0) 0))
       <$> Misra_Gries.bank_keys __numChannels __numRanks __numBanks))
    demandTuples nt det (mkStats 0 0 0 0 0 st) 0.

Section Code.

(** The value of the [n]-th call of the C library's [rand()]. *)
Context (rand_stream : nat -> Z).

Definition on_base {A} (m : comp RH_Mitigation A) : comp t A :=
  zoom base (fun b r => r <| base := b |>) m.
Definition push (a : Z) : comp t unit := on_base (on_decision (push_action a)).
Definition count_stat (g : Stats -> Stats) : comp t unit := modify (fun r => r <| stats ::= g |>).

Definition get_table (k : bank) : comp t RIT :=
  r ← get; match tables r !! k with Some tb => mret tb | None => lift (Fault OutOfBounds) end.
Definition on_table {A} (k : bank) (m : comp RIT A) : comp t A :=
  tb ← get_table k;
  '(a, tb') ← lift (m tb);
  modify (fun r => r <| tables ::= <[k := tb']> |>);;
  mret a.

(** [detector->access(row, bank, rank, channel, isFuncLookup)] *)
Definition detect (k : bank) (row : Z) (isFuncLookup : bool) : comp t bool :=
  let '(ch, rk, bk) := k in
  zoom detector (fun d r => r <| detector := d |>)
    (Misra_Gries.access row bk rk ch isFuncLookup).

(** [rand() % numRows] *)
Definition rand_row : comp t Z :=
  r ← get;
  modify (fun r => r <| rand_calls ::= S |>);;
  lift (umod (u32 (rand_stream (rand_calls r))) (numRows (base r))).

(** ** Random partners *)

(** The three conjuncts of the guard, with their short circuit. *)
Definition eligible (k : bank) (avoidRow row : Z) : comp t bool :=
  if row =? avoidRow then mret false
  else
    tb ← get_table k;
    v ← lift (aread (rowHasEntry tb) row);
    if negb (v =? 0) then mret false
    else tracked ← detect k row true; mret (negb tracked).

Fixpoint guess_row (max_tries : nat) (k : bank) (avoidRow : Z) : comp t (option Z) :=
  match max_tries with
  | O => mret None
  | S max_tries' =>
      guess ← rand_row;
      ok ← eligible k avoidRow guess;
      if (ok : bool) then mret (Some guess) else guess_row max_tries' k avoidRow
  end.

Fixpoint scan_rows (n : nat) (ii : Z) (k : bank) (avoidRow : Z) : comp t (option Z) :=
  match n with
  | O => mret None
  | S n' =>
      ok ← eligible k avoidRow ii;
      if (ok : bool) then mret (Some ii) else scan_rows n' (ii + 1) k avoidRow
  end.

Definition generateRandomRowAddr (k : bank) (avoidRow : Z) : comp t Z :=
  rows ← gets (fun r => numRows (base r));
  g ← guess_row 10 k avoidRow;
  g' ← match g with
       | Some row => mret (Some row)
       | None =>
           count_stat (fun s => s <| s_randRowGenerationFailed ::= fun n => u64 (n + 1) |>);;
           scan_rows (Z.to_nat rows) 0 k avoidRow
       end;
  match g' with
  | Some row => assert_ (row <? rows);; mret row
  | None => lift (Fault AssertFail)
  end.

(** ** Table updates *)

(** The entry that [rowHasEntry] names for a row, if any, with its assertion. *)
Definition find_tuple (row : Z) : comp RIT (option Z) :=
  tb ← get;
  v ← lift (aread (rowHasEntry tb) row);
  if v =? 0 then mret None
  else
    e ← lift (aread (tuples tb) (u32 (v - 1)));
    assert_ (valid e && ((origRowID e =? row) || (remappedRowID e =? row)));;
    mret (Some (u32 (v - 1))).

Definition getRemappedAddr (k : bank) (row : Z) (isFuncLookup : bool) : comp t Z :=
  f ← on_table k (find_tuple row);
  match f with
  | None => mret row
  | Some id =>
      tb ← get_table k;
      e ← lift (aread (tuples tb) id);
      when_ (negb isFuncLookup)
        (count_stat (fun s => s <| s_remapped_row_accessed ::= fun n => u64 (n + 1) |>));;
      mret (if origRowID e =? row then remappedRowID e else origRowID e)
  end.

Definition set_index_entry (row v : Z) : comp RIT unit :=
  tb ← get; l ← lift (awrite (rowHasEntry tb) row v);
  modify (fun tb => tb <| rowHasEntry := l |>).
Definition set_tuple (ii : Z) (e : RIT_Entry) : comp RIT unit :=
  tb ← get; l ← lift (awrite (tuples tb) ii e); modify (fun tb => tb <| tuples := l |>).

(** Install the pair in the first invalid tuple; silently nothing without one. *)
Definition install (orig remapped : Z) : comp RIT unit :=
  tb ← get;
  match first_index (fun e => negb (valid e)) (tuples tb) 0 with
  | Some ii =>
      set_tuple ii (mkTuple true true orig remapped);;
      set_index_entry orig (u32 (ii + 1));;
      set_index_entry remapped (u32 (ii + 1));;
      modify (fun tb => tb <| valid_tuples ::= fun n => u32 (n + 1) |>)
  | None => mret tt
  end.

(** Replace the partner of [row] in tuple [id]; the previous partner. *)
Definition repartner (id row partner : Z) : comp RIT Z :=
  tb ← get;
  e ← lift (aread (tuples tb) id);
  let e := e <| locked := true |> in
  let '(prev, e) :=
    if origRowID e =? row then (remappedRowID e, e <| remappedRowID := partner |>)
    else (origRowID e, e <| origRowID := partner |>) in
  set_tuple id e;;
  set_index_entry prev 0;;
  set_index_entry partner (u32 (id + 1));;
  mret prev.

(** Un-swap the first valid, unlocked tuple; the pair it held. *)
Definition unswap : comp RIT (Z * Z) :=
  tb ← get;
  match first_index (fun e => valid e && negb (locked e)) (tuples tb) 0 with
  | Some ii =>
      e ← lift (aread (tuples tb) ii);
      set_index_entry (origRowID e) 0;;
      set_index_entry (remappedRowID e) 0;;
      set_tuple ii zero_tuple;;
      modify (fun tb => tb <| valid_tuples ::= fun n => u32 (n - 1) |>);;
      mret (origRowID e, remappedRowID e)
  | None => lift (Fault AssertFail)
  end.

(** ** The handlers *)

Definition insertTuple (k : bank) (__origRowID : Z) : comp t unit :=
  r ← get;
  push __origRowID;;
  remapped ← generateRandomRowAddr k __origRowID;
  push remapped;;
  found ← on_table k (find_tuple __origRowID);
  let reswap := match found with
                | Some id => if id <? numTuples r then Some id else None
                | None => None end in
  match reswap with
  | Some id =>
      prev ← on_table k (repartner id __origRowID remapped);
      b ← generateRandomRowAddr k prev;
      push prev;; push b;;
      on_table k (install prev b)
  | None => on_table k (install __origRowID remapped)
  end;;
  tb ← get_table k;
  let unswap_needed := maxValidTuples r <? valid_tuples tb in
  (if unswap_needed
   then '(x, y) ← on_table k unswap; push x;; push y
   else mret tt);;
  tb' ← get_table k;
  assert_ (valid_tuples tb' <=? maxValidTuples r);;
  count_stat (fun s =>
    match reswap, unswap_needed with
    | None, false => s <| s_clean_install ::= fun n => u64 (n + 1) |>
    | None, true => s <| s_only_unswap ::= fun n => u64 (n + 1) |>
    | Some _, false => s <| s_clean_reswap ::= fun n => u64 (n + 1) |>
    | Some _, true => s <| s_dirty_reswap ::= fun n => u64 (n + 1) |>
    end).

Definition unlock (tb : RIT) : RIT :=
  tb <| tuples ::= fmap (fun e => e <| locked := false |>) |>.

Definition reset : comp t unit :=
  modify (fun r => r <| tables ::= fmap unlock |> <| detector ::= Misra_Gries.reset |>);;
  on_base (modify (fun b => b <| s_num_resets ::= fun n => u64 (n + 1) |>));;
  r ← get;
  on_base (for_ (Z.to_nat (numDRAMRows (base r))) 0 census_row).

Definition access (currTick row bankID rankID channelID : Z) : comp t Decision :=
  let k := (channelID, rankID, bankID) in
  on_base (modify (fun b => b <| s_num_accesses ::= fun n => u64 (n + 1) |>
                              <| decision := resetDecision |>));;
  r ← get;
  when_ (window_over (base r) currTick) (
    on_base (modify (fun b => b <| last_reset := currTick |>));; reset);;
  _ ← on_base (count_access (bankID + numBanks (base r) * row));
  m ← detect k row false;
  on_base (b ← get; on_decision (modify (fun d =>
    d <| mitigate := m |> <| SRAM_delay ::= fun s => u64 (s + SRAM_RIT_accDelay b) |>)));;
  when_ m (
    insertTuple k row;;
    on_base (b ← get; on_decision (modify (fun d =>
      d <| delay := u64 (swapDelay b * validAddrs d) / 2 |>))));;
  gets (fun r => decision (base r)).
End Code.

(** ** The table invariant *)

(** Row [x] is one of the two rows of a tuple; the tuple is the pair [x, y]. *)
Definition in_pair (e : RIT_Entry) (x : Z) : bool := (origRowID e =? x) || (remappedRowID e =? x).
Definition is_pair (e : RIT_Entry) (x y : Z) : Prop :=
  (origRowID e = x /\ remappedRowID e = y) \/ (origRowID e = y /\ remappedRowID e = x).

Definition bsum (p : RIT_Entry -> bool) (ts : list RIT_Entry) : Z := lsum (fun e => Z.b2z (p e)) ts.

Record wf_rit (nt rows : Z) (tb : RIT) : Prop := {
  rit_tuples : zlen (tuples tb) = nt;
  rit_rows : zlen (rowHasEntry tb) = rows;
  rit_tuple : forall i e, tuples tb !! i = Some e -> valid e = true ->
    origRowID e <> remappedRowID e /\
    forall x, in_pair e x = true -> rowHasEntry tb !! x = Some (i + 1);
  rit_row : forall x v, rowHasEntry tb !! x = Some v -> v <> 0 ->
    exists e, tuples tb !! (v - 1) = Some e /\ valid e = true /\ in_pair e x = true;
  rit_locked : forall i e, tuples tb !! i = Some e -> locked e = true -> valid e = true;
  rit_count : valid_tuples tb = bsum valid (tuples tb) }.

(** [x] and [y] are swapped by the table. *)
Definition paired (tb : RIT) (x y : Z) : Prop :=
  exists i e, tuples tb !! i = Some e /\ valid e = true /\ is_pair e x y.

Implicit Types (tb : RIT) (e : RIT_Entry).

Lemma is_pair_in e x y : is_pair e x y -> in_pair e x = true /\ in_pair e y = true.
Proof.
  unfold is_pair, in_pair. intros [[<- <-]|[<- <-]]; rewrite !Z.eqb_refl, ?orb_true_r; done.
Qed.
Lemma is_pair_flip e x y : is_pair e x y -> is_pair e y x.
Proof. unfold is_pair. tauto. Qed.
Lemma in_pair_is e x : in_pair e x = true -> exists y, is_pair e x y.
Proof.
  unfold is_pair, in_pair. intros [->%Z.eqb_eq| ->%Z.eqb_eq]%orb_true_iff; eauto.
Qed.
Lemma is_pair_fun e x y y' :
  origRowID e <> remappedRowID e -> is_pair e x y -> is_pair e x y' -> y = y'.
Proof. unfold is_pair. lia. Qed.

Lemma paired_sym tb x y : paired tb x y -> paired tb y x.
Proof. unfold paired, is_pair. intros (i & e & ? & ? & ?). exists i, e. tauto. Qed.

Lemma wf_same_tuple nt rows tb i j e e' x :
  wf_rit nt rows tb -> tuples tb !! i = Some e -> tuples tb !! j = Some e' ->
  valid e = true -> valid e' = true -> in_pair e x = true -> in_pair e' x = true -> i = j.
Proof.
  intros H Hi Hj Hv Hv' Hx Hx'.
  pose proof (proj2 (rit_tuple _ _ _ H i e Hi Hv) x Hx).
  pose proof (proj2 (rit_tuple _ _ _ H j e' Hj Hv') x Hx'). simplify_eq. lia.
Qed.

Lemma paired_fun nt rows tb x y y' :
  wf_rit nt rows tb -> paired tb x y -> paired tb x y' -> y = y'.
Proof.
  intros H (i & e & Hi & Hv & Hp) (j & e' & Hj & Hv' & Hp').
  pose proof (wf_same_tuple _ _ _ i j e e' x H Hi Hj Hv Hv'
    (proj1 (is_pair_in _ _ _ Hp)) (proj1 (is_pair_in _ _ _ Hp'))) as <-. simplify_eq.
  eapply is_pair_fun; [by eapply rit_tuple|done|done].
Qed.

Lemma paired_irrefl nt rows tb x : wf_rit nt rows tb -> ~ paired tb x x.
Proof.
  intros H (i & e & Hi & Hv & Hp). pose proof (proj1 (rit_tuple _ _ _ H i e Hi Hv)).
  unfold is_pair in Hp. lia.
Qed.

(** A row with no entry is in no pair. *)
Lemma free_unpaired nt rows tb x y :
  wf_rit nt rows tb -> rowHasEntry tb !! x = Some 0 -> ~ paired tb x y.
Proof.
  intros H Hx (i & e & Hi & Hv & Hp).
  pose proof (proj2 (rit_tuple _ _ _ H i e Hi Hv) x (proj1 (is_pair_in _ _ _ Hp))).
  pose proof (zlookup_lt _ _ _ Hi). simplify_eq. lia.
Qed.

Lemma paired_entry nt rows tb x y :
  wf_rit nt rows tb -> paired tb x y ->
  exists v, rowHasEntry tb !! x = Some v /\ v <> 0 /\ 0 <= x < rows.
Proof.
  intros H (i & e & Hi & Hv & Hp).
  pose proof (proj2 (rit_tuple _ _ _ H i e Hi Hv) x (proj1 (is_pair_in _ _ _ Hp))) as Hx.
  pose proof (zlookup_lt _ _ _ Hi). exists (i + 1). split; [done|]. split; [lia|].
  rewrite <- (rit_rows _ _ _ H). by eapply zlookup_lt.
Qed.

(** The pair was installed in this window and may not be un-swapped in it. *)
Definition locked_pair (tb : RIT) (x y : Z) : Prop :=
  exists i e, tuples tb !! i = Some e /\ valid e = true /\ locked e = true /\ is_pair e x y.

Lemma locked_paired tb x y : locked_pair tb x y -> paired tb x y.
Proof. intros (i & e & ? & ? & ? & ?). by exists i, e. Qed.

(** *** Replacing one tuple *)

(** The reverse index after tuple [i] goes from [e0] to [e1]. *)
Definition reindex (i : Z) e0 e1 (rhe : list Z) (x : Z) : option Z :=
  if valid e1 && in_pair e1 x then Some (i + 1)
  else if valid e0 && in_pair e0 x then Some 0 else rhe !! x.

Section Replace.
Context (nt rows : Z) (tb : RIT) (i : Z) (e0 e1 : RIT_Entry) (rhe' : list Z) (vt' : Z).
Context (Hwf : wf_rit nt rows tb) (Hi : tuples tb !! i = Some e0).
Context (Hlen : zlen rhe' = rows).
Context (Hnew : valid e1 = true -> origRowID e1 <> remappedRowID e1 /\
   forall x, in_pair e1 x = true -> 0 <= x < rows /\
     (rowHasEntry tb !! x = Some 0 \/ (valid e0 = true /\ in_pair e0 x = true))).
Context (Hlock : locked e1 = true -> valid e1 = true).
Context (Hrhe : forall x, 0 <= x < rows -> rhe' !! x = reindex i e0 e1 (rowHasEntry tb) x).
Context (Hvt : vt' = valid_tuples tb - Z.b2z (valid e0) + Z.b2z (valid e1)).

Definition replaced : RIT := mkRIT (<[i := e1]> (tuples tb)) rhe' vt'.

Lemma replace_locked_new x y :
  valid e1 = true -> locked e1 = true -> is_pair e1 x y -> locked_pair replaced x y.
Proof.
  intros. exists i, e1. cbn. rewrite zlookup_insert_eq; [done|by eapply zlookup_lt].
Qed.

Lemma replace_locked_old x y :
  locked_pair tb x y -> ~ (valid e0 = true /\ locked e0 = true /\ is_pair e0 x y) ->
  locked_pair replaced x y.
Proof using Hi.
  intros (j & e & Hj & Hv & Hl & Hp) Hn. exists j, e. cbn.
  rewrite zlookup_insert_ne; [done|]. intros <-.
  rewrite Hi in Hj. injection Hj as <-. by apply Hn.
Qed.

Lemma replaced_bsum p :
  bsum p (tuples replaced) = bsum p (tuples tb) - Z.b2z (p e0) + Z.b2z (p e1).
Proof. by apply (lsum_insert (fun e => Z.b2z (p e))). Qed.

Lemma replace_wf : wf_rit nt rows replaced.
Proof.
  pose proof (zlookup_lt _ _ _ Hi) as Hilt. split; cbn.
  - rewrite zlen_insert. apply Hwf.
  - done.
  - intros j e [(<- & -> & _)|[Hne Hj]]%zlookup_insert Hv.
    + split; [by apply Hnew|]. intros x Hx. rewrite Hrhe by (by apply Hnew).
      unfold reindex. by rewrite Hv, Hx.
    + destruct (rit_tuple _ _ _ Hwf j e Hj Hv) as [Hd Hall]. split; [done|].
      intros x Hx. pose proof (Hall x Hx) as Hxr. pose proof (zlookup_lt _ _ _ Hxr) as Hlt.
      rewrite (rit_rows _ _ _ Hwf) in Hlt. rewrite Hrhe by done. unfold reindex.
      assert (Hne0 : valid e0 = true -> in_pair e0 x = true -> False).
      { intros H1 H2. apply Hne. by eapply (wf_same_tuple _ _ tb i j e0 e x). }
      destruct (valid e1 && in_pair e1 x) eqn:E1.
      { apply andb_true_iff in E1 as [V1 P1]. destruct (Hnew V1) as [_ Hn].
        destruct (Hn x P1) as [_ [H0|[H1 H2]]]; [|by destruct Hne0].
        simplify_eq. pose proof (zlookup_lt _ _ _ Hj). lia. }
      destruct (valid e0 && in_pair e0 x) eqn:E0; [|done].
      apply andb_true_iff in E0 as [? ?]. by destruct Hne0.
  - intros x v Hx Hnz. pose proof (zlookup_lt _ _ _ Hx) as Hlt. rewrite Hlen in Hlt.
    rewrite Hrhe in Hx by done. unfold reindex in Hx.
    destruct (valid e1 && in_pair e1 x) eqn:E1.
    { apply andb_true_iff in E1 as [V1 P1]. simplify_eq. exists e1.
      replace (i + 1 - 1) with i by lia. by rewrite zlookup_insert_eq. }
    destruct (valid e0 && in_pair e0 x) eqn:E0; [by simplify_eq|].
    destruct (rit_row _ _ _ Hwf x v Hx Hnz) as (e & He & Hv & Hp). exists e.
    rewrite zlookup_insert_ne; [done|]. intros Heq. rewrite <- Heq, Hi in He. simplify_eq.
    by rewrite Hv, Hp in E0.
  - intros j e [(<- & -> & _)|[Hne Hj]]%zlookup_insert; [done|by eapply rit_locked].
  - unfold bsum. rewrite (lsum_insert _ _ _ e0) by done.
    rewrite Hvt, (rit_count _ _ _ Hwf). unfold bsum. lia.
Qed.

Lemma replace_paired x y :
  paired replaced x y <->
  (paired tb x y /\ ~ (valid e0 = true /\ is_pair e0 x y)) \/ (valid e1 = true /\ is_pair e1 x y).
Proof.
  split.
  - intros (j & e & Hj & Hv & Hp). cbn in Hj.
    apply zlookup_insert in Hj as [(<- & -> & _)|[Hne Hj]]; [by right|left].
    split; [by exists j, e|]. intros [Hv0 Hp0]. apply Hne.
    by eapply (wf_same_tuple _ _ tb i j e0 e x); try done; eapply is_pair_in.
  - intros [[(j & e & Hj & Hv & Hp) Hn]|[Hv Hp]].
    + exists j, e. cbn. rewrite zlookup_insert_ne; [done|]. intros <-. simplify_eq. by apply Hn.
    + exists i, e1. cbn. rewrite zlookup_insert_eq; [done|]. by eapply zlookup_lt.
Qed.
End Replace.

(** *** The table operations *)

Section Table.
Context (nt rows : Z) (Hnt : 0 <= nt < 2 ^ 32 - 1).

(** [tb'] is well formed, holds the pairs [P], [dv] more tuples than [tb],
    and at most [dl] more locked ones. *)
Record becomes (tb tb' : RIT) (P : Z -> Z -> Prop) (dv dl : Z) : Prop := {
  bc_wf : wf_rit nt rows tb';
  bc_pairs : forall x y, paired tb' x y <-> P x y;
  bc_valid : valid_tuples tb' = valid_tuples tb + dv;
  bc_locked : bsum locked (tuples tb') <= bsum locked (tuples tb) + dl;
  bc_kept : forall x y, locked_pair tb x y -> P x y -> locked_pair tb' x y }.

Lemma bsum_nonneg p ts : 0 <= bsum p ts <= zlen ts.
Proof.
  unfold bsum, zlen. induction ts as [|e ts IH]; cbn [lsum length]; [lia|].
  destruct (p e); cbn [Z.b2z]; lia.
Qed.

Lemma bsum_true ts : bsum (fun _ => true) ts = zlen ts.
Proof. unfold bsum, zlen. induction ts as [|e ts IH]; cbn in *; lia. Qed.

Lemma valid_range tb : wf_rit nt rows tb -> 0 <= valid_tuples tb <= nt.
Proof.
  intros H. rewrite (rit_count _ _ _ H), <- (rit_tuples _ _ _ H). apply bsum_nonneg.
Qed.

(** Pigeonhole: fewer [p]s than [q]s leaves a [q] that is not a [p]. *)
Lemma bsum_lt_exists p q ts :
  bsum p ts < bsum q ts -> exists (i : Z) e, ts !! i = Some e /\ q e = true /\ p e = false.
Proof.
  unfold bsum. induction ts as [|e ts IH]; cbn [lsum]; [lia|]. intros Hlt.
  destruct (q e && negb (p e)) eqn:E.
  - apply andb_true_iff in E as [? ?%negb_true_iff]. exists 0, e. by rewrite zlookup_cons_0.
  - destruct IH as (i & e' & Hi & ?).
    { destruct (q e), (p e); cbn in *; try discriminate; lia. }
    pose proof (zlookup_lt _ _ _ Hi). exists (i + 1), e'. by rewrite zlookup_cons_succ by lia.
Qed.

Lemma find_tuple_spec tb row :
  wf_rit nt rows tb -> 0 <= row < rows ->
  wp (find_tuple row) tb (fun o tb' => tb' = tb /\
    match o with
    | None => rowHasEntry tb !! row = Some 0
    | Some id => 0 <= id < nt /\ exists e, tuples tb !! id = Some e /\
                   valid e = true /\ in_pair e row = true
    end).
Proof.
  intros H Hr. rewrite <- (rit_rows _ _ _ H) in Hr. apply zlookup_is_Some in Hr as [v Hv].
  unfold find_tuple. wp_steps. eapply rp_aread; [exact Hv|].
  destruct (Z.eqb_spec v 0) as [->|Hnz]; wp_steps; [done|].
  destruct (rit_row _ _ _ H row v Hv Hnz) as (e & He & Hval & Hp).
  pose proof (zlookup_lt _ _ _ He) as Hlt. rewrite (rit_tuples _ _ _ H) in Hlt.
  rewrite u32_small by lia. eapply rp_aread; [exact He|]. wp_steps.
  apply wp_assert; [rewrite Hval; exact Hp|]. wp_steps.
  split; [done|]. split; [lia|]. by exists e.
Qed.

Lemma set_index_entry_spec tb row v Q :
  0 <= row < zlen (rowHasEntry tb) -> Q tt (tb <| rowHasEntry := <[row := v]> (rowHasEntry tb) |>) ->
  wp (set_index_entry row v) tb Q.
Proof. intros Hr HQ. unfold set_index_entry. wp_steps. apply rp_awrite; [done|]. by wp_steps. Qed.
Lemma set_tuple_spec tb i e Q :
  0 <= i < zlen (tuples tb) -> Q tt (tb <| tuples := <[i := e]> (tuples tb) |>) ->
  wp (set_tuple i e) tb Q.
Proof. intros Hr HQ. unfold set_tuple. wp_steps. apply rp_awrite; [done|]. by wp_steps. Qed.

(** Two writes to the reverse index, read back. *)
Lemma reindex_write2 tb i e0 e1 a va b vb x :
  0 <= a < zlen (rowHasEntry tb) -> 0 <= b < zlen (rowHasEntry tb) ->
  (reindex i e0 e1 (rowHasEntry tb) x =
    if b =? x then Some vb else if a =? x then Some va else rowHasEntry tb !! x) ->
  <[b := vb]> (<[a := va]> (rowHasEntry tb)) !! x = reindex i e0 e1 (rowHasEntry tb) x.
Proof.
  intros Ha Hb ->. destruct (Z.eqb_spec b x) as [->|].
  { by rewrite zlookup_insert_eq by (by rewrite zlen_insert). }
  rewrite zlookup_insert_ne by done. destruct (Z.eqb_spec a x) as [->|].
  { by rewrite zlookup_insert_eq. }
  by rewrite zlookup_insert_ne.
Qed.

Lemma install_spec tb x y :
  wf_rit nt rows tb -> valid_tuples tb < nt -> x <> y ->
  rowHasEntry tb !! x = Some 0 -> rowHasEntry tb !! y = Some 0 ->
  wp (install x y) tb (fun _ tb' =>
    locked_pair tb' x y /\
    becomes tb tb' (fun a b => paired tb a b \/ (a = x /\ b = y) \/ (a = y /\ b = x)) 1 1).
Proof.
  intros H Hfree Hxy Hx Hy. unfold install. wp_steps.
  pose proof (first_index_spec (fun e => negb (valid e)) (tuples tb)) as Hf.
  destruct (first_index _ _ 0) as [i|]; last first.
  { destruct (bsum_lt_exists valid (fun _ => true) (tuples tb)) as (i & e & Hi & _ & Hv).
    - replace (bsum (fun _ => true) (tuples tb)) with nt; [rewrite <- (rit_count _ _ _ H); lia|].
      rewrite bsum_true. symmetry. apply H.
    - pose proof (Hf i e Hi). by rewrite Hv in *. }
  destruct Hf as (e0 & Hi & Hv0%negb_true_iff). pose proof (zlookup_lt _ _ _ Hi) as Hilt.
  pose proof (zlookup_lt _ _ _ Hx). pose proof (zlookup_lt _ _ _ Hy).
  pose proof (valid_range tb H). rewrite (rit_tuples _ _ _ H) in Hilt.
  wp_step. apply set_tuple_spec; [by eapply zlookup_lt|]. wp_step.
  apply set_index_entry_spec; [done|]. wp_step.
  apply set_index_entry_spec; [cbn; by rewrite zlen_insert|]. wp_steps.
  unfold over. cbn. rewrite !u32_small by lia.
  set (e1 := mkTuple true true x y).
  set (tb' := mkRIT _ _ _).
  assert (Htb : tb' = replaced tb i e1 (<[y := i + 1]> (<[x := i + 1]> (rowHasEntry tb)))
                        (valid_tuples tb + 1)) by done.
  assert (Hrhe : forall z, 0 <= z < rows ->
            <[y := i + 1]> (<[x := i + 1]> (rowHasEntry tb)) !! z = reindex i e0 e1 (rowHasEntry tb) z).
  { intros z _. apply reindex_write2; [done|done|].
    unfold reindex, in_pair. rewrite Hv0. cbn.
    by destruct (x =? z), (y =? z). }
  assert (Hlen : zlen (<[y := i + 1]> (<[x := i + 1]> (rowHasEntry tb))) = rows).
  { rewrite !zlen_insert. apply H. }
  assert (Hnew : valid e1 = true -> origRowID e1 <> remappedRowID e1 /\
   forall x0, in_pair e1 x0 = true -> 0 <= x0 < rows /\
     (rowHasEntry tb !! x0 = Some 0 \/ (valid e0 = true /\ in_pair e0 x0 = true))).
  { intros _. split; [done|]. unfold in_pair. cbn. rewrite <- (rit_rows _ _ _ H).
    intros z [->%Z.eqb_eq| ->%Z.eqb_eq]%orb_true_iff; auto. }
  rewrite Htb. split; [apply (replace_locked_new tb i e0); try done; by left|]. split.
  - eapply (replace_wf nt rows tb i e0 e1); try done. rewrite Hv0. cbn. lia.
  - intros a b. rewrite (replace_paired nt rows tb i e0 e1); try done.
    unfold is_pair. cbn. rewrite Hv0. intuition congruence.
  - done.
  - rewrite (replaced_bsum tb i e0) by done.
    destruct (locked e0); cbn; lia.
  - intros a b Hab _. apply (replace_locked_old tb i e0); [done|done|].
    intros (Hv & _). by rewrite Hv in Hv0.
Qed.

(** The other row of a tuple. *)
Definition other e x : Z := if origRowID e =? x then remappedRowID e else origRowID e.
Lemma other_pair e x : in_pair e x = true -> is_pair e x (other e x).
Proof.
  unfold in_pair, is_pair, other. destruct (Z.eqb_spec (origRowID e) x); cbn; [auto|].
  intros ?%Z.eqb_eq. auto.
Qed.

Lemma repartner_spec tb id row y e :
  wf_rit nt rows tb -> tuples tb !! id = Some e -> valid e = true -> in_pair e row = true ->
  row <> y -> rowHasEntry tb !! y = Some 0 ->
  wp (repartner id row y) tb (fun prev tb' =>
    paired tb row prev /\ rowHasEntry tb' !! prev = Some 0 /\ prev <> row /\ prev <> y /\
    locked_pair tb' row y /\
    becomes tb tb' (fun a b => (paired tb a b /\ a <> row /\ b <> row) \/
                      (a = row /\ b = y) \/ (a = y /\ b = row)) 0 1).
Proof.
  intros H Hi Hv Hp Hne Hy. pose proof (other_pair _ _ Hp) as Hop.
  destruct (rit_tuple _ _ _ H _ _ Hi Hv) as [Hd Hent].
  pose proof (zlookup_lt _ _ _ Hi) as Hilt. pose proof (zlookup_lt _ _ _ Hy).
  assert (Hprev : rowHasEntry tb !! other e row = Some (id + 1)) by (by apply Hent; eapply is_pair_in).
  pose proof (Hent _ Hp) as Hrow. pose proof (zlookup_lt _ _ _ Hprev). pose proof (zlookup_lt _ _ _ Hrow).
  assert (Hpy : other e row <> y) by (intros E; rewrite E in *; simplify_eq; lia).
  assert (Hpr : other e row <> row) by (unfold is_pair in Hop; lia).
  rewrite (rit_tuples _ _ _ H) in Hilt.
  unfold repartner. wp_steps. eapply rp_aread; [exact Hi|].
  set (e1 := if origRowID e =? row then mkTuple true true row y else mkTuple true true y row).
  assert (Hp1 : forall a b, is_pair e1 a b <-> (a = row /\ b = y) \/ (a = y /\ b = row)).
  { intros a b. unfold is_pair, e1. destruct (_ =? _); cbn; intuition congruence. }
  match goal with |- context [let '(_, _) := ?p in _] => replace p with (other e row, e1) end.
  2:{ unfold over, other, e1, in_pair in *. cbn.
      destruct (Z.eqb_spec (origRowID e) row) as [<-|]; cbn in *; rewrite Hv; [done|].
      apply Z.eqb_eq in Hp. by rewrite Hp. }
  wp_step. apply set_tuple_spec; [by eapply zlookup_lt|]. wp_step.
  apply set_index_entry_spec; [done|]. wp_step.
  apply set_index_entry_spec; [cbn; by rewrite zlen_insert|]. wp_steps.
  unfold over. cbn. rewrite u32_small by lia.
  set (rhe := <[y := id + 1]> (<[other e row := 0]> (rowHasEntry tb))).
  split; [by exists id, e|]. split.
  { unfold rhe. rewrite zlookup_insert_ne by done. by apply zlookup_insert_eq. }
  split; [done|]. split; [done|].
  assert (Hlen : zlen rhe = rows) by (unfold rhe; rewrite !zlen_insert; apply H).
  assert (Hlck : locked e1 = true /\ valid e1 = true /\ origRowID e1 <> remappedRowID e1)
    by (unfold e1; destruct (_ =? _); cbn; auto).
  destruct Hlck as (Hl1 & Hv1 & Hd1).
  assert (Hin1 : forall a, in_pair e1 a = true <-> a = row \/ a = y).
  { intros a. split.
    - intros (b & [[??]|[??]]%Hp1)%in_pair_is; auto.
    - intros [->| ->]; eapply is_pair_in, Hp1; eauto. }
  assert (Hrhe : forall z, 0 <= z < rows -> rhe !! z = reindex id e e1 (rowHasEntry tb) z).
  { intros z _. apply reindex_write2; [done|done|]. unfold reindex. rewrite Hv, Hv1. cbn [andb].
    destruct (in_pair e1 z) eqn:E1.
    - apply Hin1 in E1 as [->| ->]; [|by rewrite Z.eqb_refl].
      destruct (Z.eqb_spec y row), (Z.eqb_spec (other e row) row); try done.
    - assert (z <> row /\ z <> y) as [Hz1 Hz2].
      { split; intros Ez; apply not_true_iff_false in E1; apply E1, Hin1; auto. }
      destruct (Z.eqb_spec y z); [done|].
      destruct (Z.eqb_spec (other e row) z) as [<-|Hnz]; [by rewrite (proj1 (is_pair_in _ _ _ (is_pair_flip _ _ _ Hop)))|].
      destruct (in_pair e z) eqn:E0; [|done]. unfold is_pair, in_pair in *. lia. }
  assert (Hnew : valid e1 = true -> origRowID e1 <> remappedRowID e1 /\
   forall x0, in_pair e1 x0 = true -> 0 <= x0 < rows /\
     (rowHasEntry tb !! x0 = Some 0 \/ (valid e = true /\ in_pair e x0 = true))).
  { intros _. split; [done|]. intros a [->| ->]%Hin1; rewrite <- (rit_rows _ _ _ H); auto. }
  change (mkRIT _ _ _) with (replaced tb id e1 rhe (valid_tuples tb)).
  split; [apply (replace_locked_new tb id e); try done; apply Hp1; by left|].
  split.
  - eapply (replace_wf nt rows tb id e e1); try done. rewrite Hv, Hv1. cbn. lia.
  - intros a b. rewrite (replace_paired nt rows tb id e e1); try done.
    rewrite Hp1. split.
    + intros [[Hab Hno]|[_ Hab]]; [left|by right]. split; [done|].
      split; intros ->; apply Hno; (split; [done|]).
      * by rewrite (paired_fun _ _ _ _ _ _ H Hab (ex_intro _ id (ex_intro _ e (conj Hi (conj Hv Hop))))).
      * apply is_pair_flip. by rewrite (paired_fun _ _ _ _ _ _ H (paired_sym _ _ _ Hab)
          (ex_intro _ id (ex_intro _ e (conj Hi (conj Hv Hop))))).
    + intros [(Hab & Ha & Hb)|Hab]; [left|by right]. split; [done|].
      intros [_ Hpab]. unfold is_pair, in_pair in *. lia.
  - cbn. lia.
  - rewrite (replaced_bsum tb id e) by done.
    rewrite Hl1. destruct (locked e); cbn; lia.
  - intros a b Hab Hn. destruct Hn as [(Hp' & Ha & Hb)|Hn].
    + apply (replace_locked_old tb id e); [done|done|]. intros (_ & _ & Hpab).
      unfold is_pair, in_pair in *. lia.
    + apply (replace_locked_new tb id e); try done. by apply Hp1.
Qed.

Lemma unswap_spec tb :
  wf_rit nt rows tb -> bsum locked (tuples tb) < valid_tuples tb ->
  wp unswap tb (fun '(x, y) tb' =>
    paired tb x y /\ (exists i e, tuples tb !! i = Some e /\ valid e = true /\ locked e = false /\ is_pair e x y) /\
    becomes tb tb' (fun a b => paired tb a b /\ ~ ((a = x /\ b = y) \/ (a = y /\ b = x))) (-1) 0).
Proof.
  intros H Hlt. unfold unswap. wp_steps.
  pose proof (first_index_spec (fun e => valid e && negb (locked e)) (tuples tb)) as Hf.
  destruct (first_index _ _ 0) as [i|]; last first.
  { rewrite (rit_count _ _ _ H) in Hlt.
    destruct (bsum_lt_exists _ _ _ Hlt) as (i & e & Hi & Hv & Hl).
    pose proof (Hf i e Hi). by rewrite Hv, Hl in *. }
  destruct Hf as (e & Hi & [Hv Hl%negb_true_iff]%andb_true_iff).
  destruct (rit_tuple _ _ _ H _ _ Hi Hv) as [Hd Hent].
  assert (Ho : is_pair e (origRowID e) (remappedRowID e)) by (by left).
  pose proof (Hent _ (proj1 (is_pair_in _ _ _ Ho))) as Hx.
  pose proof (Hent _ (proj2 (is_pair_in _ _ _ Ho))) as Hy.
  pose proof (zlookup_lt _ _ _ Hx). pose proof (zlookup_lt _ _ _ Hy).
  pose proof (zlookup_lt _ _ _ Hi) as Hilt. pose proof (valid_range tb H).
  pose proof (bsum_nonneg locked (tuples tb)).
  eapply wp_bind, wp_lift, rp_aread; [exact Hi|]. wp_step.
  apply set_index_entry_spec; [done|]. wp_step.
  apply set_index_entry_spec; [cbn; by rewrite zlen_insert|]. wp_step.
  apply set_tuple_spec; [done|]. wp_steps. unfold over. cbn. rewrite u32_small by lia.
  set (rhe := <[remappedRowID e := 0]> (<[origRowID e := 0]> (rowHasEntry tb))).
  split; [by exists i, e|]. split; [by exists i, e|].
  assert (Hlen : zlen rhe = rows) by (unfold rhe; rewrite !zlen_insert; apply H).
  assert (Hrhe : forall z, 0 <= z < rows -> rhe !! z = reindex i e zero_tuple (rowHasEntry tb) z).
  { intros z _. apply reindex_write2; [done|done|]. unfold reindex, in_pair. rewrite Hv. cbn.
    by destruct (origRowID e =? z), (remappedRowID e =? z). }
  change (mkRIT _ _ _) with (replaced tb i zero_tuple rhe (valid_tuples tb - 1)). split.
  - eapply (replace_wf nt rows tb i e zero_tuple); try done. rewrite Hv. cbn. lia.
  - intros a b. rewrite (replace_paired nt rows tb i e zero_tuple); try done.
    unfold is_pair. split.
    + intros [[? Hn]|[? _]]; [|done]. split; [done|].
      intros [[-> ->]|[-> ->]]; apply Hn; auto.
    + intros [? Hn]. left. split; [done|]. intros [_ [[??]|[??]]]; apply Hn; auto.
  - cbn. lia.
  - rewrite (replaced_bsum tb i e) by done. rewrite Hl. cbn. lia.
  - intros a b Hab _. apply (replace_locked_old tb i e); [done|done|].
    intros (_ & Hl' & _). by rewrite Hl' in Hl.
Qed.
End Table.

(** ** Fresh partners *)

(** Row [y] is in no tuple and not tracked by the detector. *)
Definition fresh_row tb (tr : Misra_Gries.Tracker) (avoidRow y : Z) : Prop :=
  y <> avoidRow /\ rowHasEntry tb !! y = Some 0 /\ Misra_Gries.rowHasEntry tr !! y = Some 0.

(** Pigeonhole: a list shorter than the range misses a row of it. *)
Lemma missed_row (rows : Z) (l : list Z) :
  0 <= rows -> zlen l < rows -> exists y, 0 <= y < rows /\ y ∉ l.
Proof.
  intros Hr Hl. destruct (decide (Exists (fun y => y ∉ l) (seqZ 0 rows))) as [Hex|Hall].
  - apply Exists_exists in Hex as (y & Hy%list_elem_of_In%elem_of_seqZ & ?). exists y. split; [lia|done].
  - exfalso. apply not_Exists_Forall in Hall; [|intros ?; apply _].
    assert (seqZ 0 rows ⊆+ l) as Hsub%submseteq_length.
    { apply NoDup_submseteq; [apply NoDup_seqZ|]. intros y Hy.
      rewrite Forall_forall in Hall. destruct (decide (y ∈ l)) as [|Hn]; [done|].
      by destruct (Hall y (proj1 (list_elem_of_In _ _) Hy)). }
    rewrite length_seqZ in Hsub. unfold zlen in Hl. lia.
Qed.

Lemma exists_fresh nt rows ne tb tr W f avoid :
  wf_rit nt rows tb -> Misra_Gries.tracker_wf ne rows tr W f -> 0 <= rows ->
  1 + 2 * nt + ne < rows -> exists y, 0 <= y < rows /\ fresh_row tb tr avoid y.
Proof.
  intros H Ht H0 Hlt.
  set (l := avoid :: (origRowID <$> tuples tb) ++ (remappedRowID <$> tuples tb)
              ++ (Misra_Gries.addr <$> Misra_Gries.entries tr)).
  destruct (missed_row rows l) as (y & Hy & Hn); [done| |].
  { pose proof (rit_tuples _ _ _ H). pose proof (Misra_Gries.wf_entries _ _ _ _ _ _ _ Ht).
    unfold l, zlen in *. cbn [length]. rewrite !length_app, !length_fmap. lia. }
  unfold l in Hn. rewrite elem_of_cons, !elem_of_app in Hn.
  exists y. split; [done|]. split; [tauto|]. split.
  - destruct (zlookup_is_Some (rowHasEntry tb) y) as [v Hv]; [by rewrite (rit_rows _ _ _ H)|].
    destruct (decide (v = 0)) as [->|Hnz]; [done|].
    destruct (rit_row _ _ _ H y v Hv Hnz) as (e & He%elem_of_zlookup & _ & Hp).
    destruct Hn. apply orb_true_iff in Hp as [<-%Z.eqb_eq| <-%Z.eqb_eq];
      right; [left|right; left]; by apply list_elem_of_fmap_2.
  - destruct (zlookup_is_Some (Misra_Gries.rowHasEntry tr) y) as [v Hv].
    { by rewrite (Misra_Gries.wf_rows _ _ _ _ _ _ _ Ht). }
    destruct (decide (v = 0)) as [->|Hnz]; [done|].
    destruct (Misra_Gries.wf_row _ _ _ _ _ _ _ Ht y v Hv Hnz) as (e & He%elem_of_zlookup & _ & <-).
    destruct Hn. do 3 right. by apply list_elem_of_fmap_2.
Qed.

(** ** Runs of the handlers on one bank *)

(** The decision announces the rows [l], in order, as swap actions. *)
Definition plan (d : Decision) (l : list Z) : Prop :=
  zlen (isActionSwap d) = 6 /\ zlen (addrs d) = 6 /\ validAddrs d = zlen l /\
  forall i a, l !! i = Some a -> addrs d !! i = Some a /\ isActionSwap d !! i = Some true.

Lemma zlookup_snoc {A} (l : list A) a (i : Z) b :
  (l ++ [a]) !! i = Some b -> l !! i = Some b \/ (i = zlen l /\ b = a).
Proof.
  unfold lookup, zlist_lookup, zlen. destruct (Z.ltb_spec i 0); [done|].
  intros [Hb|[Hge Hb]]%lookup_app_Some; [by left|right].
  apply list_lookup_singleton_Some in Hb as [? ?]. split; [lia|done].
Qed.

Lemma push_action_spec d l a :
  plan d l -> zlen l < 6 -> wp (push_action a) d (fun _ d' => plan d' (l ++ [a]) /\ mitigate d' = mitigate d).
Proof.
  intros (H1 & H2 & H3 & H4) Hl. pose proof (zlen_nonneg l). unfold push_action. wp_steps.
  apply rp_awrite; [lia|]. wp_steps. apply rp_awrite; [lia|]. wp_steps.
  unfold plan, over. cbn. rewrite !zlen_insert, u32_small by lia.
  assert (zlen (l ++ [a]) = zlen l + 1) by (unfold zlen; rewrite length_app; cbn; lia).
  split; [|done]. split_and!; [done|done|lia|]. intros i b [Hb|[-> ->]]%zlookup_snoc.
  - pose proof (zlookup_lt _ _ _ Hb). rewrite !zlookup_insert_ne by lia. by apply H4.
  - rewrite H3, !zlookup_insert_eq by lia. done.
Qed.

Section Bank.
Context (rand_stream : nat -> Z) (k : bank) (r0 : t).
Let nt := numTuples r0.
Let rows := numRows (base r0).
Context (tr : Misra_Gries.Tracker) (ne W : Z) (f : Z -> Z).
Context (Hnt : 0 <= nt < 2 ^ 32 - 1) (Hne : 0 <= ne < 2 ^ 32).
Context (Hfresh : 1 + 2 * nt + ne < rows).
Context (Htr : Misra_Gries.trackers (detector r0) !! k = Some tr).
Context (Hwft : Misra_Gries.tracker_wf ne rows tr W f).

(** [r] is [r0] with the table [tb] in bank [k] and the plan [l]. *)
Record at_ (tb : RIT) (l : list Z) (r : t) : Prop := {
  at_detector : detector r = detector r0;
  at_max : maxValidTuples r = maxValidTuples r0;
  at_num : numTuples r = numTuples r0;
  at_tables : tables r = <[k := tb]> (tables r0);
  at_base : exists d, base r = (base r0) <| decision := d |> /\ plan d l /\ mitigate d = mitigate (decision (base r0)) }.

Lemma at_rows tb l r : at_ tb l r -> numRows (base r) = rows.
Proof. intros H. destruct (at_base _ _ _ H) as (d & -> & _). done. Qed.
Lemma at_table tb l r : at_ tb l r -> tables r !! k = Some tb.
Proof. intros H. by rewrite (at_tables _ _ _ H), lookup_insert_eq. Qed.

Lemma get_table_at tb l r Q : at_ tb l r -> Q tb r -> wp (get_table k) r Q.
Proof. intros H HQ. unfold get_table. wp_steps. by rewrite (at_table _ _ _ H). Qed.

Lemma on_table_at {A} (m : comp RIT A) tb l r (P : A -> RIT -> Prop) :
  at_ tb l r -> wp m tb P -> wp (on_table k m) r (fun a r' => exists tb', P a tb' /\ at_ tb' l r').
Proof.
  intros H Hm. unfold on_table. wp_step. eapply get_table_at; [done|].
  apply wp_inv in Hm as (a & tb' & -> & HP). wp_steps.
  exists tb'. split; [done|]. destruct H as [H1 H2 H3 H4 H5].
  split; unfold over; cbn; try done. by rewrite H4, insert_insert_eq.
Qed.

Lemma push_at tb l r a :
  at_ tb l r -> zlen l < 6 -> wp (push a) r (fun _ => at_ tb (l ++ [a])).
Proof.
  intros [H1 H2 H3 H4 (d & H5 & Hp & Hm)] Hl. unfold push, on_base, on_decision. wp_steps.
  rewrite H5. eapply wp_mono; [by apply push_action_spec|]. intros [] d' [Hp' Hm'].
  split; unfold over; cbn; try done. exists d'. split; [done|]. split; [done|rewrite Hm'; exact Hm].
Qed.

Lemma count_stat_at tb l r g : at_ tb l r -> wp (count_stat g) r (fun _ => at_ tb l).
Proof. intros [? ? ? ? ?]. unfold count_stat. wp_steps. by split. Qed.

(** The detector's functional lookup reads the reverse index. *)
Lemma detect_lookup r row v :
  detector r = detector r0 -> Misra_Gries.rowHasEntry tr !! row = Some v ->
  detect k row true r = Ok (negb (v =? 0), r).
Proof.
  intros Hd Hv. unfold detect. destruct k as [[ch rk] bk]. unfold zoom, Misra_Gries.access.
  unfold get, mbind, comp_bind, lift, modify, mret, comp_ret. rewrite Hd, Htr.
  rewrite (Misra_Gries.access_tracker_lookup ne rows _ Hne tr W f row v Hwft Hv).
  unfold when_, mret, comp_ret, over. cbn. rewrite insert_id by done.
  destruct r, r0. cbn in *. subst. by destruct detector1.
Qed.

Lemma eligible_at tb l r avoid row :
  at_ tb l r -> wf_rit nt rows tb -> 0 <= row < rows ->
  wp (eligible k avoid row) r (fun ok r' => r' = r /\ (ok = true <-> fresh_row tb tr avoid row)).
Proof.
  intros H Hwf Hr. unfold eligible, fresh_row.
  destruct (Z.eqb_spec row avoid) as [->|Hna]; [wp_steps; naive_solver|].
  wp_step. eapply get_table_at; [done|].
  destruct (zlookup_is_Some (rowHasEntry tb) row) as [v Hv]; [by rewrite (rit_rows _ _ _ Hwf)|].
  wp_steps. eapply rp_aread; [exact Hv|]. destruct (Z.eqb_spec v 0) as [->|Hvz]; cbn [negb];
    [|wp_steps; naive_solver].
  destruct (zlookup_is_Some (Misra_Gries.rowHasEntry tr) row) as [w Hw].
  { by rewrite (Misra_Gries.wf_rows _ _ _ _ _ _ _ Hwft). }
  wp_step. eapply wp_ok; [by apply (detect_lookup r row w), Hw; apply H|]. wp_steps.
  rewrite Hw. destruct (Z.eqb_spec w 0) as [->|]; naive_solver.
Qed.

Lemma guess_row_at tb l n avoid : forall r, at_ tb l r -> wf_rit nt rows tb -> 0 <= nt ->
  wp (guess_row rand_stream n k avoid) r (fun g r' => at_ tb l r' /\
    match g with Some y => 0 <= y < rows /\ fresh_row tb tr avoid y | None => True end).
Proof.
  induction n as [|n IH]; intros r H Hwf H0; cbn [guess_row]; [by wp_steps|].
  unfold rand_row. wp_steps. rewrite (at_rows _ _ _ H). apply rp_umod; [lia|]. wp_steps.
  set (y := _ mod rows). assert (0 <= y < rows) by (apply Z.mod_pos_bound; lia).
  assert (H' : at_ tb l (over rand_calls S r)) by (destruct H; by split).
  wp_steps. eapply wp_mono; [by eapply eligible_at|]. intros ok r' [-> Hok].
  destruct ok; [|by apply IH]. wp_steps. split; [done|]. split; [done|]. by apply Hok.
Qed.

Lemma scan_rows_at tb l avoid n : forall ii r, at_ tb l r -> wf_rit nt rows tb ->
  0 <= ii -> ii + Z.of_nat n <= rows ->
  (exists y, ii <= y < ii + Z.of_nat n /\ fresh_row tb tr avoid y) ->
  wp (scan_rows n ii k avoid) r (fun g r' => at_ tb l r' /\
    match g with Some y => 0 <= y < rows /\ fresh_row tb tr avoid y | None => False end).
Proof.
  induction n as [|n IH]; intros ii r H Hwf Hi Hr (y & Hy & Hf); [lia|]. cbn [scan_rows].
  wp_step. eapply wp_mono; [eapply eligible_at; [done|done|lia]|]. intros ok r' [-> Hok].
  destruct ok.
  - wp_steps. split; [done|]. split; [lia|]. by apply Hok.
  - apply IH; try done; [lia|lia|]. exists y. split; [|done].
    destruct (decide (y = ii)) as [->|]; [by discriminate (proj2 Hok)|lia].
Qed.

(** The assertion of the generator cannot fail, and the row is fresh. *)
Lemma generate_at tb l r avoid : at_ tb l r -> wf_rit nt rows tb ->
  wp (generateRandomRowAddr rand_stream k avoid) r (fun y r' => at_ tb l r' /\
    0 <= y < rows /\ fresh_row tb tr avoid y).
Proof.
  intros H Hwf. unfold generateRandomRowAddr. wp_steps. rewrite (at_rows _ _ _ H).
  eapply wp_mono; [apply guess_row_at; [done|done|lia]|]. intros g r1 [H1 Hg].
  apply wp_bind. eapply (wp_mono _ _ (fun g' r' => at_ tb l r' /\
    match g' with Some y => 0 <= y < rows /\ fresh_row tb tr avoid y | None => False end)).
  - destruct g as [y|]; wp_steps; [done|].
    eapply wp_mono; [by apply count_stat_at|]. intros [] r2 H2.
    apply scan_rows_at; try done; [lia|]. rewrite Z2Nat.id by lia.
    eapply exists_fresh; try done; lia.
  - intros [y|] r2 [H2 Hy]; [|done]. wp_step. apply wp_assert; [lia|]. by wp_steps.
Qed.

(** What the swap of [row] with a fresh row leaves in the table. *)
Record swapped_in (tb : RIT) (row y : Z) (tb' : RIT) (dv : Z) : Prop := {
  si_wf : wf_rit nt rows tb';
  si_pair : locked_pair tb' row y;
  si_valid : valid_tuples tb' = valid_tuples tb + dv;
  si_locked : bsum locked (tuples tb') <= bsum locked (tuples tb) + 2;
  si_kept : forall a b, locked_pair tb a b -> a <> row -> b <> row -> locked_pair tb' a b;
  si_partner : forall a, locked_pair tb a row -> exists b, locked_pair tb' a b }.
Lemma swapped_in_stays tb row y tb' dv a b : swapped_in tb row y tb' dv -> locked_pair tb a b -> exists b', locked_pair tb' a b'.
Proof.
  intros S Hab. destruct (decide (a = row)) as [->|Ha]; [by exists y; apply (si_pair _ _ _ _ _ S)|].
  destruct (decide (b = row)) as [->|Hb]; [by apply (si_partner _ _ _ _ _ S)|]. exists b. by apply (si_kept _ _ _ _ _ S).
Qed.

(** Both branches of the installation, a new tuple and a re-swap. *)
Lemma swap_in_at tb r row y found :
  at_ tb [row; y] r -> wf_rit nt rows tb -> valid_tuples tb < nt -> fresh_row tb tr row y ->
  match found with
  | None => rowHasEntry tb !! row = Some 0
  | Some id => 0 <= id < nt /\ exists e, tuples tb !! id = Some e /\
                 valid e = true /\ in_pair e row = true
  end ->
  wp (match found with
      | Some id =>
          prev ← on_table k (repartner id row y);
          b ← generateRandomRowAddr rand_stream k prev;
          push prev;; push b;;
          on_table k (install prev b)
      | None => on_table k (install row y)
      end) r (fun _ r' => exists tb' l, zlen l <= 2 /\ at_ tb' (row :: y :: l) r' /\
                swapped_in tb row y tb' 1).
Proof.
  intros H Hwf Hv (Hyr & Hy & _) Hf. destruct found as [id|].
  - destruct Hf as (Hid & e & He & Hev & Hp). wp_step.
    eapply wp_mono; [eapply on_table_at; [done|eapply repartner_spec; eauto]|].
    intros prev r1 (tb1 & (Hpp & Hpf & Hpr & Hpy & Hl1 & B1) & H1). wp_step.
    pose proof (bc_wf _ _ _ _ _ _ _ B1) as Hwf1.
    eapply wp_mono; [by apply generate_at|]. intros b r2 (H2 & _ & Hb1 & Hb & _). wp_step.
    eapply wp_mono; [by apply push_at|]. intros [] r3 H3. wp_step.
    eapply wp_mono; [by apply push_at|]. intros [] r4 H4.
    eapply wp_mono; [eapply on_table_at; [done|]|].
    { eapply install_spec; eauto. pose proof (bc_valid _ _ _ _ _ _ _ B1). lia. }
    intros [] r5 (tb2 & [Hl2 B2] & H5). exists tb2, [prev; b].
    split; [done|]. split; [done|]. destruct B1, B2. split; [done| |lia|lia| |].
    + apply bc_kept1; [done|]. left. by apply locked_paired.
    + intros c d Hcd Hc Hd. apply bc_kept1; [|left; apply bc_pairs0].
      * apply bc_kept0; [done|]. left. split_and!; [by apply locked_paired|done|done].
      * left. split_and!; [by apply locked_paired|done|done].
    + intros a Ha. exists b. assert (a = prev) as ->; [|done].
      apply (paired_fun nt rows tb row); [done|by apply paired_sym, locked_paired|exact Hpp].
  - eapply wp_mono; [eapply on_table_at; [done|eapply install_spec; eauto]|].
    intros [] r1 (tb1 & [Hl1 B1] & H1). exists tb1, []. split; [done|]. split; [done|].
    destruct B1. split; [done|done|lia|lia| |].
    + intros c d Hcd Hc Hd. apply bc_kept0; [done|]. left. by apply locked_paired.
    + intros a Ha. by destruct (free_unpaired nt rows tb row a Hwf Hf); apply paired_sym, locked_paired.
Qed.

Lemma unswap_at tb tb1 l r row y :
  at_ tb1 l r -> zlen l <= 4 -> swapped_in tb row y tb1 1 ->
  bsum locked (tuples tb) + 2 <= valid_tuples tb ->
  wp ('(x, y) ← on_table k unswap; push x;; push y) r (fun _ r' =>
    exists tb2 l', at_ tb2 (l ++ l') r' /\ swapped_in tb row y tb2 0).
Proof.
  intros H Hl S Hlk. pose proof (si_wf _ _ _ _ _ S) as Hwf1.
  pose proof (si_valid _ _ _ _ _ S) as Hv1. pose proof (si_locked _ _ _ _ _ S) as Hl1. wp_step.
  eapply wp_mono; [eapply on_table_at; [done|eapply unswap_spec; eauto; lia]|].
  intros [x z] r1 (tb2 & (_ & (i & e & Hi & Hv & Hle & Hie) & B) & H1). wp_step.
  eapply wp_mono; [apply push_at; [done|lia]|]. intros [] r2 H2.
  eapply wp_mono; [apply push_at; [done|unfold zlen in *; rewrite length_app; cbn; lia]|].
  intros [] r3 H3. exists tb2, ([x] ++ [z]). rewrite app_assoc. split; [done|].
  assert (Hk : forall a b, locked_pair tb1 a b -> locked_pair tb2 a b).
  { intros a b Hab. apply (bc_kept _ _ _ _ _ _ _ B); [done|]. split; [by apply locked_paired|].
    intros Hxz. destruct Hab as (j & e' & Hj & Hv' & Hl' & Hp').
    assert (Hp'' : in_pair e' x = true).
    { destruct Hxz as [[-> ->]|[-> ->]]; by eapply is_pair_in. }
    assert (i = j) as ->.
    { eapply (wf_same_tuple _ _ tb1 i j e e' x); try done. by eapply is_pair_in. }
    simplify_eq. congruence. }
  destruct S, B. split; [done|by apply Hk|lia|lia| |]; [by auto|].
  intros a (b & Hab)%si_partner0. exists b. by apply Hk.
Qed.
End Bank.

(** ** The swap *)

(** What [insertTuple] leaves. *)
Record inserted (k : bank) (row : Z) (r : t) (tb : RIT) tr r' tb' y l : Prop := {
  in_at : at_ k r tb' (row :: y :: l) r';
  in_valid : valid_tuples tb' <= maxValidTuples r;
  in_fresh : fresh_row tb tr row y;
  in_swap : exists dv, swapped_in r tb row y tb' dv }.
Lemma insertTuple_wp rand_stream k row (r : t) tb tr ne W f :
  let nt := numTuples r in
  let rows := numRows (base r) in
  0 <= nt < 2 ^ 32 - 1 -> 0 <= ne < 2 ^ 32 -> 1 + 2 * nt + ne < rows ->
  Misra_Gries.trackers (detector r) !! k = Some tr -> Misra_Gries.tracker_wf ne rows tr W f ->
  tables r !! k = Some tb -> wf_rit nt rows tb ->
  valid_tuples tb <= maxValidTuples r -> bsum locked (tuples tb) + 2 <= maxValidTuples r ->
  maxValidTuples r < nt -> 0 <= row < rows -> plan (decision (base r)) [] ->
  wp (insertTuple rand_stream k row) r (fun _ r' => exists tb' y l, inserted k row r tb tr r' tb' y l).
Proof.
  intros nt rows Hnt Hne Hroom Htr Hwft Htb Hwf Hval Hlk Hmax Hrow Hplan.
  assert (H0 : at_ k r tb [] r).
  { split; try done; [by rewrite insert_id|]. exists (decision (base r)).
    split; [by destruct r as [[]]|done]. }
  unfold insertTuple. wp_steps. eapply wp_mono; [by apply push_at|]. intros [] r1 H1. wp_step.
  eapply wp_mono; [by eapply generate_at|]. intros y r2 (H2 & _ & Hy). wp_step.
  eapply wp_mono; [by apply push_at|]. intros [] r3 H3. wp_step.
  eapply wp_mono; [eapply on_table_at; [done|by eapply find_tuple_spec]|].
  intros found r4 (tb0 & [-> Hfound] & H4). wp_step.
  set (reswap := match found with Some id => _ | None => None end).
  assert (reswap = found) as ->.
  { unfold reswap. destruct found as [id|]; [|done].
    destruct (Z.ltb_spec id (numTuples r)); [done|unfold nt in *; lia]. }
  cbn [app] in H4.
  eapply wp_mono; [eapply swap_in_at; eauto; lia|].
  intros [] r5 (tb1 & l & Hl & H5 & S1). wp_step. eapply get_table_at; [done|]. wp_step.
  eapply (wp_mono _ _ (fun _ r' => exists tb2 l', at_ k r tb2 (row :: y :: l') r' /\
    valid_tuples tb2 <= maxValidTuples r /\ exists dv, swapped_in r tb row y tb2 dv)).
  - destruct (Z.ltb_spec (maxValidTuples r) (valid_tuples tb1)) as [Hgt|Hle].
    + pose proof (si_valid _ _ _ _ _ _ S1).
      eapply wp_mono; [eapply unswap_at; eauto; unfold zlen in *; cbn in *; lia|].
      intros [] r6 (tb2 & l' & H6 & S2). exists tb2, (l ++ l'). split; [done|].
      split; [|by exists 0]. pose proof (si_valid _ _ _ _ _ _ S2). lia.
    + wp_steps. exists tb1, l. split; [done|]. split; [done|]. by exists 1.
  - intros [] r6 (tb2 & l' & H6 & Hv2 & S2). wp_step. eapply get_table_at; [done|]. wp_step.
    apply wp_assert; [lia|]. eapply wp_mono; [by apply count_stat_at|].
    intros [] r7 H7. exists tb2, y, l'. by split.
Qed.

(** The row a look-up answers, from the table alone. *)
Lemma getRemappedAddr_wp k (r : t) tb nt rows x fl :
  tables r !! k = Some tb -> wf_rit nt rows tb -> 0 <= nt < 2 ^ 32 - 1 -> 0 <= x < rows ->
  wp (getRemappedAddr k x fl) r (fun y r2 => tables r2 !! k = Some tb /\
    ((rowHasEntry tb !! x = Some 0 /\ y = x) \/ paired tb x y)).
Proof.
  intros H1 Hwf Hnt Hx. unfold getRemappedAddr, on_table, get_table. wp_steps. rewrite H1. wp_steps.
  pose proof (find_tuple_spec _ _ Hnt tb x Hwf Hx) as Hf.
  apply wp_inv in Hf as (f & tb0 & -> & -> & Hf). cbn. wp_steps.
  destruct f as [id|]; wp_steps; unfold over; cbn; rewrite ?lookup_insert_eq; [|by split; [|left]].
  destruct Hf as (_ & e & He & Hv & Hp). wp_steps. eapply rp_aread; [exact He|]. wp_steps.
  apply wp_when; intros _; wp_steps; unfold over; cbn; rewrite lookup_insert_eq; (split; [done|]).
  all: right; exists id, e; split_and!; [done|done|]; by apply (other_pair e x).
Qed.

(** ** Properties *)

(** C20. [insertTuple] never fails an assertion on a well-formed bank with
    more rows than the table and the tracker can occupy and at most
    [maxValidTuples - 2] tuples locked in this window.  It swaps the aggressor
    with a row that was in no tuple and not tracked, keeps the table well
    formed and within [maxValidTuples], keeps every other pair locked in this
    window, and the decision announces the aggressor and its partner first. *)
Theorem insertTuple_swaps rand_stream k row (r : t) tb tr ne W f :
  let nt := numTuples r in
  let rows := numRows (base r) in
  0 <= nt < 2 ^ 32 - 1 -> 0 <= ne < 2 ^ 32 -> 1 + 2 * nt + ne < rows ->
  Misra_Gries.trackers (detector r) !! k = Some tr -> Misra_Gries.tracker_wf ne rows tr W f ->
  tables r !! k = Some tb -> wf_rit nt rows tb ->
  valid_tuples tb <= maxValidTuples r -> bsum locked (tuples tb) + 2 <= maxValidTuples r ->
  maxValidTuples r < nt -> 0 <= row < rows -> plan (decision (base r)) [] ->
  exists r' tb' y l, insertTuple rand_stream k row r = Ok (tt, r') /\
    at_ k r tb' (row :: y :: l) r' /\ wf_rit nt rows tb' /\
    valid_tuples tb' <= maxValidTuples r /\
    fresh_row tb tr row y /\ paired tb' row y /\
    forall a b, locked_pair tb a b -> a <> row -> b <> row -> locked_pair tb' a b.
Proof.
  intros nt rows Hnt Hne Hroom Htr Hwft Htb Hwf Hval Hlk Hmax Hrow Hplan.
  destruct (wp_inv _ _ _ (insertTuple_wp rand_stream k row r tb tr ne W f Hnt Hne Hroom Htr Hwft Htb Hwf Hval Hlk Hmax Hrow Hplan))
    as ([] & r' & E & tb' & y & l & [Hat Hv Hf (dv & [])]).
  exists r', tb', y, l. split_and!; try done. by apply locked_paired.
Qed.

(** The remapping is an involution: on a well-formed table, a row and the
    row it is remapped to are remapped to each other, and a row in no tuple is
    remapped to itself. *)
Theorem getRemappedAddr_involutive k (r : t) tb row fl :
  tables r !! k = Some tb -> wf_rit (numTuples r) (numRows (base r)) tb ->
  0 <= numTuples r < 2 ^ 32 - 1 -> 0 <= row < numRows (base r) ->
  exists row' r', getRemappedAddr k row fl r = Ok (row', r') /\
    (row' = row \/ paired tb row row') /\
    exists r'', getRemappedAddr k row' fl r' = Ok (row, r'').
Proof.
  intros Htb Hwf Hnt Hr.
  pose proof (fun r1 x H1 Hx => getRemappedAddr_wp k r1 tb _ _ x fl H1 Hwf Hnt Hx) as Hget.
  pose proof (Hget r row Htb Hr) as H1. apply wp_inv in H1 as (row' & r' & E & Htb' & Hp).
  exists row', r'. split; [done|]. split; [by destruct Hp as [[_ ->]|]; auto|].
  assert (Hr' : 0 <= row' < numRows (base r)).
  { destruct Hp as [[_ ->]|Hp]; [done|]. by destruct (paired_entry _ _ _ _ _ Hwf (paired_sym _ _ _ Hp)) as (? & ? & ? & ?). }
  pose proof (Hget r' row' Htb' Hr') as H2. apply wp_inv in H2 as (row2 & r'' & E2 & _ & Hp2).
  exists r''. rewrite E2. enough (row2 = row) by congruence.
  destruct Hp as [[H0 ->]|Hp], Hp2 as [[H0' ->]|Hp2]; try done.
  - by destruct (free_unpaired _ _ _ _ row2 Hwf H0).
  - by destruct (free_unpaired _ _ _ _ row Hwf H0'); apply paired_sym.
  - by eapply paired_fun; [|done|apply paired_sym].
Qed.

(** *** A small instance *)

Definition raw0 : RH_Mitigation :=
  mkMitigation 0 0 0 0 0 0 resetDecision [] 0 0 0 false 0 0 0 0 0 0 [] 0.
Definition tracker0 : Misra_Gries.Tracker :=
  Misra_Gries.mkTracker (calloc 2 Misra_Gries.zero_entry) 0 ∅ (calloc 16 0) 0 0 0 0 0.
Definition det0 : Misra_Gries.t :=
  Misra_Gries.create (fun _ => tracker0) 2 4 16 1 1 1.
Definition rrs0 : t := create raw0 0 det0 4 16 4 1 1 1.
Definition table0 : RIT := mkRIT (calloc 5 zero_tuple) (calloc 16 0) 0.

Lemma wf_rit_fresh nt rows : 0 <= nt -> 0 <= rows ->
  wf_rit nt rows (mkRIT (calloc nt zero_tuple) (calloc rows 0) 0).
Proof.
  intros. split; cbn; rewrite ?zlen_calloc by done; try done.
  - intros i e [-> _]%zlookup_calloc. done.
  - intros x v [-> _]%zlookup_calloc. done.
  - intros i e [-> _]%zlookup_calloc. done.
  - unfold bsum. rewrite lsum_calloc by done. cbn. lia.
Qed.

Lemma insertTuple_swaps_witness :
  exists r' tb' y l, insertTuple (fun _ => 19) (0, 0, 0) 3 rrs0 = Ok (tt, r') /\
    at_ (0, 0, 0) rrs0 tb' (3 :: y :: l) r' /\ wf_rit 5 16 tb' /\ valid_tuples tb' <= 4 /\
    fresh_row table0 tracker0 3 y /\ paired tb' 3 y /\
    forall a b, locked_pair table0 a b -> a <> 3 -> b <> 3 -> locked_pair tb' a b.
Proof.
  apply (insertTuple_swaps (fun _ => 19) (0, 0, 0) 3 rrs0 table0 tracker0 2 0 (fun _ => 0)).
  - vm_compute. split; congruence.
  - lia.
  - reflexivity.
  - reflexivity.
  - by apply Misra_Gries.wf_fresh.
  - reflexivity.
  - by apply (wf_rit_fresh 5 16).
  - vm_compute. congruence.
  - vm_compute. congruence.
  - reflexivity.
  - vm_compute. split; congruence.
  - split_and!; try reflexivity. intros i a Hi. by rewrite zlookup_nil in Hi.
Defined.

Lemma getRemappedAddr_involutive_witness :
  exists row' r', getRemappedAddr (0, 0, 0) 3 false rrs0 = Ok (row', r') /\
    (row' = 3 \/ paired table0 3 row') /\
    exists r'', getRemappedAddr (0, 0, 0) row' false r' = Ok (3, r'').
Proof.
  apply (getRemappedAddr_involutive (0, 0, 0) rrs0 table0 3 false).
  - reflexivity.
  - by apply (wf_rit_fresh 5 16).
  - vm_compute. split; congruence.
  - vm_compute. split; congruence.
Defined.
End Randomized_Row_Swap.
