(* ===== verification/RRSAccess.v ===== *)
(** A whole [Randomized_Row_Swap::access] of RRS.v and a window of accesses: the locked
    tuples stay within what the detector can have flagged, so no assertion fails, and a row
    that was flagged stays swapped until the window ends. *)
From S2P Require Import Prelude Detector Mitigation RRS.

Module SwapAccess.
Import Randomized_Row_Swap.

(** ** The history of a window *)

(** Accesses to a bank, to a row of it, and flags raised for the row. *)
Record hist := mkHist { loads : bank -> Z; acts : bank -> Z -> Z; marks : bank -> Z -> Z }.
Definition hist0 : hist := mkHist (fun _ => 0) (fun _ _ => 0) (fun _ _ => 0).
Definition roll (over : bool) (h : hist) : hist := if over then hist0 else h.
Definition record_access (h : hist) (k : bank) (row : Z) (fl : bool) : hist :=
  mkHist (Misra_Gries.upd_bank (loads h) k (loads h k + 1))
         (Misra_Gries.upd_bank (acts h) k (bump (acts h k) row 1))
         (Misra_Gries.upd_bank (marks h) k (bump (marks h k) row (Z.b2z fl))).

Lemma record_loads h k row fl k' : loads (record_access h k row fl) k' = loads h k' + Z.b2z (bool_decide (k' = k)).
Proof. cbn. unfold Misra_Gries.upd_bank. case_bool_decide; [subst|]; cbn; lia. Qed.
Lemma record_marks h k row fl k' x : marks (record_access h k row fl) k' x = marks h k' x + Z.b2z (bool_decide ((k', x) = (k, row)) && fl).
Proof.
  cbn. unfold Misra_Gries.upd_bank. case_bool_decide as E; [subst|rewrite bool_decide_false by congruence; cbn; lia].
  unfold bump. destruct (Z.eqb_spec x row) as [->|Hn]; [rewrite bool_decide_true by done|rewrite bool_decide_false by congruence]; cbn; lia.
Qed.

(** ** The invariant *)

Section Access.
(** The detector has [ne] counters per bank, [rows] rows per bank, the threshold [thr]; the
    table [nt] tuples, of which at most [cap] are valid. *)
Context (ne rows thr nt cap banks : Z) (Hne : 0 <= ne < 2 ^ 32) (Hthr : 0 < thr).
Context (Hnt : 0 <= nt < 2 ^ 32 - 1) (Hroom : 1 + 2 * nt + ne < rows) (Hcap : cap < nt).

(** A table and the tracker of its bank; [due] tuples more are about to be locked. *)
Record table_ok (due : Z) (tb : RIT) (tr : Misra_Gries.Tracker) : Prop := {
  tk_wf : wf_rit nt rows tb;
  tk_valid : valid_tuples tb <= cap;
  tk_locked : bsum locked (tuples tb) + 2 * due <= 2 * Misra_Gries.raised thr (Misra_Gries.entries tr) }.

(** The members of the base class, without the decision. *)
Record base_ok (b : RH_Mitigation) : Prop := {
  bo_rows : numRows b = rows;
  bo_banks : numBanks b = banks;
  bo_counts : zlen (numAccessesToRow b) = numDRAMRows b;
  bo_total : numDRAMRows b = rows * banks * numRanks b * numChannels b;
  bo_logs : zlen (s_numLogRowAccesses b) = 4 }.

(** [owed] is a row that was flagged and is not swapped yet. *)
Record sound (owed : option (bank * Z)) (h : hist) (r : t) : Prop := {
  so_window : Misra_Gries.window ne rows thr (detector r) (loads h) (acts h) (marks h);
  so_det : Misra_Gries.numEntries (detector r) = ne /\ Misra_Gries.numRows (detector r) = rows;
  so_base : base_ok (base r);
  so_num : numTuples r = nt /\ maxValidTuples r = cap;
  so_keys : dom (Misra_Gries.trackers (detector r)) = dom (tables r);
  so_banks : forall ch rk b, (ch, rk, b) ∈ dom (tables r) ->
    0 <= b < banks /\ 0 < numRanks (base r) /\ 0 < numChannels (base r);
  so_tables : forall k tb tr, tables r !! k = Some tb -> Misra_Gries.trackers (detector r) !! k = Some tr ->
    table_ok (Z.b2z (bool_decide (fst <$> owed = Some k))) tb tr;
  so_swapped : forall k tb x, tables r !! k = Some tb -> 0 < marks h k x -> owed <> Some (k, x) ->
    exists y, locked_pair tb x y }.
Abbreviation ready := (sound None).

Lemma sound_frame owed h r r' : sound owed h r -> detector r' = detector r -> tables r' = tables r ->
  numTuples r' = numTuples r -> maxValidTuples r' = maxValidTuples r ->
  base_ok (base r') -> numRanks (base r') = numRanks (base r) -> numChannels (base r') = numChannels (base r) -> sound owed h r'.
Proof using. intros [] Ed Et En Em Hb Er Ec. split; rewrite ?Ed, ?Et, ?En, ?Em, ?Er, ?Ec; done. Qed.

Lemma base_setup b b' : base_ok b -> same_setup b b' -> base_ok b'.
Proof using.
  intros [] (E1 & E2 & E3 & E4 & _ & _ & _ & _ & _ & _ & _ & E5 & E6).
  assert (numDRAMRows b' = numDRAMRows b) as E by (unfold numDRAMRows; by rewrite E1, E2, E3, E4).
  split; rewrite ?E1, ?E2, ?E3, ?E4, ?E5, ?E6, ?E; done.
Qed.
Lemma swap_sound_base owed h r b' : sound owed h r -> base_ok b' -> numRanks b' = numRanks (base r) ->
  numChannels b' = numChannels (base r) -> sound owed h (r <| base := b' |>).
Proof using. intros H Hb Er Ec. by apply (sound_frame owed h r). Qed.

(** What no access changes. *)
Record kept (r r' : t) : Prop := {
  kp_dom : dom (tables r') = dom (tables r);
  kp_swapDelay : swapDelay (base r') = swapDelay (base r) }.
Lemma swap_kept_trans r1 r2 r3 : kept r1 r2 -> kept r2 r3 -> kept r1 r3.
Proof using. intros [] []. split; congruence. Qed.

Lemma sound_table owed h r k tb : sound owed h r -> tables r !! k = Some tb -> wf_rit nt rows tb.
Proof using.
  intros H Htb. assert (k ∈ dom (Misra_Gries.trackers (detector r))) as [tr Htr]%elem_of_dom.
  { rewrite (so_keys _ _ _ H). by apply elem_of_dom. }
  apply (so_tables _ _ _ H k tb tr Htb Htr).
Qed.
Lemma marks_nonneg owed h r k x : sound owed h r -> k ∈ dom (tables r) -> 0 <= x < rows -> 0 <= marks h k x.
Proof using Hthr.
  intros H Hk Hx. rewrite <- (so_keys _ _ _ H) in Hk. apply elem_of_dom in Hk as [tr Htr].
  pose proof (so_window _ _ _ H) as Hw. pose proof (Misra_Gries.win_wf _ _ _ _ _ _ _ Hw k tr Htr) as Hwf.
  destruct (Misra_Gries.win_flags _ _ _ _ _ _ _ Hw k tr Htr) as [Hf Hf0].
  destruct (zlookup_is_Some (Misra_Gries.rowHasEntry tr) x) as [v Hv]; [by rewrite (Misra_Gries.wf_rows _ _ _ _ _ _ _ Hwf)|].
  destruct (decide (v = 0)) as [->|Hnz]; [by rewrite (Hf0 x Hv)|].
  destruct (Misra_Gries.wf_row _ _ _ _ _ _ _ Hwf x v Hv Hnz) as (e & Hi & He & <-). rewrite (Hf _ e Hi He).
  apply Z.div_pos; [apply (Misra_Gries.wf_count_bound _ _ _ _ _ _ _ _ _ Hwf Hi)|done].
Qed.

(** ** The reset *)

Lemma unlock_wf tb : wf_rit nt rows tb -> wf_rit nt rows (unlock tb).
Proof using.
  assert (Hl : forall i e, (tuples (unlock tb)) !! i = Some e -> exists e0, tuples tb !! i = Some e0 /\ e = e0 <| locked := false |>).
  { unfold unlock, over. cbn. intros i e. rewrite zlookup_fmap. destruct (tuples tb !! i); [|done]. intros [= <-]. by eexists. }
  intros []. split; try done.
  - unfold unlock, over. cbn. by rewrite zlen_fmap.
  - intros i e (e0 & Hi & ->)%Hl Hv. exact (rit_tuple0 i e0 Hi Hv).
  - intros x v Hx Hv. destruct (rit_row0 x v Hx Hv) as (e & Hi & He & Hp). exists (e <| locked := false |>).
    split; [|done]. unfold unlock, over. cbn. by rewrite zlookup_fmap, Hi.
  - intros i e (e0 & _ & ->)%Hl Hv. done.
  - unfold unlock, over. cbn. rewrite rit_count0. unfold bsum. clear. induction (tuples tb); cbn; [done|]. by rewrite IHl.
Qed.
Lemma unlock_locked tb : bsum locked (tuples (unlock tb)) = 0.
Proof using. unfold unlock, over, bsum. cbn. induction (tuples tb); cbn; [done|]. done. Qed.

Lemma swap_reset_spec h r : ready h r ->
  wp reset r (fun _ r' => ready hist0 r' /\ kept r r' /\ decision (base r') = decision (base r) /\ last_reset (base r') = last_reset (base r)).
Proof using Hne Hthr Hnt Hroom.
  intros H. unfold reset. wp_step. wp_step. set (r1 := over detector _ _).
  assert (Hd : Misra_Gries.window ne rows thr (Misra_Gries.reset (detector r)) (loads hist0) (acts hist0) (marks hist0)).
  { pose proof (so_det _ _ _ H) as [E1 E2]. pose proof (Misra_Gries.win_thr _ _ _ _ _ _ _ (so_window _ _ _ H)) as E3.
    pose proof (Misra_Gries.reset_window (detector r)) as Hw. rewrite E1, E2, E3 in Hw. apply Hw; lia. }
  assert (H1 : ready hist0 r1).
  { destruct H. split; try done.
    - unfold r1, over. cbn. rewrite !dom_fmap_L. done.
    - unfold r1, over. cbn. by rewrite dom_fmap_L.
    - unfold r1, over. cbn. intros k tb tr. rewrite !lookup_fmap.
      destruct (tables r !! k) as [tb0|] eqn:Et; [|done]. destruct (Misra_Gries.trackers (detector r) !! k) as [tr0|] eqn:Er; [|done].
      intros [= <-] [= <-]. destruct (so_tables0 k tb0 tr0 Et Er). split; [by apply unlock_wf|done|].
      rewrite unlock_locked, bool_decide_false by done. cbn [Misra_Gries.entries Misra_Gries.reset_tracker over]. unfold Misra_Gries.raised.
      rewrite lsum_calloc by (destruct so_det0; lia). cbn [Misra_Gries.count Misra_Gries.zero_entry]. rewrite Z.div_0_l by lia. cbn. lia. }
  unfold on_base. wp_step. wp_step. wp_step. set (r2 := over base _ r1).
  assert (H2 : ready hist0 r2).
  { apply swap_sound_base; [done| |done|done]. eapply base_setup; [apply H1|]. done. }
  wp_step. wp_step. cbv beta. change (numDRAMRows (base r2)) with (numDRAMRows (base r)). wp_step.
  eapply (wp_for (fun _ b => same_setup (base r2) b)); [done| |].
  - intros i b Hi Hs. pose proof Hs as (_ & _ & _ & _ & _ & _ & _ & _ & _ & _ & _ & E5 & E6).
    pose proof (so_base _ _ _ H2) as [].
    apply census_row_spec; [|lia|].
    + rewrite E5, bo_counts0. change (numDRAMRows (base r2)) with (numDRAMRows (base r)).
      pose proof (zlen_nonneg (numAccessesToRow (base r2))) as Hz. rewrite bo_counts0 in Hz.
      change (numDRAMRows (base r2)) with (numDRAMRows (base r)) in Hz. lia.
    + intros b' Hs' _. by eapply same_setup_trans.
  - intros b Hs. pose proof Hs as (_ & _ & E3 & E4 & E5 & _ & E6 & _ & _ & E7 & _). split; [|split; [split|split; [exact E6|exact E5]]].
    2:{ unfold over. cbn. by rewrite dom_fmap_L. } 2:{ exact E7. }
    apply (swap_sound_base None hist0 r2); [done| |done|done]. eapply base_setup; [apply H2|done].
Qed.

(** ** One access *)

Definition owing (fl : bool) (k : bank) (row : Z) : option (bank * Z) := if fl then Some (k, row) else None.
Lemma detect_sound h r k row : ready h r -> k ∈ dom (tables r) -> 0 <= row < rows ->
  loads h k + 1 < 2 ^ 32 -> loads h k < thr * (ne + 1) ->
  wp (detect k row false) r (fun fl r' =>
    sound (owing fl k row) (record_access h k row fl) r' /\ exists d', r' = r <| detector := d' |>).
Proof using Hne Hthr.
  intros H Hk Hr H32 HW. destruct k as [[ch rk] b]. unfold detect. wp_step.
  assert (Hk' : (ch, rk, b) ∈ dom (Misra_Gries.trackers (detector r))) by (by rewrite (so_keys _ _ _ H)).
  pose proof (Misra_Gries.access_window ne rows thr Hne Hthr _ _ _ _ row ch rk b (so_window _ _ _ H) Hk' Hr H32 HW) as Hw.
  pose proof (Misra_Gries.access_raised ne rows thr Hne Hthr _ _ _ _ row ch rk b (so_window _ _ _ H) Hk' Hr H32) as Ha.
  apply wp_inv in Hw as (fl & d' & E & Hdom & Hwin). apply (fun H => wp_run _ _ _ _ _ H E) in Ha.
  destruct Ha as (tr & tr' & Htr & Etr & Hra & En & Er). unfold wp. rewrite E. split; [|by exists d'].
  set (k := (ch, rk, b)) in *. destruct H. split; unfold over; cbn; try done.
  - by rewrite En, Er.
  - by rewrite Hdom.
  - intros k' tb tr1 Htb. rewrite Etr. destruct (decide (k' = k)) as [->|Hkk].
    + rewrite lookup_insert_eq. intros [= <-]. destruct (so_tables0 k tb tr Htb Htr) as [? ? Hl]. split; [done..|].
      rewrite Hra. rewrite bool_decide_false in Hl by done. cbn in Hl. unfold owing.
      destruct fl; [rewrite bool_decide_true by done|rewrite bool_decide_false by done]; cbn; lia.
    + rewrite lookup_insert_ne by done. intros Ht. destruct (so_tables0 k' tb tr1 Htb Ht) as [? ? Hl]. split; [done..|].
      rewrite bool_decide_false in Hl by done. unfold owing. rewrite bool_decide_false by (destruct fl; cbn; congruence). done.
  - intros k' tb x Htb Hm Hne'. change (0 < marks (record_access h k row fl) k' x) in Hm. rewrite record_marks in Hm.
    apply (so_swapped0 k' tb x Htb); [|done]. case_bool_decide as Ex; [|cbn in Hm; lia].
    injection Ex as -> ->. destruct fl; [|cbn in Hm; lia]. by destruct Hne'.
Qed.

Lemma insert_sound rand_stream h r k row : sound (Some (k, row)) h r -> k ∈ dom (tables r) -> 0 <= row < rows ->
  2 * (loads h k / thr) <= cap -> plan (decision (base r)) [] ->
  wp (insertTuple rand_stream k row) r (fun _ r' => ready h r' /\ kept r r' /\
    same_setup ((base r) <| decision := decision (base r') |>) (base r') /\
    mitigate (decision (base r')) = mitigate (decision (base r)) /\
    exists y l, plan (decision (base r')) (row :: y :: l)).
Proof using Hne Hthr Hnt Hroom Hcap.
  intros H [tb Htb]%elem_of_dom Hr Hc Hp. pose proof H as [].
  assert (is_Some (Misra_Gries.trackers (detector r) !! k)) as [tr Htr].
  { apply elem_of_dom. rewrite so_keys0. by apply elem_of_dom. }
  pose proof (Misra_Gries.win_wf _ _ _ _ _ _ _ so_window0 k tr Htr) as Hwf.
  destruct (so_tables0 k tb tr Htb Htr) as [Hwt Hv Hl]. rewrite bool_decide_true in Hl by done. cbn in Hl.
  destruct so_num0 as [En Em]. destruct so_base0 as [Er0 Eb0 Ec0 Et0 El0].
  pose proof (Misra_Gries.raised_bound ne rows thr Hthr tr _ _ Hwf) as Hrb.
  eapply wp_mono; [eapply (insertTuple_wp rand_stream k row r tb tr ne); rewrite ?En, ?Em, ?Er0; try done; lia|].
  intros [] r' (tb' & y & l & [Hat Hv' Hf (dv & S)]). rewrite Em in Hv'.
  pose proof Hat as [Ed Emm Enn Ett (d & Eb & Hp' & Hmi)].
  assert (same_setup ((base r) <| decision := decision (base r') |>) (base r')) as Hsame.
  { rewrite Eb. done. }
  assert (dom (tables r') = dom (tables r)) as Edom by (rewrite Ett, dom_insert_lookup_L; [done|by eexists]).
  split; [|split; [split; [done|by rewrite Eb]|split; [done|split; [by rewrite Eb|exists y, l; by rewrite Eb]]]].
  assert (base_ok (base r')) as Hbo by (rewrite Eb; done).
  split; rewrite ?Ed, ?Enn, ?Emm; try done.
  - by rewrite so_keys0.
  - intros ch rk b. rewrite Edom, Eb. apply so_banks0.
  - intros k' tb1 tr1. rewrite Ett. destruct (decide (k' = k)) as [->|Hkk].
    + rewrite lookup_insert_eq, Htr. intros [= <-] [= <-]. split; [|done|].
      * pose proof (si_wf _ _ _ _ _ _ S) as Hw. by rewrite En, Er0 in Hw.
      * pose proof (si_locked _ _ _ _ _ _ S). rewrite bool_decide_false by done. cbn. lia.
    + rewrite lookup_insert_ne by done. intros Htb1 Htr1. destruct (so_tables0 k' tb1 tr1 Htb1 Htr1) as [? ? Hl1]. split; [done..|].
      rewrite bool_decide_false in Hl1 |- * by (cbn; congruence). done.
  - intros k' tb1 x. rewrite Ett. destruct (decide (k' = k)) as [->|Hkk].
    + rewrite lookup_insert_eq. intros [= <-] Hm _. destruct (decide (x = row)) as [->|Hx]; [exists y; apply (si_pair _ _ _ _ _ _ S)|].
      destruct (so_swapped0 k tb x Htb Hm) as [z Hz]; [congruence|]. by eapply swapped_in_stays.
    + rewrite lookup_insert_ne by done. intros Htb1 Hm _. apply (so_swapped0 k' tb1 x Htb1 Hm). congruence.
Qed.

(** The decision: the swap actions announced, and half the delay of a swap for each. *)
Definition decided (r : t) (row : Z) (d : Decision) : Prop :=
  if mitigate d then exists y l, plan d (row :: y :: l) /\ delay d = u64 (swapDelay (base r) * zlen (row :: y :: l)) / 2
  else plan d [] /\ delay d = 0.
(** The outcome of an access at [now] to [row] of bank [k]. *)
Record accessed (h : hist) (now : Z) (k : bank) (row : Z) (r : t) (d : Decision) (r' : t) : Prop := {
  ac_ready : ready (record_access (roll (window_over (base r) now) h) k row (mitigate d)) r';
  ac_kept : kept r r';
  ac_last : last_reset (base r') = if window_over (base r) now then now else last_reset (base r);
  ac_decided : decided r row d }.

Lemma roll_over_sound h r now : ready h r -> plan (decision (base r)) [] -> delay (decision (base r)) = 0 ->
  wp (when_ (window_over (base r) now) (on_base (modify (fun b => b <| last_reset := now |>));; reset)) r (fun _ r' =>
    ready (roll (window_over (base r) now) h) r' /\ kept r r' /\ decision (base r') = decision (base r) /\
    last_reset (base r') = if window_over (base r) now then now else last_reset (base r)).
Proof using Hne Hthr Hnt Hroom.
  intros H _ _. apply wp_when; intros E; rewrite E; cbn [roll]; [|done]. unfold on_base. wp_step. wp_step. wp_step.
  set (r1 := over base _ r). assert (ready h r1) as H1.
  { apply swap_sound_base; [done| |done|done]. destruct (so_base _ _ _ H). by split. }
  eapply wp_mono; [by eapply swap_reset_spec|]. intros [] r' (H' & K & Ed & El). split; [done|]. split; [by destruct K|]. done.
Qed.

Lemma count_sound h r k row : ready h r -> k ∈ dom (tables r) -> 0 <= row < rows ->
  wp (on_base (count_access (snd k + numBanks (base r) * row))) r (fun _ r' =>
    ready h r' /\ kept r r' /\ decision (base r') = decision (base r) /\ last_reset (base r') = last_reset (base r)).
Proof using Hne Hnt Hroom.
  intros H Hk Hr. destruct k as [[ch rk] b]. cbn [snd]. destruct (so_base _ _ _ H). destruct (so_banks _ _ _ H ch rk b Hk) as (Hb & Hrk & Hch).
  unfold on_base. wp_step. destruct (zlookup_is_Some (numAccessesToRow (base r)) (b + numBanks (base r) * row)) as [n Hn].
  { rewrite bo_counts0, bo_total0, bo_banks0. assert (1 <= numRanks (base r) * numChannels (base r)) by nia.
    assert (b + banks * row < rows * banks) by nia.
    assert (rows * banks * 1 <= rows * banks * (numRanks (base r) * numChannels (base r))) by (apply Z.mul_le_mono_nonneg_l; nia). nia. }
  eapply count_access_spec; [exact Hn|]. split; [|done].
  apply swap_sound_base; [done| |done|done]. split; try done. cbn. by rewrite zlen_insert.
Qed.

Lemma swap_access_wp rand_stream h r now row ch rk b : let k := (ch, rk, b) in
  ready h r -> k ∈ dom (tables r) -> 0 <= row < rows ->
  (let n := loads (roll (window_over (base r) now) h) k + 1 in n < 2 ^ 32 /\ n <= thr * (ne + 1) /\ 2 * (n / thr) <= cap) ->
  wp (access rand_stream now row b rk ch) r (accessed h now k row r).
Proof using Hne Hthr Hnt Hroom Hcap.
  intros k H Hk Hr Hn. unfold access. fold k. wp_step. unfold on_base at 1. wp_step. wp_step.
  set (r1 := over base _ r). assert (ready h r1) as H1.
  { apply swap_sound_base; [done| |done|done]. destruct (so_base _ _ _ H). by split. }
  wp_step. wp_step. wp_step.
  assert (plan (decision (base r1)) []) as Hp1. { split_and!; [done|done|done|]. intros i a Hi. by rewrite zlookup_nil in Hi. }
  eapply wp_mono; [by eapply roll_over_sound|]. change (window_over (base r1) now) with (window_over (base r) now).
  change (last_reset (base r1)) with (last_reset (base r)). set (h0 := roll _ h) in *. destruct Hn as (Hn1 & Hn2 & Hn3).
  intros [] r2 (H2 & K2 & Ed2 & El2). wp_step.
  assert (numBanks (base r2) = numBanks (base r)) as Enb by (rewrite (bo_banks _ (so_base _ _ _ H)); apply (so_base _ _ _ H2)).
  assert (k ∈ dom (tables r2)) as Hk2 by by rewrite (kp_dom _ _ K2).
  change (numBanks (base r1)) with (numBanks (base r)). rewrite <- Enb.
  eapply wp_mono; [by apply (count_sound h0 r2 k row)|]. intros _ r3 (H3 & K3 & Ed3 & El3). wp_step.
  assert (k ∈ dom (tables r3)) as Hk3 by by rewrite (kp_dom _ _ K3).
  eapply wp_mono; [apply (detect_sound h0 r3 k row); [done..|lia|lia]|]. intros fl r4 (H4 & d4 & ->). wp_step.
  unfold on_base at 1, on_decision at 1. wp_step. wp_step. wp_step. wp_step. wp_step.
  set (r5 := over base _ _). set (h' := record_access h0 k row fl) in *.
  assert (sound (owing fl k row) h' r5) as H5.
  { apply swap_sound_base; [done| |done|done]. destruct (so_base _ _ _ H3). by split. }
  assert (kept r r5) as K5 by (apply (swap_kept_trans _ r1); [done|]; apply (swap_kept_trans _ r2); [done|]; by apply (swap_kept_trans _ r3)).
  assert (plan (decision (base r5)) []) as Hp5.
  { unfold r5, over. cbn. rewrite Ed3, Ed2. exact Hp1. }
  assert (mitigate (decision (base r5)) = fl /\ delay (decision (base r5)) = 0) as [Hm5 Hd5].
  { unfold r5, over. cbn. by rewrite Ed3, Ed2. }
  assert (last_reset (base r5) = if window_over (base r) now then now else last_reset (base r)) as El5.
  { unfold r5, over. cbn. by rewrite El3, El2. }
  wp_step. clearbody r5. clear r1 H1 Hp1 r2 H2 K2 Ed2 El2 Enb Hk2 r3 H3 K3 Ed3 El3 Hk3 d4 H4.
  destruct fl; cbn [when_ owing] in *; last first.
  { wp_step. wp_step. split; rewrite ?Hm5; try done. unfold decided. by rewrite Hm5. }
  wp_step. eapply wp_mono; [apply (insert_sound rand_stream h' r5 k row); try done|].
  { by rewrite (kp_dom _ _ K5). }
  { unfold h'. by rewrite record_loads, bool_decide_true. }
  intros [] r6 (H6 & K6 & Hs & Hm6 & y & l & Hp6). unfold on_base, on_decision. wp_step. wp_step. wp_step. wp_step. wp_step. wp_step.
  pose proof Hs as (_ & _ & Erk & Ech & Els & _ & _ & _ & _ & Esd & _).
  assert (swapDelay (base r6) = swapDelay (base r)) as Esw by (rewrite (kp_swapDelay _ _ K6); apply (kp_swapDelay _ _ K5)).
  set (r7 := over base _ r6). assert (ready h' r7) as H7.
  { apply swap_sound_base; [done| |done|done]. destruct (so_base _ _ _ H6). by split. }
  assert (mitigate (decision (base r7)) = true) as Hm7 by (rewrite <- Hm5; exact Hm6).
  split.
  - by rewrite Hm7.
  - split; cbn; [rewrite (kp_dom _ _ K6); apply (kp_dom _ _ K5)|done].
  - change (last_reset (base r6) = if window_over (base r) now then now else last_reset (base r)). rewrite <- El5. exact Els.
  - unfold decided. rewrite Hm7. exists y, l. split; [exact Hp6|].
    change (u64 (swapDelay (base r6) * validAddrs (decision (base r6))) / 2 = u64 (swapDelay (base r) * zlen (row :: y :: l)) / 2).
    destruct Hp6 as (_ & _ & -> & _). by rewrite Esw.
Qed.

(** ** Windows of accesses *)

(** An access: when, and to which row of which bank. *)
Definition event : Type := Z * (Z * bank).
Definition over_at (last now : Z) : bool := refresh_window <=? u64 (now - last).
Fixpoint serve (rand_stream : nat -> Z) (evs : list event) : comp t (list Decision) :=
  match evs with
  | [] => mret []
  | (now, (row, (ch, rk, b))) :: evs' =>
      d ← access rand_stream now row b rk ch; ds ← serve rand_stream evs'; mret (d :: ds)
  end.
(** At most [limit] accesses to each bank in each window; [last] opened the current one,
    which has seen [W]. *)
Fixpoint paced (keys : gset bank) (limit last : Z) (W : bank -> Z) (evs : list event) : Prop :=
  match evs with
  | [] => True
  | (now, (row, k)) :: evs' =>
      let W0 := if over_at last now then fun _ => 0 else W in
      0 <= row < rows /\ k ∈ keys /\ W0 k + 1 <= limit /\
      paced keys limit (if over_at last now then now else last) (Misra_Gries.upd_bank W0 k (W0 k + 1)) evs'
  end.

(** What the provisioning allows: the detector follows [limit] activations of a bank, and the
    table holds a swap for each flag they can raise. *)
Definition provisioned (limit : Z) : Prop :=
  limit < 2 ^ 32 /\ limit <= thr * (ne + 1) /\ 2 * (limit / thr) <= cap.
Lemma provisioned_le limit n : provisioned limit -> n <= limit -> n < 2 ^ 32 /\ n <= thr * (ne + 1) /\ 2 * (n / thr) <= cap.
Proof using Hthr.
  intros (? & ? & ?) Hn. pose proof (Z.div_le_mono n limit thr Hthr Hn). lia.
Qed.

Lemma serve_wp rand_stream limit evs : provisioned limit -> forall h r,
  ready h r -> paced (dom (tables r)) limit (last_reset (base r)) (loads h) evs ->
  wp (serve rand_stream evs) r (fun ds r' => length ds = length evs /\ exists h', ready h' r' /\ kept r r' /\
    (Forall (fun e => over_at (last_reset (base r)) (fst e) = false) evs -> forall k x, marks h k x <= marks h' k x)).
Proof using Hne Hthr Hnt Hroom Hcap.
  intros Hlim. induction evs as [|[now [row [[ch rk] b]]] evs IH]; intros h r H Hp; cbn [serve].
  - wp_step. split; [done|]. by exists h.
  - cbn [paced] in Hp. destruct Hp as (Hrow & Hk & Hn & Hp). set (k := (ch, rk, b)) in *.
    change (over_at (last_reset (base r)) now) with (window_over (base r) now) in Hn, Hp.
    assert ((if window_over (base r) now then fun _ => 0 else loads h) = loads (roll (window_over (base r) now) h)) as EW by by destruct window_over.
    rewrite EW in Hn, Hp. wp_step.
    eapply wp_mono; [apply (swap_access_wp rand_stream h r now row ch rk b); try done; by apply (provisioned_le limit)|].
    intros d r1 [H1 K1 E1 _]. wp_step. eapply wp_mono; [apply (IH _ r1 H1)|].
    { by rewrite (kp_dom _ _ K1), E1. }
    intros ds r2 (Hl & h' & H2 & K2 & Hm). wp_step. split; [by cbn; rewrite Hl|]. exists h'. split; [done|].
    split; [by apply (swap_kept_trans _ r1)|]. intros Hall k' x. apply Forall_cons_1 in Hall as [Eo Hevs]. cbn [fst] in Eo.
    change (over_at (last_reset (base r)) now) with (window_over (base r) now) in Eo. rewrite Eo in *. cbn [roll] in *.
    specialize (Hm ltac:(by rewrite E1) k' x). rewrite record_marks in Hm. destruct (_ && _); cbn in Hm; lia.
Qed.

(** The constructor: no row is swapped, and nothing was counted. *)
Lemma bank_keys_in k nch nrk nb : k ∈ Misra_Gries.bank_keys nch nrk nb ->
  0 <= k.1.1 < nch /\ 0 <= k.1.2 < nrk /\ 0 <= k.2 < nb.
Proof using.
  unfold Misra_Gries.bank_keys. intros (ch & H1 & Hch)%list_elem_of_bind.
  apply list_elem_of_bind in H1 as (rk & H1 & Hrk). apply list_elem_of_bind in H1 as (b & ->%list_elem_of_ret & Hb).
  apply elem_of_seqZ in Hch, Hrk, Hb. cbn. lia.
Qed.
Lemma list_to_map_of {V} (g : bank -> V) keys k v :
  (list_to_map ((fun k => (k, g k)) <$> keys) : gmap bank V) !! k = Some v -> k ∈ keys /\ v = g k.
Proof using.
  intros H%elem_of_list_to_map_2. apply list_elem_of_fmap in H as (k' & [= <- <-] & Hk). done.
Qed.
Lemma list_to_map_dom {V} (g : bank -> V) keys : dom (list_to_map ((fun k => (k, g k)) <$> keys) : gmap bank V) = list_to_set keys.
Proof using. rewrite dom_list_to_map_L. by rewrite <- list_fmap_compose, list_fmap_id. Qed.
Lemma create_ready raw st uninit thr' demand :
  provisioned_tuples demand = nt -> demand = cap -> 0 <= cap -> 0 < banks -> rows * banks < 2 ^ 32 ->
  (forall k, Misra_Gries.spill_counter (uninit k) = 0) ->
  ready hist0 (create raw st (Misra_Gries.create uninit ne thr rows banks 1 1) demand rows thr' banks 1 1).
Proof using Hne Hthr Hnt Hroom Hcap.
  intros En Ed Hc0 Hb Ht Hsp. set (keys := Misra_Gries.bank_keys 1 1 banks).
  set (tab (_ : bank) := mkRIT (calloc nt zero_tuple) (calloc rows 0) 0 : RIT).
  set (trk (k : bank) := (uninit k) <| Misra_Gries.uniq_rows := ∅ |> <| Misra_Gries.entries := calloc ne Misra_Gries.zero_entry |> <| Misra_Gries.rowHasEntry := calloc rows 0 |>).
  set (r := create raw _ _ _ _ _ _ _ _).
  assert (Misra_Gries.trackers (detector r) = list_to_map ((fun k => (k, trk k)) <$> keys)) as Etr by done.
  assert (tables r = list_to_map ((fun k => (k, tab k)) <$> keys)) as Etb by (unfold tab; rewrite <- En; done).
  assert (numDRAMRows (base r) = rows * banks * 1 * 1) as Edr.
  { unfold numDRAMRows. change (u32 (rows * banks * 1 * 1) = rows * banks * 1 * 1). apply u32_small. nia. }
  split.
  - split; [done|done| |]; rewrite Etr; intros k tr [_ ->]%list_to_map_of.
    + unfold Misra_Gries.tracker_wf. change (Misra_Gries.spill_counter (trk k)) with (Misra_Gries.spill_counter (uninit k)).
      rewrite Hsp. apply Misra_Gries.wf_fresh; lia.
    + split; [|done]. intros i e [-> _]%zlookup_calloc. done.
  - done.
  - split; [done|done| |exact Edr|done]. rewrite Edr.
    change (zlen (calloc (u32 (rows * banks * 1 * 1)) 0) = rows * banks * 1 * 1). rewrite u32_small by nia. apply zlen_calloc. nia.
  - split; [exact En|exact Ed].
  - by rewrite Etr, Etb, !list_to_map_dom.
  - intros ch rk b. rewrite Etb, list_to_map_dom. intros Hk%elem_of_list_to_set%bank_keys_in. cbn in Hk.
    change (numRanks (base r)) with 1. change (numChannels (base r)) with 1. lia.
  - intros k tb tr. rewrite Etb, Etr. intros [_ ->]%list_to_map_of [_ ->]%list_to_map_of. split.
    + apply wf_rit_fresh; lia.
    + done.
    + change (bsum locked (calloc nt zero_tuple) + 2 * Z.b2z (bool_decide (fst <$> (None : option (bank * Z)) = Some k)) <=
              2 * Misra_Gries.raised thr (calloc ne Misra_Gries.zero_entry)).
      unfold bsum, Misra_Gries.raised. rewrite !lsum_calloc by lia. cbn [Misra_Gries.count Misra_Gries.zero_entry locked zero_tuple].
      rewrite Z.div_0_l by lia. rewrite bool_decide_false by done. cbn. lia.
  - done.
Qed.
End Access.

(** ** Property *)

(** C6. A row that the detector flags stays swapped until its window ends.  From any state
    that an access can leave, with at most [limit] activations of each bank per window, no
    access faults, whatever the rows: no assertion fails, the tables stay well formed and
    their locked tuples within the provisioned ones.  A row flagged by the first access is
    remapped to another row after every further access of the window. *)
Theorem swaps_last_window ne rows thr nt cap banks limit rand_stream h r now row ch rk b evs :
  let k := (ch, rk, b) in
  0 <= ne < 2 ^ 32 -> 0 < thr -> 0 <= nt < 2 ^ 32 - 1 -> 1 + 2 * nt + ne < rows -> cap < nt ->
  provisioned ne thr cap limit ->
  sound ne rows thr nt cap banks None h r ->
  paced rows (dom (tables r)) limit (last_reset (base r)) (loads h) ((now, (row, k)) :: evs) ->
  exists d ds r', serve rand_stream ((now, (row, k)) :: evs) r = Ok (d :: ds, r') /\
    (exists h', sound ne rows thr nt cap banks None h' r') /\
    (mitigate d = true ->
     Forall (fun e => over_at (if over_at (last_reset (base r)) now then now else last_reset (base r)) (fst e) = false) evs ->
     exists row' r'', getRemappedAddr k row true r' = Ok (row', r'') /\ row' <> row).
Proof.
  intros k Hne Hthr Hnt Hroom Hcap Hlim H (Hrow & Hk & Hn & Hp).
  assert ((if over_at (last_reset (base r)) now then fun _ => 0 else loads h) = loads (roll (window_over (base r) now) h)) as EW
    by (change (over_at (last_reset (base r)) now) with (window_over (base r) now); by destruct window_over).
  rewrite EW in Hn, Hp.
  pose proof (swap_access_wp ne rows thr nt cap banks Hne Hthr Hnt Hroom Hcap rand_stream h r now row ch rk b H Hk Hrow
    (provisioned_le _ _ _ Hthr limit _ Hlim Hn)) as Ha.
  apply wp_inv in Ha as (d & r1 & E1 & [H1 K1 El1 _]).
  pose proof (serve_wp ne rows thr nt cap banks Hne Hthr Hnt Hroom Hcap rand_stream limit evs Hlim _ r1 H1) as Hs.
  rewrite (kp_dom _ _ K1), El1 in Hs. specialize (Hs Hp). apply wp_inv in Hs as (ds & r' & E2 & _ & h' & H2 & K2 & Hm).
  exists d, ds, r'. split; [unfold k; cbn [serve]; unfold mbind, comp_bind; rewrite E1, E2; done|]. split; [by exists h'|].
  intros Hd Hin. specialize (Hm Hin k row). rewrite record_marks, bool_decide_true, Hd in Hm by done. cbn in Hm.
  assert (0 <= marks (roll (window_over (base r) now) h) k row) as H0.
  { destruct (window_over (base r) now); [done|]. by eapply marks_nonneg. }
  rewrite <- (kp_dom _ _ K1), <- (kp_dom _ _ K2) in Hk. apply elem_of_dom in Hk as [tb Htb].
  destruct (so_swapped _ _ _ _ _ _ _ _ _ H2 k tb row Htb) as (y & Hy%locked_paired); [lia|done|].
  pose proof (sound_table _ _ _ _ _ _ _ _ _ _ _ H2 Htb) as Hwf.
  destruct (wp_inv _ _ _ (getRemappedAddr_wp k r' tb nt rows row true Htb Hwf Hnt Hrow)) as (row' & r'' & E & _ & Hc).
  exists row', r''. split; [done|]. destruct Hc as [[H00 ->]|Hpr]; [by destruct (free_unpaired _ _ _ _ _ Hwf H00 Hy)|].
  intros ->. by apply (paired_irrefl _ _ _ _ Hwf Hpr).
Qed.

(** Every activation is flagged; two of them per window leave room for their swaps. *)
Definition rrs1 : t := create raw0 0 (Misra_Gries.create (fun _ => tracker0) 2 1 16 1 1 1) 4 16 1 1 1 1.
Definition swap_events : list event := [(2000, (5, (0, 0, 0)))].
Definition swap_end : t := match serve (fun _ => 19) ((1000, (3, (0, 0, 0))) :: swap_events) rrs1 with Ok (_, r) => r | Fault _ => rrs1 end.
Lemma rrs1_sound : sound 2 16 1 5 4 1 None hist0 rrs1.
Proof. apply create_ready; try done; lia. Qed.
Lemma swaps_last_window_witness : exists row' r'', getRemappedAddr (0, 0, 0) 3 true swap_end = Ok (row', r'') /\ row' <> 3.
Proof.
  destruct (swaps_last_window 2 16 1 5 4 1 2 (fun _ => 19) hist0 rrs1 1000 3 0 0 0 swap_events) as (d & ds & r' & E & _ & H).
  - lia.
  - lia.
  - lia.
  - lia.
  - lia.
  - vm_compute. by split_and!.
  - exact rrs1_sound.
  - cbn [paced swap_events]. change (last_reset (base rrs1)) with 0. split; [lia|]. split; [apply elem_of_dom; vm_compute; by eexists|]. split; [vm_compute; congruence|].
    split; [lia|]. split; [apply elem_of_dom; vm_compute; by eexists|]. split; [vm_compute; congruence|done].
  - assert (r' = swap_end) as Er by (unfold swap_end; by rewrite E). rewrite <- Er.
    apply H; [vm_compute in E; injection E as <- _ _; reflexivity|]. apply Forall_cons_2; [reflexivity|apply Forall_nil_2].
Defined.
End SwapAccess.
