(* ===== verification/RQ.v ===== *)
(** AQUA row quarantine ([mem/rowhammer_mitigation.cc], class
    [Row_Quarantine]): aggressor rows are moved into a circular quarantine
    region (QR), two tables map rows to QR slots and back, and a bit vector,
    the ORR counters and a cache of table entries filter the look-ups.  This
    file holds the operations; RQTables.v and RQEpoch.v prove them correct. *)
From S2P Require Import Prelude Detector FuncCache Bloom Mitigation.

Module Row_Quarantine.

(** ** State *)

Record Entry := mkEntry { valid : bool; value : Z }.
#[global] Instance eta_Entry : Settable Entry := fun r => mkEntry (valid r) (value r).
Definition zero_entry : Entry := mkEntry false 0.

Record IndirectionTables := mkTables {
  row_To_QR_T : list Entry;
  QR_To_Row_T : list Entry;
  nextFreeQR_ID : Z;
  prevQRHead_ID : Z;
  QRTail_ID : Z }.
#[global] Instance eta_Tables : Settable IndirectionTables := fun r =>
  mkTables (row_To_QR_T r) (QR_To_Row_T r) (nextFreeQR_ID r) (prevQRHead_ID r) (QRTail_ID r).

Record Stats := mkStats {
  s_move_to_qr : Z;
  s_move_within_qr : Z;
  s_move_to_qr_remove : Z;
  s_move_within_qr_remove : Z;
  s_drain_qr : Z;
  s_btv_true_positives : Z;
  s_btv_false_positives : Z;
  s_btv_true_negatives : Z;
  s_cache_hit : Z;
  s_cache_partial_hit_orr_set : Z;
  s_cache_partial_hit_orr_unset : Z;
  s_cache_miss : Z;
  s_cache_miss_entry_inserts : Z;
  s_cache_miss_line_entry_inserts : Z;
  s_cache_clean_evicts : Z;
  s_cache_dirty_evicts : Z;
  s_btv_residency : list Z;
  s_QR_CumulativeOccupancy : Z }.
#[global] Instance eta_Stats : Settable Stats := fun r =>
  mkStats (s_move_to_qr r) (s_move_within_qr r) (s_move_to_qr_remove r)
    (s_move_within_qr_remove r) (s_drain_qr r) (s_btv_true_positives r)
    (s_btv_false_positives r) (s_btv_true_negatives r) (s_cache_hit r)
    (s_cache_partial_hit_orr_set r) (s_cache_partial_hit_orr_unset r) (s_cache_miss r)
    (s_cache_miss_entry_inserts r) (s_cache_miss_line_entry_inserts r)
    (s_cache_clean_evicts r) (s_cache_dirty_evicts r) (s_btv_residency r)
    (s_QR_CumulativeOccupancy r).

(** [indirection] has one element per dimension, the constructor sets
    [numBanks], [numRanks] and [numChannels] to 1, and every call passes bank,
    rank and channel 0: the field holds [indirection[0][0][0]].  [filter] and
    [cache] are pointers that may be null. *)
Record t := mkRQ {
  base : RH_Mitigation;
  randRowID : list Z;
  indirection : IndirectionTables;
  numQREntries : Z;
  rows_per_btv_bit : Z;
  bitvector : list Z;
  ORR_CBF : list Z;
  filter : option CountingBloomFilter.t;
  cache : option Functional_Cache.t;
  detector : Misra_Gries.t;
  prev_drain_cache_miss_val : Z;
  drain_cache_miss_threshold : Z;
  stats : Stats }.
#[global] Instance eta_t : Settable t := fun r =>
  mkRQ (base r) (randRowID r) (indirection r) (numQREntries r) (rows_per_btv_bit r)
    (bitvector r) (ORR_CBF r) (filter r) (cache r) (detector r)
    (prev_drain_cache_miss_val r) (drain_cache_miss_threshold r) (stats r).

(** ** Construction *)

(** [for (ii...) swap(randRowID[ii], randRowID[rand()%numDRAMRows])] over the
    values [rand_stream] of the C library's [rand()]. *)
Fixpoint shuffle (rand_stream : nat -> Z) (n : nat) (call : nat) (ii numDRAMRows : Z)
    (ids : list Z) : result (list Z) :=
  match n with
  | O => Ok ids
  | S n' =>
      jj ← umod (u32 (rand_stream call)) numDRAMRows;
      temp ← aread ids ii;
      x ← aread ids jj;
      ids1 ← awrite ids ii x;
      ids2 ← awrite ids1 jj temp;
      shuffle rand_stream n' (S call) (ii + 1) numDRAMRows ids2
  end.

Definition init_tables (rows qr : Z) : IndirectionTables :=
  mkTables (calloc rows zero_entry) (calloc qr zero_entry) 0 0 0.

(** Members the constructor leaves unset keep their values in [raw]; the
    memory controller assigns them right after. *)
Definition create (rand_stream : nat -> Z) (raw : t)
    (__numQREntries __numRows __threshold __numBanks __numRanks __numChannels : Z) : result t :=
  let b := (base raw)
    <| threshold := __threshold |>
    <| numRows := u32 (__numRows * __numBanks * __numRanks * __numChannels) |>
    <| numBanks := 1 |> <| numRanks := 1 |> <| numChannels := 1 |> <| last_reset := 0 |> in
  let n := numDRAMRows b in
  ids ← shuffle rand_stream (Z.to_nat n) 0 0 n (seqZ 0 n);
  mret (raw
    <| base := b <| numAccessesToRow := calloc n 0 |>
                 <| s_num_resets := 0 |> <| s_num_accesses := 0 |>
                 <| s_numRowAccesses_RH := 0 |> <| s_numLogRowAccesses := replicate 4 0 |> |>
    <| randRowID := ids |>
    <| numQREntries := __numQREntries |>
    <| indirection := init_tables (numRows b) __numQREntries |>
    <| bitvector := calloc n 0 |> <| ORR_CBF := calloc n 0 |>
    <| prev_drain_cache_miss_val := 0 |>
    <| stats ::= fun s => mkStats 0 0 0 0 0 0 0 0 0 0 0 0
         (s_cache_miss_entry_inserts s) (s_cache_miss_line_entry_inserts s)
         (s_cache_clean_evicts s) (s_cache_dirty_evicts s) (replicate 4 0) 0 |>).

(** ** Access paths *)

Definition inc64 (n : Z) : Z := u64 (n + 1).
Definition count_stat (g : Stats -> Stats) : comp t unit := modify (fun r => r <| stats ::= g |>).
Definition on_base {A} (m : comp RH_Mitigation A) : comp t A :=
  zoom base (fun b r => r <| base := b |>) m.
Definition on_tables {A} (m : comp IndirectionTables A) : comp t A :=
  zoom indirection (fun i r => r <| indirection := i |>) m.
(** Dereferencing the two pointers. *)
Definition on_cache {A} (m : comp Functional_Cache.t A) : comp t A :=
  r ← get;
  match cache r with
  | Some c => '(a, c') ← lift (m c); modify (fun r => r <| cache := Some c' |>);; mret a
  | None => lift (Fault OutOfBounds)
  end.
Definition on_filter {A} (m : comp CountingBloomFilter.t A) : comp t A :=
  r ← get;
  match filter r with
  | Some f => '(a, f') ← lift (m f); modify (fun r => r <| filter := Some f' |>);; mret a
  | None => lift (Fault OutOfBounds)
  end.

(** [decision.delay += d], [decision.SRAM_delay += d] *)
Definition add_delay (d : RH_Mitigation -> Z) : comp t unit :=
  on_base (b ← get; on_decision (modify (fun x => x <| delay ::= fun n => u64 (n + d b) |>))).
Definition add_SRAM_delay (d : RH_Mitigation -> Z) : comp t unit :=
  on_base (b ← get; on_decision (modify (fun x => x <| SRAM_delay ::= fun n => u64 (n + d b) |>))).
Definition when_virtualized (m : comp t unit) : comp t unit :=
  v ← gets (fun r => virtualize_RIT (base r)); when_ v m.

Definition row_entry (a : Z) : comp IndirectionTables Entry :=
  i ← get; lift (aread (row_To_QR_T i) a).
Definition qr_entry (q : Z) : comp IndirectionTables Entry :=
  i ← get; lift (aread (QR_To_Row_T i) q).
Definition set_row (a : Z) (e : Entry) : comp IndirectionTables unit :=
  i ← get; l ← lift (awrite (row_To_QR_T i) a e);
  modify (fun i => i <| row_To_QR_T := l |>).
Definition set_qr (q : Z) (e : Entry) : comp IndirectionTables unit :=
  i ← get; l ← lift (awrite (QR_To_Row_T i) q e);
  modify (fun i => i <| QR_To_Row_T := l |>).

Definition generateCBFID (rowID : Z) : comp t Z :=
  b ← gets base; mret (u32 (0 + numBanks b * rowID)).
(** [index/rows_per_btv_bit] *)
Definition group_of (index : Z) : comp t Z :=
  g ← gets rows_per_btv_bit; lift (udiv index g).
Definition btv_at (i : Z) : comp t Z := r ← get; lift (aread (bitvector r) i).
Definition orr_at (i : Z) : comp t Z := r ← get; lift (aread (ORR_CBF r) i).
Definition btv_add (i d : Z) : comp t unit :=
  r ← get; v ← lift (aread (bitvector r) i);
  l ← lift (awrite (bitvector r) i (u32 (v + d))); modify (fun r => r <| bitvector := l |>).
Definition orr_add (i d : Z) : comp t unit :=
  r ← get; v ← lift (aread (ORR_CBF r) i);
  l ← lift (awrite (ORR_CBF r) i (u32 (v + d))); modify (fun r => r <| ORR_CBF := l |>).

(** ** Addresses *)

Record DecodedAddr := mkDecoded { rowID : Z; bankID : Z; rankID : Z; channelID : Z }.

Definition decodeAddr (addr : Z) : comp t DecodedAddr :=
  let rowAddr := u32 (addr / 8192) in
  _ ← on_base (count_access rowAddr);
  r ← get;
  rowAddr ← lift (aread (randRowID r) rowAddr);
  row ← lift (umod (rowAddr / 16) (numRows (base r) / 16));
  mret (mkDecoded row (rowAddr mod 16) 0 0).

(** ** The cache of table entries *)

Definition count_evict (isDirty : bool) : comp t unit :=
  count_stat (fun s => if isDirty then s <| s_cache_dirty_evicts ::= inc64 |>
                       else s <| s_cache_clean_evicts ::= inc64 |>).

(** The returned flag and the out-parameter [evicted_rowID]. *)
Definition removeRowFromCache (index : Z) : comp t (bool * Z) :=
  blk_way ← on_cache (Functional_Cache.Lookup index Functional_Cache.ONLY_LOOKUP);
  ways ← on_cache (gets Functional_Cache.m_ways);
  if blk_way <? ways then
    isDirty ← on_cache (Functional_Cache.QueryDirtyBit index blk_way);
    evicted_rowID ← on_cache (Functional_Cache.Get_Block_Addr index blk_way);
    on_cache (Functional_Cache.Invalidate index blk_way);;
    count_evict isDirty;;
    mret (isDirty, evicted_rowID)
  else mret (false, 0).

Definition insertRowInCache (index : Z) (setDirty : bool) : comp t (bool * Z) :=
  blk_way ← on_cache (Functional_Cache.Find_Victim index);
  v ← on_cache (Functional_Cache.Is_Block_Valid index blk_way);
  '(isDirty, evicted_rowID) ←
    (if (v : bool) then
       isDirty ← on_cache (Functional_Cache.QueryDirtyBit index blk_way);
       evicted_rowID ← on_cache (Functional_Cache.Get_Block_Addr index blk_way);
       count_evict isDirty;;
       mret (isDirty, evicted_rowID)
     else mret (false, 0));
  on_cache (Functional_Cache.Invalidate index blk_way);;
  on_cache (Functional_Cache.Fill index blk_way);;
  when_ setDirty (on_cache (Functional_Cache.SetDirtyBit index blk_way));;
  mret (isDirty, evicted_rowID).

(** ** Checking whether a row is quarantined *)

(** [(filter && filter->query(index)) || (bitvector && bitvector[...])];
    the constructor always allocates [bitvector]. *)
Definition possibly_remapped (index : Z) : comp t bool :=
  r ← get;
  f ← match filter r with
      | Some _ => on_filter (CountingBloomFilter.query index)
      | None => mret false
      end;
  if (f : bool) then mret true
  else g ← group_of index; v ← btv_at g; mret (negb (v =? 0)).

(** The scan of the row's group for a quarantined row. *)
Fixpoint scan_group (n : nat) (i : Z) : comp IndirectionTables (option Z) :=
  match n with
  | O => mret None
  | S n' => e ← row_entry i; if valid e then mret (Some i) else scan_group n' (u32 (i + 1))
  end.

Definition table_delay : comp t unit :=
  v ← gets (fun r => virtualize_RIT (base r));
  if (v : bool) then add_delay (fun b => 2 * accDelay b) else add_SRAM_delay SRAM_RQT_accDelay.

(** The branch taken on [cache_miss]. *)
Definition on_cache_miss (rowID index : Z) : comp t unit :=
  table_delay;;
  r ← get;
  g ← group_of index;
  e ← on_tables (row_entry rowID);
  inserted_rowID ←
    (if valid e then
       count_stat (fun s => s <| s_cache_miss_entry_inserts ::= inc64 |>);;
       mret (u32 rowID)
     else
       row_group ← group_of rowID;
       found ← on_tables (scan_group (Z.to_nat (rows_per_btv_bit r))
                            (u32 (row_group * rows_per_btv_bit r)));
       o ← orr_at g;
       when_ (o =? 1) (count_stat (fun s => s <| s_cache_miss_line_entry_inserts ::= inc64 |>));;
       mret (default (numRows (base r)) found));
  o ← orr_at g;
  when_ ((inserted_rowID <? numRows (base r)) && ((inserted_rowID =? rowID) || (o =? 1))) (
    index' ← generateCBFID inserted_rowID;
    '(isDirty, evicted_rowID) ← insertRowInCache index' false;
    when_virtualized (when_ ((isDirty : bool) && negb (rowID / 32 =? evicted_rowID / 32))
      (add_delay (fun b => 2 * accDelay b)))).

Definition check_cache (rowID index : Z) : comp t unit :=
  add_SRAM_delay SRAM_Cache_accDelay;;
  blk_way ← on_cache (Functional_Cache.Lookup index Functional_Cache.LOOKUP_AND_UPDATE);
  ways ← on_cache (gets Functional_Cache.m_ways);
  if blk_way <? ways then count_stat (fun s => s <| s_cache_hit ::= inc64 |>)
  else
    RQT_cacheline_way ← on_cache (Functional_Cache.PartialLookup index);
    cache_miss ←
      (if RQT_cacheline_way <? ways then
         g ← group_of index;
         o ← orr_at g;
         if o =? 1 then
           count_stat (fun s => s <| s_cache_partial_hit_orr_set ::= inc64 |>);; mret false
         else
           count_stat (fun s => s <| s_cache_partial_hit_orr_unset ::= inc64 |>);; mret true
       else count_stat (fun s => s <| s_cache_miss ::= inc64 |>);; mret true);
    when_ (cache_miss : bool) (on_cache_miss rowID index).

(** The statistics of the filter in use. *)
Definition count_filter (g : CountingBloomFilter.t -> CountingBloomFilter.t)
    (h : Stats -> Stats) : comp t unit :=
  r ← get;
  match filter r with Some _ => on_filter (modify g) | None => count_stat h end.

Definition addQCheckDelay (rowID : Z) : comp t unit :=
  index ← generateCBFID rowID;
  add_SRAM_delay SRAM_CBF_accDelay;;
  hit ← possibly_remapped index;
  if (hit : bool) then
    r ← get;
    match cache r with
    | Some _ => check_cache rowID index
    | None => table_delay
    end;;
    e ← on_tables (row_entry rowID);
    if valid e
    then count_filter (fun f => f <| CountingBloomFilter.s_truePositives ::= inc64 |>)
           (fun s => s <| s_btv_true_positives ::= inc64 |>)
    else count_filter (fun f => f <| CountingBloomFilter.s_falsePositives ::= inc64 |>)
           (fun s => s <| s_btv_false_positives ::= inc64 |>)
  else
    count_filter (fun f => f <| CountingBloomFilter.s_trueNegatives ::= inc64 |>)
      (fun s => s <| s_btv_true_negatives ::= inc64 |>);;
    e ← on_tables (row_entry rowID);
    assert_ (negb (valid e)).

(** ** Moving rows *)

Definition removeRow (QRT_id : Z) : comp t bool :=
  q ← on_tables (qr_entry QRT_id);
  let remove_rowID := u32 (value q) in
  on_tables (set_qr QRT_id (q <| valid := false |>));;
  e ← on_tables (row_entry remove_rowID);
  assert_ (valid e);;
  on_tables (set_row remove_rowID (e <| valid := false |>));;
  index ← generateCBFID remove_rowID;
  r ← get;
  match filter r with
  | Some _ =>
      b ← on_filter (CountingBloomFilter.query index);
      assert_ b;;
      on_filter (CountingBloomFilter.del index)
  | None =>
      g ← group_of index;
      v ← btv_at g;
      assert_ (negb (v =? 0));;
      btv_add g (-1)
  end;;
  match cache r with
  | Some _ =>
      '(isDirty, _) ← removeRowFromCache index;
      g ← group_of index;
      orr_add g (-1);;
      mret isDirty
  | None => mret false
  end.

Definition drainRow : comp t unit :=
  i ← gets indirection;
  e ← on_tables (qr_entry (QRTail_ID i));
  when_virtualized (add_delay accDelay);;
  when_ (negb (QRTail_ID i =? prevQRHead_ID i) && valid e) (
    count_stat (fun s => s <| s_drain_qr ::= inc64 |>);;
    isCacheDirty ← removeRow (QRTail_ID i);
    add_delay moveDelay;;
    r ← get;
    (if bool_decide (is_Some (cache r)) && virtualize_RIT (base r) && isCacheDirty
     then add_delay accDelay
     else when_ (virtualize_RIT (base r)) (add_delay accDelay));;
    when_virtualized (add_delay accDelay);;
    tail' ← lift (umod (u32 (QRTail_ID i + 1)) (numQREntries r));
    on_tables (modify (fun i => i <| QRTail_ID := tail' |>))).

(** A -> Qi in the {Row->QR} table, and the filters when A is new; the slot A
    was in, if any. *)
Definition map_row (rowID : Z) : comp t (option Z) :=
  e ← on_tables (row_entry rowID);
  orig ←
    (if valid e then mret (Some (u32 (value e)))
     else
       index ← generateCBFID rowID;
       r ← get;
       match filter r with
       | Some _ => on_filter (CountingBloomFilter.add index)
       | None => g ← group_of index; btv_add g 1;; orr_add g 1
       end;;
       mret None);
  i ← gets indirection;
  on_tables (set_row rowID (mkEntry true (nextFreeQR_ID i)));;
  mret orig.

(** The cached entry of A is made dirty. *)
Definition cache_row (rowID : Z) : comp t unit :=
  r ← get;
  match cache r with
  | Some _ =>
      index ← generateCBFID rowID;
      blk_way ← on_cache (Functional_Cache.Lookup index Functional_Cache.ONLY_LOOKUP);
      ways ← on_cache (gets Functional_Cache.m_ways);
      if blk_way =? ways then
        '(isDirty, _) ← insertRowInCache index true;
        when_virtualized (when_ (isDirty : bool) (add_delay (fun b => 2 * accDelay b)))
      else on_cache (Functional_Cache.SetDirtyBit index blk_way)
  | None => when_virtualized (add_delay accDelay)
  end.

(** The row B in slot Qi is removed; whether there was one. *)
Definition evict_slot (rowID : Z) (origRowQuaranteed : bool) : comp t bool :=
  i ← gets indirection;
  q ← on_tables (qr_entry (nextFreeQR_ID i));
  if valid q then
    let remove_rowID := u32 (value q) in
    isCacheDirty ← removeRow (nextFreeQR_ID i);
    add_delay moveDelay;;
    r ← get;
    let other_line := origRowQuaranteed && negb (rowID / 32 =? remove_rowID / 32) in
    (if bool_decide (is_Some (cache r)) && virtualize_RIT (base r) && isCacheDirty && other_line
     then add_delay accDelay
     else when_ (virtualize_RIT (base r) && other_line) (add_delay accDelay));;
    mret true
  else mret false.

(** Qi -> A in the {QR->Row} table, and Qj freed when A was in it. *)
Definition map_slot (rowID : Z) (orig : option Z) : comp t unit :=
  add_delay moveDelay;;
  when_virtualized (add_delay accDelay);;
  i ← gets indirection;
  on_tables (set_qr (nextFreeQR_ID i) (mkEntry true rowID));;
  match orig with
  | Some orig_RowQRID =>
      when_virtualized (when_ (negb (nextFreeQR_ID i / 16 =? orig_RowQRID / 16)) (add_delay accDelay));;
      q ← on_tables (qr_entry orig_RowQRID);
      assert_ (valid q);;
      on_tables (set_qr orig_RowQRID (q <| valid := false |>))
  | None => mret tt
  end.

Definition advance : comp t unit :=
  n ← gets numQREntries;
  i ← gets indirection;
  when_ ((nextFreeQR_ID i =? QRTail_ID i) && negb (nextFreeQR_ID i =? prevQRHead_ID i)) (
    tail' ← lift (umod (u32 (QRTail_ID i + 1)) n);
    on_tables (modify (fun i => i <| QRTail_ID := tail' |>)));;
  head' ← lift (umod (u32 (nextFreeQR_ID i + 1)) n);
  on_tables (modify (fun i => i <| nextFreeQR_ID := head' |>)).

Definition quarantineRow (rowID : Z) : comp t unit :=
  orig ← map_row rowID;
  let moved := bool_decide (is_Some orig) in
  cache_row rowID;;
  when_virtualized (add_delay accDelay);;
  removed ← evict_slot rowID moved;
  map_slot rowID orig;;
  advance;;
  count_stat (fun s =>
    match moved, removed with
    | false, false => s <| s_move_to_qr ::= inc64 |>
    | true, false => s <| s_move_within_qr ::= inc64 |>
    | false, true => s <| s_move_to_qr_remove ::= inc64 |>
    | true, true => s <| s_move_within_qr_remove ::= inc64 |>
    end).

(** ** Refresh windows *)

Definition count_residency (rval : Z) : comp t unit :=
  r ← get;
  groups ← lift (udiv (numDRAMRows (base r)) (rows_per_btv_bit r));
  when_ (rval <? groups) (
    v ← btv_at rval;
    let c := if 3 <? v then 3 else v in
    n ← lift (aread (s_btv_residency (stats r)) c);
    l ← lift (awrite (s_btv_residency (stats r)) c (inc64 n));
    count_stat (fun s => s <| s_btv_residency := l |>)).

Definition reset : comp t unit :=
  modify (fun r => r <| detector ::= Misra_Gries.reset |>);;
  on_base (modify (fun b => b <| s_num_resets ::= inc64 |>));;
  r ← get;
  for_ (Z.to_nat (numQREntries r)) 0 (fun ll =>
    e ← on_tables (qr_entry ll);
    when_ (valid e) (count_stat (fun s => s <| s_QR_CumulativeOccupancy ::= inc64 |>)));;
  on_tables (modify (fun i => i <| prevQRHead_ID := nextFreeQR_ID i |>));;
  for_ (Z.to_nat (numDRAMRows (base r))) 0 (fun rval =>
    on_base (census_row rval);; count_residency rval).

(** ** One access *)

Definition access (currTick addr : Z) : comp t Decision :=
  on_base (modify (fun b => b <| s_num_accesses ::= inc64 |> <| decision := resetDecision |>));;
  r ← get;
  when_ (window_over (base r) currTick) (
    on_base (modify (fun b => b <| last_reset := currTick |>));; reset);;
  r ← get;
  row ← lift (aread (randRowID r) (addr / 8192));
  addQCheckDelay row;;
  mapping ← decodeAddr addr;
  m ← zoom detector (fun d r => r <| detector := d |>)
        (Misra_Gries.access (rowID mapping) (bankID mapping) 0 0 false);
  on_base (on_decision (modify (fun d => d <| mitigate := m |>)));;
  (if (m : bool) then quarantineRow row
   else
     r ← get;
     let misses := u64 (s_cache_miss (stats r) + s_cache_partial_hit_orr_unset (stats r)) in
     when_ (drain_cache_miss_threshold r <=? u64 (misses - prev_drain_cache_miss_val r)) (
       modify (fun r => r <| prev_drain_cache_miss_val := misses |>);;
       drainRow));;
  gets (fun r => decision (base r)).

End Row_Quarantine.
