(* ===== verification/RQTables.v ===== *)
(** The invariant of the row-quarantine tables of RQ.v, and the effect of
    every operation on them: the two tables are inverse to each other, the bit
    vector and the ORR counters count the quarantined rows of each group, and
    the cache holds only quarantined rows. *)
From S2P Require Import Prelude FuncCache Bloom Mitigation RQ.

Module Tables.
Import Row_Quarantine.
Module FC := Functional_Cache.

Implicit Types (ind : IndirectionTables) (e : Entry) (r : t) (a q i x : Z).

(** ** What the tables say *)

Definition content e : option Z := if valid e then Some (value e) else None.
(** The row in slot [q], and the slot of row [a]. *)
Definition row_in ind q : option Z := QR_To_Row_T ind !! q ≫= content.
Definition slot_of ind a : option Z := row_To_QR_T ind !! a ≫= content.

(** The number of quarantined rows in group [i] of [g] rows. *)
Definition weight (g i : Z) (o : option Z) : Z :=
  match o with Some a => Z.b2z (a / g =? i) | None => 0 end.
Definition gcount (g : Z) ind (i : Z) : Z := lsum (fun e => weight g i (content e)) (QR_To_Row_T ind).

Record tables_wf (N R : Z) ind : Prop := {
  tw_qr_len : zlen (QR_To_Row_T ind) = N;
  tw_row_len : zlen (row_To_QR_T ind) = R;
  tw_head : 0 <= nextFreeQR_ID ind < N;
  tw_prev : 0 <= prevQRHead_ID ind < N;
  tw_tail : 0 <= QRTail_ID ind < N;
  tw_qr : forall q a, row_in ind q = Some a -> slot_of ind a = Some q;
  tw_row : forall a q, slot_of ind a = Some q -> row_in ind q = Some a }.

Definition with_row a e ind : IndirectionTables := ind <| row_To_QR_T ::= <[a := e]> |>.
Definition with_qr q e ind : IndirectionTables := ind <| QR_To_Row_T ::= <[q := e]> |>.

Lemma row_in_range ind q a : row_in ind q = Some a -> 0 <= q < zlen (QR_To_Row_T ind).
Proof. unfold row_in. destruct (_ !! q) eqn:E; [|done]. intros _. by eapply zlookup_lt. Qed.
Lemma slot_of_range ind a q : slot_of ind a = Some q -> 0 <= a < zlen (row_To_QR_T ind).
Proof. unfold slot_of. destruct (_ !! a) eqn:E; [|done]. intros _. by eapply zlookup_lt. Qed.

Lemma row_in_with_row a e ind q : row_in (with_row a e ind) q = row_in ind q.
Proof. done. Qed.
Lemma slot_of_with_qr q e ind a : slot_of (with_qr q e ind) a = slot_of ind a.
Proof. done. Qed.
Lemma slot_of_with_row a e ind x : 0 <= a < zlen (row_To_QR_T ind) ->
  slot_of (with_row a e ind) x = if x =? a then content e else slot_of ind x.
Proof.
  intros Ha. unfold slot_of, with_row, over. cbn. destruct (Z.eqb_spec x a) as [->|Hne].
  - by rewrite zlookup_insert_eq.
  - by rewrite zlookup_insert_ne.
Qed.
Lemma row_in_with_qr q e ind x : 0 <= q < zlen (QR_To_Row_T ind) ->
  row_in (with_qr q e ind) x = if x =? q then content e else row_in ind x.
Proof.
  intros Ha. unfold row_in, with_qr, over. cbn. destruct (Z.eqb_spec x q) as [->|Hne].
  - by rewrite zlookup_insert_eq.
  - by rewrite zlookup_insert_ne.
Qed.

Lemma gcount_with_row g a e ind i : gcount g (with_row a e ind) i = gcount g ind i.
Proof. done. Qed.
Lemma gcount_with_qr g q e ind i : 0 <= q < zlen (QR_To_Row_T ind) ->
  gcount g (with_qr q e ind) i =
  gcount g ind i - weight g i (row_in ind q) + weight g i (content e).
Proof.
  intros Hq. apply zlookup_is_Some in Hq as [e0 He0]. unfold gcount, with_qr, over, row_in. cbn.
  rewrite (lsum_insert _ _ q e0) by done. by rewrite He0.
Qed.

Lemma weight_range g i o : 0 <= weight g i o <= 1.
Proof. destruct o as [a|]; cbn; [destruct (a / g =? i); cbn|]; lia. Qed.

Lemma gcount_bounds g ind i : 0 <= gcount g ind i <= zlen (QR_To_Row_T ind).
Proof.
  unfold gcount, zlen. induction (QR_To_Row_T ind) as [|e l IH]; cbn [lsum length]; [lia|].
  pose proof (weight_range g i (content e)). lia.
Qed.

(** A quarantined row is counted in its group. *)
Lemma gcount_pos g ind q a : row_in ind q = Some a -> 1 <= gcount g ind (a / g).
Proof.
  intros Hq. pose proof Hq as Hq'. apply row_in_range, zlookup_is_Some in Hq' as [e He].
  unfold row_in in Hq. rewrite He in Hq. cbn in Hq.
  pose proof (lsum_elem (fun e => weight g (a / g) (content e)) (QR_To_Row_T ind) q e) as Hel.
  cbv beta in Hel. rewrite Hq in Hel. cbn in Hel. rewrite Z.eqb_refl in Hel. apply Hel; [|done].
  intros. apply weight_range.
Qed.

(** Two different slots of a group are counted twice. *)
Lemma gcount_two g ind q q' a a' :
  row_in ind q = Some a -> row_in ind q' = Some a' -> a / g = a' / g -> q <> q' ->
  2 <= gcount g ind (a / g).
Proof.
  intros Hq Hq' Hg Hne. pose proof (row_in_range _ _ _ Hq) as Hr.
  pose proof (gcount_with_qr g q zero_entry ind (a / g) Hr) as Hc.
  rewrite Hq in Hc. change (content zero_entry) with (@None Z) in Hc. unfold weight in Hc.
  rewrite Z.eqb_refl in Hc. cbn [Z.b2z] in Hc.
  assert (Hq2 : row_in (with_qr q zero_entry ind) q' = Some a').
  { rewrite row_in_with_qr by done. by destruct (Z.eqb_spec q' q) as [->|]. }
  pose proof (gcount_pos g _ _ _ Hq2) as Hp. rewrite <- Hg in Hp. lia.
Qed.

(** The configuration of the cache: its line is a group of [g] rows, and the
    set index drops the 5 low bits. *)
Definition cache_dims (g : Z) (c : FC.t) : Prop :=
  FC.partial_lookup_factor c = g /\ FC.m_blk_offset c = 5.

Section State.
(** The state an operation starts from, whose constant members are those
    of every state it passes through. *)
Context (r0 : t).
Let N := numQREntries r0.
Let R := numRows (base r0).
Let g := rows_per_btv_bit r0.

(** [r] has the tables [ind], the counters [Mb] and [Mo], and a cache whose
    tags satisfy [C]; the rest is as in [r0], but for the decision and the
    statistics. *)
Record st ind (Mb Mo : Z -> Z) (C : Z -> Prop) r : Prop := {
  st_ind : indirection r = ind;
  st_filter : filter r = None;
  st_n : numQREntries r = N;
  st_g : rows_per_btv_bit r = g;
  st_banks : numBanks (base r0) = 1;
  st_base : exists d, base r = (base r0) <| decision := d |>;
  st_btv_len : zlen (bitvector r) = R;
  st_btv : forall i, 0 <= i < R -> bitvector r !! i = Some (Mb i);
  st_orr_len : zlen (ORR_CBF r) = R;
  st_orr : is_Some (cache r0) -> forall i, 0 <= i < R -> ORR_CBF r !! i = Some (Mo i);
  st_cache : match cache r with
             | Some c => is_Some (cache r0) /\ FC.wf c /\ cache_dims g c /\
                         forall a d, FC.cached (FC.m_cache c) a d -> C a
             | None => cache r0 = None
             end;
  st_ids : randRowID r = randRowID r0;
  st_detector : detector r = detector r0;
  st_threshold : drain_cache_miss_threshold r = drain_cache_miss_threshold r0;
  st_residency : s_btv_residency (stats r) = s_btv_residency (stats r0);
  st_mitigate : mitigate (decision (base r)) = mitigate (decision (base r0)) }.

Lemma st_weaken ind Mb Mo C Mb' Mo' (C' : Z -> Prop) r :
  st ind Mb Mo C r -> (forall i, 0 <= i < R -> Mb i = Mb' i) ->
  (forall i, 0 <= i < R -> Mo i = Mo' i) -> (forall a, C a -> C' a) -> st ind Mb' Mo' C' r.
Proof.
  intros [] Hb Ho HC. split; try done.
  - intros i Hi. rewrite <- Hb by done. auto.
  - intros Hs i Hi. rewrite <- Ho by done. auto.
  - destruct (cache r); [|done]. naive_solver.
Qed.

Section Primitives.
Context (ind : IndirectionTables) (Mb Mo : Z -> Z) (C : Z -> Prop) (r : t).
Context (H : st ind Mb Mo C r).

Lemma st_rows : numRows (base r) = R.
Proof. destruct (st_base _ _ _ _ _ H) as [d ->]. done. Qed.
Lemma st_numBanks : numBanks (base r) = 1.
Proof. destruct (st_base _ _ _ _ _ H) as [d ->]. apply H. Qed.

Lemma add_delay_st d : wp (add_delay d) r (fun _ => st ind Mb Mo C).
Proof.
  destruct H as [? ? ? ? ? [? ?]]. unfold add_delay, on_base, on_decision. wp_steps.
  split; unfold over; cbn; try done. eexists. by rewrite H0.
Qed.
Lemma add_SRAM_delay_st d : wp (add_SRAM_delay d) r (fun _ => st ind Mb Mo C).
Proof.
  destruct H as [? ? ? ? ? [? ?]]. unfold add_SRAM_delay, on_base, on_decision. wp_steps.
  split; unfold over; cbn; try done. eexists. by rewrite H0.
Qed.
Lemma count_stat_st f :
  (forall s, s_btv_residency (f s) = s_btv_residency s) ->
  wp (count_stat f) r (fun _ => st ind Mb Mo C).
Proof. intros Hf. destruct H. unfold count_stat. wp_steps. split; try done. cbn. by rewrite Hf. Qed.
Lemma when_virtualized_st m :
  wp m r (fun _ => st ind Mb Mo C) -> wp (when_virtualized m) r (fun _ => st ind Mb Mo C).
Proof. intros Hm. unfold when_virtualized. wp_steps. by apply wp_when. Qed.

(** A read of the tables. *)
Lemma row_entry_st a Q :
  0 <= a < zlen (row_To_QR_T ind) ->
  (forall e, row_To_QR_T ind !! a = Some e -> content e = slot_of ind a -> Q e r) ->
  wp (on_tables (row_entry a)) r Q.
Proof.
  intros Ha HQ. unfold on_tables, row_entry. wp_steps. rewrite (st_ind _ _ _ _ _ H).
  apply zlookup_is_Some in Ha as [e He]. eapply rp_aread; [done|]. wp_steps.
  replace (over indirection (fun _ => ind) r) with r.
  - apply HQ; [done|]. unfold slot_of. by rewrite He.
  - destruct H as [<-]. by destruct r.
Qed.
Lemma qr_entry_st q Q :
  0 <= q < zlen (QR_To_Row_T ind) ->
  (forall e, QR_To_Row_T ind !! q = Some e -> content e = row_in ind q -> Q e r) ->
  wp (on_tables (qr_entry q)) r Q.
Proof.
  intros Ha HQ. unfold on_tables, qr_entry. wp_steps. rewrite (st_ind _ _ _ _ _ H).
  apply zlookup_is_Some in Ha as [e He]. eapply rp_aread; [done|]. wp_steps.
  replace (over indirection (fun _ => ind) r) with r.
  - apply HQ; [done|]. unfold row_in. by rewrite He.
  - destruct H as [<-]. by destruct r.
Qed.

Lemma st_with_ind ind' new :
  new = ind' -> st ind' Mb Mo C (over indirection (fun _ => new) r).
Proof. intros ->. destruct H. by split. Qed.

Lemma set_row_st a e :
  0 <= a < zlen (row_To_QR_T ind) ->
  wp (on_tables (set_row a e)) r (fun _ => st (with_row a e ind) Mb Mo C).
Proof.
  intros Ha. unfold on_tables, set_row. wp_steps.
  apply rp_awrite; [by rewrite (st_ind _ _ _ _ _ H)|]. wp_steps.
  apply st_with_ind. by rewrite (st_ind _ _ _ _ _ H).
Qed.
Lemma set_qr_st q e :
  0 <= q < zlen (QR_To_Row_T ind) ->
  wp (on_tables (set_qr q e)) r (fun _ => st (with_qr q e ind) Mb Mo C).
Proof.
  intros Ha. unfold on_tables, set_qr. wp_steps.
  apply rp_awrite; [by rewrite (st_ind _ _ _ _ _ H)|]. wp_steps.
  apply st_with_ind. by rewrite (st_ind _ _ _ _ _ H).
Qed.

Lemma generateCBFID_st a Q :
  0 <= a < 2 ^ 32 -> Q a r -> wp (generateCBFID a) r Q.
Proof.
  intros Ha HQ. unfold generateCBFID. wp_steps. rewrite st_numBanks, u32_small by lia.
  by replace (0 + 1 * a) with a by lia.
Qed.
Lemma group_of_st a Q : 0 < g -> Q (a / g) r -> wp (group_of a) r Q.
Proof.
  intros Hg HQ. unfold group_of. wp_steps. rewrite (st_g _ _ _ _ _ H).
  apply rp_udiv; [lia|done].
Qed.
Lemma btv_at_st i Q : 0 <= i < R -> Q (Mb i) r -> wp (btv_at i) r Q.
Proof.
  intros Hi HQ. unfold btv_at. wp_steps. eapply rp_aread; [by eapply st_btv|done].
Qed.
Lemma orr_at_st i Q : is_Some (cache r0) -> 0 <= i < R -> Q (Mo i) r -> wp (orr_at i) r Q.
Proof.
  intros Hs Hi HQ. unfold orr_at. wp_steps. eapply rp_aread; [by eapply st_orr|done].
Qed.
Lemma btv_add_st i d :
  0 <= i < R -> 0 <= Mb i + d < 2 ^ 32 ->
  wp (btv_add i d) r (fun _ => st ind (bump Mb i d) Mo C).
Proof.
  intros Hi Hd. unfold btv_add. wp_steps. eapply rp_aread; [by eapply st_btv|]. wp_steps.
  destruct H. apply rp_awrite; [lia|]. wp_steps. split; unfold over; cbn; try done.
  - by rewrite zlen_insert.
  - intros j Hj. unfold bump. destruct (Z.eqb_spec j i) as [->|].
    + rewrite zlookup_insert_eq by lia. f_equal. apply u32_small. lia.
    + rewrite zlookup_insert_ne by done. auto.
Qed.
Lemma orr_add_st i d :
  0 <= i < R -> (is_Some (cache r0) -> 0 <= Mo i + d < 2 ^ 32) ->
  wp (orr_add i d) r (fun _ => st ind Mb (bump Mo i d) C).
Proof.
  intros Hi Hd. unfold orr_add. wp_steps.
  destruct (zlookup_is_Some (ORR_CBF r) i) as [v Hv]; [by rewrite (st_orr_len _ _ _ _ _ H)|].
  eapply rp_aread; [exact Hv|]. wp_steps.
  destruct H. apply rp_awrite; [lia|]. wp_steps. split; unfold over; cbn; try done.
  - by rewrite zlen_insert.
  - intros Hs j Hj. unfold bump. destruct (Z.eqb_spec j i) as [->|].
    + rewrite zlookup_insert_eq by lia. f_equal. rewrite st_orr0 in Hv by done.
      simplify_eq. apply u32_small. auto.
    + rewrite zlookup_insert_ne by done. auto.
Qed.
End Primitives.

(** *** The cache *)

Lemma on_cache_step {A} (m : comp FC.t A) r c (Q : A -> t -> Prop) :
  cache r = Some c -> wp m c (fun v c' => Q v (r <| cache := Some c' |>)) -> wp (on_cache m) r Q.
Proof.
  intros Hc Hm. unfold on_cache. wp_steps. rewrite Hc. wp_steps.
  apply wp_inv in Hm as (v & c' & -> & HQ). by wp_steps.
Qed.

Lemma st_cache_Some ind Mb Mo C r : st ind Mb Mo C r -> is_Some (cache r0) ->
  exists c, cache r = Some c /\ FC.wf c /\ cache_dims g c /\
            forall a d, FC.cached (FC.m_cache c) a d -> C a.
Proof.
  intros H [c0 Hs]. pose proof (st_cache _ _ _ _ _ H) as Hc.
  destruct (cache r) as [c|]; [|congruence]. exists c. naive_solver.
Qed.
Lemma st_cache_None ind Mb Mo C r : st ind Mb Mo C r -> cache r = None <-> cache r0 = None.
Proof.
  intros H. pose proof (st_cache _ _ _ _ _ H) as Hc. destruct (cache r); [|done].
  destruct Hc as [[? ->] _]. done.
Qed.

Lemma st_set_cache ind Mb Mo C C' r c c' :
  st ind Mb Mo C r -> cache r = Some c -> FC.wf c' -> FC.same_dims c c' ->
  (forall a d, FC.cached (FC.m_cache c') a d -> C' a) ->
  st ind Mb Mo C' (r <| cache := Some c' |>).
Proof.
  intros [] Hc Hwf (Hd0 & _ & _ & Hd) HC. split; unfold over; cbn; try done.
  rewrite Hc in st_cache0. destruct st_cache0 as (? & _ & [? ?] & _).
  unfold cache_dims. by rewrite Hd, Hd0.
Qed.

Lemma cache_over r c c' : over cache (fun _ => Some c') (over cache (fun _ => Some c) r)
  = over cache (fun _ => Some c') r.
Proof. done. Qed.

Lemma removeRowFromCache_st ind Mb Mo C r a :
  st ind Mb Mo C r -> is_Some (cache r0) ->
  wp (removeRowFromCache a) r (fun _ => st ind Mb Mo (fun x => C x /\ x <> a)).
Proof.
  intros H Hs. destruct (st_cache_Some _ _ _ _ _ H Hs) as (c & Hc & Hwf & Hf & HC).
  unfold removeRowFromCache. wp_step. eapply on_cache_step; [done|].
  eapply wp_mono; [by apply FC.Lookup_spec|]. intros w c1 (Hwf1 & Hd1 & Hs1 & Hfa). wp_step.
  assert (HC1 : forall x d, FC.cached (FC.m_cache c1) x d -> C x).
  { intros x d Hx. eapply HC, FC.cached_same_content; done. }
  assert (H1 : st ind Mb Mo C (r <| cache := Some c1 |>)) by by eapply st_set_cache.
  apply (FC.found_at_same _ _ _ _ _ (FC.tag_match_key a) Hd1 Hs1) in Hfa.
  eapply on_cache_step; [done|]. wp_steps.
  destruct (Z.ltb_spec w (FC.m_ways c1)) as [Hlt|Hge].
  - destruct Hfa as [[_ (b & Hb & Hm)]|[? _]]; [|lia].
    destruct (FC.tag_match_cached _ _ _ _ Hb Hm) as (Hv & Ht & Hca).
    wp_step. eapply on_cache_step; [done|].
    eapply wp_mono; [by eapply FC.QueryDirtyBit_spec|]. intros d c2 [-> ->]. wp_step.
    eapply on_cache_step; [done|].
    eapply wp_mono; [by eapply FC.Get_Block_Addr_spec|]. intros x c2 [-> ->]. wp_step.
    eapply on_cache_step; [done|].
    eapply wp_mono; [by eapply FC.Invalidate_spec|]. intros [] c2 (Hwf2 & Hd2 & _ & Hiff).
    wp_step. rewrite !cache_over.
    eapply wp_mono; [eapply (count_stat_st _ _ _ (fun x => C x /\ x <> a))|].
    + change (over cache (fun _ => Some c2) r)
        with (over cache (fun _ => Some c2) (over cache (fun _ => Some c1) r)).
      eapply st_set_cache; [done|done|done|done|].
      intros x d Hx. apply Hiff in Hx as [Hx Hne]. split; [by eapply HC1|].
      intros ->. by apply Hne.
    + by destruct (FC.dirty b).
    + intros [] r' Hr'. wp_steps. exact Hr'.
  - wp_steps. rewrite cache_over. eapply st_set_cache; [done|done|done|done|].
    intros x d Hx. split; [by eapply HC1|]. intros ->.
    assert (w < FC.m_ways c1); [|lia]. eapply FC.found_at_cached; [done|done|eauto].
Qed.

(** [w] is the way that the insertion of [a] fills. *)
Lemma insertRowInCache_st ind Mb Mo C r a dirty :
  st ind Mb Mo C r -> is_Some (cache r0) -> C a ->
  (forall c d, cache r = Some c -> ~ FC.cached (FC.m_cache c) a d) ->
  wp (insertRowInCache a dirty) r (fun _ => st ind Mb Mo C).
Proof.
  intros H Hs HCa Hna. destruct (st_cache_Some _ _ _ _ _ H Hs) as (c & Hc & Hwf & Hf & HC).
  unfold insertRowInCache. wp_step. eapply on_cache_step; [done|].
  eapply wp_mono; [by apply FC.Find_Victim_spec|]. intros w c1 (Hwf1 & Hd1 & Hs1 & Hw).
  assert (HC1 : forall x d, FC.cached (FC.m_cache c1) x d -> C x /\ x <> a).
  { intros x d Hx. eapply FC.cached_same_content in Hx; [|done]. split; [by eapply HC|].
    intros ->. by eapply Hna. }
  assert (H1 : st ind Mb Mo C (r <| cache := Some c1 |>)).
  { eapply st_set_cache; try done. intros x d Hx. by eapply HC1. }
  destruct (FC.slot_is_Some _ _ _ _ (FC.index c1 a) w Hwf1) as [b Hb].
  { by apply FC.index_range. }
  { destruct Hd1 as (_ & _ & -> & _). done. }
  wp_step. eapply on_cache_step; [done|].
  eapply wp_mono; [by eapply FC.Is_Block_Valid_spec|]. intros v c2 [-> ->]. wp_step.
  rewrite cache_over.
  eapply (wp_mono _ _ (fun _ r' => st ind Mb Mo C r' /\ cache r' = Some c1)).
  { destruct (FC.valid b) eqn:Hv; wp_steps; [|by split].
    eapply on_cache_step; [done|].
    eapply wp_mono; [by eapply FC.QueryDirtyBit_spec|]. intros d c2 [-> ->]. wp_step.
    eapply on_cache_step; [done|].
    eapply wp_mono; [by eapply FC.Get_Block_Addr_spec|]. intros x c2 [-> ->].
    unfold count_evict, count_stat. wp_steps. split; [|done].
    destruct H1. split; try done. cbn. by destruct (FC.dirty b). }
  intros [isDirty evicted] r2 [H2 Hc2]. wp_step. eapply on_cache_step; [done|].
  eapply wp_mono; [by eapply FC.Invalidate_spec|].
  intros [] c2 (Hwf2 & Hd2 & (b2 & Hb2 & Hv2) & Hiff2). wp_step.
  eapply on_cache_step; [done|].
  assert (Hna2 : forall d, ~ FC.cached (FC.m_cache c2) a d).
  { intros d [Hx _]%Hiff2. by apply HC1 in Hx as [_ ?]. }
  eapply wp_mono; [by eapply FC.Fill_spec|]. intros [] c3 (Hwf3 & Hd3 & Hb3 & Hiff3). wp_step.
  rewrite cache_over.
  assert (HC3 : forall x d, FC.cached (FC.m_cache c3) x d -> C x).
  { intros x d [[-> _]|[Hx _]%Hiff2]%Hiff3; [done|by eapply HC1]. }
  pose proof (FC.same_dims_trans _ _ _ Hd2 Hd3) as Hd13.
  apply wp_when; intros _.
  - eapply on_cache_step; [done|].
    eapply wp_mono; [by eapply FC.SetDirtyBit_spec|]. intros [] c4 (Hwf4 & Hd4 & Hiff4).
    wp_steps. rewrite cache_over. eapply st_set_cache; [done|done|done| |].
    + by eapply FC.same_dims_trans.
    + intros x d [[-> _]|[_ Hx]]%Hiff4; [done|by eapply HC3].
  - wp_steps. by eapply st_set_cache.
Qed.

Lemma insertRowInCache_new ind Mb Mo C (C' : Z -> Prop) r a dirty :
  st ind Mb Mo C r -> is_Some (cache r0) -> ~ C a -> (forall x, C x -> C' x) -> C' a ->
  wp (insertRowInCache a dirty) r (fun _ => st ind Mb Mo C').
Proof.
  intros H Hs Hna HC Ha. eapply insertRowInCache_st; [|done|done|].
  - by eapply st_weaken.
  - intros c d Hc Hca. destruct (st_cache_Some _ _ _ _ _ H Hs) as (c' & Hc' & _ & _ & Hcc).
    simplify_eq. by apply Hna, (Hcc _ d).
Qed.

(** *** The steps of a move *)

Context (Hg : 0 < g) (HR : 0 < R < 2 ^ 32) (HN : 0 < N < 2 ^ 32 - 1).

Lemma group_range a : 0 <= a < R -> 0 <= a / g < R.
Proof. intros Ha. pose proof (Z.div_pos a g). pose proof (Z.div_le_upper_bound a g a). nia. Qed.

Lemma content_invalid e : content (e <| valid := false |>) = None.
Proof. done. Qed.
Lemma content_Some e x : content e = Some x -> valid e = true /\ value e = x.
Proof. unfold content. destruct (valid e); [|done]. intros [= ->]. done. Qed.
Lemma content_None e : content e = None -> valid e = false.
Proof. unfold content. by destruct (valid e). Qed.

Lemma removeRow_st ind Mb Mo C r q a q' :
  st ind Mb Mo C r -> row_in ind q = Some a -> slot_of ind a = Some q' ->
  zlen (row_To_QR_T ind) = R -> 1 <= Mb (a / g) < 2 ^ 32 ->
  (is_Some (cache r0) -> 1 <= Mo (a / g) < 2 ^ 32) ->
  wp (removeRow q) r (fun _ r' => exists e1 e2, content e1 = None /\ content e2 = None /\
    st (with_row a e2 (with_qr q e1 ind)) (bump Mb (a / g) (-1)) (bump Mo (a / g) (-1))
       (fun x => C x /\ x <> a) r').
Proof.
  intros H Hq Ha Hlen Hb Ho. pose proof (slot_of_range _ _ _ Ha) as Har. rewrite Hlen in Har.
  pose proof (group_range a Har) as Hgr. pose proof (row_in_range _ _ _ Hq) as Hqr.
  unfold removeRow. wp_step. eapply qr_entry_st; [done|done|]. intros e _ He.
  rewrite Hq in He. apply content_Some in He as [_ Hve]. rewrite Hve, u32_small by lia. wp_step.
  eapply wp_mono; [by eapply set_qr_st|]. intros [] r1 H1. wp_step.
  eapply row_entry_st; [done|cbn; lia|]. intros e2 _ He2. rewrite slot_of_with_qr, Ha in He2.
  apply content_Some in He2 as [Hv2 _]. wp_step. apply wp_assert; [done|]. wp_step.
  eapply wp_mono; [eapply set_row_st; [done|cbn; lia]|]. intros [] r2 H2. wp_step.
  eapply generateCBFID_st; [done|lia|]. wp_steps. rewrite (st_filter _ _ _ _ _ H2). cbn iota.
  wp_step. eapply group_of_st; [done|done|]. wp_step. eapply btv_at_st; [done|done|]. wp_step.
  apply wp_assert; [destruct (Z.eqb_spec (Mb (a / g)) 0); [lia|done]|].
  eapply wp_mono; [eapply btv_add_st; [done|done|lia]|]. intros [] r3 H3.
  set (ind' := with_row a _ _) in *.
  enough (Hdone : wp (match cache r2 with
                      | Some _ => '(isDirty, _) ← removeRowFromCache a; g' ← group_of a;
                                  orr_add g' (-1);; mret isDirty
                      | None => mret false
                      end) r3 (fun _ => st ind' (bump Mb (a / g) (-1)) (bump Mo (a / g) (-1))
                                           (fun x => C x /\ x <> a))).
  { eapply wp_mono; [exact Hdone|]. intros ? r' Hr'. by exists (e <| valid := false |>), (e2 <| valid := false |>). }
  destruct (cache r2) as [c|] eqn:Hc2.
  - assert (Hs : is_Some (cache r0)).
    { destruct (cache r0) eqn:E; [done|]. apply (st_cache_None _ _ _ _ _ H2) in E. congruence. }
    wp_step. eapply wp_mono; [by eapply removeRowFromCache_st|]. intros [d ev] r4 H4. wp_step.
    eapply group_of_st; [done|done|]. wp_step.
    eapply wp_mono; [eapply orr_add_st; [done|done|intros Hs'; specialize (Ho Hs'); lia]|]. intros [] r5 H5. by wp_steps.
  - wp_steps. apply (st_cache_None _ _ _ _ _ H2) in Hc2.
    pose proof (st_cache _ _ _ _ _ H3) as Hc3. destruct H3. split; try done.
    + intros [? Hs]. congruence.
    + destruct (cache r3); [|done]. destruct Hc3 as [[? ?] _]. congruence.
Qed.

Definition remapped (o : option Z) (M : Z -> Z) A : Z -> Z :=
  match o with Some _ => M | None => bump M (A / g) 1 end.

Lemma map_row_st ind M C r A :
  st ind M M C r -> tables_wf N R ind -> 0 <= A < R -> 0 <= M (A / g) < 2 ^ 32 - 1 ->
  wp (map_row A) r (fun o r' => o = slot_of ind A /\
    st (with_row A (mkEntry true (nextFreeQR_ID ind)) ind) (remapped o M A) (remapped o M A) C r').
Proof.
  intros H Hwf HA HM. pose proof (group_range A HA) as Hgr.
  unfold map_row. wp_step. eapply row_entry_st; [done|by rewrite (tw_row_len _ _ _ Hwf)|].
  intros e _ He. wp_step.
  eapply (wp_mono _ _ (fun o r' => o = slot_of ind A /\ st ind (remapped o M A) (remapped o M A) C r')).
  - destruct (valid e) eqn:Hv.
    + wp_steps. assert (Hs : slot_of ind A = Some (value e)) by (rewrite <- He; unfold content; by rewrite Hv).
      pose proof (row_in_range _ _ _ (tw_row _ _ _ Hwf _ _ Hs)) as Hr.
      rewrite (tw_qr_len _ _ _ Hwf) in Hr. rewrite u32_small by lia. split; [by rewrite Hs|done].
    + wp_step. eapply generateCBFID_st; [done|lia|]. wp_steps. rewrite (st_filter _ _ _ _ _ H). cbn iota.
      wp_step. eapply group_of_st; [done|done|]. wp_step.
      eapply wp_mono; [eapply btv_add_st; [done|done|lia]|]. intros [] r1 H1.
      eapply wp_mono; [eapply orr_add_st; [done|done|lia]|]. intros [] r2 H2. wp_steps.
      split; [|done]. rewrite <- He. unfold content. by rewrite Hv.
  - intros o r1 [-> H1]. wp_steps. rewrite (st_ind _ _ _ _ _ H1).
    eapply wp_mono; [eapply set_row_st; [done|by rewrite (tw_row_len _ _ _ Hwf)]|].
    intros [] r2 H2. by wp_steps.
Qed.

Lemma cache_row_st ind Mb Mo C r A :
  st ind Mb Mo C r -> 0 <= A < R ->
  wp (cache_row A) r (fun _ => st ind Mb Mo (fun x => C x \/ x = A)).
Proof.
  intros H HA. assert (H' : st ind Mb Mo (fun x => C x \/ x = A) r).
  { eapply st_weaken; [done|done|done|auto]. }
  unfold cache_row. wp_step. wp_step. destruct (cache r) as [c0|] eqn:Hc.
  - assert (Hs : is_Some (cache r0)).
    { destruct (cache r0) eqn:E; [done|]. apply (st_cache_None _ _ _ _ _ H) in E. congruence. }
    destruct (st_cache_Some _ _ _ _ _ H' Hs) as (c & Hc' & Hwf & Hf & HC).
    rewrite Hc' in Hc. injection Hc as <-. wp_step. eapply generateCBFID_st; [done|lia|].
    wp_step. eapply on_cache_step; [done|].
    eapply wp_mono; [by apply FC.Lookup_spec|]. intros w c1 (Hwf1 & Hd1 & Hs1 & Hfa). wp_step.
    apply (FC.found_at_same _ _ _ _ _ (FC.tag_match_key A) Hd1 Hs1) in Hfa.
    assert (HC1 : forall x d, FC.cached (FC.m_cache c1) x d -> C x \/ x = A).
    { intros x d Hx. eapply HC, FC.cached_same_content; done. }
    assert (H1 : st ind Mb Mo (fun x => C x \/ x = A) (r <| cache := Some c1 |>)).
    { by eapply st_set_cache. }
    eapply on_cache_step; [done|]. wp_steps. rewrite cache_over.
    destruct (Z.eqb_spec w (FC.m_ways c1)) as [->|Hne].
    + wp_step. eapply wp_mono; [eapply insertRowInCache_st; [done|done|by right|]|].
      * intros c2 d [= <-] Hca.
        assert (FC.m_ways c1 < FC.m_ways c1); [|lia]. eapply FC.found_at_cached; eauto.
      * intros [isDirty ev] r2 H2. eapply when_virtualized_st; [done|].
        apply wp_when; intros _; [by apply add_delay_st|done].
    + destruct Hfa as [[_ (b & Hb & Hm)]|[? _]]; [|lia].
      destruct (FC.tag_match_cached _ _ _ _ Hb Hm) as (Hv & Ht & Hca).
      eapply on_cache_step; [done|].
      eapply wp_mono; [by eapply FC.SetDirtyBit_spec|]. intros [] c2 (Hwf2 & Hd2 & Hiff).
      rewrite cache_over. eapply st_set_cache; [exact H|done|done|by eapply FC.same_dims_trans|].
      intros x d [[-> _]|[_ Hx]]%Hiff; [by right|by eapply HC1].
  - eapply when_virtualized_st; [done|]. by apply add_delay_st.
Qed.

Lemma evict_slot_st ind Mb Mo C r A m :
  st ind Mb Mo C r -> zlen (row_To_QR_T ind) = R -> 0 <= nextFreeQR_ID ind < zlen (QR_To_Row_T ind) ->
  match row_in ind (nextFreeQR_ID ind) with
  | None => True
  | Some b => is_Some (slot_of ind b) /\ 1 <= Mb (b / g) < 2 ^ 32 /\
              (is_Some (cache r0) -> 1 <= Mo (b / g) < 2 ^ 32)
  end ->
  wp (evict_slot A m) r (fun _ r' =>
    match row_in ind (nextFreeQR_ID ind) with
    | None => st ind Mb Mo C r'
    | Some b => exists e1 e2, content e1 = None /\ content e2 = None /\
        st (with_row b e2 (with_qr (nextFreeQR_ID ind) e1 ind))
           (bump Mb (b / g) (-1)) (bump Mo (b / g) (-1)) (fun x => C x /\ x <> b) r'
    end).
Proof.
  intros H Hlen Hh Hb. unfold evict_slot. wp_steps. rewrite (st_ind _ _ _ _ _ H).
  eapply qr_entry_st; [done|done|]. intros e _ He. rewrite <- He in *.
  destruct (content e) as [b|] eqn:Hc; [|rewrite (content_None _ Hc); by wp_steps].
  destruct (content_Some _ _ Hc) as [-> Hve]. destruct Hb as ([q' Hq'] & Hb & Ho). wp_step.
  eapply wp_mono; [by eapply (removeRow_st _ _ _ _ _ _ b)|].
  intros isDirty r1 (e1 & e2 & He1 & He2 & H1). wp_step.
  eapply wp_mono; [by eapply add_delay_st|]. intros [] r2 H2. wp_steps.
  match goal with |- wp ?m r2 ?Q => eapply (wp_mono m r2 (fun _ => st _ _ _ _)) end.
  - destruct (_ && _ && _ && _); [by eapply add_delay_st|].
    apply wp_when; intros _; [by eapply add_delay_st|done].
  - intros [] r3 H3. wp_steps. eauto.
Qed.

Definition mapped (A : Z) (o : option Z) ind ind' : Prop :=
  match o with
  | None => ind' = with_qr (nextFreeQR_ID ind) (mkEntry true A) ind
  | Some j => exists e, content e = None /\
      ind' = with_qr j e (with_qr (nextFreeQR_ID ind) (mkEntry true A) ind)
  end.

Lemma map_slot_st ind Mb Mo C r A o :
  st ind Mb Mo C r -> 0 <= nextFreeQR_ID ind < zlen (QR_To_Row_T ind) ->
  (forall j, o = Some j -> j = nextFreeQR_ID ind \/ is_Some (row_in ind j)) ->
  wp (map_slot A o) r (fun _ r' => exists ind', mapped A o ind ind' /\ st ind' Mb Mo C r').
Proof.
  intros H Hh Ho. unfold map_slot. wp_step.
  eapply wp_mono; [by eapply add_delay_st|]. intros [] r1 H1. wp_step.
  eapply wp_mono; [eapply when_virtualized_st; [done|by eapply add_delay_st]|]. intros [] r2 H2.
  wp_steps. rewrite (st_ind _ _ _ _ _ H2).
  eapply wp_mono; [by eapply set_qr_st|]. intros [] r3 H3.
  destruct o as [j|]; [|wp_steps; eexists; split; [done|exact H3]].
  assert (Hj : is_Some (row_in (with_qr (nextFreeQR_ID ind) (mkEntry true A) ind) j)).
  { rewrite row_in_with_qr by done. destruct (Z.eqb_spec j (nextFreeQR_ID ind)); [by eexists|].
    by destruct (Ho j eq_refl). }
  destruct Hj as [y Hj]. pose proof (row_in_range _ _ _ Hj) as Hjr. wp_step.
  eapply wp_mono; [eapply when_virtualized_st; [done|]|].
  { apply wp_when; intros _; [by eapply add_delay_st|done]. }
  intros [] r4 H4. wp_step. eapply qr_entry_st; [done|done|]. intros e _ He. rewrite Hj in He.
  apply content_Some in He as [Hv _]. wp_step. apply wp_assert; [done|].
  eapply wp_mono; [by eapply set_qr_st|]. intros [] r5 H5.
  eexists. split; [|exact H5]. by exists (e <| valid := false |>).
Qed.

(** The pointers after a move. *)
Definition advanced ind : IndirectionTables :=
  ind <| QRTail_ID := if (nextFreeQR_ID ind =? QRTail_ID ind)
                         && negb (nextFreeQR_ID ind =? prevQRHead_ID ind)
                      then (QRTail_ID ind + 1) mod N else QRTail_ID ind |>
      <| nextFreeQR_ID := (nextFreeQR_ID ind + 1) mod N |>.

Lemma advance_st ind Mb Mo C r :
  st ind Mb Mo C r -> 0 <= nextFreeQR_ID ind < N -> 0 <= QRTail_ID ind < N ->
  wp advance r (fun _ => st (advanced ind) Mb Mo C).
Proof.
  intros H Hh Ht. unfold advance, on_tables, advanced. wp_steps.
  rewrite (st_ind _ _ _ _ _ H), (st_n _ _ _ _ _ H), !u32_small by lia.
  destruct (_ && _); cbn [when_]; wp_steps; repeat (apply rp_umod; [lia|]; wp_steps);
    destruct H as [<-]; by split.
Qed.
End State.

(** ** The invariant *)

Definition quarantined ind a : Prop := is_Some (slot_of ind a).

Record inv r : Prop := {
  inv_st : st r (indirection r) (gcount (rows_per_btv_bit r) (indirection r))
              (gcount (rows_per_btv_bit r) (indirection r)) (quarantined (indirection r)) r;
  inv_tables : tables_wf (numQREntries r) (numRows (base r)) (indirection r);
  inv_slots : 0 < numQREntries r < 2 ^ 32 - 1;
  inv_rows : 0 < numRows (base r) < 2 ^ 32;
  inv_group : 0 < rows_per_btv_bit r < 2 ^ 32;
  inv_exact : numRows (base r) mod rows_per_btv_bit r = 0 }.

(** What a move, a drain or a check leaves alone: the configuration, the
    detector, the shuffle and every member of the base class but the decision. *)
Record framed r r' : Prop := {
  fr_base : exists d, base r' = (base r) <| decision := d |>;
  fr_ids : randRowID r' = randRowID r;
  fr_n : numQREntries r' = numQREntries r;
  fr_g : rows_per_btv_bit r' = rows_per_btv_bit r;
  fr_detector : detector r' = detector r;
  fr_threshold : drain_cache_miss_threshold r' = drain_cache_miss_threshold r;
  fr_residency : s_btv_residency (stats r') = s_btv_residency (stats r);
  fr_mitigate : mitigate (decision (base r')) = mitigate (decision (base r));
  fr_cache : is_Some (cache r') <-> is_Some (cache r) }.

Lemma st_framed r ind Mb Mo C r' : st r ind Mb Mo C r' -> framed r r'.
Proof.
  intros H. pose proof (st_cache_None _ _ _ _ _ _ H) as Hc. destruct H. split; try done.
  destruct (cache r'), (cache r); split; intros [? ?]; try done; naive_solver.
Qed.

Lemma framed_rows r r' : framed r r' -> numRows (base r') = numRows (base r).
Proof. intros []. destruct fr_base0 as [d ->]. done. Qed.

(** Re-establishing the invariant from the pieces. *)
Lemma inv_intro r ind Mb Mo C r' :
  inv r -> st r ind Mb Mo C r' -> tables_wf (numQREntries r) (numRows (base r)) ind ->
  (forall i, 0 <= i < numRows (base r) -> Mb i = gcount (rows_per_btv_bit r) ind i) ->
  (forall i, 0 <= i < numRows (base r) -> Mo i = gcount (rows_per_btv_bit r) ind i) ->
  (forall a, C a -> quarantined ind a) -> inv r'.
Proof.
  intros Hinv H Hwf Hb Ho HC. pose proof (st_framed _ _ _ _ _ _ H) as F.
  pose proof (framed_rows _ _ F) as HR. destruct F. destruct Hinv.
  assert (H' := st_weaken _ _ _ _ _ _ _ _ _ H Hb Ho HC).
  pose proof (st_ind _ _ _ _ _ _ H') as Hi.
  split; rewrite ?HR, ?fr_n0, ?fr_g0, ?Hi; try done.
  destruct H'. destruct fr_base0 as [d Hd].
  assert (Hs : is_Some (cache r') -> is_Some (cache r)) by tauto.
  split; rewrite ?fr_n0, ?fr_g0, ?HR; try done.
  - rewrite Hd. done.
  - exists (decision (base r')). by destruct r' as [[]].
  - eauto.
  - destruct (cache r') eqn:E; [|done]. naive_solver.
Qed.

Lemma gcount_room r i : inv r -> 0 <= gcount (rows_per_btv_bit r) (indirection r) i < 2 ^ 32 - 1.
Proof.
  intros H. pose proof (gcount_bounds (rows_per_btv_bit r) (indirection r) i) as Hb.
  rewrite (tw_qr_len _ _ _ (inv_tables _ H)) in Hb. pose proof (inv_slots _ H). lia.
Qed.

(** ** Moving a row into the region *)

(** The slots after [A] is moved to the head. *)
Definition after_move ind A (q : Z) : option Z :=
  let h := nextFreeQR_ID ind in
  if bool_decide (slot_of ind A = Some h) then (if q =? h then None else row_in ind q)
  else if q =? h then Some A
  else if bool_decide (slot_of ind A = Some q) then None
  else row_in ind q.

(** The row table after the same move: the inverse of [after_move]. *)
Definition after_move_slot ind A (x : Z) : option Z :=
  let h := nextFreeQR_ID ind in
  if bool_decide (slot_of ind A = Some h) then (if x =? A then None else slot_of ind x)
  else if x =? A then Some h
  else if bool_decide (row_in ind h = Some x) then None
  else slot_of ind x.

Lemma after_move_inverse N R ind A :
  tables_wf N R ind -> forall q x, after_move ind A q = Some x <-> after_move_slot ind A x = Some q.
Proof.
  intros H q x. pose proof (tw_qr _ _ _ H) as Hq. pose proof (tw_row _ _ _ H) as Hx.
  unfold after_move, after_move_slot.
  repeat case_bool_decide; destruct (Z.eqb_spec q (nextFreeQR_ID ind)), (Z.eqb_spec x A); subst;
    split; intros; simplify_eq; try done;
    repeat match goal with
    | H : row_in ind ?q = Some ?a |- _ =>
        lazymatch goal with H' : slot_of ind a = Some q |- _ => fail | _ => pose proof (Hq _ _ H) end
    | H : slot_of ind ?a = Some ?q |- _ =>
        lazymatch goal with H' : row_in ind q = Some a |- _ => fail | _ => pose proof (Hx _ _ H) end
    end; simplify_eq; auto; congruence.
Qed.

(** The tables once the occupant of the head slot is dropped. *)
Definition evicted ind1 ind2 : Prop :=
  match row_in ind1 (nextFreeQR_ID ind1) with
  | None => ind2 = ind1
  | Some b => exists e1 e2, content e1 = None /\ content e2 = None /\
      ind2 = with_row b e2 (with_qr (nextFreeQR_ID ind1) e1 ind1)
  end.

Definition same_shape ind ind' : Prop :=
  zlen (QR_To_Row_T ind') = zlen (QR_To_Row_T ind) /\
  zlen (row_To_QR_T ind') = zlen (row_To_QR_T ind) /\
  nextFreeQR_ID ind' = nextFreeQR_ID ind /\ prevQRHead_ID ind' = prevQRHead_ID ind /\
  QRTail_ID ind' = QRTail_ID ind.

Lemma same_shape_row a e ind ind' : same_shape ind ind' -> same_shape ind (with_row a e ind').
Proof. unfold same_shape, with_row, over. cbn. rewrite zlen_insert. done. Qed.
Lemma same_shape_qr q e ind ind' : same_shape ind ind' -> same_shape ind (with_qr q e ind').
Proof. unfold same_shape, with_qr, over. cbn. rewrite zlen_insert. done. Qed.
Lemma same_shape_refl ind : same_shape ind ind.
Proof. done. Qed.
Lemma same_shape_trans ind1 ind2 ind3 : same_shape ind1 ind2 -> same_shape ind2 ind3 -> same_shape ind1 ind3.
Proof. unfold same_shape. naive_solver congruence. Qed.
#[local] Hint Resolve same_shape_row same_shape_qr same_shape_refl : core.

Section Move.
Context (N R g : Z) (ind : IndirectionTables) (A : Z) (ind2 ind3 : IndirectionTables).
Let h := nextFreeQR_ID ind.
Let ind1 := with_row A (mkEntry true h) ind.
Context (H : tables_wf N R ind) (HA : 0 <= A < R).
Context (He : evicted ind1 ind2).

Lemma evicted_shape : same_shape ind ind2.
Proof.
  unfold evicted in He. destruct (row_in ind1 _); [destruct He as (? & ? & _ & _ & ->)|rewrite He].
  all: unfold ind1; auto.
Qed.
Lemma head_range : 0 <= h < zlen (QR_To_Row_T ind).
Proof. rewrite (tw_qr_len _ _ _ H). apply H. Qed.
Lemma row_range : 0 <= A < zlen (row_To_QR_T ind).
Proof. by rewrite (tw_row_len _ _ _ H). Qed.

Lemma evicted_rows q : row_in ind2 q = if q =? h then None else row_in ind q.
Proof.
  unfold evicted in He. change (nextFreeQR_ID ind1) with h in He.
  change (row_in ind1 h) with (row_in ind h) in He.
  destruct (row_in ind h) as [b|] eqn:Hb.
  - destruct He as (e1 & e2 & He1 & He2 & ->).
    rewrite row_in_with_row, row_in_with_qr by apply head_range. rewrite He1. done.
  - rewrite He. destruct (Z.eqb_spec q h) as [->|]; done.
Qed.
Lemma evicted_slots x :
  slot_of ind2 x = if bool_decide (row_in ind h = Some x) then None
                   else if x =? A then Some h else slot_of ind x.
Proof.
  unfold evicted in He. change (nextFreeQR_ID ind1) with h in He.
  change (row_in ind1 h) with (row_in ind h) in He. pose proof row_range as HAr.
  destruct (row_in ind h) as [b|] eqn:Hb.
  - destruct He as (e1 & e2 & He1 & He2 & ->).
    pose proof (slot_of_range _ _ _ (tw_qr _ _ _ H _ _ Hb)).
    rewrite slot_of_with_row by (unfold ind1, with_row, over; cbn; by rewrite zlen_insert).
    rewrite slot_of_with_qr, He2. unfold ind1. rewrite slot_of_with_row by done.
    case_bool_decide; simplify_eq; [by rewrite Z.eqb_refl|].
    destruct (Z.eqb_spec x b); [congruence|done].
  - rewrite He. unfold ind1. by rewrite slot_of_with_row.
Qed.

Lemma evicted_len : zlen (QR_To_Row_T ind2) = zlen (QR_To_Row_T ind).
Proof. apply evicted_shape. Qed.
Lemma evicted_head : nextFreeQR_ID ind2 = h.
Proof. apply evicted_shape. Qed.

Context (Hm : mapped A (slot_of ind A) ind2 ind3).

Lemma mapped_shape : same_shape ind ind3.
Proof.
  pose proof evicted_shape as Hs. unfold mapped in Hm.
  destruct (slot_of ind A); [destruct Hm as (? & _ & ->)|rewrite Hm]; auto.
Qed.

Lemma moved_rows q : row_in ind3 q = after_move ind A q.
Proof.
  pose proof head_range as Hh. unfold after_move. fold h. unfold mapped in Hm.
  destruct (slot_of ind A) as [j|] eqn:Ho.
  - destruct Hm as (e & Hce & ->). rewrite evicted_head.
    pose proof (row_in_range _ _ _ (tw_row _ _ _ H _ _ Ho)).
    rewrite row_in_with_qr by (unfold with_qr, over; cbn; by rewrite zlen_insert, evicted_len).
    rewrite row_in_with_qr by (by rewrite evicted_len). rewrite evicted_rows, Hce.
    destruct (Z.eqb_spec q h), (Z.eqb_spec q j); repeat case_bool_decide; simplify_eq; done.
  - rewrite Hm, evicted_head, row_in_with_qr by (by rewrite evicted_len).
    rewrite evicted_rows. rewrite !bool_decide_false by done. by destruct (q =? h).
Qed.
Lemma moved_slots x : slot_of ind3 x = after_move_slot ind A x.
Proof.
  unfold after_move_slot. fold h.
  assert (slot_of ind3 x = slot_of ind2 x) as ->.
  { unfold mapped in Hm. destruct (slot_of ind A); [destruct Hm as (? & _ & ->)|rewrite Hm]; done. }
  rewrite evicted_slots. pose proof (tw_qr _ _ _ H h) as Hq. pose proof (tw_row _ _ _ H A) as Hr.
  repeat case_bool_decide; destruct (Z.eqb_spec x A); subst; try done.
  all: try (by rewrite (Hr _ ltac:(eassumption)) in *).
  all: naive_solver.
Qed.

(** The group counts follow the moves of A in and of the old occupant out. *)
Lemma moved_count i :
  gcount g ind3 i = gcount g ind i - weight g i (row_in ind h)
    + (if bool_decide (slot_of ind A = None) then weight g i (Some A) else 0).
Proof.
  pose proof head_range as Hh.
  assert (H2 : gcount g ind2 i = gcount g ind i - weight g i (row_in ind h)).
  { unfold evicted in He. change (nextFreeQR_ID ind1) with h in He.
    change (row_in ind1 h) with (row_in ind h) in He. destruct (row_in ind h) as [b|] eqn:Hb.
    - destruct He as (e1 & e2 & He1 & _ & ->). rewrite gcount_with_row, gcount_with_qr by done.
      rewrite He1. change (row_in ind1 h) with (row_in ind h). rewrite Hb.
      change (gcount g ind1 i) with (gcount g ind i). cbn [weight]. lia.
    - rewrite He. change (gcount g ind1 i) with (gcount g ind i). cbn [weight]. lia. }
  assert (H3 : gcount g (with_qr h (mkEntry true A) ind2) i = gcount g ind2 i + weight g i (Some A)).
  { rewrite gcount_with_qr by (by rewrite evicted_len). rewrite evicted_rows, Z.eqb_refl.
    change (content (mkEntry true A)) with (Some A). cbn [weight]. lia. }
  unfold mapped in Hm. rewrite evicted_head in Hm.
  destruct (slot_of ind A) as [j|] eqn:Ho.
  - destruct Hm as (e & Hce & ->). pose proof (tw_row _ _ _ H _ _ Ho) as Hj.
    pose proof (row_in_range _ _ _ Hj). rewrite bool_decide_false by done.
    rewrite gcount_with_qr by (unfold with_qr, over; cbn; by rewrite zlen_insert, evicted_len).
    rewrite row_in_with_qr by (by rewrite evicted_len). rewrite evicted_rows, Hce, H3, H2.
    assert (Hw : (if j =? h then content (mkEntry true A) else if j =? h then None else row_in ind j)
                 = Some A) by (destruct (j =? h); done).
    rewrite Hw. cbn [weight]. lia.
  - rewrite Hm, H3, H2. rewrite bool_decide_true by done. lia.
Qed.
End Move.

Definition tables_step (N : Z) ind ind' A : Prop :=
  (forall q, row_in ind' q = after_move ind A q) /\
  nextFreeQR_ID ind' = (nextFreeQR_ID ind + 1) mod N /\
  prevQRHead_ID ind' = prevQRHead_ID ind /\
  QRTail_ID ind' = if (nextFreeQR_ID ind =? QRTail_ID ind)
                      && negb (nextFreeQR_ID ind =? prevQRHead_ID ind)
                   then (QRTail_ID ind + 1) mod N else QRTail_ID ind.

(** [quarantineRow] fails no assertion, keeps the invariant, and does to the
    slots what [after_move] says. *)
Lemma quarantineRow_st r A :
  inv r -> 0 <= A < numRows (base r) ->
  wp (quarantineRow A) r (fun _ r' => inv r' /\ framed r r' /\
    tables_step (numQREntries r) (indirection r) (indirection r') A).
Proof.
  intros Hinv HA. pose proof (inv_tables _ Hinv) as Hwf. pose proof (inv_st _ Hinv) as H0.
  set (ind := indirection r) in *. set (g := rows_per_btv_bit r) in *.
  set (N := numQREntries r) in *. set (R := numRows (base r)) in *. set (M := gcount g ind) in *.
  set (h := nextFreeQR_ID ind) in *.
  assert (Hg : 0 < g) by apply Hinv. assert (HR : 0 < R < 2 ^ 32) by apply Hinv.
  assert (HN : 0 < N < 2 ^ 32 - 1) by apply Hinv.
  assert (HM : forall i, 0 <= M i < 2 ^ 32 - 1) by (intros i; by apply gcount_room).
  unfold quarantineRow. wp_step.
  eapply wp_mono; [by eapply map_row_st|]. intros o r1 [Ho H1]. wp_step.
  eapply wp_mono; [by eapply cache_row_st|]. intros [] r2 H2. wp_step.
  eapply wp_mono; [eapply when_virtualized_st; [done|by eapply add_delay_st]|]. intros [] r3 H3. wp_step.
  set (ind1 := with_row A (mkEntry true (nextFreeQR_ID ind)) ind) in *.
  set (M1 := remapped r o M A) in *.
  assert (Hlen1 : zlen (row_To_QR_T ind1) = R).
  { unfold ind1, with_row, over. cbn. rewrite zlen_insert. apply Hwf. }
  pose proof (head_range N R ind Hwf) as Hh.
  assert (Hb1 : forall b, row_in ind h = Some b -> is_Some (slot_of ind1 b) /\ 1 <= M1 (b / g) < 2 ^ 32).
  { intros b Hb. split.
    - unfold ind1. rewrite slot_of_with_row by (by rewrite (tw_row_len _ _ _ Hwf)).
      destruct (b =? A); [by eexists|]. exists h. by eapply tw_qr.
    - pose proof (gcount_pos g _ _ _ Hb) as Hp. specialize (HM (b / g)). fold M in Hp.
      unfold M1, remapped, bump. destruct o; [lia|]. fold g. destruct (_ =? _); lia. }
  eapply wp_mono; [eapply evict_slot_st; try done|].
  { change (nextFreeQR_ID ind1) with h. change (row_in ind1 h) with (row_in ind h).
    destruct (row_in ind h) as [b|] eqn:Hb; [|done]. pose proof (Hb1 b eq_refl). fold g. tauto. }
  change (nextFreeQR_ID ind1) with h. change (row_in ind1 h) with (row_in ind h).
  intros rm r4 H4. wp_step.
  set (M2 := match row_in ind h with Some b => bump M1 (b / g) (-1) | None => M1 end).
  set (C2 := fun x => (quarantined ind x \/ x = A) /\ row_in ind h <> Some x).
  assert (Hst4 : exists ind2, evicted ind1 ind2 /\ st r ind2 M2 M2 C2 r4).
  { unfold evicted. change (nextFreeQR_ID ind1) with h. change (row_in ind1 h) with (row_in ind h).
    unfold M2, C2. destruct (row_in ind h) as [b|].
    - destruct H4 as (e1 & e2 & He1 & He2 & H4). eexists. split; [by exists e1, e2|].
      eapply st_weaken; [exact H4|done|done|]. cbn. intros x [? ?]. split; [done|congruence].
    - exists ind1. split; [done|]. eapply st_weaken; [exact H4|done|done|]. cbn. intros x Hx. by split. }
  clear H4. destruct Hst4 as (ind2 & He & H4).
  pose proof (evicted_shape ind A ind2 He) as (L1 & L2 & L3 & L4 & L5).
  eapply wp_mono; [eapply (map_slot_st r); [exact H4|by rewrite L1, L3|]|].
  { intros j ->. destruct (decide (j = nextFreeQR_ID ind2)) as [|Hne]; [by left|right].
    rewrite (evicted_rows N R ind A ind2 Hwf He). rewrite L3 in Hne.
    destruct (Z.eqb_spec j (nextFreeQR_ID ind)); [done|].
    exists A. by eapply tw_row. }
  intros [] r5 (ind3 & Hm & H5). wp_step. rewrite Ho in Hm.
  pose proof (mapped_shape ind A ind2 ind3 He Hm) as (K1 & K2 & K3 & K4 & K5).
  pose proof (moved_rows N R ind A ind2 ind3 Hwf He Hm) as Hrows.
  pose proof (moved_slots N R ind A ind2 ind3 Hwf HA He Hm) as Hslots.
  pose proof (fun i => moved_count N R g ind A ind2 ind3 Hwf He Hm i) as Hcnt.
  eapply wp_mono; [eapply advance_st; try done|].
  { rewrite K3. apply Hwf. }
  { rewrite K5. apply Hwf. }
  intros [] r6 H6. eapply wp_mono; [eapply count_stat_st; [done|intros s; by repeat case_match]|].
  intros [] r7 H7.
  assert (HM2 : forall i, M2 i = gcount g ind3 i).
  { intros i. rewrite Hcnt. fold h. unfold M2, M1, remapped, bump, weight. fold g. rewrite Ho.
    destruct (row_in ind h) as [b|], (slot_of ind A) as [j|];
      rewrite ?bool_decide_false, ?bool_decide_true by done; fold (M i); cbn;
      repeat rewrite (Z.eqb_sym i); unfold M; repeat destruct (_ =? _); cbn; lia. }
  split; [|split; [by eapply st_framed|]].
  - eapply inv_intro; [done|exact H7| | | |].
    + split; unfold advanced, over; cbn; rewrite ?K1, ?K2, ?K3, ?K4, ?K5; try apply Hwf.
      * apply Z.mod_pos_bound. lia.
      * destruct (_ && _); [apply Z.mod_pos_bound; lia|apply Hwf].
      * intros q a. change (row_in ind3 q = Some a -> slot_of ind3 a = Some q).
        rewrite Hrows, Hslots. by apply (after_move_inverse N R).
      * intros a q. change (slot_of ind3 a = Some q -> row_in ind3 q = Some a).
        rewrite Hrows, Hslots. by apply (after_move_inverse N R).
    + intros i _. apply HM2.
    + intros i _. apply HM2.
    + intros x [Hx Hnx]. unfold quarantined. change (is_Some (slot_of ind3 x)).
      rewrite Hslots. unfold after_move_slot. fold h.
      repeat case_bool_decide; destruct (Z.eqb_spec x A) as [->|]; try done;
        try (by destruct Hx).
      all: destruct Hnx; first [done|by eapply tw_row].
  - rewrite (st_ind _ _ _ _ _ _ H7). unfold tables_step, advanced, over. cbn.
    rewrite K3, K4, K5. split; [exact Hrows|done].
Qed.

(** The slots after one drain. *)
Definition drained ind : bool :=
  negb (QRTail_ID ind =? prevQRHead_ID ind) && bool_decide (is_Some (row_in ind (QRTail_ID ind))).
Definition drain_step (N : Z) ind ind' : Prop :=
  nextFreeQR_ID ind' = nextFreeQR_ID ind /\ prevQRHead_ID ind' = prevQRHead_ID ind /\
  if drained ind
  then QRTail_ID ind' = (QRTail_ID ind + 1) mod N /\
       forall q, row_in ind' q = if q =? QRTail_ID ind then None else row_in ind q
  else QRTail_ID ind' = QRTail_ID ind /\ forall q, row_in ind' q = row_in ind q.

Lemma drainRow_st r :
  inv r -> wp drainRow r (fun _ r' => inv r' /\ framed r r' /\
    drain_step (numQREntries r) (indirection r) (indirection r')).
Proof.
  intros Hinv. pose proof (inv_tables _ Hinv) as Hwf. pose proof (inv_st _ Hinv) as H0.
  set (ind := indirection r) in *. set (g := rows_per_btv_bit r) in *.
  set (N := numQREntries r) in *. set (R := numRows (base r)) in *. set (M := gcount g ind) in *.
  assert (Hg : 0 < g) by apply Hinv. assert (HR : 0 < R < 2 ^ 32) by apply Hinv.
  assert (HN : 0 < N < 2 ^ 32 - 1) by apply Hinv.
  assert (HM : forall i, 0 <= M i < 2 ^ 32 - 1) by (intros i; by apply gcount_room).
  pose proof (tw_tail _ _ _ Hwf) as Ht.
  unfold drainRow. wp_steps. fold ind. eapply qr_entry_st; [done|by rewrite (tw_qr_len _ _ _ Hwf)|].
  intros e _ He. wp_step.
  eapply wp_mono; [eapply when_virtualized_st; [done|by eapply add_delay_st]|]. intros [] r1 H1.
  unfold drain_step, drained. rewrite <- He.
  assert (Hcond : valid e = bool_decide (is_Some (content e))).
  { unfold content. destruct (valid e); [by rewrite bool_decide_true|].
    rewrite bool_decide_false; [done|]. by intros []. }
  rewrite Hcond. apply wp_when; intros Hc; rewrite Hc.
  2:{ pose proof (st_ind _ _ _ _ _ _ H1) as Hi. rewrite Hi.
      split; [|split; [by eapply st_framed|done]]. by eapply inv_intro. }
  apply andb_true_iff in Hc as [_ [b Hb]%bool_decide_eq_true]. rewrite Hb in He.
  pose proof (tw_qr _ _ _ Hwf _ _ (eq_sym He)) as Hsb.
  pose proof (gcount_pos g _ _ _ (eq_sym He)) as Hp. pose proof (HM (b / g)) as HMb. fold M in Hp.
  wp_step. eapply wp_mono; [by eapply count_stat_st|]. intros [] r2 H2. wp_step.
  eapply wp_mono; [eapply (removeRow_st r); try done; [apply Hwf|fold g; lia|fold g; intros; lia]|].
  intros isDirty r3 (e1 & e2 & He1 & He2 & H3). wp_step.
  set (ind' := with_row b e2 _) in *.
  eapply wp_mono; [by eapply add_delay_st|]. intros [] r4 H4. wp_steps.
  match goal with |- wp ?m r4 ?Q => eapply (wp_mono m r4 (fun _ => st r ind' _ _ _)) end.
  { destruct (_ && _ && _); [by eapply add_delay_st|].
    apply wp_when; intros _; [by eapply add_delay_st|done]. }
  intros [] r5 H5. wp_step.
  eapply wp_mono; [eapply when_virtualized_st; [done|by eapply add_delay_st]|]. intros [] r6 H6.
  unfold on_tables. wp_steps.
  rewrite (st_n _ _ _ _ _ _ H4), u32_small by (unfold N in *; lia). fold N.
  apply rp_umod; [lia|]. wp_steps. rewrite (st_ind _ _ _ _ _ _ H6).
  pose proof (st_with_ind _ _ _ _ _ _ H6 _ _
    (@eq_refl IndirectionTables (ind' <| QRTail_ID := (QRTail_ID ind + 1) mod N |>))) as H7.
  assert (Hrows : forall q, row_in ind' q = if q =? QRTail_ID ind then None else row_in ind q).
  { intros q. unfold ind'. rewrite row_in_with_row, row_in_with_qr, He1 by (by rewrite (tw_qr_len _ _ _ Hwf)).
    done. }
  assert (Hslots : forall x, slot_of ind' x = if x =? b then None else slot_of ind x).
  { intros x. unfold ind'. pose proof (slot_of_range _ _ _ Hsb).
    rewrite slot_of_with_row by done. by rewrite slot_of_with_qr, He2. }
  assert (Hcnt : forall i, bump M (b / g) (-1) i = gcount g ind' i).
  { intros i. unfold ind'. rewrite gcount_with_row, gcount_with_qr, <- He, He1 by (by rewrite (tw_qr_len _ _ _ Hwf)).
    unfold bump, weight. fold (M i). rewrite (Z.eqb_sym i). destruct (_ =? _); cbn; lia. }
  split; [|split; [by eapply st_framed|]].
  - eapply inv_intro; [done|exact H7| | | |].
    + assert (same_shape ind ind') as (L1 & L2 & L3 & L4 & L5) by (unfold ind'; auto).
      split; unfold over; cbn [QR_To_Row_T row_To_QR_T nextFreeQR_ID prevQRHead_ID QRTail_ID];
        rewrite ?L1, ?L2, ?L3, ?L4, ?L5; try apply Hwf.
      * apply Z.mod_pos_bound. lia.
      * intros q a. change (row_in ind' q = Some a -> slot_of ind' a = Some q).
        rewrite Hrows, Hslots. intros Hqa. destruct (Z.eqb_spec q (QRTail_ID ind)) as [->|Hne]; [done|].
        pose proof (tw_qr _ _ _ Hwf _ _ Hqa) as Haq.
        destruct (Z.eqb_spec a b) as [->|]; [congruence|done].
      * intros a q. change (slot_of ind' a = Some q -> row_in ind' q = Some a).
        rewrite Hrows, Hslots. intros Haq. destruct (Z.eqb_spec a b) as [->|Hne]; [done|].
        pose proof (tw_row _ _ _ Hwf _ _ Haq) as Hqa.
        destruct (Z.eqb_spec q (QRTail_ID ind)) as [->|]; [congruence|done].
    + intros i _. apply Hcnt.
    + intros i _. apply Hcnt.
    + intros x [Hx Hne]. unfold quarantined. change (is_Some (slot_of ind' x)). rewrite Hslots.
      by destruct (Z.eqb_spec x b).
  - split; [done|]. split; [done|]. split; [done|]. intros q. apply Hrows.
Qed.

(** ** Checking a row *)

Lemma scan_group_spec R ind n : forall i, 0 <= i -> i + Z.of_nat n <= R -> R < 2 ^ 32 ->
  zlen (row_To_QR_T ind) = R ->
  wp (scan_group n i) ind (fun o ind' => ind' = ind /\
    match o with
    | Some j => i <= j < i + Z.of_nat n /\ is_Some (slot_of ind j)
    | None => forall j, i <= j < i + Z.of_nat n -> slot_of ind j = None
    end).
Proof.
  induction n as [|n IH]; intros i Hi Hn HR Hlen; cbn [scan_group].
  { apply wp_ret. split; [done|lia]. }
  unfold row_entry. wp_steps. destruct (zlookup_is_Some (row_To_QR_T ind) i) as [e He]; [lia|].
  eapply rp_aread; [exact He|]. assert (Hc : slot_of ind i = content e) by (unfold slot_of; by rewrite He).
  destruct (valid e) eqn:Hv.
  - wp_steps. split; [done|]. split; [lia|]. rewrite Hc. unfold content. rewrite Hv. by eexists.
  - cbn beta iota. destruct (decide (n = O)) as [->|Hnz].
    { cbn. apply wp_ret. split; [done|]. intros j Hj. replace j with i by lia.
      rewrite Hc. unfold content. by rewrite Hv. }
    rewrite u32_small by lia. eapply wp_mono; [apply IH; [lia|lia|done|done]|].
    intros [j|] ind' [-> Ho]; (split; [done|]); [split; [lia|apply Ho]|].
    intros j Hj. destruct (decide (j = i)) as [->|]; [rewrite Hc; unfold content; by rewrite Hv|].
    apply Ho. lia.
Qed.

Section Check.
Context (r0 : t) (A : Z) (Hinv : inv r0) (HA : 0 <= A < numRows (base r0)).
Context (Hline : 32 mod rows_per_btv_bit r0 = 0).
Let ind := indirection r0.
Let R := numRows (base r0).
Let g := rows_per_btv_bit r0.
Let M := gcount g ind.

Lemma same_line x : x / g = A / g -> Z.shiftr x 5 = Z.shiftr A 5.
Proof.
  intros E. pose proof (inv_group _ Hinv) as Hg. fold g in Hg.
  rewrite !Z.shiftr_div_pow2 by lia. change (2 ^ 5) with 32.
  assert (H32 : 32 = g * (32 / g)).
  { pose proof (Z.div_mod 32 g ltac:(lia)) as D. fold g in Hline. lia. }
  assert (0 < 32 / g) by nia.
  rewrite H32, <- !Z.div_div by lia. by rewrite E.
Qed.

Lemma on_tables_st Mb Mo C r {B} (m : comp IndirectionTables B) (P : B -> Prop) :
  st r0 ind Mb Mo C r -> wp m ind (fun v ind' => ind' = ind /\ P v) ->
  wp (on_tables m) r (fun v r' => r' = r /\ P v).
Proof.
  intros H Hm. unfold on_tables. wp_step. rewrite (st_ind _ _ _ _ _ _ H).
  eapply wp_mono; [exact Hm|]. intros v ind' [-> HP]. split; [|done].
  pose proof (st_ind _ _ _ _ _ _ H) as Hi. destruct r. cbn in Hi. by subst.
Qed.

Lemma table_delay_st Mb Mo C r :
  st r0 ind Mb Mo C r -> wp table_delay r (fun _ => st r0 ind Mb Mo C).
Proof.
  intros H. unfold table_delay. wp_steps.
  destruct (virtualize_RIT _); [by apply add_delay_st|by apply add_SRAM_delay_st].
Qed.

Lemma on_cache_miss_st C r :
  st r0 ind M M C r -> is_Some (cache r0) ->
  (forall x, C x -> quarantined ind x /\ x <> A) ->
  (M (A / g) = 1 -> forall x, C x -> x / g <> A / g) ->
  wp (on_cache_miss A A) r (fun _ => st r0 ind M M (quarantined ind)).
Proof.
  intros H Hs HC H1. pose proof (inv_tables _ Hinv) as Hwf. fold ind R in Hwf. pose proof (inv_group _ Hinv) as Hg.
  pose proof (inv_rows _ Hinv) as HR. fold R in HA, HR. fold g in Hg.
  pose proof (inv_exact _ Hinv) as Hex. fold R g in Hex.
  assert (Hgr : 0 <= A / g < R).
  { pose proof (Z.div_pos A g). pose proof (Z.div_le_upper_bound A g A). nia. }
  assert (Hrow : 0 <= A / g * g /\ A / g * g <= A /\ A / g * g + g <= R).
  { pose proof (Z.div_mod A g ltac:(lia)). pose proof (Z.mod_pos_bound A g ltac:(lia)).
    pose proof (Z.div_mod R g ltac:(lia)).
    assert (A / g < R / g) by (apply Z.div_lt_upper_bound; lia). nia. }
  unfold on_cache_miss. wp_step. eapply wp_mono; [by apply table_delay_st|].
  intros [] r1 Hr1. wp_steps. eapply group_of_st; [done|apply Hg|]. wp_step.
  eapply row_entry_st; [done|by rewrite (tw_row_len _ _ _ Hwf)|]. intros e _ He. wp_step.
  pose proof (st_rows _ _ _ _ _ _ Hr1) as HRr. fold R in HRr.
  pose proof (st_g _ _ _ _ _ _ Hr1) as Hgr1. fold g in Hgr1.
  eapply (wp_mono _ _ (fun ins r' => st r0 ind M M C r' /\
    (ins < R -> (ins = A \/ M (A / g) = 1) -> 0 <= ins /\ quarantined ind ins /\ ~ C ins))).
  - destruct (valid e) eqn:Hv.
    + wp_step. eapply wp_mono; [by apply count_stat_st|]. intros [] r2 Hr2. wp_steps.
      split; [done|]. rewrite u32_small by lia. intros _ _. split; [lia|]. split.
      * unfold quarantined. rewrite <- He. unfold content. rewrite Hv. by eexists.
      * intros [_ ?]%HC. done.
    + wp_step. eapply group_of_st; [done|apply Hg|]. wp_step. fold g. rewrite Hgr1, u32_small by lia.
      eapply wp_mono; [eapply on_tables_st; [done|apply (scan_group_spec R ind (Z.to_nat g) (A / g * g))]|];
        [lia|rewrite Z2Nat.id by lia; lia|lia|apply Hwf|].
      intros found r2 [-> Hf]. rewrite Z2Nat.id in Hf by lia. wp_step.
      eapply orr_at_st; [done|done|done|]. wp_step.
      eapply (wp_mono _ _ (fun _ => st r0 ind M M C)).
      { apply wp_when; intros _; [by apply count_stat_st|done]. }
      intros [] r2 Hr2. wp_steps. rewrite HRr. split; [done|].
      destruct found as [j|]; cbn; [|lia]. destruct Hf as [Hj Hq]. intros _ Hor.
      split; [lia|]. split; [done|]. destruct Hor as [->|Ho]; [intros [_ ?]%HC; done|].
      intros HCj. apply (H1 Ho j HCj). symmetry. apply Z.div_unique with (j - A / g * g); lia.
  - intros ins r2 [Hr2 Hins]. wp_step. eapply orr_at_st; [done|done|done|]. cbv beta.
    rewrite HRr. apply wp_when; intros Hc; [|by eapply st_weaken; [| | |intros x [? _]%HC]].
    apply andb_true_iff in Hc as [Hlt%Z.ltb_lt Hor].
    destruct (Hins Hlt) as (Hpos & Hq & Hn).
    { apply orb_true_iff in Hor as [?%Z.eqb_eq|?%Z.eqb_eq]; auto. }
    wp_step. eapply generateCBFID_st; [done|lia|]. wp_step.
    eapply wp_mono; [eapply (insertRowInCache_new r0 _ _ _ _ (quarantined ind)); try done; by intros x [? _]%HC|].
    intros [d ev] r3 Hr3. eapply when_virtualized_st; [done|].
    apply wp_when; intros _; [by apply add_delay_st|done].
Qed.

Lemma check_cache_st r :
  st r0 ind M M (quarantined ind) r -> is_Some (cache r0) ->
  wp (check_cache A A) r (fun _ => st r0 ind M M (quarantined ind)).
Proof.
  intros H Hs. pose proof (inv_group _ Hinv) as Hg. fold g in Hg.
  assert (Hgr : 0 <= A / g < R).
  { pose proof (Z.div_pos A g). pose proof (Z.div_le_upper_bound A g A). unfold R. nia. }
  unfold check_cache. wp_step. eapply wp_mono; [by apply add_SRAM_delay_st|]. intros [] r1 H1.
  destruct (st_cache_Some _ _ _ _ _ _ H1 Hs) as (c & Hc & Hwf & [Hf Hoff] & HC). wp_step.
  eapply on_cache_step; [done|]. eapply wp_mono; [by apply FC.Lookup_spec|].
  intros w c1 (Hwf1 & Hd1 & Hs1 & Hfa). wp_step.
  apply (FC.found_at_same _ _ _ _ _ (FC.tag_match_key A) Hd1 Hs1) in Hfa.
  pose proof Hd1 as (Ho1 & _ & _ & Hf1).
  assert (HC1 : forall x d, FC.cached (FC.m_cache c1) x d -> quarantined ind x).
  { intros x d Hx. eapply HC, FC.cached_same_content; done. }
  assert (Hr1 : st r0 ind M M (quarantined ind) (r1 <| cache := Some c1 |>)) by by eapply st_set_cache.
  eapply on_cache_step; [done|]. wp_steps. rewrite cache_over.
  destruct (Z.ltb_spec w (FC.m_ways c1)) as [Hlt|Hge]; [by apply count_stat_st|].
  assert (Hmiss : forall d, ~ FC.cached (FC.m_cache c1) A d).
  { intros d Hd. assert (w < FC.m_ways c1); [|lia]. eapply FC.found_at_cached; eauto. }
  wp_step. eapply on_cache_step; [done|].
  eapply wp_mono; [apply FC.PartialLookup_spec; [done|rewrite Hf1, Hf; unfold g in *; lia]|].
  intros w2 c2 (Hwf2 & Hd2 & Hs2 & Hfa2). rewrite cache_over.
  apply (FC.found_at_same _ _ _ _ _ (FC.line_match_key _ A) Hd2 Hs2) in Hfa2.
  pose proof Hd2 as (Ho2 & _ & Hw2 & _). rewrite Hf1, Hf in Hfa2.
  assert (HC2 : forall x d, FC.cached (FC.m_cache c2) x d -> quarantined ind x /\ x <> A).
  { intros x d Hx. eapply FC.cached_same_content in Hx; [|done]. split; [by eapply HC1|].
    intros ->. by eapply Hmiss. }
  assert (Hr2 : st r0 ind M M (fun x => quarantined ind x /\ x <> A) (r1 <| cache := Some c2 |>)).
  { eapply st_set_cache; [exact H1|done|done|by eapply FC.same_dims_trans|exact HC2]. }
  assert (Hweak : forall r', st r0 ind M M (fun x => quarantined ind x /\ x <> A) r' ->
            st r0 ind M M (quarantined ind) r').
  { intros r' Hr'. eapply st_weaken; [exact Hr'|done|done|]. by intros x [? _]. }
  wp_step. destruct (Z.ltb_spec w2 (FC.m_ways c1)) as [Hlt2|Hge2].
  - wp_step. eapply group_of_st; [exact Hr2|apply Hg|]. wp_step.
    eapply orr_at_st; [exact Hr2|done|done|].
    fold g. destruct (Z.eqb_spec (M (A / g)) 1) as [H1'|Hne]; wp_step.
    + eapply wp_mono; [by apply count_stat_st|]. intros [] r3 Hr3. wp_steps. by apply Hweak.
    + eapply wp_mono; [by apply count_stat_st|]. intros [] r3 Hr3. wp_steps.
      by eapply on_cache_miss_st.
  - wp_step. eapply wp_mono; [eapply (count_stat_st r0 _ _ _ (fun x => (quarantined ind x /\ x <> A) /\ x / g <> A / g))|].
    + eapply st_set_cache; [exact H1|done|done|by eapply FC.same_dims_trans|].
      intros x d Hx. split; [by eapply HC2|]. intros E. destruct Hx as (s & w' & b & Hb & Hv & Ht & _).
      pose proof (FC.wf_place _ _ _ _ Hwf2 _ _ _ Hb Hv) as ->.
      destruct Hfa2 as [[? _]|[_ Hnone]]; [lia|].
      assert (Hset : FC.set_index (FC.m_blk_offset c2) (FC.m_sets c2) (FC.tag b) = FC.index c2 A).
      { unfold FC.index, FC.set_index. rewrite Ho2, Ho1, Hoff, Ht. by rewrite (same_line x E). }
      rewrite Hset in Hb. pose proof (Hnone _ _ Hb) as Hm. unfold FC.line_match in Hm.
      fold g in Hm. by rewrite Hv, Ht, E, Z.eqb_refl in Hm.
    + done.
    + intros [] r3 Hr3. wp_steps. eapply on_cache_miss_st; [exact Hr3|done| |].
      * by intros x [? _].
      * by intros _ x [_ ?].
Qed.

Lemma addQCheckDelay_st :
  wp (addQCheckDelay A) r0 (fun _ r' => inv r' /\ framed r0 r' /\ indirection r' = indirection r0).
Proof.
  pose proof (inv_st _ Hinv) as H. pose proof (inv_group _ Hinv) as Hg. fold g in Hg.
  pose proof (inv_tables _ Hinv) as Hwf. fold ind R in Hwf. fold R in HA.
  pose proof (inv_rows _ Hinv) as HR. fold R in HR.
  assert (Hgr : 0 <= A / g < R).
  { pose proof (Z.div_pos A g). pose proof (Z.div_le_upper_bound A g A). unfold R. nia. }
  eapply (wp_mono _ _ (fun _ => st r0 ind M M (quarantined ind))); last first.
  { intros [] r' Hr'. split; [by eapply inv_intro|]. split; [by eapply st_framed|].
    by rewrite (st_ind _ _ _ _ _ _ Hr'). }
  unfold addQCheckDelay. wp_step. eapply generateCBFID_st; [done|lia|]. wp_step.
  eapply wp_mono; [by apply add_SRAM_delay_st|]. intros [] r1 H1. wp_step.
  unfold possibly_remapped. wp_steps. rewrite (st_filter _ _ _ _ _ _ H1). cbn iota. wp_steps.
  eapply group_of_st; [done|apply Hg|]. wp_step. eapply btv_at_st; [done|done|]. wp_steps.
  assert (Hent : forall r' f h, st r0 ind M M (quarantined ind) r' ->
    (forall s, s_btv_residency (h s) = s_btv_residency s) ->
    wp (count_filter f h) r' (fun _ => st r0 ind M M (quarantined ind))).
  { intros r' f h Hr' Hh. unfold count_filter. wp_steps. rewrite (st_filter _ _ _ _ _ _ Hr').
    by apply count_stat_st. }
  change (gcount (rows_per_btv_bit r0) (indirection r0) (A / rows_per_btv_bit r0)) with (M (A / g)).
  destruct (Z.eqb_spec (M (A / g)) 0) as [H0|Hnz]; cbn [negb].
  - wp_step. eapply wp_mono; [by apply Hent|]. intros [] r2 H2. wp_step.
    eapply row_entry_st; [done|by rewrite (tw_row_len _ _ _ Hwf)|]. intros e _ He.
    apply wp_assert; [|done]. fold ind in He. destruct (slot_of ind A) as [q|] eqn:Hq.
    + pose proof (gcount_pos g _ _ _ (tw_row _ _ _ Hwf _ _ Hq)) as Hp. fold (M (A / g)) in Hp. lia.
    + by rewrite (content_None _ He).
  - wp_steps. eapply (wp_mono _ _ (fun _ => st r0 ind M M (quarantined ind))).
    + destruct (cache r1) as [c|] eqn:Hc; [|by apply table_delay_st].
      apply check_cache_st; [done|]. destruct (cache r0) eqn:E; [done|].
      apply (st_cache_None _ _ _ _ _ _ H1) in E. congruence.
    + intros [] r2 H2. wp_step. eapply row_entry_st; [done|by rewrite (tw_row_len _ _ _ Hwf)|].
      intros e _ _. destruct (valid e); by apply Hent.
Qed.
End Check.
End Tables.
