(* ===== verification/RQInit.v ===== *)
(** The initial state of row quarantine: the constructor of RQ.v followed by
    the memory controller's assignments establishes the invariant of
    RQTables.v, and its shuffle of the row numbers is a permutation. *)
From S2P Require Import Prelude Detector FuncCache Bloom Mitigation RQ RQTables.

Module Init.
Import Row_Quarantine Tables.

Implicit Types (r : t) (ids : list Z).

(** ** The shuffle *)

Lemma zlist_insert_nat {A} (l : list A) (n : nat) x : <[Z.of_nat n := x]> l = <[n := x]> l.
Proof.
  unfold insert at 1, zlist_insert. destruct (Z.ltb_spec (Z.of_nat n) 0); [lia|].
  by rewrite Nat2Z.id.
Qed.

Lemma swap_permutation {A} (l : list A) (i j : nat) x y :
  l !! i = Some x -> l !! j = Some y -> <[j := x]> (<[i := y]> l) ≡ₚ l.
Proof.
  revert i j. induction l as [|a l IH]; intros [|i] [|j] Hi Hj; try done; cbn in *.
  - by simplify_eq.
  - simplify_eq. change (<[S j := x]> (y :: l)) with (y :: <[j := x]> l).
    clear IH. revert j Hj. induction l as [|b l IH]; intros [|j] Hj; try done; cbn in *.
    + simplify_eq. apply Permutation_swap.
    + change (y :: b :: <[j := x]> l ≡ₚ x :: b :: l). rewrite (Permutation_swap b y).
      rewrite (IH j Hj). apply Permutation_swap.
  - simplify_eq. change (<[0%nat := x]> (y :: <[i := y]> l)) with (x :: <[i := y]> l).
    clear IH. revert i Hi. induction l as [|b l IH]; intros [|i] Hi; try done; cbn in *.
    + simplify_eq. apply Permutation_swap.
    + change (x :: b :: <[i := y]> l ≡ₚ y :: b :: l). rewrite (Permutation_swap b x).
      rewrite (IH i Hi). apply Permutation_swap.
  - change (a :: <[j := x]> (<[i := y]> l) ≡ₚ a :: l). by rewrite IH.
Qed.

Lemma zswap_permutation {A} (l : list A) (i j : Z) x y :
  l !! i = Some x -> l !! j = Some y -> <[j := x]> (<[i := y]> l) ≡ₚ l.
Proof.
  intros Hi Hj. pose proof (zlookup_lt _ _ _ Hi). pose proof (zlookup_lt _ _ _ Hj).
  assert (exists n, i = Z.of_nat n) as [n ->] by (exists (Z.to_nat i); lia).
  assert (exists m, j = Z.of_nat m) as [m ->] by (exists (Z.to_nat j); lia).
  rewrite !zlist_insert_nat.
  rewrite zlookup_nat in Hi, Hj. by apply swap_permutation.
Qed.

Lemma shuffle_spec rand_stream n : forall call ii N ids,
  0 <= ii -> ii + Z.of_nat n <= N -> zlen ids = N -> 0 < N ->
  rp (shuffle rand_stream n call ii N ids) (fun ids' => ids' ≡ₚ ids).
Proof.
  induction n as [|n IH]; intros call ii N ids Hi Hn Hl HN; cbn [shuffle]; [by apply rp_ret|].
  wp_step. apply rp_umod; [lia|]. wp_step.
  destruct (zlookup_is_Some ids ii) as [temp Ht]; [lia|]. eapply rp_aread; [exact Ht|]. wp_step.
  set (jj := _ mod N). assert (0 <= jj < N) by (apply Z.mod_pos_bound; lia).
  destruct (zlookup_is_Some ids jj) as [x Hx]; [lia|]. eapply rp_aread; [exact Hx|]. wp_step.
  apply rp_awrite; [lia|]. wp_step. apply rp_awrite; [rewrite zlen_insert; lia|].
  pose proof (zswap_permutation _ _ _ _ _ Ht Hx) as Hp.
  eapply rp_mono; [apply IH; [lia|lia| |done]|].
  - unfold zlen in *. by rewrite Hp.
  - intros ids' E. by rewrite E.
Qed.

(** ** The fresh tables *)

Lemma row_in_fresh rows qr q : row_in (init_tables rows qr) q = None.
Proof.
  unfold row_in. cbn. destruct (calloc qr zero_entry !! q) as [e|] eqn:E; [|done].
  by apply zlookup_calloc in E as [-> _].
Qed.
Lemma slot_of_fresh rows qr x : slot_of (init_tables rows qr) x = None.
Proof.
  unfold slot_of. cbn. destruct (calloc rows zero_entry !! x) as [e|] eqn:E; [|done].
  by apply zlookup_calloc in E as [-> _].
Qed.
Lemma gcount_fresh g rows qr i : 0 <= qr -> gcount g (init_tables rows qr) i = 0.
Proof. intros. unfold gcount. cbn. rewrite lsum_calloc by done. cbn. lia. Qed.

Lemma cached_fresh sets ways factor a d : ~ FC.cached (FC.m_cache (FC.create sets ways factor)) a d.
Proof.
  intros (s & w & b & Hb & Hv & _). unfold FC.slot in Hb. cbn in Hb.
  destruct (calloc sets _ !! s) as [ws|] eqn:E; [|done].
  apply zlookup_calloc in E as [-> _]. cbn in Hb. apply zlookup_calloc in Hb as [-> _]. done.
Qed.

#[local] Arguments gcount : simpl never.

(** What the controller assigns to the members the constructor leaves unset. *)
Definition configured (g sets ways : Z) r : t :=
  r <| filter := None |> <| cache := Some (FC.create sets ways g) |> <| rows_per_btv_bit := g |>.

Lemma inv_fresh r (R N g sets ways : Z) :
  indirection r = init_tables R N -> numQREntries r = N -> numRows (base r) = R ->
  numBanks (base r) = 1 -> bitvector r = calloc R 0 -> ORR_CBF r = calloc R 0 ->
  0 < N < 2 ^ 32 - 1 -> 0 < R < 2 ^ 32 -> 0 < g < 2 ^ 32 -> R mod g = 0 ->
  0 < sets < 2 ^ 32 -> 0 < ways < 2 ^ 32 ->
  inv (configured g sets ways r).
Proof.
  intros Hi Hn HR Hb Hbv Ho HN HRr Hg Hex Hs Hw.
  split; unfold configured, over; cbn; rewrite ?Hi, ?Hn, ?HR; try done.
  - split; unfold over; cbn; rewrite ?Hi, ?Hn, ?HR, ?Hbv, ?Ho; try done.
    + exists (decision (base r)). destruct r as [[]]; cbn in *; by subst.
    + apply zlen_calloc. lia.
    + intros i Hir. rewrite gcount_fresh by lia. by apply zlookup_calloc_eq.
    + apply zlen_calloc. lia.
    + intros _ i Hir. rewrite gcount_fresh by lia. by apply zlookup_calloc_eq.
    + split; [done|]. split; [by apply FC.wf_create|]. split; [done|].
      intros a d H. by apply cached_fresh in H.
  - split; cbn; try lia; [apply zlen_calloc; lia|apply zlen_calloc; lia| |].
    + intros q a. by rewrite row_in_fresh.
    + intros a q. by rewrite slot_of_fresh.
Qed.

(** ** Properties *)

(** C24. Construction.  For a DRAM of at least one row, the constructor
    returns; the shuffled row numbers are a permutation of all rows; and with
    the controller's cache of table entries the invariant holds. *)
Theorem create_inv rand_stream (raw : t) N rows thr nb nr nc g sets ways :
  let R := u32 (rows * nb * nr * nc) in
  0 < R -> 0 < N < 2 ^ 32 - 1 -> 0 < g < 2 ^ 32 -> R mod g = 0 ->
  0 < sets < 2 ^ 32 -> 0 < ways < 2 ^ 32 ->
  exists r, create rand_stream raw N rows thr nb nr nc = Ok r /\
    randRowID r ≡ₚ seqZ 0 R /\ inv (configured g sets ways r).
Proof.
  intros R HR HN Hg Hex Hs Hw. pose proof (u32_range (rows * nb * nr * nc)) as Hr32. fold R in Hr32.
  unfold create. match goal with |- context [numDRAMRows ?b] => set (b0 := b) end.
  cbv zeta. fold b0. assert (Hb : numRows b0 = R /\ numBanks b0 = 1 /\ numDRAMRows b0 = R).
  { split; [done|]. split; [done|]. unfold numDRAMRows.
    change (u32 (R * 1 * 1 * 1) = R). rewrite !Z.mul_1_r. apply u32_small. lia. }
  clearbody b0. destruct Hb as (Hb1 & Hb2 & ->).
  assert (Hlen : zlen (seqZ 0 R) = R) by (unfold zlen; rewrite length_seqZ; lia).
  pose proof (shuffle_spec rand_stream (Z.to_nat R) 0 0 R (seqZ 0 R) ltac:(lia) ltac:(lia) Hlen HR) as Hsh.
  destruct (shuffle rand_stream (Z.to_nat R) 0 0 R (seqZ 0 R)) as [ids|]; [|done].
  eexists. split; [reflexivity|]. split; [exact Hsh|].
  apply (inv_fresh _ R N); [|reflexivity|exact Hb1|exact Hb2|reflexivity|reflexivity|assumption|lia
                           |assumption..].
  rewrite <- Hb1. reflexivity.
Qed.

(** *** A small instance: 64 rows, a region of 4 slots, groups of 16 rows. *)

Definition base0 : RH_Mitigation :=
  mkMitigation 0 0 0 0 0 0 resetDecision [] 70 45 0 true 0 0 0 0 0 0 [] 0.
Definition raw0 : t :=
  mkRQ base0 [] (init_tables 0 0) 0 0 [] [] None None
    (Misra_Gries.reset
       (Misra_Gries.create (fun _ => Misra_Gries.mkTracker [] 0 ∅ [] 0 0 0 0 0) 2 4 16 16 1 1)) 0 8
    (mkStats 0 0 0 0 0 0 0 0 0 0 0 0 0 0 0 0 [] 0).
Definition rq0 : t :=
  configured 16 8 2
    match create (fun n => 7 * Z.of_nat n + 3) raw0 4 16 4 4 1 1 with Ok r => r | Fault _ => raw0 end.

Lemma create_inv_witness :
  exists r, create (fun n => 7 * Z.of_nat n + 3) raw0 4 16 4 4 1 1 = Ok r /\
    randRowID r ≡ₚ seqZ 0 64 /\ inv (configured 16 8 2 r).
Proof.
  apply (create_inv (fun n => 7 * Z.of_nat n + 3) raw0 4 16 4 4 1 1 16 8 2); try lia.
  - vm_compute. reflexivity.
  - vm_compute. reflexivity.
Defined.

Lemma inv_rq0 : inv rq0.
Proof.
  apply (inv_fresh _ 64 4); try reflexivity; try lia.
Qed.
End Init.
