(* ===== verification/RQEpoch.v ===== *)
(** The promises of row quarantine over a refresh window: no quarantined row
    leaves the region before the window ends, the look-up filters never miss
    one, and the randomised row order is a permutation. *)
From S2P Require Import Prelude Detector FuncCache Bloom Mitigation RQ RQTables RQInit.

Module Epoch.
Import Row_Quarantine Tables.

Implicit Types (ind : IndirectionTables) (r : t) (a A q i c : Z).

(** ** The pointers of a window *)

Lemma mod_near N x y : 0 < N -> - N < x - y < N -> x mod N = y mod N -> x = y.
Proof.
  intros HN Hd E. pose proof (Z.div_mod x N ltac:(lia)). pose proof (Z.div_mod y N ltac:(lia)).
  assert (x - y = N * (x / N - y / N)) by lia. assert (x / N - y / N = 0) by nia. lia.
Qed.
Lemma mod_succ N x : 0 < N -> (x mod N + 1) mod N = (x + 1) mod N.
Proof. intros. rewrite Z.add_mod_idemp_l by lia. done. Qed.

(** In the current window, which opened with the head at [p], [c] rows were
    moved in and the tail trails the window's first slot by [k] slots.  The
    rows of [S] are in slots filled in this window. *)
Record epoch (N p c k : Z) (S : Z -> Prop) ind : Prop := {
  ep_prev : prevQRHead_ID ind = p;
  ep_head : nextFreeQR_ID ind = (p + c) mod N;
  ep_tail : QRTail_ID ind = (p - k) mod N;
  ep_c : 0 <= c;
  ep_k : 0 <= k < N;
  ep_room : k + c <= N;
  ep_rows : forall a, S a -> exists i, 0 <= i < c /\ row_in ind ((p + i) mod N) = Some a }.

Section Steps.
Context (N R p c k : Z) (S : Z -> Prop) (ind ind' : IndirectionTables).
Context (Hwf : tables_wf N R ind) (He : epoch N p c k S ind).

Lemma epoch_prev : p mod N = p.
Proof.
  rewrite <- (ep_prev _ _ _ _ _ _ He). apply Z.mod_small. apply Hwf.
Qed.

Lemma epoch_move A : c + 1 <= N -> tables_step N ind ind' A ->
  exists k', epoch N p (c + 1) k'
    (fun x => S x \/ (x = A /\ slot_of ind A <> Some (nextFreeQR_ID ind))) ind'.
Proof.
  intros Hc (Hrows & Hh & Hp & Ht). pose proof epoch_prev as Hpm. destruct He as [Ep Eh Et Ec Ek Er ES].
  assert (HN : 0 < N) by lia. rewrite Eh, mod_succ in Hh by done.
  assert (Hne : forall i, 0 <= i < c -> (p + i) mod N <> (p + c) mod N).
  { intros i Hi E. apply mod_near in E; lia. }
  assert (HS : forall x, S x \/ (x = A /\ slot_of ind A <> Some (nextFreeQR_ID ind)) ->
            exists i, 0 <= i < c + 1 /\ row_in ind' ((p + i) mod N) = Some x).
  { intros x Hx. destruct (decide (x = A)) as [->|HxA].
    - assert (HnA : slot_of ind A <> Some (nextFreeQR_ID ind)).
      { destruct Hx as [Hx|[_ ?]]; [|done]. destruct (ES A Hx) as (i & Hi & Hrow).
        rewrite (tw_qr _ _ _ Hwf _ _ Hrow), Eh. intros [= E]. by apply (Hne i). }
      exists c. split; [lia|]. rewrite Hrows. unfold after_move.
      rewrite bool_decide_false by done. by rewrite Eh, Z.eqb_refl.
    - destruct Hx as [Hx|[? _]]; [|done]. destruct (ES x Hx) as (i & Hi & Hrow).
      exists i. split; [lia|]. rewrite Hrows. unfold after_move. rewrite Eh.
      destruct (Z.eqb_spec ((p + i) mod N) ((p + c) mod N)) as [E|_]; [by destruct (Hne i)|].
      case_bool_decide; [done|]. case_bool_decide as Hs; [|done].
      apply (tw_row _ _ _ Hwf) in Hs. congruence. }
  rewrite Eh, Et, Ep in Ht.
  destruct (decide (k + c = N)) as [Hfull|Hnf].
  - exists (k - 1).
    assert (Et' : QRTail_ID ind' = (p - (k - 1)) mod N).
    { rewrite Ht. replace ((p - k) mod N) with ((p + c) mod N).
      - rewrite Z.eqb_refl. destruct (Z.eqb_spec ((p + c) mod N) p) as [E|_]; cbn [andb negb].
        + rewrite <- Hpm in E at 2. apply mod_near in E; lia.
        + rewrite mod_succ by done. replace (p + c + 1) with (p - (k - 1) + 1 * N) by lia.
          by rewrite Z.mod_add by lia.
      - replace (p + c) with (p - k + 1 * N) by lia. by rewrite Z.mod_add by lia. }
    split; [congruence|rewrite Hh; f_equal; lia|done|lia|lia|lia|exact HS].
  - exists k.
    assert (Et' : QRTail_ID ind' = (p - k) mod N).
    { rewrite Ht. destruct (Z.eqb_spec ((p + c) mod N) ((p - k) mod N)) as [E|_]; [|done].
      apply mod_near in E; [|lia|lia]. assert (c = 0) as -> by lia. rewrite Z.add_0_r, Hpm, Z.eqb_refl.
      done. }
    split; [congruence|rewrite Hh; f_equal; lia|done|lia|lia|lia|exact HS].
Qed.

Lemma epoch_drain : drain_step N ind ind' -> exists k', epoch N p c k' S ind'.
Proof.
  intros (Hh & Hp & Hd). pose proof epoch_prev as Hpm. destruct He as [Ep Eh Et Ec Ek Er ES].
  assert (HN : 0 < N) by lia. destruct (drained ind) eqn:Hdr.
  - destruct Hd as [Ht Hrows]. apply andb_true_iff in Hdr as [Hne%negb_true_iff%Z.eqb_neq _].
    rewrite Ep, Et in Hne. assert (Hk : k <> 0) by (intros ->; rewrite Z.sub_0_r in Hne; done).
    exists (k - 1). split; [congruence|congruence| |lia|lia|lia|].
    + rewrite Ht, Et, mod_succ by done. f_equal. lia.
    + intros a Ha. destruct (ES a Ha) as (i & Hi & Hrow). exists i. split; [done|].
      rewrite Hrows, Et. destruct (Z.eqb_spec ((p + i) mod N) ((p - k) mod N)) as [E|_]; [|done].
      exfalso. replace (p - k) with (p + (N - k) + (-1) * N) in E by lia.
      rewrite Z.mod_add in E by lia. apply mod_near in E; lia.
  - destruct Hd as [Ht Hrows]. exists k. split; [congruence|congruence|congruence|lia|lia|lia|].
    intros a Ha. destruct (ES a Ha) as (i & Hi & Hrow). exists i. by rewrite Hrows.
Qed.
End Steps.

(** ** The operations of a window *)

Inductive op := Quarantine (a : Z) | Drain | Look (a : Z).

Definition step (o : op) : comp t unit :=
  match o with
  | Quarantine a => quarantineRow a
  | Drain => drainRow
  | Look a => addQCheckDelay a
  end.
Fixpoint exec (ops : list op) : comp t unit :=
  match ops with [] => mret tt | o :: ops' => step o;; exec ops' end.

Definition op_in_range (R : Z) (o : op) : Prop :=
  match o with Quarantine a | Look a => 0 <= a < R | Drain => True end.
Definition moves (ops : list op) : Z :=
  lsum (fun o => match o with Quarantine _ => 1 | _ => 0 end) ops.

Lemma moves_nonneg ops : 0 <= moves ops.
Proof. unfold moves. induction ops as [|[] ops IH]; cbn [lsum] in *; lia. Qed.

(** Row [a] was moved in by one of [ops], not from the slot at the head. *)
Definition moved_in (ops : list op) r a : Prop :=
  exists ops1 ops2 r1, ops = ops1 ++ Quarantine a :: ops2 /\ exec ops1 r = Ok (tt, r1) /\
    slot_of (indirection r1) a <> Some (nextFreeQR_ID (indirection r1)).

Record live (N R g p c : Z) (S : Z -> Prop) r : Prop := {
  lv_inv : inv r;
  lv_n : numQREntries r = N;
  lv_rows : numRows (base r) = R;
  lv_g : rows_per_btv_bit r = g;
  lv_epoch : exists k, epoch N p c k S (indirection r) }.

Lemma live_framed N R g p c S r r' :
  live N R g p c S r -> inv r' -> framed r r' ->
  forall c' (S' : Z -> Prop) k, epoch N p c' k S' (indirection r') -> live N R g p c' S' r'.
Proof.
  intros [] Hinv F c' S' k He. pose proof (framed_rows _ _ F). destruct F.
  split; [done|congruence|congruence|congruence|by exists k].
Qed.

Lemma step_live N R g p c S r o :
  live N R g p c S r -> 32 mod g = 0 -> op_in_range R o -> c + moves [o] <= N ->
  wp (step o) r (fun _ r' => live N R g p (c + moves [o])
    (fun x => S x \/ (o = Quarantine x /\ slot_of (indirection r) x <> Some (nextFreeQR_ID (indirection r)))) r').
Proof.
  intros Hl Hg Ho Hc. destruct (lv_epoch _ _ _ _ _ _ _ Hl) as [k He].
  pose proof (inv_tables _ (lv_inv _ _ _ _ _ _ _ Hl)) as Hwf.
  rewrite (lv_n _ _ _ _ _ _ _ Hl), (lv_rows _ _ _ _ _ _ _ Hl) in Hwf.
  destruct o as [a| |a]; cbn [step]; unfold moves in *; cbn [lsum] in *.
  - eapply wp_mono; [apply quarantineRow_st; [apply Hl|by rewrite (lv_rows _ _ _ _ _ _ _ Hl)]|].
    intros [] r' (Hinv & F & Hst). rewrite (lv_n _ _ _ _ _ _ _ Hl) in Hst.
    edestruct epoch_move as [k' He']; [exact Hwf|exact He|lia|exact Hst|].
    eapply live_framed; [exact Hl|done|done|]. destruct He' as [? ? ? ? ? ? ES].
    change (1 + 0) with 1. split; try done; try lia.
    intros x [Hx|[[= ->] Hx]]; apply ES; auto.
  - eapply wp_mono; [apply drainRow_st, Hl|]. intros [] r' (Hinv & F & Hst).
    rewrite (lv_n _ _ _ _ _ _ _ Hl) in Hst.
    edestruct epoch_drain as [k' He']; [exact Hwf|exact He|exact Hst|].
    eapply live_framed; [exact Hl|done|done|]. rewrite Z.add_0_r. destruct He'. split; try done.
    intros x [Hx|[? _]]; [by apply ep_rows0|done].
  - eapply wp_mono; [apply addQCheckDelay_st; [apply Hl| |by rewrite (lv_g _ _ _ _ _ _ _ Hl)]|].
    { by rewrite (lv_rows _ _ _ _ _ _ _ Hl). }
    intros [] r' (Hinv & F & Hi).
    eapply live_framed; [exact Hl|done|done|]. rewrite Hi, !Z.add_0_r. destruct He. split; try done.
    intros x [Hx|[? _]]; [by apply ep_rows0|done].
Qed.

(** Where the rows are after a move. *)
Lemma move_slots_after r r' A : inv r -> inv r' -> (forall q, row_in (indirection r') q = after_move (indirection r) A q) ->
  forall x, slot_of (indirection r') x = after_move_slot (indirection r) A x.
Proof.
  intros Hinv Hinv' Hrows x. pose proof (inv_tables _ Hinv) as Hwf. pose proof (inv_tables _ Hinv') as Hwf'.
  apply option_eq. intros q. rewrite <- (after_move_inverse _ _ _ A Hwf), <- Hrows. split.
  - apply (tw_row _ _ _ Hwf').
  - apply (tw_qr _ _ _ Hwf').
Qed.

Lemma exec_live N R g p ops : forall c S r,
  live N R g p c S r -> 32 mod g = 0 -> Forall (op_in_range R) ops -> c + moves ops <= N ->
  wp (exec ops) r (fun _ r' => live N R g p (c + moves ops) (fun x => S x \/ moved_in ops r x) r').
Proof.
  induction ops as [|o ops IH]; intros c S r Hl Hg Ho Hc; cbn [exec].
  { apply wp_ret. destruct Hl as [? ? ? ? [k He]]. split; try done. exists k.
    unfold moves. cbn. rewrite Z.add_0_r. destruct He. split; try done.
    intros x [Hx|(ops1 & ops2 & r1 & E & _)]; [by apply ep_rows0|by destruct ops1]. }
  pose proof (moves_nonneg ops).
  assert (Hm : moves (o :: ops) = moves [o] + moves ops) by (unfold moves; cbn; lia).
  pose proof (Forall_inv Ho). apply Forall_inv_tail in Ho. apply wp_bind.
  pose proof (step_live _ _ _ _ _ _ _ o Hl Hg ltac:(done) ltac:(lia)) as Hs.
  apply wp_inv in Hs as ([] & r1 & Hok & Hl1). unfold wp at 1. rewrite Hok.
  eapply wp_mono; [apply (IH _ _ _ Hl1); [done|done|lia]|]. cbn beta.
  intros [] r' [? ? ? ? [k He]]. split; try done. exists k.
  rewrite Hm, Z.add_assoc. destruct He. split; try done.
  intros x [Hx|Hx]; apply ep_rows0; [auto|].
  destruct Hx as (ops1 & ops2 & r2 & E & Hex & Hne). destruct ops1 as [|o1 ops1].
  - cbn in E, Hex. injection E as -> ->. injection Hex as <-. auto.
  - injection E as <- ->. right. exists ops1, ops2, r2. split; [done|].
    split; [|done]. cbn [exec] in Hex. unfold mbind, comp_bind in Hex. by rewrite Hok in Hex.
Qed.

(** ** Properties *)

(** C1. A quarantined row stays quarantined to the end of its window.  From
    the state that a window opens with, any interleaving of moves, drains and
    look-ups that moves in at most [numQREntries] rows runs without a fault,
    keeps the invariant, and leaves in the region every row it moved in (but
    for a row that is moved while it already occupies the head slot). *)
Theorem quarantine_lasts_window r (ops : list op) :
  inv r -> 32 mod rows_per_btv_bit r = 0 ->
  prevQRHead_ID (indirection r) = nextFreeQR_ID (indirection r) ->
  Forall (op_in_range (numRows (base r))) ops -> moves ops <= numQREntries r ->
  exists r', exec ops r = Ok (tt, r') /\ inv r' /\
    forall a, moved_in ops r a -> quarantined (indirection r') a.
Proof.
  intros Hinv Hg Hopen Hops Hm. pose proof (inv_tables _ Hinv) as Hwf.
  set (N := numQREntries r) in *. set (ind := indirection r) in *.
  assert (HN : 0 < N) by apply Hinv. pose proof (tw_head _ _ _ Hwf) as Hh.
  pose proof (tw_tail _ _ _ Hwf) as Ht.
  assert (Hl : live N (numRows (base r)) (rows_per_btv_bit r) (nextFreeQR_ID ind) 0 (fun _ => False) r).
  { split; try done. exists ((nextFreeQR_ID ind - QRTail_ID ind) mod N).
    pose proof (Z.mod_pos_bound (nextFreeQR_ID ind - QRTail_ID ind) N HN).
    split; try done; fold ind; try lia.
    - rewrite Z.add_0_r, Z.mod_small by done. done.
    - rewrite Zminus_mod_idemp_r, Z.mod_small; lia. }
  pose proof (exec_live _ _ _ _ ops _ _ _ Hl Hg Hops ltac:(lia)) as He.
  apply wp_inv in He as ([] & r' & Hok & [Hinv' Hn Hr _ [k E]]). exists r'.
  split; [done|]. split; [done|]. intros a Ha. destruct (ep_rows _ _ _ _ _ _ E a) as (i & _ & Hrow); [by right|].
  exists ((nextFreeQR_ID ind + i) mod N). eapply tw_qr; [|exact Hrow]. apply (inv_tables _ Hinv').
Qed.

(** C21. A move.  [quarantineRow] fails no assertion on a row of the DRAM and
    keeps the invariant; the head advances by one slot around the region, and the
    tail with it exactly if the head had caught up with it since the last epoch.
    A row that is not in the head slot ends in it; the occupant of that slot
    and no other row leaves the region.  A row that is in the head slot
    leaves the region, and no other row moves. *)
Theorem quarantineRow_moves r A :
  inv r -> 0 <= A < numRows (base r) ->
  exists r', quarantineRow A r = Ok (tt, r') /\ inv r' /\
    (let i := indirection r in let i' := indirection r' in
     let h := nextFreeQR_ID i in
     nextFreeQR_ID i' = (h + 1) mod numQREntries r /\ prevQRHead_ID i' = prevQRHead_ID i /\
     (h = QRTail_ID i /\ h <> prevQRHead_ID i -> QRTail_ID i' = (h + 1) mod numQREntries r) /\
     (h <> QRTail_ID i \/ h = prevQRHead_ID i -> QRTail_ID i' = QRTail_ID i) /\
     (slot_of i A <> Some h ->
        slot_of i' A = Some h /\
        (forall x, x <> A -> row_in i h <> Some x -> slot_of i' x = slot_of i x) /\
        (forall x, x <> A -> row_in i h = Some x -> slot_of i' x = None)) /\
     (slot_of i A = Some h ->
        slot_of i' A = None /\ forall x, x <> A -> slot_of i' x = slot_of i x)).
Proof.
  intros Hinv HA. pose proof (quarantineRow_st r A Hinv HA) as Hq.
  apply wp_inv in Hq as ([] & r' & Hok & Hinv' & F & Hrows & Hh & Hp & Ht).
  exists r'. split; [done|]. split; [done|]. cbn zeta. split; [done|]. split; [done|].
  pose proof (move_slots_after r r' A Hinv Hinv' Hrows) as Heq. unfold after_move_slot in Heq. split_and!.
  - intros [E En]. by rewrite Ht, <- E, Z.eqb_refl, (proj2 (Z.eqb_neq _ _) En).
  - intros Hne. rewrite Ht. by destruct (Z.eqb_spec (nextFreeQR_ID (indirection r)) (QRTail_ID (indirection r))) as [E|E],
      (Z.eqb_spec (nextFreeQR_ID (indirection r)) (prevQRHead_ID (indirection r))), Hne.
  - intros Hne. rewrite bool_decide_false in Heq by done. split_and!.
    + by rewrite Heq, Z.eqb_refl.
    + intros x Hx Hn. rewrite Heq. destruct (Z.eqb_spec x A); [done|]. by rewrite bool_decide_false.
    + intros x Hx Hn. rewrite Heq. destruct (Z.eqb_spec x A); [done|]. by rewrite bool_decide_true.
  - intros E. rewrite bool_decide_true in Heq by done. split; [by rewrite Heq, Z.eqb_refl|].
    intros x Hx. rewrite Heq. by destruct (Z.eqb_spec x A).
Qed.

(** C25. The case a move gets wrong.  A row that is quarantined again while it
    occupies the head slot is first evicted from that slot and then unmapped:
    after the move it is in no slot, though it has just been flagged. *)
Theorem move_in_place_unquarantines r A :
  inv r -> 0 <= A < numRows (base r) ->
  slot_of (indirection r) A = Some (nextFreeQR_ID (indirection r)) ->
  exists r', quarantineRow A r = Ok (tt, r') /\ ~ quarantined (indirection r') A.
Proof.
  intros Hinv HA Hs. pose proof (quarantineRow_st r A Hinv HA) as Hq.
  apply wp_inv in Hq as ([] & r' & Hok & Hinv' & F & Hrows & _).
  exists r'. split; [done|]. intros [q Hq]. apply (tw_row _ _ _ (inv_tables _ Hinv')) in Hq.
  rewrite Hrows in Hq. apply (after_move_inverse _ _ _ A (inv_tables _ Hinv)) in Hq.
  unfold after_move_slot in Hq. by rewrite bool_decide_true, Z.eqb_refl in Hq.
Qed.

(** C22. Look-ups.  Checking a row fails no assertion (the bit vector gives no
    false negative), moves nothing and keeps the invariant. *)
Theorem addQCheckDelay_no_false_negative r A :
  inv r -> 32 mod rows_per_btv_bit r = 0 -> 0 <= A < numRows (base r) ->
  exists r', addQCheckDelay A r = Ok (tt, r') /\ inv r' /\ indirection r' = indirection r /\
    (quarantined (indirection r) A ->
     possibly_remapped A r = Ok (true, r)).
Proof.
  intros Hinv Hg HA. pose proof (addQCheckDelay_st r A Hinv HA Hg) as Hw.
  apply wp_inv in Hw as ([] & r' & Hok & Hinv' & F & Hi).
  exists r'. split_and!; try done. intros [q Hq]. pose proof (inv_st _ Hinv) as H.
  pose proof (inv_group _ Hinv). pose proof (inv_tables _ Hinv) as Hwf.
  pose proof (gcount_pos (rows_per_btv_bit r) _ _ _ (tw_row _ _ _ Hwf _ _ Hq)) as Hpos.
  assert (Hgr : 0 <= A / rows_per_btv_bit r < numRows (base r)).
  { pose proof (Z.div_pos A (rows_per_btv_bit r)). pose proof (Z.div_le_upper_bound A (rows_per_btv_bit r) A). nia. }
  enough (Hw : wp (possibly_remapped A) r (fun b r1 => b = true /\ r1 = r)).
  { apply wp_inv in Hw as (b & r1 & E & -> & ->). done. }
  unfold possibly_remapped. wp_steps. rewrite (st_filter _ _ _ _ _ _ H). cbn iota. wp_steps.
  eapply group_of_st; [exact H|lia|]. wp_step. eapply btv_at_st; [exact H|done|]. wp_steps.
  split; [|done]. destruct (Z.eqb_spec (gcount (rows_per_btv_bit r) (indirection r) (A / rows_per_btv_bit r)) 0); [lia|done].
Qed.

(** C23. The cache and the ORR bit.  When the row's tag misses in the cache, a
    row of its group is cached and the group's ORR counter is 1, the row is
    not quarantined; when the tag hits, it is. *)
Theorem orr_filter_sound r (c : FC.t) A w (c1 : FC.t) w2 (c2 : FC.t) :
  inv r -> cache r = Some c -> 0 <= A < numRows (base r) ->
  FC.Lookup A FC.LOOKUP_AND_UPDATE c = Ok (w, c1) ->
  FC.PartialLookup A c1 = Ok (w2, c2) ->
  (w < FC.m_ways c -> quarantined (indirection r) A) /\
  (FC.m_ways c <= w -> w2 < FC.m_ways c ->
   ORR_CBF r !! (A / rows_per_btv_bit r) = Some 1 -> ~ quarantined (indirection r) A).
Proof.
  intros Hinv Hc HA HL HP. pose proof (inv_st _ Hinv) as H. pose proof (inv_tables _ Hinv) as Hwft.
  set (g := rows_per_btv_bit r) in *. pose proof (inv_group _ Hinv) as Hg. fold g in Hg.
  destruct (st_cache_Some _ _ _ _ _ _ H (ex_intro _ c Hc)) as (c' & Hc' & Hwf & [Hf _] & HC).
  fold g in Hf. rewrite Hc in Hc'. injection Hc' as <-.
  pose proof (FC.Lookup_spec c A FC.LOOKUP_AND_UPDATE Hwf) as HL'. unfold wp in HL'. rewrite HL in HL'.
  destruct HL' as (Hwf1 & Hd1 & Hs1 & Hfa). pose proof Hd1 as (_ & _ & Hw1 & Hf1). split.
  - intros Hlt. apply (FC.found_at_cached c A w Hwf Hfa) in Hlt as [d Hd]. by eapply HC.
  - intros Hge Hlt Horr [q Hq].
    pose proof (FC.PartialLookup_spec c1 A Hwf1 ltac:(lia)) as HP'. unfold wp in HP'. rewrite HP in HP'.
    destruct HP' as (_ & _ & _ & Hfa2). destruct Hfa2 as [[_ (b & Hb & Hm)]|[? _]]; [|lia].
    destruct (FC.line_match_cached _ _ _ _ _ Hb Hm) as [Hline Hcb].
    eapply FC.cached_same_content in Hcb; [|exact Hs1]. destruct (HC _ _ Hcb) as [q' Hq'].
    assert (Hgr : 0 <= A / g < numRows (base r)).
    { pose proof (Z.div_pos A g). pose proof (Z.div_le_upper_bound A g A). nia. }
    pose proof (st_orr _ _ _ _ _ _ H (ex_intro _ c Hc) _ Hgr) as Ho. rewrite Horr in Ho.
    apply (tw_row _ _ _ Hwft) in Hq, Hq'. rewrite Hf1, Hf in Hline.
    destruct (decide (q = q')) as [->|Hne].
    + assert (A = FC.tag b) as HAb by congruence.
      assert (w < FC.m_ways c); [|lia]. apply (FC.found_at_cached c A w Hwf Hfa). rewrite HAb. eauto.
    + pose proof (gcount_two g _ _ _ _ _ Hq Hq' ltac:(done) Hne). fold g in Ho. simplify_eq. lia.
Qed.

(** A hole stops draining.  When the tail slot holds no row, [drainRow]
    succeeds and leaves the tables and the tail as they are, so that no later
    drain reaches the rows behind it. *)
Theorem drain_stops_at_hole r :
  inv r -> row_in (indirection r) (QRTail_ID (indirection r)) = None ->
  exists r', drainRow r = Ok (tt, r') /\ inv r' /\
    QRTail_ID (indirection r') = QRTail_ID (indirection r) /\
    forall q, row_in (indirection r') q = row_in (indirection r) q.
Proof.
  intros Hinv Hn. pose proof (drainRow_st r Hinv) as Hw.
  apply wp_inv in Hw as ([] & r' & Hok & Hinv' & _ & _ & _ & Hd).
  exists r'. unfold drained in Hd. rewrite Hn, bool_decide_false, andb_false_r in Hd by (by intros []).
  destruct Hd. by split_and!.
Qed.

(** *** Witnesses, on the instance of RQInit.v *)

(** The invariant along any run, whatever the window. *)
Lemma exec_inv ops : forall r, inv r -> 32 mod rows_per_btv_bit r = 0 ->
  Forall (op_in_range (numRows (base r))) ops ->
  wp (exec ops) r (fun _ r' => inv r').
Proof.
  induction ops as [|o ops IH]; intros r Hinv Hg Ho; cbn [exec]; [by apply wp_ret|].
  pose proof (Forall_inv Ho) as Ho1. apply Forall_inv_tail in Ho. apply wp_bind.
  eapply (wp_mono _ _ (fun _ r' => inv r' /\ framed r r')).
  - destruct o as [a| |a]; cbn [step].
    + eapply wp_mono; [by apply quarantineRow_st|]. cbn beta. tauto.
    + eapply wp_mono; [by apply drainRow_st|]. cbn beta. tauto.
    + eapply wp_mono; [by apply addQCheckDelay_st|]. cbn beta. tauto.
  - intros _ r' [Hinv' F]. pose proof (framed_rows _ _ F) as HR. pose proof (fr_g _ _ F) as HG.
    apply IH; [done|by rewrite HG|by rewrite HR].
Qed.

Definition after (ops : list op) : t :=
  match exec ops Init.rq0 with Ok (_, r) => r | Fault _ => Init.rq0 end.
Lemma inv_after ops : Forall (op_in_range 64) ops -> inv (after ops).
Proof.
  intros Ho. pose proof (exec_inv ops Init.rq0 Init.inv_rq0 eq_refl Ho) as Hw.
  apply wp_inv in Hw as ([] & r' & E & Hinv). unfold after. by rewrite E.
Qed.

Definition ops0 : list op := [Look 5; Quarantine 5; Quarantine 9; Look 9; Drain; Quarantine 5].

Lemma quarantine_lasts_window_witness :
  exists r', exec ops0 Init.rq0 = Ok (tt, r') /\ inv r' /\
    forall a, moved_in ops0 Init.rq0 a -> quarantined (indirection r') a.
Proof.
  apply (quarantine_lasts_window Init.rq0 ops0).
  - exact Init.inv_rq0.
  - reflexivity.
  - reflexivity.
  - repeat constructor; vm_compute; congruence.
  - vm_compute. congruence.
Defined.

Definition full0 : list op := [Quarantine 1; Quarantine 2; Quarantine 3; Quarantine 4].
Ltac rows_in_range := repeat constructor; vm_compute; congruence.

Lemma quarantineRow_moves_witness :
  exists r', quarantineRow 7 (after full0) = Ok (tt, r') /\ inv r' /\
    (let i := indirection (after full0) in let i' := indirection r' in
     let h := nextFreeQR_ID i in
     nextFreeQR_ID i' = (h + 1) mod numQREntries (after full0) /\ prevQRHead_ID i' = prevQRHead_ID i /\
     (h = QRTail_ID i /\ h <> prevQRHead_ID i -> QRTail_ID i' = (h + 1) mod numQREntries (after full0)) /\
     (h <> QRTail_ID i \/ h = prevQRHead_ID i -> QRTail_ID i' = QRTail_ID i) /\
     (slot_of i 7 <> Some h ->
        slot_of i' 7 = Some h /\
        (forall x, x <> 7 -> row_in i h <> Some x -> slot_of i' x = slot_of i x) /\
        (forall x, x <> 7 -> row_in i h = Some x -> slot_of i' x = None)) /\
     (slot_of i 7 = Some h ->
        slot_of i' 7 = None /\ forall x, x <> 7 -> slot_of i' x = slot_of i x)).
Proof.
  apply (quarantineRow_moves (after full0) 7).
  - apply inv_after. rows_in_range.
  - vm_compute. split; congruence.
Defined.

Lemma move_in_place_unquarantines_witness :
  exists r', quarantineRow 1 (after full0) = Ok (tt, r') /\ ~ quarantined (indirection r') 1.
Proof.
  apply (move_in_place_unquarantines (after full0) 1).
  - apply inv_after. rows_in_range.
  - vm_compute. split; congruence.
  - vm_compute. reflexivity.
Defined.

Lemma addQCheckDelay_no_false_negative_witness :
  exists r', addQCheckDelay 3 (after full0) = Ok (tt, r') /\ inv r' /\
    indirection r' = indirection (after full0) /\
    (quarantined (indirection (after full0)) 3 ->
     possibly_remapped 3 (after full0) = Ok (true, after full0)).
Proof.
  apply (addQCheckDelay_no_false_negative (after full0) 3).
  - apply inv_after. rows_in_range.
  - vm_compute. reflexivity.
  - vm_compute. split; congruence.
Defined.

(** Row 1 is cached and alone in its group; row 5 shares its line. *)
Definition cache1 : FC.t :=
  match cache (after [Quarantine 1]) with Some c => c | None => FC.create 8 2 16 end.
Definition looked (a : Z) (c : FC.t) : FC.t :=
  match FC.Lookup a FC.LOOKUP_AND_UPDATE c with Ok (_, c') => c' | Fault _ => c end.
Definition peeked (a : Z) (c : FC.t) : FC.t :=
  match FC.PartialLookup a c with Ok (_, c') => c' | Fault _ => c end.

Lemma orr_filter_sound_witness :
  (2 < FC.m_ways cache1 -> quarantined (indirection (after [Quarantine 1])) 5) /\
  (FC.m_ways cache1 <= 2 -> 0 < FC.m_ways cache1 ->
   ORR_CBF (after [Quarantine 1]) !! (5 / rows_per_btv_bit (after [Quarantine 1])) = Some 1 ->
   ~ quarantined (indirection (after [Quarantine 1])) 5).
Proof.
  apply (orr_filter_sound (after [Quarantine 1]) cache1 5 2 (looked 5 cache1) 0
           (peeked 5 (looked 5 cache1))).
  - apply inv_after. rows_in_range.
  - vm_compute. reflexivity.
  - vm_compute. split; congruence.
  - vm_compute. reflexivity.
  - vm_compute. reflexivity.
Defined.

Lemma drain_stops_at_hole_witness :
  exists r', drainRow Init.rq0 = Ok (tt, r') /\ inv r' /\
    QRTail_ID (indirection r') = QRTail_ID (indirection Init.rq0) /\
    forall q, row_in (indirection r') q = row_in (indirection Init.rq0) q.
Proof.
  apply (drain_stops_at_hole Init.rq0).
  - exact Init.inv_rq0.
  - vm_compute. reflexivity.
Defined.
End Epoch.
