(* ===== verification/RQAccess.v ===== *)
(** A whole [Row_Quarantine::access] of RQ.v: the window roll-over, the
    look-up, the detector and the mitigation, over the invariants of
    RQTables.v and Detector.v. *)
From S2P Require Import Prelude Detector FuncCache Bloom Mitigation RQ RQTables RQInit.

Module Access.
Import Row_Quarantine Tables.

Implicit Types (r : t) (ind : IndirectionTables).

(** ** The members the invariant reads *)

Record calm r r' : Prop := {
  ca_ind : indirection r' = indirection r;
  ca_filter : filter r' = filter r;
  ca_n : numQREntries r' = numQREntries r;
  ca_g : rows_per_btv_bit r' = rows_per_btv_bit r;
  ca_btv : bitvector r' = bitvector r;
  ca_orr : ORR_CBF r' = ORR_CBF r;
  ca_cache : cache r' = cache r;
  ca_rows : numRows (base r') = numRows (base r);
  ca_banks : numBanks (base r') = numBanks (base r) }.

Lemma inv_calm r r' : inv r -> calm r r' -> inv r'.
Proof.
  intros [] []. split; rewrite ?ca_ind0, ?ca_n0, ?ca_g0, ?ca_rows0; try done.
  destruct inv_st0. split; rewrite ?ca_ind0, ?ca_n0, ?ca_g0, ?ca_rows0, ?ca_btv0, ?ca_orr0,
    ?ca_banks0, ?ca_filter0, ?ca_cache0; try done.
  exists (decision (base r')). by destruct r' as [[]].
Qed.

(** Opening a window moves only [prevQRHead_ID]. *)
Definition open_window ind : IndirectionTables := ind <| prevQRHead_ID := nextFreeQR_ID ind |>.
Lemma inv_open r : inv r -> inv (r <| indirection ::= open_window |>).
Proof.
  intros []. pose proof (tw_head _ _ _ inv_tables0). destruct inv_tables0.
  split; unfold over; cbn; try done. destruct inv_st0. by split.
Qed.

(** ** The invariant of the whole class *)

Section Access.
(** The detector has [n] counters per bank, [rows] rows per bank and the
    threshold [thr]. *)
Context (n rows thr : Z) (Hn : 0 <= n < 2 ^ 32) (Hrows : 0 <= rows) (Hthr : 0 < thr).

Record ready r (W : Misra_Gries.bank -> Z) (f g : Misra_Gries.bank -> Z -> Z) : Prop := {
  rd_inv : inv r;
  rd_line : 32 mod rows_per_btv_bit r = 0;
  rd_dims : numRanks (base r) = 1 /\ numChannels (base r) = 1;
  rd_counts : zlen (numAccessesToRow (base r)) = numRows (base r);
  rd_logs : zlen (s_numLogRowAccesses (base r)) = 4;
  rd_residency : zlen (s_btv_residency (stats r)) = 4;
  rd_ids_len : zlen (randRowID r) = numRows (base r);
  rd_ids : forall i x, randRowID r !! i = Some x -> 0 <= x < numRows (base r);
  rd_window : Misra_Gries.window n rows thr (detector r) W f g;
  rd_banks : forall b, 0 <= b < 16 -> (0, 0, b) ∈ dom (Misra_Gries.trackers (detector r));
  rd_det_rows : Misra_Gries.numRows (detector r) = rows;
  rd_rows : 16 <= numRows (base r) /\ numRows (base r) / 16 <= rows }.

Lemma ready_dram r W f g : ready r W f g -> numDRAMRows (base r) = numRows (base r).
Proof.
  intros H. destruct (rd_dims _ _ _ _ H) as [E1 E2]. unfold numDRAMRows.
  pose proof (st_banks _ _ _ _ _ _ (inv_st _ (rd_inv _ _ _ _ H))) as E3.
  rewrite E1, E2, E3, !Z.mul_1_r. apply u32_small.
  pose proof (inv_rows _ (rd_inv _ _ _ _ H)). lia.
Qed.

(** The members of the base class [ready] reads. *)
Definition shape (b b' : RH_Mitigation) : Prop :=
  numRows b' = numRows b /\ numRanks b' = numRanks b /\ numChannels b' = numChannels b /\
  zlen (numAccessesToRow b') = zlen (numAccessesToRow b) /\
  zlen (s_numLogRowAccesses b') = zlen (s_numLogRowAccesses b).
Lemma setup_shape b b' : same_setup b b' -> shape b b'.
Proof. unfold same_setup, shape. tauto. Qed.

(** Steps that keep [ready]: the detector is left alone, and the counters of
    the base class keep their shape. *)
Lemma ready_keep r r' W f g :
  ready r W f g -> inv r' -> rows_per_btv_bit r' = rows_per_btv_bit r ->
  shape (base r) (base r') -> randRowID r' = randRowID r -> detector r' = detector r ->
  zlen (s_btv_residency (stats r')) = zlen (s_btv_residency (stats r)) -> ready r' W f g.
Proof.
  intros [] Hinv Hg (E1 & E3 & E4 & E5 & E6) Hi Hd Hs.
  split; rewrite ?Hg, ?E1, ?E3, ?E4, ?E5, ?E6, ?Hi, ?Hd, ?Hs; try done.
Qed.

Lemma ready_framed r r' W f g : ready r W f g -> inv r' -> framed r r' -> ready r' W f g.
Proof.
  intros H Hinv F. destruct F. destruct fr_base0 as [d Hd]. destruct H.
  split; rewrite ?fr_g0, ?Hd, ?fr_ids0, ?fr_detector0, ?fr_residency0; done.
Qed.

(** *** The reset *)

Lemma count_residency_ready r W f g rval :
  ready r W f g -> 0 <= rval < numRows (base r) ->
  wp (count_residency rval) r (fun _ r' => ready r' W f g /\ indirection r' = indirection r /\
    base r' = base r /\ randRowID r' = randRowID r).
Proof.
  intros H Hr. pose proof (rd_inv _ _ _ _ H) as Hinv. pose proof (inv_st _ Hinv) as Hst.
  pose proof (inv_group _ Hinv) as Hg.
  unfold count_residency. wp_steps. apply rp_udiv; [lia|]. apply wp_when; intros _; [|done].
  wp_step. eapply btv_at_st; [exact Hst|done|].
  set (v := gcount _ _ _). assert (Hv : 0 <= v) by apply gcount_bounds.
  assert (Hc : 0 <= (if 3 <? v then 3 else v) < zlen (s_btv_residency (stats r))).
  { rewrite (rd_residency _ _ _ _ H). destruct (Z.ltb_spec 3 v); lia. }
  wp_steps. destruct (zlookup_is_Some _ _ Hc) as [m Hm]. eapply rp_aread; [exact Hm|]. wp_steps.
  apply rp_awrite; [done|]. unfold count_stat. wp_steps. split; [|done].
  eapply ready_keep; try done.
  - by eapply inv_calm.
  - cbn. apply zlen_insert.
Qed.

Lemma census_ready r W f g rval :
  ready r W f g -> 0 <= rval < numRows (base r) ->
  wp (on_base (census_row rval)) r (fun _ r' => ready r' W f g /\ indirection r' = indirection r /\
    numRows (base r') = numRows (base r) /\ randRowID r' = randRowID r).
Proof.
  intros H Hr. unfold on_base. wp_step.
  apply census_row_spec.
  - by rewrite (rd_counts _ _ _ _ H).
  - by rewrite (rd_logs _ _ _ _ H).
  - intros b' Hb _. pose proof Hb as (E1 & E2 & _).
    split; [|done]. eapply ready_keep; try done; [|by apply setup_shape].
    eapply inv_calm; [by apply (rd_inv _ _ _ _ H)|]. by split.
Qed.

Lemma reset_ready r W f g :
  ready r W f g ->
  wp reset r (fun _ r' => ready r' (fun _ => 0) (fun _ _ => 0) (fun _ _ => 0) /\
    indirection r' = open_window (indirection r) /\ numRows (base r') = numRows (base r) /\
    randRowID r' = randRowID r).
Proof.
  intros H. unfold reset. wp_steps. unfold on_base. wp_steps.
  set (r1 := over base _ _).
  assert (H1 : ready r1 (fun _ => 0) (fun _ _ => 0) (fun _ _ => 0)).
  { destruct H. split; try done.
    - by eapply inv_calm.
    - cbn. pose proof (Misra_Gries.win_n _ _ _ _ _ _ _ rd_window0) as E1.
      pose proof (Misra_Gries.win_thr _ _ _ _ _ _ _ rd_window0) as E2.
      rewrite <- E1, <- rd_det_rows0, <- E2. apply Misra_Gries.reset_window; lia.
    - intros b Hb. cbn. rewrite dom_fmap_L. auto. }
  assert (Hinit : ready r1 (fun _ => 0) (fun _ _ => 0) (fun _ _ => 0) /\
    indirection r1 = indirection r /\ base r1 = base r1 /\ randRowID r1 = randRowID r) by done.
  pose proof (inv_tables _ (rd_inv _ _ _ _ H1)) as Hwf.
  eapply (wp_for (fun _ r2 => ready r2 (fun _ => 0) (fun _ _ => 0) (fun _ _ => 0) /\
    indirection r2 = indirection r /\ base r2 = base r1 /\ randRowID r2 = randRowID r)); [done| |].
  { intros i r2 Hi (H2 & I2 & B2 & D2). wp_step. eapply qr_entry_st; [apply (inv_st _ (rd_inv _ _ _ _ H2))| |].
    { rewrite I2. change (indirection r) with (indirection r1). rewrite (tw_qr_len _ _ _ Hwf). rewrite Z2Nat.id in Hi; [lia|].
      pose proof (inv_slots _ (rd_inv _ _ _ _ H1)). lia. }
    intros e _ _. apply wp_when; intros _; [|done]. unfold count_stat. wp_steps.
    split; [|done]. eapply ready_keep; try done. by eapply inv_calm; [apply (rd_inv _ _ _ _ H2)|]. }
  intros r2 (H2 & I2 & B2 & D2). unfold on_tables. wp_steps.
  set (r3 := over indirection _ r2).
  assert (I3 : indirection r3 = open_window (indirection r)) by (cbn; by rewrite I2).
  assert (H3 : ready r3 (fun _ => 0) (fun _ _ => 0) (fun _ _ => 0)).
  { eapply (ready_keep r2); try done. apply (inv_open r2), (rd_inv _ _ _ _ H2). }
  assert (B3 : numRows (base r3) = numRows (base r1)) by (cbn; by rewrite B2).
  rewrite (ready_dram _ _ _ _ H1).
  assert (D3 : randRowID r3 = randRowID r) by done.
  eapply (wp_for (fun _ r4 => ready r4 (fun _ => 0) (fun _ _ => 0) (fun _ _ => 0) /\
    indirection r4 = open_window (indirection r) /\ numRows (base r4) = numRows (base r1) /\
    randRowID r4 = randRowID r)).
  - by split_and!.
  - intros i r4 Hi (H4 & I4 & B4 & D4). pose proof (inv_rows _ (rd_inv _ _ _ _ H1)) as HR.
    rewrite Z2Nat.id in Hi by lia. wp_step.
    eapply wp_mono; [apply census_ready; [done|by rewrite B4]|].
    cbn beta. intros [] r5 (H5 & I5 & B5 & D5).
    eapply wp_mono; [apply count_residency_ready; [done|rewrite B5, B4; lia]|].
    cbn beta. intros [] r6 (H6 & I6 & B6 & D6). rewrite B6. split_and!; try done; congruence.
  - intros r4 (H4 & I4 & B4 & D4). split_and!; done.
Qed.

(** *** One access *)

Lemma detector_numRows row b rk ch fl d : wp (Misra_Gries.access row b rk ch fl) d
    (fun _ d' => True) ->
  wp (Misra_Gries.access row b rk ch fl) d (fun _ d' => Misra_Gries.numRows d' = Misra_Gries.numRows d).
Proof.
  unfold Misra_Gries.access. unfold wp, mbind, comp_bind, get, lift, modify, when_, mret, comp_ret.
  destruct (Misra_Gries.trackers d !! _) as [tr|]; [|done].
  destruct (Misra_Gries.access_tracker _ _ _ tr) as [[[ret fresh] tr']|]; [|done].
  by destruct fresh.
Qed.

Lemma decodeAddr_ready r W f g addr A :
  ready r W f g -> 0 <= addr -> randRowID r !! (addr / 8192) = Some A ->
  wp (decodeAddr addr) r (fun m r' => ready r' W f g /\ indirection r' = indirection r /\
    randRowID r' = randRowID r /\ 0 <= rowID m < rows /\ 0 <= bankID m < 16).
Proof.
  intros H Ha HA. pose proof (zlookup_lt _ _ _ HA) as Hlt. rewrite (rd_ids_len _ _ _ _ H) in Hlt.
  pose proof (inv_rows _ (rd_inv _ _ _ _ H)) as HR. pose proof (rd_rows _ _ _ _ H) as [H16 Hdet].
  unfold decodeAddr, on_base. rewrite u32_small by lia. wp_steps.
  destruct (zlookup_is_Some (numAccessesToRow (base r)) (addr / 8192)) as [c Hc].
  { by rewrite (rd_counts _ _ _ _ H). }
  eapply count_access_spec; [exact Hc|]. wp_steps. cbn [randRowID over].
  eapply rp_aread; [exact HA|]. wp_steps.
  assert (0 < numRows (base r) / 16) by (apply Z.div_str_pos; lia).
  apply (rp_umod _ (numRows (base r) / 16)); [lia|]. wp_steps. split; [|split; [done|split; [done|]]].
  - eapply ready_keep; try done.
    + by eapply inv_calm; [apply (rd_inv _ _ _ _ H)|].
    + unfold shape. cbn. by rewrite zlen_insert.
  - cbn [rowID bankID base over]. pose proof (Z.mod_pos_bound (A / 16) (numRows (base r) / 16)).
    pose proof (Z.mod_pos_bound A 16). lia.
Qed.

Lemma detect_ready r W f g b row :
  ready r W f g -> 0 <= row < rows -> 0 <= b < 16 ->
  W (0, 0, b) + 1 < 2 ^ 32 -> W (0, 0, b) < thr * (n + 1) ->
  wp (zoom detector (fun d r => r <| detector := d |>) (Misra_Gries.access row b 0 0 false)) r
    (fun fl r' => indirection r' = indirection r /\ randRowID r' = randRowID r /\
       ready r' (Misra_Gries.upd_bank W (0, 0, b) (W (0, 0, b) + 1))
         (Misra_Gries.upd_bank f (0, 0, b) (bump (f (0, 0, b)) row 1))
         (Misra_Gries.upd_bank g (0, 0, b) (bump (g (0, 0, b)) row (Z.b2z fl)))).
Proof.
  intros H Hr Hb HW1 HW2. wp_step.
  pose proof (Misra_Gries.access_window n rows thr Hn Hthr (detector r) W f g row 0 0 b
    (rd_window _ _ _ _ H) (rd_banks _ _ _ _ H b Hb) Hr HW1 HW2) as Hw. cbn zeta in Hw.
  assert (Hd : wp (Misra_Gries.access row b 0 0 false) (detector r)
                  (fun _ d' => Misra_Gries.numRows d' = Misra_Gries.numRows (detector r))).
  { apply detector_numRows. eapply wp_mono; [exact Hw|done]. }
  apply wp_inv in Hw as (fl & d' & E & Hdom & Hwin). unfold wp in Hd |- *. rewrite E in *.
  split; [done|]. split; [done|]. destruct H. split; cbn; try done.
  - by eapply inv_calm.
  - intros b' Hb'. rewrite Hdom. auto.
  - congruence.
Qed.

Lemma mitigate_ready r W f g m A :
  ready r W f g -> 0 <= A < numRows (base r) -> mitigate (decision (base r)) = m ->
  wp (if m then quarantineRow A
      else r ← get;
        let misses := u64 (s_cache_miss (stats r) + s_cache_partial_hit_orr_unset (stats r)) in
        when_ (drain_cache_miss_threshold r <=? u64 (misses - prev_drain_cache_miss_val r)) (
          modify (fun r => r <| prev_drain_cache_miss_val := misses |>);;
          drainRow)) r
    (fun _ r' => ready r' W f g /\ mitigate (decision (base r')) = m /\ randRowID r' = randRowID r /\
       (m = true -> slot_of (indirection r) A <> Some (nextFreeQR_ID (indirection r)) ->
        quarantined (indirection r') A)).
Proof.
  intros H HA Hm. pose proof (rd_inv _ _ _ _ H) as Hinv. destruct m.
  - eapply wp_mono; [by apply quarantineRow_st|]. intros [] r' (Hinv' & F & Hst & _).
    split; [by eapply ready_framed|]. split; [by rewrite (fr_mitigate _ _ F)|]. split; [apply (fr_ids _ _ F)|]. intros _ Hne.
    exists (nextFreeQR_ID (indirection r)). eapply tw_qr; [apply (inv_tables _ Hinv')|].
    rewrite Hst. unfold after_move. by rewrite bool_decide_false, Z.eqb_refl.
  - wp_step. wp_step. apply wp_when; intros _; [|done]. wp_steps.
    set (r1 := over prev_drain_cache_miss_val _ r).
    assert (H1 : ready r1 W f g).
    { eapply ready_keep; try done. by eapply inv_calm. }
    eapply wp_mono; [apply drainRow_st, (rd_inv _ _ _ _ H1)|]. intros [] r' (Hinv' & F & _).
    split; [by eapply ready_framed|]. split; [by rewrite (fr_mitigate _ _ F)|]. split; [apply (fr_ids _ _ F)|done].
Qed.

(** The roll-over of the window, when it is due. *)
Lemma roll_over_ready r W f g currTick :
  ready r W f g ->
  wp (when_ (window_over (base r) currTick) (
        on_base (modify (fun b => b <| last_reset := currTick |>));; reset)) r
    (fun _ r' => exists W' f' g', ready r' W' f' g' /\
       ((W' = W /\ f' = f /\ g' = g) \/
        (W' = (fun _ => 0) /\ f' = (fun _ _ => 0) /\ g' = (fun _ _ => 0))) /\
       (forall x, slot_of (indirection r') x = slot_of (indirection r) x) /\
       nextFreeQR_ID (indirection r') = nextFreeQR_ID (indirection r) /\
       randRowID r' = randRowID r).
Proof.
  intros H. unfold on_base. apply wp_when; intros _.
  - wp_steps. set (r1 := over base _ r).
    assert (H1 : ready r1 W f g).
    { eapply ready_keep; try done. by eapply inv_calm; [apply (rd_inv _ _ _ _ H)|]. }
    eapply wp_mono; [by eapply reset_ready|]. cbn beta. intros [] r' (H' & I & _ & D).
    exists (fun _ => 0), (fun _ _ => 0), (fun _ _ => 0). split; [done|]. split; [by right|].
    by rewrite I, D.
  - exists W, f, g. split; [done|]. split; [by left|done].
Qed.
End Access.

(** The outcome of an access from [r], with the loads of the window before it. *)
Record accessed n rows thr r (W : Misra_Gries.bank -> Z) (A : Z) (d : Decision) r' : Prop := {
  ad_ready : exists W' f' g', ready n rows thr r' W' f' g' /\ forall b, W' (0, 0, b) <= Z.max 0 (W (0, 0, b)) + 1;
  ad_ids : randRowID r' = randRowID r;
  ad_quarantined : mitigate d = true -> slot_of (indirection r) A <> Some (nextFreeQR_ID (indirection r)) ->
    quarantined (indirection r') A }.
Lemma access_wp n rows thr r W f g currTick addr A :
  0 <= n < 2 ^ 32 -> 0 <= rows -> 0 < thr ->
  ready n rows thr r W f g -> 0 <= addr -> randRowID r !! (addr / 8192) = Some A ->
  (forall b, W (0, 0, b) + 1 < 2 ^ 32) -> (forall b, W (0, 0, b) < thr * (n + 1)) ->
  wp (access currTick addr) r (accessed n rows thr r W A).
Proof.
  intros Hn Hrows Hthr H Ha HA HW1 HW2.
  unfold access. wp_step. unfold on_base at 1. wp_steps.
  set (r1 := over base _ r).
  assert (H1 : ready n rows thr r1 W f g).
  { eapply ready_keep; try done. by eapply inv_calm; [apply (rd_inv _ _ _ _ _ _ _ H)|]. }
  eapply wp_mono; [by eapply (roll_over_ready n rows thr)|].
  cbn beta. intros [] r2 (W2 & f2 & g2 & H2 & HWs & S2 & N2 & D2).
  change (randRowID r1) with (randRowID r) in D2.
  assert (HW : forall b, W2 (0, 0, b) + 1 < 2 ^ 32 /\ W2 (0, 0, b) < thr * (n + 1)).
  { intros b. destruct HWs as [(-> & _ & _)|(-> & _ & _)]; [by split|]. nia. }
  wp_steps. rewrite D2. eapply rp_aread; [exact HA|]. wp_step.
  assert (HAr : 0 <= A < numRows (base r2)).
  { eapply (rd_ids _ _ _ _ _ _ _ H2). by rewrite D2. }
  eapply wp_mono; [by eapply addQCheckDelay_st; [apply (rd_inv _ _ _ _ _ _ _ H2)| |apply (rd_line _ _ _ _ _ _ _ H2)]|].
  cbn beta. intros [] r3 (Hinv3 & F3 & I3). wp_step.
  assert (H3 : ready n rows thr r3 W2 f2 g2) by by eapply ready_framed.
  assert (HA3 : randRowID r3 !! (addr / 8192) = Some A) by (by rewrite (fr_ids _ _ F3), D2).
  eapply wp_mono; [by eapply decodeAddr_ready|]. cbn beta. intros m r4 (H4 & I4 & D4 & Hrow & Hbank). wp_step.
  eapply wp_mono; [eapply (detect_ready n rows thr Hn Hthr); [exact H4|done|done|apply HW|apply HW]|].
  cbn beta. intros fl r5 (I5 & D5 & H5). wp_step. unfold on_base, on_decision. wp_steps.
  set (r6 := over base _ r5).
  match type of H5 with ready _ _ _ _ ?W ?f ?g => assert (H6 : ready n rows thr r6 W f g) end.
  { eapply ready_keep; try done. by eapply inv_calm; [apply (rd_inv _ _ _ _ _ _ _ H5)|]. }
  assert (HA6 : 0 <= A < numRows (base r6)).
  { apply (rd_ids _ _ _ _ _ _ _ H6 (addr / 8192)). change (randRowID r6) with (randRowID r5).
    by rewrite D5, D4. }
  eapply wp_mono; [by eapply (mitigate_ready n rows thr r6 _ _ _ fl A)|].
  cbn beta. intros [] r7 (H7 & Hm & D7 & Hq). wp_steps. split.
  - eexists _, _, _. split; [exact H7|]. intros b. unfold Misra_Gries.upd_bank.
    assert (W2 (0, 0, b) <= Z.max 0 (W (0, 0, b))) by (destruct HWs as [(-> & _ & _)|(-> & _ & _)]; lia).
    case_bool_decide as E; [|lia]. injection E as <-. lia.
  - by rewrite D7; change (randRowID r6) with (randRowID r5); rewrite D5, D4, (fr_ids _ _ F3), D2.
  - rewrite Hm. intros -> Hne. apply Hq; [done|]. change (indirection r6) with (indirection r5).
    rewrite I5, I4, I3, S2, N2. exact Hne.
Qed.

(** ** Property *)


(** *** Witness, on the instance of RQInit.v: 16 banks of 4 rows *)

Lemma ready_rq0 :
  ready 2 16 4 Init.rq0 (fun _ => 0) (fun _ _ => 0) (fun _ _ => 0).
Proof.
  split; try reflexivity.
  - exact Init.inv_rq0.
  - by split.
  - intros i x Hx%elem_of_zlookup. change (numRows (base Init.rq0)) with 64.
    assert (Hall : forallb (fun x => (0 <=? x) && (x <? 64)) (randRowID Init.rq0) = true)
      by (vm_compute; reflexivity).
    rewrite forallb_forall in Hall. apply list_elem_of_In, Hall in Hx.
    apply andb_true_iff in Hx. lia.
  - by apply (Misra_Gries.reset_window
      (Misra_Gries.create (fun _ => Misra_Gries.mkTracker [] 0 ∅ [] 0 0 0 0 0) 2 4 16 16 1 1)).
  - intros b Hb. apply elem_of_dom.
    assert (Hin : b = 0 \/ b = 1 \/ b = 2 \/ b = 3 \/ b = 4 \/ b = 5 \/ b = 6 \/ b = 7 \/
      b = 8 \/ b = 9 \/ b = 10 \/ b = 11 \/ b = 12 \/ b = 13 \/ b = 14 \/ b = 15) by lia.
    destruct_or! Hin; subst b; vm_compute; by eexists.
  - vm_compute. split; congruence.
Qed.

End Access.
