(* ===== verification/CmdBus.v ===== *)
(** The command bus of the memory controller ([mem/mem_ctrl.cc]): [burstTicks]
    is the multiset of the command windows in use, and the two [verify]
    functions find room for one command, or for a pair, in the windows. *)
From S2P Require Import Prelude.

Module CmdBus.

(** ** State and operations *)

Record t := mkBus { burstTicks : list Z; commandWindow : Z }.
#[global] Instance eta_t : Settable t := fun r => mkBus (burstTicks r) (commandWindow r).

(** [burstTicks.count(tick)] *)
Fixpoint count (tick : Z) (l : list Z) : Z :=
  match l with [] => 0 | x :: l' => (if x =? tick then 1 else 0) + count tick l' end.

Definition insert_tick (tick : Z) : comp t unit := modify (fun b => b <| burstTicks ::= cons tick |>).

Definition pruneBurstTick (curTick : Z) : comp t unit :=
  modify (fun b => b <| burstTicks ::= filter (fun x => x >= curTick) |>).

Definition getBurstWindow (cmd_tick : Z) : comp t Z :=
  w ← gets commandWindow;
  burst_offset ← lift (umod cmd_tick w);
  mret (u64 (cmd_tick - burst_offset)).

(** The latest window in use bounds the windows the loops visit: the fuel. *)
Definition horizon (l : list Z) : Z := foldr Z.max 0 l.
Definition windows_left (w tick : Z) (l : list Z) : nat := Z.to_nat ((horizon l - tick) / w + 2).

(** [while (burstTicks.count(burst_tick) >= max_cmds_per_burst)] *)
Fixpoint find_window (fuel : nat) (max_cmds w : Z) (l : list Z) (burst_tick cmd_at : Z)
    : result (Z * Z) :=
  match fuel with
  | O => Fault OutOfFuel
  | S fuel' =>
      if max_cmds <=? count burst_tick l then
        let burst_tick' := u64 (burst_tick + w) in
        find_window fuel' max_cmds w l burst_tick' burst_tick'
      else Ok (burst_tick, cmd_at)
  end.

Definition verifySingleCmd (cmd_tick max_cmds_per_burst : Z) : comp t Z :=
  burst_tick ← getBurstWindow cmd_tick;
  b ← get;
  '(burst_tick, cmd_at) ←
    lift (find_window (S (windows_left (commandWindow b) burst_tick (burstTicks b)))
            max_cmds_per_burst (commandWindow b) (burstTicks b) burst_tick cmd_tick);
  insert_tick burst_tick;;
  mret cmd_at.

(** [while (max_multi_cmd_split > (first_cmd_offset + burst_offset))] *)
Fixpoint split_offset (fuel : nat) (w split first_cmd_offset burst_offset : Z) : result Z :=
  match fuel with
  | O => Fault OutOfFuel
  | S fuel' =>
      if u64 (first_cmd_offset + burst_offset) <? split
      then split_offset fuel' w split first_cmd_offset (u64 (burst_offset + w))
      else Ok burst_offset
  end.

(** The loop for a pair of commands: the windows of the second and the first
    command and the tick of the second. *)
Fixpoint find_pair (fuel : nat) (max_cmds split w : Z) (l : list Z)
    (burst_tick first_cmd_tick cmd_at : Z) : result (Z * Z * Z) :=
  match fuel with
  | O => Fault OutOfFuel
  | S fuel' =>
      let same_burst := burst_tick =? first_cmd_tick in
      let first_cmd_count := count first_cmd_tick l in
      let second_cmd_count := if same_burst then first_cmd_count + 1 else count burst_tick l in
      let first_can_issue := first_cmd_count <? max_cmds in
      let second_can_issue := second_cmd_count <? max_cmds in
      let '(burst_tick', cmd_at') :=
        if negb second_can_issue then (u64 (burst_tick + w), u64 (burst_tick + w))
        else (burst_tick, cmd_at) in
      let gap_violated := negb same_burst && (split <? u64 (burst_tick' - first_cmd_tick)) in
      let first_cmd_tick' :=
        if negb first_can_issue || (negb second_can_issue && gap_violated)
        then u64 (first_cmd_tick + w) else first_cmd_tick in
      if negb first_can_issue || negb second_can_issue
      then find_pair fuel' max_cmds split w l burst_tick' first_cmd_tick' cmd_at'
      else Ok (burst_tick', first_cmd_tick', cmd_at')
  end.

Definition verifyMultiCmd (cmd_tick max_cmds_per_burst max_multi_cmd_split : Z) : comp t Z :=
  burst_tick ← getBurstWindow cmd_tick;
  b ← get;
  let w := commandWindow b in
  first_cmd_offset ← lift (umod cmd_tick w);
  burst_offset ← lift (split_offset (Z.to_nat (max_multi_cmd_split / w + 2)) w
                         max_multi_cmd_split first_cmd_offset 0);
  let first_cmd_tick := u64 (burst_tick - Z.min burst_offset burst_tick) in
  let fuel := (2 * windows_left w burst_tick (burstTicks b) +
               2 * windows_left w first_cmd_tick (burstTicks b) + 2)%nat in
  '(burst_tick, first_cmd_tick, cmd_at) ←
    lift (find_pair fuel max_cmds_per_burst max_multi_cmd_split w (burstTicks b)
            burst_tick first_cmd_tick cmd_tick);
  insert_tick burst_tick;;
  insert_tick first_cmd_tick;;
  mret cmd_at.

(** ** Facts *)

Lemma count_nonneg x l : 0 <= count x l.
Proof. induction l as [|y l IH]; cbn; [lia|]. destruct (y =? x); lia. Qed.

(** A window in use is at or before the horizon. *)
Lemma count_horizon x l : 0 < count x l -> x <= horizon l.
Proof.
  induction l as [|y l IH]; cbn; [lia|]. destruct (Z.eqb_spec y x) as [->|]; [lia|].
  intros H. specialize (IH ltac:(lia)). fold (horizon l). lia.
Qed.
Lemma count_beyond x l : horizon l < x -> count x l = 0.
Proof.
  intros H. pose proof (count_nonneg x l). destruct (decide (count x l = 0)); [done|].
  pose proof (count_horizon x l ltac:(lia)). lia.
Qed.
Lemma horizon_nonneg l : 0 <= horizon l.
Proof. unfold horizon. induction l; cbn; lia. Qed.

Definition aligned (w x : Z) : Prop := x mod w = 0.
Lemma aligned_add w x : 0 < w -> aligned w x -> aligned w (x + w).
Proof. unfold aligned. intros Hw Hx. rewrite <- Z.add_mod_idemp_l, Hx, Z.add_0_l, Z_mod_same_full by lia. done. Qed.
Lemma aligned_sub w x y : 0 < w -> aligned w x -> aligned w y -> aligned w (x - y).
Proof. unfold aligned. intros Hw Hx Hy. by rewrite Zminus_mod, Hx, Hy, Z.sub_0_r, Z.mod_0_l by lia. Qed.
(** Two windows, one before the other, are at least [w] apart. *)
Lemma aligned_gap w x y : 0 < w -> aligned w x -> aligned w y -> x < y -> x + w <= y.
Proof.
  unfold aligned. intros Hw Hx Hy Hlt. pose proof (Z_div_mod_eq_full x w) as Ex.
  pose proof (Z_div_mod_eq_full y w) as Ey. rewrite Hx, Z.add_0_r in Ex. rewrite Hy, Z.add_0_r in Ey.
  assert (x / w < y / w) by (apply (Z.mul_lt_mono_pos_l w); lia). nia.
Qed.
Lemma aligned_window w x : 0 < w -> aligned w (x - x mod w) /\ x - w < x - x mod w <= x.
Proof.
  intros Hw. pose proof (Z.mod_pos_bound x w Hw). split; [|lia]. unfold aligned.
  rewrite Zminus_mod, Z.mod_mod, Z.sub_diag by lia. apply Z.mod_0_l. lia.
Qed.

Lemma windows_left_mono w x l : 0 < w -> (windows_left w (x + w) l <= windows_left w x l)%nat.
Proof.
  intros Hw. unfold windows_left.
  pose proof (Z.div_le_mono (horizon l - (x + w)) (horizon l - x) w Hw ltac:(lia)). lia.
Qed.
Lemma windows_left_step w x l : 0 < w -> x <= horizon l ->
  (0 < windows_left w (x + w) l < windows_left w x l)%nat.
Proof.
  intros Hw Hx. unfold windows_left.
  replace (horizon l - (x + w)) with (horizon l - x + (-1) * w) by lia.
  rewrite Z.div_add by lia. pose proof (Z.div_pos (horizon l - x) w ltac:(lia) ltac:(lia)). lia.
Qed.

(** No window holds more than [m] commands. *)
Definition within (m : Z) (l : list Z) : Prop := forall x, count x l <= m.

Lemma within_insert m x l : within m l -> count x l < m -> within m (x :: l).
Proof.
  intros H Hx y. cbn. pose proof (H y). destruct (Z.eqb_spec x y) as [->|]; lia.
Qed.

(** ** The search for one window *)

Lemma find_window_spec m w l : 0 < m -> 0 < w -> forall fuel x at_,
  0 <= x -> Z.max x (horizon l + w) < 2 ^ 64 -> aligned w x -> (windows_left w x l < fuel)%nat ->
  exists y, find_window fuel m w l x at_ = Ok (y, if y =? x then at_ else y) /\
    x <= y <= Z.max x (horizon l + w) /\ aligned w y /\ count y l < m /\
    forall z, aligned w z -> x <= z < y -> m <= count z l.
Proof.
  intros Hm Hw. induction fuel as [|fuel IH]; intros x at_ Hx Hb Ha Hf; [lia|].
  cbn [find_window]. destruct (Z.leb_spec m (count x l)) as [Hle|Hlt].
  - pose proof (count_horizon x l ltac:(lia)) as Hxh. rewrite u64_small by lia.
    pose proof (windows_left_step w x l Hw Hxh) as Hs.
    destruct (IH (x + w) (x + w)) as (y & E & Hy & Hay & Hc & Hall); [lia|lia|by apply aligned_add|lia|].
    exists y. rewrite E. destruct (Z.eqb_spec y x); [lia|].
    split; [destruct (Z.eqb_spec y (x + w)) as [Hyx|]; [by rewrite Hyx|done]|]. split_and!; [lia|lia|done|done|].
    intros z Hz Hr. destruct (decide (z = x)) as [->|]; [done|].
    apply Hall; [done|]. pose proof (aligned_gap w x z Hw Ha Hz). lia.
  - exists x. rewrite Z.eqb_refl. split_and!; try done; lia.
Qed.

(** What the callers keep: a positive window, ticks far from the end of time,
    and no window over its capacity. *)
Record ok (m : Z) (b : t) : Prop := {
  ok_window : 0 < commandWindow b;
  ok_end : horizon (burstTicks b) + 2 * commandWindow b < 2 ^ 64;
  ok_within : within m (burstTicks b)
}.

Lemma getBurstWindow_run m cmd_tick b : ok m b -> 0 <= cmd_tick < 2 ^ 64 ->
  getBurstWindow cmd_tick b = Ok (cmd_tick - cmd_tick mod commandWindow b, b).
Proof.
  intros [Hw _ _] Hc. pose proof (Z.mod_pos_bound cmd_tick _ Hw).
  pose proof (Z.mod_le cmd_tick (commandWindow b) ltac:(lia) Hw).
  unfold getBurstWindow, mbind, comp_bind, gets, lift, umod, mret, comp_ret; cbn.
  destruct (Z.eqb_spec (commandWindow b) 0); [lia|]. by rewrite u64_small by lia.
Qed.

(** What a call of either function leaves: the windows taken and the tick. *)
Record issued (m hor cmd_tick y cmd_at : Z) (b : t) : Prop := {
  is_after : cmd_tick <= cmd_at;
  is_window : y = cmd_at - cmd_at mod commandWindow b;
  is_bound : y <= hor /\ cmd_at <= Z.max cmd_tick hor
}.

Lemma verifySingleCmd_spec m cmd_tick b : 0 < m -> ok m b -> 0 <= cmd_tick < 2 ^ 64 ->
  exists y cmd_at,
    verifySingleCmd cmd_tick m b = Ok (cmd_at, b <| burstTicks ::= cons y |>) /\
    issued m (Z.max cmd_tick (horizon (burstTicks b) + commandWindow b)) cmd_tick y cmd_at b /\
    (y <= cmd_tick -> cmd_at = cmd_tick) /\
    (forall z, aligned (commandWindow b) z ->
       cmd_tick - commandWindow b < z < y -> m <= count z (burstTicks b)) /\
    within m (y :: burstTicks b).
Proof.
  intros Hm Hok Hc. pose proof Hok as [Hw He Hin].
  pose proof (Z.mod_pos_bound cmd_tick _ Hw).
  pose proof (Z.mod_le cmd_tick (commandWindow b) ltac:(lia) Hw).
  destruct (aligned_window (commandWindow b) cmd_tick Hw) as [Ha ?].
  set (x := cmd_tick - cmd_tick mod commandWindow b) in *.
  destruct (find_window_spec m (commandWindow b) (burstTicks b) Hm Hw
    (S (windows_left (commandWindow b) x (burstTicks b))) x cmd_tick)
    as (y & E & Hy & Hay & Hcy & Hall); [lia|lia|done|lia|].
  exists y, (if y =? x then cmd_tick else y). unfold verifySingleCmd, mbind, comp_bind.
  rewrite (getBurstWindow_run m) by done. fold x. cbn [get lift]. rewrite E.
  assert (y mod commandWindow b = 0) by done.
  assert (y = x \/ x + commandWindow b <= y) as Hyx.
  { destruct (decide (y = x)); [by left|right]. apply aligned_gap; try done. lia. }
  split; [done|]. split_and!; [split; destruct (Z.eqb_spec y x); lia|..].
  - destruct (Z.eqb_spec y x); [done|lia].
  - intros z Hz Hr. apply Hall; [done|]. split; [|lia].
    destruct (Z.le_gt_cases x z); [done|].
    pose proof (aligned_gap _ z x Hw Hz Ha). lia.
  - by apply within_insert.
Qed.

(** verifySingleCmd terminates, and issues the command in the first window,
    from the one of cmd_tick on, that has a free slot: at cmd_tick itself when
    that window has one, else at the start of the window found.  The one slot it
    takes leaves every window within its capacity. *)
Theorem verifySingleCmd_first_free m cmd_tick b : 0 < m -> ok m b ->
  0 <= cmd_tick < 2 ^ 64 ->
  exists y cmd_at,
    verifySingleCmd cmd_tick m b = Ok (cmd_at, b <| burstTicks ::= cons y |>) /\
    cmd_tick <= cmd_at /\ y = cmd_at - cmd_at mod commandWindow b /\
    (y <= cmd_tick -> cmd_at = cmd_tick) /\
    (forall z, aligned (commandWindow b) z ->
       cmd_tick - commandWindow b < z < y -> m <= count z (burstTicks b)) /\
    within m (y :: burstTicks b).
Proof.
  intros Hm Hok Hc. destruct (verifySingleCmd_spec m cmd_tick b Hm Hok Hc)
    as (y & cmd_at & E & [? ? ?] & ? & ? & ?). exists y, cmd_at. by split_and!.
Qed.

(** ** The search for two windows *)

(** The measure of the loop for a pair. *)
Definition pair_left (w b f : Z) (l : list Z) : nat :=
  (2 * windows_left w b l + 2 * windows_left w f l + (if (b =? f)%Z then 1 else 0))%nat.

(** What the loop has found: [b'] and [f'] start at [b] and [f] and have room. *)
Record pair_found (m split w bound : Z) (l : list Z) (b f b' f' : Z) : Prop := {
  pf_bound : b' <= bound + w;
  pf_second : b <= b';
  pf_first : f <= f' <= b';
  pf_alignb : aligned w b';
  pf_alignf : aligned w f';
  pf_gap : b' - f' < split + w;
  pf_room : count f' l < m /\ (if b' =? f' then 1 else 0) + count b' l < m
}.

Definition found_at m split w bound l b f at_ (r : result (Z * Z * Z)) : Prop :=
  exists b' f', r = Ok (b', f', if b' =? b then at_ else b') /\ pair_found m split w bound l b f b' f'.

(** One turn of the loop that moved both, or only the first, window. *)
Lemma found_second m split w bound l b f f1 at_ r : 0 < w -> f <= f1 ->
  found_at m split w bound l (b + w) f1 (b + w) r -> found_at m split w bound l b f at_ r.
Proof.
  intros Hw Hf (b' & f' & -> & [P0 P1 P2 P3 P4 P5 P6]). exists b', f'.
  split; [|split; try done; lia]. destruct (Z.eqb_spec b' b); [lia|].
  destruct (Z.eqb_spec b' (b + w)) as [E|]; [by rewrite E|done].
Qed.
Lemma found_first m split w bound l b f f1 at_ r : f <= f1 ->
  found_at m split w bound l b f1 at_ r -> found_at m split w bound l b f at_ r.
Proof.
  intros Hf (b' & f' & -> & [P0 P1 P2 P3 P4 P5 P6]). exists b', f'. split; [done|]. split; try done; lia.
Qed.

Section Pair.
Context (m split w : Z) (l : list Z) (bound : Z).
Hypothesis Hm : 0 < m.
Hypothesis Hw : 0 < w.
Hypothesis Hs : 0 < split.
Hypothesis Hh : horizon l + w <= bound.
Hypothesis Hb64 : bound + w < 2 ^ 64.

(** The state of the loop. *)
Definition pair_ok (b f : Z) : Prop :=
  0 <= f <= b /\ b <= bound /\ aligned w b /\ aligned w f /\ b - f < split + w.

(** Two windows with room end the loop. *)
Lemma find_pair_done fuel b f at_ : 0 <= f <= b -> b <= bound + w -> aligned w b -> aligned w f ->
  b - f < split + w -> count f l < m -> (if b =? f then 1 else 0) + count b l < m ->
  found_at m split w bound l b f at_ (find_pair (S fuel) m split w l b f at_).
Proof using Hm Hw Hs.
  intros Hf Hbd Hb Hfa Hg Hc1 Hc2. exists b, f. rewrite Z.eqb_refl. cbn [find_pair]. split.
  - destruct (Z.ltb_spec (count f l) m); [|lia]. destruct (Z.eqb_spec b f) as [->|].
    + destruct (Z.ltb_spec (count f l + 1) m); [done|lia].
    + destruct (Z.ltb_spec (count b l) m); [done|lia].
  - split; try done; lia.
Qed.

(** The first window after a contended second one. *)
Definition first_after (b f : Z) : Z := if split <? u64 (b + w - f) then u64 (f + w) else f.
Lemma first_after_ok b f : pair_ok b f -> f + w <= b ->
  f <= first_after b f <= b /\ aligned w (first_after b f) /\ b + w - first_after b f < split + w /\
  (windows_left w (first_after b f) l <= windows_left w f l)%nat.
Proof using Hm Hw Hs Hh Hb64.
  intros (Hf & Hb & Hab & Haf & Hg) Hfb. pose proof (windows_left_mono w f l Hw).
  unfold first_after. rewrite u64_small by lia.
  destruct (Z.ltb_spec split (b + w - f)); [|split_and!; try done; lia].
  rewrite u64_small by lia. split_and!; [lia|lia|by apply aligned_add|lia|lia].
Qed.

Definition IHpair (fuel : nat) : Prop := forall b f at_, pair_ok b f ->
  (pair_left w b f l < fuel)%nat ->
  found_at m split w bound l b f at_ (find_pair fuel m split w l b f at_).

(** The commands start in the same window. *)
Lemma find_pair_same fuel f at_ : IHpair fuel -> pair_ok f f ->
  (pair_left w f f l < S fuel)%nat ->
  found_at m split w bound l f f at_ (find_pair (S fuel) m split w l f f at_).
Proof using Hm Hw Hs Hh Hb64.
  intros IH (Hf & Hb & Hab & Haf & Hg) Hfu. unfold pair_left in Hfu.
  rewrite Z.eqb_refl in Hfu. pose proof (windows_left_mono w f l Hw).
  destruct (Z.lt_ge_cases (count f l + 1) m) as [Hc2|Hc2].
  { apply find_pair_done; try done; try lia. rewrite Z.eqb_refl. lia. }
  cbn [find_pair]. rewrite Z.eqb_refl. cbn [negb andb].
  destruct (Z.ltb_spec (count f l + 1) m); [lia|]. cbn [negb andb].
  rewrite !u64_small by lia.
  destruct (Z.ltb_spec (count f l) m) as [Hc1|Hc1]; cbn [negb orb andb].
  - eapply found_second with (f1 := f); [done|lia|].
    destruct (Z.le_gt_cases (f + w) bound) as [Hle|Hgt].
    + apply IH; [split_and!; try done; [lia..|by apply aligned_add|lia]|].
      unfold pair_left. destruct (Z.eqb_spec (f + w) f); lia.
    + destruct fuel as [|fuel']; [lia|].
      apply find_pair_done; try done; try lia; [by apply aligned_add|].
      rewrite count_beyond by lia. destruct (Z.eqb_spec (f + w) f); lia.
  - pose proof (count_horizon f l ltac:(lia)) as Hfh. pose proof (windows_left_step w f l Hw Hfh).
    eapply found_second with (f1 := f + w); [done|lia|].
    apply IH; [split_and!; try done; try lia; by apply aligned_add|].
    unfold pair_left. rewrite Z.eqb_refl. lia.
Qed.

Lemma find_pair_spec fuel : IHpair fuel.
Proof using Hm Hw Hs Hh Hb64.
  induction fuel as [|fuel IH]; intros b f at_ Hok Hfu; [lia|].
  destruct (decide (b = f)) as [->|Hne]; [by apply find_pair_same|].
  pose proof Hok as (Hf & Hb & Hab & Haf & Hg). unfold pair_left in Hfu.
  assert (f + w <= b) as Hfw by (apply (aligned_gap w f b); [done..|lia]).
  pose proof (first_after_ok b f Hok Hfw) as (?&?&?&?).
  destruct (Z.eqb_spec b f) as [|_]; [lia|].
  destruct (Z.lt_ge_cases (count f l) m) as [Hc1|Hc1], (Z.lt_ge_cases (count b l) m) as [Hc2|Hc2];
    [apply find_pair_done; try done; try lia; destruct (Z.eqb_spec b f); lia|..];
    cbn [find_pair]; destruct (Z.eqb_spec b f) as [|_]; try lia;
    destruct (Z.ltb_spec (count f l) m), (Z.ltb_spec (count b l) m); try lia; cbn [negb orb andb].
  - pose proof (count_horizon b l ltac:(lia)) as Hbh. pose proof (windows_left_step w b l Hw Hbh).
    rewrite !(u64_small (b + w)) by lia. eapply found_second with (f1 := first_after b f); [done|lia|].
    fold (first_after b f). apply IH; [split_and!; try done; try lia|
      unfold pair_left; destruct (Z.eqb_spec (b + w) (first_after b f)); lia].
    by apply aligned_add.
  - pose proof (count_horizon f l ltac:(lia)) as Hfh. pose proof (windows_left_step w f l Hw Hfh).
    rewrite (u64_small (f + w)) by lia. eapply found_first with (f1 := f + w); [lia|].
    apply IH; [split_and!; try done; try lia; by apply aligned_add|].
    unfold pair_left. destruct (Z.eqb_spec b (f + w)); lia.
  - pose proof (count_horizon f l ltac:(lia)) as Hfh. pose proof (count_horizon b l ltac:(lia)) as Hbh.
    pose proof (windows_left_step w f l Hw Hfh). pose proof (windows_left_step w b l Hw Hbh).
    rewrite !(u64_small (f + w)), !(u64_small (b + w)) by lia.
    eapply found_second with (f1 := f + w); [done|lia|].
    apply IH; [split_and!; try done; try lia; by apply aligned_add|].
    unfold pair_left. destruct (Z.eqb_spec (b + w) (f + w)); lia.
Qed.
End Pair.

(** The offset loop stops at the first offset that covers the split. *)
Lemma split_offset_spec w split fco : 0 < w -> 0 <= fco < w -> split + 2 * w < 2 ^ 64 ->
  forall fuel off, 0 <= off -> off < split + w -> aligned w off -> (0 < fuel)%nat ->
  split - off <= (Z.of_nat fuel - 1) * w ->
  exists off', split_offset fuel w split fco off = Ok off' /\
    0 <= off' < split + w /\ aligned w off' /\ split <= fco + off'.
Proof.
  intros Hw Hf Hs. induction fuel as [|fuel IH]; intros off H0 Hlt Ha Hpos Hfu; [lia|].
  cbn [split_offset]. rewrite u64_small by lia. destruct (Z.ltb_spec (fco + off) split).
  - rewrite u64_small by lia. apply IH; [lia|lia|by apply aligned_add|nia|nia].
  - exists off. split_and!; [done|lia|lia|done|lia].
Qed.

Lemma first_window w x off : 0 < w -> 0 <= x -> 0 <= off -> aligned w x -> aligned w off ->
  aligned w (x - Z.min off x) /\ 0 <= x - Z.min off x <= x /\ x - (x - Z.min off x) <= off.
Proof.
  intros Hw Hx H0 Ha Hoff. split; [|lia].
  destruct (Z.min_spec off x) as [[_ ->]|[_ ->]]; by apply aligned_sub.
Qed.

Lemma verifyMultiCmd_spec m split cmd_tick b : 0 < m -> ok m b -> 0 < split ->
  0 <= cmd_tick -> cmd_tick + 2 * commandWindow b < 2 ^ 64 -> split + 2 * commandWindow b < 2 ^ 64 ->
  exists y f cmd_at,
    verifyMultiCmd cmd_tick m split b = Ok (cmd_at, b <| burstTicks ::= cons y |> <| burstTicks ::= cons f |>) /\
    issued m (Z.max cmd_tick (horizon (burstTicks b) + commandWindow b) + commandWindow b)
      cmd_tick y cmd_at b /\
    aligned (commandWindow b) f /\ f <= y < f + split + commandWindow b /\
    within m (f :: y :: burstTicks b).
Proof.
  intros Hm Hok Hs Hc Hc64 Hs64. pose proof Hok as [Hw He Hin].
  pose proof (Z.mod_pos_bound cmd_tick _ Hw).
  pose proof (Z.mod_le cmd_tick (commandWindow b) ltac:(lia) Hw).
  destruct (aligned_window (commandWindow b) cmd_tick Hw) as [Ha ?].
  set (w := commandWindow b) in *. set (x := cmd_tick - cmd_tick mod w) in *.
  assert (0 <= split / w) by (apply Z.div_pos; lia).
  destruct (split_offset_spec w split (cmd_tick mod w) Hw ltac:(lia) Hs64
    (Z.to_nat (split / w + 2)) 0) as (off & Eoff & Hoff & Hao & _); [lia|lia|done|lia| |].
  { pose proof (Z_div_mod_eq_full split w). pose proof (Z.mod_pos_bound split w Hw).
    rewrite Z2Nat.id by lia. nia. }
  destruct (first_window w x off Hw ltac:(lia) ltac:(lia) Ha Hao) as (Haf & Hf & Hxf).
  set (f := x - Z.min off x) in *.
  destruct (find_pair_spec m split w (burstTicks b) (Z.max x (horizon (burstTicks b) + w)) Hm Hw Hs
    ltac:(lia) ltac:(lia) (2 * windows_left w x (burstTicks b) + 2 * windows_left w f (burstTicks b) + 2)%nat
    x f cmd_tick) as (y & f' & E & [P0 P1 P2 P3 P4 P5 P6]).
  { split_and!; try done; lia. }
  { unfold pair_left. destruct (Z.eqb_spec x f); lia. }
  exists y, f', (if y =? x then cmd_tick else y). split.
  { unfold verifyMultiCmd, mbind, comp_bind. rewrite (getBurstWindow_run m) by (try done; lia).
    fold w x. cbn [get lift]. fold w. unfold lift, umod. destruct (Z.eqb_spec w 0); [lia|].
    rewrite Eoff. rewrite (u64_small (x - Z.min off x)) by lia. fold f. by rewrite E. }
  assert (y mod w = 0) by done.
  assert (y = x \/ x + w <= y) as Hyx.
  { destruct (decide (y = x)); [by left|right]. apply aligned_gap; try done. lia. }
  split_and!; try done; try lia; [split; fold w; destruct (Z.eqb_spec y x); lia|].
  destruct P6 as [Pf Pb]. apply within_insert; [apply within_insert; [done|destruct (y =? f'); lia]|].
  cbn. destruct (Z.eqb_spec y f') as [Ey|]; [rewrite Ey in Pb|]; lia.
Qed.

(** C30. verifyMultiCmd terminates, and finds two windows, the first at or before
    the second and less than the split plus one window apart, that both have room
    for their command (two slots when they are the same); the second command
    issues in the second window, not before the tick asked for. *)
Theorem verifyMultiCmd_pair m split cmd_tick b : 0 < m -> ok m b -> 0 < split ->
  0 <= cmd_tick -> cmd_tick + 2 * commandWindow b < 2 ^ 64 -> split + 2 * commandWindow b < 2 ^ 64 ->
  exists y f cmd_at,
    verifyMultiCmd cmd_tick m split b = Ok (cmd_at, b <| burstTicks ::= cons y |> <| burstTicks ::= cons f |>) /\
    cmd_tick <= cmd_at /\ y = cmd_at - cmd_at mod commandWindow b /\
    aligned (commandWindow b) f /\ f <= y < f + split + commandWindow b /\
    within m (f :: y :: burstTicks b).
Proof.
  intros Hm Hok Hs Hc Hc64 Hs64. destruct (verifyMultiCmd_spec m split cmd_tick b Hm Hok Hs Hc Hc64 Hs64)
    as (y & f & cmd_at & E & [? ? ?] & ? & ? & ?). exists y, f, cmd_at. split_and!; try done; lia.
Qed.

(** Pruning forgets the windows before the current tick and no other. *)
Lemma count_prune c x l : count x (filter (fun y => y >= c) l) = if c <=? x then count x l else 0.
Proof.
  induction l as [|y l IH]; [by destruct (c <=? x)|]. rewrite filter_cons.
  destruct (decide (y >= c)); cbn [count]; rewrite IH; destruct (Z.eqb_spec y x), (Z.leb_spec c x); lia.
Qed.

(** pruneBurstTick removes exactly the windows that start before the current
    tick, so every bound on the windows in use is kept and every window a command
    can still use keeps its count. *)
Theorem pruneBurstTick_exact m c b : exists b', pruneBurstTick c b = Ok (tt, b') /\
  commandWindow b' = commandWindow b /\
  (forall x, count x (burstTicks b') = if c <=? x then count x (burstTicks b) else 0) /\
  (within m (burstTicks b) -> 0 <= m -> within m (burstTicks b')).
Proof.
  eexists. split; [reflexivity|]. split; [done|]. cbn. split; [intros x; apply count_prune|].
  intros H Hm x. rewrite count_prune. specialize (H x). destruct (c <=? x); lia.
Qed.

(** ** Witnesses: two commands per window of 4 ticks *)

Definition bus0 : t := mkBus [8; 8; 12] 4.
Lemma bus0_ok : ok 2 bus0.
Proof.
  split; [cbn; lia|cbn; lia|]. intros x. unfold bus0; cbn [burstTicks count].
  destruct (Z.eqb_spec 8 x), (Z.eqb_spec 12 x); lia.
Qed.

Lemma verifySingleCmd_first_free_witness : exists y cmd_at,
  verifySingleCmd 9 2 bus0 = Ok (cmd_at, bus0 <| burstTicks ::= cons y |>) /\ 9 <= cmd_at.
Proof.
  destruct (verifySingleCmd_first_free 2 9 bus0 ltac:(lia) bus0_ok ltac:(lia))
    as (y & cmd_at & E & H & _). exists y, cmd_at. split; [exact E|exact H].
Defined.
Example verifySingleCmd_run : verifySingleCmd 9 2 bus0 = Ok (12, mkBus [12; 8; 8; 12] 4).
Proof. reflexivity. Qed.
Example verifyMultiCmd_run : verifyMultiCmd 9 2 6 bus0 = Ok (12, mkBus [4; 12; 8; 8; 12] 4).
Proof. reflexivity. Qed.

Lemma verifyMultiCmd_pair_witness : exists y f cmd_at,
  verifyMultiCmd 9 2 6 bus0 = Ok (cmd_at, bus0 <| burstTicks ::= cons y |> <| burstTicks ::= cons f |>) /\
  f <= y < f + 6 + 4.
Proof.
  destruct (verifyMultiCmd_pair 2 6 9 bus0 ltac:(lia) bus0_ok ltac:(lia) ltac:(lia) ltac:(cbn; lia)
    ltac:(cbn; lia)) as (y & f & cmd_at & E & _ & _ & _ & H & _).
  exists y, f, cmd_at. split; [exact E|exact H].
Defined.
Lemma pruneBurstTick_exact_witness : within 2 (burstTicks bus0) /\ 0 <= 2 /\
  exists b', pruneBurstTick 9 bus0 = Ok (tt, b') /\ within 2 (burstTicks b').
Proof.
  pose proof bus0_ok as [_ _ H]. split; [exact H|]. split; [lia|].
  destruct (pruneBurstTick_exact 2 9 bus0) as (b' & E & _ & _ & Hw).
  exists b'. split; [exact E|]. apply Hw; [exact H|lia].
Defined.
End CmdBus.
