(* ===== verification/Flags.v ===== *)
(** Sets of flags ([base/flags.hh]): the bits of a word. *)
From S2P Require Import Prelude.
Open Scope Z_scope.

Module Flags.
Definition isSet (flags mask : Z) : bool := negb (Z.land flags mask =? 0).
Definition noneSet (flags mask : Z) : bool := Z.land flags mask =? 0.
Definition set (mask flags : Z) : Z := Z.lor flags mask.
Definition clear (mask flags : Z) : Z := Z.ldiff flags mask.

(** ** Changing other bits *)

Lemma land_set f m x : Z.land m x = 0 -> Z.land (set m f) x = Z.land f x.
Proof. intros H. unfold set. by rewrite Z.land_lor_distr_l, H, Z.lor_0_r. Qed.
Lemma land_clear f m x : Z.land m x = 0 -> Z.land (clear m f) x = Z.land f x.
Proof.
  intros H. unfold clear. apply Z.bits_inj'. intros i Hi. autorewrite with bits.
  assert (Z.testbit m i && Z.testbit x i = false) as E by by rewrite <- Z.land_spec, H, Z.bits_0.
  destruct (Z.testbit f i), (Z.testbit m i), (Z.testbit x i); done.
Qed.
Lemma isSet_set f m : m <> 0 -> isSet (set m f) m = true.
Proof.
  intros Hm. unfold isSet, set. rewrite Z.land_lor_distr_l, Z.land_diag. apply negb_true_iff, Z.eqb_neq.
  intros [_ ?]%Z.lor_eq_0_iff. done.
Qed.
Lemma isSet_clear f m : isSet (clear m f) m = false.
Proof.
  unfold isSet, clear. apply negb_false_iff, Z.eqb_eq. apply Z.bits_inj'. intros i Hi. autorewrite with bits.
  by destruct (Z.testbit f i), (Z.testbit m i).
Qed.
Lemma isSet_set_ne f m x : Z.land m x = 0 -> isSet (set m f) x = isSet f x.
Proof. intros H. unfold isSet. by rewrite land_set. Qed.
Lemma isSet_clear_ne f m x : Z.land m x = 0 -> isSet (clear m f) x = isSet f x.
Proof. intros H. unfold isSet. by rewrite land_clear. Qed.
End Flags.
