(* ===== verification/Packet.v ===== *)
(** The packets of the memory controller ([mem/mem_ctrl.hh]): the system packet,
    the burst helper of a split packet and the memory packet; the events of the
    simulator as the ticks they are scheduled at. *)
From S2P Require Import Prelude.

Definition MaxTick : Z := 2 ^ 64 - 1.
Definition tadd (a b : Z) : Z := u64 (a + b).
Definition tsub (a b : Z) : Z := u64 (a - b).
Lemma tadd_small a b : 0 <= a + b < 2 ^ 64 -> tadd a b = a + b.
Proof. apply u64_small. Qed.
Lemma tsub_small a b : 0 <= a - b < 2 ^ 64 -> tsub a b = a - b.
Proof. apply u64_small. Qed.

(** ** Events *)

(** [EventManager::schedule], [reschedule] and [deschedule] with the assertions of
    the event queue: an event is scheduled at most once, and not in the past. *)
Definition event := option Z.
Definition scheduled (e : event) : bool := match e with Some _ => true | None => false end.
Definition schedule (now : Z) (e : event) (when : Z) : result event :=
  if (now <=? when) && negb (scheduled e) then Ok (Some when) else Fault AssertFail.
Definition reschedule (now : Z) (e : event) (when : Z) : result event :=
  if (now <=? when) && scheduled e then Ok (Some when) else Fault AssertFail.
(** [reschedule(event, when, true)]: it need not be scheduled. *)
Definition reschedule_always (now when : Z) : result event := if now <=? when then Ok (Some when) else Fault AssertFail.
Definition deschedule (e : event) : result event :=
  if scheduled e then Ok None else Fault AssertFail.

(** ** Packets *)

(** What the controller reads and writes of a [Packet]. *)
Record Packet := mkPacket {
  pkt_read : bool;
  pkt_write : bool;
  pkt_hasData : bool;
  pkt_addr : Z;
  pkt_size : Z;
  pkt_requestorId : Z;
  pkt_qosValue : Z;
  pkt_needsResponse : bool;
  pkt_isResponse : bool;
  cacheResponding : bool;
  headerDelay : Z;
  payloadDelay : Z
}.
#[global] Instance eta_Packet : Settable Packet := fun r =>
  mkPacket (pkt_read r) (pkt_write r) (pkt_hasData r) (pkt_addr r) (pkt_size r) (pkt_requestorId r) (pkt_qosValue r)
    (pkt_needsResponse r) (pkt_isResponse r) (cacheResponding r) (headerDelay r) (payloadDelay r).

Record BurstHelper := mkHelper { burstCount : Z; burstsServiced : Z }.
#[global] Instance eta_BurstHelper : Settable BurstHelper := fun r =>
  mkHelper (burstCount r) (burstsServiced r).

(** [ptr] is the address of the object, which the code compares. *)
Record MemPacket := mkMemPacket {
  ptr : Z;
  rh_injectDelay : bool;
  rh_bubbleSize : Z;
  rh_SRAMDelay : Z;
  entryTime : Z;
  readyTime : Z;
  pkt : Packet;
  requestorId : Z;
  isRead : bool;
  isDram : bool;
  rank : Z;
  bank : Z;
  row : Z;
  bankId : Z;
  addr : Z;
  size : Z;
  burstHelper : option Z;
  qosValue : Z
}.
#[global] Instance eta_MemPacket : Settable MemPacket := fun r =>
  mkMemPacket (ptr r) (rh_injectDelay r) (rh_bubbleSize r) (rh_SRAMDelay r) (entryTime r) (readyTime r)
    (pkt r) (requestorId r) (isRead r) (isDram r) (rank r) (bank r) (row r) (bankId r) (addr r) (size r)
    (burstHelper r) (qosValue r).

(** The constructor leaves the two delays as the allocator returned them. *)
Record Alloc := mkAlloc { at_ptr : Z; raw_bubble : Z; raw_SRAM : Z }.
Definition new_MemPacket (mem : Alloc) (now : Z) (p : Packet) (is_read is_dram : bool)
    (rk bk rw bank_id pkt_addr size : Z) : MemPacket :=
  mkMemPacket (at_ptr mem) false (raw_bubble mem) (raw_SRAM mem) now now p (pkt_requestorId p)
    is_read is_dram rk bk rw bank_id pkt_addr size None (pkt_qosValue p).
