(* ===== verification/MemCmd.v ===== *)
(** The commands of packets ([mem/packet.hh], class MemCmd) and their table
    ([mem/packet.cc]). *)
From S2P Require Import Prelude.
From Stdlib Require Import String.
From stdpp Require Import strings.
Open Scope Z_scope.

Module MemCmd.

Inductive Command :=
  | InvalidCmd | ReadReq | ReadResp | ReadRespWithInvalidate | WriteReq | WriteResp | WriteCompleteResp
  | WritebackDirty | WritebackClean | WriteClean | CleanEvict | SoftPFReq | SoftPFExReq | HardPFReq
  | SoftPFResp | HardPFResp | WriteLineReq | UpgradeReq | SCUpgradeReq | UpgradeResp | SCUpgradeFailReq
  | UpgradeFailResp | ReadExReq | ReadExResp | ReadCleanReq | ReadSharedReq | LoadLockedReq | StoreCondReq
  | StoreCondFailReq | StoreCondResp | SwapReq | SwapResp | MemFenceReq | MemSyncReq | MemSyncResp
  | MemFenceResp | CleanSharedReq | CleanSharedResp | CleanInvalidReq | CleanInvalidResp | InvalidDestError
  | BadAddressError | FunctionalReadError | FunctionalWriteError | PrintReq | FlushReq | InvalidateReq
  | InvalidateResp | HTMReq | HTMReqResp | HTMAbort.
#[global] Instance Command_eq : EqDecision Command. Proof. solve_decision. Defined.

(** The values of the enumeration: two are left out before [MemFenceReq]. *)
Definition toInt (c : Command) : Z :=
  match c with
  | InvalidCmd => 0 | ReadReq => 1 | ReadResp => 2 | ReadRespWithInvalidate => 3 | WriteReq => 4
  | WriteResp => 5 | WriteCompleteResp => 6 | WritebackDirty => 7 | WritebackClean => 8 | WriteClean => 9
  | CleanEvict => 10 | SoftPFReq => 11 | SoftPFExReq => 12 | HardPFReq => 13 | SoftPFResp => 14
  | HardPFResp => 15 | WriteLineReq => 16 | UpgradeReq => 17 | SCUpgradeReq => 18 | UpgradeResp => 19
  | SCUpgradeFailReq => 20 | UpgradeFailResp => 21 | ReadExReq => 22 | ReadExResp => 23 | ReadCleanReq => 24
  | ReadSharedReq => 25 | LoadLockedReq => 26 | StoreCondReq => 27 | StoreCondFailReq => 28
  | StoreCondResp => 29 | SwapReq => 30 | SwapResp => 31 | MemFenceReq => 34 | MemSyncReq => 35
  | MemSyncResp => 36 | MemFenceResp => 37 | CleanSharedReq => 38 | CleanSharedResp => 39
  | CleanInvalidReq => 40 | CleanInvalidResp => 41 | InvalidDestError => 42 | BadAddressError => 43
  | FunctionalReadError => 44 | FunctionalWriteError => 45 | PrintReq => 46 | FlushReq => 47
  | InvalidateReq => 48 | InvalidateResp => 49 | HTMReq => 50 | HTMReqResp => 51 | HTMAbort => 52
  end.
Inductive Attribute :=
  | IsRead | IsWrite | IsUpgrade | IsInvalidate | IsClean | NeedsWritable | IsRequest | IsResponse | NeedsResponse
  | IsEviction | IsSWPrefetch | IsHWPrefetch | IsLlsc | HasData | IsError | IsPrint | IsFlush | FromCache.
#[global] Instance Attribute_eq : EqDecision Attribute. Proof. solve_decision. Defined.
Record CommandInfo := mkInfo { attributes : list Attribute; response : Command; str : string }.

Definition commandInfo : list CommandInfo := [
  mkInfo [] InvalidCmd "InvalidCmd";
  mkInfo [IsRead; IsRequest; NeedsResponse] ReadResp "ReadReq";
  mkInfo [IsRead; IsResponse; HasData] InvalidCmd "ReadResp";
  mkInfo [IsRead; IsResponse; HasData; IsInvalidate] InvalidCmd "ReadRespWithInvalidate";
  mkInfo [IsWrite; NeedsWritable; IsRequest; NeedsResponse; HasData] WriteResp "WriteReq";
  mkInfo [IsWrite; IsResponse] InvalidCmd "WriteResp";
  mkInfo [IsWrite; IsResponse] InvalidCmd "WriteCompleteResp";
  mkInfo [IsWrite; IsRequest; IsEviction; HasData; FromCache] InvalidCmd "WritebackDirty";
  mkInfo [IsWrite; IsRequest; IsEviction; HasData; FromCache] InvalidCmd "WritebackClean";
  mkInfo [IsWrite; IsRequest; HasData; FromCache] InvalidCmd "WriteClean";
  mkInfo [IsRequest; IsEviction; FromCache] InvalidCmd "CleanEvict";
  mkInfo [IsRead; IsRequest; IsSWPrefetch; NeedsResponse] SoftPFResp "SoftPFReq";
  mkInfo [IsRead; NeedsWritable; IsInvalidate; IsRequest; IsSWPrefetch; NeedsResponse] SoftPFResp "SoftPFExReq";
  mkInfo [IsRead; IsRequest; IsHWPrefetch; NeedsResponse; FromCache] HardPFResp "HardPFReq";
  mkInfo [IsRead; IsResponse; IsSWPrefetch; HasData] InvalidCmd "SoftPFResp";
  mkInfo [IsRead; IsResponse; IsHWPrefetch; HasData] InvalidCmd "HardPFResp";
  mkInfo [IsWrite; NeedsWritable; IsRequest; NeedsResponse; HasData] WriteResp "WriteLineReq";
  mkInfo [IsInvalidate; NeedsWritable; IsUpgrade; IsRequest; NeedsResponse; FromCache] UpgradeResp "UpgradeReq";
  mkInfo [IsInvalidate; NeedsWritable; IsUpgrade; IsLlsc; IsRequest; NeedsResponse; FromCache] UpgradeResp "SCUpgradeReq";
  mkInfo [IsUpgrade; IsResponse] InvalidCmd "UpgradeResp";
  mkInfo [IsRead; NeedsWritable; IsInvalidate; IsLlsc; IsRequest; NeedsResponse; FromCache] UpgradeFailResp "SCUpgradeFailReq";
  mkInfo [IsRead; IsResponse; HasData] InvalidCmd "UpgradeFailResp";
  mkInfo [IsRead; NeedsWritable; IsInvalidate; IsRequest; NeedsResponse; FromCache] ReadExResp "ReadExReq";
  mkInfo [IsRead; IsResponse; HasData] InvalidCmd "ReadExResp";
  mkInfo [IsRead; IsRequest; NeedsResponse; FromCache] ReadResp "ReadCleanReq";
  mkInfo [IsRead; IsRequest; NeedsResponse; FromCache] ReadResp "ReadSharedReq";
  mkInfo [IsRead; IsLlsc; IsRequest; NeedsResponse] ReadResp "LoadLockedReq";
  mkInfo [IsWrite; NeedsWritable; IsLlsc; IsRequest; NeedsResponse; HasData] StoreCondResp "StoreCondReq";
  mkInfo [IsWrite; NeedsWritable; IsLlsc; IsRequest; NeedsResponse; HasData] StoreCondResp "StoreCondFailReq";
  mkInfo [IsWrite; IsLlsc; IsResponse] InvalidCmd "StoreCondResp";
  mkInfo [IsRead; IsWrite; NeedsWritable; IsRequest; HasData; NeedsResponse] SwapResp "SwapReq";
  mkInfo [IsRead; IsWrite; IsResponse; HasData] InvalidCmd "SwapResp";
  mkInfo [] InvalidCmd "Deprecated_MessageReq";
  mkInfo [] InvalidCmd "Deprecated_MessageResp";
  mkInfo [IsRequest; NeedsResponse] MemFenceResp "MemFenceReq";
  mkInfo [IsRequest; NeedsResponse] MemSyncResp "MemSyncReq";
  mkInfo [IsResponse] InvalidCmd "MemSyncResp";
  mkInfo [IsResponse] InvalidCmd "MemFenceResp";
  mkInfo [IsRequest; IsClean; NeedsResponse; FromCache] CleanSharedResp "CleanSharedReq";
  mkInfo [IsResponse; IsClean] InvalidCmd "CleanSharedResp";
  mkInfo [IsRequest; IsInvalidate; IsClean; NeedsResponse; FromCache] CleanInvalidResp "CleanInvalidReq";
  mkInfo [IsResponse; IsInvalidate; IsClean] InvalidCmd "CleanInvalidResp";
  mkInfo [IsResponse; IsError] InvalidCmd "InvalidDestError";
  mkInfo [IsResponse; IsError] InvalidCmd "BadAddressError";
  mkInfo [IsRead; IsResponse; IsError] InvalidCmd "FunctionalReadError";
  mkInfo [IsWrite; IsResponse; IsError] InvalidCmd "FunctionalWriteError";
  mkInfo [IsRequest; IsPrint] InvalidCmd "PrintReq";
  mkInfo [IsRequest; IsFlush; NeedsWritable] InvalidCmd "FlushReq";
  mkInfo [IsInvalidate; IsRequest; NeedsWritable; NeedsResponse; FromCache] InvalidateResp "InvalidateReq";
  mkInfo [IsInvalidate; IsResponse] InvalidCmd "InvalidateResp";
  mkInfo [IsRead; IsRequest; NeedsResponse] HTMReqResp "HTMReq";
  mkInfo [IsRead; IsResponse] InvalidCmd "HTMReqResp";
  mkInfo [IsRead; IsRequest] InvalidCmd "HTMAbort"].

(** Every index is in the table ([name_of_entry]). *)
Definition info (c : Command) : CommandInfo := nth (Z.to_nat (toInt c)) commandInfo (mkInfo [] InvalidCmd "").
Definition testCmdAttrib (c : Command) (a : Attribute) : bool := bool_decide (a ∈ attributes (info c)).
Definition isRead (c : Command) : bool := testCmdAttrib c IsRead.
Definition isWrite (c : Command) : bool := testCmdAttrib c IsWrite.
Definition isUpgrade (c : Command) : bool := testCmdAttrib c IsUpgrade.
Definition isRequest (c : Command) : bool := testCmdAttrib c IsRequest.
Definition isResponse (c : Command) : bool := testCmdAttrib c IsResponse.
Definition needsWritable (c : Command) : bool := testCmdAttrib c NeedsWritable.
Definition needsResponse (c : Command) : bool := testCmdAttrib c NeedsResponse.
Definition isInvalidate (c : Command) : bool := testCmdAttrib c IsInvalidate.
Definition isEviction (c : Command) : bool := testCmdAttrib c IsEviction.
Definition isClean (c : Command) : bool := testCmdAttrib c IsClean.
Definition fromCache (c : Command) : bool := testCmdAttrib c FromCache.
Definition isWriteback (c : Command) : bool := testCmdAttrib c IsEviction && testCmdAttrib c HasData.
Definition hasData (c : Command) : bool := testCmdAttrib c HasData.
Definition isLLSC (c : Command) : bool := testCmdAttrib c IsLlsc.
Definition isPrefetch (c : Command) : bool := testCmdAttrib c IsSWPrefetch || testCmdAttrib c IsHWPrefetch.
Definition isError (c : Command) : bool := testCmdAttrib c IsError.
Definition isPrint (c : Command) : bool := testCmdAttrib c IsPrint.
Definition isFlush (c : Command) : bool := testCmdAttrib c IsFlush.
Definition responseCommand (c : Command) : Command := response (info c).
Definition toString (c : Command) : string := str (info c).

(** ** The table *)

(** The identifier of each enumerator. *)
Definition name (c : Command) : string :=
  match c with
  | InvalidCmd => "InvalidCmd" | ReadReq => "ReadReq" | ReadResp => "ReadResp"
  | ReadRespWithInvalidate => "ReadRespWithInvalidate" | WriteReq => "WriteReq" | WriteResp => "WriteResp"
  | WriteCompleteResp => "WriteCompleteResp" | WritebackDirty => "WritebackDirty"
  | WritebackClean => "WritebackClean" | WriteClean => "WriteClean" | CleanEvict => "CleanEvict"
  | SoftPFReq => "SoftPFReq" | SoftPFExReq => "SoftPFExReq" | HardPFReq => "HardPFReq"
  | SoftPFResp => "SoftPFResp" | HardPFResp => "HardPFResp" | WriteLineReq => "WriteLineReq"
  | UpgradeReq => "UpgradeReq" | SCUpgradeReq => "SCUpgradeReq" | UpgradeResp => "UpgradeResp"
  | SCUpgradeFailReq => "SCUpgradeFailReq" | UpgradeFailResp => "UpgradeFailResp" | ReadExReq => "ReadExReq"
  | ReadExResp => "ReadExResp" | ReadCleanReq => "ReadCleanReq" | ReadSharedReq => "ReadSharedReq"
  | LoadLockedReq => "LoadLockedReq" | StoreCondReq => "StoreCondReq"
  | StoreCondFailReq => "StoreCondFailReq" | StoreCondResp => "StoreCondResp" | SwapReq => "SwapReq"
  | SwapResp => "SwapResp" | MemFenceReq => "MemFenceReq" | MemSyncReq => "MemSyncReq"
  | MemSyncResp => "MemSyncResp" | MemFenceResp => "MemFenceResp" | CleanSharedReq => "CleanSharedReq"
  | CleanSharedResp => "CleanSharedResp" | CleanInvalidReq => "CleanInvalidReq"
  | CleanInvalidResp => "CleanInvalidResp" | InvalidDestError => "InvalidDestError"
  | BadAddressError => "BadAddressError" | FunctionalReadError => "FunctionalReadError"
  | FunctionalWriteError => "FunctionalWriteError" | PrintReq => "PrintReq" | FlushReq => "FlushReq"
  | InvalidateReq => "InvalidateReq" | InvalidateResp => "InvalidateResp" | HTMReq => "HTMReq"
  | HTMReqResp => "HTMReqResp" | HTMAbort => "HTMAbort"
  end.

(** The enumeration and the table are two lists kept in step by hand. *)
Lemma name_of_entry c : toString c = name c.
Proof. by destruct c. Qed.
Lemma request_or_response c : c <> InvalidCmd -> isRequest c = negb (isResponse c).
Proof. by destruct c. Qed.
Lemma response_needed c : needsResponse c = true ->
  isRequest c = true /\ isResponse (responseCommand c) = true /\ needsResponse (responseCommand c) = false.
Proof. by destruct c. Qed.
Lemma response_direction c : needsResponse c = true ->
  implb (isRead c) (isRead (responseCommand c)) = true /\ implb (isWrite c) (isWrite (responseCommand c)) = true.
Proof. by destruct c. Qed.
Lemma no_response c : needsResponse c = false -> responseCommand c = InvalidCmd.
Proof. by destruct c. Qed.
Lemma request_with_response c : needsResponse c = true -> responseCommand c <> InvalidCmd.
Proof. by destruct c. Qed.
End MemCmd.
