(* ===== verification/Request.v ===== *)
(** Memory requests ([mem/request.hh]): what packets and the memory read of them. *)
From S2P Require Import Prelude Flags.
Open Scope Z_scope.

Module Request.
Import Flags.
Definition INST_FETCH : Z := 2 ^ 8.
Definition LLSC : Z := 2 ^ 21.
Definition MEM_SWAP : Z := 2 ^ 22.
Definition MEM_SWAP_COND : Z := 2 ^ 23.
Definition PREFETCH : Z := 2 ^ 24.
Definition PF_EXCLUSIVE : Z := 2 ^ 25.
Definition SECURE : Z := 2 ^ 28.
Definition ATOMIC_RETURN_OP : Z := 2 ^ 30.
Definition ATOMIC_NO_RETURN_OP : Z := 2 ^ 31.
Definition INVALIDATE : Z := 2 ^ 32.
Definition CLEAN : Z := 2 ^ 33.
Definition HTM_START : Z := 2 ^ 40.
Definition HTM_COMMIT : Z := 2 ^ 41.
Definition HTM_CANCEL : Z := 2 ^ 42.
Definition HTM_ABORT : Z := 2 ^ 43.

(** A member with a validity bit is an option.  [atomicOp] is what the functor of an atomic
    operation does to the bytes at the address; the byte mask is empty when all are
    enabled.  [ptr] is the address of the object, which the shared pointers compare. *)
Record t := mkRequest {
  paddr : option Z; req_size : option Z; rflags : Z; reqId : Z; ctxId : option Z; extraData : option Z;
  byteEnable : list bool; atomicOp : list Z -> list Z; ptr : Z }.
#[global] Instance eta_t : Settable t := fun r =>
  mkRequest (paddr r) (req_size r) (rflags r) (reqId r) (ctxId r) (extraData r) (byteEnable r) (atomicOp r) (ptr r).
Definition valid {A} (x : option A) : result A := match x with Some a => Ok a | None => Fault AssertFail end.
Definition hasPaddr (r : t) : bool := if paddr r is Some _ then true else false.
Definition getPaddr (r : t) : result Z := valid (paddr r).
Definition hasContextId (r : t) : bool := if ctxId r is Some _ then true else false.
Definition contextId (r : t) : result Z := valid (ctxId r).
Definition getExtraData (r : t) : result Z := valid (extraData r).
Definition setExtraData (x : Z) (r : t) : t := r <| extraData := Some x |>.
Definition isMasked (r : t) : bool := existsb negb (byteEnable r).
Definition isInstFetch (r : t) : bool := isSet (rflags r) INST_FETCH.
Definition isLLSC (r : t) : bool := isSet (rflags r) LLSC.
Definition isSwap (r : t) : bool := isSet (rflags r) (Z.lor MEM_SWAP MEM_SWAP_COND).
Definition isCondSwap (r : t) : bool := isSet (rflags r) MEM_SWAP_COND.
Definition isPrefetch (r : t) : bool := isSet (rflags r) PREFETCH || isSet (rflags r) PF_EXCLUSIVE.
Definition isPrefetchEx (r : t) : bool := isSet (rflags r) PF_EXCLUSIVE.
Definition isSecure (r : t) : bool := isSet (rflags r) SECURE.
Definition isAtomic (r : t) : bool := isSet (rflags r) ATOMIC_RETURN_OP || isSet (rflags r) ATOMIC_NO_RETURN_OP.
Definition isHTMAbort (r : t) : bool := isSet (rflags r) HTM_ABORT.
Definition isHTMCmd (r : t) : bool :=
  isSet (rflags r) HTM_START || isSet (rflags r) HTM_COMMIT || isSet (rflags r) HTM_CANCEL || isHTMAbort r.
Definition isCacheClean (r : t) : bool := isSet (rflags r) CLEAN.
Definition isCacheInvalidate (r : t) : bool := isSet (rflags r) INVALIDATE.
End Request.
