(* ===== verification/PacketData.v ===== *)
(** Packets with their payload ([mem/packet.{hh,cc}]): the
    predicates of the command and of the flags, the copies between a packet and a buffer,
    and the functional access against another packet. *)
From S2P Require Import Prelude Flags MemCmd Request.
Open Scope Z_scope.

(** ** Buffers *)

(** [memcpy] between buffers that do not overlap: [n] bytes from [src + j] to [dst + i]. *)
Definition copy {A} (dst : list A) (i : Z) (src : list A) (j n : Z) : result (list A) :=
  if (0 <=? i) && (0 <=? j) && (0 <=? n) && (i + n <=? zlen dst) && (j + n <=? zlen src)
  then Ok (take (Z.to_nat i) dst ++ take (Z.to_nat n) (drop (Z.to_nat j) src) ++ drop (Z.to_nat (i + n)) dst)
  else Fault OutOfBounds.
(** The bytes whose bit is set. *)
Fixpoint copy_enabled (dst : list Z) (i : Z) (src : list Z) (j : Z) (be : list bool) : result (list Z) :=
  match be with
  | [] => Ok dst
  | b :: be' =>
      dst ← (if b : bool then x ← aread src j; awrite dst i x else Ok dst);
      copy_enabled dst (i + 1) src (j + 1) be'
  end.

(** ** Packets *)

Module Pkt.
Import Flags MemCmd.
Definition HAS_SHARERS : Z := 1.
Definition EXPRESS_SNOOP : Z := 2.
Definition RESPONDER_HAD_WRITABLE : Z := 4.
Definition CACHE_RESPONDING : Z := 8.
Definition RESPONDER_FLAGS : Z := 9.
Definition VALID_ADDR : Z := 256.
Definition VALID_SIZE : Z := 512.
Definition STATIC_DATA : Z := 4096.
Definition DYNAMIC_DATA : Z := 8192.
Definition DATA : Z := Z.lor STATIC_DATA DYNAMIC_DATA.

(** [data] is the buffer of the packet, which no other buffer overlaps. *)
Record t := mkPkt {
  cmd : Command; flags : Z; req : Request.t; data : list Z; addr : Z; secure : bool; size : Z; bytesValid : list bool;
  qosValue : Z; headerDelay : Z; payloadDelay : Z }.
#[global] Instance eta_t : Settable t := fun r =>
  mkPkt (cmd r) (flags r) (req r) (data r) (addr r) (secure r) (size r) (bytesValid r) (qosValue r) (headerDelay r) (payloadDelay r).

Definition check (b : bool) : result unit := if b then Ok tt else Fault AssertFail.
(** The first constructor; the second one, for a block of [blkSize] bytes. *)
Definition create (r : Request.t) (c : Command) : result t :=
  let p := mkPkt c 0 r [] 0 false 0 [] 0 0 0 in
  let p := match Request.paddr r with
           | Some a => p <| addr := a |> <| flags ::= set VALID_ADDR |> <| secure := Request.isSecure r |>
           | None => p end in
  p ← (if Request.isHTMCmd r then check (addr p =? 0);; Ok (p <| flags ::= set VALID_ADDR |>) else Ok p);
  Ok (match Request.req_size r with Some n => p <| size := n |> <| flags ::= set VALID_SIZE |> | None => p end).
Definition create_block (r : Request.t) (c : Command) (blkSize : Z) : t :=
  let p := mkPkt c (set VALID_SIZE 0) r [] 0 false blkSize [] 0 0 0 in
  match Request.paddr r with
  | Some a => p <| addr := Z.ldiff a (blkSize - 1) |> <| flags ::= set VALID_ADDR |> <| secure := Request.isSecure r |>
  | None => p end.

Definition getAddr (p : t) : result Z := check (isSet (flags p) VALID_ADDR);; Ok (addr p).
Definition getSize (p : t) : result Z := check (isSet (flags p) VALID_SIZE);; Ok (size p).
Definition isSecure (p : t) : result bool := check (isSet (flags p) VALID_ADDR);; Ok (secure p).
Definition getOffset (p : t) (blk_size : Z) : result Z := a ← getAddr p; Ok (Z.land a (blk_size - 1)).
Definition getBlockAddr (p : t) (blk_size : Z) : result Z := a ← getAddr p; Ok (Z.ldiff a (blk_size - 1)).
Definition matchAddr (p q : t) : result bool :=
  a ← getAddr q; s ← isSecure q; b ← getAddr p;
  if b =? a then r ← isSecure p; Ok (Bool.eqb r s) else Ok false.
Definition matchBlockAddr (p q : t) (blk_size : Z) : result bool :=
  a ← getBlockAddr q blk_size; s ← isSecure q; b ← getBlockAddr p blk_size;
  if b =? a then r ← isSecure p; Ok (Bool.eqb r s) else Ok false.
Definition isMaskedWrite (p : t) : bool := bool_decide (cmd p = WriteReq) && Request.isMasked (req p).
Definition isExpressSnoop (p : t) : bool := isSet (flags p) EXPRESS_SNOOP.
Definition cacheResponding (p : t) : bool := isSet (flags p) CACHE_RESPONDING.
Definition isWholeLineWrite (p : t) (blk_size : Z) : result bool :=
  if bool_decide (cmd p = WriteReq) || bool_decide (cmd p = WriteLineReq)
  then o ← getOffset p blk_size; if o =? 0 then n ← getSize p; Ok (n =? blk_size) else Ok false
  else Ok false.
Definition mustCheckAbove (p : t) : bool := bool_decide (cmd p = HardPFReq) || isEviction (cmd p).
Definition isCleanEviction (p : t) : bool := bool_decide (cmd p = CleanEvict) || bool_decide (cmd p = WritebackClean).
Definition hasRespData (p : t) : bool := hasData (responseCommand (cmd p)).

Definition setCacheResponding (p : t) : result t :=
  check (isRequest (cmd p));; check (negb (isSet (flags p) CACHE_RESPONDING));; Ok (p <| flags ::= set CACHE_RESPONDING |>).
Definition copyResponderFlags (p q : t) : result t :=
  check (isRequest (cmd p));; check (negb (cacheResponding q) || negb (cacheResponding p));;
  Ok (p <| flags ::= set (Z.land (flags q) RESPONDER_FLAGS) |>).
Definition makeResponse (p : t) : result t :=
  check (needsResponse (cmd p));; check (isRequest (cmd p));;
  Ok (p <| cmd ::= responseCommand |> <| flags ::= clear EXPRESS_SNOOP |>).
Definition setFunctionalResponseStatus (success : bool) (p : t) : t :=
  if success then p else p <| cmd := if isWrite (cmd p) then FunctionalWriteError else FunctionalReadError |>.
Definition convertScToWrite (p : t) : result t :=
  check (isLLSC (cmd p));; check (isWrite (cmd p));; Ok (p <| cmd := WriteReq |>).
Definition convertLlToRead (p : t) : result t :=
  check (isLLSC (cmd p));; check (isRead (cmd p));; Ok (p <| cmd := ReadReq |>).
Definition setSize (n : Z) (p : t) : result t :=
  check (negb (isSet (flags p) VALID_SIZE));; Ok (p <| size := n |> <| flags ::= set VALID_SIZE |>).
(** What whoever receives a packet does with the delays of its header and payload, 32 bits
    each: it pays their sum and clears them. *)
Definition receive (p : t) : Z * t := (u32 (headerDelay p + payloadDelay p), p <| headerDelay := 0 |> <| payloadDelay := 0 |>).
Definition makeReadCmd (r : Request.t) : Command :=
  if Request.isHTMCmd r then (if Request.isHTMAbort r then HTMAbort else HTMReq)
  else if Request.isLLSC r then LoadLockedReq
  else if Request.isPrefetchEx r then SoftPFExReq
  else if Request.isPrefetch r then SoftPFReq
  else ReadReq.
Definition makeWriteCmd (r : Request.t) : Command :=
  if Request.isLLSC r then StoreCondReq
  else if Request.isSwap r || Request.isAtomic r then SwapReq
  else if Request.isCacheInvalidate r then (if Request.isCacheClean r then CleanInvalidReq else InvalidateReq)
  else if Request.isCacheClean r then CleanSharedReq
  else WriteReq.

(** ** Payload *)

(** The buffer starts with what the allocator returned. *)
Definition allocate (raw : list Z) (p : t) : result t :=
  if hasData (cmd p) || hasRespData p
  then check (noneSet (flags p) DATA);; Ok (p <| flags ::= set DYNAMIC_DATA |> <| data := raw |>)
  else Ok p.
Definition getPtr (p : t) : result (list Z) :=
  check (isSet (flags p) DATA);; check (negb (isMaskedWrite p));; Ok (data p).
Definition getConstPtr (p : t) : result (list Z) := check (isSet (flags p) DATA);; Ok (data p).
(** From [m] at [off] to the packet, and back. *)
Definition setData (m : list Z) (off : Z) (p : t) : result t :=
  d ← getPtr p; n ← getSize p; d' ← copy d 0 m off n; Ok (p <| data := d' |>).
Definition writeData (p : t) (m : list Z) (off : Z) : result (list Z) :=
  if negb (isMaskedWrite p) then d ← getConstPtr p; n ← getSize p; copy m off d 0 n
  else n ← getSize p; check (zlen (Request.byteEnable (req p)) =? n);;
       d ← getConstPtr p; copy_enabled m off d 0 (Request.byteEnable (req p)).

(** ** Functional access *)

Definition all_set (bv : list bool) (lo hi : Z) : bool :=
  forallb (fun i => default false (bv !! i)) (seqZ lo (hi - lo)).
(** [p] against the buffer [_data], if any, of [size] bytes at [addr]; the answer, the packet
    and the buffer.  What a print request prints is left out. *)
Definition satisfy (p : t) (a : Z) (is_secure : bool) (n : Z) (_data : option (list Z)) : result (bool * t * option (list Z)) :=
  func_start ← getAddr p; func_size ← getSize p;
  let func_end := u64 (func_start + func_size - 1) in
  let val_start := a in
  let val_end := u64 (val_start + n - 1) in
  if negb (Bool.eqb is_secure (secure p)) || (val_end <? func_start) || (func_end <? val_start)
  then Ok (false, p, _data)
  else if isPrint (cmd p) then check (if _data is Some _ then false else true);; Ok (false, p, _data)
  else match _data with
  | None => Ok (false, p, _data)
  | Some d =>
      let val_offset := if val_start <? func_start then func_start - val_start else 0 in
      let func_offset := if func_start <? val_start then val_start - func_start else 0 in
      let overlap_size := Z.min val_end func_end + 1 - Z.max val_start func_start in
      if isRead (cmd p) then
        buf ← getPtr p;
        buf' ← copy buf func_offset d val_offset overlap_size;
        let bv := if bytesValid p is [] then calloc func_size false else bytesValid p in
        let below := all_set bv 0 func_offset in
        bv' ← copy bv func_offset (calloc overlap_size true) 0 overlap_size;
        Ok (below && all_set bv' (func_offset + overlap_size) func_size, p <| data := buf' |> <| bytesValid := bv' |>, _data)
      else if isWrite (cmd p) then
        buf ← getConstPtr p;
        d' ← copy d val_offset buf func_offset overlap_size;
        Ok (false, p, Some d')
      else Fault Panic
  end.
(** Against another packet. *)
Definition trySatisfyFunctional (p other : t) : result (bool * t * t) :=
  if isMaskedWrite other then Ok (false, p, other)
  else
    a ← getAddr other; s ← isSecure other; n ← getSize other;
    d ← (if hasData (cmd other) then b ← getPtr other; Ok (Some b) else Ok None);
    '(found, p', d') ← satisfy p a s n d;
    Ok (found, p', match d' with Some b => other <| data := b |> | None => other end).
End Pkt.

(** ** What the copies do *)

Module Payload.
Section Copies.
Context {A : Type}.
Implicit Types (dst src : list A).

Lemma zlen_app (l k : list A) : zlen (l ++ k) = zlen l + zlen k.
Proof. unfold zlen. rewrite length_app. lia. Qed.
Lemma zlen_take (l : list A) n : 0 <= n <= zlen l -> zlen (take (Z.to_nat n) l) = n.
Proof. unfold zlen. rewrite length_take. lia. Qed.
Lemma zlen_drop (l : list A) n : 0 <= n <= zlen l -> zlen (drop (Z.to_nat n) l) = zlen l - n.
Proof. unfold zlen. rewrite length_drop. lia. Qed.
Lemma zlookup_app (l k : list A) (i : Z) : (l ++ k) !! i = if i <? zlen l then l !! i else k !! (i - zlen l).
Proof.
  unfold lookup, zlist_lookup. destruct (Z.ltb_spec i 0); [destruct (Z.ltb_spec i (zlen l)); [done|]|].
  - pose proof (zlen_nonneg l). lia.
  - destruct (Z.ltb_spec i (zlen l)) as [H1|H1]; unfold zlen in *.
    + apply lookup_app_l. lia.
    + rewrite lookup_app_r by lia. destruct (Z.ltb_spec (i - Z.of_nat (length l)) 0); [lia|]. f_equal. lia.
Qed.
Lemma zlookup_neg (l : list A) (i : Z) : i < 0 -> l !! i = None.
Proof. unfold lookup, zlist_lookup. intros H. by destruct (Z.ltb_spec i 0); [|lia]. Qed.
Lemma zlookup_take (l : list A) (n i : Z) : i < n -> take (Z.to_nat n) l !! i = l !! i.
Proof. unfold lookup, zlist_lookup. intros H. destruct (Z.ltb_spec i 0); [done|]. apply lookup_take_lt. lia. Qed.
Lemma zlookup_drop (l : list A) (n i : Z) : 0 <= n -> 0 <= i -> drop (Z.to_nat n) l !! i = l !! (n + i).
Proof.
  unfold lookup, zlist_lookup. intros Hn Hi. destruct (Z.ltb_spec i 0), (Z.ltb_spec (n + i) 0); try lia.
  rewrite lookup_drop. f_equal. lia.
Qed.

Definition inside (dst : list A) (i : Z) (src : list A) (j n : Z) : Prop :=
  0 <= i /\ 0 <= j /\ 0 <= n /\ i + n <= zlen dst /\ j + n <= zlen src.
Lemma copy_spec dst i src j n : inside dst i src j n -> exists r, copy dst i src j n = Ok r /\ zlen r = zlen dst /\
  forall k, r !! k = if (i <=? k) && (k <? i + n) then src !! (j + (k - i)) else dst !! k.
Proof.
  intros (Hi & Hj & Hn & Hd & Hs). unfold copy.
  repeat (match goal with |- context [?a <=? ?b] => rewrite (proj2 (Z.leb_le a b)) by lia end; cbn [andb]).
  eexists. split; [done|].
  assert (zlen (take (Z.to_nat n) (drop (Z.to_nat j) src)) = n) as Hm by (apply zlen_take; rewrite zlen_drop; lia).
  split; [rewrite !zlen_app, Hm, zlen_take, zlen_drop by lia; lia|]. intros k.
  rewrite !zlookup_app, Hm, zlen_take by lia. destruct (Z.ltb_spec k i), (Z.leb_spec i k); try lia; cbn [andb].
  - by rewrite zlookup_take by lia.
  - destruct (Z.ltb_spec (k - i) n), (Z.ltb_spec k (i + n)); try lia.
    + rewrite zlookup_take, zlookup_drop by lia. done.
    + rewrite zlookup_drop by lia. f_equal. lia.
Qed.
End Copies.

Lemma copy_enabled_spec be : forall dst i src j, inside dst i src j (zlen be) -> exists r, copy_enabled dst i src j be = Ok r /\
  zlen r = zlen dst /\
  forall k, r !! k = if bool_decide (be !! (k - i) = Some true) then src !! (j + (k - i)) else dst !! k.
Proof.
  induction be as [|b be IH]; intros dst i src j (Hi & Hj & _ & Hd & Hs); cbn [copy_enabled].
  { exists dst. split; [done|]. split; [done|]. intros k. by rewrite zlookup_nil, bool_decide_false. }
  assert (zlen (b :: be) = zlen be + 1) as El by (unfold zlen; cbn; lia). pose proof (zlen_nonneg be).
  destruct (zlookup_is_Some src j ltac:(lia)) as [x Hx].
  assert (exists d, (if b then x ← aread src j; awrite dst i x else Ok dst) = Ok d /\ zlen d = zlen dst /\
    forall k, d !! k = if b && (k =? i) then src !! j else dst !! k) as (d & -> & Hl & Hk).
  { destruct b; [|by exists dst]. unfold aread. rewrite Hx. cbn. unfold awrite.
    destruct (Z.leb_spec 0 i), (Z.ltb_spec i (zlen dst)); try lia. cbn [andb]. exists (<[i := x]> dst).
    split; [done|]. split; [apply zlen_insert|]. intros k. destruct (Z.eqb_spec k i) as [->|].
    - rewrite zlookup_insert_eq by lia. done.
    - by rewrite zlookup_insert_ne. }
  cbn [mbind result_bind]. destruct (IH d (i + 1) src (j + 1)) as (r & -> & Hr & Hrk); [repeat split; lia|].
  exists r. split; [done|]. split; [lia|]. intros k. rewrite Hrk, Hk.
  destruct (Z.eqb_spec k i) as [->|Hne].
  - rewrite Z.sub_diag, zlookup_cons_0. replace (i - (i + 1)) with (-1) by lia. rewrite bool_decide_false by done.
    replace (j + 0) with j by lia. by destruct b; [rewrite bool_decide_true|rewrite bool_decide_false].
  - rewrite andb_false_r. replace (k - i) with (k - (i + 1) + 1) by lia. destruct (Z.ltb_spec (k - (i + 1)) 0).
    + rewrite !bool_decide_false; [done|by rewrite zlookup_neg by lia..].
    + rewrite zlookup_cons_succ by lia. case_bool_decide; [f_equal; lia|done].
Qed.
End Payload.
