(* ===== verification/PacketQueue.v ===== *)
(** The queue of outgoing packets of a port ([mem/packet_queue.{hh,cc}], [mem/qport.hh]):
    packets wait for their tick, in order of tick or, per address, of arrival; one is sent
    per event, and a refused one waits for the peer to call back. *)
From S2P Require Import Prelude Flags Packet MemCmd Request PacketData.
Open Scope Z_scope.

Module PacketQueue.

(** A [DeferredPacket]. *)
Definition deferred : Type := Z * Pkt.t.
(** [sent] records what the peer accepted, with the tick; [drained] the calls of
    [signalDrainDone]. *)
Record t := mkQueue {
  transmitList : list deferred; sendEvent : event; waitingOnRetry : bool; _disableSanityCheck : bool;
  draining : bool; sent : list (Z * deferred); drained : Z }.
#[global] Instance eta_t : Settable t := fun r =>
  mkQueue (transmitList r) (sendEvent r) (waitingOnRetry r) (_disableSanityCheck r) (draining r) (sent r) (drained r).
Definition create (disable_sanity_check : bool) : t := mkQueue [] None false disable_sanity_check false [] 0.
Definition disableSanityCheck (s : t) : t := s <| _disableSanityCheck := true |>.

Definition deferredPacketReady (now : Z) (s : t) : bool :=
  match transmitList s with [] => false | (tick, _) :: _ => tick <=? now end.
Definition deferredPacketReadyTime (s : t) : Z :=
  match transmitList s with [] => MaxTick | (tick, _) :: _ => tick end.

Fixpoint checkConflict (p : Pkt.t) (blk_size : Z) (l : list deferred) : result bool :=
  match l with
  | [] => Ok false
  | (_, q) :: l' => m ← Pkt.matchBlockAddr q p blk_size; if m : bool then Ok true else checkConflict p blk_size l'
  end.
(** The packets up to the one that completes a functional read. *)
Fixpoint try_list (p : Pkt.t) (l : list deferred) : result (bool * Pkt.t * list deferred) :=
  match l with
  | [] => Ok (false, p, [])
  | (tick, q) :: l' =>
      '(found, p, q) ← Pkt.trySatisfyFunctional p q;
      if found : bool then Ok (true, p, (tick, q) :: l')
      else '(found, p, l'') ← try_list p l'; Ok (found, p, (tick, q) :: l'')
  end.
Definition trySatisfyFunctional (p : Pkt.t) : comp t (bool * Pkt.t) :=
  s ← get; '(found, p, l) ← lift (try_list p (transmitList s));
  modify (fun s => s <| transmitList := l |>);; mret (found, p).

Section Code.
(** The member [forceOrder], and the current tick. *)
Context (forceOrder : bool).

(** The scan from the end, on the list reversed; [None]: no packet to insert after. *)
Fixpoint insert_after (when : Z) (p : Pkt.t) (l : list deferred) : result (option (list deferred)) :=
  match l with
  | [] => Ok None
  | (tick, q) :: l' =>
      m ← (if forceOrder then Pkt.matchAddr q p else Ok false);
      if (m : bool) || (tick <=? when) then Ok (Some ((when, p) :: l))
      else o ← insert_after when p l'; Ok (match o with Some l'' => Some ((tick, q) :: l'') | None => None end)
  end.

Definition schedSendEvent (now when : Z) : comp t unit :=
  s ← get;
  if waitingOnRetry s then assert_ (negb (scheduled (sendEvent s)))
  else if negb (when =? MaxTick) then
    let when := Z.max when (now + 1) in
    match sendEvent s with
    | None => e ← lift (schedule now None when); modify (fun s => s <| sendEvent := e |>)
    | Some w =>
        if when <? w then e ← lift (reschedule now (Some w) when); modify (fun s => s <| sendEvent := e |>) else mret tt
    end
  else when_ (draining s && bool_decide (transmitList s = []) && negb (scheduled (sendEvent s)))
         (modify (fun s => s <| draining := false |> <| drained ::= fun n => n + 1 |>)).
Definition schedSendTiming (now : Z) (p : Pkt.t) (when : Z) : comp t unit :=
  assert_ (now <=? when);; assert_ (negb (Pkt.isExpressSnoop p));;
  s ← get;
  (if negb (_disableSanityCheck s) && (128 <? zlen (transmitList s)) then lift (Fault Panic) else mret tt);;
  o ← lift (insert_after when p (rev (transmitList s)));
  match o with
  | Some l => modify (fun s => s <| transmitList := rev l |>)
  | None => modify (fun s => s <| transmitList ::= fun l => (when, p) :: l |>);; schedSendEvent now when
  end.

(** What the peer does with a packet: whether it accepts it, and the packets it makes the
    owner of the queue send before it returns. *)
Record answer := mkAnswer { accepted : bool; nested : list (Pkt.t * Z) }.
Fixpoint schedAll (now : Z) (l : list (Pkt.t * Z)) : comp t unit :=
  match l with [] => mret tt | (p, when) :: l' => schedSendTiming now p when;; schedAll now l' end.
(** [sendDeferredPacket] up to the call of the peer, and after it. *)
Definition take (now : Z) : comp t deferred :=
  s ← get;
  assert_ (negb (waitingOnRetry s));; assert_ (deferredPacketReady now s);;
  match transmitList s with
  | [] => lift (Fault AssertFail)
  | dp :: l => modify (fun s => s <| transmitList := l |>);; mret dp
  end.
Definition finish (now : Z) (accepted : bool) (dp : deferred) : comp t unit :=
  modify (fun s => s <| waitingOnRetry := negb accepted |>);;
  if accepted then
    modify (fun s => s <| sent ::= fun l => l ++ [(now, dp)] |>);;
    s ← get; schedSendEvent now (deferredPacketReadyTime s)
  else modify (fun s => s <| transmitList ::= cons dp |>).
Definition sendDeferredPacket (now : Z) (a : answer) : comp t unit :=
  dp ← take now; schedAll now (nested a);; finish now (accepted a) dp.
Definition retry_start : comp t unit := s ← get; assert_ (waitingOnRetry s);; modify (fun s => s <| waitingOnRetry := false |>).
Definition retry (now : Z) (a : answer) : comp t unit := retry_start;; sendDeferredPacket now a.
(** The event is served at its tick. *)
Definition event_start : comp t unit := modify (fun s => s <| sendEvent := None |>);; s ← get; assert_ (negb (waitingOnRetry s)).
Definition processSendEvent (now : Z) (a : answer) : comp t unit := event_start;; sendDeferredPacket now a.
(** [true]: drained already. *)
Definition drain : comp t bool :=
  s ← get;
  if bool_decide (transmitList s = []) then mret true
  else modify (fun s => s <| draining := true |>);; mret false.
End Code.
End PacketQueue.
