(* ===== verification/PacketQueueSpec.v ===== *)
(** What a packet queue promises: no packet is sent before its tick, packets leave in order of
    tick or, per address, of arrival, none is lost, and with a peer that accepts them the
    queue drains, one packet per tick.  A peer that refuses a packet after it has made the
    owner send another breaks it. *)
From S2P Require Import Prelude Flags Packet MemCmd Request PacketData PacketQueue.
From stdpp Require Import list sorting.
Open Scope Z_scope.
Import PacketQueue.

Module QueuePromise.

(** ** Insertion *)

Definition same (q p : Pkt.t) : bool := (Pkt.addr q =? Pkt.addr p) && Bool.eqb (Pkt.secure q) (Pkt.secure p).
Definition addressed (p : Pkt.t) : Prop := Flags.isSet (Pkt.flags p) Pkt.VALID_ADDR = true.
Lemma matchAddr_same q p : addressed q -> addressed p -> Pkt.matchAddr q p = Ok (same q p).
Proof.
  unfold addressed, Pkt.matchAddr, Pkt.getAddr, Pkt.isSecure, same. intros -> ->. cbn. by destruct (_ =? _).
Qed.

Section Order.
Context (forceOrder : bool).
(** [p] may be put before [x]. *)
Definition before (when : Z) (p : Pkt.t) (x : deferred) : Prop := when < x.1 /\ (forceOrder = true -> same x.2 p = false).

Lemma insert_after_spec when p l : addressed p -> Forall (fun x => addressed x.2) l ->
  exists o, insert_after forceOrder when p l = Ok o /\
    match o with
    | Some r => exists l2 x l1, l = l2 ++ x :: l1 /\ r = l2 ++ (when, p) :: x :: l1 /\ Forall (before when p) l2 /\ ~ before when p x
    | None => Forall (before when p) l
    end.
Proof.
  intros Hp. induction l as [|[tick q] l IH]; intros Hl; cbn [insert_after]; [by exists None|].
  apply Forall_cons_1 in Hl as [Hq Hl]. cbn in Hq.
  assert ((if forceOrder then Pkt.matchAddr q p else Ok false) = Ok (forceOrder && same q p)) as ->
    by (destruct forceOrder; [by apply matchAddr_same|done]).
  cbn [mbind result_bind]. destruct ((forceOrder && same q p) || (tick <=? when)) eqn:E.
  - eexists. split; [done|]. exists [], (tick, q), l. split_and!; [done..|]. unfold before. cbn. intros [H1 H2].
    apply orb_true_iff in E as [[-> E]%andb_true_iff|E%Z.leb_le]; [by rewrite H2 in E|lia].
  - destruct (IH Hl) as (o & -> & Ho). cbn [mbind result_bind]. eexists. split; [done|].
    apply orb_false_iff in E as [E1 E2%Z.leb_gt]. assert (before when p (tick, q)) as Hb.
    { split; [exact E2|]. intros ->. exact E1. }
    destruct o as [r|]; [|by constructor]. destruct Ho as (l2 & x & l1 & -> & -> & Hf & Hx). exists ((tick, q) :: l2), x, l1.
    split_and!; [done..|by constructor|done].
Qed.
(** The list after an insertion. *)
Definition inserted (when : Z) (p : Pkt.t) (l l' : list deferred) : Prop :=
  exists l1 l2, l = l1 ++ l2 /\ l' = l1 ++ (when, p) :: l2 /\ Forall (before when p) l2 /\ (forall l0 x, l1 = l0 ++ [x] -> ~ before when p x).
Lemma insert_spec when p l : addressed p -> Forall (fun x => addressed x.2) l ->
  exists o, insert_after forceOrder when p (rev l) = Ok o /\
    match o with
    | Some r => inserted when p l (rev r) /\ exists x l1 l2, l = x :: l1 /\ rev r = x :: l2
    | None => inserted when p l ((when, p) :: l) /\ Forall (before when p) l
    end.
Proof.
  intros Hp Hl. destruct (insert_after_spec when p (rev l) Hp) as (o & -> & Ho); [by apply Forall_rev|]. exists o. split; [done|].
  destruct o as [r|].
  - destruct Ho as (l2 & x & l1 & E & -> & Hf & Hx). apply (f_equal (@rev _)) in E. rewrite rev_involutive in E. subst l.
    rewrite !rev_app_distr. cbn [rev]. rewrite <- !app_assoc. split.
    + exists (rev l1 ++ [x]), (rev l2). rewrite <- !app_assoc. split; [done|]. split; [done|]. split; [by apply Forall_rev|].
      by intros l0 y [_ [= <-]]%app_inj_tail.
    + destruct (rev l1) as [|y l3]; cbn [app]; eauto.
  - apply Forall_rev in Ho. rewrite rev_involutive in Ho. split; [|done]. exists [], l. split_and!; try done. by intros [|] ?.
Qed.
(** Put before entries that it may be put before. *)
Definition jumped (when : Z) (p : Pkt.t) (l l' : list deferred) : Prop :=
  exists l1 l2, l = l1 ++ l2 /\ l' = l1 ++ (when, p) :: l2 /\ Forall (before when p) l2.
Lemma inserted_jumped when p l l' : inserted when p l l' -> jumped when p l l'.
Proof. intros (l1 & l2 & H1 & H2 & H3 & _). by exists l1, l2. Qed.
Lemma jumped_perm when p l l' : jumped when p l l' -> l' ≡ₚ (when, p) :: l.
Proof. intros (l1 & l2 & -> & -> & _). by rewrite <- Permutation_middle. Qed.
Lemma inserted_perm when p l l' : inserted when p l l' -> l' ≡ₚ (when, p) :: l.
Proof. intros H. by apply jumped_perm, inserted_jumped. Qed.
End Order.

(** ** The invariant *)

Section Invariant.
Context (forceOrder : bool).
(** The current tick. *)
Implicit Types (now : Z).

Record core now (s : t) : Prop := {
  co_addr : Forall (fun x => addressed x.2) (transmitList s);
  co_tick : Forall (fun x => x.1 < MaxTick) (transmitList s);
  co_wait : waitingOnRetry s = true -> sendEvent s = None;
  co_event : forall w, sendEvent s = Some w -> now <= w /\ exists x l, transmitList s = x :: l /\ x.1 <= w;
  co_sorted : forceOrder = false -> StronglySorted (fun x y : deferred => x.1 <= y.1) (transmitList s) }.
(** A waiting packet is sent in time or waits for the peer. *)
Definition attended (s : t) : Prop := transmitList s <> [] -> waitingOnRetry s = true \/ sendEvent s <> None.

Lemma core_time now now' s : core now s -> (forall w, sendEvent s = Some w -> now' <= w) -> core now' s.
Proof. intros [] H. split; try done. intros w Hw. destruct (co_event0 w Hw) as [_ ?]. auto. Qed.
Lemma schedSendEvent_wp now s x l : core now s -> waitingOnRetry s = false -> transmitList s = x :: l -> now + 1 < MaxTick ->
  wp (schedSendEvent now x.1) s (fun _ s' => exists w, s' = s <| sendEvent := Some w |> /\ core now s').
Proof.
  intros H Hw Hl Hn. pose proof (co_tick _ _ H) as Ht. rewrite Hl in Ht. apply Forall_cons_1 in Ht as [Ht _].
  assert (forall w, now <= w -> x.1 <= w -> core now (s <| sendEvent := Some w |>)) as Hcore.
  { intros w Hnow Hx. destruct H. split; cbn [transmitList sendEvent waitingOnRetry over]; try done; [by rewrite Hw|].
    intros w' [= <-]. split; [done|]. by exists x, l. }
  unfold schedSendEvent. wp_step. wp_step. rewrite Hw, (proj2 (Z.eqb_neq _ _)) by lia. cbn [negb].
  destruct (sendEvent s) as [w|] eqn:E.
  - destruct (co_event _ _ H w E) as (Hnw & x' & l' & Hl' & Hx). rewrite Hl in Hl'. injection Hl' as <- <-.
    destruct (Z.ltb_spec (Z.max x.1 (now + 1)) w).
    + wp_step. apply wp_lift. unfold reschedule. destruct (Z.leb_spec now (Z.max x.1 (now + 1))); [|lia]. cbn [andb scheduled rp].
      wp_step. eexists. split; [done|]. apply Hcore; lia.
    + wp_step. exists w. split; [destruct s; cbn in E; by subst|done].
  - wp_step. apply wp_lift. unfold schedule. destruct (Z.leb_spec now (Z.max x.1 (now + 1))); [|lia]. cbn [andb negb scheduled rp].
    wp_step. eexists. split; [done|]. apply Hcore; lia.
Qed.

Lemma inserted_sorted when p l l' : inserted forceOrder when p l l' -> forceOrder = false ->
  StronglySorted (fun x y : deferred => x.1 <= y.1) l -> StronglySorted (fun x y : deferred => x.1 <= y.1) l'.
Proof.
  intros (l1 & l2 & -> & -> & Hf & Hx) Hfo (H12 & H1 & H2)%StronglySorted_app.
  assert (forall y, y ∈ l1 -> y.1 <= when) as Hl1.
  { destruct l1 as [|x l0 _] using rev_ind; [by intros y ?%elem_of_nil|]. assert (x.1 <= when) as Hxw.
    { destruct (Z.leb_spec x.1 when); [done|]. destruct (Hx l0 x eq_refl). split; [done|]. by rewrite Hfo. }
    apply StronglySorted_app in H1 as (H1 & _). intros y [Hy| ->%list_elem_of_singleton]%elem_of_app; [|done].
    specialize (H1 y x Hy ltac:(left)). cbn in H1. lia. }
  apply StronglySorted_app. split; [|split; [done|]].
  - intros y z Hy [->|Hz]%elem_of_cons; [by apply Hl1|by apply H12].
  - constructor; [done|]. eapply Forall_impl; [exact Hf|]. intros z [Hz _]. cbn. lia.
Qed.

(** ** Operations *)

(** What the packets of a call need. *)
Record sendable now (x : Pkt.t * Z) : Prop := {
  sn_addr : addressed x.1; sn_snoop : Pkt.isExpressSnoop x.1 = false; sn_tick : now <= x.2 < MaxTick }.
Definition room (n : Z) (s : t) : Prop := _disableSanityCheck s = true \/ zlen (transmitList s) + n <= 129.
(** What an insertion leaves as it was. *)
Record framed (s s' : t) : Prop := {
  fr_wait : waitingOnRetry s' = waitingOnRetry s; fr_check : _disableSanityCheck s' = _disableSanityCheck s;
  fr_drain : draining s' = draining s; fr_sent : sent s' = sent s; fr_drained : drained s' = drained s }.
Lemma framed_trans s1 s2 s3 : framed s1 s2 -> framed s2 s3 -> framed s1 s3.
Proof. intros [] []. split; congruence. Qed.

Lemma core_list now s l : core now s -> Forall (fun x => addressed x.2) l -> Forall (fun x => x.1 < MaxTick) l ->
  (forceOrder = false -> StronglySorted (fun x y : deferred => x.1 <= y.1) l) ->
  (forall w, sendEvent s = Some w -> exists x l', l = x :: l' /\ x.1 <= w) -> core now (s <| transmitList := l |>).
Proof. intros [] H1 H2 H3 H4. split; try done. intros w Hw. split; [by apply co_event0|by apply H4]. Qed.
Lemma inserted_Forall (P : deferred -> Prop) when p l l' : inserted forceOrder when p l l' -> P (when, p) -> Forall P l -> Forall P l'.
Proof. intros (l1 & l2 & -> & -> & _) Hp [H1 H2]%Forall_app. apply Forall_app. split; [done|by constructor]. Qed.

Lemma schedSendTiming_wp now s p when : core now s -> now + 1 < MaxTick -> sendable now (p, when) -> room 1 s ->
  wp (schedSendTiming forceOrder now p when) s (fun _ s' => core now s' /\ framed s s' /\
    inserted forceOrder when p (transmitList s) (transmitList s') /\ (attended s -> attended s')).
Proof.
  intros H Hn [Ha Hsn Ht] Hroom. cbn in Ha, Hsn, Ht. unfold schedSendTiming. wp_step. apply wp_assert; [apply Z.leb_le; lia|]. wp_step.
  apply wp_assert; [by rewrite Hsn|]. wp_step. wp_step.
  assert (negb (_disableSanityCheck s) && (128 <? zlen (transmitList s)) = false) as ->.
  { destruct Hroom as [->|Hl]; [done|]. apply andb_false_iff. right. apply Z.ltb_ge. lia. }
  wp_step. wp_step. wp_step. apply wp_lift.
  destruct (insert_spec forceOrder when p (transmitList s) Ha (co_addr _ _ H)) as (o & E & Ho).
  unfold rp. replace (insert_after forceOrder when p (rev (transmitList s))) with (Ok o) by (symmetry; exact E).
  assert (forall l', inserted forceOrder when p (transmitList s) l' -> (forall w, sendEvent s = Some w -> exists x l, l' = x :: l /\ x.1 <= w) ->
    core now (s <| transmitList := l' |>)) as Hcore.
  { intros l' Hl' He. apply core_list; [done|..].
    - eapply inserted_Forall; [exact Hl'|exact Ha|apply H].
    - eapply inserted_Forall; [exact Hl'|cbn; lia|apply H].
    - intros Hfo. eapply inserted_sorted; [exact Hl'|done|]. by apply H.
    - exact He. }
  destruct o as [l|].
  - destruct Ho as (Hi & x & l1 & l2 & E1 & E2). wp_step. split; [|split; [done|split; [exact Hi|]]].
    + apply Hcore; [exact Hi|]. intros w Hw. destruct (co_event _ _ H w Hw) as (_ & y & l3 & Ey & Hy). rewrite E1 in Ey. injection Ey as <- <-. eauto.
    + intros Hatt _. apply Hatt. by rewrite E1.
  - destruct Ho as [Hi Hb]. wp_step. wp_step. set (s1 := over transmitList _ s).
    assert (core now s1) as H1.
    { apply Hcore; [exact Hi|]. intros w Hw. eexists _, _. split; [done|]. cbn. destruct (co_event _ _ H w Hw) as (_ & y & l3 & Ey & Hy).
      rewrite Ey in Hb. apply Forall_cons_1 in Hb as [[Hy' _] _]. lia. }
    destruct (waitingOnRetry s) eqn:Ew.
    + unfold schedSendEvent. wp_step. wp_step. change (waitingOnRetry s1) with (waitingOnRetry s). rewrite Ew.
      change (sendEvent s1) with (sendEvent s). rewrite (co_wait _ _ H Ew). apply wp_assert; [done|].
      split; [done|]. split; [done|]. split; [exact Hi|]. intros _ _. by left.
    + eapply wp_mono; [by apply (schedSendEvent_wp now s1 (when, p) (transmitList s) H1)|]. intros [] s2 (w & -> & H2).
      split; [done|]. split; [by split|]. split; [exact Hi|]. intros _ _. by right.
Qed.

(** ** Order *)

(** [l] are the packets that arrived, those of one address in order of arrival. *)
Definition to_address (q : Pkt.t) (x : deferred) : Prop := same q x.2 = true.
#[local] Instance to_address_dec q x : Decision (to_address q x) := decide (same q x.2 = true).
Definition ordered (arrived l : list deferred) : Prop :=
  l ≡ₚ arrived /\ (forceOrder = true -> forall q, filter (to_address q) l = filter (to_address q) arrived).
Lemma same_other q p x : same q p = true -> same x p = false -> same q x = false.
Proof.
  unfold same. rewrite andb_true_iff, andb_false_iff, Z.eqb_eq. intros [-> Hs] [Hx%Z.eqb_neq|Hx].
  - apply andb_false_iff. left. apply Z.eqb_neq. congruence.
  - apply andb_false_iff. right. by destruct (Pkt.secure q), (Pkt.secure p), (Pkt.secure x).
Qed.
Lemma filter_none {A} (P : A -> Prop) `{!forall x, Decision (P x)} l : Forall (fun x => ~ P x) l -> filter P l = [].
Proof. induction 1 as [|x l Hx _ IH]; [done|]. by rewrite filter_cons_False. Qed.
Lemma ordered_jump arrived pre when p l l' : ordered arrived (pre ++ l) -> jumped forceOrder when p l l' ->
  ordered (arrived ++ [(when, p)]) (pre ++ l').
Proof.
  intros [Hp Hf] Hi. split.
  - rewrite (jumped_perm _ _ _ _ _ Hi), <- Hp. solve_Permutation.
  - intros Hfo q. specialize (Hf Hfo q). destruct Hi as (l1 & l2 & -> & -> & Hb). rewrite !filter_app in *. rewrite <- Hf, filter_cons.
    cbn [filter list_filter]. destruct (decide (to_address q (when, p))) as [Hq|Hq].
    + assert (filter (to_address q) l2 = []) as ->.
      { apply filter_none. eapply Forall_impl; [exact Hb|]. intros x [_ Hx] Hs. unfold to_address in *. cbn in Hq.
        by rewrite (same_other q p x.2 Hq (Hx Hfo)) in Hs. }
      by rewrite app_nil_r, <- !app_assoc.
    + by rewrite !app_nil_r.
Qed.
Lemma ordered_insert arrived pre when p l l' : ordered arrived (pre ++ l) -> inserted forceOrder when p l l' ->
  ordered (arrived ++ [(when, p)]) (pre ++ l').
Proof. intros H Hi. by eapply ordered_jump, inserted_jumped. Qed.
Definition arrivals (l : list (Pkt.t * Z)) : list deferred := (fun x => (x.2, x.1)) <$> l.

Lemma schedAll_wp now l : forall s arrived pre, core now s -> now + 1 < MaxTick -> Forall (sendable now) l -> room (zlen l) s ->
  ordered arrived (pre ++ transmitList s) ->
  wp (schedAll forceOrder now l) s (fun _ s' => core now s' /\ framed s s' /\ (attended s -> attended s') /\
    ordered (arrived ++ arrivals l) (pre ++ transmitList s') /\ (zlen (transmitList s') = zlen (transmitList s) + zlen l)).
Proof.
  induction l as [|[p when] l IH]; intros s arrived pre H Hn Hl Hr Ho; cbn [schedAll].
  { wp_step. rewrite app_nil_r. split_and!; try done. unfold zlen. cbn. lia. }
  apply Forall_cons_1 in Hl as [Hp Hl]. assert (zlen ((p, when) :: l) = zlen l + 1) as Ez by (unfold zlen; cbn; lia). rewrite Ez in Hr |- *.
  pose proof (zlen_nonneg l). wp_step. eapply wp_mono; [apply (schedSendTiming_wp now s p when H Hn Hp)|].
  { destruct Hr; [by left|right; lia]. }
  intros [] s1 (H1 & F1 & Hi & Hatt). pose proof (inserted_perm _ _ _ _ _ Hi) as Hpm.
  assert (zlen (transmitList s1) = zlen (transmitList s) + 1) as E1 by (unfold zlen; rewrite Hpm; cbn; lia).
  eapply wp_mono; [apply (IH s1 (arrived ++ [(when, p)]) pre H1 Hn Hl)|].
  - destruct Hr as [Hr|Hr]; [left; by rewrite (fr_check _ _ F1)|right; lia].
  - by eapply ordered_insert.
  - intros [] s2 (H2 & F2 & Hatt2 & Ho2 & E2). split; [done|]. split; [by eapply framed_trans|]. split; [auto|]. split; [|lia].
    rewrite <- app_assoc in Ho2. exact Ho2.
Qed.

(** ** Steps *)

Record good now (arrived : list deferred) (s : t) : Prop := {
  gd_core : core now s;
  gd_attended : attended s;
  gd_wait : waitingOnRetry s = true -> deferredPacketReady now s = true;
  gd_order : ordered arrived ((snd <$> sent s) ++ transmitList s);
  gd_early : Forall (fun x => x.2.1 <= x.1) (sent s) }.
(** The answer of the peer: packets it makes the owner send, if it accepts. *)
Record legal_answer now (a : answer) (s : t) : Prop := {
  la_send : Forall (sendable now) (nested a); la_room : room (zlen (nested a)) s; la_refuse : accepted a = false -> nested a = [] }.

Lemma core_pop now s x l : core now s -> sendEvent s = None -> transmitList s = x :: l -> core now (s <| transmitList := l |>).
Proof.
  intros [] He Hl. rewrite Hl in *. split; cbn [transmitList sendEvent waitingOnRetry over].
  - by apply Forall_cons_1 in co_addr0 as [_ ?].
  - by apply Forall_cons_1 in co_tick0 as [_ ?].
  - done.
  - by rewrite He.
  - intros Hf. by apply co_sorted0, StronglySorted_inv in Hf as [? _].
Qed.
Lemma ready_time now now' s : now <= now' -> deferredPacketReady now s = true -> deferredPacketReady now' s = true.
Proof. unfold deferredPacketReady. destruct (transmitList s) as [|[tick p] l]; [done|]. rewrite !Z.leb_le. lia. Qed.
Lemma inserted_ready now when p s s' : inserted forceOrder when p (transmitList s) (transmitList s') -> now <= when ->
  deferredPacketReady now s = true -> deferredPacketReady now s' = true.
Proof.
  unfold deferredPacketReady. intros (l1 & l2 & -> & -> & Hf & _) Hw. destruct l1 as [|[tick q] l1]; [|done]. cbn [app].
  destruct l2 as [|[tick q] l2]; [done|]. apply Forall_cons_1 in Hf as [[Hb _] _]. cbn in Hb. rewrite Z.leb_le. lia.
Qed.
(** The queue without the packet the peer has been given. *)
Record lent now (arrived : list deferred) (x : deferred) (s : t) : Prop := {
  le_core : core now s;
  le_wait : waitingOnRetry s = false;
  le_ready : x.1 <= now /\ x.1 < MaxTick;
  le_order : ordered arrived ((snd <$> sent s) ++ x :: transmitList s);
  le_early : Forall (fun x => x.2.1 <= x.1) (sent s) }.
(** A queue about to send its first packet, and one that the packet can be put back into. *)
Record sending now (arrived : list deferred) (s : t) : Prop := {
  sg_core : core now s; sg_wait : waitingOnRetry s = false; sg_event : sendEvent s = None; sg_ready : deferredPacketReady now s = true;
  sg_order : ordered arrived ((snd <$> sent s) ++ transmitList s); sg_early : Forall (fun x => x.2.1 <= x.1) (sent s) }.
Record returnable (x : deferred) (s : t) : Prop := {
  rt_addr : addressed x.2; rt_event : sendEvent s = None; rt_sorted : forceOrder = false -> Forall (fun y => x.1 <= y.1) (transmitList s) }.
Lemma event_start_wp now arrived s : good now arrived s -> sendEvent s = Some now ->
  wp event_start s (fun _ s' => s' = s <| sendEvent := None |> /\ sending now arrived s').
Proof.
  intros [H Hatt Hwait Ho He] Hev. destruct (co_event _ _ H now Hev) as (_ & x & l & El & Hx).
  assert (waitingOnRetry s = false) as Hw by (destruct (waitingOnRetry s) eqn:E; [by rewrite (co_wait _ _ H E) in Hev|done]).
  unfold event_start. wp_step. wp_step. wp_step. wp_step. apply wp_assert; [change (negb (waitingOnRetry s) = true); by rewrite Hw|].
  split; [done|]. split; try done; [destruct H; by split|]. unfold deferredPacketReady. cbn. rewrite El. destruct x. by apply Z.leb_le.
Qed.
Lemma retry_start_wp now arrived s : good now arrived s -> waitingOnRetry s = true ->
  wp retry_start s (fun _ s' => s' = s <| waitingOnRetry := false |> /\ sending now arrived s').
Proof.
  intros [H Hatt Hwait Ho He] Hw. pose proof (Hwait Hw) as Hr. unfold retry_start. wp_step. wp_step. wp_step. apply wp_assert; [done|]. wp_step.
  split; [done|]. split; try done; [destruct H; by split|by apply (co_wait _ _ H)].
Qed.
Lemma take_wp now arrived s : sending now arrived s ->
  wp (take now) s (fun x s' => s' = s <| transmitList := tail (transmitList s) |> /\ transmitList s = x :: tail (transmitList s) /\
    lent now arrived x s' /\ returnable x s').
Proof.
  intros [H Hw He Hr Ho Hearly]. unfold take. wp_step. wp_step. wp_step. apply wp_assert; [by rewrite Hw|]. wp_step. apply wp_assert; [done|].
  unfold deferredPacketReady in Hr. destruct (transmitList s) as [|[tick p] l] eqn:El; [done|]. apply Z.leb_le in Hr.
  wp_step. wp_step. wp_step. split; [done|]. split; [done|]. pose proof (co_addr _ _ H) as Ha. pose proof (co_tick _ _ H) as Ht. rewrite El in Ha, Ht.
  apply Forall_cons_1 in Ha as [Ha _]. apply Forall_cons_1 in Ht as [Ht _].
  split; [split; [by eapply core_pop|exact Hw|cbn in *; lia|exact Ho|exact Hearly]|]. split; [exact Ha|exact He|].
  intros Hf. pose proof (co_sorted _ _ H Hf) as Hso. rewrite El in Hso. by apply StronglySorted_inv in Hso as [_ Hso].
Qed.
(** A packet that arrives meanwhile. *)
Lemma lent_schedule now arrived x s p when : lent now arrived x s -> now + 1 < MaxTick -> sendable now (p, when) -> room 1 s ->
  wp (schedSendTiming forceOrder now p when) s (fun _ s' => lent now (arrived ++ [(when, p)]) x s' /\ framed s s' /\
    zlen (transmitList s') = zlen (transmitList s) + 1).
Proof.
  intros [H Hw Hx Ho He] Hn Hs Hr. eapply wp_mono; [by apply schedSendTiming_wp|]. intros [] s' (H' & F & Hi & _).
  split; [|split; [done|unfold zlen; rewrite (inserted_perm _ _ _ _ _ Hi); cbn; lia]]. split; [done|by rewrite (fr_wait _ _ F)|done| |by rewrite (fr_sent _ _ F)].
  rewrite (fr_sent _ _ F). change (x :: transmitList s') with ([x] ++ transmitList s'). rewrite app_assoc. eapply ordered_insert; [|exact Hi].
  by rewrite <- app_assoc.
Qed.
Lemma good_schedule now arrived s p when : good now arrived s -> now + 1 < MaxTick -> sendable now (p, when) -> room 1 s ->
  wp (schedSendTiming forceOrder now p when) s (fun _ s' => good now (arrived ++ [(when, p)]) s' /\ framed s s' /\
    zlen (transmitList s') = zlen (transmitList s) + 1).
Proof.
  intros [H Hatt Hwait Ho He] Hn Hs Hr. eapply wp_mono; [by apply schedSendTiming_wp|]. intros [] s' (H' & F & Hi & Hatt').
  split; [|split; [done|unfold zlen; rewrite (inserted_perm _ _ _ _ _ Hi); cbn; lia]]. split; [done|auto|..].
  - rewrite (fr_wait _ _ F). intros Hw. eapply inserted_ready; [exact Hi| |by apply Hwait]. by apply Hs.
  - rewrite (fr_sent _ _ F). by eapply ordered_insert.
  - by rewrite (fr_sent _ _ F).
Qed.
(** The queue between calls, or while the peer has been given [x]. *)
Definition queue_ok now (arrived : list deferred) (m : option deferred) (s : t) : Prop :=
  match m with None => good now arrived s | Some x => lent now arrived x s end.
Lemma queue_schedule now arrived m s p when : queue_ok now arrived m s -> now + 1 < MaxTick -> sendable now (p, when) -> room 1 s ->
  wp (schedSendTiming forceOrder now p when) s (fun _ s' => queue_ok now (arrived ++ [(when, p)]) m s' /\ framed s s' /\
    zlen (transmitList s') = zlen (transmitList s) + 1).
Proof. intros H Hn Hs Hr. destruct m; [by apply lent_schedule|by apply good_schedule]. Qed.
(** The peer has accepted the packet. *)
Lemma finish_wp now arrived x s : lent now arrived x s -> now + 1 < MaxTick -> wp (finish now true x) s (fun _ s' => good now arrived s' /\
  transmitList s' = transmitList s /\ _disableSanityCheck s' = _disableSanityCheck s).
Proof.
  intros [H Hw Hx Ho He] Hn. unfold finish. cbn [negb]. wp_step. wp_step. wp_step. wp_step. wp_step. wp_step.
  set (s3 := over sent _ (over waitingOnRetry _ s)). assert (core now s3) as H3 by (destruct H; by split).
  assert (ordered arrived ((snd <$> sent s3) ++ transmitList s3)) as Ho3.
  { unfold s3. cbn [sent transmitList over]. by rewrite fmap_app, <- app_assoc. }
  assert (Forall (fun x => x.2.1 <= x.1) (sent s3)) as He3.
  { unfold s3. cbn [sent over]. apply Forall_app. split; [done|]. constructor; [cbn; lia|constructor]. }
  unfold deferredPacketReadyTime. remember (transmitList s3) as l3 eqn:El3 in |- *. destruct l3 as [|[tick3 p3] l3].
  - unfold schedSendEvent. wp_step. wp_step. change (waitingOnRetry s3) with false. cbn [negb Z.eqb]. rewrite Z.eqb_refl. cbn [negb].
    unfold when_. destruct (_ && _ && _); wp_step; (split; [|done]); (split; [destruct H3; by split|intros Hne; destruct Hne; symmetry; exact El3|done|exact Ho3|exact He3]).
  - eapply wp_mono; [by apply (schedSendEvent_wp now s3 (tick3, p3) l3 H3)|]. intros [] s4 (w & -> & H4). split; [|done].
    split; [done|intros _; by right|done|exact Ho3|exact He3].
Qed.
(** It has refused it, and nothing has happened meanwhile. *)
Lemma finish_refused_wp now arrived x s : lent now arrived x s -> returnable x s ->
  wp (finish now false x) s (fun _ s' => good now arrived s' /\ transmitList s' = x :: transmitList s /\ _disableSanityCheck s' = _disableSanityCheck s).
Proof.
  intros [H Hw Hx Ho He] [Ha Hev Hs]. unfold finish. cbn [negb]. wp_step. wp_step. wp_step. split; [|done]. split.
  - destruct H. split; cbn [transmitList sendEvent waitingOnRetry over]; try done.
    + by constructor.
    + constructor; [lia|done].
    + by rewrite Hev.
    + intros Hf. constructor; [by apply co_sorted0|by apply Hs].
  - intros _. by left.
  - intros _. unfold deferredPacketReady. destruct x. cbn in *. apply Z.leb_le. lia.
  - exact Ho.
  - exact He.
Qed.
Lemma sendDeferredPacket_wp now a arrived s : sending now arrived s -> legal_answer now a s -> now + 1 < MaxTick ->
  wp (sendDeferredPacket forceOrder now a) s (fun _ s' => good now (arrived ++ arrivals (nested a)) s').
Proof.
  intros H [Hs Hr Hrefuse] Hn. unfold sendDeferredPacket. wp_step. eapply wp_mono; [by apply take_wp|].
  intros x s1 (E1 & El & L & R). assert (transmitList s1 = tail (transmitList s)) as Et by (by rewrite E1).
  destruct (accepted a) eqn:Ea; cycle 1.
  { rewrite (Hrefuse eq_refl). cbn [schedAll]. wp_step. wp_step. rewrite app_nil_r. eapply wp_mono; [by apply (finish_refused_wp now arrived x s1)|].
    by intros _ s' [? _]. }
  wp_step. eapply wp_mono; [apply (schedAll_wp now (nested a) s1 arrived ((snd <$> sent s) ++ [x]) (le_core _ _ _ _ L) Hn Hs)|].
  { destruct Hr as [Hr|Hr]; [left; by rewrite E1|right]. rewrite El in Hr. rewrite Et. unfold zlen in *. cbn [length] in Hr. lia. }
  { rewrite Et, <- app_assoc. cbn [app]. rewrite <- El. apply H. }
  intros [] s2 (H2 & F & _ & Ho2 & Hz). eapply wp_mono; [apply (finish_wp now (arrived ++ arrivals (nested a)) x s2)|by intros _ s' [? _]]; [|done].
  pose proof (fr_sent _ _ F) as Es. rewrite E1 in Es. change (sent s2 = sent s) in Es. split; [done| |apply L| |].
  - rewrite (fr_wait _ _ F). apply L.
  - rewrite Es. rewrite <- app_assoc in Ho2. exact Ho2.
  - rewrite Es. apply H.
Qed.

(** ** Runs *)

Inductive step := Enqueue (p : Pkt.t) (when : Z) | Event (a : answer) | Retry (a : answer).
Definition exec now (st : step) : comp t unit :=
  match st with
  | Enqueue p when => schedSendTiming forceOrder now p when
  | Event a => processSendEvent forceOrder now a
  | Retry a => retry forceOrder now a
  end.
(** The event is served at its tick, the peer calls back a queue that waits for it. *)
Definition allowed now (st : step) (s : t) : Prop :=
  match st with
  | Enqueue p when => sendable now (p, when) /\ room 1 s
  | Event a => sendEvent s = Some now /\ legal_answer now a s
  | Retry a => waitingOnRetry s = true /\ legal_answer now a s
  end.
Definition arriving (st : step) : list deferred :=
  match st with Enqueue p when => [(when, p)] | Event a | Retry a => arrivals (nested a) end.

Lemma good_time now now' arrived s : now <= now' -> good now arrived s -> (forall w, sendEvent s = Some w -> now' <= w) -> good now' arrived s.
Proof.
  intros Hn [] H. split; try done; [by eapply core_time|]. intros Hw. by eapply ready_time, gd_wait0.
Qed.
Lemma exec_wp now st arrived s : good now arrived s -> allowed now st s -> now + 1 < MaxTick ->
  wp (exec now st) s (fun _ s' => good now (arrived ++ arriving st) s').
Proof.
  intros H Ha Hn. destruct st as [p when|a|a]; cbn [exec arriving].
  - destruct Ha as [Hs Hr]. eapply wp_mono; [by apply good_schedule|]. by intros [] s' [? _].
  - destruct Ha as [Hev Hl]. unfold processSendEvent. wp_step. eapply wp_mono; [by apply event_start_wp|]. intros [] s1 [-> H1].
    apply sendDeferredPacket_wp; try done. destruct Hl. by split.
  - destruct Ha as [Hw Hl]. unfold retry. wp_step. eapply wp_mono; [by apply retry_start_wp|]. intros [] s1 [-> H1].
    apply sendDeferredPacket_wp; try done. destruct Hl. by split.
Qed.

(** A run of steps with their ticks. *)
Fixpoint run (l : list (Z * step)) : comp t unit :=
  match l with [] => mret tt | (now, st) :: l' => exec now st;; run l' end.
Fixpoint legal_run now (l : list (Z * step)) (s : t) : Prop :=
  match l with
  | [] => True
  | (now', st) :: l' =>
      now <= now' /\ now' + 1 < MaxTick /\ (forall w, sendEvent s = Some w -> now' <= w) /\ allowed now' st s /\
      forall s', exec now' st s = Ok (tt, s') -> legal_run now' l' s'
  end.
Fixpoint end_time now (l : list (Z * step)) : Z := match l with [] => now | (now', _) :: l' => end_time now' l' end.
Lemma queue_run_wp l : forall now arrived s, good now arrived s -> legal_run now l s ->
  wp (run l) s (fun _ s' => good (end_time now l) (arrived ++ concat (arriving ∘ snd <$> l)) s').
Proof.
  induction l as [|[now' st] l IH]; intros now arrived s H Hl; cbn [run fmap list_fmap concat].
  { wp_step. by rewrite app_nil_r. }
  destruct Hl as (Hle & Hn & Hd & Ha & Hl). pose proof (exec_wp now' st arrived s (good_time _ _ _ _ Hle H Hd) Ha Hn) as Hw.
  destruct (wp_inv _ _ _ Hw) as ([] & s1 & E & H1). wp_step. unfold wp at 1. rewrite E.
  eapply wp_mono; [by apply (IH now' _ s1 H1), Hl|]. intros [] s2 H2. by rewrite <- app_assoc in H2.
Qed.
Lemma create_good c : good 0 [] (create c).
Proof. split; [split|..]; try done; try constructor; try done. Qed.

(** ** Draining *)

Definition yes : answer := mkAnswer true [].
(** The events of the queue are served until none is scheduled. *)
Fixpoint play (n : nat) (s : t) : result t :=
  match sendEvent s with
  | None => Ok s
  | Some w => match n with O => Fault OutOfFuel | S n' => x ← processSendEvent forceOrder w yes s; play n' x.2 end
  end.
(** One packet per tick, none before its own. *)
Fixpoint departures now (l : list deferred) : list (Z * deferred) :=
  match l with [] => [] | x :: l' => (Z.max x.1 (now + 1), x) :: departures (Z.max x.1 (now + 1)) l' end.

Definition served w x l (s : t) : t :=
  s <| transmitList := l |> <| sendEvent := match l with [] => None | y :: _ => Some (Z.max y.1 (w + 1)) end |>
    <| sent ::= fun q => q ++ [(w, x)] |>
    <| drained ::= fun n => if draining s then match l with [] => n + 1 | _ => n end else n |>
    <| draining := match l with [] => false | _ => draining s end |>.
Lemma serve_first w s x l : waitingOnRetry s = false -> transmitList s = x :: l -> x.1 <= w -> w + 1 < MaxTick -> Forall (fun x => x.1 < MaxTick) l ->
  processSendEvent forceOrder w yes s = Ok (tt, served w x l s).
Proof.
  intros Hw El Hx Hn Hl. destruct s as [tl ev wt chk dr snt drd]. cbn in Hw, El. subst. destruct x as [tick p]. cbn in Hx.
  unfold processSendEvent, event_start, sendDeferredPacket, take, finish, mbind, comp_bind, get, modify, assert_.
  cbn [waitingOnRetry sendEvent over transmitList negb]. unfold deferredPacketReady.
  cbn [transmitList over]. rewrite (proj2 (Z.leb_le _ _) Hx). cbn [nested accepted yes schedAll mret comp_ret negb waitingOnRetry over].
  unfold schedSendEvent, mbind, comp_bind, get, modify, deferredPacketReadyTime, mret, comp_ret. cbn [waitingOnRetry over transmitList].
  destruct l as [|[t2 p2] l]; cbn [negb].
  - rewrite Z.eqb_refl. cbn. unfold served, when_. cbn. by destruct dr.
  - apply Forall_cons_1 in Hl as [Ht _]. cbn in Ht. rewrite (proj2 (Z.eqb_neq _ _)) by lia. cbn. unfold lift, schedule.
    destruct (Z.leb_spec w (Z.max t2 (w + 1))); [|lia]. cbn. by destruct dr.
Qed.
Lemma play_drains : forall l w x s, waitingOnRetry s = false -> transmitList s = x :: l -> sendEvent s = Some w -> x.1 <= w ->
  Forall (fun d => d.1 + 1 < MaxTick) ((w, x) :: departures w l) ->
  exists s', play (S (length l)) s = Ok s' /\ transmitList s' = [] /\ sendEvent s' = None /\ waitingOnRetry s' = false /\
    sent s' = sent s ++ (w, x) :: departures w l /\ drained s' = drained s + Z.b2z (draining s) /\ draining s' = false.
Proof.
  induction l as [|y l IH]; intros w x s Hw El Ev Hx [Hn Hd]%Forall_cons_1.
  - cbn [length play]. rewrite Ev, (serve_first w s x [] Hw El Hx Hn (Forall_nil_2 _)). cbn [mbind result_bind snd].
    exists (served w x [] s). split; [done|]. unfold served. destruct s as [tl ev wt chk dr snt drd]. cbn in *. split_and!; try done. destruct dr; cbn; lia.
  - assert (Forall (fun x : deferred => x.1 < MaxTick) (y :: l)) as Ht.
    { clear -Hd. revert w Hd. induction (y :: l) as [|z k IHk]; intros w Hd; [done|]. apply Forall_cons_1 in Hd as [Hz Hd].
      cbn in Hz. constructor; [lia|]. by eapply IHk. }
    change (play (S (length (y :: l))) s) with (match sendEvent s with None => Ok s | Some w => x ← processSendEvent forceOrder w yes s; play (S (length l)) x.2 end).
    rewrite Ev, (serve_first w s x (y :: l) Hw El Hx Hn Ht). cbn [mbind result_bind snd].
    destruct (IH (Z.max y.1 (w + 1)) y (served w x (y :: l) s)) as (s' & E & E1 & E2 & E3 & E4 & E5 & E6).
    { done. } { done. } { done. } { lia. } { exact Hd. }
    exists s'. split; [exact E|]. split_and!; try done.
    + rewrite E4. unfold served. cbn [sent over departures]. by rewrite <- app_assoc.
    + rewrite E5. unfold served. destruct s as [tl ev wt chk dr snt drd]. cbn. by destruct dr.
Qed.
End Invariant.

(** ** Properties *)

(** C10. Over any run of a packet queue (packets with an address and no express snoops handed
    over for a tick that has not passed, the send event at its tick, the retry of the peer,
    packets sent from within the peer), in which no more packets wait than the sanity check
    allows, if it is enabled, and a peer that refuses a packet has not made the owner send
    another from within it (otherwise [refusal_after_send]), no assertion fails; every packet
    handed over is waiting or was sent once, not before its tick; the event that will send
    the first waiting packet is scheduled at or after its tick, or the queue waits for the
    peer; the waiting packets are in order of tick or, with the order forced, all those of
    an address leave in order of arrival. *)
Theorem packet_queue_delivers forceOrder now arrived s l : good forceOrder now arrived s -> legal_run forceOrder now l s ->
  exists s', run forceOrder l s = Ok (tt, s') /\ good forceOrder (end_time now l) (arrived ++ concat (arriving ∘ snd <$> l)) s'.
Proof. intros H Hl. destruct (wp_inv _ _ _ (queue_run_wp forceOrder l now arrived s H Hl)) as ([] & s' & E & H'). by exists s'. Qed.

(** Reads of two addresses: the second overtakes the first unless it has its address. *)
Definition demo_req (a : Z) : Request.t := Request.mkRequest (Some a) (Some 4) 0 1 None None [] (fun l => l) 0.
Definition demo_pkt (a : Z) : Pkt.t := Pkt.mkPkt MemCmd.ReadResp (Z.lor Pkt.VALID_ADDR Pkt.VALID_SIZE) (demo_req a) [] a false 4 [] 0 0 0.
Definition demo_run : list (Z * step) :=
  [(0, Enqueue (demo_pkt 64) 20); (0, Enqueue (demo_pkt 128) 10); (0, Enqueue (demo_pkt 64) 10); (10, Event (mkAnswer false [])); (15, Retry yes)].
Lemma packet_queue_delivers_witness : exists s', run true demo_run (create false) = Ok (tt, s') /\
  sent s' = [(15, (10, demo_pkt 128))] /\ transmitList s' = [(20, demo_pkt 64); (10, demo_pkt 64)] /\ good true 15 (concat (arriving ∘ snd <$> demo_run)) s'.
Proof.
  destruct (packet_queue_delivers true 0 [] (create false) demo_run (create_good true false)) as (s' & E & H).
  - unfold demo_run. cbn [legal_run].
    repeat (match goal with
      | |- _ /\ _ => split
      | |- forall s', _ = Ok (tt, s') -> _ => intros ? E; vm_compute in E; injection E as <-
      | |- forall w, sendEvent _ = Some w -> _ => intros ? E; vm_compute in E; first [discriminate E|injection E as <-; vm_compute; done]
      | |- sendable _ _ => split; vm_compute; done
      | |- legal_answer _ _ _ => split; [constructor|right; vm_compute; done|done]
      | |- room _ _ => right; vm_compute; done
      | |- _ => progress (cbn [allowed])
      end); try done; try (vm_compute; done).
  - exists s'. split; [exact E|]. split; [|split; [|exact H]]; vm_compute in E; by injection E as <-.
Defined.

(** C13. With a peer that accepts every packet, and nothing else meanwhile, the queue drains:
    from a scheduled event it sends every packet waiting, in their order, one per tick and none
    before its own, ends with no event, and signals the end of a drain once if one was asked
    for. *)
Theorem packet_queue_drains forceOrder now arrived s w x l : good forceOrder now arrived s -> transmitList s = x :: l -> sendEvent s = Some w ->
  Forall (fun d => d.1 + 1 < MaxTick) ((w, x) :: departures w l) ->
  exists s', play forceOrder (S (length l)) s = Ok s' /\ transmitList s' = [] /\ sendEvent s' = None /\
    sent s' = sent s ++ (w, x) :: departures w l /\ drained s' = drained s + Z.b2z (draining s).
Proof.
  intros [H _ _ _ _] El Ev Hd. destruct (co_event _ _ _ H w Ev) as (_ & y & l' & Ey & Hy). rewrite El in Ey. injection Ey as <- <-.
  assert (waitingOnRetry s = false) as Hw by (destruct (waitingOnRetry s) eqn:E; [by rewrite (co_wait _ _ _ H E) in Ev|done]).
  destruct (play_drains forceOrder l w x s Hw El Ev Hy Hd) as (s' & E & E1 & E2 & _ & E4 & E5 & _). by exists s'.
Qed.
Lemma packet_queue_drains_witness : exists s s', run false [(0, Enqueue (demo_pkt 64) 20); (0, Enqueue (demo_pkt 128) 10)] (create false) = Ok (tt, s) /\
  play false 2 s = Ok s' /\ sent s' = [(10, (10, demo_pkt 128)); (20, (20, demo_pkt 64))].
Proof.
  set (l := [(0, Enqueue (demo_pkt 64) 20); (0, Enqueue (demo_pkt 128) 10)]).
  assert (legal_run false 0 l (create false)) as Hl.
  { split; [done|]. split; [done|]. split; [done|]. split; [split; [by split|by right]|]. intros s E. vm_compute in E. injection E as <-.
    split; [done|]. split; [done|]. split; [intros w [= <-]; done|]. split; [split; [by split|by right]|]. done. }
  destruct (wp_inv _ _ _ (queue_run_wp false l 0 [] (create false) (create_good false false) Hl)) as ([] & s & E & H). exists s.
  pose proof E as E'. vm_compute in E'. injection E' as E'.
  destruct (packet_queue_drains false _ _ s 10 (10, demo_pkt 128) [(20, demo_pkt 64)] H) as (s' & Ep & _ & _ & Es & _).
  - by rewrite <- E'.
  - by rewrite <- E'.
  - repeat constructor.
  - exists s'. split; [exact E|]. split; [exact Ep|]. rewrite Es. by rewrite <- E'.
Defined.

(** A peer that refuses a packet after making the owner send another breaks the queue: the
    nested packet schedules the send event while the queue goes on to wait for a retry, and
    the event fails its assertion. *)
Theorem refusal_after_send forceOrder now s x p when a : waitingOnRetry s = false -> sendEvent s = Some now -> transmitList s = [x] -> x.1 <= now ->
  now + 1 < MaxTick -> sendable now (p, when) ->
  exists s' w, processSendEvent forceOrder now (mkAnswer false [(p, when)]) s = Ok (tt, s') /\ sendEvent s' = Some w /\
    processSendEvent forceOrder w a s' = Fault AssertFail.
Proof.
  intros Hw Ev El Hx Hn [_ Hsn Ht]. cbn in Hsn, Ht. destruct s as [tl ev wt chk dr snt drd]. cbn in Hw, Ev, El. subst. destruct x as [tick q]. cbn in Hx.
  unfold processSendEvent at 1, event_start, sendDeferredPacket, take, mbind, comp_bind, get, modify, assert_, deferredPacketReady.
  cbn [waitingOnRetry sendEvent over transmitList negb nested accepted]. rewrite (proj2 (Z.leb_le _ _) Hx). cbn [schedAll mret comp_ret over transmitList].
  unfold schedSendTiming, mbind, comp_bind, assert_. rewrite (proj2 (Z.leb_le now when)), Hsn by lia.
  cbn. rewrite andb_false_r. unfold schedSendEvent, mbind, comp_bind, get, modify, mret, comp_ret. cbn.
  rewrite (proj2 (Z.eqb_neq when MaxTick)) by lia. cbn. unfold lift, schedule. destruct (Z.leb_spec now (Z.max when (now + 1))); [|lia]. cbn.
  by eexists _, _.
Qed.
Definition demo_busy : t := (create false) <| transmitList := [(5, demo_pkt 64)] |> <| sendEvent := Some 5 |>.
Lemma refusal_after_send_witness : exists s' w, processSendEvent false 5 (mkAnswer false [(demo_pkt 128, 5)]) demo_busy = Ok (tt, s') /\
  processSendEvent false w yes s' = Fault AssertFail.
Proof.
  destruct (refusal_after_send false 5 demo_busy (5, demo_pkt 64) (demo_pkt 128) 5 yes
    eq_refl eq_refl eq_refl ltac:(done) ltac:(done) ltac:(by split)) as (s' & w & E & _ & Hf).
  by exists s', w.
Defined.
End QueuePromise.
