(* ===== verification/FunctionalAccess.v ===== *)
(** A functional access through a queue of packets: a read sees, byte by byte, the last packet
    that holds the byte, and is complete exactly when every byte was found; a write updates
    every packet that holds a byte of it. *)
From S2P Require Import Prelude Flags MemCmd Request PacketData PacketQueue.
From stdpp Require Import list.
Open Scope Z_scope.
Import MemCmd Payload PacketQueue.

Module Functional.

(** ** Packets with a payload *)

Record shaped (p : Pkt.t) : Prop := {
  sh_flags : Flags.isSet (Pkt.flags p) Pkt.VALID_ADDR = true /\ Flags.isSet (Pkt.flags p) Pkt.VALID_SIZE = true;
  sh_size : 0 <= Pkt.addr p /\ 0 < Pkt.size p /\ Pkt.addr p + Pkt.size p <= 2 ^ 64 }.
Definition payload (p : Pkt.t) : Prop := Flags.isSet (Pkt.flags p) Pkt.DATA = true /\ zlen (Pkt.data p) = Pkt.size p.
(** A packet in the queue that can answer. *)
Definition holder (q : Pkt.t) : Prop := shaped q /\ (hasData (Pkt.cmd q) = true -> payload q).
(** [q] holds the byte at [x] for an access in the space of [p]. *)
Definition covers (p q : Pkt.t) (x : Z) : bool :=
  Bool.eqb (Pkt.secure q) (Pkt.secure p) && hasData (Pkt.cmd q) && negb (Pkt.isMaskedWrite q) &&
  (Pkt.addr q <=? x) && (x <? Pkt.addr q + Pkt.size q).
Definition at_ (p : Pkt.t) (x : Z) : option Z := Pkt.data p !! (x - Pkt.addr p).
Definition filled (p : Pkt.t) (x : Z) : bool := default false (Pkt.bytesValid p !! (x - Pkt.addr p)).
Definition within (p : Pkt.t) (x : Z) : Prop := Pkt.addr p <= x < Pkt.addr p + Pkt.size p.
Record reader (p : Pkt.t) : Prop := {
  rd_shaped : shaped p; rd_payload : payload p; rd_read : isRead (Pkt.cmd p) = true;
  rd_valid : Pkt.bytesValid p = [] \/ zlen (Pkt.bytesValid p) = Pkt.size p }.
(** What stays of a packet that is filled. *)
Definition alike (p p' : Pkt.t) : Prop :=
  Pkt.cmd p' = Pkt.cmd p /\ Pkt.flags p' = Pkt.flags p /\ Pkt.addr p' = Pkt.addr p /\ Pkt.secure p' = Pkt.secure p /\
  Pkt.size p' = Pkt.size p /\ Pkt.req p' = Pkt.req p.

Lemma read_mask p : isRead (Pkt.cmd p) = true -> Pkt.isMaskedWrite p = false.
Proof. unfold Pkt.isMaskedWrite. intros H. rewrite bool_decide_false; [done|]. intros E. by rewrite E in H. Qed.
Lemma read_print c : isRead c = true -> isPrint c = false.
Proof. by destruct c. Qed.
Lemma all_set_spec bv lo hi : lo <= hi -> (Pkt.all_set bv lo hi = true <-> forall i, lo <= i < hi -> bv !! i = Some true).
Proof.
  intros Hle. unfold Pkt.all_set. rewrite forallb_forall. split.
  - intros H i Hi. specialize (H i). destruct (bv !! i) as [[|]|]; [done|..]; discriminate H; apply list_elem_of_In, elem_of_seqZ; lia.
  - intros H i Hi%list_elem_of_In%elem_of_seqZ. by rewrite H by lia.
Qed.

(** A packet that does not hold a byte of the access. *)
Lemma satisfy_apart p a sec n d : shaped p -> 0 <= a -> 0 < n -> a + n <= 2 ^ 64 ->
  sec <> Pkt.secure p \/ (a + n <= Pkt.addr p \/ Pkt.addr p + Pkt.size p <= a) -> Pkt.satisfy p a sec n d = Ok (false, p, d).
Proof.
  intros [[H1 H2] (Ha & Hs & Hb)] Ha' Hn Hb' Hcase. unfold Pkt.satisfy, Pkt.getAddr, Pkt.getSize. rewrite H1, H2. cbn [Pkt.check mbind result_bind].
  rewrite !u64_small by lia. destruct (Bool.eqb sec (Pkt.secure p)) eqn:E; [|done]. apply eqb_prop in E. cbn [negb orb].
  destruct Hcase as [?|Hcase]; [done|].
  destruct (Z.ltb_spec (a + n - 1) (Pkt.addr p)), (Z.ltb_spec (Pkt.addr p + Pkt.size p - 1) a); try done; lia.
Qed.

(** ** Reads *)

Lemma satisfy_read p a n d : reader p -> 0 <= a -> a + n <= 2 ^ 64 -> zlen d = n -> a < Pkt.addr p + Pkt.size p -> Pkt.addr p < a + n ->
  exists b p', Pkt.satisfy p a (Pkt.secure p) n (Some d) = Ok (b, p', Some d) /\ alike p p' /\ reader p' /\
    (forall x, within p x -> at_ p' x = (if (a <=? x) && (x <? a + n) then d !! (x - a) else at_ p x) /\
                             filled p' x = (a <=? x) && (x <? a + n) || filled p x) /\
    (b = true <-> forall x, within p x -> filled p' x = true).
Proof.
  intros [[[H1 H2] (Ha & Hs & Hb)] [Hdf Hdl] Hr Hv] Ha' Hb' Hd Ho1 Ho2. pose proof (read_mask p Hr) as Hm. pose proof (zlen_nonneg d).
  unfold Pkt.satisfy, Pkt.getAddr, Pkt.getSize. rewrite H1, H2. cbn [Pkt.check mbind result_bind]. rewrite !u64_small by lia.
  rewrite eqb_reflx. cbn [negb orb]. destruct (Z.ltb_spec (a + n - 1) (Pkt.addr p)), (Z.ltb_spec (Pkt.addr p + Pkt.size p - 1) a); try lia. cbn [orb].
  rewrite (read_print _ Hr), Hr. unfold Pkt.getPtr. rewrite Hdf, Hm. cbn [Pkt.check mbind result_bind negb].
  set (fo := if Pkt.addr p <? a then a - Pkt.addr p else 0). set (vo := if a <? Pkt.addr p then Pkt.addr p - a else 0).
  set (ov := Z.min (a + n - 1) (Pkt.addr p + Pkt.size p - 1) + 1 - Z.max a (Pkt.addr p)).
  assert (fo = Z.max 0 (a - Pkt.addr p)) as Ef by (unfold fo; destruct (Z.ltb_spec (Pkt.addr p) a); lia).
  assert (vo = Z.max 0 (Pkt.addr p - a)) as Ev by (unfold vo; destruct (Z.ltb_spec a (Pkt.addr p)); lia).
  assert (ov = Z.min (a + n) (Pkt.addr p + Pkt.size p) - Z.max a (Pkt.addr p)) as Eo by (unfold ov; lia). clearbody fo vo ov.
  destruct (copy_spec (Pkt.data p) fo d vo ov) as (buf & -> & Hzb & Hkb); [unfold inside; lia|]. cbn [mbind result_bind].
  set (bv := if Pkt.bytesValid p is [] then calloc (Pkt.size p) false else Pkt.bytesValid p).
  assert (zlen bv = Pkt.size p) as Hzbv.
  { unfold bv. destruct Hv as [->|Hv]; [by apply zlen_calloc; lia|]. destruct (Pkt.bytesValid p); [by apply zlen_calloc; lia|done]. }
  assert (forall i, 0 <= i < Pkt.size p -> bv !! i = Some (filled p (i + Pkt.addr p))) as Hbv.
  { intros i Hi. unfold filled. replace (i + Pkt.addr p - Pkt.addr p) with i by lia. unfold bv. destruct (Pkt.bytesValid p) as [|y l] eqn:E.
    - rewrite zlookup_calloc_eq by lia. by rewrite zlookup_nil.
    - assert (zlen (y :: l) = Pkt.size p) as Hl by by destruct Hv. destruct (zlookup_is_Some (y :: l) i ltac:(lia)) as [z ->]. done. }
  clearbody bv. destruct (copy_spec bv fo (calloc ov true) 0 ov) as (bv' & -> & Hzv & Hkv); [unfold inside; rewrite zlen_calloc by lia; lia|].
  cbn [mbind result_bind]. eexists _, (p <| Pkt.data := buf |> <| Pkt.bytesValid := bv' |>). split; [done|]. split; [by split_and!|].
  assert (forall x, within p x -> filled (p <| Pkt.data := buf |> <| Pkt.bytesValid := bv' |>) x = (a <=? x) && (x <? a + n) || filled p x) as Hfill.
  { intros x Hx. unfold within in Hx. unfold filled at 1. cbn [Pkt.bytesValid Pkt.addr over]. rewrite Hkv.
    destruct (Z.leb_spec fo (x - Pkt.addr p)), (Z.ltb_spec (x - Pkt.addr p) (fo + ov)), (Z.leb_spec a x), (Z.ltb_spec x (a + n)); try lia; cbn [andb orb].
    - rewrite zlookup_calloc_eq by lia. done.
    - rewrite Hbv by lia. cbn. f_equal. lia.
    - rewrite Hbv by lia. cbn. f_equal. lia. }
  split; [|split].
  - split; [by split|split; [done|cbn [Pkt.data Pkt.size over]; lia]|done|right; cbn [Pkt.bytesValid Pkt.size over]; lia].
  - intros x Hx. split; [|by apply Hfill]. unfold within in Hx. unfold at_. cbn [Pkt.data Pkt.addr over]. rewrite Hkb.
    destruct (Z.leb_spec fo (x - Pkt.addr p)), (Z.ltb_spec (x - Pkt.addr p) (fo + ov)), (Z.leb_spec a x), (Z.ltb_spec x (a + n)); try lia; cbn [andb]; try done.
    f_equal. lia.
  - rewrite andb_true_iff, !all_set_spec by lia. split.
    + intros [L1 L2] x Hx. rewrite Hfill by done. unfold within in Hx.
      destruct (Z.leb_spec a x), (Z.ltb_spec x (a + n)); try lia; cbn [andb orb]; try done.
      * specialize (L2 (x - Pkt.addr p) ltac:(lia)). rewrite Hkv in L2.
        destruct (Z.leb_spec fo (x - Pkt.addr p)), (Z.ltb_spec (x - Pkt.addr p) (fo + ov)); try lia. cbn [andb] in L2.
        rewrite Hbv in L2 by lia. injection L2 as L2. by replace (x - Pkt.addr p + Pkt.addr p) with x in L2 by lia.
      * specialize (L1 (x - Pkt.addr p) ltac:(lia)). rewrite Hbv in L1 by lia. injection L1 as L1. by replace (x - Pkt.addr p + Pkt.addr p) with x in L1 by lia.
    + intros L. split; intros i Hi; (assert (within p (i + Pkt.addr p)) as Hin by (unfold within; lia)); specialize (L _ Hin);
        rewrite (Hfill _ Hin) in L; destruct (Z.leb_spec a (i + Pkt.addr p)), (Z.ltb_spec (i + Pkt.addr p) (a + n)); try lia; cbn [andb orb] in L.
      * rewrite Hbv by lia. by f_equal.
      * rewrite Hkv. destruct (Z.leb_spec fo i), (Z.ltb_spec i (fo + ov)); try lia. cbn [andb]. rewrite Hbv by lia. by f_equal.
Qed.

Lemma same_data q : q <| Pkt.data := Pkt.data q |> = q.
Proof. by destruct q. Qed.
Lemma covers_alike p p' q x : alike p p' -> covers p' q x = covers p q x.
Proof. intros (_ & _ & _ & E & _). unfold covers. by rewrite E. Qed.
Lemma other_ok q : shaped q -> Pkt.getAddr q = Ok (Pkt.addr q) /\ Pkt.isSecure q = Ok (Pkt.secure q) /\ Pkt.getSize q = Ok (Pkt.size q).
Proof. intros [[H1 H2] _]. unfold Pkt.getAddr, Pkt.isSecure, Pkt.getSize. by rewrite H1, H2. Qed.
(** The buffer the access is tried against. *)
Lemma other_data q : holder q -> Pkt.isMaskedWrite q = false ->
  (if hasData (Pkt.cmd q) then b ← Pkt.getPtr q; Ok (Some b) else Ok None) = Ok (if hasData (Pkt.cmd q) then Some (Pkt.data q) else None).
Proof.
  intros [_ H] Hm. destruct (hasData (Pkt.cmd q)); [|done]. destruct (H eq_refl) as [Hd _]. unfold Pkt.getPtr. by rewrite Hd, Hm.
Qed.
Lemma try_apart p q : shaped p -> holder q -> isPrint (Pkt.cmd p) = false -> (forall x, within p x -> covers p q x = false) ->
  Pkt.trySatisfyFunctional p q = Ok (false, p, q).
Proof.
  intros Hp Hq Hprint Hc. unfold Pkt.trySatisfyFunctional. destruct (Pkt.isMaskedWrite q) eqn:Em; [done|].
  destruct (other_ok q (proj1 Hq)) as (-> & -> & ->). cbn [mbind result_bind]. rewrite (other_data q Hq Em). cbn [mbind result_bind].
  pose proof (sh_size _ (proj1 Hq)). pose proof (sh_size _ Hp). unfold covers in Hc. rewrite Em in Hc.
  destruct (hasData (Pkt.cmd q)) eqn:Ed.
  - rewrite satisfy_apart; [cbn; by rewrite same_data|done|lia|lia|lia|].
    destruct (Bool.eqb (Pkt.secure q) (Pkt.secure p)) eqn:Es; [right|left; intros E; by rewrite E, eqb_reflx in Es].
    destruct (Z.leb_spec (Pkt.addr p + Pkt.size p) (Pkt.addr q)); [by right|]. destruct (Z.leb_spec (Pkt.addr q + Pkt.size q) (Pkt.addr p)); [by left|].
    specialize (Hc (Z.max (Pkt.addr p) (Pkt.addr q)) ltac:(unfold within; lia)). cbn [andb negb] in Hc.
    destruct (Z.leb_spec (Pkt.addr q) (Z.max (Pkt.addr p) (Pkt.addr q))), (Z.ltb_spec (Z.max (Pkt.addr p) (Pkt.addr q)) (Pkt.addr q + Pkt.size q)); lia || done.
  - unfold Pkt.satisfy. destruct (other_ok p Hp) as (-> & _ & ->). cbn [mbind result_bind]. rewrite Hprint. by destruct (_ || _ || _).
Qed.
Lemma try_read p q : reader p -> holder q ->
  exists b p', Pkt.trySatisfyFunctional p q = Ok (b, p', q) /\ alike p p' /\ reader p' /\
    (forall x, within p x -> at_ p' x = (if covers p q x then at_ q x else at_ p x) /\ filled p' x = covers p q x || filled p x) /\
    (b = true -> forall x, within p x -> filled p' x = true) /\
    ((forall x, within p x -> filled p' x = true) -> b = true \/ forall x, within p x -> filled p x = true).
Proof.
  intros Hp Hq. destruct (decide (Bool.eqb (Pkt.secure q) (Pkt.secure p) && hasData (Pkt.cmd q) && negb (Pkt.isMaskedWrite q) = true /\
    Pkt.addr q < Pkt.addr p + Pkt.size p /\ Pkt.addr p < Pkt.addr q + Pkt.size q)) as [(Hc & Ho1 & Ho2)|Hno].
  - rewrite !andb_true_iff, negb_true_iff in Hc. destruct Hc as [[Es Ed] Em]. apply eqb_prop in Es.
    pose proof (sh_size _ (proj1 Hq)). destruct (proj2 Hq Ed) as [_ Hl].
    destruct (satisfy_read p (Pkt.addr q) (Pkt.size q) (Pkt.data q) Hp ltac:(lia) ltac:(lia) Hl Ho1 Ho2) as (b & p' & E & Ha & Hr & Hx & Hb).
    exists b, p'. unfold Pkt.trySatisfyFunctional. rewrite Em. destruct (other_ok q (proj1 Hq)) as (-> & -> & ->). cbn [mbind result_bind].
    rewrite (other_data q Hq Em), Ed. cbn [mbind result_bind]. rewrite Es, E. cbn [mbind result_bind]. rewrite same_data. split; [done|]. split; [done|]. split; [done|].
    split; [|split; [by apply Hb|intros; left; by apply Hb]]. intros x Hin. unfold covers. rewrite Es, eqb_reflx, Ed, Em. cbn [andb negb]. by apply Hx.
  - assert (forall x, within p x -> covers p q x = false) as Hc.
    { intros x Hx. unfold covers, within in *. destruct (Bool.eqb _ _ && _ && _) eqn:E; [|done]. cbn [andb].
      destruct (Z.leb_spec (Pkt.addr q) x), (Z.ltb_spec x (Pkt.addr q + Pkt.size q)); try done. destruct Hno. split; [done|lia]. }
    exists false, p. rewrite try_apart; [|apply Hp|done|by apply read_print, Hp|done]. split_and!; try done; [|by right].
    intros x Hx. by rewrite (Hc x Hx).
Qed.

(** The last packet of [l] that holds the byte at [x]. *)
Fixpoint overlay (p : Pkt.t) (l : list deferred) (x : Z) : option (option Z) :=
  match l with
  | [] => None
  | (_, q) :: l' => match overlay p l' x with Some v => Some v | None => if covers p q x then Some (at_ q x) else None end
  end.
Lemma overlay_alike p p' l x : alike p p' -> overlay p' l x = overlay p l x.
Proof. intros H. induction l as [|[t q] l IH]; [done|]. cbn [overlay]. by rewrite IH, (covers_alike p p' q x H). Qed.
Lemma alike_trans p1 p2 p3 : alike p1 p2 -> alike p2 p3 -> alike p1 p3.
Proof. intros (?&?&?&?&?&?) (?&?&?&?&?&?). split_and!; congruence. Qed.
Lemma try_list_read l : forall p, reader p -> Forall (fun x => holder x.2) l -> ~ (forall x, within p x -> filled p x = true) ->
  exists found p' l1 l2, try_list p l = Ok (found, p', l) /\ reader p' /\ l = l1 ++ l2 /\ alike p p' /\ (found = false -> l2 = []) /\
    (forall x, within p x -> at_ p' x = default (at_ p x) (overlay p l1 x)) /\
    (found = true <-> forall x, within p x -> overlay p l1 x <> None \/ filled p x = true).
Proof.
  induction l as [|[t q] l IH]; intros p Hp Hl Hnot; cbn [try_list].
  { exists false, p, [], []. split_and!; try done. cbn [overlay]. split; [done|]. intros H. destruct Hnot. intros x Hx. by destruct (H x Hx). }
  apply Forall_cons_1 in Hl as [Hq Hl]. cbn [snd] in Hq. destruct (try_read p q Hp Hq) as (b & p1 & -> & Ha & Hr & Hx & Hb1 & Hb2). cbn [mbind result_bind].
  assert (forall x, within p1 x <-> within p x) as Hw by (intros x; unfold within; destruct Ha as (_ & _ & -> & _ & -> & _); done).
  destruct b.
  - exists true, p1, [(t, q)], l. split_and!; try done.
    + intros x Hin. rewrite (proj1 (Hx x Hin)). cbn [overlay]. by destruct (covers p q x).
    + split; [|done]. intros _ x Hin. pose proof (Hb1 eq_refl x Hin) as Hf. rewrite (proj2 (Hx x Hin)) in Hf. cbn [overlay]. destruct (covers p q x); [by left|by right].
  - destruct (IH p1 Hr Hl) as (found & p' & l1 & l2 & -> & Hr' & -> & Ha' & Hf & Hv & Hfd).
    { intros Hall. destruct (Hb2 (fun x Hin => Hall x (proj2 (Hw x) Hin))) as [?|?]; [done|by apply Hnot]. }
    exists found, p', ((t, q) :: l1), l2. split; [done|]. split; [done|]. split; [done|]. split; [by eapply alike_trans|]. split; [done|]. split.
    + intros x Hin. rewrite (Hv x (proj2 (Hw x) Hin)), (overlay_alike p p1 l1 x Ha), (proj1 (Hx x Hin)). cbn [overlay].
      destruct (overlay p l1 x); [done|]. by destruct (covers p q x).
    + rewrite Hfd. split; intros H x Hin; [specialize (H x (proj2 (Hw x) Hin))|apply Hw in Hin; specialize (H x Hin)];
        rewrite (overlay_alike p p1 l1 x Ha), (proj2 (Hx x Hin)) in * || rewrite (overlay_alike p p1 l1 x Ha), (proj2 (Hx x Hin)); cbn [overlay] in *;
        destruct (overlay p l1 x); try (by left); destruct (covers p q x); cbn [orb] in *; try (by left); try (by right); destruct H; try done; by right.
Qed.

(** ** Writes *)

Record writer (p : Pkt.t) : Prop := {
  wr_shaped : shaped p; wr_payload : payload p; wr_write : isWrite (Pkt.cmd p) = true /\ isRead (Pkt.cmd p) = false }.
Definition withinb (p : Pkt.t) (x : Z) : bool := (Pkt.addr p <=? x) && (x <? Pkt.addr p + Pkt.size p).
Lemma write_print c : isWrite c = true -> isPrint c = false.
Proof. by destruct c. Qed.
Lemma try_write p q : writer p -> holder q ->
  exists q', Pkt.trySatisfyFunctional p q = Ok (false, p, q') /\ alike q q' /\
    forall x, within q x -> at_ q' x = if covers p q x && withinb p x then at_ p x else at_ q x.
Proof.
  intros [Hsh [Hdf Hdl] [Hw Hr]] Hq. destruct (decide (Bool.eqb (Pkt.secure q) (Pkt.secure p) && hasData (Pkt.cmd q) && negb (Pkt.isMaskedWrite q) = true /\
    Pkt.addr q < Pkt.addr p + Pkt.size p /\ Pkt.addr p < Pkt.addr q + Pkt.size q)) as [(Hc & Ho1 & Ho2)|Hno].
  - rewrite !andb_true_iff, negb_true_iff in Hc. destruct Hc as [[Es Ed] Em]. apply eqb_prop in Es. destruct (proj2 Hq Ed) as [_ Hl].
    pose proof (sh_size _ (proj1 Hq)). pose proof (sh_size _ Hsh). unfold Pkt.trySatisfyFunctional. rewrite Em.
    destruct (other_ok q (proj1 Hq)) as (-> & -> & ->). cbn [mbind result_bind]. rewrite (other_data q Hq Em), Ed. cbn [mbind result_bind].
    unfold Pkt.satisfy. destruct (other_ok p Hsh) as (-> & _ & ->). cbn [mbind result_bind]. rewrite Es, eqb_reflx, !u64_small by lia.
    destruct (Z.ltb_spec (Pkt.addr q + Pkt.size q - 1) (Pkt.addr p)), (Z.ltb_spec (Pkt.addr p + Pkt.size p - 1) (Pkt.addr q)); try lia. cbn [negb orb].
    rewrite (write_print _ Hw), Hr, Hw. unfold Pkt.getConstPtr. rewrite Hdf. cbn [Pkt.check mbind result_bind].
    set (fo := if Pkt.addr p <? Pkt.addr q then _ else 0). set (vo := if Pkt.addr q <? Pkt.addr p then _ else 0).
    set (ov := Z.min (Pkt.addr q + Pkt.size q - 1) (Pkt.addr p + Pkt.size p - 1) + 1 - Z.max (Pkt.addr q) (Pkt.addr p)).
    assert (fo = Z.max 0 (Pkt.addr q - Pkt.addr p)) as Ef by (unfold fo; destruct (Z.ltb_spec (Pkt.addr p) (Pkt.addr q)); lia).
    assert (vo = Z.max 0 (Pkt.addr p - Pkt.addr q)) as Ev by (unfold vo; destruct (Z.ltb_spec (Pkt.addr q) (Pkt.addr p)); lia).
    assert (ov = Z.min (Pkt.addr q + Pkt.size q) (Pkt.addr p + Pkt.size p) - Z.max (Pkt.addr q) (Pkt.addr p)) as Eo by (unfold ov; lia). clearbody fo vo ov.
    destruct (copy_spec (Pkt.data q) vo (Pkt.data p) fo ov) as (d & -> & Hzd & Hk); [unfold inside; lia|]. cbn [mbind result_bind].
    exists (q <| Pkt.data := d |>). split; [done|]. split; [by split_and!|]. intros x Hx. unfold within in Hx. unfold covers, withinb, at_.
    cbn [Pkt.data Pkt.addr over]. rewrite Hk, Es, eqb_reflx, Ed, Em. cbn [andb negb].
    destruct (Z.leb_spec vo (x - Pkt.addr q)), (Z.ltb_spec (x - Pkt.addr q) (vo + ov)), (Z.leb_spec (Pkt.addr q) x), (Z.ltb_spec x (Pkt.addr q + Pkt.size q)),
      (Z.leb_spec (Pkt.addr p) x), (Z.ltb_spec x (Pkt.addr p + Pkt.size p)); try lia; cbn [andb]; try done. f_equal. lia.
  - assert (forall x, covers p q x && withinb p x = false) as Hc.
    { intros x. unfold covers, withinb in *. destruct (Bool.eqb _ _ && _ && _) eqn:E; [|done]. cbn [andb].
      destruct (Z.leb_spec (Pkt.addr q) x), (Z.ltb_spec x (Pkt.addr q + Pkt.size q)), (Z.leb_spec (Pkt.addr p) x), (Z.ltb_spec x (Pkt.addr p + Pkt.size p)); try done.
      destruct Hno. split; [done|lia]. }
    exists q. rewrite try_apart; [|done|done|by apply write_print|].
    + split; [done|]. split; [by split_and!|]. intros x _. by rewrite Hc.
    + intros x Hx. specialize (Hc x). apply andb_false_iff in Hc as [?|Hc]; [done|]. unfold within, withinb in *.
      destruct (Z.leb_spec (Pkt.addr p) x), (Z.ltb_spec x (Pkt.addr p + Pkt.size p)); lia || done.
Qed.
Lemma try_list_write p l : writer p -> Forall (fun x => holder x.2) l ->
  exists l', try_list p l = Ok (false, p, l') /\
    Forall2 (fun x y => x.1 = y.1 /\ alike x.2 y.2 /\
      forall a, within x.2 a -> at_ y.2 a = if covers p x.2 a && withinb p a then at_ p a else at_ x.2 a) l l'.
Proof.
  intros Hp. induction 1 as [|[t q] l Hq _ [l' [E IH]]]; cbn [try_list]; [by exists []|]. cbn [snd] in Hq.
  destruct (try_write p q Hp Hq) as (q' & -> & Ha & Hx). cbn [mbind result_bind]. rewrite E. cbn [mbind result_bind].
  exists ((t, q') :: l'). split; [done|]. by constructor.
Qed.

(** ** Property *)

(** A functional access through a packet queue does not fault.  A read gets, for every byte
    that some packet tried holds, the byte of the last such packet, keeps the others, changes
    no packet, and is satisfied exactly if every byte was found, which is when the scan
    stops.  A write goes on through the whole queue and puts its bytes into every packet that
    holds them. *)
Theorem functional_access p s : Forall (fun x => holder x.2) (transmitList s) ->
  (reader p -> ~ (forall x, within p x -> filled p x = true) ->
    exists found p' l1 l2, trySatisfyFunctional p s = Ok ((found, p'), s) /\ transmitList s = l1 ++ l2 /\ alike p p' /\ (found = false -> l2 = []) /\
      (forall x, within p x -> at_ p' x = default (at_ p x) (overlay p l1 x)) /\
      (found = true <-> forall x, within p x -> overlay p l1 x <> None \/ filled p x = true)) /\
  (writer p -> exists s', trySatisfyFunctional p s = Ok ((false, p), s') /\
    Forall2 (fun x y => x.1 = y.1 /\ alike x.2 y.2 /\
      forall a, within x.2 a -> at_ y.2 a = if covers p x.2 a && withinb p a then at_ p a else at_ x.2 a) (transmitList s) (transmitList s')).
Proof.
  intros Hl. unfold trySatisfyFunctional, mbind, comp_bind, get, lift, modify. split.
  - intros Hp Hn. destruct (try_list_read (transmitList s) p Hp Hl Hn) as (found & p' & l1 & l2 & -> & _ & H). exists found, p', l1, l2.
    split; [|exact H]. by destruct s.
  - intros Hp. destruct (try_list_write p (transmitList s) Hp Hl) as (l' & -> & H). by exists (s <| transmitList := l' |>).
Qed.

(** A read of four bytes of which two responses in the queue hold three. *)
Definition functional_req (a n : Z) : Request.t := Request.mkRequest (Some a) (Some n) 0 1 None None [] (fun l => l) 0.
Definition functional_pkt (c : Command) (a : Z) (d : list Z) : Pkt.t :=
  Pkt.mkPkt c (Z.lor (Z.lor Pkt.VALID_ADDR Pkt.VALID_SIZE) Pkt.DYNAMIC_DATA) (functional_req a (zlen d)) d a false (zlen d) [] 0 0 0.
Definition functional_queue : t := (create false) <| transmitList := [(5, functional_pkt ReadResp 64 [1; 2]); (9, functional_pkt ReadResp 65 [3; 4])] |>.
Lemma functional_access_witness : exists p', trySatisfyFunctional (functional_pkt ReadReq 64 [0; 0; 0; 0]) functional_queue = Ok ((false, p'), functional_queue) /\
  Pkt.data p' = [1; 3; 4; 0].
Proof.
  assert (forall c a d, 0 <= a -> a + zlen d <= 2 ^ 64 -> d <> [] -> shaped (functional_pkt c a d) /\ payload (functional_pkt c a d)) as Hs.
  { intros c a d Ha Hd Hn. split; [|done]. split; [done|]. assert (0 < zlen d) by (destruct d; [done|unfold zlen; cbn; lia]). by cbn. }
  destruct (functional_access (functional_pkt ReadReq 64 [0; 0; 0; 0]) functional_queue) as [Hread _].
  { repeat constructor; by apply Hs. }
  destruct Hread as (found & p' & l1 & l2 & E & _).
  - destruct (Hs ReadReq 64 [0; 0; 0; 0]) as [? ?]; try done. split; try done. by left.
  - intros H. by specialize (H 64 ltac:(split; vm_compute; done)).
  - vm_compute in E. injection E as <- <-. eexists. split; vm_compute; reflexivity.
Defined.
End Functional.
