(* ===== verification/Clocked.v ===== *)
(** Clocked objects ([sim/clocked_object.hh]): the clock edge that follows the current tick,
    kept with its number from one call to the next. *)
From S2P Require Import Prelude Packet.
Open Scope Z_scope.

Module Clocked.

(** The two members; the period is what the clock domain answers. *)
Record t := mkClock { tick : Z; cycle : Z }.
#[global] Instance eta_t : Settable t := fun r => mkClock (tick r) (cycle r).
Definition create : t := mkClock 0 0.
Definition divCeil (a b : Z) : result Z := udiv (u64 (a + b - 1)) b.

Section Code.
Context (period now : Z).
Definition update : comp t unit :=
  s ← get;
  if now <=? tick s then mret tt
  else
    modify (fun s => s <| tick := tadd (tick s) period |> <| cycle := u64 (cycle s + 1) |>);;
    s ← get;
    if now <=? tick s then mret tt
    else
      elapsedCycles ← lift (divCeil (tsub now (tick s)) period);
      modify (fun s => s <| cycle := u64 (cycle s + elapsedCycles) |> <| tick := tadd (tick s) (u64 (elapsedCycles * period)) |>).
Definition clockEdge (cycles : Z) : comp t Z := update;; s ← get; mret (tadd (tick s) (u64 (period * cycles))).
Definition curCycle : comp t Z := update;; s ← get; mret (cycle s).
Definition nextCycle : comp t Z := clockEdge 1.
Definition ticksToCycles (x : Z) : result Z := divCeil x period.
Definition cyclesToTicks (c : Z) : Z := u64 (period * c).
Definition resetClock : comp t unit :=
  elapsedCycles ← lift (divCeil now period);
  modify (fun s => s <| cycle := elapsedCycles |> <| tick := u64 (elapsedCycles * period) |>).
End Code.
End Clocked.

(** ** The edges *)

Module ClockedSpec.
Import Clocked.
(** The first edge of a clock with an edge at [base] that is not before [now], and how many
    edges after [base] it is. *)
Definition edges_to (period base now : Z) : Z := Z.max 0 ((now - base + period - 1) / period).
Definition next_edge (period base now : Z) : Z := base + period * edges_to period base now.
(** The clock aligned to [now]. *)
Definition aligned (period now : Z) (s : t) : t :=
  mkClock (next_edge period (tick s) now) (u64 (cycle s + edges_to period (tick s) now)).

Lemma edges_early period base now : 0 < period -> now <= base -> edges_to period base now = 0.
Proof.
  intros Hp Hn. unfold edges_to. pose proof (Z.div_lt_upper_bound (now - base + period - 1) period 1 Hp). lia.
Qed.
Lemma edges_late period base now : 0 < period -> base < now ->
  edges_to period base now = (now - base + period - 1) / period /\ 0 < edges_to period base now.
Proof.
  intros Hp Hn. unfold edges_to. pose proof (Z.div_le_lower_bound (now - base + period - 1) period 1 Hp). lia.
Qed.
(** It is the first one. *)
Lemma next_edge_bounds period base now : 0 < period ->
  now <= next_edge period base now /\ base <= next_edge period base now /\ (base < now -> next_edge period base now < now + period).
Proof.
  intros Hp. unfold next_edge. destruct (Z.le_gt_cases now base) as [H|H].
  - rewrite edges_early by done. lia.
  - destruct (edges_late period base now Hp H) as [E E0]. rewrite E in *.
    pose proof (Z.div_mod (now - base + period - 1) period ltac:(lia)). pose proof (Z.mod_pos_bound (now - base + period - 1) period Hp). lia.
Qed.
Lemma next_edge_step period base now : 0 < period -> base + period < now ->
  (now - (base + period) + period - 1) / period = edges_to period base now - 1.
Proof.
  intros Hp Hn. destruct (edges_late period base now Hp ltac:(lia)) as [-> _].
  replace (now - base + period - 1) with (now - (base + period) + period - 1 + 1 * period) by lia. rewrite Z.div_add by lia. lia.
Qed.

(** Ticks that fit, and a clock that is not ahead of them. *)
Definition in_time (period now : Z) (s : t) : Prop :=
  0 < period /\ 0 <= tick s /\ 0 <= now /\ now + 2 * period < 2 ^ 64 /\ tick s + period < 2 ^ 64.
Lemma update_ok period now s : in_time period now s -> 0 <= cycle s < 2 ^ 64 -> update period now s = Ok (tt, aligned period now s).
Proof.
  intros (Hp & Ht & Hn & Hb & Hb2) Hc. destruct s as [base c]. cbn in *. unfold update, aligned, next_edge, mbind, comp_bind, get. cbn [tick cycle].
  destruct (Z.leb_spec now base) as [H|H].
  { rewrite edges_early by done. by rewrite Z.mul_0_r, !Z.add_0_r, u64_small. }
  unfold modify, over. cbn [tick cycle]. rewrite (tadd_small base period) by lia.
  destruct (Z.leb_spec now (base + period)) as [H2|H2].
  { assert (edges_to period base now = 1) as ->; [|by rewrite Z.mul_1_r].
    destruct (edges_late period base now Hp H) as [-> _]. symmetry. apply (Z.div_unique _ _ _ (now - base - 1)); lia. }
  unfold lift, divCeil. rewrite tsub_small by lia. rewrite u64_small by lia. unfold udiv. rewrite (proj2 (Z.eqb_neq period 0)) by lia.
  rewrite next_edge_step by done. destruct (edges_late period base now Hp H) as [E E0].
  pose proof (next_edge_bounds period base now Hp) as (_ & _ & Hlt). specialize (Hlt H). unfold next_edge in Hlt.
  rewrite (u64_small ((edges_to period base now - 1) * period)) by nia. rewrite (tadd_small (base + period)) by nia.
  cbn [cycle]. do 3 f_equal; [nia|]. unfold u64. rewrite Zplus_mod_idemp_l. f_equal. lia.
Qed.
Lemma clockEdge_ok period now n s : in_time period now s -> 0 <= cycle s < 2 ^ 64 -> 0 <= n -> next_edge period (tick s) now + period * n < 2 ^ 64 ->
  clockEdge period now n s = Ok (next_edge period (tick s) now + period * n, aligned period now s).
Proof.
  intros H Hc Hn Hb. unfold clockEdge, mbind, comp_bind. rewrite update_ok by done. unfold get. cbn [tick aligned mret comp_ret].
  pose proof (next_edge_bounds period (tick s) now ltac:(apply H)). destruct H as (Hp & Ht & _).
  rewrite u64_small by nia. by rewrite tadd_small by nia.
Qed.
(** A clock no further ahead than a period, and the edges it answers. *)
Definition clock_ok (period now : Z) (s : t) : Prop := 0 <= tick s < now + period /\ 0 <= cycle s < 2 ^ 64.
Lemma clockEdge_wp period now n s : 0 < period -> 0 <= now -> 0 <= n -> now + period * (n + 2) < 2 ^ 64 -> clock_ok period now s ->
  wp (clockEdge period now n) s (fun e s' => clock_ok period now s' /\ now + period * n <= e < now + period * (n + 1)).
Proof.
  intros Hp Hn Hk Hh [Ht Hc]. pose proof (next_edge_bounds period (tick s) now Hp) as (B1 & B2 & B3).
  assert (next_edge period (tick s) now < now + period) as B4.
  { destruct (Z.lt_ge_cases (tick s) now) as [Hlt|Hge]; [auto|]. unfold next_edge. rewrite edges_early by done. lia. }
  eapply wp_ok; [apply clockEdge_ok|].
  - split; [done|]. split_and!; nia.
  - done.
  - lia.
  - nia.
  - split; [|nia]. split; [cbn [aligned tick]; lia|]. cbn [aligned cycle]. apply u64_range.
Qed.
Lemma clock_later period now now' s : now <= now' -> clock_ok period now s -> clock_ok period now' s.
Proof. intros Hn [Ht Hc]. split; [lia|done]. Qed.
(** Aligning twice. *)
Lemma next_edge_mono period base now now' : 0 < period -> now <= now' -> next_edge period base now <= next_edge period base now'.
Proof.
  intros Hp Hn. unfold next_edge, edges_to. pose proof (Z.div_le_mono (now - base + period - 1) (now' - base + period - 1) period Hp). nia.
Qed.
Lemma next_edge_again period base now now' : 0 < period -> now <= now' ->
  next_edge period (next_edge period base now) now' = next_edge period base now'.
Proof.
  intros Hp Hn. unfold next_edge. remember (edges_to period base now) as e eqn:Ee.
  assert (edges_to period (base + period * e) now' = edges_to period base now' - e) as ->; [|lia].
  unfold edges_to. replace (now' - (base + period * e) + period - 1) with (now' - base + period - 1 + - e * period) by lia.
  rewrite Z.div_add by lia. unfold edges_to in Ee.
  pose proof (Z.div_le_mono (now - base + period - 1) (now' - base + period - 1) period Hp). lia.
Qed.
End ClockedSpec.
