(* ===== verification/Bridge.v ===== *)
(** The bridge ([mem/bridge.{hh,cc}]): two queues of delayed packets, one per direction, with
    room for the response reserved when a request is accepted. *)
From S2P Require Import Prelude Flags Packet MemCmd Request PacketData AddrRange PacketQueue Clocked.
Open Scope Z_scope.

Module Bridge.

Record Config := mkConfig { delay : Z; respQueueLimit : Z; reqQueueLimit : Z; ranges : list AddrRange.t; period : Z }.
(** A [DeferredPacket] is its tick and packet. *)
Definition deferred : Type := Z * Pkt.t.
(** Both ports; the last four members record what happened at them: the requests offered and
    whether they were accepted, the requests sent on, the responses received and sent on,
    each with its tick, and [retries] the calls of [sendRetryReq]. *)
Record t := mkBridge {
  clock : Clocked.t;
  resp_transmitList : list deferred; outstandingResponses : Z; retryReq : bool; resp_sendEvent : event;
  req_transmitList : list deferred; req_sendEvent : event;
  offered : list (Z * Pkt.t * bool); forwarded : list (Z * deferred);
  answered : list (Z * Pkt.t); returned : list (Z * deferred); retries : Z }.
#[global] Instance eta_t : Settable t := fun r =>
  mkBridge (clock r) (resp_transmitList r) (outstandingResponses r) (retryReq r) (resp_sendEvent r)
    (req_transmitList r) (req_sendEvent r) (offered r) (forwarded r) (answered r) (returned r) (retries r).
Definition create : t := mkBridge Clocked.create [] 0 false None [] None [] [] [] [] 0.
(** The constructor's arguments, the delay in ticks. *)
Definition config (delay_ticks resp_size req_size : Z) (l : list AddrRange.t) (period : Z) : result Config :=
  d ← Clocked.ticksToCycles period delay_ticks; Ok (mkConfig d (u32 resp_size) (u32 req_size) l period).

(** What the peer does with a packet: whether it accepts it, the packets it sends the other
    way before it returns, and the requests the requestor sends when it is told to retry. *)
Record answer := mkAnswer { accepted : bool; nested : list Pkt.t; again : list Pkt.t }.

Section Code.
Context (c : Config).
Definition respQueueFull (s : t) : bool := outstandingResponses s =? respQueueLimit c.
Definition reqQueueFull (s : t) : bool := zlen (req_transmitList s) =? reqQueueLimit c.

Section Now.
(** The current tick. *)
Context (now : Z).
Definition clockEdge (n : Z) : comp t Z := zoom clock (fun k s => s <| clock := k |>) (Clocked.clockEdge (period c) now n).

(** ** Accepting packets *)

Definition schedTimingReq (p : Pkt.t) (when : Z) : comp t unit :=
  s ← get;
  when_ (bool_decide (req_transmitList s = []))
    (e ← lift (schedule now (req_sendEvent s) when); modify (fun s => s <| req_sendEvent := e |>));;
  assert_ (negb (zlen (req_transmitList s) =? reqQueueLimit c));;
  modify (fun s => s <| req_transmitList ::= fun l => l ++ [(when, p)] |>).
Definition schedTimingResp (p : Pkt.t) (when : Z) : comp t unit :=
  s ← get;
  when_ (bool_decide (resp_transmitList s = []))
    (e ← lift (schedule now (resp_sendEvent s) when); modify (fun s => s <| resp_sendEvent := e |>));;
  modify (fun s => s <| resp_transmitList ::= fun l => l ++ [(when, p)] |>).

Definition recvTimingResp (p : Pkt.t) : comp t bool :=
  let '(receive_delay, p) := Pkt.receive p in
  edge ← clockEdge (delay c); schedTimingResp p (tadd edge receive_delay);; mret true.
Definition recvTimingReq (p : Pkt.t) : comp t bool :=
  if Pkt.cacheResponding p then lift (Fault Panic)
  else
    s ← get;
    if retryReq s then mret false
    else
      (if reqQueueFull s then modify (fun s => s <| retryReq := true |>)
       else
         when_ (MemCmd.needsResponse (Pkt.cmd p))
           (if respQueueFull s then modify (fun s => s <| retryReq := true |>)
            else assert_ (negb (outstandingResponses s =? respQueueLimit c));;
                 modify (fun s => s <| outstandingResponses := u32 (outstandingResponses s + 1) |>));;
         s ← get;
         when_ (negb (retryReq s))
           (let '(receive_delay, p) := Pkt.receive p in
            edge ← clockEdge (delay c); schedTimingReq p (tadd edge receive_delay)));;
      s ← get; mret (negb (retryReq s)).

(** The peers' calls, recorded. *)
Definition offer (p : Pkt.t) : comp t unit :=
  ok ← recvTimingReq p; modify (fun s => s <| offered ::= fun l => l ++ [(now, p, ok)] |>).
Definition respond (p : Pkt.t) : comp t unit :=
  recvTimingResp p;; modify (fun s => s <| answered ::= fun l => l ++ [(now, p)] |>).
Fixpoint each (f : Pkt.t -> comp t unit) (l : list Pkt.t) : comp t unit :=
  match l with [] => mret tt | p :: l' => f p;; each f l' end.
Definition sendRetryReq (l : list Pkt.t) : comp t unit := modify (fun s => s <| retries ::= fun n => n + 1 |>);; each offer l.
Definition retryStalledReq (l : list Pkt.t) : comp t unit :=
  s ← get; when_ (retryReq s) (modify (fun s => s <| retryReq := false |>);; sendRetryReq l).

(** ** Sending them on *)

Definition req_trySendTiming (a : answer) : comp t unit :=
  s ← get;
  match req_transmitList s with
  | [] => lift (Fault AssertFail)
  | req :: _ =>
      assert_ (req.1 <=? now);;
      each respond (nested a);;
      when_ (accepted a)
        (modify (fun s => s <| req_transmitList ::= tail |> <| forwarded ::= fun l => l ++ [(now, req)] |>);;
         s ← get;
         match req_transmitList s with
         | [] => mret tt
         | next_req :: _ =>
             edge ← clockEdge 0;
             s ← get;
             e ← lift (schedule now (req_sendEvent s) (Z.max next_req.1 edge));
             modify (fun s => s <| req_sendEvent := e |>)
         end;;
         retryStalledReq (again a))
  end.
Definition resp_trySendTiming (a : answer) : comp t unit :=
  s ← get;
  match resp_transmitList s with
  | [] => lift (Fault AssertFail)
  | resp :: _ =>
      assert_ (resp.1 <=? now);;
      each offer (nested a);;
      when_ (accepted a)
        (modify (fun s => s <| resp_transmitList ::= tail |> <| returned ::= fun l => l ++ [(now, resp)] |>);;
         s ← get;
         assert_ (negb (outstandingResponses s =? 0));;
         modify (fun s => s <| outstandingResponses ::= fun n => n - 1 |>);;
         s ← get;
         match resp_transmitList s with
         | [] => mret tt
         | next_resp :: _ =>
             edge ← clockEdge 0;
             s ← get;
             e ← lift (schedule now (resp_sendEvent s) (Z.max next_resp.1 edge));
             modify (fun s => s <| resp_sendEvent := e |>)
         end;;
         s ← get;
         when_ (negb (reqQueueFull s) && retryReq s) (modify (fun s => s <| retryReq := false |>);; sendRetryReq (again a)))
  end.
Definition recvReqRetry : answer -> comp t unit := req_trySendTiming.
Definition recvRespRetry : answer -> comp t unit := resp_trySendTiming.
(** The events are served at their ticks. *)
Definition req_process (a : answer) : comp t unit := modify (fun s => s <| req_sendEvent := None |>);; req_trySendTiming a.
Definition resp_process (a : answer) : comp t unit := modify (fun s => s <| resp_sendEvent := None |>);; resp_trySendTiming a.
End Now.

(** ** Atomic and functional accesses *)

Definition recvAtomic (sendAtomic : Pkt.t -> Z * Pkt.t) (p : Pkt.t) : result (Z * Pkt.t) :=
  if Pkt.cacheResponding p then Fault Panic
  else let '(latency, p) := sendAtomic p in Ok (tadd (u64 (delay c * period c)) latency, p).
Definition req_trySatisfyFunctional (p : Pkt.t) : comp t (bool * Pkt.t) :=
  s ← get;
  '(found, p, l) ← lift (PacketQueue.try_list p (req_transmitList s));
  modify (fun s => s <| req_transmitList := l |>);;
  if found : bool then p ← lift (Pkt.makeResponse p); mret (true, p) else mret (false, p).
(** [true]: the packet is answered; [false]: it goes on to the memory side. *)
Definition recvFunctional (p : Pkt.t) : comp t (bool * Pkt.t) :=
  s ← get;
  '(found, p, l) ← lift (PacketQueue.try_list p (resp_transmitList s));
  modify (fun s => s <| resp_transmitList := l |>);;
  if found : bool then p ← lift (Pkt.makeResponse p); mret (true, p)
  else req_trySatisfyFunctional p.
End Code.
End Bridge.
