(* ===== verification/BridgeSpec.v ===== *)
(** What the bridge promises: the room it reserves is enough for every response, packets leave
    in order and not before their delay, none is lost, and a requestor it has turned away is
    told to retry. *)
From S2P Require Import Prelude Flags Packet MemCmd Request PacketData AddrRange PacketQueue Clocked Bridge.
From stdpp Require Import list.
Open Scope Z_scope.
Import Bridge ClockedSpec.

Module BridgeSpec.
Section Invariant.
Context (c : Config).
Implicit Types (now : Z) (s : t).

Record config_ok : Prop := {
  co_period : 0 < period c; co_delay : 0 <= delay c;
  co_resp : 0 <= respQueueLimit c < 2 ^ 32; co_req : 0 <= reqQueueLimit c < 2 ^ 32 }.
(** Ticks up to [now] do not wrap. *)
Definition horizon now : Prop := 0 <= now /\ now + period c * (delay c + 2) + 2 ^ 32 < 2 ^ 64.

(** ** The invariant *)

Definition need (p : Pkt.t) : bool := MemCmd.needsResponse (Pkt.cmd p).
Definition needs (l : list Pkt.t) : Z := lsum (fun p => Z.b2z (need p)) l.
(** The responses the memory side owes. *)
Definition in_flight s : Z := needs ((fun x => x.2.2) <$> forwarded s) - zlen (answered s).
Definition taken s : list (Z * Pkt.t) := omap (fun x : Z * Pkt.t * bool => if x.2 then Some x.1 else None) (offered s).
(** A packet that came at a tick and the entry it becomes. *)
Definition passes (a : Z * Pkt.t) (d : deferred) : Prop :=
  d.2 = (Pkt.receive a.2).2 /\ a.1 + period c * delay c + (Pkt.receive a.2).1 <= d.1 < a.1 + period c * (delay c + 1) + (Pkt.receive a.2).1.
(** The event of a queue is scheduled for its first packet, or that packet waits for the
    peer. *)
Definition side now (l : list deferred) (e : event) : Prop :=
  match l, e with
  | [], None => True
  | [], Some _ => False
  | x :: _, Some w => now <= w /\ x.1 <= w
  | x :: _, None => x.1 <= now
  end.
#[local] Abbreviation clock_ok := (ClockedSpec.clock_ok (period c)).

Record good now s : Prop := {
  gd_clock : clock_ok now (clock s);
  gd_room : zlen (req_transmitList s) <= reqQueueLimit c;
  gd_flight : 0 <= in_flight s;
  gd_credit : outstandingResponses s = needs (snd <$> req_transmitList s) + in_flight s + zlen (resp_transmitList s);
  gd_limit : outstandingResponses s <= respQueueLimit c;
  gd_stall : retryReq s = true -> reqQueueFull c s = true \/ outstandingResponses s = respQueueLimit c;
  gd_req : side now (req_transmitList s) (req_sendEvent s);
  gd_resp : side now (resp_transmitList s) (resp_sendEvent s);
  gd_requests : Forall2 passes (taken s) ((snd <$> forwarded s) ++ req_transmitList s);
  gd_responses : Forall2 passes (answered s) ((snd <$> returned s) ++ resp_transmitList s);
  gd_early : Forall (fun x => x.2.1 <= x.1) (forwarded s ++ returned s) }.

Lemma needs_nonneg l : 0 <= needs l.
Proof. unfold needs. induction l as [|p l IH]; cbn [lsum]; [done|]. destruct (need p); cbn; lia. Qed.
Lemma receive_range p : 0 <= (Pkt.receive p).1 < 2 ^ 32.
Proof. apply u32_range. Qed.

(** ** Steps of the parts *)

Context (Hc : config_ok).

Lemma bridge_clockEdge_wp now n s : horizon now -> clock_ok now (clock s) -> 0 <= n <= delay c ->
  wp (clockEdge c now n) s (fun e s' => exists k, s' = s <| clock := k |> /\ clock_ok now k /\ now + period c * n <= e < now + period c * (n + 1)).
Proof.
  intros [Hn Hh] Hk Hd. pose proof (co_period Hc). unfold clockEdge. wp_step.
  eapply wp_mono; [apply ClockedSpec.clockEdge_wp; [done|done|lia|nia|done]|]. intros e k [Hk' He]. by exists k.
Qed.

Lemma side_snoc now l e d : side now l e -> l <> [] -> side now (l ++ [d]) e.
Proof. by destruct l. Qed.
(** Appending to the queue of requests. *)
Lemma schedTimingReq_wp now p when s : now <= when -> side now (req_transmitList s) (req_sendEvent s) -> reqQueueFull c s = false ->
  wp (schedTimingReq c now p when) s (fun _ s' => exists e, s' = s <| req_transmitList ::= fun l => l ++ [(when, p)] |> <| req_sendEvent := e |> /\
    side now (req_transmitList s ++ [(when, p)]) e).
Proof.
  intros Hw Hs Hf. unfold schedTimingReq. unfold reqQueueFull in Hf. wp_step. wp_step. wp_step. apply wp_when; case_bool_decide as E; try done; intros _.
  - rewrite E in Hs, Hf |- *. destruct (req_sendEvent s) eqn:Ee; [done|]. wp_step. wp_step. unfold schedule. rewrite (proj2 (Z.leb_le _ _) Hw). cbn [andb negb scheduled rp].
    wp_step. wp_step. apply wp_assert; [by rewrite Hf|]. wp_step. exists (Some when).
    split; [by destruct s|]. cbn. lia.
  - wp_step. apply wp_assert; [by rewrite Hf|]. wp_step. exists (req_sendEvent s). split; [by destruct s|]. by apply side_snoc.
Qed.
Lemma schedTimingResp_wp now p when s : now <= when -> side now (resp_transmitList s) (resp_sendEvent s) ->
  wp (schedTimingResp now p when) s (fun _ s' => exists e, s' = s <| resp_transmitList ::= fun l => l ++ [(when, p)] |> <| resp_sendEvent := e |> /\
    side now (resp_transmitList s ++ [(when, p)]) e).
Proof.
  intros Hw Hs. unfold schedTimingResp. wp_step. wp_step. wp_step. apply wp_when; case_bool_decide as E; try done; intros _.
  - rewrite E in Hs |- *. destruct (resp_sendEvent s) eqn:Ee; [done|]. wp_step. wp_step. unfold schedule. rewrite (proj2 (Z.leb_le _ _) Hw). cbn [andb negb scheduled rp].
    wp_step. wp_step. exists (Some when). split; [by destruct s|]. cbn. lia.
  - wp_step. exists (resp_sendEvent s). split; [by destruct s|]. by apply side_snoc.
Qed.

(** ** Receiving *)

(** What the packets from the memory side leave as it was, and those from the requestor. *)
Record kept_req s s' : Prop := {
  kr_list : req_transmitList s' = req_transmitList s; kr_event : req_sendEvent s' = req_sendEvent s;
  kr_forwarded : forwarded s' = forwarded s; kr_returned : returned s' = returned s; kr_offered : offered s' = offered s;
  kr_retry : retryReq s' = retryReq s; kr_retries : retries s' = retries s }.
Record kept_resp s s' : Prop := {
  kp_list : resp_transmitList s' = resp_transmitList s; kp_event : resp_sendEvent s' = resp_sendEvent s;
  kp_forwarded : forwarded s' = forwarded s; kp_answered : answered s' = answered s;
  kp_returned : returned s' = returned s; kp_retries : retries s' = retries s }.
Lemma kept_req_refl s : kept_req s s.
Proof. done. Qed.
Lemma kept_req_trans s1 s2 s3 : kept_req s1 s2 -> kept_req s2 s3 -> kept_req s1 s3.
Proof. intros [] []. split; congruence. Qed.
Lemma kept_resp_trans s1 s2 s3 : kept_resp s1 s2 -> kept_resp s2 s3 -> kept_resp s1 s3.
Proof. intros [] []. split; congruence. Qed.

Lemma passes_edge now p e : now + period c * delay c <= e < now + period c * (delay c + 1) -> horizon now ->
  now <= tadd e (Pkt.receive p).1 /\ passes (now, p) (tadd e (Pkt.receive p).1, (Pkt.receive p).2).
Proof.
  intros He [Hn Hh]. pose proof (receive_range p). pose proof (co_period Hc). pose proof (co_delay Hc). unfold passes. cbn [fst snd].
  destruct (Pkt.receive p) as [rd q]. cbn [fst snd] in *. rewrite tadd_small by nia. split; [nia|]. split; [done|lia].
Qed.
Lemma zlen_snoc {A} (l : list A) x : zlen (l ++ [x]) = zlen l + 1.
Proof. unfold zlen. rewrite length_app. cbn. lia. Qed.
Lemma in_flight_answer now p s : in_flight (s <| answered ::= fun l => l ++ [(now, p)] |>) = in_flight s - 1.
Proof. unfold in_flight. cbn [answered forwarded over]. rewrite zlen_snoc. lia. Qed.

Lemma bridge_respond_wp now p s : good now s -> horizon now -> 0 < in_flight s ->
  wp (respond c now p) s (fun _ s' => good now s' /\ kept_req s s' /\ in_flight s' = in_flight s - 1 /\ answered s' = answered s ++ [(now, p)]).
Proof.
  intros H Hh Hf. unfold respond, recvTimingResp. destruct (Pkt.receive p) as [rd q] eqn:Er. wp_step. wp_step.
  eapply wp_mono; [apply bridge_clockEdge_wp; [done|apply H|pose proof (co_delay Hc); lia]|]. intros e s1 (k & -> & Hk & He).
  pose proof (passes_edge now p e He Hh) as [Hw Hp]. rewrite Er in Hw, Hp. cbn [fst snd] in Hw, Hp.
  wp_step. eapply wp_mono; [apply schedTimingResp_wp; [done|apply H]|]. intros [] s2 (ev & -> & Hs). wp_step. wp_step.
  assert (forall s', s' = s <| clock := k |> <| resp_transmitList ::= fun l => l ++ [(tadd e rd, q)] |> <| resp_sendEvent := ev |> <| answered ::= fun l => l ++ [(now, p)] |> ->
    good now s' /\ kept_req s s' /\ in_flight s' = in_flight s - 1 /\ answered s' = answered s ++ [(now, p)]) as HH; [|by apply HH].
  intros s' ->. split; [|split; [by split|split; [by apply (in_flight_answer now p s)|done]]]. destruct H. split; try done.
  - change (0 <= in_flight (s <| answered ::= fun l => l ++ [(now, p)] |>)). rewrite in_flight_answer. lia.
  - change (outstandingResponses s = needs (snd <$> req_transmitList s) + in_flight (s <| answered ::= fun l => l ++ [(now, p)] |>) + zlen (resp_transmitList s ++ [(tadd e rd, q)])).
    rewrite in_flight_answer, zlen_snoc. lia.
  - change (Forall2 passes (answered s ++ [(now, p)]) ((snd <$> returned s) ++ (resp_transmitList s ++ [(tadd e rd, q)]))).
    rewrite app_assoc. apply Forall2_app; [done|]. apply Forall2_cons_2; [exact Hp|apply Forall2_nil_2].
Qed.
Lemma each_respond_wp now l : forall s, good now s -> horizon now -> zlen l <= in_flight s ->
  wp (each (respond c now) l) s (fun _ s' => good now s' /\ kept_req s s' /\ in_flight s' = in_flight s - zlen l /\
    answered s' = answered s ++ (pair now <$> l)).
Proof.
  induction l as [|p l IH]; intros s H Hh Hl; cbn [each].
  { wp_step. rewrite app_nil_r. split; [done|]. split; [done|]. split; [unfold zlen; cbn; lia|done]. }
  assert (zlen (p :: l) = zlen l + 1) as Ez by (unfold zlen; cbn; lia). pose proof (zlen_nonneg l).
  wp_step. eapply wp_mono; [apply bridge_respond_wp; [done..|lia]|]. intros [] s1 (H1 & K1 & F1 & A1).
  eapply wp_mono; [apply IH; [done..|lia]|]. intros [] s2 (H2 & K2 & F2 & A2). split; [done|]. split; [by eapply kept_req_trans|]. split; [lia|].
  rewrite A2, A1, <- app_assoc. done.
Qed.

(** Whether a request is accepted. *)
Definition accepts s (p : Pkt.t) : bool := negb (retryReq s) && negb (reqQueueFull c s) && (negb (need p) || negb (respQueueFull c s)).
Lemma needs_snoc l p : needs (l ++ [p]) = needs l + Z.b2z (need p).
Proof. unfold needs. rewrite lsum_app. cbn [lsum]. lia. Qed.
Lemma good_stall now s : good now s -> reqQueueFull c s = true \/ outstandingResponses s = respQueueLimit c -> good now (s <| retryReq := true |>).
Proof. intros [] Hs. by split. Qed.
Lemma good_offered now s p : good now s -> good now (s <| offered ::= fun l => l ++ [(now, p, false)] |>).
Proof. intros []. split; try done. unfold taken. cbn [offered over]. rewrite omap_app, app_nil_r. done. Qed.

Lemma reserved_nonneg now s : good now s -> 0 <= outstandingResponses s.
Proof.
  intros H. rewrite (gd_credit _ _ H). pose proof (needs_nonneg (snd <$> req_transmitList s)). pose proof (zlen_nonneg (resp_transmitList s)).
  pose proof (gd_flight _ _ H). lia.
Qed.

Definition reserve p s : t := s <| outstandingResponses ::= fun n => n + Z.b2z (need p) |>.
Lemma bridge_accept_wp now p s : good now s -> horizon now -> retryReq s = false -> reqQueueFull c s = false ->
  (need p = true -> outstandingResponses s < respQueueLimit c) ->
  wp (let '(receive_delay, p) := Pkt.receive p in
      edge ← clockEdge c now (delay c); schedTimingReq c now p (tadd edge receive_delay)) (reserve p s)
    (fun _ s' => retryReq s' = false /\ good now (s' <| offered ::= fun l => l ++ [(now, p, true)] |>) /\ kept_resp s s' /\ offered s' = offered s /\
       exists d, req_transmitList s' = req_transmitList s ++ [d]).
Proof.
  intros H Hh Hr Hf Hn. destruct (Pkt.receive p) as [rd q] eqn:Er. wp_step.
  eapply wp_mono; [apply bridge_clockEdge_wp; [done|apply H|pose proof (co_delay Hc); lia]|]. intros e s1 (k & -> & Hk & He).
  pose proof (passes_edge now p e He Hh) as [Hw Hp]. rewrite Er in Hw, Hp. cbn [fst snd] in Hw, Hp.
  eapply wp_mono; [apply schedTimingReq_wp; [done|apply H|exact Hf]|]. intros [] s2 (ev & -> & Hs).
  split; [exact Hr|]. split; [|split; [by split|split; [done|by eexists]]].
  assert (zlen (req_transmitList s ++ [(tadd e rd, q)]) <= reqQueueLimit c) as Hz.
  { rewrite zlen_snoc. apply Z.eqb_neq in Hf. pose proof (gd_room _ _ H). lia. }
  assert (need q = need p) as Eq.
  { unfold Pkt.receive in Er. injection Er as _ <-. done. }
  destruct H. split; try done.
  - change (outstandingResponses s + Z.b2z (need p) = needs (snd <$> req_transmitList s ++ [(tadd e rd, q)]) + in_flight s + zlen (resp_transmitList s)).
    rewrite fmap_app. cbn [fmap list_fmap snd]. rewrite needs_snoc, Eq. lia.
  - change (outstandingResponses s + Z.b2z (need p) <= respQueueLimit c). destruct (need p); cbn [Z.b2z]; [specialize (Hn eq_refl); lia|lia].
  - change (retryReq s = true -> reqQueueFull c (s <| req_transmitList ::= fun l => l ++ [(tadd e rd, q)] |>) = true \/ outstandingResponses s + Z.b2z (need p) = respQueueLimit c).
    by rewrite Hr.
  - change (Forall2 passes (omap (fun x : Z * Pkt.t * bool => if x.2 then Some x.1 else None) (offered s ++ [(now, p, true)]))
      ((snd <$> forwarded s) ++ (req_transmitList s ++ [(tadd e rd, q)]))).
    rewrite omap_app, app_assoc. apply Forall2_app; [done|]. apply Forall2_cons_2; [exact Hp|apply Forall2_nil_2].
Qed.
Lemma bridge_offer_wp now p s : good now s -> horizon now -> Pkt.cacheResponding p = false ->
  wp (offer c now p) s (fun _ s' => good now s' /\ kept_resp s s' /\ offered s' = offered s ++ [(now, p, accepts s p)] /\
    exists l, req_transmitList s' = req_transmitList s ++ l).
Proof.
  intros H Hh Hcr. unfold offer, recvTimingReq, accepts. rewrite Hcr. wp_step. wp_step. wp_step. destruct (retryReq s) eqn:Er.
  { wp_step. wp_step. cbn [negb andb]. split; [by apply good_offered|]. split; [done|]. split; [done|]. exists []. cbn. by rewrite app_nil_r. }
  cbn [negb andb]. assert (forall s0, reqQueueFull c s = true \/ outstandingResponses s = respQueueLimit c -> s0 = s <| retryReq := true |> ->
    wp (s0 ← get; mret (negb (retryReq s0))) s0 (fun ok s' => wp (modify (fun s => s <| offered ::= fun l => l ++ [(now, p, ok)] |>)) s' (fun _ s' =>
      good now s' /\ kept_resp s s' /\ offered s' = offered s ++ [(now, p, false)] /\ exists l, req_transmitList s' = req_transmitList s ++ l))) as Hrefuse.
  { intros s0 Hs ->. wp_step. wp_step. wp_step. wp_step. split; [by apply good_offered, good_stall|]. split; [by split|]. split; [done|]. exists []. cbn. by rewrite app_nil_r. }
  destruct (reqQueueFull c s) eqn:Ef; cbn [negb andb].
  { wp_step. wp_step. apply Hrefuse; auto. }
  wp_step. wp_step. fold (need p). unfold respQueueFull at 1 2.
  apply wp_when; intros En; rewrite ?En; cbn [negb orb].
  - destruct (Z.eqb_spec (outstandingResponses s) (respQueueLimit c)) as [El|El]; cbn [negb].
    { wp_step. wp_step. wp_step. cbn [retryReq over negb when_]. wp_step. apply Hrefuse; auto. }
    wp_step. apply wp_assert; [done|]. wp_step. wp_step. wp_step. cbn [retryReq over]. rewrite Er. cbn [negb when_].
    pose proof (reserved_nonneg _ _ H). pose proof (gd_limit _ _ H). pose proof (co_resp Hc). rewrite u32_small by lia.
    assert (s <| outstandingResponses := outstandingResponses s + 1 |> = reserve p s) as -> by (unfold reserve; rewrite En; done).
    eapply wp_mono; [by apply (bridge_accept_wp now p s); try done; lia|]. intros [] s1 (Hr1 & Hg1 & K & Eo & d & El1). wp_step. wp_step. wp_step. wp_step.
    rewrite Hr1. cbn [negb]. split; [done|]. split; [destruct K; by split|]. split; [cbn [offered over]; by rewrite Eo|]. by exists [d].
  - wp_step. wp_step. rewrite Er. cbn [negb when_].
    assert (reserve p s = s) as Es by (unfold reserve; rewrite En; destruct s; unfold over; cbn -[Z.add]; by rewrite Z.add_0_r).
    assert (need p = true -> outstandingResponses s < respQueueLimit c) as Hn by by rewrite En.
    pose proof (bridge_accept_wp now p s H Hh Er Ef Hn) as Hw. rewrite Es in Hw. eapply wp_mono; [exact Hw|]. intros [] s1 (Hr1 & Hg1 & K & Eo & d & El1). wp_step. wp_step. wp_step. wp_step.
    rewrite Hr1. cbn [negb]. split; [done|]. split; [destruct K; by split|]. split; [cbn [offered over]; by rewrite Eo|]. by exists [d].
Qed.
Definition grows s s' : Prop := exists l, req_transmitList s' = req_transmitList s ++ l.
(** Requests that no cache has claimed. *)
Definition plain (l : list Pkt.t) : Prop := Forall (fun p => Pkt.cacheResponding p = false) l.
Lemma each_offer_wp now l : forall s, good now s -> horizon now -> plain l ->
  wp (each (offer c now) l) s (fun _ s' => good now s' /\ kept_resp s s' /\ fst <$> offered s' = (fst <$> offered s) ++ (pair now <$> l) /\ grows s s').
Proof.
  induction l as [|p l IH]; intros s H Hh Hl; cbn [each].
  { wp_step. rewrite app_nil_r. split; [done|]. split; [done|]. split; [done|]. exists []. by rewrite app_nil_r. }
  apply Forall_cons_1 in Hl as [Hp Hl]. wp_step. eapply wp_mono; [by apply bridge_offer_wp|]. intros [] s1 (H1 & K1 & O1 & l1 & E1).
  eapply wp_mono; [by apply IH|]. intros [] s2 (H2 & K2 & O2 & l2 & E2). split; [done|]. split; [by eapply kept_resp_trans|]. split.
  - rewrite O2, O1, fmap_app, <- app_assoc. done.
  - exists (l1 ++ l2). by rewrite E2, E1, app_assoc.
Qed.
Lemma sendRetryReq_wp now l s : good now s -> horizon now -> plain l ->
  wp (sendRetryReq c now l) s (fun _ s' => good now s' /\ kept_resp (s <| retries ::= fun n => n + 1 |>) s' /\
    fst <$> offered s' = (fst <$> offered s) ++ (pair now <$> l) /\ grows s s').
Proof.
  intros H Hh Hl. unfold sendRetryReq. wp_step. wp_step.
  eapply wp_mono; [apply each_offer_wp; [destruct H; by split|done..]|]. intros [] s' (H' & K & O & G). done.
Qed.

(** ** Sending *)

Lemma good_pop_req now s x l k e : good now s -> req_transmitList s = x :: l -> req_sendEvent s = None -> clock_ok now k -> side now l e ->
  good now (s <| req_transmitList := l |> <| forwarded ::= fun q => q ++ [(now, x)] |> <| clock := k |> <| req_sendEvent := e |> <| retryReq := false |>).
Proof.
  intros H El Ee Hk Hs. pose proof (gd_req _ _ H) as Hx. rewrite El, Ee in Hx. cbn [side] in Hx.
  assert (needs ((fun x => x.2.2) <$> (forwarded s ++ [(now, x)])) = needs ((fun x => x.2.2) <$> forwarded s) + Z.b2z (need x.2)) as En.
  { rewrite fmap_app. cbn [fmap list_fmap snd]. apply needs_snoc. }
  assert (zlen (x :: l) = zlen l + 1) as Ez by (unfold zlen; cbn [length]; lia).
  destruct H. rewrite El in *. split; try done.
  - change (zlen l <= reqQueueLimit c). lia.
  - change (0 <= needs ((fun x => x.2.2) <$> (forwarded s ++ [(now, x)])) - zlen (answered s)). rewrite En. unfold in_flight in gd_flight0.
    destruct (need x.2); cbn [Z.b2z]; lia.
  - change (outstandingResponses s = needs (snd <$> l) + (needs ((fun x => x.2.2) <$> (forwarded s ++ [(now, x)])) - zlen (answered s)) + zlen (resp_transmitList s)).
    rewrite En. unfold in_flight in gd_credit0. change (needs (snd <$> x :: l)) with (Z.b2z (need x.2) + needs (snd <$> l)) in gd_credit0. lia.
  - change (Forall2 passes (taken s) ((snd <$> (forwarded s ++ [(now, x)])) ++ l)). rewrite fmap_app, <- app_assoc. done.
  - change (Forall (fun x => x.2.1 <= x.1) ((forwarded s ++ [(now, x)]) ++ returned s)). apply Forall_app in gd_early0 as [F1 F2].
    repeat (apply Forall_app; split); try done. constructor; [exact Hx|constructor].
Qed.
Lemma good_pop_resp now s x l k e b : good now s -> resp_transmitList s = x :: l -> resp_sendEvent s = None -> clock_ok now k -> side now l e ->
  (b = true -> reqQueueFull c s = true) ->
  good now (s <| resp_transmitList := l |> <| returned ::= fun q => q ++ [(now, x)] |> <| outstandingResponses ::= fun n => n - 1 |> <| clock := k |>
    <| resp_sendEvent := e |> <| retryReq := b |>).
Proof.
  intros H El Ee Hk Hs Hb. pose proof (gd_resp _ _ H) as Hx. rewrite El, Ee in Hx. cbn [side] in Hx.
  assert (zlen (x :: l) = zlen l + 1) as Ez by (unfold zlen; cbn [length]; lia).
  destruct H. rewrite El in *. split; try done.
  - change (outstandingResponses s - 1 = needs (snd <$> req_transmitList s) + in_flight s + zlen l). lia.
  - change (outstandingResponses s - 1 <= respQueueLimit c). lia.
  - intros E. left. by apply Hb.
  - change (Forall2 passes (answered s) ((snd <$> (returned s ++ [(now, x)])) ++ l)). rewrite fmap_app, <- app_assoc. done.
  - change (Forall (fun x => x.2.1 <= x.1) (forwarded s ++ (returned s ++ [(now, x)]))). apply Forall_app in gd_early0 as [F1 F2].
    repeat (apply Forall_app; split); try done. constructor; [exact Hx|constructor].
Qed.

(** The next packet gets the event. *)
Lemma schedule_first now e w : e = None -> now <= w -> schedule now e w = Ok (Some w).
Proof. intros -> H. unfold schedule. by rewrite (proj2 (Z.leb_le _ _) H). Qed.

Lemma retryStalledReq_wp now l s : good now (s <| retryReq := false |>) -> horizon now -> plain l ->
  wp (retryStalledReq c now l) s (fun _ s' => good now s' /\ answered s' = answered s /\ returned s' = returned s /\ forwarded s' = forwarded s /\
    retries s' = retries s + Z.b2z (retryReq s) /\ fst <$> offered s' = (fst <$> offered s) ++ (if retryReq s then pair now <$> l else [])).
Proof.
  intros H Hh Hl. unfold retryStalledReq. wp_step. wp_step. apply wp_when; intros Er; rewrite Er; cbn [Z.b2z].
  - wp_step. wp_step. eapply wp_mono; [by apply sendRetryReq_wp|]. intros [] s' (H' & [] & O & _). done.
  - assert (s <| retryReq := false |> = s) as Es by (destruct s; cbn in Er; by subst). rewrite Es in H.
    rewrite app_nil_r. split_and!; try done. lia.
Qed.
Lemma req_trySendTiming_wp now a s x l : good now s -> horizon now -> req_transmitList s = x :: l -> req_sendEvent s = None ->
  zlen (nested a) <= in_flight s -> plain (again a) ->
  wp (req_trySendTiming c now a) s (fun _ s' => good now s' /\ answered s' = answered s ++ (pair now <$> nested a) /\ returned s' = returned s /\
    forwarded s' = forwarded s ++ (if accepted a then [(now, x)] else []) /\
    retries s' = retries s + Z.b2z (accepted a && retryReq s) /\
    fst <$> offered s' = (fst <$> offered s) ++ (if accepted a && retryReq s then pair now <$> again a else [])).
Proof.
  intros H Hh El Ee Hn Hp. pose proof (gd_req _ _ H) as Hx. rewrite El, Ee in Hx. cbn [side] in Hx.
  unfold req_trySendTiming. wp_step. wp_step. rewrite El. wp_step. apply wp_assert; [by apply Z.leb_le|].
  wp_step. eapply wp_mono; [by apply each_respond_wp|]. intros [] s1 (H1 & K1 & F1 & A1).
  rewrite <- A1. destruct (accepted a); cbn [andb Z.b2z when_]; cycle 1.
  { wp_step. rewrite (kr_forwarded _ _ K1), (kr_retries _ _ K1), (kr_offered _ _ K1), (kr_returned _ _ K1), !app_nil_r. split_and!; try done. lia. }
  wp_step. wp_step. wp_step. wp_step. rewrite <- (kr_list _ _ K1) in El. rewrite <- (kr_event _ _ K1) in Ee. cbn [req_transmitList over]. rewrite El. cbn [tail].
  destruct K1 as [_ _ Kf Kret Ko Kr Kn]. rewrite <- Kr, <- Kn, <- Kf, <- Ko, <- Kret. clear H Hn Kf Kret Ko Kr Kn.
  destruct l as [|y l].
  - wp_step. wp_step. eapply wp_mono; [apply retryStalledReq_wp; try done|].
    + pose proof (good_pop_req now s1 x [] (clock s1) None H1 El Ee (gd_clock _ _ H1) I) as Hg.
      destruct s1. cbn in El, Ee. subst. exact Hg.
    + intros [] s' (H' & A & R & F & Rt & O). done.
  - wp_step. wp_step. eapply wp_mono; [apply bridge_clockEdge_wp; [done|apply H1|pose proof (co_delay Hc); lia]|]. intros edge s2 (k & -> & Hk & He).
    wp_step. wp_step. wp_step. wp_step. rewrite (schedule_first now _ (Z.max y.1 edge)) by (try exact Ee; lia). cbn [rp]. wp_step.
    eapply wp_mono; [apply retryStalledReq_wp; try done|].
    + pose proof (good_pop_req now s1 x (y :: l) k (Some (Z.max y.1 edge)) H1 El Ee Hk ltac:(cbn; lia)) as Hg.
      destruct s1. cbn in El, Ee. subst. exact Hg.
    + intros [] s' (H' & A & R & F & Rt & O). done.
Qed.
Lemma resp_trySendTiming_wp now a s x l : good now s -> horizon now -> resp_transmitList s = x :: l -> resp_sendEvent s = None ->
  plain (nested a) -> plain (again a) ->
  wp (resp_trySendTiming c now a) s (fun _ s' => good now s' /\ forwarded s' = forwarded s /\ answered s' = answered s /\
    returned s' = returned s ++ (if accepted a then [(now, x)] else []) /\
    exists told : bool, retries s' = retries s + Z.b2z told /\
      fst <$> offered s' = (fst <$> offered s) ++ (pair now <$> nested a) ++ (if told then pair now <$> again a else [])).
Proof.
  intros H Hh El Ee Hn Hp. pose proof (gd_resp _ _ H) as Hx. rewrite El, Ee in Hx. cbn [side] in Hx.
  unfold resp_trySendTiming. wp_step. wp_step. rewrite El. wp_step. apply wp_assert; [by apply Z.leb_le|].
  wp_step. eapply wp_mono; [by apply each_offer_wp|]. intros [] s1 (H1 & [Kl Ke Kf Ka Kr Kn] & O1 & _).
  apply (wp_mono _ _ (fun _ s' => good now s' /\ forwarded s' = forwarded s /\ answered s' = answered s /\
    returned s' = returned s ++ (if accepted a then [(now, x)] else []) /\
    exists told : bool, retries s' = retries s + Z.b2z told /\
      fst <$> offered s' = (fst <$> offered s1) ++ (if told then pair now <$> again a else []))); cycle 1.
  { intros [] s' (H' & F & A & R & told & Rt & O). split_and!; try done. exists told. by rewrite app_assoc, <- O1. }
  destruct (accepted a); cbn [when_]; cycle 1.
  { wp_step. rewrite Kf, Ka, Kr, app_nil_r. split_and!; try done. exists false. rewrite app_nil_r. split; [cbn; lia|done]. }
  rewrite <- Kl in El. rewrite <- Ke in Ee. rewrite <- Kf, <- Ka, <- Kr, <- Kn. clear H Kl Ke Kf Ka Kr Kn O1.
  assert (1 <= outstandingResponses s1) as Ho.
  { pose proof (gd_credit _ _ H1) as Hcr. rewrite El in Hcr. pose proof (needs_nonneg (snd <$> req_transmitList s1)). pose proof (gd_flight _ _ H1).
    unfold zlen in Hcr. cbn [length] in Hcr. lia. }
  wp_step. wp_step. wp_step. wp_step. wp_step. apply wp_assert; [change (negb (outstandingResponses s1 =? 0) = true); by rewrite (proj2 (Z.eqb_neq _ _)) by lia|].
  wp_step. wp_step. wp_step. wp_step. cbn [resp_transmitList over]. rewrite El. cbn [tail].
  assert (forall s2, (forall b, (b = true -> reqQueueFull c s1 = true) -> good now (s2 <| retryReq := b |>)) -> retryReq s2 = retryReq s1 ->
    req_transmitList s2 = req_transmitList s1 -> forwarded s2 = forwarded s1 -> answered s2 = answered s1 -> returned s2 = returned s1 ++ [(now, x)] ->
    retries s2 = retries s1 -> offered s2 = offered s1 ->
    wp (s ← get; when_ (negb (reqQueueFull c s) && retryReq s) (modify (fun s => s <| retryReq := false |>);; sendRetryReq c now (again a))) s2
      (fun _ s' => good now s' /\ forwarded s' = forwarded s1 /\ answered s' = answered s1 /\ returned s' = returned s1 ++ [(now, x)] /\
        exists told : bool, retries s' = retries s1 + Z.b2z told /\
          fst <$> offered s' = (fst <$> offered s1) ++ (if told then pair now <$> again a else []))) as Hend.
  { intros s2 Hg E1 E2 <- <- <- <- <-. wp_step. wp_step.
    assert (reqQueueFull c s2 = reqQueueFull c s1) as E3 by (unfold reqQueueFull; by rewrite E2). rewrite E3. apply wp_when; intros Eb.
    - wp_step. wp_step. eapply wp_mono; [by apply sendRetryReq_wp; [apply Hg|..]|]. intros [] s' (H' & [] & O & _). split_and!; try done. by exists true.
    - assert (s2 <| retryReq := retryReq s2 |> = s2) as Es by by destruct s2. split_and!; try done.
      + rewrite <- Es. apply Hg. rewrite E1 in *. intros Er. rewrite Er in Eb. by destruct (reqQueueFull c s1).
      + exists false. rewrite app_nil_r. split; [cbn; lia|done]. }
  destruct l as [|y l].
  - wp_step. wp_step. apply Hend; try done. intros b Hb.
    pose proof (good_pop_resp now s1 x [] (clock s1) None b H1 El Ee (gd_clock _ _ H1) I Hb) as Hg. destruct s1. cbn in El, Ee. subst. exact Hg.
  - wp_step. wp_step. eapply wp_mono; [apply bridge_clockEdge_wp; [done|apply H1|pose proof (co_delay Hc); lia]|]. intros edge s2 (k & -> & Hk & He).
    wp_step. wp_step. wp_step. wp_step. rewrite (schedule_first now _ (Z.max y.1 edge)) by (try exact Ee; lia). cbn [rp]. wp_step.
    apply Hend; try done. intros b Hb.
    pose proof (good_pop_resp now s1 x (y :: l) k (Some (Z.max y.1 edge)) b H1 El Ee Hk ltac:(cbn; lia) Hb) as Hg. destruct s1. cbn in El, Ee. subst. exact Hg.
Qed.

(** ** Runs *)

Inductive step := Offer (p : Pkt.t) | Respond (p : Pkt.t) | SendReq (a : answer) | RetryReq (a : answer) | SendResp (a : answer) | RetryResp (a : answer).
Definition exec now (st : step) : comp t unit :=
  match st with
  | Offer p => offer c now p
  | Respond p => respond c now p
  | SendReq a => req_process c now a
  | RetryReq a => recvReqRetry c now a
  | SendResp a => resp_process c now a
  | RetryResp a => recvRespRetry c now a
  end.
(** Events are served at their ticks, a peer that has refused a packet retries it, the memory
    side answers no more requests than it has been sent. *)
Definition allowed now (st : step) s : Prop :=
  match st with
  | Offer p => Pkt.cacheResponding p = false
  | Respond _ => 0 < in_flight s
  | SendReq a => req_sendEvent s = Some now /\ zlen (nested a) <= in_flight s /\ plain (again a)
  | RetryReq a => req_transmitList s <> [] /\ req_sendEvent s = None /\ zlen (nested a) <= in_flight s /\ plain (again a)
  | SendResp a => resp_sendEvent s = Some now /\ plain (nested a) /\ plain (again a)
  | RetryResp a => resp_transmitList s <> [] /\ resp_sendEvent s = None /\ plain (nested a) /\ plain (again a)
  end.
(** The responses of a step. *)
Definition responses now (st : step) : list (Z * Pkt.t) :=
  match st with Respond p => [(now, p)] | SendReq a | RetryReq a => pair now <$> nested a | _ => [] end.
(** The requests offered. *)
Definition requests now (st : step) : list (Z * Pkt.t) :=
  match st with Offer p => [(now, p)] | SendResp a | RetryResp a => pair now <$> nested a | _ => [] end.

Lemma good_event_req now s x l : good now s -> req_transmitList s = x :: l -> req_sendEvent s = Some now -> good now (s <| req_sendEvent := None |>).
Proof.
  intros H El Ee. pose proof (gd_req _ _ H) as Hx. rewrite El, Ee in Hx. destruct H. split; try done. cbn [req_transmitList req_sendEvent over].
  rewrite El. apply Hx.
Qed.
Lemma good_event_resp now s x l : good now s -> resp_transmitList s = x :: l -> resp_sendEvent s = Some now -> good now (s <| resp_sendEvent := None |>).
Proof.
  intros H El Ee. pose proof (gd_resp _ _ H) as Hx. rewrite El, Ee in Hx. destruct H. split; try done. cbn [resp_transmitList resp_sendEvent over].
  rewrite El. apply Hx.
Qed.
Lemma bridge_exec_wp now st s : good now s -> horizon now -> allowed now st s ->
  wp (exec now st) s (fun _ s' => good now s' /\ answered s' = answered s ++ responses now st /\
    exists l, fst <$> offered s' = (fst <$> offered s) ++ requests now st ++ l).
Proof.
  intros H Hh Ha. destruct st as [p|p|a|a|a|a]; cbn [exec allowed responses requests] in *.
  - eapply wp_mono; [by apply bridge_offer_wp|]. intros [] s' (H' & K & O & _). split; [done|]. rewrite app_nil_r. split; [apply K|]. exists [].
    by rewrite O, fmap_app.
  - eapply wp_mono; [by apply bridge_respond_wp|]. intros [] s' (H' & K & _ & A). split; [done|]. split; [done|]. exists []. by rewrite (kr_offered _ _ K), app_nil_r.
  - destruct Ha as (Ee & Hn & Hp). pose proof (gd_req _ _ H) as Hx. rewrite Ee in Hx. destruct (req_transmitList s) as [|x l] eqn:El; [done|].
    unfold req_process. wp_step. wp_step. eapply wp_mono; [eapply req_trySendTiming_wp; [by eapply good_event_req|done|exact El|done|exact Hn|exact Hp]|].
    intros [] s' (H' & A & R & F & Rt & O). split; [done|]. split; [exact A|]. eexists. rewrite O. cbn. done.
  - destruct Ha as (Hne & Ee & Hn & Hp). destruct (req_transmitList s) as [|x l] eqn:El; [done|].
    eapply wp_mono; [by eapply req_trySendTiming_wp|]. intros [] s' (H' & A & R & F & Rt & O). split; [done|]. split; [exact A|]. eexists. rewrite O. cbn. done.
  - destruct Ha as (Ee & Hn & Hp). pose proof (gd_resp _ _ H) as Hx. rewrite Ee in Hx. destruct (resp_transmitList s) as [|x l] eqn:El; [done|].
    unfold resp_process. wp_step. wp_step. eapply wp_mono; [eapply resp_trySendTiming_wp; [by eapply good_event_resp|done|exact El|done|exact Hn|exact Hp]|].
    intros [] s' (H' & F & A & R & told & Rt & O). split; [done|]. rewrite app_nil_r. split; [exact A|]. eexists. rewrite O. done.
  - destruct Ha as (Hne & Ee & Hn & Hp). destruct (resp_transmitList s) as [|x l] eqn:El; [done|].
    eapply wp_mono; [by eapply resp_trySendTiming_wp|]. intros [] s' (H' & F & A & R & told & Rt & O). split; [done|]. rewrite app_nil_r. split; [exact A|].
    eexists. rewrite O. done.
Qed.

Fixpoint run (l : list (Z * step)) : comp t unit :=
  match l with [] => mret tt | (now, st) :: l' => exec now st;; run l' end.
Definition not_late now s : Prop := forall w, req_sendEvent s = Some w \/ resp_sendEvent s = Some w -> now <= w.
Fixpoint legal_run now (l : list (Z * step)) s : Prop :=
  match l with
  | [] => True
  | (now', st) :: l' =>
      now <= now' /\ horizon now' /\ not_late now' s /\ allowed now' st s /\
      forall s', exec now' st s = Ok (tt, s') -> legal_run now' l' s'
  end.
Fixpoint end_time now (l : list (Z * step)) : Z := match l with [] => now | (now', _) :: l' => end_time now' l' end.
Lemma side_time now now' l e : side now l e -> now <= now' -> (forall w, e = Some w -> now' <= w) -> side now' l e.
Proof. intros H Hn Hw. destruct l as [|x l], e as [w|]; cbn in *; try done; [|lia]. specialize (Hw w eq_refl). lia. Qed.
Lemma bridge_good_time now now' s : good now s -> now <= now' -> not_late now' s -> good now' s.
Proof.
  intros [] Hn Hl. split; try done.
  - destruct gd_clock0. split; [lia|done].
  - eapply side_time; [done..|]. intros w Hw. apply Hl. by left.
  - eapply side_time; [done..|]. intros w Hw. apply Hl. by right.
Qed.
Lemma bridge_run_wp l : forall now s, good now s -> legal_run now l s ->
  wp (run l) s (fun _ s' => good (end_time now l) s' /\ answered s' = answered s ++ concat ((fun x => responses x.1 x.2) <$> l)).
Proof.
  induction l as [|[now' st] l IH]; intros now s H Hl; cbn [run fmap list_fmap concat].
  { wp_step. by rewrite app_nil_r. }
  destruct Hl as (Hle & Hh & Hd & Ha & Hl). pose proof (bridge_exec_wp now' st s (bridge_good_time _ _ _ H Hle Hd) Hh Ha) as Hw.
  destruct (wp_inv _ _ _ Hw) as ([] & s1 & E & H1 & A1 & _). wp_step. unfold wp at 1. rewrite E.
  eapply wp_mono; [by apply (IH now' s1 H1), Hl|]. intros [] s2 [H2 A2]. split; [done|]. rewrite A2, A1, <- app_assoc. done.
Qed.
Lemma bridge_create_good : good 0 create.
Proof.
  pose proof (co_period Hc). pose proof (co_req Hc). pose proof (co_resp Hc). split; try done; try (by constructor); cbn; try lia.
  - unfold zlen. cbn. lia.
Qed.

(** ** Left alone *)

Definition yes : answer := mkAnswer true [] [].
Definition after (l : list deferred) (edge : Z) : event := match l with [] => None | y :: _ => Some (Z.max y.1 edge) end.
Definition kept_clock (l : list deferred) (k k' : Clocked.t) : Clocked.t := match l with [] => k | _ => k' end.
Definition served_req now x l k edge s : t :=
  s <| req_transmitList := l |> <| forwarded ::= fun q => q ++ [(now, x)] |> <| clock := kept_clock l (clock s) k |> <| req_sendEvent := after l edge |>
    <| retries ::= fun n => n + Z.b2z (retryReq s) |> <| retryReq := false |>.
Definition served_resp now x l k edge s : t :=
  let told := negb (reqQueueFull c s) && retryReq s in
  s <| resp_transmitList := l |> <| returned ::= fun q => q ++ [(now, x)] |> <| outstandingResponses ::= fun n => n - 1 |>
    <| clock := kept_clock l (clock s) k |> <| resp_sendEvent := after l edge |>
    <| retries ::= fun n => n + Z.b2z told |> <| retryReq := retryReq s && negb told |>.
Lemma told_nothing s b : retryReq s = b -> s <| retries ::= fun n => n + Z.b2z false |> <| retryReq := b |> = s.
Proof. destruct s. intros Er. cbn in Er. subst. unfold over. cbn -[Z.add]. by rewrite Z.add_0_r. Qed.
Lemma serve_req now s x l : horizon now -> clock_ok now (clock s) -> req_transmitList s = x :: l -> x.1 <= now ->
  wp (req_process c now yes) s (fun _ s' => exists k edge, s' = served_req now x l k edge s /\ clock_ok now k /\ now <= edge < now + period c).
Proof.
  intros Hh Hk El Hx. unfold req_process, req_trySendTiming. wp_step. wp_step. wp_step. wp_step. cbn [req_transmitList over]. rewrite El.
  wp_step. apply wp_assert; [by apply Z.leb_le|]. cbn [nested yes each accepted again when_]. wp_step. wp_step. wp_step. wp_step. wp_step. wp_step.
  cbn [req_transmitList over]. rewrite El. cbn [tail].
  assert (forall s0 k edge, s0 = s <| req_transmitList := l |> <| forwarded ::= fun q => q ++ [(now, x)] |> <| clock := kept_clock l (clock s) k |> <| req_sendEvent := after l edge |> ->
    clock_ok now k -> now <= edge < now + period c ->
    wp (retryStalledReq c now []) s0 (fun _ s' => exists k edge, s' = served_req now x l k edge s /\ clock_ok now k /\ now <= edge < now + period c)) as Hend.
  { intros s0 k edge -> Hk' He. unfold retryStalledReq, sendRetryReq. cbn [each]. wp_step. wp_step. apply wp_when; cbn [retryReq over]; intros Er.
    - wp_step. wp_step. wp_step. wp_step. wp_step. exists k, edge. split; [|done]. unfold served_req. rewrite Er. done.
    - exists k, edge. split; [|done]. unfold served_req. rewrite Er. symmetry. by apply told_nothing. }
  pose proof (co_period Hc). destruct l as [|y l].
  - wp_step. wp_step. apply (Hend _ (clock s) now); try done; [|lia]. destruct s. cbn in El. by subst.
  - wp_step. wp_step. eapply wp_mono; [apply bridge_clockEdge_wp; [done|exact Hk|pose proof (co_delay Hc); lia]|]. intros edge s2 (k & -> & Hk2 & He).
    wp_step. wp_step. wp_step. wp_step. rewrite (schedule_first now _ (Z.max y.1 edge)) by (try done; lia). cbn [rp]. wp_step.
    apply (Hend _ k edge); try done; [|lia]. destruct s. cbn in El. by subst.
Qed.
Lemma serve_resp now s x l : horizon now -> clock_ok now (clock s) -> resp_transmitList s = x :: l -> x.1 <= now -> 1 <= outstandingResponses s ->
  wp (resp_process c now yes) s (fun _ s' => exists k edge, s' = served_resp now x l k edge s /\ clock_ok now k /\ now <= edge < now + period c).
Proof.
  intros Hh Hk El Hx Ho. unfold resp_process, resp_trySendTiming. wp_step. wp_step. wp_step. wp_step. cbn [resp_transmitList over]. rewrite El.
  wp_step. apply wp_assert; [by apply Z.leb_le|]. cbn [nested yes each accepted again when_]. wp_step. wp_step. wp_step. wp_step. wp_step. wp_step. wp_step.
  apply wp_assert; [change (negb (outstandingResponses s =? 0) = true); by rewrite (proj2 (Z.eqb_neq _ _)) by lia|].
  wp_step. wp_step. wp_step. wp_step. cbn [resp_transmitList over]. rewrite El. cbn [tail].
  assert (forall s0 k edge, s0 = s <| resp_transmitList := l |> <| returned ::= fun q => q ++ [(now, x)] |> <| outstandingResponses ::= fun n => n - 1 |>
      <| clock := kept_clock l (clock s) k |> <| resp_sendEvent := after l edge |> ->
    clock_ok now k -> now <= edge < now + period c ->
    wp (s ← get; when_ (negb (reqQueueFull c s) && retryReq s) (modify (fun s => s <| retryReq := false |>);; sendRetryReq c now [])) s0
      (fun _ s' => exists k edge, s' = served_resp now x l k edge s /\ clock_ok now k /\ now <= edge < now + period c)) as Hend.
  { intros s0 k edge -> Hk' He. unfold sendRetryReq. cbn [each]. wp_step. wp_step.
    apply wp_when; intros Er; match type of Er with ?b = _ => change b with (negb (reqQueueFull c s) && retryReq s) in Er end.
    - wp_step. wp_step. wp_step. wp_step. wp_step. exists k, edge. split; [|done]. unfold served_resp. rewrite Er. cbn [negb]. by rewrite andb_false_r.
    - exists k, edge. split; [|done]. unfold served_resp. rewrite Er. symmetry. apply told_nothing. cbn [negb]. by rewrite andb_true_r. }
  pose proof (co_period Hc). destruct l as [|y l].
  - wp_step. wp_step. apply (Hend _ (clock s) now); try done; [|lia]. destruct s. cbn in El. by subst.
  - wp_step. wp_step. eapply wp_mono; [apply bridge_clockEdge_wp; [done|exact Hk|pose proof (co_delay Hc); lia]|]. intros edge s2 (k & -> & Hk2 & He).
    wp_step. wp_step. wp_step. wp_step. rewrite (schedule_first now _ (Z.max y.1 edge)) by (try done; lia). cbn [rp]. wp_step.
    apply (Hend _ k edge); try done; [|lia]. destruct s. cbn in El. by subst.
Qed.

(** The events in order, with peers that accept and send nothing. *)
Definition next_event s : option (bool * Z) :=
  match req_sendEvent s, resp_sendEvent s with
  | None, None => None
  | Some w, None => Some (true, w)
  | None, Some v => Some (false, v)
  | Some w, Some v => if w <=? v then Some (true, w) else Some (false, v)
  end.
Fixpoint play (n : nat) s : result t :=
  match next_event s with
  | None => Ok s
  | Some (is_req, w) =>
      match n with
      | O => Fault OutOfFuel
      | S n' => x ← (if is_req : bool then req_process c w yes s else resp_process c w yes s); play n' x.2
      end
  end.
Definition attended s : Prop :=
  (req_transmitList s <> [] -> req_sendEvent s <> None) /\ (resp_transmitList s <> [] -> resp_sendEvent s <> None).
(** No entry is for later than [T]. *)
Definition until T s : Prop :=
  Forall (fun x => x.1 <= T) (req_transmitList s ++ resp_transmitList s) /\
  (forall w, req_sendEvent s = Some w \/ resp_sendEvent s = Some w -> w <= T).
Definition waiting s : nat := length (req_transmitList s) + length (resp_transmitList s).

Lemma after_bound l edge w T : Forall (fun x : deferred => x.1 <= T) l -> edge <= T -> after l edge = Some w -> w <= T.
Proof. destruct l as [|y l]; [done|]. intros [Hy _]%Forall_cons_1 He [= <-]. lia. Qed.
Lemma side_some now l w : side now l (Some w) -> exists x l', l = x :: l' /\ x.1 <= w /\ now <= w.
Proof. destruct l as [|x l]; [done|]. intros [? ?]. by exists x, l. Qed.

Lemma horizon_le now T : 0 <= now -> now <= T -> horizon T -> horizon now.
Proof. intros H0 Hn [_ Hh]. split; [done|lia]. Qed.
(** What a step that serves the first request leaves, and the first response. *)
Record req_step now T x l s s1 : Prop := {
  rs_good : good now s1; rs_attended : attended s1; rs_until : until (T + period c) s1;
  rs_list : req_transmitList s1 = l; rs_resp : resp_transmitList s1 = resp_transmitList s;
  rs_forwarded : snd <$> forwarded s1 = (snd <$> forwarded s) ++ [x]; rs_returned : returned s1 = returned s;
  rs_retries : retries s1 = retries s + Z.b2z (retryReq s); rs_retry : retryReq s1 = false }.
Record resp_step now T x l s s1 : Prop := {
  ps_good : good now s1; ps_attended : attended s1; ps_until : until (T + period c) s1;
  ps_list : resp_transmitList s1 = l; ps_req : req_transmitList s1 = req_transmitList s;
  ps_returned : snd <$> returned s1 = (snd <$> returned s) ++ [x]; ps_forwarded : forwarded s1 = forwarded s;
  ps_retries : retries s1 = retries s + Z.b2z (retryReq s && negb (retryReq s1)); ps_retry : retryReq s1 = true -> retryReq s = true }.
Lemma until_later T s : until T s -> until (T + period c) s.
Proof.
  pose proof (co_period Hc). intros [H1 H2]. split; [eapply Forall_impl; [exact H1|cbn; lia]|]. intros w Hw. specialize (H2 w Hw). lia.
Qed.
Lemma play_req_step now w s T : 0 <= now -> good now s -> attended s -> until T s -> horizon T ->
  req_sendEvent s = Some w -> (forall v, resp_sendEvent s = Some v -> w <= v) ->
  exists s1 x l, req_process c w yes s = Ok (tt, s1) /\ req_transmitList s = x :: l /\ req_step w T x l s s1.
Proof.
  intros H0 H [Ha1 Ha2] Hu Hh Ee Hle. pose proof (proj2 Hu w (or_introl Ee)) as HwT. pose proof (co_period Hc) as Hp.
  pose proof (gd_req _ _ H) as Hs. rewrite Ee in Hs. destruct (side_some _ _ _ Hs) as (x & l & El & Hx & Hnw).
  pose proof (horizon_le w T ltac:(lia) HwT Hh) as Hhw.
  assert (good w s) as Hw by (eapply bridge_good_time; [done..|]; intros v [Hv|Hv]; [rewrite Ee in Hv; by injection Hv as <-|by apply Hle]).
  destruct (wp_inv _ _ _ (serve_req w s x l Hhw (gd_clock _ _ Hw) El Hx)) as ([] & s1 & E & k & edge & Es & Hk & He).
  destruct (wp_inv _ _ _ (bridge_exec_wp w (SendReq yes) s Hw Hhw ltac:(split_and!; [done|apply H|constructor]))) as ([] & s1' & E' & Hg & _).
  cbn [exec] in E'. rewrite E in E'. injection E' as <-. exists s1, x, l. split; [exact E|]. split; [exact El|]. apply until_later in Hu as [Hu1 Hu2].
  rewrite El in Hu1. apply Forall_cons_1 in Hu1 as [_ Hu1]. subst s1. split; try done.
  - split; [|exact Ha2]. by destruct l.
  - split; [exact Hu1|]. intros v [Hv|Hv]; [|by apply Hu2; right]. apply (after_bound l edge); [|lia|exact Hv]. by apply Forall_app in Hu1 as [? _].
  - unfold served_req. cbn [forwarded over]. by rewrite fmap_app.
Qed.
Lemma play_resp_step now w s T : 0 <= now -> good now s -> attended s -> until T s -> horizon T ->
  resp_sendEvent s = Some w -> (forall v, req_sendEvent s = Some v -> w <= v) ->
  exists s1 x l, resp_process c w yes s = Ok (tt, s1) /\ resp_transmitList s = x :: l /\ resp_step w T x l s s1.
Proof.
  intros H0 H [Ha1 Ha2] Hu Hh Ee Hle. pose proof (proj2 Hu w (or_intror Ee)) as HwT. pose proof (co_period Hc) as Hp.
  pose proof (gd_resp _ _ H) as Hs. rewrite Ee in Hs. destruct (side_some _ _ _ Hs) as (x & l & El & Hx & Hnw).
  pose proof (horizon_le w T ltac:(lia) HwT Hh) as Hhw.
  assert (good w s) as Hw by (eapply bridge_good_time; [done..|]; intros v [Hv|Hv]; [by apply Hle|rewrite Ee in Hv; by injection Hv as <-]).
  assert (1 <= outstandingResponses s) as Ho.
  { pose proof (gd_credit _ _ H) as Hcr. rewrite El in Hcr. pose proof (needs_nonneg (snd <$> req_transmitList s)). pose proof (gd_flight _ _ H).
    unfold zlen in Hcr. cbn [length] in Hcr. lia. }
  destruct (wp_inv _ _ _ (serve_resp w s x l Hhw (gd_clock _ _ Hw) El Hx Ho)) as ([] & s1 & E & k & edge & Es & Hk & He).
  destruct (wp_inv _ _ _ (bridge_exec_wp w (SendResp yes) s Hw Hhw ltac:(split_and!; [done|constructor|constructor]))) as ([] & s1' & E' & Hg & _).
  cbn [exec] in E'. rewrite E in E'. injection E' as <-. exists s1, x, l. split; [exact E|]. split; [exact El|]. apply until_later in Hu as [Hu1 Hu2].
  rewrite El in Hu1. apply Forall_app in Hu1 as [Hu0 [_ Hu1]%Forall_cons_1]. subst s1. split; try done.
  - split; [exact Ha1|]. by destruct l.
  - split; [by apply Forall_app|]. intros v [Hv|Hv]; [by apply Hu2; left|]. by apply (after_bound l edge); [|lia|].
  - unfold served_resp. cbn [returned over]. by rewrite fmap_app.
  - change (retries s + Z.b2z (negb (reqQueueFull c s) && retryReq s) =
      retries s + Z.b2z (retryReq s && negb (retryReq s && negb (negb (reqQueueFull c s) && retryReq s)))).
    by destruct (reqQueueFull c s), (retryReq s).
  - change (retryReq s && negb (negb (reqQueueFull c s) && retryReq s) = true -> retryReq s = true). by destruct (retryReq s).
Qed.
Record drained now s s' : Prop := {
  dr_good : good now s'; dr_req : req_transmitList s' = []; dr_resp : resp_transmitList s' = [];
  dr_event : req_sendEvent s' = None /\ resp_sendEvent s' = None;
  dr_forwarded : snd <$> forwarded s' = (snd <$> forwarded s) ++ req_transmitList s;
  dr_returned : snd <$> returned s' = (snd <$> returned s) ++ resp_transmitList s;
  dr_retries : retries s' = retries s + Z.b2z (retryReq s && negb (retryReq s')); dr_retry : retryReq s' = true -> retryReq s = true }.
Lemma play_wp n : forall now s T, waiting s = n -> 0 <= now -> good now s -> attended s -> until T s -> horizon (T + period c * Z.of_nat n) ->
  exists now' s', play n s = Ok s' /\ drained now' s s'.
Proof.
  induction n as [|n IH]; intros now s T Hn H0 H Ha Hu Hh.
  { unfold waiting in Hn. pose proof (gd_req _ _ H) as H1. pose proof (gd_resp _ _ H) as H2.
    destruct (req_transmitList s) eqn:El, (resp_transmitList s) eqn:Er; try done. cbn in H1, H2.
    destruct (req_sendEvent s) eqn:Ee, (resp_sendEvent s) eqn:Ef; try done. exists now, s. split; [cbn [play]; unfold next_event; by rewrite Ee, Ef|].
    split; try done; rewrite ?El, ?Er, ?app_nil_r; try done. destruct (retryReq s); cbn; lia. }
  pose proof (co_period Hc). assert (T + period c * Z.of_nat (S n) = (T + period c) + period c * Z.of_nat n) as ET by lia.
  assert (forall v, req_sendEvent s = Some v \/ resp_sendEvent s = Some v -> now <= v) as Hge.
  { intros v [Hv|Hv]; [pose proof (gd_req _ _ H) as Hs|pose proof (gd_resp _ _ H) as Hs]; rewrite Hv in Hs; by destruct (side_some _ _ _ Hs) as (? & ? & _ & _ & ?). }
  assert (forall w, req_sendEvent s = Some w -> (forall v, resp_sendEvent s = Some v -> w <= v) -> next_event s = Some (true, w) ->
    exists now' s', play (S n) s = Ok s' /\ drained now' s s') as Hreq.
  { intros w Ee Hle En. pose proof (proj2 Hu w (or_introl Ee)). pose proof (Hge w (or_introl Ee)).
    assert (horizon T) as HT by (apply (horizon_le T (T + period c * Z.of_nat (S n))); [lia|nia|done]).
    destruct (play_req_step now w s T H0 H Ha Hu HT Ee Hle) as (s1 & x & l & E & El & []).
    destruct (IH w s1 (T + period c)) as (now' & s' & E' & []); try done; [|lia|by rewrite <- ET|].
    { unfold waiting in *. rewrite rs_list0, rs_resp0. rewrite El in Hn. cbn in Hn. lia. }
    exists now', s'. split; [cbn [play]; rewrite En, E; exact E'|]. split; try done.
    - by rewrite dr_forwarded0, rs_forwarded0, rs_list0, El, <- app_assoc.
    - by rewrite dr_returned0, rs_returned0, rs_resp0.
    - rewrite dr_retries0, rs_retries0, rs_retry0. cbn [andb]. destruct (retryReq s') eqn:Er; [by rewrite rs_retry0 in dr_retry0; specialize (dr_retry0 eq_refl)|].
      destruct (retryReq s); cbn; lia.
    - intros Er. rewrite rs_retry0 in dr_retry0. by specialize (dr_retry0 Er). }
  assert (forall w, resp_sendEvent s = Some w -> (forall v, req_sendEvent s = Some v -> w <= v) -> next_event s = Some (false, w) ->
    exists now' s', play (S n) s = Ok s' /\ drained now' s s') as Hresp.
  { intros w Ee Hle En. pose proof (proj2 Hu w (or_intror Ee)). pose proof (Hge w (or_intror Ee)).
    assert (horizon T) as HT by (apply (horizon_le T (T + period c * Z.of_nat (S n))); [lia|nia|done]).
    destruct (play_resp_step now w s T H0 H Ha Hu HT Ee Hle) as (s1 & x & l & E & El & []).
    destruct (IH w s1 (T + period c)) as (now' & s' & E' & []); try done; [|lia|by rewrite <- ET|].
    { unfold waiting in *. rewrite ps_list0, ps_req0. rewrite El in Hn. cbn in Hn. lia. }
    exists now', s'. split; [cbn [play]; rewrite En, E; exact E'|]. split; try done.
    - by rewrite dr_forwarded0, ps_forwarded0, ps_req0.
    - by rewrite dr_returned0, ps_returned0, ps_list0, El, <- app_assoc.
    - rewrite dr_retries0, ps_retries0. destruct (retryReq s), (retryReq s1), (retryReq s'); cbn; try lia; try done; exfalso; auto; by specialize (ps_retry0 eq_refl).
    - auto. }
  unfold next_event in Hreq, Hresp. destruct (req_sendEvent s) as [w|] eqn:Ee, (resp_sendEvent s) as [v|] eqn:Ef.
  - destruct (Z.leb_spec w v).
    + apply (Hreq w); try done. by intros ? [= <-].
    + apply (Hresp v); try done. intros ? [= <-]. lia.
  - by apply (Hreq w).
  - by apply (Hresp v).
  - destruct Ha as [Ha1 Ha2]. unfold waiting in Hn. rewrite Ee in Ha1. rewrite Ef in Ha2.
    destruct (req_transmitList s); [|by destruct Ha1]. destruct (resp_transmitList s); [done|by destruct Ha2].
Qed.
End Invariant.

(** ** Properties *)

(** C17. Over any run of a bridge (requests offered, responses received, both send events at
    their ticks, retries of either peer, packets a peer sends from within a call) no
    assertion fails; the requests accepted are those sent on and those waiting, in order,
    each delayed by its header, its payload and the delay of the bridge to the clock edge,
    and so are the responses; the room reserved is the responses waiting and those owed, so
    that there is room for every response; the send event of a queue is scheduled or the
    peer owes a retry; and a requestor is stalled only while a queue is full. *)
Theorem bridge_delivers c now s l : config_ok c -> good c now s -> legal_run c now l s ->
  exists s', run c l s = Ok (tt, s') /\ good c (end_time now l) s' /\ answered s' = answered s ++ concat ((fun x => responses x.1 x.2) <$> l).
Proof. intros Hc H Hl. destruct (wp_inv _ _ _ (bridge_run_wp c Hc l now s H Hl)) as ([] & s' & E & H'). by exists s'. Qed.

(** A bridge with room for one request and one response: the second request is stalled twice,
    for either reason, and accepted when the first response has left. *)
Definition demo_config : Config := mkConfig 2 1 1 [] 10.
Definition demo_request (a id : Z) : Request.t := Request.mkRequest (Some a) (Some 4) 0 1 None None [] (fun l => l) id.
Definition demo_packet (cmd : MemCmd.Command) (a id : Z) : Pkt.t :=
  Pkt.mkPkt cmd (Z.lor Pkt.VALID_ADDR Pkt.VALID_SIZE) (demo_request a id) [] a false 4 [] 0 3 2.
Definition demo_run : list (Z * step) :=
  let second := demo_packet MemCmd.ReadReq 128 2 in
  [(5, Offer (demo_packet MemCmd.ReadReq 64 1)); (7, Offer second); (35, SendReq (mkAnswer true [] [second]));
   (38, Respond (demo_packet MemCmd.ReadResp 64 1)); (65, SendResp (mkAnswer true [] [second])); (95, SendReq (mkAnswer false [] []))].
Lemma demo_ok : config_ok demo_config.
Proof. by split. Qed.
Ltac legal_step :=
  match goal with
  | |- _ /\ _ => split
  | |- forall s', _ = Ok (tt, s') -> _ => intros ? E; vm_compute in E; injection E as <-
  | |- not_late _ _ => intros ? [E|E]; vm_compute in E; first [discriminate E|injection E as <-; vm_compute; done]
  | |- plain _ => repeat constructor
  | |- horizon _ _ => split; vm_compute; done
  | |- _ => progress (cbn [allowed])
  end.
Lemma bridge_delivers_witness : exists s', run demo_config demo_run create = Ok (tt, s') /\
  (fun x => (x.1.1, Request.ptr (Pkt.req x.1.2), x.2)) <$> offered s' = [(5, 1, true); (7, 2, false); (35, 2, false); (65, 2, true)] /\
  (fun x => (x.1, x.2.1)) <$> forwarded s' = [(35, 35)] /\ (fun x => (x.1, x.2.1)) <$> returned s' = [(65, 65)] /\ retries s' = 2 /\ good demo_config 95 s'.
Proof.
  destruct (bridge_delivers demo_config 0 create demo_run demo_ok (bridge_create_good demo_config demo_ok)) as (s' & E & H & _).
  - unfold demo_run. cbn [legal_run]. repeat legal_step; try done; try (vm_compute; done).
  - exists s'. split; [exact E|]. pose proof E as E'. vm_compute in E'. injection E' as E'.
    repeat (split; [rewrite <- E'; vm_compute; done|]). exact H.
Defined.

(** C18. Left alone with peers that accept and no retry owed, a bridge empties: its
    events, at most one per packet, send every waiting request and response in order, and end with none scheduled.
    A requestor that was stalled is told once to retry, unless the memory side owes as many
    responses as there is room for. *)
Theorem bridge_drains c now s T : config_ok c -> 0 <= now -> good c now s -> attended s -> until T s ->
  horizon c (T + period c * Z.of_nat (waiting s)) -> 0 < reqQueueLimit c ->
  exists s', play c (waiting s) s = Ok s' /\ req_transmitList s' = [] /\ resp_transmitList s' = [] /\ next_event s' = None /\
    snd <$> forwarded s' = (snd <$> forwarded s) ++ req_transmitList s /\ snd <$> returned s' = (snd <$> returned s) ++ resp_transmitList s /\
    outstandingResponses s' = in_flight s' /\
    retries s' = retries s + Z.b2z (retryReq s && negb (retryReq s')) /\ (retryReq s' = true -> in_flight s' = respQueueLimit c).
Proof.
  intros Hc H0 H Ha Hu Hh Hl. destruct (play_wp c Hc (waiting s) now s T eq_refl H0 H Ha Hu Hh) as (now' & s' & E & [G E1 E2 [E3 E4] F R Rt _]).
  exists s'. assert (outstandingResponses s' = in_flight s') as Eo.
  { rewrite (gd_credit _ _ _ G), E1, E2. unfold zlen, needs. cbn. lia. }
  split; [exact E|]. split; [exact E1|]. split; [exact E2|]. split; [unfold next_event; by rewrite E3, E4|]. split; [exact F|]. split; [exact R|].
  split; [exact Eo|]. split; [exact Rt|]. intros Er. destruct (gd_stall _ _ _ G Er) as [Hf|Hf]; [|by rewrite <- Eo].
  unfold reqQueueFull in Hf. rewrite E1 in Hf. unfold zlen in Hf. cbn in Hf. apply Z.eqb_eq in Hf. lia.
Qed.
Lemma bridge_drains_witness : exists s s', run demo_config (take 2 demo_run) create = Ok (tt, s) /\ retryReq s = true /\
  play demo_config 1 s = Ok s' /\ (fun x => (x.1, x.2.1)) <$> forwarded s' = [(35, 35)] /\ retries s' = 1 /\ next_event s' = None.
Proof.
  assert (legal_run demo_config 0 (take 2 demo_run) create) as Hl.
  { unfold demo_run. cbn [take legal_run]. repeat legal_step; try done; try (vm_compute; done). }
  destruct (wp_inv _ _ _ (bridge_run_wp demo_config demo_ok (take 2 demo_run) 0 create (bridge_create_good demo_config demo_ok) Hl)) as ([] & s & E & H & _).
  pose proof E as E'. vm_compute in E'. injection E' as <-.
  destruct (bridge_drains demo_config 7 _ 35 demo_ok ltac:(done) H) as (s' & Ep & _ & _ & En & _ & _ & _ & _ & _).
  - by split.
  - split; [vm_compute; by repeat constructor|]. intros w [Hw|Hw]; [by injection Hw as <-|done].
  - split; vm_compute; done.
  - done.
  - eexists _, s'. split; [exact E|]. split; [done|]. split; [exact Ep|]. vm_compute in Ep. injection Ep as <-. by vm_compute.
Defined.
End BridgeSpec.
