(* ===== verification/AbstractMem.v ===== *)
(** The contents of the simulated memory ([mem/abstract_mem.{hh,cc}]): the backing store,
    the records of load-locked operations, the access of a packet in timing and functional
    mode. *)
From S2P Require Import Prelude Flags AddrRange MemCmd Request PacketData.
Open Scope Z_scope.

Module AbstractMemory.
Import MemCmd.

Definition InvalidContextID : Z := -1.
Record LockedAddr := mkLocked { laddr : Z; lctx : Z }.
#[global] Instance eta_LockedAddr : Settable LockedAddr := fun r => mkLocked (laddr r) (lctx r).
Definition Addr_Mask : Z := 15.
Definition mask (paddr : Z) : Z := Z.ldiff paddr Addr_Mask.

Record MemStats := mkStats {
  bytesRead : Z -> Z; bytesInstRead : Z -> Z; bytesWritten : Z -> Z; numReads : Z -> Z; numWrites : Z -> Z; numOther : Z -> Z }.
#[global] Instance eta_MemStats : Settable MemStats := fun r =>
  mkStats (bytesRead r) (bytesInstRead r) (bytesWritten r) (numReads r) (numWrites r) (numOther r).
Definition zero_stats : MemStats := let z := fun _ => 0 in mkStats z z z z z z.

(** [pmem] is what [pmemAddr] points to, [None] the null pointer; [cleared] are the contexts
    whose exclusive monitor the memory cleared through [globalClearExclusive]. *)
Record t := mkMem {
  range : AddrRange.t; pmem : option (list Z); lockedAddrList : list LockedAddr; cleared : list Z; stats : MemStats }.
#[global] Instance eta_t : Settable t := fun r => mkMem (range r) (pmem r) (lockedAddrList r) (cleared r) (stats r).
Definition create (r : AddrRange.t) : result t :=
  if AddrRange.valid r && negb (AddrRange.size r =? 0) then Ok (mkMem r None [] [] zero_stats) else Fault Panic.
Definition setBackingStore (pmem_addr : option (list Z)) (s : t) : t := s <| pmem := pmem_addr |>.
Definition addLockedAddr (l : LockedAddr) (s : t) : t := s <| lockedAddrList ::= fun q => q ++ [l] |>.

Definition matchesContext (l : LockedAddr) (r : Request.t) : result bool :=
  Pkt.check (negb (lctx l =? InvalidContextID));; Pkt.check (Request.hasContextId r);;
  c ← Request.contextId r; Ok (lctx l =? c).

(** ** Load-locked and store-conditional *)

(** The record of the context, if any, gets the address; [None]: no record. *)
Fixpoint modify_lock (paddr : Z) (r : Request.t) (l : list LockedAddr) : result (option (list LockedAddr)) :=
  match l with
  | [] => Ok None
  | i :: l' =>
      m ← matchesContext i r;
      if m : bool then Ok (Some (i <| laddr := paddr |> :: l'))
      else o ← modify_lock paddr r l'; Ok (match o with Some l'' => Some (i :: l'') | None => None end)
  end.
Definition trackLoadLocked (p : Pkt.t) : comp t unit :=
  let r := Pkt.req p in
  a ← lift (Request.getPaddr r);
  let paddr := mask a in
  s ← get;
  o ← lift (modify_lock paddr r (lockedAddrList s));
  match o with
  | Some l => modify (fun s => s <| lockedAddrList := l |>)
  | None => c ← lift (Request.contextId r); modify (fun s => s <| lockedAddrList ::= fun l => mkLocked paddr c :: l |>)
  end.

(** A record of the address and the context. *)
Fixpoint find_lock (paddr : Z) (r : Request.t) (l : list LockedAddr) : result bool :=
  match l with
  | [] => Ok false
  | i :: l' =>
      if laddr i =? paddr then m ← matchesContext i r; if m : bool then Ok true else find_lock paddr r l'
      else find_lock paddr r l'
  end.
(** The records of the address go; the contexts to clear, in order. *)
Fixpoint erase_locks (paddr requestor_cid : Z) (l : list LockedAddr) : result (list LockedAddr * list Z) :=
  match l with
  | [] => Ok ([], [])
  | i :: l' =>
      if laddr i =? paddr then
        Pkt.check (negb (lctx i =? InvalidContextID));;
        '(l'', c) ← erase_locks paddr requestor_cid l';
        Ok (l'', if lctx i =? requestor_cid then c else lctx i :: c)
      else '(l'', c) ← erase_locks paddr requestor_cid l'; Ok (i :: l'', c)
  end.
(** The answer, and the packet with the outcome of a store-conditional. *)
Definition checkLockedAddrList (p : Pkt.t) : comp t (bool * Pkt.t) :=
  let r := Pkt.req p in
  a ← lift (Request.getPaddr r);
  let paddr := mask a in
  let isLLSC := isLLSC (Pkt.cmd p) in
  s ← get;
  allowStore ← (if isLLSC then lift (find_lock paddr r (lockedAddrList s)) else mret true);
  let p := if isLLSC then p <| Pkt.req ::= Request.setExtraData (Z.b2z allowStore) |> else p in
  (if allowStore : bool then
     '(l, c) ← lift (erase_locks paddr (default InvalidContextID (Request.ctxId r)) (lockedAddrList s));
     modify (fun s => s <| lockedAddrList := l |> <| cleared ::= fun q => q ++ c |>)
   else mret tt);;
  mret (allowStore, p).
Definition writeOK (p : Pkt.t) : comp t (bool * Pkt.t) :=
  s ← get;
  match lockedAddrList s with
  | [] => let isLLSC := isLLSC (Pkt.cmd p) in
          mret (negb isLLSC, if isLLSC then p <| Pkt.req ::= Request.setExtraData 0 |> else p)
  | _ => checkLockedAddrList p
  end.

(** ** Access *)

(** The range of the packet is within the memory's; the offset of its first byte. *)
Definition toHostAddr (p : Pkt.t) : comp t Z :=
  s ← get; a ← lift (Pkt.getAddr p); n ← lift (Pkt.getSize p);
  sub ← lift (AddrRange.isSubset (AddrRange.mkRange a (u64 (a + n)) [] 0) (range s));
  assert_ sub;; mret (a - AddrRange.start (range s)).
(** [pkt->setData(host_addr)] and [pkt->writeData(host_addr)] if there is memory. *)
Definition load (p : Pkt.t) (off : Z) : comp t Pkt.t :=
  s ← get; match pmem s with Some m => lift (Pkt.setData m off p) | None => mret p end.
Definition store (p : Pkt.t) (off : Z) : comp t unit :=
  s ← get;
  match pmem s with Some m => m' ← lift (Pkt.writeData p m off); modify (fun s => s <| pmem := Some m' |>) | None => mret tt end.
Definition count (f : MemStats -> MemStats) : comp t unit := modify (fun s => s <| stats ::= f |>).
Definition add (k x : Z) (f : Z -> Z) : Z -> Z := bump f k x.

(** The bytes of a word on a little-endian host. *)
Fixpoint le_bytes (n : nat) (x : Z) : list Z :=
  match n with O => [] | S n' => x mod 256 :: le_bytes n' (x / 256) end.
Definition sub_bytes (m : list Z) (off n : Z) : list Z := take (Z.to_nat n) (drop (Z.to_nat off) m).
Definition swap (p : Pkt.t) (off : Z) : comp t Pkt.t :=
  s ← get;
  if Request.isAtomic (Pkt.req p) then
    match pmem s with
    | None => mret p
    | Some m =>
        p ← load p off;
        m' ← lift (copy m off (Request.atomicOp (Pkt.req p) (sub_bytes m off (Pkt.size p))) 0 (Pkt.size p));
        modify (fun s => s <| pmem := Some m' |>);; mret p
    end
  else
    match pmem s with
    | None => lift (Fault Panic)
    | Some m =>
        n ← lift (Pkt.getSize p);
        overwrite_val ← lift (Pkt.writeData p (calloc n 0) 0);
        p ← load p off;
        overwrite_mem ←
          (if Request.isCondSwap (Pkt.req p) then
             if n =? 8 then c ← lift (Request.getExtraData (Pkt.req p)); mret (bool_decide (le_bytes 8 c = sub_bytes m off 8))
             else if n =? 4 then c ← lift (Request.getExtraData (Pkt.req p)); mret (bool_decide (le_bytes 4 (u32 c) = sub_bytes m off 4))
             else lift (Fault Panic)
           else mret true);
        (if overwrite_mem : bool
         then m' ← lift (copy m off overwrite_val 0 n); modify (fun s => s <| pmem := Some m' |>)
         else mret tt);;
        assert_ (negb (Request.isInstFetch (Pkt.req p)));;
        count (fun st => st <| numOther ::= add (Request.reqId (Pkt.req p)) 1 |>);;
        mret p
    end.
Definition access (p : Pkt.t) : comp t Pkt.t :=
  if Pkt.cacheResponding p then mret p
  else if Pkt.isCleanEviction p then mret p
  else
    off ← toHostAddr p;
    let id := Request.reqId (Pkt.req p) in
    p ←
      (if bool_decide (Pkt.cmd p = SwapReq) then swap p off
       else if isRead (Pkt.cmd p) then
         assert_ (negb (isWrite (Pkt.cmd p)));;
         when_ (isLLSC (Pkt.cmd p)) (assert_ (negb (fromCache (Pkt.cmd p)));; trackLoadLocked p);;
         p ← load p off;
         n ← lift (Pkt.getSize p);
         count (fun st => st <| numReads ::= add id 1 |> <| bytesRead ::= add id n |>
                          <| bytesInstRead ::= add id (if Request.isInstFetch (Pkt.req p) then n else 0) |>);;
         mret p
       else if isInvalidate (Pkt.cmd p) || isClean (Pkt.cmd p) then assert_ (negb (isWrite (Pkt.cmd p)));; mret p
       else if isWrite (Pkt.cmd p) then
         '(ok, p) ← writeOK p;
         if ok : bool then
           store p off;;
           assert_ (negb (Request.isInstFetch (Pkt.req p)));;
           n ← lift (Pkt.getSize p);
           count (fun st => st <| numWrites ::= add id 1 |> <| bytesWritten ::= add id n |>);;
           mret p
         else mret p
       else lift (Fault Panic));
    if needsResponse (Pkt.cmd p) then lift (Pkt.makeResponse p) else mret p.
(** A print request reads the byte at the address; its text is left out. *)
Definition functionalAccess (p : Pkt.t) : comp t Pkt.t :=
  off ← toHostAddr p;
  if isRead (Pkt.cmd p) then p ← load p off; lift (Pkt.makeResponse p)
  else if isWrite (Pkt.cmd p) then store p off;; lift (Pkt.makeResponse p)
  else if isPrint (Pkt.cmd p) then mret p
  else lift (Fault Panic).
End AbstractMemory.
