(* ===== verification/AbstractMemSpec.v ===== *)
(** The simulated memory refines a map from addresses to bytes and, per context, the granule
    it has reserved by a load-locked: what an access answers and leaves is a function of
    these.  A store wider than a granule, and a swap, leave reservations they should end. *)
From S2P Require Import Prelude Flags AddrRange MemCmd Request PacketData AbstractMem.
From stdpp Require Import gmap.
Open Scope Z_scope.
Import MemCmd AbstractMemory Payload.

Module MemSpec.

(** ** The specification *)

(** Per address the byte, per context the granule reserved. *)
Record spec := mkSpec { bytes : Z -> Z; resv : gmap Z Z }.
#[global] Instance eta_spec : Settable spec := fun r => mkSpec (bytes r) (resv r).

Definition rd (b : Z -> Z) (a n : Z) : list Z := (fun i => b (a + i)) <$> seqZ 0 n.
Definition wr (a : Z) (l : list Z) (b : Z -> Z) : Z -> Z := fun x => default (b x) (l !! (x - a)).
Definition enabled (p : Pkt.t) (i : Z) : bool :=
  negb (Pkt.isMaskedWrite p) || bool_decide (Request.byteEnable (Pkt.req p) !! i = Some true).
Definition write_pkt (p : Pkt.t) (b : Z -> Z) : Z -> Z :=
  fun x => if enabled p (x - Pkt.addr p) then wr (Pkt.addr p) (Pkt.data p) b x else b x.
Definition granule (p : Pkt.t) : Z := mask (default 0 (Request.paddr (Pkt.req p))).
Definition ctx (p : Pkt.t) : Z := default InvalidContextID (Request.ctxId (Pkt.req p)).
Definition release (g : Z) (m : gmap Z Z) : gmap Z Z := filter (fun x => x.2 <> g) m.
Definition store_spec (p : Pkt.t) (a : spec) : spec := a <| bytes ::= write_pkt p |> <| resv ::= release (granule p) |>.

(** A conditional swap compares the condition with the old bytes. *)
Definition swaps (p : Pkt.t) (old : list Z) : bool :=
  negb (Request.isCondSwap (Pkt.req p)) ||
  let c := default 0 (Request.extraData (Pkt.req p)) in
  bool_decide ((if Pkt.size p =? 8 then le_bytes 8 c else le_bytes 4 (u32 c)) = old).
(** The new state and the packet before it becomes a response. *)
Definition serve_pkt (p : Pkt.t) (a : spec) : Pkt.t * spec :=
  let old := rd (bytes a) (Pkt.addr p) (Pkt.size p) in
  if bool_decide (Pkt.cmd p = SwapReq) then
    (p <| Pkt.data := old |>,
     a <| bytes ::= fun b => if Request.isAtomic (Pkt.req p) then wr (Pkt.addr p) (Request.atomicOp (Pkt.req p) old) b
                             else if swaps p old then wr (Pkt.addr p) (Pkt.data p) b else b |>)
  else if isRead (Pkt.cmd p) then
    (p <| Pkt.data := old |>, if isLLSC (Pkt.cmd p) then a <| resv ::= <[ctx p := granule p]> |> else a)
  else if isInvalidate (Pkt.cmd p) || isClean (Pkt.cmd p) then (p, a)
  else
    let ok := if isLLSC (Pkt.cmd p) then bool_decide (resv a !! ctx p = Some (granule p)) else true in
    (if isLLSC (Pkt.cmd p) then p <| Pkt.req ::= Request.setExtraData (Z.b2z ok) |> else p, if ok then store_spec p a else a).
Definition respond (p : Pkt.t) : Pkt.t :=
  if needsResponse (Pkt.cmd p)
  then p <| Pkt.cmd ::= responseCommand |> <| Pkt.flags ::= Flags.clear Pkt.EXPRESS_SNOOP |> else p.
Definition ignored (p : Pkt.t) : bool := Pkt.cacheResponding p || Pkt.isCleanEviction p.
Definition access_spec (p : Pkt.t) (a : spec) : Pkt.t * spec :=
  if ignored p then (p, a) else let '(p', a') := serve_pkt p a in (respond p', a').

(** What a packet needs: validity bits, a buffer of its size, a range of the memory, the
    physical address; a context for load-locked and store-conditional. *)
Record legal (r : AddrRange.t) (p : Pkt.t) : Prop := {
  lg_flags : Flags.isSet (Pkt.flags p) Pkt.VALID_ADDR = true /\ Flags.isSet (Pkt.flags p) Pkt.VALID_SIZE = true;
  lg_size : 0 < Pkt.size p /\ 0 <= Pkt.addr p /\ Pkt.addr p + Pkt.size p < 2 ^ 64;
  lg_data : isRead (Pkt.cmd p) || isWrite (Pkt.cmd p) = true ->
            Flags.isSet (Pkt.flags p) Pkt.DATA = true /\ zlen (Pkt.data p) = Pkt.size p;
  lg_range : AddrRange.isSubset (AddrRange.mkRange (Pkt.addr p) (Pkt.addr p + Pkt.size p) [] 0) r = Ok true;
  lg_cmd : isRead (Pkt.cmd p) || isWrite (Pkt.cmd p) || isInvalidate (Pkt.cmd p) || isClean (Pkt.cmd p) = true;
  lg_cache : isLLSC (Pkt.cmd p) = true -> fromCache (Pkt.cmd p) = false;
  lg_request : isRequest (Pkt.cmd p) = true;
  lg_mask : Pkt.isMaskedWrite p = true -> zlen (Request.byteEnable (Pkt.req p)) = Pkt.size p;
  lg_paddr : Request.paddr (Pkt.req p) <> None;
  lg_ctx : isLLSC (Pkt.cmd p) = true -> exists c, Request.ctxId (Pkt.req p) = Some c /\ c <> InvalidContextID;
  lg_fetch : isWrite (Pkt.cmd p) = true -> Request.isInstFetch (Pkt.req p) = false;
  lg_swap : Request.isCondSwap (Pkt.req p) = true -> (Pkt.size p = 4 \/ Pkt.size p = 8) /\ Request.extraData (Pkt.req p) <> None;
  lg_atomic : forall l, zlen (Request.atomicOp (Pkt.req p) l) = zlen l }.

(** ** The relation *)

Definition holds (r : AddrRange.t) (m : list Z) (b : Z -> Z) : Prop :=
  zlen m = AddrRange.end_ r - AddrRange.start r /\
  forall x, AddrRange.start r <= x < AddrRange.end_ r -> m !! (x - AddrRange.start r) = Some (b x).
(** One record per context. *)
Record locks (l : list LockedAddr) (m : gmap Z Z) : Prop := {
  lk_ctx : NoDup (lctx <$> l);
  lk_real : Forall (fun i => lctx i <> InvalidContextID) l;
  lk_map : forall c g, m !! c = Some g <-> mkLocked g c ∈ l }.
Record implements (r : AddrRange.t) (s : t) (a : spec) : Prop := {
  im_range : range s = r;
  im_bytes : exists m, pmem s = Some m /\ holds r m (bytes a);
  im_locks : locks (lockedAddrList s) (resv a) }.

(** ** Bytes *)

Lemma zlist_eq {A} (l k : list A) : zlen l = zlen k -> (forall i, 0 <= i < zlen l -> l !! i = k !! i) -> l = k.
Proof.
  intros Hl H. apply list_eq. intros i. destruct (decide (i < length l)%nat) as [Hi|Hi].
  - specialize (H (Z.of_nat i) ltac:(unfold zlen; lia)). by rewrite !zlookup_nat in H.
  - unfold zlen in Hl. rewrite !lookup_ge_None_2 by lia. done.
Qed.
Lemma zlen_rd b a n : 0 <= n -> zlen (rd b a n) = n.
Proof. intros H. unfold rd, zlen. rewrite length_fmap, length_seqZ. lia. Qed.
Lemma rd_lookup b a n i : 0 <= i < n -> rd b a n !! i = Some (b (a + i)).
Proof.
  intros H. unfold rd. rewrite zlookup_fmap. unfold lookup, zlist_lookup. destruct (Z.ltb_spec i 0); [lia|].
  rewrite (proj2 (lookup_seqZ 0 n (Z.to_nat i) i)) by lia. done.
Qed.
Lemma zlookup_out {A} (l : list A) i : ~ 0 <= i < zlen l -> l !! i = None.
Proof. intros H. destruct (l !! i) eqn:E; [|done]. apply zlookup_lt in E. lia. Qed.

Section Range.
Context (r : AddrRange.t).
Lemma subset_bounds p : legal r p -> AddrRange.start r <= Pkt.addr p /\ Pkt.addr p + Pkt.size p <= AddrRange.end_ r.
Proof.
  intros H. pose proof (lg_range _ _ H) as Hr. pose proof (lg_size _ _ H) as (Hs & Ha & Hb). unfold AddrRange.isSubset in Hr. cbn in Hr.
  destruct (AddrRange.interleaved r); injection Hr as Hr.
  - rewrite u64_small in Hr by lia. unfold AddrRange.contains in Hr. rewrite !andb_true_iff, !Z.leb_le, !Z.ltb_lt in Hr. lia.
  - rewrite andb_true_iff, !Z.leb_le in Hr. lia.
Qed.
Lemma addr_ok p : legal r p -> Pkt.getAddr p = Ok (Pkt.addr p) /\ Pkt.getSize p = Ok (Pkt.size p).
Proof. intros H. destruct (lg_flags _ _ H) as [H1 H2]. unfold Pkt.getAddr, Pkt.getSize. by rewrite H1, H2. Qed.
Lemma toHostAddr_wp p s : legal r p -> range s = r -> wp (toHostAddr p) s (fun off s' => s' = s /\ off = Pkt.addr p - AddrRange.start r).
Proof.
  intros H Hr. destruct (addr_ok p H) as [H1 H2]. pose proof (lg_size _ _ H). unfold toHostAddr. wp_step. wp_step. wp_step.
  apply wp_lift. rewrite H1. cbn. wp_step. apply wp_lift. rewrite H2. cbn. wp_step. apply wp_lift. rewrite Hr, u64_small by lia.
  rewrite (lg_range _ _ H). cbn. wp_step. apply wp_assert; [done|]. wp_step. done.
Qed.

Lemma read_wp p m b s : legal r p -> holds r m b -> pmem s = Some m -> Pkt.isMaskedWrite p = false ->
  isRead (Pkt.cmd p) || isWrite (Pkt.cmd p) = true ->
  wp (load p (Pkt.addr p - AddrRange.start r)) s (fun p' s' => s' = s /\ p' = p <| Pkt.data := rd b (Pkt.addr p) (Pkt.size p) |>).
Proof.
  intros H [Hm Hb] Hp Hmask Hc. pose proof (subset_bounds p H). pose proof (lg_size _ _ H). destruct (lg_data _ _ H Hc) as [Hd Hl].
  unfold load. wp_step. wp_step. rewrite Hp. apply wp_lift. unfold Pkt.setData, Pkt.getPtr. rewrite Hd, Hmask. cbn.
  rewrite (proj2 (addr_ok p H)). cbn. destruct (copy_spec (Pkt.data p) 0 m (Pkt.addr p - AddrRange.start r) (Pkt.size p)) as (d & -> & Hzd & Hk).
  { unfold inside. lia. }
  assert (d = rd b (Pkt.addr p) (Pkt.size p)) as ->; [|done]. apply zlist_eq; [rewrite zlen_rd; lia|].
  intros i Hi. rewrite Hk, rd_lookup by lia. destruct (Z.leb_spec 0 i), (Z.ltb_spec i (0 + Pkt.size p)); try lia. cbn [andb].
  replace (Pkt.addr p - AddrRange.start r + (i - 0)) with (Pkt.addr p + i - AddrRange.start r) by lia. apply Hb. lia.
Qed.
(** A copy of [l] at the address of the packet. *)
Lemma copy_holds p m b l : legal r p -> holds r m b -> zlen l = Pkt.size p ->
  exists m', copy m (Pkt.addr p - AddrRange.start r) l 0 (Pkt.size p) = Ok m' /\ holds r m' (wr (Pkt.addr p) l b).
Proof.
  intros H [Hm Hb] Hl. pose proof (subset_bounds p H). pose proof (lg_size _ _ H).
  destruct (copy_spec m (Pkt.addr p - AddrRange.start r) l 0 (Pkt.size p)) as (m' & E & Hz & Hk); [unfold inside; lia|].
  exists m'. split; [done|]. split; [lia|]. intros x Hx. rewrite Hk. unfold wr.
  destruct (Z.leb_spec (Pkt.addr p - AddrRange.start r) (x - AddrRange.start r)),
    (Z.ltb_spec (x - AddrRange.start r) (Pkt.addr p - AddrRange.start r + Pkt.size p)); cbn [andb].
  - replace (0 + (x - AddrRange.start r - (Pkt.addr p - AddrRange.start r))) with (x - Pkt.addr p) by lia.
    destruct (zlookup_is_Some l (x - Pkt.addr p) ltac:(lia)) as [y ->]. done.
  - rewrite (zlookup_out l) by lia. by apply Hb.
  - rewrite (zlookup_out l) by lia. by apply Hb.
  - rewrite (zlookup_out l) by lia. by apply Hb.
Qed.
Lemma writeData_holds p m b : legal r p -> holds r m b -> isWrite (Pkt.cmd p) = true ->
  exists m', Pkt.writeData p m (Pkt.addr p - AddrRange.start r) = Ok m' /\ holds r m' (write_pkt p b).
Proof.
  intros H Hh Hw. destruct (lg_data _ _ H) as [Hd Hl]; [by rewrite Hw, orb_true_r|].
  unfold Pkt.writeData, Pkt.getConstPtr. rewrite Hd, (proj2 (addr_ok p H)). cbn [Pkt.check mbind result_bind].
  destruct (Pkt.isMaskedWrite p) eqn:Em; cbn [negb].
  - pose proof (lg_mask _ _ H Em) as Hn. rewrite (proj2 (Z.eqb_eq _ _) Hn). cbn [Pkt.check mbind result_bind].
    pose proof (subset_bounds p H). pose proof (lg_size _ _ H). destruct Hh as [Hm Hb].
    destruct (copy_enabled_spec (Request.byteEnable (Pkt.req p)) m (Pkt.addr p - AddrRange.start r) (Pkt.data p) 0) as (m' & E & Hz & Hk);
      [unfold inside; lia|].
    exists m'. split; [done|]. split; [lia|]. intros x Hx. rewrite Hk. unfold write_pkt, enabled, wr. rewrite Em. cbn [negb orb].
    replace (x - AddrRange.start r - (Pkt.addr p - AddrRange.start r)) with (x - Pkt.addr p) by lia.
    case_bool_decide as He; [|by apply Hb]. apply zlookup_lt in He. replace (0 + (x - Pkt.addr p)) with (x - Pkt.addr p) by lia.
    destruct (zlookup_is_Some (Pkt.data p) (x - Pkt.addr p) ltac:(lia)) as [y ->]. done.
  - destruct (copy_holds p m b (Pkt.data p) H Hh Hl) as (m' & -> & Hm'). exists m'. split; [done|].
    unfold write_pkt, enabled. rewrite Em. exact Hm'.
Qed.
End Range.

(** ** Reservations *)

Lemma matches i r c : lctx i <> InvalidContextID -> Request.ctxId r = Some c -> matchesContext i r = Ok (lctx i =? c).
Proof. intros Hi Hc. unfold matchesContext, Request.hasContextId, Request.contextId. rewrite Hc. cbn. by rewrite (proj2 (Z.eqb_neq _ _) Hi). Qed.
Lemma modify_lock_spec g r c l : Forall (fun i => lctx i <> InvalidContextID) l -> NoDup (lctx <$> l) -> Request.ctxId r = Some c ->
  exists o, modify_lock g r l = Ok o /\
    match o with
    | Some l' => lctx <$> l' = lctx <$> l /\ c ∈ lctx <$> l /\ forall x, x ∈ l' <-> x = mkLocked g c \/ x ∈ l /\ lctx x <> c
    | None => c ∉ lctx <$> l
    end.
Proof.
  intros Hr Hn Hc. induction l as [|i l IH]; cbn [modify_lock]; [exists None; split; [done|apply not_elem_of_nil]|].
  apply Forall_cons_1 in Hr as [Hi Hr]. apply NoDup_cons in Hn as [Hin Hn]. rewrite (matches i r c Hi Hc). cbn [mbind result_bind].
  destruct (Z.eqb_spec (lctx i) c) as [E|E].
  - eexists. split; [done|]. split; [done|]. split; [rewrite fmap_cons, E; left|]. intros x. rewrite !elem_of_cons. destruct i as [ga gc]. cbn in E |- *. subst gc.
    split; [intros [->|Hx]; [by left|right]|intros [->|[[->|Hx] ?]]; [by left|done|by right]].
    split; [by right|]. intros E. apply Hin. cbn. rewrite <- E. by apply list_elem_of_fmap_2.
  - destruct (IH Hr Hn) as (o & -> & Ho). cbn [mbind result_bind]. destruct o as [l'|]; eexists; (split; [done|]); cbn [fmap list_fmap].
    + destruct Ho as (E1 & Hcl & Hx). split; [by rewrite E1|]. split; [by right|]. intros x. rewrite !elem_of_cons, Hx.
      split; [intros [->|[->|[? ?]]]; auto|intros [->|[[->|?] ?]]; auto].
    + apply not_elem_of_cons. done.
Qed.
Lemma track_spec g r c l m : locks l m -> Request.ctxId r = Some c -> c <> InvalidContextID ->
  exists o, modify_lock g r l = Ok o /\ locks (match o with Some l' => l' | None => mkLocked g c :: l end) (<[c := g]> m).
Proof.
  intros [Hn Hr Hm] Hc Hreal. destruct (modify_lock_spec g r c l Hr Hn Hc) as (o & -> & Ho). exists o. split; [done|].
  destruct o as [l'|].
  - destruct Ho as (E & Hin & Hx). split.
    + by rewrite E.
    + apply Forall_forall. intros x [->|[Hxl _]]%Hx; [done|]. rewrite Forall_forall in Hr. by apply Hr.
    + intros c' g'. rewrite Hx. destruct (decide (c' = c)) as [->|Hne].
      * rewrite lookup_insert_eq. split; [intros [= ->]; by left|]. intros [[= ->]|[_ []]]; done.
      * rewrite lookup_insert_ne, Hm by done. split; [by right|]. intros [[= -> ->]|[? _]]; done.
  - split.
    + cbn. by apply NoDup_cons.
    + by constructor.
    + intros c' g'. rewrite elem_of_cons. destruct (decide (c' = c)) as [->|Hne].
      * rewrite lookup_insert_eq. split; [intros [= ->]; by left|]. intros [[= ->]|Hi]; [done|].
        destruct Ho. change c with (lctx (mkLocked g' c)). by apply list_elem_of_fmap_2.
      * rewrite lookup_insert_ne, Hm by done. split; [by right|]. intros [[= -> ->]|?]; done.
Qed.
#[local] Instance LockedAddr_eq : EqDecision LockedAddr.
Proof. solve_decision. Defined.
Lemma find_spec g r c l m : locks l m -> Request.ctxId r = Some c -> find_lock g r l = Ok (bool_decide (m !! c = Some g)).
Proof.
  intros [_ Hr Hm] Hc. assert (bool_decide (m !! c = Some g) = bool_decide (mkLocked g c ∈ l)) as -> by by apply bool_decide_ext.
  clear Hm. induction l as [|i l IH]; cbn [find_lock]; [done|]. apply Forall_cons_1 in Hr as [Hi Hr]. rewrite (matches i r c Hi Hc), (IH Hr).
  destruct i as [ga gc]. cbn [laddr lctx mbind result_bind].
  destruct (Z.eqb_spec ga g) as [->|Hg]; [destruct (Z.eqb_spec gc c) as [->|Hgc]|]; f_equal.
  - symmetry. apply bool_decide_eq_true. left.
  - apply bool_decide_ext. rewrite elem_of_cons. split; [by right|]. intros [[= ->]|?]; done.
  - apply bool_decide_ext. rewrite elem_of_cons. split; [by right|]. intros [[= -> _]|?]; done.
Qed.
Lemma erase_eq g c l : Forall (fun i => lctx i <> InvalidContextID) l ->
  exists q, erase_locks g c l = Ok (filter (fun i => laddr i <> g) l, q).
Proof.
  induction 1 as [|i l Hi Hr [q IH]]; cbn [erase_locks]; [by exists []|]. rewrite IH, filter_cons. cbn [mbind result_bind].
  rewrite (proj2 (Z.eqb_neq _ _) Hi). destruct (Z.eqb_spec (laddr i) g); cbn; [rewrite decide_False by auto|rewrite decide_True by auto]; eauto.
Qed.
Lemma erase_spec g c l m : locks l m -> exists l' q, erase_locks g c l = Ok (l', q) /\ locks l' (release g m).
Proof.
  intros [Hn Hr Hm]. destruct (erase_eq g c l Hr) as [q ->]. eexists _, q. split; [done|]. split.
  - eapply sublist_NoDup; [exact Hn|]. apply fmap_sublist, sublist_filter.
  - apply Forall_forall. intros x [_ Hx]%list_elem_of_filter. rewrite Forall_forall in Hr. by apply Hr.
  - intros c' g'. unfold release. rewrite map_lookup_filter_Some, Hm, list_elem_of_filter. cbn. tauto.
Qed.

(** ** Access *)

Section Access.
Context (r : AddrRange.t).

Lemma count_wp f s a : implements r s a -> wp (count f) s (fun _ s' => implements r s' a).
Proof. intros []. unfold count. wp_step. by split. Qed.
Lemma store_mem s a m b : implements r s a -> holds r m b -> implements r (s <| pmem := Some m |>) (a <| bytes := b |>).
Proof. intros [] H. split; try done. by exists m. Qed.
Lemma mem_store_wp p s a : implements r s a -> legal r p -> isWrite (Pkt.cmd p) = true ->
  wp (store p (Pkt.addr p - AddrRange.start r)) s (fun _ s' => implements r s' (a <| bytes ::= write_pkt p |>)).
Proof.
  intros H Hp Hw. destruct (im_bytes _ _ _ H) as (m & Em & Hm). destruct (writeData_holds r p m (bytes a) Hp Hm Hw) as (m' & E & Hm').
  unfold store. wp_step. wp_step. rewrite Em. wp_step. apply wp_lift. rewrite E. cbn [rp]. wp_step. by apply (store_mem s a).
Qed.
Lemma load_locked_wp p s a : implements r s a -> legal r p -> isLLSC (Pkt.cmd p) = true ->
  wp (trackLoadLocked p) s (fun _ s' => implements r s' (a <| resv ::= <[ctx p := granule p]> |>) /\ pmem s' = pmem s).
Proof.
  intros H Hp Hl. destruct (lg_ctx _ _ Hp Hl) as (c & Hc & Hreal). pose proof (lg_paddr _ _ Hp) as Ha.
  unfold trackLoadLocked, granule, ctx, Request.getPaddr. rewrite Hc. destruct (Request.paddr (Pkt.req p)) as [pa|] eqn:Epa; [|done].
  cbn [default]. wp_step. apply wp_lift. cbn [Request.valid rp]. wp_step. wp_step. wp_step. apply wp_lift.
  destruct (track_spec (mask pa) _ c _ _ (im_locks _ _ _ H) Hc Hreal) as (o & E & Ho). rewrite E. cbn [rp].
  destruct o as [l|]; [|wp_step; apply wp_lift; unfold Request.contextId; rewrite Hc; cbn [Request.valid rp]]; wp_step; (split; [|done]); by destruct H.
Qed.
Lemma writeOK_wp p s a : implements r s a -> legal r p ->
  let ok := if isLLSC (Pkt.cmd p) then bool_decide (resv a !! ctx p = Some (granule p)) else true in
  wp (writeOK p) s (fun x s' => x = (ok, if isLLSC (Pkt.cmd p) then p <| Pkt.req ::= Request.setExtraData (Z.b2z ok) |> else p) /\
    pmem s' = pmem s /\ implements r s' (if ok : bool then a <| resv ::= release (granule p) |> else a)).
Proof.
  intros H Hp ok. pose proof (lg_paddr _ _ Hp) as Ha. unfold writeOK. wp_step. wp_step.
  assert (wp (checkLockedAddrList p) s (fun x s' => x = (ok, if isLLSC (Pkt.cmd p) then p <| Pkt.req ::= Request.setExtraData (Z.b2z ok) |> else p) /\
    pmem s' = pmem s /\ implements r s' (if ok : bool then a <| resv ::= release (granule p) |> else a))) as Hgen.
  { unfold checkLockedAddrList, Request.getPaddr. unfold granule in *. destruct (Request.paddr (Pkt.req p)) as [pa|] eqn:Epa; [|done].
    cbn [default] in *. wp_step. apply wp_lift. cbn [Request.valid rp]. wp_step. wp_step. wp_step.
    eapply (wp_mono _ _ (fun x s' => s' = s /\ x = ok)).
    { unfold ok. destruct (isLLSC (Pkt.cmd p)) eqn:El; [|by wp_step]. destruct (lg_ctx _ _ Hp El) as (c & Hc & _).
      apply wp_lift. unfold ctx. rewrite (find_spec _ _ c _ _ (im_locks _ _ _ H) Hc), Hc. done. }
    intros x s' [-> ->]. clearbody ok. wp_step. destruct ok.
    - wp_step. apply wp_lift. destruct (erase_spec (mask pa) (default InvalidContextID (Request.ctxId (Pkt.req p))) _ _ (im_locks _ _ _ H)) as (l & q & E & Hl).
      rewrite E. cbn [rp]. wp_step. wp_step. split; [done|]. split; [done|]. by destruct H.
    - wp_step. wp_step. done. }
  destruct (lockedAddrList s) eqn:El; [|exact Hgen]. wp_step.
  assert (forall c g, resv a !! c <> Some g) as Hno.
  { intros c g Hr%(lk_map _ _ (im_locks _ _ _ H)). rewrite El in Hr. by apply elem_of_nil in Hr. }
  assert (resv a = ∅) as He by (apply map_eq; intros c; rewrite lookup_empty; destruct (resv a !! c) eqn:E; [by apply Hno in E|done]).
  unfold ok. destruct (isLLSC (Pkt.cmd p)); cbn [negb].
  - rewrite bool_decide_false by apply Hno. done.
  - split; [done|]. split; [done|]. assert (a <| resv ::= release (granule p) |> = a) as ->; [|done].
    destruct a as [b m]. cbn in He |- *. by subst m.
Qed.
Lemma sub_bytes_rd p m b : legal r p -> holds r m b ->
  sub_bytes m (Pkt.addr p - AddrRange.start r) (Pkt.size p) = rd b (Pkt.addr p) (Pkt.size p).
Proof.
  intros Hp [Hm Hb]. pose proof (subset_bounds r p Hp). pose proof (lg_size _ _ Hp). unfold sub_bytes.
  assert (zlen (take (Z.to_nat (Pkt.size p)) (drop (Z.to_nat (Pkt.addr p - AddrRange.start r)) m)) = Pkt.size p) as Hl.
  { apply zlen_take. rewrite zlen_drop by lia. lia. }
  apply zlist_eq; [by rewrite zlen_rd by lia|]. rewrite Hl. intros i Hi. rewrite rd_lookup, zlookup_take, zlookup_drop by lia.
  replace (Pkt.addr p - AddrRange.start r + i) with (Pkt.addr p + i - AddrRange.start r) by lia. apply Hb. lia.
Qed.
Lemma swap_mask p : Pkt.cmd p = SwapReq -> Pkt.isMaskedWrite p = false.
Proof. intros H. unfold Pkt.isMaskedWrite. by rewrite H. Qed.
Lemma swap_value p : legal r p -> Pkt.cmd p = SwapReq -> Pkt.writeData p (calloc (Pkt.size p) 0) 0 = Ok (Pkt.data p).
Proof.
  intros Hp Hc. destruct (lg_data _ _ Hp) as [Hd Hl]; [by rewrite Hc|]. pose proof (lg_size _ _ Hp).
  unfold Pkt.writeData, Pkt.getConstPtr. rewrite (swap_mask p Hc), Hd, (proj2 (addr_ok r p Hp)). cbn [negb Pkt.check mbind result_bind].
  destruct (copy_spec (calloc (Pkt.size p) 0) 0 (Pkt.data p) 0 (Pkt.size p)) as (d & -> & Hz & Hk).
  { unfold inside. rewrite zlen_calloc by lia. lia. }
  f_equal. rewrite zlen_calloc in Hz by lia. apply zlist_eq; [lia|]. intros i Hi. rewrite Hk.
  destruct (Z.leb_spec 0 i), (Z.ltb_spec i (0 + Pkt.size p)); try lia. cbn [andb]. f_equal. lia.
Qed.
(** The test of a conditional swap. *)
Definition swap_test (p : Pkt.t) (m : list Z) (off n : Z) : comp t bool :=
  if Request.isCondSwap (Pkt.req p) then
    if n =? 8 then c ← lift (Request.getExtraData (Pkt.req p)); mret (bool_decide (le_bytes 8 c = sub_bytes m off 8))
    else if n =? 4 then c ← lift (Request.getExtraData (Pkt.req p)); mret (bool_decide (le_bytes 4 (u32 c) = sub_bytes m off 4))
    else lift (Fault Panic)
  else mret true.
Lemma swap_test_wp p m b s d : legal r p -> holds r m b -> 
  wp (swap_test (p <| Pkt.data := d |>) m (Pkt.addr p - AddrRange.start r) (Pkt.size p)) s
    (fun x s' => s' = s /\ x = swaps p (rd b (Pkt.addr p) (Pkt.size p))).
Proof.
  intros Hp Hm. unfold swap_test, swaps. cbn [Pkt.req over]. destruct (Request.isCondSwap (Pkt.req p)) eqn:Ec; [|by wp_step].
  destruct (lg_swap _ _ Hp Ec) as [Hs Hx]. unfold Request.getExtraData. destruct (Request.extraData (Pkt.req p)) as [x|] eqn:Ex; [|done].
  cbn [negb orb default]. pose proof (sub_bytes_rd p m b Hp Hm) as Hb.
  destruct Hs as [E|E]; rewrite E in Hb |- *; cbn [Z.eqb Pos.eqb]; wp_step; apply wp_lift; cbn [Request.valid rp]; wp_step; (split; [done|]); by rewrite Hb.
Qed.
Lemma swap_wp p s a : implements r s a -> legal r p -> Pkt.cmd p = SwapReq ->
  wp (swap p (Pkt.addr p - AddrRange.start r)) s (fun p' s' => p' = (serve_pkt p a).1 /\ implements r s' (serve_pkt p a).2).
Proof.
  intros H Hp Hc. destruct (im_bytes _ _ _ H) as (m & Em & Hm). destruct (addr_ok r p Hp) as [_ Hsz].
  assert (isRead (Pkt.cmd p) || isWrite (Pkt.cmd p) = true) as Hrw by by rewrite Hc.
  unfold serve_pkt. rewrite bool_decide_true by done. cbn [fst snd]. set (old := rd (bytes a) (Pkt.addr p) (Pkt.size p)).
  pose proof (read_wp r p m (bytes a) s Hp Hm Em (swap_mask p Hc) Hrw) as Hload.
  unfold swap. wp_step. wp_step. rewrite Em. destruct (Request.isAtomic (Pkt.req p)) eqn:Eat.
  - wp_step. eapply wp_mono; [exact Hload|]. intros p' s' [-> ->]. wp_step. apply wp_lift. cbn [Pkt.req Pkt.size over].
    rewrite (sub_bytes_rd p m (bytes a) Hp Hm). fold old.
    destruct (copy_holds r p m (bytes a) (Request.atomicOp (Pkt.req p) old) Hp Hm) as (m' & E & Hm').
    { rewrite (lg_atomic _ _ Hp). apply zlen_rd. pose proof (lg_size _ _ Hp). lia. }
    rewrite E. cbn [rp]. wp_step. wp_step. wp_step. split; [done|]. by apply (store_mem s a).
  - wp_step. apply wp_lift. rewrite Hsz. cbn [rp]. wp_step. apply wp_lift. rewrite (swap_value p Hp Hc). cbn [rp]. wp_step.
    eapply wp_mono; [exact Hload|]. intros p' s' [-> ->]. wp_step. fold old.
    eapply wp_mono; [exact (swap_test_wp p m (bytes a) s old Hp Hm)|]. fold old. intros x s' [-> ->]. wp_step.
    eapply (wp_mono _ _ (fun _ s' => implements r s' (a <| bytes ::= fun b => if swaps p old then wr (Pkt.addr p) (Pkt.data p) b else b |>))).
    { destruct (swaps p old); [|wp_step; by destruct H].
      destruct (lg_data _ _ Hp Hrw) as [_ Hl]. destruct (copy_holds r p m (bytes a) (Pkt.data p) Hp Hm Hl) as (m' & E & Hm').
      wp_step. apply wp_lift. rewrite E. cbn [rp]. wp_step. by apply (store_mem s a). }
    intros [] s' H'. wp_step. apply wp_assert; [change (negb (Request.isInstFetch (Pkt.req p)) = true); by rewrite (lg_fetch _ _ Hp) by by rewrite Hc|]. wp_step.
    eapply wp_mono; [by apply count_wp|]. intros [] s2 H2. wp_step. done.
Qed.
Lemma serve_cmd p a : Pkt.cmd (serve_pkt p a).1 = Pkt.cmd p /\ Pkt.flags (serve_pkt p a).1 = Pkt.flags p.
Proof.
  unfold serve_pkt. destruct (bool_decide _); [done|]. destruct (isRead _); [done|]. destruct (_ || _); [done|]. by destruct (isLLSC _).
Qed.
(** What an access leaves of a packet. *)
Lemma access_keeps p a : let q := (access_spec p a).1 in
  Pkt.addr q = Pkt.addr p /\ Pkt.size q = Pkt.size p /\ Pkt.secure q = Pkt.secure p /\ Pkt.headerDelay q = Pkt.headerDelay p /\ Pkt.payloadDelay q = Pkt.payloadDelay p.
Proof.
  unfold access_spec, serve_pkt, respond. destruct (ignored p); [done|]. destruct (bool_decide _); [by destruct (needsResponse _)|].
  destruct (isRead _); [by destruct (needsResponse _)|]. destruct (_ || _); [by destruct (needsResponse _)|]. by destruct (isLLSC _), (needsResponse _).
Qed.
Lemma ignored_quiet p : Pkt.cacheResponding p = false -> ignored p = true -> needsResponse (Pkt.cmd p) = false.
Proof.
  unfold ignored, Pkt.isCleanEviction. intros ->. rewrite orb_false_l. intros [H|H]%orb_true_iff; apply bool_decide_eq_true in H; by rewrite H.
Qed.
(** The answer to a request that needs one is a response with the flags of the request, and
    with as many bytes. *)
Lemma access_response p a : legal r p -> Pkt.cacheResponding p = false -> needsResponse (Pkt.cmd p) = true ->
  let q := (access_spec p a).1 in
  Pkt.cmd q = responseCommand (Pkt.cmd p) /\ Pkt.flags q = Flags.clear Pkt.EXPRESS_SNOOP (Pkt.flags p) /\
  (isRead (Pkt.cmd p) = true -> Pkt.data q = rd (bytes a) (Pkt.addr p) (Pkt.size p)).
Proof.
  intros H Hc Hn. unfold access_spec. destruct (ignored p) eqn:Ei; [by rewrite ignored_quiet in Hn|].
  pose proof (serve_cmd p a) as [E1 E2]. assert (isRead (Pkt.cmd p) = true -> Pkt.data (serve_pkt p a).1 = rd (bytes a) (Pkt.addr p) (Pkt.size p)) as E3.
  { intros E. unfold serve_pkt. destruct (bool_decide _); [done|]. by rewrite E. }
  destruct (serve_pkt p a) as [q a']. cbn [fst] in *. unfold respond. rewrite E1, Hn. cbn [Pkt.cmd Pkt.flags Pkt.data over]. rewrite E1, E2. done.
Qed.
Lemma mem_respond_wp p s (Q : Pkt.t -> t -> Prop) : isRequest (Pkt.cmd p) = true -> Q (respond p) s ->
  wp (if needsResponse (Pkt.cmd p) then lift (Pkt.makeResponse p) else mret p) s Q.
Proof.
  intros Hr HQ. unfold respond in HQ. destruct (needsResponse (Pkt.cmd p)) eqn:E; [|by wp_step]. apply wp_lift. unfold Pkt.makeResponse.
  by rewrite E, Hr.
Qed.
Lemma read_only c : c <> SwapReq -> isRequest c = true -> isRead c = true -> isWrite c = false.
Proof. by destruct c. Qed.
Lemma clean_only c : isRead c = false -> isRequest c = true -> isInvalidate c || isClean c = true -> isWrite c = false.
Proof. by destruct c. Qed.
Lemma no_mask p : isWrite (Pkt.cmd p) = false -> Pkt.isMaskedWrite p = false.
Proof. intros H. unfold Pkt.isMaskedWrite. rewrite bool_decide_false; [done|]. intros E. by rewrite E in H. Qed.
(** The request of a packet does not bear on its bytes. *)
Lemma legal_extra p x : legal r p -> legal r (p <| Pkt.req ::= Request.setExtraData x |>).
Proof. intros []. split; try done. intros Hc. by destruct (lg_swap0 Hc). Qed.

Lemma mem_access_wp p s a : implements r s a -> ignored p = true \/ legal r p ->
  wp (access p) s (fun p' s' => p' = (access_spec p a).1 /\ implements r s' (access_spec p a).2).
Proof.
  intros H Hp. unfold access, access_spec, ignored in *. destruct (Pkt.cacheResponding p); [by wp_step|].
  destruct (Pkt.isCleanEviction p); [by wp_step|]. destruct Hp as [|Hp]; [done|]. cbn [orb].
  wp_step. eapply wp_mono; [apply (toHostAddr_wp r p s Hp); apply H|]. intros off s0 [-> ->]. wp_step.
  assert (forall s', implements r s' (serve_pkt p a).2 ->
    wp (if needsResponse (Pkt.cmd (serve_pkt p a).1) then lift (Pkt.makeResponse (serve_pkt p a).1) else mret (serve_pkt p a).1) s'
      (fun p' s' => p' = (let '(p', a') := serve_pkt p a in (respond p', a')).1 /\ implements r s' (let '(p', a') := serve_pkt p a in (respond p', a')).2)) as Hend.
  { intros s' H'. apply mem_respond_wp; [by rewrite (proj1 (serve_cmd p a)), (lg_request _ _ Hp)|]. by destruct (serve_pkt p a). }
  case_bool_decide as Hsw.
  { eapply wp_mono; [by apply swap_wp|]. intros p' s' [-> H']. by apply Hend. }
  unfold serve_pkt in Hend. rewrite bool_decide_false in Hend by done. unfold serve_pkt. rewrite bool_decide_false by done.
  destruct (isRead (Pkt.cmd p)) eqn:Er.
  - pose proof (read_only _ Hsw (lg_request _ _ Hp) Er) as Hw. rewrite Hw. wp_step. apply wp_assert; [done|]. wp_step.
    eapply (wp_mono _ _ (fun _ s' => implements r s' (if isLLSC (Pkt.cmd p) then a <| resv ::= <[ctx p := granule p]> |> else a))).
    { destruct (isLLSC (Pkt.cmd p)) eqn:El; cbn [when_]; [|by wp_step]. wp_step. apply wp_assert; [by rewrite (lg_cache _ _ Hp El)|].
      eapply wp_mono; [by apply load_locked_wp|]. by intros [] s' [H' _]. }
    intros [] s' H'. set (a' := if isLLSC (Pkt.cmd p) then _ else a) in *.
    assert (bytes a' = bytes a) as Eb by (unfold a'; by destruct (isLLSC (Pkt.cmd p))).
    destruct (im_bytes _ _ _ H') as (m & Em & Hm). rewrite Eb in Hm. wp_step.
    eapply wp_mono; [apply (read_wp r p m (bytes a) s' Hp Hm Em (no_mask p Hw)); by rewrite Er|]. intros p' s2 [-> ->].
    wp_step. apply wp_lift. change (Pkt.getSize (p <| Pkt.data := _ |>)) with (Pkt.getSize p). rewrite (proj2 (addr_ok r p Hp)). cbn [rp].
    wp_step. eapply wp_mono; [by apply count_wp|]. intros [] s3 H3. wp_step. by apply Hend.
  - destruct (isInvalidate (Pkt.cmd p) || isClean (Pkt.cmd p)) eqn:Ei.
    { wp_step. apply wp_assert; [by rewrite (clean_only _ Er (lg_request _ _ Hp) Ei)|]. wp_step. by apply Hend. }
    pose proof (lg_cmd _ _ Hp) as Hc. rewrite Er in Hc. rewrite <- orb_assoc, Ei, orb_false_r in Hc. cbn [orb] in Hc. rewrite Hc.
    wp_step. eapply wp_mono; [by apply writeOK_wp|]. intros [ok p'] s' ([= -> ->] & Ep & H').
    set (ok := if isLLSC (Pkt.cmd p) then bool_decide (resv a !! ctx p = Some (granule p)) else true) in *.
    set (p' := if isLLSC (Pkt.cmd p) then p <| Pkt.req ::= _ |> else p) in *. cbn [fst snd] in Hend.
    assert (legal r p') as Hp' by (unfold p'; destruct (isLLSC (Pkt.cmd p)); [by apply legal_extra|done]).
    assert (Pkt.cmd p' = Pkt.cmd p /\ Pkt.addr p' = Pkt.addr p /\ Request.isInstFetch (Pkt.req p') = Request.isInstFetch (Pkt.req p) /\
      (forall b, write_pkt p' b = write_pkt p b)) as (E1 & E2 & E3 & E4) by (unfold p'; by destruct (isLLSC (Pkt.cmd p))).
    clearbody p'. destruct ok; [|wp_step; by apply Hend].
    wp_step. rewrite <- E2. eapply wp_mono; [apply (mem_store_wp p' s' _ H' Hp'); by rewrite E1|]. intros [] s2 H2. wp_step.
    apply wp_assert; [by rewrite E3, (lg_fetch _ _ Hp Hc)|]. wp_step. apply wp_lift. rewrite (proj2 (addr_ok r p' Hp')). cbn [rp]. wp_step.
    eapply wp_mono; [by apply count_wp|]. intros [] s3 H3. wp_step. apply Hend. unfold store_spec.
    destruct a as [b m].
    change (implements r s3 (mkSpec (write_pkt p' b) (release (granule p) m))) in H3. by rewrite E4 in H3.
Qed.
(** A functional access: a read leaves the memory, a write ends no reservation. *)
Lemma mem_functional_wp p s a : implements r s a -> legal r p -> needsResponse (Pkt.cmd p) = true -> isRead (Pkt.cmd p) || isWrite (Pkt.cmd p) = true ->
  wp (functionalAccess p) s (fun q s' => Pkt.cmd q = responseCommand (Pkt.cmd p) /\
    if isRead (Pkt.cmd p) then s' = s /\ Pkt.data q = rd (bytes a) (Pkt.addr p) (Pkt.size p)
    else implements r s' (a <| bytes ::= write_pkt p |>)).
Proof.
  intros H Hp Hn Hrw. unfold functionalAccess. wp_step. eapply wp_mono; [apply (toHostAddr_wp r p s Hp); apply H|]. intros off s0 [-> ->].
  destruct (isRead (Pkt.cmd p)) eqn:Er; cbn [orb] in Hrw.
  - destruct (im_bytes _ _ _ H) as (m & Em & Hm). wp_step.
    eapply wp_mono; [apply (read_wp r p m (bytes a) s Hp Hm Em); [|by rewrite Er]|].
    + unfold Pkt.isMaskedWrite. rewrite bool_decide_false; [done|]. intros E. by rewrite E in Er.
    + intros p' s' [-> ->]. apply wp_lift. unfold Pkt.makeResponse. cbn [Pkt.cmd over]. by rewrite Hn, (lg_request _ _ Hp).
  - rewrite Hrw. wp_step. eapply wp_mono; [by apply mem_store_wp|]. intros [] s' H'. apply wp_lift. unfold Pkt.makeResponse.
    by rewrite Hn, (lg_request _ _ Hp).
Qed.
End Access.

(** ** Properties *)

(** The packets of a run in order, with their answers. *)
Fixpoint run (l : list Pkt.t) : comp t (list Pkt.t) :=
  match l with [] => mret [] | p :: l' => q ← access p; l'' ← run l'; mret (q :: l'') end.
Fixpoint run_spec (l : list Pkt.t) (a : spec) : list Pkt.t * spec :=
  match l with [] => ([], a) | p :: l' => let '(q, a1) := access_spec p a in let '(l'', a2) := run_spec l' a1 in (q :: l'', a2) end.
Lemma mem_run_wp r l : forall s a, implements r s a -> Forall (fun p => ignored p = true \/ legal r p) l ->
  wp (run l) s (fun qs s' => qs = (run_spec l a).1 /\ implements r s' (run_spec l a).2).
Proof.
  induction l as [|p l IH]; intros s a H Hl; cbn [run run_spec]; [by wp_step|]. apply Forall_cons_1 in Hl as [Hp Hl].
  wp_step. eapply wp_mono; [by apply mem_access_wp|]. intros q s' [-> H']. destruct (access_spec p a) as [q a1]. cbn [fst snd] in H' |- *.
  wp_step. eapply wp_mono; [by apply IH|]. intros qs s2 [-> H2]. destruct (run_spec l a1) as [qs a2]. wp_step. done.
Qed.

(** C9. The simulated memory refines a map from addresses to bytes and a map from contexts to
    the granule reserved: any sequence of legal packets (reads, writes with a byte mask,
    swaps, load-locked and store-conditional, cache maintenance) returns without a fault,
    each answer is what the two maps say (the bytes last written, the success of a
    store-conditional exactly if the context still holds its granule), and the memory left
    represents the maps left. *)
Theorem memory_refines r s a l : implements r s a -> Forall (fun p => ignored p = true \/ legal r p) l ->
  exists qs s', run l s = Ok (qs, s') /\ qs = (run_spec l a).1 /\ implements r s' (run_spec l a).2.
Proof. intros H Hl. by apply wp_inv, mem_run_wp. Qed.

(** A memory of 64 bytes at 4096, of zeroes; context 7 reserves, writes and fails to write
    again. *)
Definition mem64 : AddrRange.t := AddrRange.mkRange 4096 4160 [] 0.
Definition zero64 : t := mkMem mem64 (Some (calloc 64 0)) [] [] zero_stats.
Definition request (c a : Z) : Request.t := Request.mkRequest (Some a) (Some 4) 0 1 (Some c) None [] (fun l => l) 0.
Definition packet (cmd : Command) (c a : Z) (d : list Z) : Pkt.t :=
  Pkt.mkPkt cmd (Z.lor (Z.lor Pkt.VALID_ADDR Pkt.VALID_SIZE) Pkt.DYNAMIC_DATA) (request c a) d a false (zlen d) [] 0 0 0.
Lemma zero64_implements : implements mem64 zero64 (mkSpec (fun _ => 0) ∅).
Proof.
  split; [done| |].
  - exists (calloc 64 0). split; [done|]. split; [done|]. intros x Hx. apply zlookup_calloc_eq. cbn in Hx |- *. lia.
  - split; [constructor..|]. intros c g. cbn [resv]. rewrite lookup_empty. split; [done|]. by intros ?%elem_of_nil.
Qed.
Lemma packet_legal cmd c a d : 4096 <= a -> a + zlen d <= 4160 -> d <> [] -> c <> InvalidContextID -> isRequest cmd = true -> fromCache cmd = false ->
  isRead cmd || isWrite cmd = true -> legal mem64 (packet cmd c a d).
Proof.
  intros Ha Hd Hn Hc Hr Hf Hrw. assert (0 < zlen d) as Hz by (destruct d; [done|unfold zlen; cbn; lia]). split; try done.
  - cbn. lia.
  - unfold AddrRange.isSubset. cbn [AddrRange.interleaved AddrRange.masks AddrRange.start AddrRange.end_ mem64]. cbn -[Z.leb zlen]. by rewrite (proj2 (Z.leb_le _ _) Ha), (proj2 (Z.leb_le _ _) Hd).
  - cbn [Pkt.cmd packet]. by rewrite <- orb_assoc, Hrw.
  - unfold Pkt.isMaskedWrite. cbn. by rewrite andb_false_r.
  - intros _. by exists c.
Qed.
Definition story : list Pkt.t :=
  [packet LoadLockedReq 7 4100 [9; 9; 9; 9]; packet StoreCondReq 7 4100 [1; 2; 3; 4]; packet StoreCondReq 7 4100 [5; 6; 7; 8];
   packet ReadReq 3 4098 [0; 0; 0; 0]].
Lemma memory_refines_witness : exists qs s', run story zero64 = Ok (qs, s') /\
  (fun p => (Pkt.cmd p, Request.extraData (Pkt.req p), Pkt.data p)) <$> qs =
    [(ReadResp, None, [0; 0; 0; 0]); (StoreCondResp, Some 1, [1; 2; 3; 4]); (StoreCondResp, Some 0, [5; 6; 7; 8]);
     (ReadResp, None, [0; 0; 1; 2])].
Proof.
  destruct (memory_refines mem64 zero64 (mkSpec (fun _ => 0) ∅) story zero64_implements) as (qs & s' & E & -> & _).
  { repeat (constructor; [right; by apply packet_legal|]). constructor. }
  eexists _, s'. split; [exact E|]. vm_compute. reflexivity.
Defined.

(** A store ends the reservations of the granule of its first byte only, and a swap ends
    none: after either, a store-conditional of a context that had reserved another granule
    (or, after a swap, any) succeeds, even if the store or the swap has overwritten the
    bytes reserved. *)
Theorem reservation_survives r s a p q : implements r s a -> legal r p -> legal r q -> ignored p = false -> ignored q = false ->
  Pkt.cmd q = StoreCondReq -> resv a !! ctx q = Some (granule q) ->
  Pkt.cmd p = SwapReq \/ Pkt.cmd p = WriteReq /\ granule p <> granule q ->
  exists p' q' s', run [p; q] s = Ok ([p'; q'], s') /\ Request.extraData (Pkt.req q') = Some 1.
Proof.
  intros H Hp Hq Ip Iq Hc Hr Hcase. destruct (wp_inv _ _ _ (mem_run_wp r [p; q] s a H ltac:(constructor; [by right|constructor; [by right|constructor]]))) as (qs & s' & E & -> & _).
  cbn [run_spec] in E. destruct (access_spec p a) as [p' a1] eqn:Ep. destruct (access_spec q a1) as [q' a2] eqn:Eq. exists p', q', s'. split; [exact E|].
  assert (resv a1 !! ctx q = Some (granule q)) as Hr1.
  { unfold access_spec, serve_pkt in Ep. rewrite Ip in Ep. destruct Hcase as [Hs|[Hs Hg]]; rewrite Hs in Ep; injection Ep as _ <-; [exact Hr|].
    cbn [store_spec resv over]. unfold release. apply map_lookup_filter_Some. split; [exact Hr|]. cbn. congruence. }
  unfold access_spec, serve_pkt in Eq. rewrite Iq, Hc in Eq. change (isLLSC StoreCondReq) with true in Eq. cbv iota in Eq.
  rewrite (bool_decide_true (_ = Some _) Hr1) in Eq. injection Eq as <- _. unfold respond. by destruct (needsResponse _).
Qed.
Lemma reservation_survives_witness : exists p0' p' q' s',
  run [packet LoadLockedReq 7 4112 [0; 0; 0; 0]; packet WriteReq 3 4096 (calloc 32 5); packet StoreCondReq 7 4112 [1; 2; 3; 4]] zero64 =
    Ok ([p0'; p'; q'], s') /\ Request.extraData (Pkt.req q') = Some 1.
Proof.
  set (p0 := packet LoadLockedReq 7 4112 [0; 0; 0; 0]). set (p := packet WriteReq 3 4096 (calloc 32 5)). set (q := packet StoreCondReq 7 4112 [1; 2; 3; 4]).
  destruct (wp_inv _ _ _ (mem_access_wp mem64 p0 zero64 (mkSpec (fun _ => 0) ∅) zero64_implements ltac:(right; by apply packet_legal))) as (p0' & s1 & E0 & _ & H1).
  destruct (reservation_survives mem64 s1 _ p q H1) as (p' & q' & s2 & E & Hx);
    [by apply packet_legal|by apply packet_legal|done|done|done|vm_compute; done|right; split; [done|vm_compute; done]|].
  exists p0', p', q', s2. split; [|exact Hx].
  change (run [p0; p; q]) with (q0 ← access p0; l ← run [p; q]; mret (q0 :: l)).
  unfold mbind at 1, comp_bind at 1. rewrite E0. unfold mbind at 1, comp_bind at 1. by rewrite E.
Defined.
End MemSpec.
