(* ===== verification/SimpleMemory.v ===== *)
(** The simple memory controller ([mem/simple_mem.{hh,cc}]): the memory is accessed when a
    request is accepted, one at a time at the rate of the bandwidth, and the response waits
    for the latency. *)
From S2P Require Import Prelude Float64 Flags Packet MemCmd Request PacketData PacketQueue AbstractMem.
From Stdlib Require Import Floats.SpecFloat.
Open Scope Z_scope.

Module SimpleMemory.

(** The bandwidth is in ticks per byte. *)
Record Config := mkConfig { latency : Z; latency_var : Z; bandwidth : spec_float }.
Definition deferred : Type := Z * Pkt.t.
(** [draws] counts the numbers taken from the generator; the last members record the requests
    accepted, the responses queued and sent with their ticks, and the calls of
    [sendRetryReq] and [signalDrainDone]. *)
Record t := mkMemory {
  mem : AbstractMemory.t; packetQueue : list deferred; isBusy : bool; retryReq : bool; retryResp : bool;
  releaseEvent : event; dequeueEvent : event; draining : bool; draws : nat;
  taken : list (Z * Pkt.t); queued : list deferred; sent : list (Z * deferred); retries : Z; drained : Z }.
#[global] Instance eta_t : Settable t := fun r =>
  mkMemory (mem r) (packetQueue r) (isBusy r) (retryReq r) (retryResp r) (releaseEvent r) (dequeueEvent r) (draining r) (draws r)
    (taken r) (queued r) (sent r) (retries r) (drained r).
Definition create (m : AbstractMemory.t) : t := mkMemory m [] false false false None None false 0 [] [] [] 0 0.

(** What the requestor does with a response: whether it accepts it, and the requests it sends
    before it returns. *)
Record answer := mkAnswer { accepted : bool; nested : list Pkt.t }.

Section Code.
Context (c : Config).
(** [random_mt.random(lo, hi)], per call. *)
Context (random : Z -> Z -> nat -> Z).
Definition getLatency : comp t Z :=
  if latency_var c =? 0 then mret (latency c)
  else s ← get; modify (fun s => s <| draws ::= S |>);; mret (tadd (latency c) (random 0 (latency_var c) (draws s))).
(** Ticks to transfer a packet. *)
Definition duration (p : Pkt.t) : Z := u64 (sf_trunc (f64_mul (f64_of (Pkt.size p)) (bandwidth c))).

Definition recvAtomic (p : Pkt.t) : comp t (Pkt.t * Z) :=
  if Pkt.cacheResponding p then lift (Fault Panic)
  else p ← zoom mem (fun m s => s <| mem := m |>) (AbstractMemory.access p); n ← getLatency; mret (p, n).
Definition recvFunctional (p : Pkt.t) : comp t Pkt.t :=
  p ← zoom mem (fun m s => s <| mem := m |>) (AbstractMemory.functionalAccess p);
  s ← get;
  '(_, p, l) ← lift (PacketQueue.try_list p (packetQueue s));
  modify (fun s => s <| packetQueue := l |>);; mret p.

(** The scan from the end, on the list reversed: it stops at the first packet of the queue. *)
Fixpoint place (when : Z) (p : Pkt.t) (l : list deferred) : result (list deferred) :=
  match l with
  | [] => Ok [(when, p)]
  | [x] => Ok [(when, p); x]
  | x :: l' =>
      if when <? x.1 then
        m ← Pkt.matchAddr x.2 p;
        if m : bool then Ok ((when, p) :: l) else l'' ← place when p l'; Ok (x :: l'')
      else Ok ((when, p) :: l)
  end.
Definition back (l : list deferred) : result Z := match rev l with [] => Fault OutOfBounds | x :: _ => Ok x.1 end.

Section Now.
(** The current tick. *)
Context (now : Z).
Definition enqueue (p : Pkt.t) (when_to_send : Z) : comp t unit :=
  s ← get;
  l ← lift (place when_to_send p (rev (packetQueue s)));
  modify (fun s => s <| packetQueue := rev l |> <| queued ::= fun q => q ++ [(when_to_send, p)] |>);;
  s ← get;
  when_ (negb (retryResp s) && negb (scheduled (dequeueEvent s)))
    (w ← lift (back (packetQueue s)); e ← lift (schedule now (dequeueEvent s) w); modify (fun s => s <| dequeueEvent := e |>)).
Definition recvTimingReq (p : Pkt.t) : comp t bool :=
  if Pkt.cacheResponding p then lift (Fault Panic)
  else if negb (MemCmd.isRead (Pkt.cmd p) || MemCmd.isWrite (Pkt.cmd p)) then lift (Fault Panic)
  else
    s ← get;
    if retryReq s then mret false
    else if isBusy s then modify (fun s => s <| retryReq := true |>);; mret false
    else
      let arrival := p in
      let '(receive_delay, p) := Pkt.receive p in
      _ ← lift (Pkt.getSize p);
      when_ (negb (duration p =? 0))
        (e ← lift (schedule now (releaseEvent s) (tadd now (duration p)));
         modify (fun s => s <| releaseEvent := e |> <| isBusy := true |>));;
      let needsResponse := MemCmd.needsResponse (Pkt.cmd p) in
      '(p, _) ← recvAtomic p;
      modify (fun s => s <| taken ::= fun l => l ++ [(now, arrival)] |>);;
      when_ needsResponse
        (assert_ (MemCmd.isResponse (Pkt.cmd p));;
         n ← getLatency;
         enqueue p (tadd (tadd now receive_delay) n));;
      mret true.
Fixpoint offer (l : list Pkt.t) : comp t unit :=
  match l with [] => mret tt | p :: l' => recvTimingReq p;; offer l' end.

(** The argument is what the requestor sends when it is told to retry. *)
Definition release (again : list Pkt.t) : comp t unit :=
  s ← get;
  assert_ (isBusy s);;
  modify (fun s => s <| isBusy := false |>);;
  when_ (retryReq s) (modify (fun s => s <| retryReq := false |> <| retries ::= fun n => n + 1 |>);; offer again).
Definition dequeue (a : answer) : comp t unit :=
  s ← get;
  match packetQueue s with
  | [] => lift (Fault AssertFail)
  | deferred_pkt :: _ =>
      offer (nested a);;
      modify (fun s => s <| retryResp := negb (accepted a) |>);;
      when_ (accepted a)
        (modify (fun s => s <| packetQueue ::= tail |> <| sent ::= fun l => l ++ [(now, deferred_pkt)] |>);;
         s ← get;
         match packetQueue s with
         | front :: _ => e ← lift (reschedule_always now (Z.max front.1 now)); modify (fun s => s <| dequeueEvent := e |>)
         | [] => when_ (draining s) (modify (fun s => s <| draining := false |> <| drained ::= fun n => n + 1 |>))
         end)
  end.
Definition recvRespRetry (a : answer) : comp t unit := s ← get; assert_ (retryResp s);; dequeue a.
(** The events are served at their ticks. *)
Definition process_release (again : list Pkt.t) : comp t unit := modify (fun s => s <| releaseEvent := None |>);; release again.
Definition process_dequeue (a : answer) : comp t unit := modify (fun s => s <| dequeueEvent := None |>);; dequeue a.
(** [true]: drained already. *)
Definition drain : comp t bool :=
  s ← get;
  if bool_decide (packetQueue s = []) then mret true
  else modify (fun s => s <| draining := true |>);; mret false.
End Now.
End Code.
End SimpleMemory.
