(* ===== verification/SimpleMemorySpec.v ===== *)
(** What the simple memory promises: it accepts one request at a time at the rate of its
    bandwidth, its answers are those of a map from addresses to bytes for the requests in
    order of acceptance, each is sent once and not before its latency, and in order per
    address. *)
From S2P Require Import Prelude Float64 Flags Packet MemCmd Request PacketData AddrRange PacketQueue PacketQueueSpec AbstractMem AbstractMemSpec SimpleMemory.
From stdpp Require Import list sorting.
Open Scope Z_scope.
Import SimpleMemory.

Module SimpleSpec.
Import QueuePromise(addressed, ordered, before, jumped, same).

(** ** Packets *)

Definition strip (p : Pkt.t) : Pkt.t := (Pkt.receive p).2.
Lemma strip_legal r p : MemSpec.legal r p -> MemSpec.legal r (strip p).
Proof. intros []. by split. Qed.
(** The answer of the memory to a request. *)
Lemma answer_ok r p a : MemSpec.legal r p -> Pkt.cacheResponding p = false -> MemCmd.needsResponse (Pkt.cmd p) = true ->
  MemCmd.isResponse (Pkt.cmd (MemSpec.access_spec p a).1) = true /\ addressed (MemSpec.access_spec p a).1.
Proof.
  intros H Hc Hn. destruct (MemSpec.access_response r p a H Hc Hn) as (E1 & E2 & _). rewrite E1. split; [by apply MemCmd.response_needed|].
  unfold addressed. rewrite E2, Flags.isSet_clear_ne by done. apply H.
Qed.
Lemma run_spec_snoc l p a : let '(qs, a1) := MemSpec.run_spec l a in
  MemSpec.run_spec (l ++ [p]) a = (qs ++ [(MemSpec.access_spec p a1).1], (MemSpec.access_spec p a1).2).
Proof.
  revert a. induction l as [|x l IH]; intros a; cbn [MemSpec.run_spec app].
  - by destruct (MemSpec.access_spec p a).
  - destruct (MemSpec.access_spec x a) as [y a1]. specialize (IH a1). destruct (MemSpec.run_spec l a1) as [qs a2]. by rewrite IH.
Qed.
Lemma run_spec_length l : forall a, length (MemSpec.run_spec l a).1 = length l.
Proof.
  induction l as [|x l IH]; intros a; cbn [MemSpec.run_spec]; [done|]. destruct (MemSpec.access_spec x a) as [y a1]. specialize (IH a1).
  destruct (MemSpec.run_spec l a1). cbn in *. by rewrite IH.
Qed.

(** ** Insertion *)

Lemma place_spec when p l : addressed p -> Forall (fun x => addressed x.2) l ->
  exists l1 l2, l = l1 ++ l2 /\ place when p l = Ok (l1 ++ (when, p) :: l2) /\ Forall (before true when p) l1 /\ (l <> [] -> l2 <> []).
Proof.
  intros Hp. induction l as [|x l IH]; intros Hl; cbn [place]; [by exists [], []|].
  apply Forall_cons_1 in Hl as [Hx Hl]. destruct l as [|y l]; [by exists [], [x]|].
  assert (exists b, Pkt.matchAddr x.2 p = Ok b /\ b = same x.2 p) as (b & -> & ->) by (eexists; split; [by apply QueuePromise.matchAddr_same|done]).
  destruct (Z.ltb_spec when x.1); [|by exists [], (x :: y :: l)]. cbn [mbind result_bind]. destruct (same x.2 p) eqn:Es; [by exists [], (x :: y :: l)|].
  destruct (IH Hl) as (l1 & l2 & E & -> & Hf & Hne). exists (x :: l1), l2. cbn [mbind result_bind app]. rewrite E. split; [done|]. split; [done|].
  split; [constructor; [by split|done]|]. intros _. by apply Hne.
Qed.
Lemma place_rev when p l : addressed p -> Forall (fun x => addressed x.2) l ->
  exists l', place when p (rev l) = Ok (rev l') /\ jumped true when p l l' /\ (forall x k, l = x :: k -> exists k', l' = x :: k') /\ l' <> [] /\
    (l = [] -> l' = [(when, p)]) /\ Forall (fun x => addressed x.2) l' /\
    exists w, back l' = Ok w /\ when <= w.
Proof.
  intros Hp Hl. destruct (place_spec when p (rev l) Hp) as (l1 & l2 & E & -> & Hf & Hne); [by apply Forall_rev|].
  apply (f_equal (@rev _)) in E. rewrite rev_involutive, rev_app_distr in E.
  exists (rev l2 ++ (when, p) :: rev l1). split; [|split; [|split; [|split; [|split; [|split]]]]].
  - rewrite rev_app_distr. cbn [rev]. by rewrite !rev_involutive, <- app_assoc.
  - exists (rev l2), (rev l1). split; [done|]. split; [done|]. by apply Forall_rev.
  - intros x k ->. destruct l2 as [|z l2 _] using rev_ind; [exfalso; apply Hne; [|done]; cbn; by destruct (rev k)|].
    rewrite rev_app_distr in E |- *. cbn [rev app] in E |- *. injection E as <- _. eauto.
  - by destruct (rev l2).
  - intros ->. by destruct (rev l2), (rev l1).
  - rewrite E in Hl. apply Forall_app in Hl as [H1 H2]. apply Forall_app. split; [done|]. by constructor.
  - unfold back. rewrite rev_app_distr. cbn [rev]. rewrite rev_involutive, <- app_assoc. destruct l1 as [|z l1]; [by exists when|].
    apply Forall_cons_1 in Hf as [[Hz _] _]. exists z.1. split; [done|lia].
Qed.

(** ** The invariant *)

Section Invariant.
Context (c : Config) (random : Z -> Z -> nat -> Z).
(** The range of the memory, and what it held at first. *)
Context (r : AddrRange.t) (a0 : MemSpec.spec).
Implicit Types (now : Z) (s : t).

Definition needs (x : Z * Pkt.t * Pkt.t) : Prop := MemCmd.needsResponse (Pkt.cmd x.1.2) = true.
#[local] Instance needs_dec x : Decision (needs x) := decide (MemCmd.needsResponse (Pkt.cmd x.1.2) = true).
(** The history by the specification: the answers to the requests taken, and what the memory
    holds. *)
Definition history s : list Pkt.t * MemSpec.spec := MemSpec.run_spec ((fun x => strip x.2) <$> taken s) a0.
Definition exchanges s : list (Z * Pkt.t * Pkt.t) := filter needs (zip (taken s) (history s).1).
(** The answer to a request, in the queue for a tick within the latency. *)
Definition reply (x : Z * Pkt.t * Pkt.t) (d : deferred) : Prop :=
  d.2 = x.2 /\ x.1.1 + (Pkt.receive x.1.2).1 + latency c <= d.1 <= x.1.1 + (Pkt.receive x.1.2).1 + latency c + latency_var c.
Definition gap (x y : Z * Pkt.t) : Prop := x.1 + duration c x.2 <= y.1.
Definition free now s : Z := match releaseEvent s with Some w => w | None => now end.

Record core now s : Prop := {
  co_mem : MemSpec.implements r (mem s) (history s).2;
  co_replies : Forall2 reply (exchanges s) (queued s);
  co_order : ordered true (queued s) ((snd <$> sent s) ++ packetQueue s);
  co_addr : Forall (fun x => addressed x.2) (packetQueue s);
  co_early : Forall (fun x => x.2.1 <= x.1) (sent s);
  co_busy : isBusy s = scheduled (releaseEvent s);
  co_release : forall w, releaseEvent s = Some w -> now <= w;
  co_retry : retryReq s = true -> isBusy s = true;
  co_spaced : StronglySorted gap (taken s);
  co_free : Forall (fun x => x.1 + duration c x.2 <= free now s) (taken s);
  co_dequeue : forall w, dequeueEvent s = Some w -> now <= w }.
(** The event is scheduled for the first response, or the requestor owes a retry. *)
Definition timely now s : Prop :=
  match packetQueue s with
  | [] => dequeueEvent s = None /\ retryResp s = false
  | x :: _ => (retryResp s = false /\ exists w, dequeueEvent s = Some w /\ x.1 <= w) \/ (retryResp s = true /\ dequeueEvent s = None /\ x.1 <= now)
  end.
Record config_ok : Prop := {
  ok_latency : 0 <= latency c; ok_var : 0 <= latency_var c;
  ok_random : forall i, 0 <= random 0 (latency_var c) i <= latency_var c }.
Definition horizon now : Prop := 0 <= now /\ now + 2 ^ 32 + latency c + latency_var c < 2 ^ 64.
(** A request the memory is meant for. *)
Record fine now (p : Pkt.t) : Prop := {
  fi_legal : MemSpec.legal r p; fi_rw : MemCmd.isRead (Pkt.cmd p) || MemCmd.isWrite (Pkt.cmd p) = true;
  fi_cache : Pkt.cacheResponding p = false; fi_time : now + duration c p < 2 ^ 64 }.
Context (Hc : config_ok).

(** ** Taking a request *)

Lemma getLatency_wp s : latency c + latency_var c < 2 ^ 64 ->
  wp (getLatency c random) s (fun n s' => exists k, s' = s <| draws := k |> /\ latency c <= n <= latency c + latency_var c).
Proof.
  intros Hb. pose proof (ok_latency Hc). pose proof (ok_var Hc). unfold getLatency. destruct (Z.eqb_spec (latency_var c) 0).
  - wp_step. exists (draws s). split; [by destruct s|lia].
  - wp_step. wp_step. wp_step. wp_step. wp_step. pose proof (ok_random Hc (draws s)). eexists. split; [done|]. rewrite tadd_small by lia. lia.
Qed.
Lemma duration_nonneg p : 0 <= duration c p.
Proof. apply u64_range. Qed.

(** The bookkeeping of a request: the memory's part, and its response if it has one. *)
Definition release_at now p : event := if duration c p =? 0 then None else Some (now + duration c p).
Definition take_state now p m k s : t :=
  s <| releaseEvent := release_at now p |> <| isBusy := negb (duration c p =? 0) |> <| mem := m |> <| draws := k |> <| taken ::= fun l => l ++ [(now, p)] |>.
Lemma free_le now s : core now s -> now <= free now s.
Proof. intros H. unfold free. destruct (releaseEvent s) as [w|] eqn:E; [by apply H|lia]. Qed.
Lemma history_take now p m k s : history (take_state now p m k s) =
  ((history s).1 ++ [(MemSpec.access_spec (strip p) (history s).2).1], (MemSpec.access_spec (strip p) (history s).2).2).
Proof.
  unfold history, take_state. cbn [taken over]. rewrite fmap_app. cbn [fmap list_fmap snd].
  pose proof (run_spec_snoc ((fun x => strip x.2) <$> taken s) (strip p) a0) as E. destruct (MemSpec.run_spec ((fun x => strip x.2) <$> taken s) a0) as [qs a1].
  exact E.
Qed.
Lemma exchanges_take now p m k s : exchanges (take_state now p m k s) =
  exchanges s ++ (if MemCmd.needsResponse (Pkt.cmd p) then [(now, p, (MemSpec.access_spec (strip p) (history s).2).1)] else []).
Proof.
  unfold exchanges. rewrite history_take. unfold take_state. cbn [taken over fst]. rewrite zip_with_app; cycle 1.
  { unfold history. by rewrite run_spec_length, length_fmap. }
  rewrite filter_app. f_equal. cbn [zip_with]. unfold filter, list_filter. cbn. unfold needs at 1. cbn.
  destruct (decide _) as [H|H]; [by rewrite H|]. by destruct (MemCmd.needsResponse (Pkt.cmd p)).
Qed.
Lemma core_take now p m k s ds l e : core now s -> horizon now -> fine now p -> isBusy s = false ->
  MemSpec.implements r m (MemSpec.access_spec (strip p) (history s).2).2 ->
  Forall2 reply (if MemCmd.needsResponse (Pkt.cmd p) then [(now, p, (MemSpec.access_spec (strip p) (history s).2).1)] else []) ds ->
  ordered true (queued s ++ ds) ((snd <$> sent s) ++ l) -> Forall (fun x => addressed x.2) l -> (forall w, e = Some w -> now <= w) ->
  core now ((take_state now p m k s) <| packetQueue := l |> <| queued ::= fun q => q ++ ds |> <| dequeueEvent := e |>).
Proof.
  intros H [Hn Hh] Hp Hb Hm Hds Ho Hl He. pose proof (duration_nonneg p). pose proof (fi_time _ _ Hp) as Ht.
  assert (releaseEvent s = None) as Er by (pose proof (co_busy _ _ H) as E; rewrite Hb in E; by destruct (releaseEvent s)).
  pose proof (co_free _ _ H) as Hf. unfold free in Hf. rewrite Er in Hf.
  assert (now + duration c p = free now ((take_state now p m k s) <| packetQueue := l |> <| queued ::= fun q => q ++ ds |> <| dequeueEvent := e |>)) as Ef.
  { unfold free, take_state, release_at. cbn [releaseEvent over]. destruct (Z.eqb_spec (duration c p) 0); lia. }
  split.
  - change (MemSpec.implements r m (history (take_state now p m k s)).2). by rewrite history_take.
  - change (Forall2 reply (exchanges (take_state now p m k s)) (queued s ++ ds)). rewrite exchanges_take. apply Forall2_app; [apply H|done].
  - exact Ho.
  - exact Hl.
  - apply H.
  - cbn [take_state isBusy releaseEvent over]. unfold release_at. by destruct (duration c p =? 0).
  - cbn [take_state releaseEvent over]. unfold release_at. destruct (duration c p =? 0); [done|]. intros w [= <-]. lia.
  - change (retryReq s = true -> negb (duration c p =? 0) = true). intros Er'. apply (co_retry _ _ H) in Er'. by rewrite Hb in Er'.
  - change (StronglySorted gap (taken s ++ [(now, p)])). apply StronglySorted_app. split; [|split; [apply H|by repeat constructor]].
    intros x y Hx ->%list_elem_of_singleton. rewrite Forall_forall in Hf. apply (Hf x Hx).
  - change (Forall (fun x => x.1 + duration c x.2 <= free now ((take_state now p m k s) <| packetQueue := l |> <| queued ::= fun q => q ++ ds |> <| dequeueEvent := e |>)) (taken s ++ [(now, p)])).
    rewrite <- Ef. apply Forall_app. split; [eapply Forall_impl; [exact Hf|cbn; lia]|]. constructor; [cbn; lia|constructor].
  - exact He.
Qed.

Definition head_kept s s' : Prop := forall x l, packetQueue s = x :: l -> exists l', packetQueue s' = x :: l'.
Lemma head_kept_trans s1 s2 s3 : head_kept s1 s2 -> head_kept s2 s3 -> head_kept s1 s3.
Proof. intros H1 H2 x l E. destruct (H1 x l E) as [l' E']. by apply (H2 x l'). Qed.
Record kept s s' : Prop := {
  kt_sent : sent s' = sent s; kt_resp : retryResp s' = retryResp s; kt_draining : draining s' = draining s;
  kt_drained : drained s' = drained s; kt_head : head_kept s s';
  kt_length : (length (packetQueue s) <= length (packetQueue s'))%nat;
  kt_event : dequeueEvent s' = dequeueEvent s \/ (length (packetQueue s) < length (packetQueue s'))%nat }.
Lemma kept_trans_simple s1 s2 s3 : kept s1 s2 -> kept s2 s3 -> kept s1 s3.
Proof.
  intros [] []. split; try congruence; [by eapply head_kept_trans|lia|]. destruct kt_event0, kt_event1; [left; congruence|right; lia..].
Qed.
Lemma kept_same s s' : sent s' = sent s -> retryResp s' = retryResp s -> draining s' = draining s -> drained s' = drained s ->
  packetQueue s' = packetQueue s -> dequeueEvent s' = dequeueEvent s -> kept s s'.
Proof. intros ? ? ? ? Eq ?. split; try done; [intros x l E; exists l; congruence|by rewrite Eq|by left]. Qed.

Lemma getSize_ok p : MemSpec.legal r p -> Pkt.getSize p = Ok (Pkt.size p).
Proof. intros H. unfold Pkt.getSize. by rewrite (proj2 (MemSpec.lg_flags _ _ H)). Qed.
Lemma simple_access_wp p s : MemSpec.implements r (mem s) (history s).2 -> MemSpec.legal r p -> Pkt.cacheResponding p = false ->
  latency c + latency_var c < 2 ^ 64 ->
  wp (recvAtomic c random p) s (fun x s' => exists m k, s' = s <| mem := m |> <| draws := k |> /\
    x.1 = (MemSpec.access_spec p (history s).2).1 /\ MemSpec.implements r m (MemSpec.access_spec p (history s).2).2).
Proof.
  intros Hi Hl Hcr Hb. unfold recvAtomic. rewrite Hcr. wp_step. wp_step.
  eapply wp_mono; [by apply (MemSpec.mem_access_wp r p (mem s) (history s).2 Hi); right|]. intros q m [-> Hm].
  wp_step. eapply wp_mono; [by apply getLatency_wp|]. intros n s' (k & -> & _). wp_step. exists m, k. done.
Qed.

Lemma simple_enqueue_wp now p m k s q n : core now s -> horizon now -> fine now p -> isBusy s = false ->
  let a := MemSpec.access_spec (strip p) (history s).2 in
  MemSpec.implements r m a.2 -> q = a.1 -> MemCmd.needsResponse (Pkt.cmd p) = true -> latency c <= n <= latency c + latency_var c ->
  wp (enqueue now q (now + (Pkt.receive p).1 + n)) (take_state now p m k s) (fun _ s' => core now s' /\ kept s s' /\
    taken s' = taken s ++ [(now, p)] /\ (timely now s -> timely now s')).
Proof.
  intros H Hh Hp Hb a Hm -> Hn Hlat. pose proof (ok_latency Hc). pose proof (ok_var Hc).
  assert (0 <= (Pkt.receive p).1) as Hrd by apply u32_range. set (when := now + (Pkt.receive p).1 + n).
  destruct (answer_ok r (strip p) (history s).2) as [_ Ha]; [by apply strip_legal, Hp|apply Hp|done|]. fold a in Ha.
  destruct (place_rev when a.1 (packetQueue s) Ha (co_addr _ _ H)) as (l & E & Hj & Hhead & Hne & Hone & Hal & w & Ew & Hw).
  set (s1 := (take_state now p m k s) <| packetQueue := l |> <| queued ::= fun q => q ++ [(when, a.1)] |>).
  assert (forall e : event, (forall w, e = Some w -> now <= w) -> core now (s1 <| dequeueEvent := e |>)) as Hcore.
  { intros e He. unfold s1. apply core_take; try done.
    - rewrite Hn. constructor; [|constructor]. unfold reply. cbn [fst snd]. unfold when. split; [done|lia].
    - eapply QueuePromise.ordered_jump; [apply H|done]. }
  assert (Forall (fun x => addressed x.2) l /\ (timely now s -> forall e : event, e = (if negb (retryResp s) && negb (scheduled (dequeueEvent s)) then Some w else dequeueEvent s) ->
    timely now ((take_state now p m k s) <| packetQueue := l |> <| queued ::= fun q => q ++ [(when, a.1)] |> <| dequeueEvent := e |>))) as [_ Htime].
  { split; [done|]. intros Ht e ->. unfold timely, s1 in *. cbn [packetQueue dequeueEvent retryResp take_state over].
    destruct (packetQueue s) as [|x q].
    - destruct Ht as [-> ->]. specialize (Hone eq_refl). subst l. injection Ew as <-. left. split; [done|]. by exists when.
    - destruct (Hhead x q eq_refl) as [l' ->]. destruct Ht as [(-> & v & -> & Hv)|(-> & -> & Hx)]; [left; split; [done|by exists v]|by right]. }
  assert (forall e : event, kept s (s1 <| dequeueEvent := e |>) /\ taken (s1 <| dequeueEvent := e |>) = taken s ++ [(now, p)]) as Hk.
  { intros e. split; [|done]. assert (length l = S (length (packetQueue s))) as Hlen by exact (Permutation_length (QueuePromise.jumped_perm _ _ _ _ _ Hj)).
    split; try done; [cbn [packetQueue s1 over]; lia|right; cbn [packetQueue s1 over]; lia]. }
  unfold enqueue. wp_step. wp_step. wp_step. wp_step. 
  replace (place when a.1 (rev (packetQueue (take_state now p m k s)))) with (Ok (rev l)) by (symmetry; exact E). cbn [rp].
  rewrite rev_involutive. wp_step. wp_step. match goal with |- wp _ ?x _ => change x with s1 end. wp_step. wp_step.
  change (retryResp s1) with (retryResp s). change (dequeueEvent s1) with (dequeueEvent s). change (packetQueue s1) with l.
  apply wp_when; intros Eb; rewrite Eb in Htime.
  - wp_step. rewrite Ew. wp_step. wp_step. wp_step. wp_step. apply andb_true_iff in Eb as [_ Eb]. apply negb_true_iff in Eb.
    assert (now <= w) as Hnw by lia. unfold schedule. rewrite (proj2 (Z.leb_le _ _) Hnw), Eb. cbn [andb negb rp]. wp_step.
    split; [apply Hcore; by intros ? [= <-]|]. split; [apply Hk|]. split; [apply Hk|]. intros Ht. by apply Htime.
  - assert (s1 = s1 <| dequeueEvent := dequeueEvent s |>) as -> by (unfold s1; by destruct s).
    split; [apply Hcore; apply H|]. split; [apply Hk|]. split; [apply Hk|]. intros Ht. by apply Htime.
Qed.
Definition takes s : bool := negb (retryReq s) && negb (isBusy s).
Lemma core_stalled now s : core now s -> isBusy s = true -> core now (s <| retryReq := true |>).
Proof. intros [] Hb. by split. Qed.
Lemma take_state_eq now p m k s : isBusy s = false -> releaseEvent s = None ->
  (if duration c p =? 0 then s else s <| releaseEvent := Some (now + duration c p) |> <| isBusy := true |>) <| mem := m |> <| draws := k |>
    <| taken ::= fun l => l ++ [(now, p)] |> = take_state now p m k s.
Proof.
  intros Hb Hr. unfold take_state, release_at. destruct (duration c p =? 0); [|done]. destruct s. cbn in Hb, Hr. by subst.
Qed.
Lemma same_state s : s <| packetQueue := packetQueue s |> <| queued ::= fun q => q ++ [] |> <| dequeueEvent := dequeueEvent s |> = s.
Proof. destruct s. unfold over. cbn. by rewrite app_nil_r. Qed.
Lemma simple_recvTimingReq_wp now p s : core now s -> horizon now -> fine now p ->
  wp (recvTimingReq c random now p) s (fun b s' => core now s' /\ b = takes s /\ kept s s' /\ (timely now s -> timely now s') /\
    taken s' = taken s ++ (if b then [(now, p)] else [])).
Proof.
  intros H Hh Hp. pose proof (ok_latency Hc) as Hl. pose proof (ok_var Hc) as Hv. unfold recvTimingReq, takes.
  rewrite (fi_cache _ _ Hp), (fi_rw _ _ Hp). cbn [negb]. wp_step. wp_step.
  assert (kept s s /\ kept s (s <| retryReq := true |>)) as [Hk1 Hk2] by (split; by apply kept_same).
  destruct (retryReq s) eqn:Er; [wp_step; by rewrite app_nil_r|]. destruct (isBusy s) eqn:Eb.
  { wp_step. wp_step. wp_step. cbn [taken over]. rewrite app_nil_r. split; [by apply core_stalled|]. done. }
  assert (releaseEvent s = None) as Ee by (pose proof (co_busy _ _ H) as E; rewrite Eb in E; by destruct (releaseEvent s)).
  pose proof (fi_time _ _ Hp) as Ht. pose proof (duration_nonneg p) as Hd. pose proof (proj1 Hh) as Hn.
  change (Pkt.receive p) with ((Pkt.receive p).1, strip p). cbv iota. wp_step. wp_step. rewrite (getSize_ok (strip p)) by (by apply strip_legal, Hp). cbn [rp].
  change (duration c (strip p)) with (duration c p). change (Pkt.cmd (strip p)) with (Pkt.cmd p).
  set (s1 := if duration c p =? 0 then s else s <| releaseEvent := Some (now + duration c p) |> <| isBusy := true |>).
  wp_step. apply (wp_mono _ _ (fun _ s' => s' = s1)).
  { unfold s1. destruct (duration c p =? 0); cbn [negb when_]; [by wp_step|]. wp_step. wp_step. rewrite tadd_small by lia. unfold schedule. rewrite Ee, (proj2 (Z.leb_le now _)) by lia.
    cbn [andb negb scheduled rp]. by wp_step. }
  intros [] _ ->. assert (mem s1 = mem s /\ history s1 = history s) as [Em Ehi] by (unfold s1; by destruct (duration c p =? 0)).
  wp_step. eapply wp_mono; [apply (simple_access_wp (strip p) s1)|].
  { rewrite Em, Ehi. apply H. } { by apply strip_legal, Hp. } { apply Hp. } { unfold horizon in Hh. lia. }
  intros [q n0] s' (m & k & -> & Eq & Hm). cbn [fst] in Eq. rewrite Ehi in Eq, Hm. wp_step. wp_step.
  match goal with |- wp _ ?x _ => replace x with (take_state now p m k s) by (symmetry; by apply take_state_eq) end.
  destruct (MemCmd.needsResponse (Pkt.cmd p)) eqn:En; cbn [when_].
  - destruct (answer_ok r (strip p) (history s).2) as [Hresp _]; [by apply strip_legal, Hp|apply Hp|done|]. rewrite <- Eq in Hresp.
    wp_step. wp_step. apply wp_assert; [done|]. wp_step. eapply wp_mono; [apply getLatency_wp; unfold horizon in Hh; lia|].
    intros n _ (k' & -> & Hn'). pose proof (u32_range (Pkt.headerDelay p + Pkt.payloadDelay p)) as Hrd. change (u32 (Pkt.headerDelay p + Pkt.payloadDelay p)) with (Pkt.receive p).1 in Hrd.
    unfold horizon in Hh. rewrite (tadd_small now) by lia. rewrite tadd_small by lia.
    change ((take_state now p m k s) <| draws := k' |>) with (take_state now p m k' s).
    eapply wp_mono; [by apply simple_enqueue_wp|]. intros [] s' (H' & K & T & Ti). wp_step. done.
  - wp_step. wp_step. split; [|split; [done|split; [by apply kept_same|by split]]].
    pose proof (core_take now p m k s [] (packetQueue s) (dequeueEvent s) H Hh Hp Eb Hm) as Hcore. rewrite En in Hcore.
    assert (take_state now p m k s = (take_state now p m k s) <| packetQueue := packetQueue s |> <| queued ::= fun q => q ++ [] |> <| dequeueEvent := dequeueEvent s |>) as ->
      by (symmetry; apply (same_state (take_state now p m k s))).
    apply Hcore; [constructor|rewrite app_nil_r; apply H|apply H|apply H].
Qed.

Lemma simple_offer_wp now l : forall s, core now s -> horizon now -> Forall (fine now) l ->
  wp (offer c random now l) s (fun _ s' => core now s' /\ kept s s' /\ (timely now s -> timely now s') /\ exists k, taken s' = taken s ++ k).
Proof.
  induction l as [|p l IH]; intros s H Hh Hl; cbn [offer].
  { wp_step. split; [done|]. split; [by apply kept_same|]. split; [done|]. exists []. by rewrite app_nil_r. }
  apply Forall_cons_1 in Hl as [Hp Hl]. wp_step. eapply wp_mono; [by apply simple_recvTimingReq_wp|]. intros b s1 (H1 & _ & K1 & T1 & E1).
  eapply wp_mono; [by apply IH|]. intros [] s2 (H2 & K2 & T2 & k & E2). split; [done|]. split; [by eapply kept_trans_simple|]. split; [auto|].
  eexists. by rewrite E2, E1, <- app_assoc.
Qed.

(** ** The handlers *)

Lemma dequeue_wp now a s x l : core now s -> horizon now -> packetQueue s = x :: l -> dequeueEvent s = None -> x.1 <= now ->
  Forall (fine now) (nested a) -> (accepted a = false -> nested a = []) ->
  wp (dequeue c random now a) s (fun _ s' => core now s' /\ timely now s' /\ sent s' = sent s ++ (if accepted a then [(now, x)] else []) /\
    exists k, taken s' = taken s ++ k).
Proof.
  intros H Hh El Ee Hx Hn Hr. unfold dequeue. wp_step. wp_step. rewrite El. wp_step.
  destruct (accepted a); cbn [negb when_]; cycle 1.
  { rewrite (Hr eq_refl). cbn [offer]. wp_step. wp_step. wp_step. wp_step. split; [by destruct H|]. split; [|rewrite app_nil_r; split; [done|exists []; by rewrite app_nil_r]].
    unfold timely. cbn [packetQueue dequeueEvent retryResp over]. rewrite El. by right. }
  eapply wp_mono; [by apply simple_offer_wp|]. intros [] s1 (H1 & [Ks Kr Kd Kn Kh _ Kev] & _ & k & Et). destruct (Kh x l El) as [l1 El1].
  wp_step. wp_step. wp_step. wp_step. wp_step. wp_step. cbn [packetQueue over]. rewrite El1. cbn [tail].
  assert (forall e d n, (forall w, e = Some w -> now <= w) ->
    core now (s1 <| retryResp := false |> <| packetQueue := l1 |> <| sent ::= fun l => l ++ [(now, x)] |> <| dequeueEvent := e |> <| draining := d |> <| drained := n |>)) as Hcore.
  { intros e d n He. destruct H1. rewrite El1 in *. split; try done.
    - cbn [queued sent packetQueue over]. by rewrite fmap_app, <- app_assoc.
    - cbn [packetQueue over]. by apply Forall_cons_1 in co_addr0 as [_ ?].
    - cbn [sent over]. apply Forall_app. split; [done|]. by repeat constructor. }
  rewrite <- Ks. clear Hr Hn Hh Kh. destruct l1 as [|y l1].
  - assert (dequeueEvent s1 = None) as Ee1.
    { destruct Kev as [->|Hlen]; [done|]. rewrite El, El1 in Hlen. cbn in Hlen. lia. }
    apply wp_when; intros Ed; cbn [draining over] in Ed.
    + wp_step. pose proof (Hcore None false (drained s1 + 1) ltac:(done)) as Hg.
      destruct s1. cbn in El1, Ee1, Et. subst. split; [exact Hg|]. split; [by split|]. split; [done|by exists k].
    + pose proof (Hcore None (draining s1) (drained s1) ltac:(done)) as Hg.
      destruct s1. cbn in El1, Ee1, Et. subst. split; [exact Hg|]. split; [by split|]. split; [done|by exists k].
  - wp_step. wp_step. unfold reschedule_always. rewrite (proj2 (Z.leb_le now _)) by lia. cbn [rp]. wp_step.
    pose proof (Hcore (Some (Z.max y.1 now)) (draining s1) (drained s1) ltac:(intros ? [= <-]; lia)) as Hg.
    split; [|split; [|split; [done|by exists k]]].
    + destruct s1. cbn in El1. subst. exact Hg.
    + unfold timely. cbn [packetQueue dequeueEvent retryResp over]. rewrite El1. left. split; [done|]. eexists. split; [done|lia].
Qed.
Lemma release_wp now again s : core now s -> timely now s -> horizon now -> releaseEvent s = Some now -> Forall (fine now) again ->
  wp (process_release c random now again) s (fun _ s' => core now s' /\ timely now s' /\ exists k, taken s' = taken s ++ k).
Proof.
  intros H Ht Hh Er Ha. pose proof (co_busy _ _ H) as Hb. rewrite Er in Hb. cbn in Hb.
  unfold process_release, release. wp_step. wp_step. wp_step. wp_step. wp_step. apply wp_assert; [exact Hb|]. wp_step. wp_step.
  assert (forall n, core now (s <| releaseEvent := None |> <| isBusy := false |> <| retryReq := false |> <| retries := n |>)) as Hcore.
  { intros n. pose proof (co_free _ _ H) as Hf. unfold free in Hf. rewrite Er in Hf. destruct H. split; try done. }
  apply wp_when; intros Eq; cbn [retryReq over] in Eq.
  - wp_step. wp_step. eapply wp_mono; [apply simple_offer_wp; [apply Hcore|done..]|]. intros [] s' (H' & K & T & k & Ek). split; [done|].
    split; [by apply T|]. by exists k.
  - split; [|split; [exact Ht|exists []; by rewrite app_nil_r]]. pose proof (Hcore (retries s)) as Hg. destruct s. cbn in Eq. subst. exact Hg.
Qed.

(** ** Runs *)

Inductive step := Request (p : Pkt.t) | Release (again : list Pkt.t) | Dequeue (a : answer) | RespRetry (a : answer).
Definition exec now (st : step) : comp t unit :=
  match st with
  | Request p => recvTimingReq c random now p;; mret tt
  | Release again => process_release c random now again
  | Dequeue a => process_dequeue c random now a
  | RespRetry a => recvRespRetry c random now a
  end.
Definition civil now (a : answer) : Prop := Forall (fine now) (nested a) /\ (accepted a = false -> nested a = []).
Definition allowed now (st : step) s : Prop :=
  match st with
  | Request p => fine now p
  | Release again => releaseEvent s = Some now /\ Forall (fine now) again
  | Dequeue a => dequeueEvent s = Some now /\ civil now a
  | RespRetry a => retryResp s = true /\ civil now a
  end.
Definition good now s : Prop := core now s /\ timely now s.
Lemma simple_exec_wp now st s : good now s -> horizon now -> allowed now st s -> wp (exec now st) s (fun _ s' => good now s' /\ exists k, taken s' = taken s ++ k).
Proof.
  intros [H Ht] Hh Ha. destruct st as [p|again|a|a]; cbn [exec allowed] in *.
  - wp_step. eapply wp_mono; [by apply simple_recvTimingReq_wp|]. intros b s' (H' & _ & _ & T & Ek). wp_step. split; [split; auto|eauto].
  - destruct Ha as [Er Ha]. eapply wp_mono; [by apply release_wp|]. intros [] s' (H' & T & Hk). done.
  - destruct Ha as [Ee [Hn Hr]]. pose proof Ht as Ht'. unfold timely in Ht'. destruct (packetQueue s) as [|x l] eqn:El; [by rewrite Ee in Ht'; destruct Ht'|].
    destruct Ht' as [(Erp & w & Ew & Hx)|(_ & Ew & _)]; rewrite Ee in Ew; [injection Ew as <-|done]. unfold process_dequeue. wp_step. wp_step.
    eapply wp_mono; [eapply dequeue_wp; [by destruct H|done|exact El|done|done|done|done]|]. intros [] s' (H' & T & _ & Hk). done.
  - destruct Ha as [Er [Hn Hr]]. unfold timely in Ht. destruct (packetQueue s) as [|x l] eqn:El; [by rewrite Er in Ht; destruct Ht|].
    destruct Ht as [(Erp & _)|(_ & Ew & Hx)]; [by rewrite Er in Erp|]. unfold recvRespRetry. wp_step. wp_step. wp_step. apply wp_assert; [done|].
    eapply wp_mono; [by eapply dequeue_wp|]. intros [] s' (H' & T & _ & Hk). done.
Qed.
Fixpoint run (l : list (Z * step)) : comp t unit :=
  match l with [] => mret tt | (now, st) :: l' => exec now st;; run l' end.
Definition not_late now s : Prop := forall w, releaseEvent s = Some w \/ dequeueEvent s = Some w -> now <= w.
Fixpoint legal_run now (l : list (Z * step)) s : Prop :=
  match l with
  | [] => True
  | (now', st) :: l' =>
      now <= now' /\ horizon now' /\ not_late now' s /\ allowed now' st s /\
      forall s', exec now' st s = Ok (tt, s') -> legal_run now' l' s'
  end.
Fixpoint end_time now (l : list (Z * step)) : Z := match l with [] => now | (now', _) :: l' => end_time now' l' end.
Lemma good_later now now' s : good now s -> now <= now' -> not_late now' s -> good now' s.
Proof.
  intros [H Ht] Hn Hl. split.
  - destruct H. split; try done.
    + intros w Hw. apply Hl. by left.
    + eapply Forall_impl; [exact co_free0|]. intros x Hx. cbn in Hx |- *. unfold free in *. destruct (releaseEvent s); lia.
    + intros w Hw. apply Hl. by right.
  - unfold timely in *. destruct (packetQueue s) as [|x l]; [done|]. destruct Ht as [Ht|(? & ? & ?)]; [by left|right]. split_and!; try done. lia.
Qed.
Lemma simple_run_wp l : forall now s, good now s -> legal_run now l s -> wp (run l) s (fun _ s' => good (end_time now l) s' /\ exists k, taken s' = taken s ++ k).
Proof.
  induction l as [|[now' st] l IH]; intros now s H Hl; cbn [run end_time].
  { wp_step. split; [done|]. exists []. by rewrite app_nil_r. }
  destruct Hl as (Hle & Hh & Hd & Ha & Hl). pose proof (simple_exec_wp now' st s (good_later _ _ _ H Hle Hd) Hh Ha) as Hw.
  destruct (wp_inv _ _ _ Hw) as ([] & s1 & E & H1 & k1 & E1). wp_step. unfold wp at 1. rewrite E.
  eapply wp_mono; [by apply (IH now' s1 H1), Hl|]. intros [] s2 [H2 (k2 & E2)]. split; [done|]. eexists. by rewrite E2, E1, <- app_assoc.
Qed.
Lemma simple_create_good m : MemSpec.implements r m a0 -> good 0 (create m).
Proof. intros Hm. split; [split|]; try done; by constructor. Qed.
End Invariant.

(** ** Properties *)

(** C19. Over any run of the simple memory (requests of its range, the release and dequeue
    events at their ticks, retries, requests sent from within a retry or from within a response
    that is then accepted; a requestor that refuses a response has sent none from within it,
    for otherwise [refusal_after_request]) nothing fails; the answers queued are those of the
    specification of the memory to the requests accepted, in order of acceptance, each for a
    tick its delays and the latency after its request; each is waiting or was sent once, not
    before its tick, and those of an address leave in order; two accepted requests are at least
    the transfer time of the first apart; a requestor is stalled only while a release is
    scheduled, and responses wait only for the dequeue event or for a retry the requestor owes. *)
Theorem simple_memory_serves c random r a0 now s l : config_ok c random -> good c r a0 now s -> legal_run c random r now l s ->
  exists s', run c random l s = Ok (tt, s') /\ good c r a0 (end_time now l) s' /\ exists k, taken s' = taken s ++ k.
Proof. intros Hc H Hl. destruct (wp_inv _ _ _ (simple_run_wp c random r a0 Hc l now s H Hl)) as ([] & s' & E & H'). by exists s'. Qed.

(** Two ticks per byte, thirty of latency: a write, and a read that has to wait for it. *)
Definition demo_config : Config := mkConfig 30 0 (f64_of 2).
Definition demo_random (lo hi : Z) (n : nat) : Z := lo.
Definition demo_write : Pkt.t := MemSpec.packet MemCmd.WriteReq 7 4100 [1; 2; 3; 4].
Definition demo_read : Pkt.t := MemSpec.packet MemCmd.ReadReq 3 4098 [0; 0; 0; 0].
Definition demo_run : list (Z * step) :=
  [(0, Request demo_write); (3, Request demo_read); (8, Release [demo_read]); (16, Release []); (30, Dequeue (mkAnswer false []));
   (35, RespRetry (mkAnswer true [])); (38, Dequeue (mkAnswer true []))].
Lemma demo_fine now p : p = demo_write \/ p = demo_read -> 0 <= now < 100 -> fine demo_config MemSpec.mem64 now p.
Proof.
  intros Hp Hn. assert (duration demo_config p = 8) as Ed by (destruct Hp as [-> | ->]; vm_compute; done).
  destruct Hp as [-> | ->]; (split; [by apply MemSpec.packet_legal|done|done|lia]).
Qed.
Lemma simple_memory_serves_witness : exists s', run demo_config demo_random demo_run (create MemSpec.zero64) = Ok (tt, s') /\
  fst <$> taken s' = [0; 8] /\ (fun x => (x.1, x.2.1, Pkt.data x.2.2)) <$> sent s' = [(35, 30, [1; 2; 3; 4]); (38, 38, [0; 0; 1; 2])] /\ retries s' = 1.
Proof.
  destruct (simple_memory_serves demo_config demo_random MemSpec.mem64 (MemSpec.mkSpec (fun _ => 0) ∅) 0 (create MemSpec.zero64) demo_run) as (s' & E & _ & _).
  - split; [done|done|]. intros i. vm_compute. done.
  - apply simple_create_good, MemSpec.zero64_implements.
  - unfold demo_run. cbn [legal_run].
    repeat (match goal with
      | |- _ /\ _ => split
      | |- forall s', _ = Ok (tt, s') -> _ => intros ? E; vm_compute in E; injection E as <-
      | |- not_late _ _ => intros ? [E|E]; vm_compute in E; first [discriminate E|injection E as <-; vm_compute; done]
      | |- horizon _ _ => split; vm_compute; done
      | |- fine _ _ _ _ => apply demo_fine; [by auto|done]
      | |- Forall _ _ => constructor
      | |- _ => progress (cbn [allowed])
      end); done.
  - exists s'. split; [exact E|]. vm_compute in E. injection E as <-. by vm_compute.
Defined.

(** A requestor that sends a request from within a response and then refuses the response is
    sent it again without a retry: the request schedules the dequeue event, as no retry is owed
    yet.  When the requestor accepts the response then, the retry it owes for the refusal fails
    its assertion. *)
Theorem refusal_after_request : let steps := [(0, Request demo_write); (8, Release []); (30, Dequeue (mkAnswer false [demo_read]))] in
  (exists s', run demo_config demo_random steps (create MemSpec.zero64) = Ok (tt, s') /\ retryResp s' = true /\ dequeueEvent s' = Some 60 /\ sent s' = []) /\
  (exists s', run demo_config demo_random (steps ++ [(60, Dequeue (mkAnswer true []))]) (create MemSpec.zero64) = Ok (tt, s') /\ zlen (sent s') = 1) /\
  run demo_config demo_random (steps ++ [(60, Dequeue (mkAnswer true [])); (60, RespRetry (mkAnswer true []))]) (create MemSpec.zero64) = Fault AssertFail.
Proof.
  split; [|split; [|vm_compute; reflexivity]]; (eexists; split; [vm_compute; reflexivity|]); [split; [|split]|]; vm_compute; reflexivity.
Qed.
End SimpleSpec.
