(* ===== verification/Layer.v ===== *)
(** The layer of a crossbar ([mem/xbar.{hh,cc}]): it carries one packet at a time to the port
    it leads to, and keeps the ports that have to wait. *)
From S2P Require Import Prelude Packet.
Open Scope Z_scope.

Module Layer.
Inductive State := IDLE | BUSY | RETRY.
#[global] Instance State_eq_dec : EqDecision State.
Proof. solve_decision. Defined.
(** A source port is its number; [drained] counts the calls of [signalDrainDone]. *)
Record t := mkLayer {
  state : State; waitingForLayer : list Z; waitingForPeer : option Z; releaseEvent : event; draining : bool; drained : Z }.
#[global] Instance eta_t : Settable t := fun r =>
  mkLayer (state r) (waitingForLayer r) (waitingForPeer r) (releaseEvent r) (draining r) (drained r).
Definition create : t := mkLayer IDLE [] None None false 0.

Definition in_state (x : State) (s : t) : bool := bool_decide (state s = x).
(** [now] is the current tick. *)
Definition occupyLayer (now until : Z) : comp t unit :=
  s ← get;
  assert_ (in_state BUSY s);; assert_ (negb (until =? 0));;
  e ← lift (schedule now (releaseEvent s) until);
  modify (fun s => s <| releaseEvent := e |>).
Definition tryTiming (src_port : Z) : comp t bool :=
  s ← get;
  if in_state BUSY s || bool_decide (waitingForPeer s <> None) then
    assert_ (bool_decide (src_port ∉ waitingForLayer s));;
    modify (fun s => s <| waitingForLayer ::= fun l => l ++ [src_port] |>);; mret false
  else modify (fun s => s <| state := BUSY |>);; mret true.
Definition succeededTiming (now busy_time : Z) : comp t unit :=
  s ← get; assert_ (in_state BUSY s);; occupyLayer now busy_time.
Definition failedTiming (now src_port busy_time : Z) : comp t unit :=
  s ← get;
  assert_ (bool_decide (waitingForPeer s = None));;
  modify (fun s => s <| waitingForPeer := Some src_port |>);;
  s ← get; assert_ (in_state BUSY s);; occupyLayer now busy_time.

(** A layer in the crossbar: [here] runs an operation on it, [sendRetry] tells a port to try
    again, which may call the crossbar. *)
Section Owner.
Context {W : Type} (here : forall A, comp t A -> comp W A) (clockEdge : comp W Z) (sendRetry : Z -> comp W unit) (now : Z).
Definition retryWaiting : comp W unit :=
  s ← here _ get;
  match waitingForLayer s with
  | [] => lift (Fault AssertFail)
  | retryingPort :: l =>
      assert_ (in_state IDLE s);;
      here _ (modify (fun s => s <| state := RETRY |> <| waitingForLayer := l |>));;
      sendRetry retryingPort;;
      s ← here _ get;
      when_ (in_state RETRY s)
        (here _ (modify (fun s => s <| state := BUSY |>));; edge ← clockEdge; here _ (occupyLayer now edge))
  end.
Definition releaseLayer : comp W unit :=
  s ← here _ get;
  assert_ (in_state BUSY s);; assert_ (negb (scheduled (releaseEvent s)));;
  here _ (modify (fun s => s <| state := IDLE |>));;
  match waitingForLayer s with
  | _ :: _ => when_ (bool_decide (waitingForPeer s = None)) retryWaiting
  | [] => when_ (bool_decide (waitingForPeer s = None) && draining s)
            (here _ (modify (fun s => s <| draining := false |> <| drained ::= fun n => n + 1 |>)))
  end.
Definition recvRetry : comp W unit :=
  s ← here _ get;
  match waitingForPeer s with
  | None => lift (Fault AssertFail)
  | Some src_port =>
      here _ (modify (fun s => s <| waitingForLayer ::= cons src_port |> <| waitingForPeer := None |>));;
      if in_state IDLE s then retryWaiting else assert_ (in_state BUSY s)
  end.
(** The event is served at its tick. *)
Definition process : comp W unit := here _ (modify (fun s => s <| releaseEvent := None |>));; releaseLayer.
End Owner.
(** [true]: drained already. *)
Definition drain : comp t bool :=
  s ← get;
  if in_state IDLE s then mret true else modify (fun s => s <| draining := true |>);; mret false.
End Layer.
