(* ===== verification/XBarLayer.v ===== *)
(** What a group of layers of the crossbar promises: a port that was refused waits in exactly
    one layer, and a layer that ports wait for will be released or waits for its peer. *)
From S2P Require Import Prelude Packet Layer.
From stdpp Require Import list functions.
Open Scope Z_scope.
Import Layer.

Module LayerSpec.

(** ** A layer *)

(** Where a call of the crossbar may have left a layer: between calls ([Free]), offering a
    packet to the peer, or telling a port to retry. *)
Inductive mode := Free | Sending | Retrying.
Definition busy now (l : t) : Prop := state l = BUSY /\ exists w, releaseEvent l = Some w /\ now <= w /\ 0 < w.
Definition layer_ok now (m : mode) (l : t) : Prop :=
  match m with
  | Free => (state l = IDLE /\ releaseEvent l = None /\ (waitingForLayer l <> [] -> waitingForPeer l <> None) /\ (waitingForPeer l <> None -> 0 < now)) \/ busy now l
  | Sending => state l = BUSY /\ releaseEvent l = None /\ waitingForPeer l = None
  | Retrying => 0 < now /\ ((state l = RETRY /\ releaseEvent l = None /\ waitingForPeer l = None) \/ busy now l)
  end.
(** The ports that wait for a layer or its peer. *)
Definition slots (l : t) : list Z := waitingForLayer l ++ option_list (waitingForPeer l).
Definition owner_ok now (m : mode) : Prop := match m with Free => True | Sending => False | Retrying => 0 < now end.

Lemma in_state_spec x s : in_state x s = true <-> state s = x.
Proof. apply bool_decide_eq_true. Qed.
Lemma busy_owner now m l : owner_ok now m -> busy now l -> layer_ok now m l.
Proof. destruct m; cbn; [by right|done|by split; [|right]]. Qed.
Lemma layer_later now now' l : now <= now' -> layer_ok now Free l -> (forall w, releaseEvent l = Some w -> now' <= w) -> layer_ok now' Free l.
Proof.
  intros Hn [(H1 & H2 & H3 & H4)|(H1 & w & H2 & H3 & H4)] He; [left|right].
  - split_and!; try done. intros H. specialize (H4 H). lia.
  - split; [done|]. exists w. auto.
Qed.

Lemma tryTiming_wp now m l i : layer_ok now m l -> i ∉ slots l ->
  wp (tryTiming i) l (fun ok l' => if ok : bool then l' = l <| state := BUSY |> /\ layer_ok now Sending l' /\ owner_ok now m /\ waitingForPeer l = None
    else l' = l <| waitingForLayer ::= fun w => w ++ [i] |> /\ layer_ok now m l').
Proof.
  intros H Hi. unfold tryTiming. wp_step. wp_step. unfold slots in Hi. rewrite elem_of_app in Hi.
  destruct (in_state BUSY l || bool_decide (waitingForPeer l <> None)) eqn:E.
  - wp_step. apply wp_assert; [apply bool_decide_eq_true; tauto|]. wp_step. wp_step. wp_step. split; [done|].
    apply orb_true_iff in E as [E%in_state_spec|E%bool_decide_eq_true].
    + destruct m; cbn in *; [|done|].
      * destruct H as [H|H]; [destruct H; congruence|by right].
      * destruct H as [H0 [H|H]]; [destruct H; congruence|by split; [|right]].
    + destruct m; cbn in *; [|by destruct H as (_ & _ & ?)|].
      * destruct H as [(H1 & H2 & _ & H4)|H]; [left|by right]. by split_and!.
      * destruct H as [H0 [H|H]]; [destruct H as (_ & _ & ?); done|by split; [|right]].
  - apply orb_false_iff in E as [E1%bool_decide_eq_false E2%bool_decide_eq_false]. apply dec_stable in E2. wp_step. wp_step. wp_step.
    split; [done|]. destruct m; cbn in *.
    + destruct H as [(_ & ? & _)|[? _]]; done.
    + by destruct H.
    + destruct H as [? [(_ & ? & _)|[? _]]]; done.
Qed.
Lemma occupyLayer_wp now l w : state l = BUSY -> releaseEvent l = None -> now <= w -> 0 < w ->
  wp (occupyLayer now w) l (fun _ l' => l' = l <| releaseEvent := Some w |>).
Proof.
  intros Hs He Hw H0. unfold occupyLayer. wp_step. wp_step. wp_step. apply wp_assert; [by apply in_state_spec|]. wp_step.
  apply wp_assert; [by rewrite (proj2 (Z.eqb_neq w 0)) by lia|]. wp_step. wp_step. rewrite He. unfold schedule. rewrite (proj2 (Z.leb_le _ _) Hw).
  cbn [andb negb scheduled rp]. wp_step. done.
Qed.
Lemma succeededTiming_wp now l w : layer_ok now Sending l -> now <= w -> 0 < w ->
  wp (succeededTiming now w) l (fun _ l' => l' = l <| releaseEvent := Some w |>).
Proof.
  intros (Hs & He & _) Hw H0. unfold succeededTiming. wp_step. wp_step. wp_step. apply wp_assert; [by apply in_state_spec|]. by apply occupyLayer_wp.
Qed.
Lemma failedTiming_wp now l i w : layer_ok now Sending l -> now <= w -> 0 < w ->
  wp (failedTiming now i w) l (fun _ l' => l' = l <| waitingForPeer := Some i |> <| releaseEvent := Some w |>).
Proof.
  intros (Hs & He & Hp) Hw H0. unfold failedTiming. wp_step. wp_step. wp_step. apply wp_assert; [by apply bool_decide_eq_true|]. wp_step. wp_step. wp_step. wp_step. wp_step.
  apply wp_assert; [by apply in_state_spec|]. by apply occupyLayer_wp.
Qed.

(** ** A group of layers *)

(** Element [i] replaced by [x]. *)
Lemma concat_split {A B} (f : A -> list B) (l : list A) (i : Z) x : l !! i = Some x ->
  exists rest, concat (f <$> l) ≡ₚ f x ++ rest /\ forall y, concat (f <$> <[i := y]> l) ≡ₚ f y ++ rest.
Proof.
  intros H. pose proof (zlookup_lt _ _ _ H) as [H0 _]. unfold lookup, zlist_lookup in H. unfold insert, zlist_insert. destruct (Z.ltb_spec i 0); [lia|].
  apply list_elem_of_split_length in H as (l1 & l2 & -> & El). exists (concat (f <$> l1) ++ concat (f <$> l2)). split.
  - rewrite fmap_app, concat_app. cbn [fmap list_fmap concat]. solve_Permutation.
  - intros y. rewrite El, insert_app_r_alt, Nat.sub_diag by lia. cbn [insert list_insert]. rewrite fmap_app, concat_app. cbn [fmap list_fmap concat].
    solve_Permutation.
Qed.

Lemma nodup_snoc {A} (l : list A) x : NoDup l -> x ∉ l -> NoDup (l ++ [x]).
Proof. intros H Hx. rewrite <- Permutation_cons_append. by constructor. Qed.
(** [stalled] are the ports refused and not yet told to retry, [refusing] the layers whose peer
    owes a call, [begun] ports that are sending. *)
Record group now (rm : Z -> mode) (ls : list t) (stalled refusing begun : list Z) : Prop := {
  gr_layers : forall j l, ls !! j = Some l -> layer_ok now (rm j) l;
  gr_refusing : forall j, j ∈ refusing <-> exists l, ls !! j = Some l /\ waitingForPeer l <> None;
  gr_stalled : stalled ≡ₚ concat (slots <$> ls);
  gr_nodup : NoDup stalled;
  gr_begun : forall i, i ∈ begun -> i ∉ stalled }.
Lemma group_ext now rm rm' ls st rf bg : (forall k, rm k = rm' k) -> group now rm ls st rf bg -> group now rm' ls st rf bg.
Proof. intros E []. split; try done. intros j l Hl. rewrite <- E. by apply gr_layers0. Qed.
Lemma mode_back (rm : Z -> mode) j m k : (<[j := rm j]> (<[j := m]> rm)) k = rm k.
Proof. destruct (decide (j = k)) as [<-|Hne]; [by rewrite fn_lookup_insert|by rewrite !fn_lookup_insert_ne]. Qed.

Section Update.
Context (now : Z) (rm : Z -> mode) (ls : list t) (st rf bg : list Z) (j : Z) (l : t).
Context (H : group now rm ls st rf bg) (Hl : ls !! j = Some l).

Lemma group_set m l' st' rf' : layer_ok now m l' -> (j ∈ rf' <-> waitingForPeer l' <> None) -> (forall k, k <> j -> k ∈ rf' <-> k ∈ rf) ->
  (forall rest, st ≡ₚ slots l ++ rest -> st' ≡ₚ slots l' ++ rest) -> NoDup st' -> (forall i, i ∈ bg -> i ∉ st') ->
  group now (<[j := m]> rm) (<[j := l']> ls) st' rf' bg.
Proof.
  intros Hm Hj Hk Hst Hn Hb. pose proof (zlookup_lt _ _ _ Hl) as Hr. split; [|intros k|destruct (concat_split slots ls j l Hl) as (rest & E1 & E2)|done|done].
  - intros k x Hx. destruct (decide (j = k)) as [<-|Hne].
    + rewrite zlookup_insert_eq in Hx by done. injection Hx as <-. by rewrite fn_lookup_insert.
    + rewrite zlookup_insert_ne in Hx by done. rewrite fn_lookup_insert_ne by done. by apply (gr_layers _ _ _ _ _ _ H).
  - destruct (decide (j = k)) as [<-|Hne].
    + rewrite Hj. split; [intros Hp; exists l'; by rewrite zlookup_insert_eq|]. intros (x & Hx & Hp). rewrite zlookup_insert_eq in Hx by done. congruence.
    + rewrite Hk by done. rewrite (gr_refusing _ _ _ _ _ _ H). by rewrite zlookup_insert_ne by done.
  - rewrite E2. apply Hst. by rewrite (gr_stalled _ _ _ _ _ _ H).
Qed.
(** A change that keeps who waits. *)
Lemma group_keep m l' : layer_ok now m l' -> waitingForLayer l' = waitingForLayer l -> waitingForPeer l' = waitingForPeer l ->
  group now (<[j := m]> rm) (<[j := l']> ls) st rf bg.
Proof.
  intros Hm Hw Hp. apply group_set; [done| |done| |apply H|apply H].
  - rewrite Hp, (gr_refusing _ _ _ _ _ _ H). split; [intros (x & Hx & ?); congruence|by exists l].
  - intros rest. unfold slots. by rewrite Hw, Hp.
Qed.
Lemma group_slots i : i ∈ slots l -> i ∈ st.
Proof.
  destruct (concat_split slots ls j l Hl) as (rest & E & _). intros Hi. rewrite (gr_stalled _ _ _ _ _ _ H), E. apply elem_of_app. by left.
Qed.
Lemma group_peer : waitingForPeer l <> None <-> j ∈ rf.
Proof. rewrite (gr_refusing _ _ _ _ _ _ H). split; [by exists l|]. intros (x & Hx & ?). congruence. Qed.

(** A port asks for the layer. *)
Lemma group_try i : i ∉ st -> i ∉ bg ->
  wp (tryTiming i) l (fun ok l' => if ok : bool then l' = l <| state := BUSY |> /\ owner_ok now (rm j) /\ group now (<[j := Sending]> rm) (<[j := l']> ls) st rf bg
    else group now rm (<[j := l']> ls) (st ++ [i]) rf bg).
Proof.
  intros Hi Hb. eapply wp_mono; [apply (tryTiming_wp now (rm j)); [by apply (gr_layers _ _ _ _ _ _ H)|by intros ?%group_slots]|].
  intros [] l'.
  - intros (-> & H1 & H2 & _). split; [done|]. split; [done|]. by apply group_keep.
  - intros [-> H1]. apply (group_ext now (<[j := rm j]> rm)); [intros k; destruct (decide (j = k)) as [<-|]; [by rewrite fn_lookup_insert|by rewrite fn_lookup_insert_ne]|].
    apply group_set; [done| |done| | |].
    + symmetry. apply group_peer.
    + intros rest ->. unfold slots. cbn [waitingForLayer waitingForPeer over]. solve_Permutation.
    + by apply nodup_snoc; [apply H|].
    + intros x Hx [Hx'| ->%list_elem_of_singleton]%elem_of_app; [by apply (gr_begun _ _ _ _ _ _ H x)|done].
Qed.
End Update.

Section Sent.
Context (now : Z) (rm : Z -> mode) (ls : list t) (st rf bg : list Z) (j : Z) (l : t).
Context (H : group now (<[j := Sending]> rm) ls st rf bg) (Hl : ls !! j = Some l) (Ho : owner_ok now (rm j)).

Lemma sent_layer : layer_ok now Sending l.
Proof. pose proof (gr_layers _ _ _ _ _ _ H j l Hl) as Hj. by rewrite fn_lookup_insert in Hj. Qed.
(** The peer has accepted the packet. *)
Lemma group_succeed w : now <= w -> 0 < w -> wp (succeededTiming now w) l (fun _ l' => group now rm (<[j := l']> ls) st rf bg).
Proof.
  intros Hw H0. pose proof sent_layer as Hs. eapply wp_mono; [by apply succeededTiming_wp|]. intros [] l' ->.
  apply (group_ext now (<[j := rm j]> (<[j := Sending]> rm))); [apply mode_back|]. apply (group_keep _ _ _ _ _ _ _ _ H Hl); [|done..].
  apply busy_owner; [done|]. split; [apply Hs|]. by exists w.
Qed.
(** It has refused it. *)
Lemma group_fail i w : now <= w -> 0 < w -> i ∉ st -> i ∉ bg ->
  wp (failedTiming now i w) l (fun _ l' => group now rm (<[j := l']> ls) (st ++ [i]) (j :: rf) bg).
Proof.
  intros Hw H0 Hi Hb. pose proof sent_layer as Hs. eapply wp_mono; [by apply failedTiming_wp|]. intros [] l' ->.
  apply (group_ext now (<[j := rm j]> (<[j := Sending]> rm))); [apply mode_back|]. apply (group_set _ _ _ _ _ _ _ _ H Hl).
  - apply busy_owner; [done|]. split; [apply Hs|]. by exists w.
  - cbn. split; [done|by left].
  - intros k Hk. rewrite elem_of_cons. split; [by intros [?|?]|by right].
  - intros rest ->. unfold slots. cbn [waitingForLayer waitingForPeer over]. destruct Hs as (_ & _ & ->). cbn [option_list]. solve_Permutation.
  - by apply nodup_snoc; [apply H|].
  - intros x Hx [Hx'| ->%list_elem_of_singleton]%elem_of_app; [by apply (gr_begun _ _ _ _ _ _ H x)|done].
Qed.
End Sent.

(** ** Retries *)

Lemma zinsert_id {A} (l : list A) (i : Z) x : l !! i = Some x -> <[i := x]> l = l.
Proof. unfold lookup, zlist_lookup, insert, zlist_insert. destruct (i <? 0); [done|]. apply list_insert_id. Qed.
Lemma zinsert_twice {A} (l : list A) (i : Z) x y : <[i := x]> (<[i := y]> l) = <[i := x]> l.
Proof. unfold insert, zlist_insert. destruct (i <? 0); [done|]. apply list_insert_insert_eq. Qed.
(** What [st] is without [i]. *)
Definition without (i : Z) (st : list Z) : list Z := filter (fun x => x <> i) st.
Lemma without_perm i st : NoDup st -> i ∈ st -> st ≡ₚ i :: without i st.
Proof.
  intros Hn Hi. apply NoDup_Permutation; [done|constructor; [unfold without; rewrite list_elem_of_filter; tauto|by apply list.NoDup_filter]|].
  intros x. unfold without. rewrite elem_of_cons, list_elem_of_filter. destruct (decide (x = i)) as [->|]; tauto.
Qed.

(** A group as part of a state. *)
Class Lens {W T} (g : W -> T) (put : T -> W -> W) : Prop := {
  lens_get : forall l s, g (put l s) = l; lens_put : forall s, put (g s) s = s; lens_twice : forall l l' s, put l (put l' s) = put l s }.
Section Owner.
Context {W : Type} (g : W -> list t) (put : list t -> W -> W) `{!Lens g put} (clockEdge : comp W Z) (sendRetry : Z -> comp W unit) (now j : Z).
#[local] Abbreviation here := (fun (A : Type) (m : comp t A) => zoom_at g put j m).

Lemma here_get s l (Q : t -> W -> Prop) : g s !! j = Some l -> Q l s -> wp (here _ get) s Q.
Proof. intros Hl HQ. eapply wp_zoom_at; [exact Hl|]. wp_step. by rewrite zinsert_id, lens_put. Qed.
Lemma here_modify s l f (Q : unit -> W -> Prop) : g s !! j = Some l -> Q tt (put (<[j := f l]> (g s)) s) -> wp (here _ (modify f)) s Q.
Proof. intros Hl HQ. eapply wp_zoom_at; [exact Hl|]. by wp_step. Qed.
Lemma there_lookup s l l' : g s !! j = Some l -> g (put (<[j := l']> (g s)) s) !! j = Some l'.
Proof. intros Hl. rewrite lens_get. apply zlookup_insert_eq. by eapply zlookup_lt. Qed.
Lemma there_twice s l1 l2 : put (<[j := l2]> (g (put (<[j := l1]> (g s)) s))) (put (<[j := l1]> (g s)) s) = put (<[j := l2]> (g s)) s.
Proof. by rewrite lens_get, lens_twice, zinsert_twice. Qed.

(** What is left to do when the port has been told. *)
Definition resume (rm : Z -> mode) (Q : unit -> W -> Prop) (s : W) : Prop := exists st rf bg,
  group now (<[j := Retrying]> rm) (g s) st rf bg /\ (group now rm (g s) st rf bg -> Q tt s) /\
  forall l, wp clockEdge (put (<[j := l]> (g s)) s) (fun e s' => g s' = <[j := l]> (g s) /\ now <= e /\
    forall l', group now rm (<[j := l']> (g s)) st rf bg -> Q tt (put (<[j := l']> (g s)) s')).
Lemma retryWaiting_wp s l i w rm (Q : unit -> W -> Prop) : g s !! j = Some l -> waitingForLayer l = i :: w -> state l = IDLE -> rm j = Free ->
  wp (sendRetry i) (put (<[j := l <| state := RETRY |> <| waitingForLayer := w |>]> (g s)) s)
    (fun _ s' => is_Some (g s' !! j) /\ resume rm Q s') ->
  wp (retryWaiting here clockEdge sendRetry now) s Q.
Proof.
  intros Hl Hw Hs Hrm H. unfold retryWaiting. wp_step. eapply here_get; [done|]. rewrite Hw. wp_step. apply wp_assert; [by apply in_state_spec|].
  wp_step. eapply here_modify; [done|]. wp_step. eapply wp_mono; [exact H|]. intros [] s1 ((l1 & H1) & st & rf & bg & G & HQ & Hc).
  wp_step. eapply here_get; [done|]. pose proof (gr_layers _ _ _ _ _ _ G j l1 H1) as Hm. rewrite fn_lookup_insert in Hm. destruct Hm as [H0 Hm].
  assert (forall l', layer_ok now Free l' -> waitingForLayer l' = waitingForLayer l1 -> waitingForPeer l' = waitingForPeer l1 -> group now rm (<[j := l']> (g s1)) st rf bg) as Hgr.
  { intros l' Hf E1 E2. apply (group_ext now (<[j := rm j]> (<[j := Retrying]> rm))); [apply mode_back|]. rewrite Hrm. by apply (group_keep _ _ _ _ _ _ _ l1). }
  apply wp_when; intros E.
  - apply in_state_spec in E. destruct Hm as [(_ & He & Hp)|[? _]]; [|congruence]. wp_step. eapply here_modify; [done|]. wp_step.
    eapply wp_mono; [apply Hc|]. intros e s2 (Eg & Hn & HQ2). eapply wp_zoom_at; [rewrite Eg; apply zlookup_insert_eq; by eapply zlookup_lt|].
    eapply wp_mono; [apply (occupyLayer_wp now); [done|exact He|done|lia]|]. intros [] l2 ->. rewrite Eg, zinsert_twice. apply HQ2.
    apply Hgr; [|done|done]. right. split; [done|]. exists e. split; [done|]. split; [done|lia].
  - apply bool_decide_eq_false in E. destruct Hm as [(? & _)|Hb]; [done|]. apply HQ. rewrite <- (zinsert_id (g s1) j l1 H1). apply Hgr; [by right|done|done].
Qed.

(** The first port is taken off the layer. *)
Lemma group_pop rm ls st rf bg l lp i rf' : group now rm ls st rf bg -> ls !! j = Some l -> 0 < now ->
  state lp = RETRY -> releaseEvent lp = None -> waitingForPeer lp = None -> slots l ≡ₚ i :: slots lp ->
  j ∉ rf' -> (forall k, k <> j -> k ∈ rf' <-> k ∈ rf) ->
  i ∈ st /\ group now (<[j := Retrying]> rm) (<[j := lp]> ls) (without i st) rf' bg.
Proof.
  intros G Hl H0 Hs He Hp Hsl Hj Hk. assert (i ∈ st) as Hi by (eapply group_slots; [done..|]; rewrite Hsl; left). split; [done|].
  pose proof (without_perm i st (gr_nodup _ _ _ _ _ _ G) Hi) as Hst. apply (group_set _ _ _ _ _ _ _ _ G Hl).
  - split; [done|]. by left.
  - rewrite Hp. split; [done|by intros []].
  - done.
  - intros rest E. rewrite Hst, Hsl in E. by apply Permutation_cons_inv in E.
  - apply list.NoDup_filter, G.
  - intros x Hx [_ Hx']%list_elem_of_filter. by apply (gr_begun _ _ _ _ _ _ G x).
Qed.

(** The release event. *)
Lemma layer_process_wp s l rm st rf bg (Q : unit -> W -> Prop) : group now rm (g s) st rf bg -> g s !! j = Some l -> rm j = Free ->
  releaseEvent l = Some now ->
  (forall l', group now rm (<[j := l']> (g s)) st rf bg -> Q tt (put (<[j := l']> (g s)) s)) ->
  (forall i l', i ∈ st -> group now (<[j := Retrying]> rm) (<[j := l']> (g s)) (without i st) rf bg ->
     wp (sendRetry i) (put (<[j := l']> (g s)) s) (fun _ s' => is_Some (g s' !! j) /\ resume rm Q s')) ->
  wp (process here clockEdge sendRetry now) s Q.
Proof.
  intros G Hl Hrm He HQ Hr. pose proof (gr_layers _ _ _ _ _ _ G j l Hl) as Hm. rewrite Hrm in Hm.
  destruct Hm as [(_ & ? & _)|(Hs & w & Hw & _ & H0)]; [congruence|]. assert (w = now) as -> by congruence. clear Hw.
  assert (forall l', layer_ok now Free l' -> waitingForLayer l' = waitingForLayer l -> waitingForPeer l' = waitingForPeer l -> group now rm (<[j := l']> (g s)) st rf bg) as Hgr.
  { intros l' Hf E1 E2. apply (group_ext now (<[j := rm j]> rm)); [|rewrite Hrm; by apply (group_keep _ _ _ _ _ _ _ l)].
    intros k. destruct (decide (j = k)) as [<-|]; [by rewrite fn_lookup_insert|by rewrite fn_lookup_insert_ne]. }
  unfold process. wp_step. eapply here_modify; [done|]. set (s1 := put _ s). set (l1 := l <| releaseEvent := None |>).
  assert (g s1 !! j = Some l1) as H1 by (by eapply there_lookup).
  unfold releaseLayer. wp_step. eapply here_get; [done|]. wp_step. apply wp_assert; [by apply in_state_spec|]. wp_step. apply wp_assert; [done|].
  wp_step. eapply here_modify; [done|]. set (l2 := l1 <| state := IDLE |>). unfold s1. rewrite there_twice. set (s2 := put _ s).
  assert (g s2 !! j = Some l2) as H2 by (by eapply there_lookup). change (waitingForLayer l1) with (waitingForLayer l). change (waitingForPeer l1) with (waitingForPeer l).
  destruct (waitingForLayer l) as [|i w] eqn:Ew.
  - apply wp_when; intros E.
    + eapply here_modify; [exact H2|]. unfold s2. rewrite there_twice. apply HQ, Hgr; [|done|done]. left. cbn. rewrite Ew. by apply andb_true_iff in E as [->%bool_decide_eq_true _].
    + apply HQ, Hgr; [|done|done]. left. cbn. by rewrite Ew.
  - apply wp_when; intros E.
    + apply bool_decide_eq_true in E. eapply (retryWaiting_wp s2 l2 i w rm); [done|done|done|done|]. unfold s2. rewrite there_twice.
      set (lp := l2 <| state := RETRY |> <| waitingForLayer := w |>).
      destruct (group_pop rm (g s) st rf bg l lp i rf G Hl H0) as [Hi Gp]; try done.
      { unfold slots. cbn. by rewrite Ew, E. }
      { by intros Hj%(proj2 (group_peer _ _ _ _ _ _ _ _ G Hl)). }
      by apply Hr.
    + apply bool_decide_eq_false in E. apply HQ, Hgr; [|done|done]. left. cbn. by split_and!.
Qed.
(** The peer of a layer calls back. *)
Lemma recvRetry_wp s l rm st rf rf' bg (Q : unit -> W -> Prop) : group now rm (g s) st rf bg -> g s !! j = Some l -> j ∈ rf ->
  j ∉ rf' -> (forall k, k <> j -> k ∈ rf' <-> k ∈ rf) ->
  (forall l', group now rm (<[j := l']> (g s)) st rf' bg -> Q tt (put (<[j := l']> (g s)) s)) ->
  (forall i l', i ∈ st -> rm j = Free -> group now (<[j := Retrying]> rm) (<[j := l']> (g s)) (without i st) rf' bg ->
     wp (sendRetry i) (put (<[j := l']> (g s)) s) (fun _ s' => is_Some (g s' !! j) /\ resume rm Q s')) ->
  wp (recvRetry here clockEdge sendRetry now) s Q.
Proof.
  intros G Hl Hj Hj' Hk HQ Hr. apply (proj2 (group_peer _ _ _ _ _ _ _ _ G Hl)) in Hj. pose proof (gr_layers _ _ _ _ _ _ G j l Hl) as Hm.
  destruct (waitingForPeer l) as [i|] eqn:Ep; [|done]. unfold recvRetry. wp_step. eapply here_get; [done|]. rewrite Ep.
  wp_step. eapply here_modify; [done|]. set (l1 := over waitingForPeer _ _). set (s1 := put _ s). assert (g s1 !! j = Some l1) as H1 by (by eapply there_lookup).
  destruct (in_state IDLE l) eqn:E.
  - apply in_state_spec in E. destruct (rm j) eqn:Hrm; cbn in Hm.
    + destruct Hm as [(_ & He & _ & H0)|[? _]]; [|congruence]. eapply (retryWaiting_wp s1 l1 i (waitingForLayer l) rm); [done|done|done|done|].
      unfold s1. rewrite there_twice. set (lp := over waitingForLayer _ (over state _ l1)).
      destruct (group_pop rm (g s) st rf bg l lp i rf' G Hl) as [Hi Gp]; try done.
      { apply H0. congruence. }
      { unfold slots. cbn. rewrite Ep. cbn. solve_Permutation. }
      by apply Hr.
    + destruct Hm as (? & _). congruence.
    + destruct Hm as [_ [(? & _)|[? _]]]; congruence.
  - apply bool_decide_eq_false in E. assert (layer_ok now (rm j) l1) as Hm1.
    { destruct (rm j); cbn in *.
      - destruct Hm as [(? & _)|Hb]; [done|by right].
      - destruct Hm as (_ & _ & ?). congruence.
      - destruct Hm as [H0 [(_ & _ & ?)|Hb]]; [congruence|]. split; [done|by right]. }
    apply wp_assert.
    + apply in_state_spec. cbn. destruct (rm j); cbn in Hm; [destruct Hm as [(? & _)|[? _]]; done|destruct Hm as (_ & _ & ?); congruence|].
      destruct Hm as [_ [(_ & _ & ?)|[? _]]]; congruence.
    + apply HQ. apply (group_ext now (<[j := rm j]> rm)).
      { intros k. destruct (decide (j = k)) as [<-|]; [by rewrite fn_lookup_insert|by rewrite fn_lookup_insert_ne]. }
      apply (group_set _ _ _ _ _ _ _ _ G Hl); [done| |done| |apply G|apply G].
      * cbn. split; [done|by intros []].
      * intros rest ->. unfold slots. cbn. rewrite Ep. cbn. solve_Permutation.
Qed.
End Owner.

(** Later, between calls. *)
Lemma group_later now now' ls st rf bg : group now (fun _ => Free) ls st rf bg -> now <= now' ->
  (forall j l w, ls !! j = Some l -> releaseEvent l = Some w -> now' <= w) -> group now' (fun _ => Free) ls st rf bg.
Proof.
  intros [] Hn He. split; try done. intros j l Hl. eapply layer_later; [done|by eapply gr_layers0|]. intros w Hw. by eapply He.
Qed.
Lemma group_create now n : group now (fun _ => Free) (replicate n create) [] [] [].
Proof.
  assert (forall (j : Z) l, replicate n create !! j = Some l -> l = create) as Hc.
  { intros j l Hl. apply elem_of_zlookup in Hl. by apply elem_of_replicate in Hl as [-> _]. }
  split.
  - intros j l ->%Hc. by left.
  - intros j. split; [by intros ?%elem_of_nil|]. intros (l & Hl%Hc & Hp). by subst.
  - clear. induction n as [|n IH]; [done|]. exact IH.
  - constructor.
  - by intros i ?%elem_of_nil.
Qed.
End LayerSpec.
