(* ===== verification/XBar.v ===== *)
(** The crossbar ([mem/xbar.{hh,cc}] and [mem/noncoherent_xbar.{hh,cc}]): one layer
    (Layer.v) per port that packets converge at; requests are routed by their address,
    responses to where their request came from. *)
From S2P Require Import Prelude Flags Packet MemCmd Request PacketData PacketQueue Clocked AddrRange AddrRangeMap Layer.
From stdpp Require Import gmap.
Open Scope Z_scope.

(** ** The crossbar *)

Module XBar.
Definition InvalidPortID : Z := -1.
(** The size of the cache of the address map. *)
Definition map_cache : Z := 3.
(** [us] is the number of ticks of a microsecond. *)
Record Config := mkConfig {
  frontendLatency : Z; forwardLatency : Z; responseLatency : Z; width : Z; useDefaultRange : bool; period : Z; us : Z }.
(** The last members record what has passed the ports: [begun] the requests (and their ports) a memory-side
    port is being offered, [stalledReq] and [stalledResp] the ports that were refused and not
    yet told to retry, [refusing] the memory-side ports that refused a request and have not
    yet called back, [accepted] and [returned] the requests and responses accepted with their
    ticks and the ports on the two sides, [told] the retries sent, and [changes] the range
    changes sent on. *)
Record t := mkXBar {
  clock : Clocked.t; portMap : AddrRangeMap.t Z; routeTo : gmap Z Z; xbarRanges : list AddrRange.t; defaultRange : AddrRange.t;
  gotAddrRanges : list bool; gotAllAddrRanges : bool; defaultPortID : Z;
  reqLayers : list Layer.t; respLayers : list Layer.t; cpuSidePorts : list PacketQueue.t;
  begun : list (Z * Z); stalledReq : list Z; stalledResp : list Z; refusing : list Z;
  accepted : list (Z * Z * (Z * Pkt.t)); returned : list (Z * Z * (Z * Pkt.t)); told : list Z; changes : Z }.
#[global] Instance eta_t : Settable t := fun r =>
  mkXBar (clock r) (portMap r) (routeTo r) (xbarRanges r) (defaultRange r) (gotAddrRanges r) (gotAllAddrRanges r) (defaultPortID r)
    (reqLayers r) (respLayers r) (cpuSidePorts r) (begun r) (stalledReq r) (stalledResp r) (refusing r) (accepted r) (returned r)
    (told r) (changes r).
(** The numbers of connections of the ports; the default port is the last memory-side one. *)
Definition create (mem_side cpu_side : nat) (default_port : bool) : t :=
  let n := (mem_side + (if default_port then 1 else 0))%nat in
  mkXBar Clocked.create AddrRangeMap.create ∅ [] (AddrRange.mkRange 1 0 [] 0) (replicate n false) false
    (if default_port then Z.of_nat mem_side else InvalidPortID)
    (replicate n Layer.create) (replicate cpu_side Layer.create) (replicate cpu_side (PacketQueue.create false))
    [] [] [] [] [] [] [] 0.

Section Code.
Context (c : Config).
Definition at_reqLayer (i : Z) (A : Type) (m : comp Layer.t A) : comp t A := zoom_at reqLayers (fun l s => s <| reqLayers := l |>) i m.
Definition at_respLayer (i : Z) (A : Type) (m : comp Layer.t A) : comp t A := zoom_at respLayers (fun l s => s <| respLayers := l |>) i m.
Definition at_cpuSidePort (i : Z) (A : Type) (m : comp PacketQueue.t A) : comp t A := zoom_at cpuSidePorts (fun l s => s <| cpuSidePorts := l |>) i m.
Definition at_portMap (A : Type) (m : comp (AddrRangeMap.t Z) A) : comp t A := zoom portMap (fun m s => s <| portMap := m |>) m.

(** ** Routing *)

Definition findPort (addr_range : AddrRange.t) : comp t Z :=
  s ← get;
  assert_ (gotAllAddrRanges s);;
  i ← at_portMap _ (AddrRangeMap.contains map_cache addr_range);
  match i with
  | Some e => mret (AddrRangeMap.val e)
  | None =>
      s ← get;
      if useDefaultRange c then
        b ← lift (AddrRange.isSubset addr_range (defaultRange s));
        if b : bool then mret (defaultPortID s) else lift (Fault Panic)
      else if negb (defaultPortID s =? InvalidPortID) then mret (defaultPortID s)
      else lift (Fault Panic)
  end.

(** The entries of a port are removed, its ranges are added; [fatal] if one intersects
    another. *)
Fixpoint erase_port (id : Z) (l : list (AddrRangeMap.entry Z)) : comp t unit :=
  match l with
  | [] => mret tt
  | e :: l' => when_ (AddrRangeMap.val e =? id) (at_portMap _ (AddrRangeMap.erase (AddrRangeMap.node e)));; erase_port id l'
  end.
Fixpoint insert_ranges (id : Z) (l : list AddrRange.t) : comp t unit :=
  match l with
  | [] => mret tt
  | r :: l' =>
      o ← at_portMap _ (AddrRangeMap.insert map_cache r id);
      match o with None => lift (Fault Panic) | Some _ => insert_ranges id l' end
  end.
(** [r] is added unless the default range covers it. *)
Definition keep_range (r : AddrRange.t) : comp t unit :=
  s ← get;
  covered ← (if useDefaultRange c then lift (AddrRange.isSubset r (defaultRange s)) else mret false);
  when_ (negb covered) (modify (fun s => s <| xbarRanges ::= fun l => l ++ [r] |>)).
Definition keep_merged (intlv_ranges : list AddrRange.t) : comp t unit :=
  match intlv_ranges with
  | [] => mret tt
  | _ => merged_range ← lift (AddrRange.merge intlv_ranges); keep_range merged_range
  end.
Fixpoint aggregate (intlv_ranges : list AddrRange.t) (l : list AddrRange.t) : comp t unit :=
  match l with
  | [] => keep_merged intlv_ranges
  | r :: l' =>
      if AddrRange.interleaved r then
        match last intlv_ranges with
        | Some back => if negb (AddrRange.mergesWith back r) then keep_merged intlv_ranges;; aggregate [r] l'
                       else aggregate (intlv_ranges ++ [r]) l'
        | None => aggregate (intlv_ranges ++ [r]) l'
        end
      else keep_range r;; aggregate intlv_ranges l'
  end.
Fixpoint check_default (l : list AddrRange.t) : comp t unit :=
  match l with
  | [] => mret tt
  | r :: l' =>
      s ← get;
      meets ← lift (AddrRange.intersects r (defaultRange s));
      (if meets : bool then covered ← lift (AddrRange.isSubset r (defaultRange s)); if covered : bool then mret tt else lift (Fault Panic) else mret tt);;
      check_default l'
  end.
(** The parts of a range change: the port has got its ranges, they replace what was known, and
    they are passed on once all are known. *)
Definition got_range (mem_side_port_id : Z) : comp t unit :=
  s ← get;
  l ← lift (awrite (gotAddrRanges s) mem_side_port_id true);
  modify (fun s => s <| gotAddrRanges := l |>);;
  when_ (negb (gotAllAddrRanges s)) (modify (fun s => s <| gotAllAddrRanges := forallb id l |>)).
Definition update_ranges (mem_side_port_id : Z) (ranges : list AddrRange.t) : comp t unit :=
  s ← get;
  if mem_side_port_id =? defaultPortID s then
    when_ (useDefaultRange c)
      match ranges with
      | [r] => modify (fun s => s <| defaultRange := r |>)
      | _ => lift (Fault Panic)
      end
  else erase_port mem_side_port_id (AddrRangeMap.tree (portMap s));; insert_ranges mem_side_port_id ranges.
Definition publish_ranges : comp t unit :=
  modify (fun s => s <| xbarRanges := [] |>);;
  s ← get;
  when_ (useDefaultRange c)
    (got ← lift (aread (gotAddrRanges s) (defaultPortID s));
     if got : bool then modify (fun s => s <| xbarRanges ::= fun l => l ++ [defaultRange s] |>) else lift (Fault Panic));;
  aggregate [] (AddrRangeMap.key <$> AddrRangeMap.tree (portMap s));;
  s ← get;
  when_ (useDefaultRange c) (check_default (xbarRanges s));;
  modify (fun s => s <| changes ::= fun n => n + zlen (cpuSidePorts s) |>).
(** [ranges] is what the port answers to [getAddrRanges]. *)
Definition recvRangeChange (mem_side_port_id : Z) (ranges : list AddrRange.t) : comp t unit :=
  got_range mem_side_port_id;; update_ranges mem_side_port_id ranges;; s ← get; when_ (gotAllAddrRanges s) publish_ranges.
Definition getAddrRanges : comp t (list AddrRange.t) := s ← get; assert_ (gotAllAddrRanges s);; mret (xbarRanges s).

(** ** Packets *)

Definition getAddrRange (p : Pkt.t) : result AddrRange.t := a ← Pkt.getAddr p; n ← Pkt.getSize p; Ok (RangeSize a n).

Section Now.
Context (now : Z).
Definition clockEdge (n : Z) : comp t Z := zoom clock (fun k s => s <| clock := k |>) (Clocked.clockEdge (period c) now n).
Definition calcPacketTiming (p : Pkt.t) (header_delay : Z) : comp t Pkt.t :=
  edge ← clockEdge 0;
  let offset := tsub edge now in
  let p := p <| Pkt.headerDelay ::= fun d => u32 (tadd d (tadd offset header_delay)) |> in
  if us c <? Pkt.headerDelay p then lift (Fault Panic)
  else if MemCmd.hasData (Pkt.cmd p) then
    size ← lift (Pkt.getSize p);
    n ← lift (udiv (u32 (size + width c - 1)) (width c));
    mret (p <| Pkt.payloadDelay ::= fun d => u32 (Z.max d (u64 (n * period c))) |>)
  else mret p.

(** [sendTimingReq] is what the peer of a memory-side port does with a packet.  The packet is
    returned as it is left to the sender if it is refused. *)
Definition recvTimingReq (sendTimingReq : Z -> Pkt.t -> comp t bool) (p : Pkt.t) (cpu_side_port_id : Z) : comp t (bool * Pkt.t) :=
  assert_ (negb (Pkt.isExpressSnoop p));;
  r ← lift (getAddrRange p);
  mem_side_port_id ← findPort r;
  free ← at_reqLayer mem_side_port_id _ (Layer.tryTiming cpu_side_port_id);
  if negb free then mret (false, p)
  else
    let old_header_delay := Pkt.headerDelay p in
    let xbar_delay := u64 (u64 (frontendLatency c + forwardLatency c) * period c) in
    p ← calcPacketTiming p xbar_delay;
    edge ← clockEdge 1;
    let packetFinishTime := tadd edge (Pkt.payloadDelay p) in
    let expect_response := MemCmd.needsResponse (Pkt.cmd p) && negb (Pkt.cacheResponding p) in
    success ← sendTimingReq mem_side_port_id p;
    if negb success then
      edge ← clockEdge 1;
      at_reqLayer mem_side_port_id _ (Layer.failedTiming now cpu_side_port_id edge);;
      mret (false, p <| Pkt.headerDelay := old_header_delay |>)
    else
      when_ expect_response
        (s ← get;
         assert_ (bool_decide (routeTo s !! Request.ptr (Pkt.req p) = None));;
         modify (fun s => s <| routeTo ::= fun m => <[Request.ptr (Pkt.req p) := cpu_side_port_id]> m |>));;
      modify (fun s => s <| accepted ::= fun l => l ++ [(cpu_side_port_id, mem_side_port_id, (now, p))] |>);;
      at_reqLayer mem_side_port_id _ (Layer.succeededTiming now packetFinishTime);;
      mret (true, p).
Definition recvTimingResp (p : Pkt.t) (mem_side_port_id : Z) : comp t bool :=
  s ← get;
  match routeTo s !! Request.ptr (Pkt.req p) with
  | None => lift (Fault AssertFail)
  | Some cpu_side_port_id =>
      assert_ (negb (cpu_side_port_id =? InvalidPortID));; assert_ (u64 cpu_side_port_id <? zlen (respLayers s));;
      free ← at_respLayer cpu_side_port_id _ (Layer.tryTiming mem_side_port_id);
      if negb free then mret false
      else
        let xbar_delay := u64 (responseLatency c * period c) in
        p ← calcPacketTiming p xbar_delay;
        edge ← clockEdge 1;
        let packetFinishTime := tadd edge (Pkt.payloadDelay p) in
        let latency := Pkt.headerDelay p in
        let p := p <| Pkt.headerDelay := 0 |> in
        at_cpuSidePort cpu_side_port_id _ (PacketQueue.schedSendTiming false now p (tadd now latency));;
        modify (fun s => s <| routeTo ::= delete (Request.ptr (Pkt.req p)) |>
          <| returned ::= fun l => l ++ [(cpu_side_port_id, mem_side_port_id, (tadd now latency, p))] |>);;
        at_respLayer cpu_side_port_id _ (Layer.succeededTiming now packetFinishTime);;
        mret true
  end.
Definition recvReqRetry (sendRetryReq : Z -> comp t unit) (mem_side_port_id : Z) : comp t unit :=
  Layer.recvRetry (at_reqLayer mem_side_port_id) (clockEdge 0) sendRetryReq now.
Definition release_req (sendRetryReq : Z -> comp t unit) (mem_side_port_id : Z) : comp t unit :=
  Layer.process (at_reqLayer mem_side_port_id) (clockEdge 0) sendRetryReq now.
Definition release_resp (sendRetryResp : Z -> comp t unit) (cpu_side_port_id : Z) : comp t unit :=
  Layer.process (at_respLayer cpu_side_port_id) (clockEdge 0) sendRetryResp now.

(** The queue of a CPU-side port; [sendTimingResp] is what its peer does with a response. *)
Definition sendDeferredPacket (sendTimingResp : Pkt.t -> comp t bool) (id : Z) : comp t unit :=
  dp ← at_cpuSidePort id _ (PacketQueue.take now);
  ok ← sendTimingResp dp.2;
  at_cpuSidePort id _ (PacketQueue.finish now ok dp).
Definition recvRespRetry (sendTimingResp : Pkt.t -> comp t bool) (id : Z) : comp t unit :=
  at_cpuSidePort id _ PacketQueue.retry_start;; sendDeferredPacket sendTimingResp id.
Definition processSendEvent (sendTimingResp : Pkt.t -> comp t bool) (id : Z) : comp t unit :=
  at_cpuSidePort id _ PacketQueue.event_start;; sendDeferredPacket sendTimingResp id.
End Now.

(** ** Atomic and functional accesses *)

Definition recvAtomic (sendAtomic : Z -> Pkt.t -> comp t (Z * Pkt.t)) (p : Pkt.t) : comp t (Z * Pkt.t) :=
  r ← lift (getAddrRange p);
  mem_side_port_id ← findPort r;
  '(response_latency, p) ← sendAtomic mem_side_port_id p;
  mret (response_latency, p <| Pkt.payloadDelay := u32 response_latency |>).
(** The queues of the CPU-side ports up to the one that satisfies the access. *)
Fixpoint try_ports (p : Pkt.t) (n : nat) (id : Z) : comp t (bool * Pkt.t) :=
  match n with
  | O => mret (false, p)
  | S n' =>
      '(found, p) ← at_cpuSidePort id _ (PacketQueue.trySatisfyFunctional p);
      if found : bool then mret (true, p) else try_ports p n' (id + 1)
  end.
(** [None]: the packet is answered; otherwise the port it is forwarded to. *)
Definition recvFunctional (p : Pkt.t) : comp t (option Z * Pkt.t) :=
  s ← get;
  '(found, p) ← try_ports p (length (cpuSidePorts s)) 0;
  if found : bool then
    if MemCmd.needsResponse (Pkt.cmd p) then p ← lift (Pkt.makeResponse p); mret (None, p) else mret (None, p)
  else
    r ← lift (getAddrRange p);
    dest_id ← findPort r;
    mret (Some dest_id, p).
End Code.
End XBar.
