(* ===== verification/XBarRanges.v ===== *)
(** What the crossbar learns of the ranges of its memory-side ports: the ranges each port has
    announced last, and the default port its range, or a fatal error if they do not agree; once
    all have been announced, an address goes to the port whose range has it, or to the default
    port. *)
From S2P Require Import Prelude Packet PacketQueue Clocked AddrRange AddrRangeMap AddrRangeMapSpec Layer XBar.
From stdpp Require Import gmap list sorting.
Open Scope Z_scope.
Import XBar RangeMapSpec.
Import AddrRangeMap(key, val, node, tree).

Module XBarRanges.
Section Ranges.
(** The ranges are not interleaved; [dport] is the default port, if there is one. *)
Context (c : Config) (dport : Z).
Abbreviation pair := (AddrRange.t * Z)%type.
Definition plain (r : AddrRange.t) : Prop := range_ok r /\ AddrRange.interleaved r = false.

(** ** The specification *)

(** The ranges of a port added, unless one intersects another. *)
Fixpoint add_ranges (id : Z) (rs : list AddrRange.t) (l : list pair) : option (list pair) :=
  match rs with
  | [] => Some l
  | r :: rs' => if existsb (fun x : pair => meets r x.1) l then None else add_ranges id rs' ((r, id) :: l)
  end.
(** The ranges of the ports, and the default range. *)
Definition known : Type := list pair * AddrRange.t.
(** A port announces its ranges again.  The default port has one range if that is to be used,
    and otherwise takes the rest of the addresses, whatever it announces. *)
Definition announce (id : Z) (rs : list AddrRange.t) (x : known) : option known :=
  if id =? dport then (if useDefaultRange c then match rs with [r] => Some (x.1, r) | _ => None end else Some x)
  else (fun l => (l, x.2)) <$> add_ranges id rs (filter (fun y : pair => y.2 <> id) x.1).
(** A range is inside the default range or apart from it. *)
Definition fits (d r : AddrRange.t) : bool := negb (meets r d) || covers r d.
Definition agreed (x : known) : bool := negb (useDefaultRange c) || forallb (fun y : pair => fits x.2 y.1) x.1.
(** What is passed on of the ranges [k]. *)
Definition outside (d : AddrRange.t) (k : list AddrRange.t) : list AddrRange.t := filter (fun r => useDefaultRange c && covers r d = false) k.
Definition passed_on (d : AddrRange.t) (k : list AddrRange.t) : list AddrRange.t := (if useDefaultRange c then [d] else []) ++ outside d k.

Lemma plain_agreeable q r : plain q -> plain r -> agreeable q r.
Proof. intros [_ H1] [_ H2]. right. by left. Qed.
Lemma add_ranges_plain id rs l l' : Forall plain rs -> Forall (fun x : pair => plain x.1) l -> add_ranges id rs l = Some l' -> Forall (fun x : pair => plain x.1) l'.
Proof.
  intros Hrs. revert l. induction Hrs as [|r rs Hr Hrs IH]; intros l Hl; cbn [add_ranges]; [by intros [= <-]|].
  destruct (existsb _ l); [done|]. apply IH. by constructor.
Qed.

(** ** The tree *)

Lemma filter_on {A} (P Q : A -> Prop) (DP : forall x, Decision (P x)) (DQ : forall x, Decision (Q x)) (l : list A) :
  (forall x, x ∈ l -> P x <-> Q x) -> filter P l = filter Q l.
Proof.
  intros Hon. induction l as [|x l IH]; [done|]. rewrite !filter_cons, IH by (intros y Hy; apply Hon; by right).
  pose proof (Hon x (list_elem_of_here x l)). destruct (decide (P x)), (decide (Q x)); done || tauto.
Qed.
Lemma filter_all {A} (P : A -> Prop) (DP : forall x, Decision (P x)) (l : list A) : (forall x, x ∈ l -> P x) -> filter P l = l.
Proof.
  intros Hall. induction l as [|x l IH]; [done|]. rewrite filter_cons_True by (apply Hall; left). f_equal. apply IH. intros y Hy. apply Hall. by right.
Qed.
Lemma Forall_kept {A} (P Q : A -> Prop) (DP : forall x, Decision (P x)) (l : list A) : Forall Q l -> Forall Q (filter P l).
Proof. intros H. induction H as [|x l Hx Hl IH]; [by constructor|]. rewrite filter_cons. destruct (decide _); [by constructor|done]. Qed.
Lemma Forall_in {A} (P : A -> Prop) (l : list A) x : Forall P l -> x ∈ l -> P x.
Proof. induction 1 as [|y l Hy Hl IH]; [by intros ?%elem_of_nil|]. intros [->|?]%elem_of_cons; auto. Qed.
Lemma zoom_map s A (m : comp (AddrRangeMap.t Z) A) (Q : A -> t -> Prop) : wp m (portMap s) (fun a k => Q a (s <| portMap := k |>)) -> wp (at_portMap A m) s Q.
Proof. intros H. unfold at_portMap. by wp_step. Qed.
Lemma portMap_twice s k k' : s <| portMap := k |> <| portMap := k' |> = s <| portMap := k' |>.
Proof. done. Qed.
Lemma portMap_same s : s <| portMap := portMap s |> = s.
Proof. by destruct s. Qed.
(** Is [e] one of the entries of [id] in [k]? *)
Definition named (id : Z) (k : list (AddrRangeMap.entry Z)) (e : AddrRangeMap.entry Z) : Prop := exists x, x ∈ k /\ val x = id /\ node x = node e.
#[local] Instance named_dec id k e : Decision (named id k e).
Proof.
  refine (cast_if (decide (Exists (fun x => val x = id /\ node x = node e) k))); unfold named.
  - abstract (apply Exists_exists in e0 as (x & ? & ? & ?); eauto).
  - abstract (intros (x & ? & ? & ?); apply n, Exists_exists; eauto).
Defined.
Lemma erase_port_wp id k : forall s, ok (portMap s) ->
  wp (erase_port id k) s (fun _ s' => exists m, s' = s <| portMap := m |> /\ ok m /\ tree m = filter (fun e => ~ named id k e) (tree (portMap s))).
Proof.
  induction k as [|x k IH]; intros s H; cbn [erase_port].
  { wp_step. exists (portMap s). split; [by rewrite portMap_same|]. split; [done|]. symmetry. apply filter_all. intros e _ (y & []%elem_of_nil & _). }
  assert (forall s1 m, s1 = s <| portMap := m |> -> ok m -> tree m = filter (fun e => ~ (val x = id /\ node x = node e)) (tree (portMap s)) ->
    wp (erase_port id k) s1 (fun _ s' => exists m, s' = s <| portMap := m |> /\ ok m /\ tree m = filter (fun e => ~ named id (x :: k) e) (tree (portMap s)))) as Hk.
  { intros s1 m -> Hm Et. eapply wp_mono; [by apply IH|]. intros [] s' (m' & -> & Hm' & Et'). exists m'. split; [done|]. split; [done|].
    rewrite Et'. change (tree (portMap (s <| portMap := m |>))) with (tree m). rewrite Et, list_filter_filter. apply list_filter_iff. intros e. unfold named. split.
    - intros [H1 H2] (y & [->|Hy]%elem_of_cons & Hv & Hn); [by apply H2|]. apply H1. by exists y.
    - intros Hne. split; [intros (y & Hy & Hv & Hn); apply Hne; exists y; split; [by right|done]|]. intros [Hv Hn]. apply Hne. exists x. split; [left|done]. }
  wp_step. apply wp_when; intros E.
  - apply Z.eqb_eq in E. apply zoom_map. eapply wp_mono; [by apply erase_wp|]. intros [] m [Hm Et]. eapply Hk; [done|done|]. rewrite Et.
    apply list_filter_iff. intros e. split; [intros H1 [_ H2]; congruence|]. intros H1 H2. by apply H1.
  - apply Z.eqb_neq in E. eapply Hk; [by rewrite portMap_same|done|]. symmetry. apply filter_all. by intros e _ [? _].
Qed.
Lemma forget_wp id s (l : list pair) : represents (portMap s) l ->
  wp (erase_port id (tree (portMap s))) s (fun _ s' => exists m, s' = s <| portMap := m |> /\ represents m (filter (fun x : pair => x.2 <> id) l)).
Proof.
  intros [H Hp]. eapply wp_mono; [by apply erase_port_wp|]. intros [] s' (m & -> & Hm & Et). exists m. split; [done|]. split; [done|].
  rewrite <- Hp. unfold pairs. rewrite Et. rewrite (filter_on _ (fun e => val e <> id) _ _ (tree (portMap s))).
  - clear. induction (tree (portMap s)) as [|e k IH]; [done|]. cbn [fmap list_fmap]. rewrite !filter_cons. cbn [snd].
    destruct (decide (val e <> id)); cbn [fmap list_fmap]; by rewrite IH.
  - intros e He. split.
    + intros Hn Hv. apply Hn. by exists e.
    + intros Hv (x & Hx & Hvx & Hn). by rewrite (node_unique _ x e H Hx He Hn) in Hvx.
Qed.
(** The ranges of a port, each inserted unless it intersects. *)
Lemma insert_ranges_spec id rs : Forall plain rs -> forall s l, represents (portMap s) l -> Forall (fun x : pair => plain x.1) l ->
  match add_ranges id rs l with
  | Some l' => wp (insert_ranges id rs) s (fun _ s' => exists m, s' = s <| portMap := m |> /\ represents m l')
  | None => insert_ranges id rs s = Fault Panic
  end.
Proof.
  induction 1 as [|r rs Hr Hrs IH]; intros s l H Hl; cbn [add_ranges insert_ranges].
  { wp_step. exists (portMap s). by rewrite portMap_same. }
  assert (forall x : pair, x ∈ l -> agreeable r x.1) as Ha by (intros x Hx; apply plain_agreeable; [done|by apply (Forall_in _ _ _ Hl)]).
  pose proof (add_wp map_cache r id (portMap s) l H (proj1 Hr) Ha) as Hw. destruct (wp_inv _ _ _ Hw) as (o & m & E & Ho).
  assert (at_portMap _ (AddrRangeMap.insert map_cache r id) s = Ok (o, s <| portMap := m |>)) as E1 by (unfold at_portMap, zoom; by rewrite E).
  unfold mbind at 1 2, comp_bind. destruct (existsb (fun x : pair => meets r x.1) l) eqn:Em.
  - rewrite E1. by subst o.
  - destruct Ho as [Ho Hm]. destruct o as [e|]; [|done]. specialize (IH (s <| portMap := m |>) ((r, id) :: l) Hm ltac:(by constructor)).
    destruct (add_ranges id rs ((r, id) :: l)) as [l'|]; [|by rewrite E1]. unfold wp. rewrite E1. exact IH.
Qed.

(** ** The ranges passed on *)

Lemma plain_query r : plain r -> query_ok r.
Proof.
  intros [H Hi]. pose proof (ro_span _ H). split; [|by apply (ro_plain _ H)|done].
  unfold AddrRange.interleaved, zlen in Hi. apply Z.ltb_ge in Hi. destruct (AddrRange.masks r); [done|cbn in Hi; lia].
Qed.
Lemma plain_meets q r : plain q -> plain r -> AddrRange.intersects q r = Ok (meets q r).
Proof. intros Hq Hr. apply meets_spec; [by apply plain_agreeable|apply Hq|apply Hr]. Qed.
Lemma keep_range_wp r s : plain r -> wp (keep_range c r) s (fun _ s' => s' = s <| xbarRanges ::= fun l => l ++ outside (defaultRange s) [r] |>).
Proof.
  intros Hr. unfold keep_range, outside. wp_step. wp_step. wp_step. apply (wp_mono _ _ (fun b s' => s' = s /\ b = useDefaultRange c && covers r (defaultRange s))).
  - destruct (useDefaultRange c); [|by wp_step]. apply wp_lift. by rewrite (covers_eq _ _ (plain_query r Hr)).
  - intros b s' [-> ->]. cbn [filter list_filter]. destruct (useDefaultRange c && covers r (defaultRange s)) eqn:E; cbn [negb when_].
    + wp_step. destruct s. unfold over. cbn. by rewrite app_nil_r.
    + by wp_step.
Qed.
Lemma aggregate_wp l : Forall plain l -> forall s, wp (aggregate c [] l) s (fun _ s' => s' = s <| xbarRanges ::= fun k => k ++ outside (defaultRange s) l |>).
Proof.
  induction 1 as [|r l Hr Hl IH]; intros s; cbn [aggregate].
  - cbn [keep_merged]. wp_step. destruct s. unfold over, outside. cbn. by rewrite app_nil_r.
  - rewrite (proj2 Hr). wp_step. eapply wp_mono; [by apply keep_range_wp|]. intros [] s1 ->. eapply wp_mono; [apply IH|]. intros [] s2 ->.
    change (defaultRange (over xbarRanges _ s)) with (defaultRange s). change (r :: l) with ([r] ++ l). unfold outside. rewrite filter_app.
    unfold over. cbn [xbarRanges]. by rewrite <- app_assoc.
Qed.
Lemma check_default_spec s l : plain (defaultRange s) -> Forall plain l ->
  check_default l s = if forallb (fits (defaultRange s)) l then Ok (tt, s) else Fault Panic.
Proof.
  intros Hd. induction 1 as [|r l Hr Hl IH]; cbn [check_default forallb]; [done|]. unfold mbind, comp_bind, get, lift in *.
  rewrite (plain_meets _ _ Hr Hd). unfold fits at 1. destruct (meets r (defaultRange s)); cbn [negb orb andb]; [|exact IH].
  rewrite (covers_eq _ _ (plain_query r Hr)). destruct (covers r (defaultRange s)); [exact IH|done].
Qed.
Lemma fits_self d : plain d -> fits d d = true.
Proof.
  intros H. unfold fits. assert (covers d d = true) as ->; [|apply orb_true_r]. unfold covers, AddrRange.isSubset. rewrite (proj2 H).
  by rewrite !Z.leb_refl.
Qed.
(** The ranges inside the default range, which are not passed on, need no check. *)
Lemma fits_outside d k : useDefaultRange c = true -> forallb (fits d) (outside d k) = forallb (fits d) k.
Proof.
  intros Hu. unfold outside. rewrite Hu. induction k as [|r k IH]; [done|]. rewrite filter_cons. cbn [andb]. destruct (decide (covers r d = false)) as [E|E].
  - cbn [forallb]. by rewrite <- IH.
  - apply not_false_iff_true in E. cbn [forallb]. unfold fits at 2. rewrite E, orb_true_r. exact IH.
Qed.
Lemma forallb_perm {A} (f : A -> bool) (k l : list A) : k ≡ₚ l -> forallb f k = forallb f l.
Proof. induction 1 as [|x k l _ IH|x y k|k l m _ IH1 _ IH2]; cbn; [done|by rewrite IH|by destruct (f x), (f y)|congruence]. Qed.

(** ** A range change *)

(** [x] is what has been announced last, [got] the ports that have announced theirs. *)
Record learnt (x : known) (got : list bool) (s : t) : Prop := {
  ln_map : represents (portMap s) x.1;
  ln_plain : Forall (fun y : pair => plain y.1) x.1;
  ln_got : gotAddrRanges s = got;
  ln_all : gotAllAddrRanges s = forallb id got;
  ln_default : defaultPortID s = dport;
  ln_range : defaultRange s = x.2;
  ln_given : useDefaultRange c = true -> 0 <= dport < zlen got /\ (got !! dport = Some true -> plain x.2);
  ln_ranges : forallb id got = true -> agreed x = true /\ exists k, xbarRanges s = passed_on x.2 k /\ k ≡ₚ fst <$> x.1 /\ StronglySorted lt k }.
(** What a range change leaves as it was. *)
Definition same_traffic (s s' : t) : Prop :=
  reqLayers s' = reqLayers s /\ respLayers s' = respLayers s /\ cpuSidePorts s' = cpuSidePorts s /\ clock s' = clock s /\ routeTo s' = routeTo s /\
  begun s' = begun s /\ stalledReq s' = stalledReq s /\ stalledResp s' = stalledResp s /\ refusing s' = refusing s /\ accepted s' = accepted s /\
  returned s' = returned s /\ told s' = told s.
Lemma got_all_insert (got : list bool) (i : Z) : forallb id got = true -> <[i := true]> got = got.
Proof.
  intros H. unfold insert, zlist_insert. destruct (i <? 0); [done|]. destruct (got !! Z.to_nat i) as [b|] eqn:E; [|by apply list_insert_ge, lookup_ge_None].
  apply list_insert_id. rewrite forallb_forall in H. rewrite E. f_equal. apply (H b). by eapply list_elem_of_In, list_elem_of_lookup_2.
Qed.
Lemma got_range_wp mem s got : gotAddrRanges s = got -> gotAllAddrRanges s = forallb id got -> 0 <= mem < zlen got ->
  got_range mem s = Ok (tt, s <| gotAddrRanges := <[mem := true]> got |> <| gotAllAddrRanges := forallb id (<[mem := true]> got) |>).
Proof.
  intros Hg Ha Hm. unfold got_range, mbind, comp_bind, get, modify, lift, when_, awrite. rewrite Hg, Ha. destruct (Z.leb_spec 0 mem); [|lia].
  destruct (Z.ltb_spec mem (zlen got)); [|lia]. cbn [andb]. destruct (forallb id got) eqn:E; cbn [negb]; [|done].
  rewrite got_all_insert, E by done. unfold mret, comp_ret, over. cbn. by rewrite Ha.
Qed.
Lemma all_got (got : list bool) i : forallb id got = true -> 0 <= i < zlen got -> got !! i = Some true.
Proof.
  intros H Hi. destruct (zlookup_is_Some got i Hi) as [b E]. rewrite E. f_equal. rewrite forallb_forall in H. apply (H b).
  by eapply list_elem_of_In, elem_of_zlookup.
Qed.
Lemma publish_spec x s : represents (portMap s) x.1 -> Forall (fun y : pair => plain y.1) x.1 -> defaultRange s = x.2 ->
  (useDefaultRange c = true -> plain x.2 /\ gotAddrRanges s !! defaultPortID s = Some true) ->
  if agreed x then wp (publish_ranges c) s (fun _ s' => exists n k, s' = s <| xbarRanges := passed_on x.2 k |> <| changes := n |> /\ k ≡ₚ fst <$> x.1 /\ StronglySorted lt k)
  else publish_ranges c s = Fault Panic.
Proof.
  intros [H Hp] Hl Hr Hd. set (k := key <$> tree (portMap s)). assert (k ≡ₚ fst <$> x.1) as Hk.
  { unfold k. rewrite <- Hp. unfold pairs. by rewrite <- list_fmap_compose. }
  assert (Forall plain k) as Hpk by (rewrite Hk; by apply Forall_fmap).
  assert (StronglySorted lt k) as Hs.
  { unfold k. pose proof (ok_sorted _ H) as Hs. clear -Hs. induction Hs as [|e k Hs IH Hf]; cbn; [constructor|]. constructor; [done|]. by apply Forall_fmap. }
  set (s1 := s <| xbarRanges := passed_on x.2 k |>).
  assert (forall (m : comp t unit), (s0 ← get; when_ (useDefaultRange c) (got ← lift (aread (gotAddrRanges s0) (defaultPortID s0));
     if got : bool then modify (fun s => s <| xbarRanges ::= fun l => l ++ [defaultRange s] |>) else lift (Fault Panic));; aggregate c [] (key <$> tree (portMap s0));; m)
       (s <| xbarRanges := [] |>) = m s1) as Eagg.
  { intros m. unfold mbind at 1, comp_bind at 1, get at 1.
    assert (exists s0, (when_ (useDefaultRange c) (got ← lift (aread (gotAddrRanges s) (defaultPortID s));
      if got : bool then modify (fun s1 => s1 <| xbarRanges ::= fun l => l ++ [defaultRange s1] |>) else lift (Fault Panic))) (s <| xbarRanges := [] |>) = Ok (tt, s0) /\
      s0 = s <| xbarRanges := (if useDefaultRange c then [x.2] else []) |>) as (s0 & E0 & ->).
    { destruct (useDefaultRange c); [|by eexists]. destruct (Hd eq_refl) as [_ Hg]. unfold when_, mbind, comp_bind, lift, aread.
      rewrite Hg. eexists. split; [done|]. by rewrite <- Hr. }
    unfold mbind at 1, comp_bind at 1. change (gotAddrRanges (over xbarRanges _ s)) with (gotAddrRanges s). change (defaultPortID (over xbarRanges _ s)) with (defaultPortID s).
    change (defaultRange (over xbarRanges _ s)) with (defaultRange s). rewrite E0.
    destruct (wp_inv _ _ _ (aggregate_wp k Hpk (s <| xbarRanges := (if useDefaultRange c then [x.2] else []) |>))) as ([] & s2 & E2 & ->).
    unfold mbind, comp_bind. change (tree (portMap (over xbarRanges _ s))) with (tree (portMap s)). fold k. rewrite E2. unfold s1, passed_on.
    change (defaultRange (over xbarRanges _ s)) with (defaultRange s). by rewrite Hr. }
  assert (publish_ranges c s = (s ← get; when_ (useDefaultRange c) (check_default (xbarRanges s));; modify (fun s => s <| changes ::= fun n => n + zlen (cpuSidePorts s) |>)) s1) as Epub
    by exact (Eagg _).
  assert (useDefaultRange c = true -> forallb (fits x.2) (passed_on x.2 k) = forallb (fun y : pair => fits x.2 y.1) x.1) as Hfit.
  { intros Hu. unfold passed_on. rewrite Hu. cbn [app forallb]. rewrite fits_self by (by apply Hd). cbn [andb]. rewrite fits_outside, (forallb_perm _ _ _ Hk) by done.
    clear. induction x.1 as [|y l IH]; [done|]. cbn. by rewrite IH. }
  assert (when_ (useDefaultRange c) (check_default (xbarRanges s1)) s1 = if agreed x then Ok (tt, s1) else Fault Panic) as Echk.
  { unfold agreed. destruct (useDefaultRange c) eqn:Eu; [|done]. cbn [when_ negb orb]. rewrite check_default_spec.
    - change (defaultRange s1) with (defaultRange s). rewrite Hr. change (xbarRanges s1) with (passed_on x.2 k). by rewrite Hfit.
    - change (defaultRange s1) with (defaultRange s). rewrite Hr. by apply Hd.
    - change (xbarRanges s1) with (passed_on x.2 k). unfold passed_on. rewrite Eu. constructor; [by apply Hd|]. unfold outside. by apply Forall_kept. }
  rewrite Epub. unfold wp. rewrite Epub. unfold mbind at 1 2, comp_bind, get. unfold mbind, comp_bind. rewrite Echk. destruct (agreed x); [|done].
  eexists _, k. done.
Qed.
Lemma update_spec mem rs x s : represents (portMap s) x.1 -> Forall (fun y : pair => plain y.1) x.1 -> defaultPortID s = dport -> defaultRange s = x.2 -> Forall plain rs ->
  match announce mem rs x with
  | Some x' => exists m, update_ranges c mem rs s = Ok (tt, s <| portMap := m |> <| defaultRange := x'.2 |>) /\ represents m x'.1 /\ Forall (fun y : pair => plain y.1) x'.1
  | None => update_ranges c mem rs s = Fault Panic
  end.
Proof.
  intros Hm Hpl Hdp Hr Hrs. unfold announce.
  assert (update_ranges c mem rs s = (if mem =? dport then when_ (useDefaultRange c) match rs with [r] => modify (fun s => s <| defaultRange := r |>) | _ => lift (Fault Panic) end
    else erase_port mem (tree (portMap s));; insert_ranges mem rs) s) as -> by (by rewrite <- Hdp).
  destruct (Z.eqb_spec mem dport) as [->|Hne].
  - destruct (useDefaultRange c); cbn [when_].
    + destruct rs as [|r [|? ?]]; [done| |done]. exists (portMap s). split; [by destruct s|done].
    + exists (portMap s). split; [|done]. rewrite <- Hr. by destruct s.
  - set (kept := filter (fun y : pair => y.2 <> mem) x.1).
    assert (Forall (fun y : pair => plain y.1) kept) as Hk by (unfold kept; by apply Forall_kept).
    destruct (wp_inv _ _ _ (forget_wp mem s x.1 Hm)) as ([] & s2 & E2 & m & -> & Hm2). unfold mbind, comp_bind. rewrite E2.
    pose proof (insert_ranges_spec mem rs Hrs (s <| portMap := m |>) kept Hm2 Hk) as Hi. destruct (add_ranges mem rs kept) as [l'|] eqn:El; cbn [fmap option_fmap option_map]; [|exact Hi].
    destruct (wp_inv _ _ _ Hi) as ([] & s3 & E3 & m3 & -> & Hm3). exists m3. cbn [fst snd]. split; [|split; [done|by eapply add_ranges_plain]].
    rewrite E3. rewrite <- Hr. by destruct s.
Qed.
(** What is known after a change, or the fatal error. *)
Definition change_spec (mem : Z) (rs : list AddrRange.t) (x : known) (got : list bool) : option known :=
  match announce mem rs x with
  | Some x' => if forallb id (<[mem := true]> got) && negb (agreed x') then None else Some x'
  | None => None
  end.
Lemma announce_plain mem rs x x' : announce mem rs x = Some x' -> Forall plain rs -> useDefaultRange c = true ->
  (mem = dport -> plain x'.2) /\ (mem <> dport -> x'.2 = x.2).
Proof.
  unfold announce. intros E Hrs Hu. rewrite Hu in E. destruct (Z.eqb_spec mem dport) as [->|Hne].
  - split; [|done]. intros _. destruct rs as [|r [|? ?]]; [done| |done]. injection E as <-. by apply Forall_inv in Hrs.
  - split; [done|]. intros _. destruct (add_ranges _ _ _); [|done]. by injection E as <-.
Qed.
Lemma recvRangeChange_spec mem rs x got s : learnt x got s -> Forall plain rs -> 0 <= mem < zlen got ->
  match change_spec mem rs x got with
  | Some x' => wp (recvRangeChange c mem rs) s (fun _ s' => learnt x' (<[mem := true]> got) s' /\ same_traffic s s')
  | None => recvRangeChange c mem rs s = Fault Panic
  end.
Proof.
  intros [Hm Hpl Hg Ha Hdp Hr Hgiv Hran] Hrs Hmem. pose proof (got_range_wp mem s got Hg Ha Hmem) as Eg. set (got' := <[mem := true]> got) in *. set (s1 := over gotAllAddrRanges _ _) in Eg.
  pose proof (update_spec mem rs x s1 Hm Hpl Hdp Hr Hrs) as Hu. unfold change_spec. fold got'. destruct (announce mem rs x) as [x'|] eqn:Ex.
  2: { unfold recvRangeChange, mbind at 1 2, comp_bind. rewrite Eg. unfold mbind, comp_bind. by rewrite Hu. }
  destruct Hu as (m & Eu & Hm' & Hpl'). set (s2 := s1 <| portMap := m |> <| defaultRange := x'.2 |>) in Eu.
  assert (useDefaultRange c = true -> 0 <= dport < zlen got' /\ (got' !! dport = Some true -> plain x'.2)) as Hgiv'.
  { intros Eu'. destruct (Hgiv Eu') as [Hb Hp]. unfold got'. rewrite zlen_insert. split; [done|]. intros Hgot. destruct (announce_plain mem rs x x' Ex Hrs Eu') as [H1 H2].
    destruct (decide (mem = dport)) as [E|E]; [by apply H1|]. rewrite H2 by done. apply Hp. by rewrite zlookup_insert_ne in Hgot by done. }
  assert (recvRangeChange c mem rs s = when_ (forallb id got') (publish_ranges c) s2) as Er.
  { unfold recvRangeChange, mbind at 1 2, comp_bind. rewrite Eg. unfold mbind, comp_bind, get. rewrite Eu. done. }
  destruct (forallb id got') eqn:Eall; cbn [andb when_] in *.
  - pose proof (publish_spec x' s2 Hm' Hpl' eq_refl) as Hpub. assert (useDefaultRange c = true -> plain x'.2 /\ gotAddrRanges s2 !! defaultPortID s2 = Some true) as Hdef.
    { intros Eu'. destruct (Hgiv' Eu') as [Hb Hp]. change (gotAddrRanges s2) with got'. change (defaultPortID s2) with (defaultPortID s). rewrite Hdp.
      pose proof (all_got got' dport Eall Hb) as Ed. split; [by apply Hp|done]. }
    specialize (Hpub Hdef). destruct (agreed x') eqn:Eag; cbn [negb]; [|by rewrite Er]. unfold wp at 1. rewrite Er.
    eapply wp_mono; [exact Hpub|]. intros [] s3 (n & k & -> & Hk1 & Hk2). split; [|by split_and!]. split; try done. intros _. split; [done|]. by exists k.
  - unfold wp. rewrite Er. split; [|by split_and!]. split; try done. congruence.
Qed.

(** ** Runs of range changes *)

Fixpoint learn (ops : list (Z * list AddrRange.t)) : comp t unit :=
  match ops with [] => mret tt | (mem, rs) :: ops' => recvRangeChange c mem rs;; learn ops' end.
Fixpoint learn_spec (ops : list (Z * list AddrRange.t)) (x : known) (got : list bool) : option (known * list bool) :=
  match ops with
  | [] => Some (x, got)
  | (mem, rs) :: ops' => match change_spec mem rs x got with Some x' => learn_spec ops' x' (<[mem := true]> got) | None => None end
  end.
(** The port for a query: the one whose range covers it, or the default port. *)
Definition owner (q : AddrRange.t) (x : known) : option Z :=
  match List.filter (fun y : pair => covers q y.1) x.1 with
  | y :: _ => Some y.2
  | [] => if useDefaultRange c then (if covers q x.2 then Some dport else None) else if dport =? InvalidPortID then None else Some dport
  end.
Definition legal_change (n : Z) (o : Z * list AddrRange.t) : Prop := 0 <= o.1 < n /\ Forall plain o.2.

Lemma same_traffic_trans s1 s2 s3 : same_traffic s1 s2 -> same_traffic s2 s3 -> same_traffic s1 s3.
Proof. unfold same_traffic. intros (-> & -> & -> & -> & -> & -> & -> & -> & -> & -> & -> & ->). auto. Qed.
Lemma learn_run ops : forall x got s, learnt x got s -> Forall (legal_change (zlen got)) ops ->
  match learn_spec ops x got with
  | Some (x', got') => wp (learn ops) s (fun _ s' => learnt x' got' s' /\ same_traffic s s')
  | None => learn ops s = Fault Panic
  end.
Proof.
  induction ops as [|[mem rs] ops IH]; intros x got s H Hops; cbn [learn learn_spec]; [by wp_step|].
  apply Forall_cons_1 in Hops as [[Hm Hrs] Hops]. pose proof (recvRangeChange_spec mem rs x got s H Hrs Hm) as Hc.
  destruct (change_spec mem rs x got) as [x1|]; [|unfold mbind, comp_bind; by rewrite Hc]. destruct (wp_inv _ _ _ Hc) as ([] & s1 & E & H1 & T1).
  specialize (IH x1 _ s1 H1). rewrite zlen_insert in IH. specialize (IH Hops). destruct (learn_spec ops x1 (<[mem := true]> got)) as [[x2 got2]|].
  - wp_step. eapply wp_ok; [exact E|]. eapply wp_mono; [exact IH|]. intros [] s2 [H2 T2]. split; [done|by eapply same_traffic_trans].
  - unfold mbind, comp_bind. by rewrite E.
Qed.
Lemma findPort_spec q x got s : learnt x got s -> forallb id got = true -> query_ok q ->
  match owner q x with Some j => exists s', findPort c q s = Ok (j, s') | None => findPort c q s = Fault Panic end.
Proof.
  intros H Hall Hq. pose proof (lookup_wp map_cache q (portMap s) x.1 (ln_map _ _ _ H) Hq) as Hw. destruct (wp_inv _ _ _ Hw) as (o & m & E & Eo & _).
  assert (findPort c q s = match o with
    | Some e => Ok (val e, s <| portMap := m |>)
    | None => if useDefaultRange c then (if covers q x.2 then Ok (dport, s <| portMap := m |>) else Fault Panic)
              else if dport =? InvalidPortID then Fault Panic else Ok (dport, s <| portMap := m |>) end) as ->.
  { unfold findPort, mbind, comp_bind, get, assert_, at_portMap, zoom, lift. rewrite (ln_all _ _ _ H), Hall, E. destruct o; [done|].
    change (defaultRange (over portMap _ s)) with (defaultRange s). change (defaultPortID (over portMap _ s)) with (defaultPortID s).
    rewrite (ln_range _ _ _ H), (ln_default _ _ _ H), (covers_eq _ _ Hq). destruct (useDefaultRange c); [by destruct (covers q x.2)|]. by destruct (dport =? InvalidPortID). }
  unfold owner. destruct (List.filter _ x.1) as [|y l]; destruct o as [e|]; try done; cbn in Eo.
  - destruct (useDefaultRange c); [destruct (covers q x.2)|destruct (dport =? InvalidPortID)]; by eauto.
  - injection Eo as ->. by eauto.
Qed.
End Ranges.
(** Before the first change. *)
Definition no_range : AddrRange.t := AddrRange.mkRange 1 0 [] 0.
Definition ports (n : nat) (default_port : bool) : nat := (n + (if default_port then 1 else 0))%nat.
Definition default_id (n : nat) (default_port : bool) : Z := if default_port then Z.of_nat n else InvalidPortID.
Lemma create_learnt c n m b : (0 < ports n b)%nat -> (useDefaultRange c = true -> b = true) ->
  learnt c (default_id n b) ([], no_range) (replicate (ports n b) false) (create n m b).
Proof.
  intros Hn Hu. assert (forallb id (replicate (ports n b) false) = false) as E by (by destruct (ports n b); [lia|]). split; try done.
  - apply create_represents.
  - intros Eu. specialize (Hu Eu). subst b. unfold default_id, ports, zlen. rewrite length_replicate. split; [lia|].
    intros Hl. apply elem_of_zlookup, list_elem_of_In, repeat_spec in Hl || (apply elem_of_zlookup in Hl; apply elem_of_replicate in Hl as [? _]; done).
  - rewrite E. done.
Qed.

(** ** Properties *)

(** C15. A crossbar told any sequence of ranges by its memory-side ports (ranges that are not
    interleaved; a port may change them), with or without a default port, keeps the ranges each
    port announced last, and the range of the default port if that is to be used.  It stops with
    a fatal error exactly if two of the ranges intersect, if a default port whose range is used
    announces any number of ranges but one, or if, once every port has announced, a range is
    neither inside nor apart from the default range that is used.  Once every port has announced, it passes on the
    default range and the ranges not inside it, in order of address; and the port found for a
    range of addresses is the one whose range covers it, or else the default port, if its range
    covers it or its range is not used, with a fatal error if there is none. *)
Theorem ranges_learnt c dport x got s ops : learnt c dport x got s -> Forall (legal_change (zlen got)) ops ->
  match learn_spec c dport ops x got with
  | Some (x', got') => exists s', learn c ops s = Ok (tt, s') /\ learnt c dport x' got' s' /\ same_traffic s s' /\
      (forallb id got' = true -> forall q, query_ok q ->
         match owner c dport q x' with Some j => exists s'', findPort c q s' = Ok (j, s'') | None => findPort c q s' = Fault Panic end)
  | None => learn c ops s = Fault Panic
  end.
Proof.
  intros H Hops. pose proof (learn_run c dport ops x got s H Hops) as Hw. destruct (learn_spec c dport ops x got) as [[x' got']|]; [|done].
  destruct (wp_inv _ _ _ Hw) as ([] & s' & E & H' & T). exists s'. split; [done|]. split; [done|]. split; [done|]. intros Hall q. by eapply findPort_spec.
Qed.

(** Two ports, of which the second moves its range before the first claims what it had; and two
    ports and a default port whose range has theirs inside, and has not when it is announced
    again. *)
Definition demo_config (default_range : bool) : Config := mkConfig 1 1 1 8 default_range 10 1000000.
Definition span (a b : Z) : AddrRange.t := AddrRange.mkRange a b [] 0.
Definition demo_changes : list (Z * list AddrRange.t) := [(1, [span 0 256]); (1, [span 512 768; span 256 512]); (0, [span 0 256])].
Definition default_changes : list (Z * list AddrRange.t) := demo_changes ++ [(2, [span 256 1024])].
Definition demo_ranges : list (AddrRange.t * Z) := [(span 0 256, 0); (span 256 512, 1); (span 512 768, 1)].
Lemma span_plain a b : 0 <= a < b -> b < 2 ^ 64 -> plain (span a b).
Proof. intros Ha Hb. split; [|done]. by split. Qed.
Lemma bytes_query a : 0 <= a < 2 ^ 32 -> forall n, 0 < n < 2 ^ 32 -> query_ok (RangeSize a n).
Proof. intros Ha n Hn. split; [done|done|]. unfold RangeSize. cbn [AddrRange.start AddrRange.end_]. rewrite u64_small by lia. lia. Qed.
Lemma ranges_learnt_witness :
  (exists s, learn (demo_config false) demo_changes (create 2 2 false) = Ok (tt, s) /\
     xbarRanges s = [span 0 256; span 256 512; span 512 768] /\
     (exists s', findPort (demo_config false) (RangeSize 300 8) s = Ok (1, s')) /\ findPort (demo_config false) (RangeSize 768 1) s = Fault Panic) /\
  learn (demo_config false) ((0, [span 16 64]) :: demo_changes) (create 2 2 false) = Fault Panic /\
  (exists s, learn (demo_config true) default_changes (create 2 2 true) = Ok (tt, s) /\
     xbarRanges s = [span 256 1024; span 0 256] /\
     (exists s', findPort (demo_config true) (RangeSize 300 8) s = Ok (1, s')) /\ (exists s', findPort (demo_config true) (RangeSize 768 1) s = Ok (2, s')) /\
     findPort (demo_config true) (RangeSize 1020 8) s = Fault Panic) /\
  learn (demo_config true) (default_changes ++ [(2, [span 128 1024])]) (create 2 2 true) = Fault Panic.
Proof.
  assert (Forall (legal_change 2) ((0, [span 16 64]) :: demo_changes)) as Hl.
  { repeat first [apply Forall_nil_2|apply Forall_cons_2|split; [done|]|apply span_plain; done]. }
  assert (Forall (legal_change 3) (default_changes ++ [(2, [span 128 1024])])) as Hl'.
  { repeat first [apply Forall_nil_2|apply Forall_cons_2|split; [done|]|apply span_plain; done]. }
  pose proof (create_learnt (demo_config false) 2 2 false ltac:(cbn; lia) ltac:(done)) as H0.
  pose proof (create_learnt (demo_config true) 2 2 true ltac:(cbn; lia) ltac:(done)) as H1.
  pose proof (ranges_learnt _ _ _ _ _ _ H0 Hl) as Hf. pose proof (ranges_learnt _ _ _ _ _ _ H1 Hl') as Hf'.
  pose proof (ranges_learnt _ _ _ _ _ _ H0 (Forall_inv_tail Hl)) as H2. pose proof (ranges_learnt _ _ _ _ _ default_changes H1 (proj1 (proj1 (Forall_app _ _ _) Hl'))) as H3.
  assert (learn_spec (demo_config false) (default_id 2 false) demo_changes ([], no_range) [false; false] = Some ((demo_ranges, no_range), [true; true])) as E2 by (vm_compute; reflexivity).
  assert (learn_spec (demo_config true) (default_id 2 true) default_changes ([], no_range) [false; false; false] = Some ((demo_ranges, span 256 1024), [true; true; true])) as E3 by (vm_compute; reflexivity).
  change (replicate (ports 2 false) false) with [false; false] in H2. change (replicate (ports 2 true) false) with [false; false; false] in H3.
  rewrite E2 in H2. rewrite E3 in H3. destruct H2 as (s & E & _ & _ & Hq), H3 as (s' & E' & _ & _ & Hq').
  split; [exists s; split; [exact E|]|split; [exact Hf|split; [exists s'; split; [exact E'|]|exact Hf']]].
  - split; [vm_compute in E; injection E as <-; done|].
    split; [apply (Hq eq_refl (RangeSize 300 8)); apply bytes_query; lia|]. apply (Hq eq_refl (RangeSize 768 1)). apply bytes_query; lia.
  - split; [vm_compute in E'; injection E' as <-; done|]. split; [apply (Hq' eq_refl (RangeSize 300 8)); apply bytes_query; lia|].
    split; [apply (Hq' eq_refl (RangeSize 768 1)); apply bytes_query; lia|]. apply (Hq' eq_refl (RangeSize 1020 8)). apply bytes_query; lia.
Defined.
End XBarRanges.
