(* ===== verification/XBarSpec.v ===== *)
(** What the crossbar promises to its peers: every request goes to the port that has its
    address and every response to the port its request came from, a refused port waits in
    one layer and is told to retry, and no assertion fails as long as the peers keep to the
    protocol. *)
From S2P Require Import Prelude Flags Packet MemCmd Request PacketData PacketQueue PacketQueueSpec Clocked AddrRange AddrRangeMap AddrRangeMapSpec Layer XBar XBarLayer XBarRanges.
From stdpp Require Import gmap list functions.
Open Scope Z_scope.
Import XBar LayerSpec.
Import RangeMapSpec(covers, query_ok, represents, covers_eq, lookup_wp).
Import XBarRanges(ports, default_id, no_range, legal_change, learn, learn_spec, same_traffic, learn_run, create_learnt).

Module XBarSpec.

(** ** The peers *)

(** A call of a peer: a request to a CPU-side port, a response to a memory-side port, or a
    port that calls back after refusing a packet.  [ok] is the answer of the peer the packet
    is offered to, [inside] what happens before the peer returns. *)
#[warnings="-register-all"]
Inductive call :=
| Request (cpu : Z) (p : Pkt.t) (ok : bool) (inside : list call)
| Response (mem : Z) (p : Pkt.t)
| ReqRetry (mem : Z) (inside : list call)
| RespRetry (cpu : Z) (ok : bool) (inside : list call).
Section Calls.
Context (P : call -> Prop).
Context (HRequest : forall cpu p ok l, Forall P l -> P (Request cpu p ok l)) (HResponse : forall mem p, P (Response mem p)).
Context (HReqRetry : forall mem l, Forall P l -> P (ReqRetry mem l)) (HRespRetry : forall cpu ok l, Forall P l -> P (RespRetry cpu ok l)).
Fixpoint call_rect' (x : call) : P x :=
  let all := fix all l : Forall P l := match l with [] => Forall_nil_2 P | y :: l' => Forall_cons_2 P y l' (call_rect' y) (all l') end in
  match x with
  | Request cpu p ok l => HRequest cpu p ok l (all l)
  | Response mem p => HResponse mem p
  | ReqRetry mem l => HReqRetry mem l (all l)
  | RespRetry cpu ok l => HRespRetry cpu ok l (all l)
  end.
End Calls.

Definition expects (p : Pkt.t) : bool := MemCmd.needsResponse (Pkt.cmd p) && negb (Pkt.cacheResponding p).
Definition ptr (p : Pkt.t) : Z := Request.ptr (Pkt.req p).
(** Requests in flight. *)
Definition load (s : t) : Z := Z.of_nat (size (routeTo s)) + zlen (begun s).
(** The protocol: a port that was refused waits to be told, a request is sent once at a time,
    a response answers a request, who refused a packet calls back once; and there are no more
    requests in flight than a queue of responses has room for. *)
Definition permits (s : t) (x : call) : bool :=
  match x with
  | Request cpu p _ _ =>
      bool_decide (cpu ∉ stalledReq s) && bool_decide (cpu ∉ (begun s).*1) && bool_decide (ptr p ∉ (begun s).*2) &&
      bool_decide (routeTo s !! ptr p = None) && forallb (fun q => load s + zlen (PacketQueue.transmitList q) <? 129) (cpuSidePorts s)
  | Response mem p => bool_decide (mem ∉ stalledResp s) && bool_decide (routeTo s !! ptr p <> None)
  | ReqRetry mem _ => bool_decide (mem ∈ refusing s)
  | RespRetry cpu _ _ => match cpuSidePorts s !! cpu with Some q => PacketQueue.waitingOnRetry q | None => false end
  end.

Section Code.
Context (c : Config) (now : Z).
Definition sendRetryReq (inside : comp t unit) (cpu : Z) : comp t unit :=
  modify (fun s => s <| stalledReq ::= without cpu |> <| told ::= fun l => l ++ [cpu] |>);; inside.
Definition sendRetryResp (inside : comp t unit) (mem : Z) : comp t unit := modify (fun s => s <| stalledResp ::= without mem |>);; inside.
Definition sendTimingReq (cpu : Z) (ok : bool) (inside : comp t unit) (mem : Z) (p : Pkt.t) : comp t bool :=
  modify (fun s => s <| begun ::= cons (cpu, ptr p) |>);; inside;; modify (fun s => s <| begun ::= tail |>);;
  when_ (negb ok) (modify (fun s => s <| refusing ::= cons mem |>));; mret ok.
Definition sendTimingResp (ok : bool) (inside : comp t unit) (_ : Pkt.t) : comp t bool := (if ok then inside else mret tt);; mret ok.
Definition request (cpu : Z) (p : Pkt.t) (ok : bool) (inside : comp t unit) : comp t unit :=
  r ← recvTimingReq c now (sendTimingReq cpu ok inside) p cpu;
  when_ (negb r.1) (modify (fun s => s <| stalledReq ::= fun l => l ++ [cpu] |>)).
Definition response (mem : Z) (p : Pkt.t) : comp t unit :=
  r ← recvTimingResp c now p mem; when_ (negb r) (modify (fun s => s <| stalledResp ::= fun l => l ++ [mem] |>)).
Definition reqRetry (mem : Z) (inside : comp t unit) : comp t unit :=
  modify (fun s => s <| refusing ::= without mem |>);; recvReqRetry c now (sendRetryReq inside) mem.
(** A peer keeps to the protocol: a call that it does not permit is not made. *)
Fixpoint perform (x : call) : comp t unit :=
  let all := fix all l := match l with [] => mret tt | y :: l' => perform y;; all l' end in
  s ← get;
  when_ (permits s x)
    match x with
    | Request cpu p ok inside => request cpu p ok (all inside)
    | Response mem p => response mem p
    | ReqRetry mem inside => reqRetry mem (all inside)
    | RespRetry cpu ok inside => recvRespRetry now (sendTimingResp ok (all inside)) cpu
    end.
Fixpoint performs (l : list call) : comp t unit := match l with [] => mret tt | x :: l' => perform x;; performs l' end.

(** A step of a run: a call, the release of a layer, or the send event of a CPU-side port. *)
Inductive step :=
| Call (x : call)
| ReleaseReq (mem : Z) (inside : list call)
| ReleaseResp (cpu : Z) (inside : list call)
| SendEvent (cpu : Z) (ok : bool) (inside : list call).
Definition exec (st : step) : comp t unit :=
  match st with
  | Call x => perform x
  | ReleaseReq mem inside => release_req c now (sendRetryReq (performs inside)) mem
  | ReleaseResp cpu inside => release_resp c now (sendRetryResp (performs inside)) cpu
  | SendEvent cpu ok inside => processSendEvent now (sendTimingResp ok (performs inside)) cpu
  end.
End Code.

(** ** The invariant *)

Section Invariant.
(** The numbers of ports on the two sides, the ranges of the memory-side ports, and the
    default port and range. *)
Context (c : Config) (nc nm : Z) (ranges : list (AddrRange.t * Z)) (dport : Z) (drange : AddrRange.t).
Implicit Types (now : Z) (s : t).

Record config_ok : Prop := {
  co_period : 0 < period c; co_width : 0 < width c; co_us : us c < 2 ^ 32;
  co_front : 0 <= frontendLatency c; co_forward : 0 <= forwardLatency c; co_resp : 0 <= responseLatency c;
  co_ids : forall x, x ∈ ranges -> 0 <= x.2 < nm; co_default : 0 <= dport < nm \/ (dport = InvalidPortID /\ useDefaultRange c = false); co_ports : nc < 2 ^ 63 }.
Definition horizon now : Prop := 0 <= now /\ now + 4 * period c + 2 ^ 33 < 2 ^ 64.

(** Where a request for a range goes. *)
Definition route (q : AddrRange.t) : option Z :=
  match List.filter (fun x : AddrRange.t * Z => covers q x.1) ranges with
  | x :: _ => Some x.2
  | [] => if useDefaultRange c then (if covers q drange then Some dport else None)
          else if negb (dport =? InvalidPortID) then Some dport else None
  end.
Definition range_of (p : Pkt.t) : AddrRange.t := RangeSize (Pkt.addr p) (Pkt.size p).
(** What a packet is: valid, not an express snoop, and not delayed by more than the crossbar
    bears. *)
Record fine (latency : Z) (p : Pkt.t) : Prop := {
  fi_addr : Flags.isSet (Pkt.flags p) Pkt.VALID_ADDR = true; fi_size : Flags.isSet (Pkt.flags p) Pkt.VALID_SIZE = true;
  fi_snoop : Pkt.isExpressSnoop p = false; fi_payload : 0 <= Pkt.payloadDelay p < 2 ^ 32;
  fi_delay : 0 <= Pkt.headerDelay p /\ Pkt.headerDelay p + period c + latency * period c <= us c }.
Record fine_request (p : Pkt.t) : Prop := {
  fq_fine : fine (frontendLatency c + forwardLatency c) p;
  fq_span : 0 <= Pkt.addr p /\ 0 < Pkt.size p /\ Pkt.addr p + Pkt.size p < 2 ^ 64;
  fq_route : route (range_of p) <> None }.
Fixpoint call_ok (x : call) : Prop :=
  let all := fix all l := match l with [] => True | y :: l' => call_ok y /\ all l' end in
  match x with
  | Request cpu p ok inside => 0 <= cpu < nc /\ fine_request p /\ all inside
  | Response mem p => fine (responseLatency c) p
  | ReqRetry mem inside => all inside
  | RespRetry cpu ok inside => all inside
  end.

(** The keys of a request that expects a response, and of a response. *)
Definition asked (x : Z * Z * (Z * Pkt.t)) : option (Z * Z) := if expects x.2.2 then Some (ptr x.2.2, x.1.1) else None.
Definition answered (x : Z * Z * (Z * Pkt.t)) : Z * Z := (ptr x.2.2, x.1.1).
Definition forwarded (x : Z * Z * (Z * Pkt.t)) : Prop := route (range_of x.2.2) = Some x.1.2.
(** What has arrived at a queue. *)
Definition arrived (i : Z) (l : list (Z * Z * (Z * Pkt.t))) : list PacketQueue.deferred :=
  omap (fun x : Z * Z * (Z * Pkt.t) => if x.1.1 =? i then Some x.2 else None) l.
#[local] Abbreviation queue_ok := (QueuePromise.queue_ok false).

Record routes (m : gmap Z Z) (acc ret : list (Z * Z * (Z * Pkt.t))) (pending : list Z) : Prop := {
  ro_keys : omap asked acc ≡ₚ (answered <$> ret) ++ map_to_list m;
  ro_forward : Forall forwarded acc;
  ro_dest : forall x i, m !! x = Some i -> 0 <= i < nc;
  ro_pending : forall x, x ∈ pending -> m !! x = None }.
(** [rm], [sm] and [lent] are where calls in progress have left the layers and queues. *)
Record good now (rm sm : Z -> mode) (lent : Z -> option PacketQueue.deferred) s : Prop := {
  gd_clock : ClockedSpec.clock_ok (period c) now (clock s);
  gd_map : gotAllAddrRanges s = true /\ represents (portMap s) ranges /\ defaultPortID s = dport /\ defaultRange s = drange;
  gd_sizes : zlen (reqLayers s) = nm /\ zlen (respLayers s) = nc /\ zlen (cpuSidePorts s) = nc;
  gd_req : group now rm (reqLayers s) (stalledReq s) (refusing s) (begun s).*1;
  gd_resp : group now sm (respLayers s) (stalledResp s) [] [];
  gd_routes : routes (routeTo s) (accepted s) (returned s) (begun s).*2;
  gd_queues : forall i q, cpuSidePorts s !! i = Some q -> queue_ok now (arrived i (returned s)) (lent i) q;
  gd_room : forall i q, cpuSidePorts s !! i = Some q -> load s + zlen (PacketQueue.transmitList q) <= 129 }.

(** What every call keeps. *)
Definition stable now (m : comp t unit) : Prop := forall rm sm lent s, good now rm sm lent s ->
  wp m s (fun _ s' => good now rm sm lent s' /\ begun s' = begun s).

(** ** Parts of a call *)

Context (Hc : config_ok).

Lemma xbar_clockEdge_wp now n s : horizon now -> ClockedSpec.clock_ok (period c) now (clock s) -> 0 <= n <= 1 ->
  wp (clockEdge c now n) s (fun e s' => exists k, s' = s <| clock := k |> /\ ClockedSpec.clock_ok (period c) now k /\ now + period c * n <= e < now + period c * (n + 1)).
Proof.
  intros [Hn Hh] Hk Hd. pose proof (co_period Hc). unfold clockEdge. wp_step.
  eapply wp_mono; [apply ClockedSpec.clockEdge_wp; [done|done|lia|nia|done]|]. intros e k [Hk' He]. by exists k.
Qed.
Lemma calc_wp now p d latency s : horizon now -> ClockedSpec.clock_ok (period c) now (clock s) -> fine latency p -> 0 <= latency -> d = latency * period c ->
  wp (calcPacketTiming c now p d) s (fun p' s' => exists k h f, s' = s <| clock := k |> /\ ClockedSpec.clock_ok (period c) now k /\
    p' = p <| Pkt.headerDelay := h |> <| Pkt.payloadDelay := f |> /\ Pkt.headerDelay p + d <= h < 2 ^ 32 /\ 0 <= f < 2 ^ 32).
Proof.
  intros Hh Hk [Ha Hs Hn Hp [Hd0 Hd]] Hl ->. pose proof (co_period Hc). pose proof (co_us Hc). pose proof (co_width Hc). pose proof Hh as [Hh0 Hh1].
  assert (0 <= latency * period c) by nia. unfold calcPacketTiming. wp_step.
  eapply wp_mono; [by apply (xbar_clockEdge_wp now 0)|]. intros e s1 (k & -> & Hk1 & He). set (offset := tsub e now). assert (0 <= offset < period c) as Ho.
  { unfold offset. rewrite tsub_small by lia. lia. }
  set (h := u32 (tadd (Pkt.headerDelay p) (tadd offset (latency * period c)))).
  assert (h = Pkt.headerDelay p + (offset + latency * period c)) as Eh.
  { unfold h. rewrite (tadd_small offset) by lia. rewrite tadd_small by lia. apply u32_small. lia. }
  change (Pkt.headerDelay (over Pkt.headerDelay _ p)) with h. destruct (Z.ltb_spec (us c) h); [lia|].
  change (MemCmd.hasData (Pkt.cmd (over Pkt.headerDelay _ p))) with (MemCmd.hasData (Pkt.cmd p)). destruct (MemCmd.hasData (Pkt.cmd p)).
  - wp_step. wp_step. unfold Pkt.getSize. change (Pkt.flags (over Pkt.headerDelay _ p)) with (Pkt.flags p). rewrite Hs. cbn [Pkt.check mbind result_bind rp].
    wp_step. wp_step. unfold udiv. rewrite (proj2 (Z.eqb_neq (width c) 0)) by lia. cbn [rp]. wp_step. exists k, h. eexists. split; [done|]. split; [done|].
    split; [done|]. split; [lia|]. apply u32_range.
  - wp_step. exists k, h, (Pkt.payloadDelay p). split; [done|]. split; [done|]. split; [by destruct p|]. split; [lia|done].
Qed.
Lemma getAddrRange_ok latency p : fine latency p -> getAddrRange p = Ok (range_of p).
Proof. intros [Ha Hs _ _ _]. unfold getAddrRange, Pkt.getAddr, Pkt.getSize. by rewrite Ha, Hs. Qed.
Lemma findPort_wp p s : fine_request p -> gotAllAddrRanges s = true -> represents (portMap s) ranges -> defaultPortID s = dport -> defaultRange s = drange ->
  wp (findPort c (range_of p)) s (fun j s' => exists m, s' = s <| portMap := m |> /\ represents m ranges /\ route (range_of p) = Some j /\ 0 <= j < nm).
Proof.
  intros [_ Hsp Hr] Hg Hm Hdp Hdr.
  assert (query_ok (range_of p)) as Hq.
  { split; [done|done|]. unfold range_of, RangeSize. cbn [AddrRange.start AddrRange.end_]. rewrite u64_small by lia. lia. }
  unfold findPort. wp_step. wp_step. wp_step. apply wp_assert; [done|]. wp_step. unfold at_portMap. wp_step. eapply wp_mono; [by apply lookup_wp|]. intros o m [Eo Hm'].
  unfold route in *. destruct (List.filter (fun x : AddrRange.t * Z => covers (range_of p) x.1) ranges) as [|x l] eqn:Ef.
  - destruct o as [e|]; [done|]. wp_step. wp_step. change (defaultRange (over portMap _ s)) with (defaultRange s). change (defaultPortID (over portMap _ s)) with (defaultPortID s).
    rewrite Hdp, Hdr. pose proof (co_default Hc) as Hd. destruct (useDefaultRange c).
    + wp_step. wp_step. rewrite (covers_eq _ _ Hq). cbn [rp]. destruct (covers (range_of p) drange); [|done]. wp_step. exists m.
      split; [done|]. split; [done|]. split; [done|]. by destruct Hd as [?|[_ ?]].
    + destruct (Z.eqb_spec dport InvalidPortID); cbn [negb] in *; [done|]. wp_step. exists m. split; [done|]. split; [done|]. split; [done|]. by destruct Hd as [?|[? _]].
  - destruct o as [e|]; [|done]. cbn in Eo. injection Eo as ->. wp_step. exists m. split; [done|]. split; [done|]. split; [done|].
    apply (co_ids Hc). assert (x ∈ List.filter (fun x : AddrRange.t * Z => covers (range_of p) x.1) ranges) as Hx by (rewrite Ef; left).
    by apply list_elem_of_In, filter_In in Hx as [Hx%list_elem_of_In _].
Qed.

#[local] Instance req_lens : Lens reqLayers (fun l s => s <| reqLayers := l |>).
Proof. split; [done|by intros []|done]. Qed.
#[local] Instance resp_lens : Lens respLayers (fun l s => s <| respLayers := l |>).
Proof. split; [done|by intros []|done]. Qed.
Lemma group_begun now rm ls st rf bg bg' : group now rm ls st rf bg -> (forall i, i ∈ bg' -> i ∉ st) -> group now rm ls st rf bg'.
Proof. intros [] Hb. by split. Qed.
Lemma zlookup_in {A} (l : list A) i n : zlen l = n -> 0 <= i < n -> exists x, l !! i = Some x.
Proof. intros <- Hi. by apply zlookup_is_Some. Qed.

(** ** Requests *)

Lemma permits_request s cpu p ok l : permits s (Request cpu p ok l) = true ->
  (cpu ∉ stalledReq s) /\ (cpu ∉ (begun s).*1) /\ (ptr p ∉ (begun s).*2) /\ routeTo s !! ptr p = None /\
  forall i q, cpuSidePorts s !! i = Some q -> load s + zlen (PacketQueue.transmitList q) < 129.
Proof.
  cbn [permits]. intros [[[[H1%bool_decide_eq_true H2%bool_decide_eq_true]%andb_true_iff H3%bool_decide_eq_true]%andb_true_iff
    H4%bool_decide_eq_true]%andb_true_iff H5]%andb_true_iff. split_and!; try done. intros i q Hq. rewrite forallb_forall in H5.
  apply Z.ltb_lt, H5, list_elem_of_In. by eapply elem_of_zlookup.
Qed.
Lemma ptr_timed p h f : ptr (p <| Pkt.headerDelay := h |> <| Pkt.payloadDelay := f |>) = ptr p.
Proof. done. Qed.
(** A request that is being offered. *)
Lemma good_begin now rm sm lent s cpu p : good now rm sm lent s -> cpu ∉ stalledReq s -> ptr p ∉ (begun s).*2 -> routeTo s !! ptr p = None ->
  (forall i q, cpuSidePorts s !! i = Some q -> load s + zlen (PacketQueue.transmitList q) < 129) ->
  good now rm sm lent (s <| begun ::= cons (cpu, ptr p) |>).
Proof.
  intros [] Hcpu Hp Hr Hroom. split; try done.
  - eapply group_begun; [exact gd_req0|]. cbn. intros i [->|Hi]%elem_of_cons; [done|by apply (gr_begun _ _ _ _ _ _ gd_req0)].
  - destruct gd_routes0. split; try done. cbn. intros x [->|Hx]%elem_of_cons; [done|by apply ro_pending0].
  - intros i q Hq. specialize (Hroom i q Hq). unfold load in *. cbn [begun routeTo over]. unfold zlen in *. cbn [length]. lia.
Qed.
Lemma good_end now rm sm lent s x l : good now rm sm lent s -> begun s = x :: l -> good now rm sm lent (s <| begun ::= tail |>).
Proof.
  intros [] E. split; try done.
  - eapply group_begun; [exact gd_req0|]. cbn. intros i Hi. apply (gr_begun _ _ _ _ _ _ gd_req0). rewrite E in *. cbn. by right.
  - destruct gd_routes0. split; try done. cbn. intros y Hy. apply ro_pending0. rewrite E in *. cbn. by right.
  - intros i q Hq. specialize (gd_room0 i q Hq). unfold load in *. cbn [begun routeTo over]. rewrite E in *. unfold zlen in *. cbn [tail length] in *. lia.
Qed.

(** The layers of a group changed. *)
Lemma good_req_layers now rm rm' sm lent s ls st rf : good now rm sm lent s -> group now rm' ls st rf (begun s).*1 -> zlen ls = zlen (reqLayers s) ->
  good now rm' sm lent (s <| reqLayers := ls |> <| stalledReq := st |> <| refusing := rf |>).
Proof. intros [] G E. split; try done. split; [|apply gd_sizes0]. change (zlen ls = nm). rewrite E. apply gd_sizes0. Qed.
Lemma good_resp_layers now rm sm sm' lent s ls st : good now rm sm lent s -> group now sm' ls st [] [] -> zlen ls = zlen (respLayers s) ->
  good now rm sm' lent (s <| respLayers := ls |> <| stalledResp := st |>).
Proof. intros [] G E. split; try done. split; [apply gd_sizes0|]. split; [|apply gd_sizes0]. change (zlen ls = nc). rewrite E. apply gd_sizes0. Qed.
Lemma good_clock now rm sm lent s k : good now rm sm lent s -> ClockedSpec.clock_ok (period c) now k -> good now rm sm lent (s <| clock := k |>).
Proof. intros [] Hk. by split. Qed.

(** A request is accepted. *)
Lemma good_accept now rm sm lent s cpu j p : good now rm sm lent s -> routeTo s !! ptr p = None -> ptr p ∉ (begun s).*2 -> 0 <= cpu < nc ->
  route (range_of p) = Some j -> (forall i q, cpuSidePorts s !! i = Some q -> load s + 1 + zlen (PacketQueue.transmitList q) <= 129) ->
  good now rm sm lent (s <| routeTo ::= (if expects p then <[ptr p := cpu]> else id) |> <| accepted ::= fun l => l ++ [(cpu, j, (now, p))] |>).
Proof.
  intros [] Hr Hb Hcpu Hj Hroom. split; try done.
  - destruct gd_routes0. split.
    + change (omap asked (accepted s ++ [(cpu, j, (now, p))]) ≡ₚ (answered <$> returned s) ++ map_to_list ((if expects p then <[ptr p := cpu]> else id) (routeTo s))).
      rewrite omap_app, ro_keys0. cbn [omap list_omap]. unfold asked. cbn [fst snd]. destruct (expects p); cbn [id].
      * rewrite map_to_list_insert by done. solve_Permutation.
      * by rewrite app_nil_r.
    + apply Forall_app. split; [done|]. constructor; [done|constructor].
    + intros x i. change (((if expects p then <[ptr p := cpu]> else id) (routeTo s)) !! x = Some i -> 0 <= i < nc). destruct (expects p); [|by apply ro_dest0].
      intros [[_ <-]|[_ Hx]]%lookup_insert_Some; [done|by eapply ro_dest0].
    + intros x Hx. change (((if expects p then <[ptr p := cpu]> else id) (routeTo s)) !! x = None). destruct (expects p); [|by apply ro_pending0].
      rewrite lookup_insert_ne; [by apply ro_pending0|]. by intros <-.
  - intros i q Hq. specialize (Hroom i q Hq). unfold load in *.
    change (Z.of_nat (size ((if expects p then <[ptr p := cpu]> else id) (routeTo s))) + zlen (begun s) + zlen (PacketQueue.transmitList q) <= 129).
    destruct (expects p); [|cbn; lia]. rewrite map_size_insert_None by done. lia.
Qed.

(** What the peer of a memory-side port has left when it answers. *)
Record offered now (rm sm : Z -> mode) (lent : Z -> option PacketQueue.deferred) (cpu x : Z) (b : list (Z * Z)) s : Prop := {
  of_good : good now rm sm lent s; of_begun : begun s = b; of_stalled : cpu ∉ stalledReq s; of_route : routeTo s !! x = None;
  of_room : forall i q, cpuSidePorts s !! i = Some q -> load s + 1 + zlen (PacketQueue.transmitList q) <= 129 }.
Lemma sendTimingReq_wp now rm sm lent s cpu p ok inside j q : stable now inside -> good now rm sm lent s -> permits s (Request cpu p ok []) = true -> ptr q = ptr p ->
  wp (sendTimingReq cpu ok inside j q) s (fun r s' => r = ok /\ exists s1, offered now rm sm lent cpu (ptr p) (begun s) s1 /\
    s' = if ok then s1 else s1 <| refusing ::= cons j |>).
Proof.
  intros Hin H (P1 & P2 & P3 & P4 & P5)%permits_request Eq. unfold sendTimingReq. rewrite Eq. wp_step. wp_step. set (s5 := over begun _ s).
  assert (good now rm sm lent s5) as H5 by exact (good_begin now rm sm lent s cpu p H P1 P3 P4 P5).
  wp_step. eapply wp_mono; [by apply Hin|]. intros [] s6 [H6 E6]. change (begun s6 = (cpu, ptr p) :: begun s) in E6. wp_step. wp_step. set (s7 := over begun _ s6).
  assert (good now rm sm lent s7) as H7 by exact (good_end now rm sm lent s6 (cpu, ptr p) (begun s) H6 E6).
  assert (begun s7 = begun s) as E7 by (change (tail (begun s6) = begun s); by rewrite E6).
  assert (offered now rm sm lent cpu (ptr p) (begun s) s7) as Ho.
  { split; [done|done| | |].
    - apply (gr_begun _ _ _ _ _ _ (gd_req _ _ _ _ _ H6)). rewrite E6. left.
    - apply (ro_pending _ _ _ _ (gd_routes _ _ _ _ _ H6)). rewrite E6. left.
    - intros i x Hx. pose proof (gd_room _ _ _ _ _ H6 i x Hx) as Hr. unfold load in *. rewrite E7. change (routeTo s7) with (routeTo s6). rewrite E6 in Hr.
      unfold zlen in *. cbn [length] in Hr. lia. }
  wp_step. apply wp_when; destruct ok; try done; intros _; wp_steps; (split; [done|]); by exists s7.
Qed.
Section Answer.
(** The peer of port [j] has answered the request [p] of port [cpu], of which layer [j] is
    taken. *)
Context (now : Z) (rm sm : Z -> mode) (lent : Z -> option PacketQueue.deferred) (cpu j : Z) (p : Pkt.t) (b : list (Z * Z)) (s : t).
Context (H : offered now (<[j := Sending]> rm) sm lent cpu (ptr p) b s) (Hh : horizon now) (Ho : owner_ok now (rm j)) (Hj : 0 <= j < nm) (Hcpu : 0 <= cpu < nc).
Lemma accepted_wp w : ptr p ∉ b.*2 -> route (range_of p) = Some j -> now <= w -> 0 < w ->
  wp (when_ (expects p)
        (s ← get;
         assert_ (bool_decide (routeTo s !! ptr p = None));;
         modify (fun s => s <| routeTo ::= fun m => <[ptr p := cpu]> m |>));;
      modify (fun s => s <| accepted ::= fun l => l ++ [(cpu, j, (now, p))] |>);;
      at_reqLayer j _ (Layer.succeededTiming now w);; mret (true, p)) s (fun r s' => r = (true, p) /\ good now rm sm lent s' /\ begun s' = b).
Proof.
  intros Hb Hr Hw H0. destruct H as [H7 <- Hst Hrt Hroom]. destruct (zlookup_in (reqLayers s) j nm) as [l7 Hl7]; [apply (gd_sizes _ _ _ _ _ H7)|done|].
  pose proof (good_accept now _ sm lent s cpu j p H7 Hrt Hb Hcpu Hr Hroom) as H8. set (s8 := over accepted _ _) in H8.
  wp_step. apply (wp_mono _ _ (fun _ s' => s' = s <| routeTo ::= (if expects p then <[ptr p := cpu]> else id) |>)).
  { apply wp_when; intros Ee; rewrite Ee; [|by destruct s]. wp_step. wp_step. wp_step. apply wp_assert; [by apply bool_decide_eq_true|]. by wp_step. }
  intros [] s9 ->. wp_step. wp_step. wp_step. unfold at_reqLayer. eapply (wp_zoom_at _ _ _ l7); [exact Hl7|].
  eapply wp_mono; [by apply (group_succeed now rm (reqLayers s8) _ _ _ j l7 (gd_req _ _ _ _ _ H8) Hl7 Ho)|]. intros [] l8 G8. wp_step.
  split; [done|]. split; [|done]. exact (good_req_layers now _ rm sm lent s8 _ (stalledReq s8) (refusing s8) H8 G8 (zlen_insert _ _ _)).
Qed.
Lemma refused_wp (q : Pkt.t) : cpu ∉ b.*1 ->
  wp (edge ← clockEdge c now 1; at_reqLayer j _ (Layer.failedTiming now cpu edge);; mret (false, q)) (s <| refusing ::= cons j |>)
    (fun r s' => r = (false, q) /\ good now rm sm lent (s' <| stalledReq ::= fun l => l ++ [cpu] |>) /\ begun s' = b).
Proof.
  intros Hb. destruct H as [H7 E7 Hst _ _]. destruct (zlookup_in (reqLayers s) j nm) as [l7 Hl7]; [apply (gd_sizes _ _ _ _ _ H7)|done|].
  wp_step. eapply wp_mono; [apply (xbar_clockEdge_wp now 1); [done|apply H7|lia]|]. intros e2 s9 (k2 & -> & Hk2 & He2).
  wp_step. unfold at_reqLayer. eapply (wp_zoom_at _ _ _ l7); [exact Hl7|]. pose proof (gd_req _ _ _ _ _ H7) as G7. rewrite E7 in G7. pose proof (co_period Hc).
  eapply wp_mono; [apply (group_fail now rm (reqLayers s) _ _ _ j l7 G7 Hl7 Ho cpu e2); [lia|destruct Hh; lia|done|done]|]. intros [] l8 G8. wp_step.
  split; [done|]. split; [|exact E7]. rewrite <- E7 in G8.
  exact (good_req_layers now _ rm sm lent (s <| clock := k2 |>) _ (stalledReq s ++ [cpu]) (j :: refusing s) (good_clock _ _ _ _ _ _ H7 Hk2) G8 (zlen_insert _ _ _)).
Qed.
End Answer.

Lemma request_wp now cpu p ok inside : horizon now -> 0 <= cpu < nc -> fine_request p -> stable now inside ->
  forall rm sm lent s, good now rm sm lent s -> permits s (Request cpu p ok []) = true ->
  wp (request c now cpu p ok inside) s (fun _ s' => good now rm sm lent s' /\ begun s' = begun s).
Proof.
  intros Hh Hcpu Hp Hin rm sm lent s H Hperm. pose proof (permits_request _ _ _ _ _ Hperm) as (P1 & P2 & P3 & _). unfold request, recvTimingReq.
  pose proof (fq_fine _ Hp) as Hf. wp_step. wp_step. apply wp_assert; [by rewrite (fi_snoop _ _ Hf)|]. wp_step. wp_step.
  rewrite (getAddrRange_ok _ _ Hf). cbn [rp]. destruct (gd_map _ _ _ _ _ H) as (M1 & M2 & M3 & M4).
  wp_step. eapply wp_mono; [by apply findPort_wp|]. intros j s1 (m & -> & Hm & Hj & Hjn). set (s1 := over portMap _ s).
  assert (good now rm sm lent s1) as H1 by (destruct H; by split).
  destruct (zlookup_in (reqLayers s1) j nm) as [l Hl]; [apply (gd_sizes _ _ _ _ _ H)|done|].
  wp_step. unfold at_reqLayer at 1. eapply wp_zoom_at; [exact Hl|]. eapply wp_mono; [by apply (group_try now rm _ _ _ _ j l (gd_req _ _ _ _ _ H1) Hl cpu)|].
  intros [] l'; cbn [negb]; cycle 1.
  { intros G. wp_step. cbn [fst negb]. apply wp_when; intros; [|done]. wp_step. split; [|done].
    exact (good_req_layers now rm rm sm lent s1 _ _ (refusing s1) H1 G (zlen_insert _ _ _)). }
  intros (-> & Ho & G). set (s2 := over reqLayers _ s1). set (rm' := <[j := Sending]> rm) in *.
  assert (good now rm' sm lent s2) as H2 by exact (good_req_layers now rm rm' sm lent s1 _ (stalledReq s1) (refusing s1) H1 G (zlen_insert _ _ _)).
  pose proof (co_period Hc) as Cp. pose proof (co_front Hc) as Cf. pose proof (co_forward Hc) as Cw. pose proof (co_us Hc) as Cu. pose proof (fi_delay _ _ Hf) as Hd.
  assert (u64 (u64 (frontendLatency c + forwardLatency c) * period c) = (frontendLatency c + forwardLatency c) * period c) as Ed.
  { rewrite (u64_small (_ + _)) by nia. apply u64_small. nia. }
  rewrite Ed. wp_step. eapply wp_mono; [by apply (calc_wp now p _ (frontendLatency c + forwardLatency c)); try done; [apply H2|lia]|].
  intros p' s3 (k & h & f & -> & Hk & -> & Hh1 & Hf1).
  set (s3 := over clock _ s2). set (p1 := over Pkt.payloadDelay _ _). assert (good now rm' sm lent s3) as H3 by by apply good_clock.
  wp_step. eapply wp_mono; [by apply (xbar_clockEdge_wp now 1); [| |lia]|]. intros e s4 (k1 & -> & Hk1 & He). set (s4 := over clock _ s3).
  assert (good now rm' sm lent s4) as H4 by by apply good_clock.
  assert (0 < tadd e (Pkt.payloadDelay p1) /\ now <= tadd e (Pkt.payloadDelay p1)) as [Hw0 Hw].
  { change (Pkt.payloadDelay p1) with f. destruct Hh as [Hh0 Hh2]. rewrite tadd_small by lia. lia. }
  wp_step. eapply wp_mono; [by apply (sendTimingReq_wp now rm' sm lent s4 cpu p)|]. intros r s5 (-> & s6 & Hof & ->). destruct ok; cbn [negb].
  - eapply wp_mono; [exact (accepted_wp now rm sm lent cpu j p1 (begun s) s6 Hof Ho Hjn Hcpu _ P3 Hj Hw Hw0)|].
    intros r s7 (-> & H7 & E7). by apply wp_when.
  - eapply wp_mono; [exact (refused_wp now rm sm lent cpu j p (begun s) s6 Hof Hh Ho Hjn _ P2)|].
    intros r s7 (-> & H7 & E7). apply wp_when; [intros _|done]. by wp_step.
Qed.

(** ** Responses *)

Lemma arrived_snoc i l x : arrived i (l ++ [x]) = arrived i l ++ (if x.1.1 =? i then [x.2] else []).
Proof. unfold arrived. rewrite omap_app. cbn. by destruct (_ =? _). Qed.
(** The queue of a port changed, with nothing new. *)
Lemma good_queue now rm sm lent s i q q' m : good now rm sm lent s -> cpuSidePorts s !! i = Some q -> queue_ok now (arrived i (returned s)) m q' ->
  zlen (PacketQueue.transmitList q') <= zlen (PacketQueue.transmitList q) ->
  good now rm sm (<[i := m]> lent) (s <| cpuSidePorts := <[i := q']> (cpuSidePorts s) |>).
Proof.
  intros [] Hq Hok Hz. pose proof (zlookup_lt _ _ _ Hq) as Hi. split; try done.
  - split; [apply gd_sizes0|]. split; [apply gd_sizes0|]. change (zlen (<[i := q']> (cpuSidePorts s)) = nc). rewrite zlen_insert. apply gd_sizes0.
  - intros k x. change (<[i := q']> (cpuSidePorts s) !! k = Some x -> queue_ok now (arrived k (returned s)) (<[i := m]> lent k) x).
    destruct (decide (i = k)) as [<-|Hne].
    + rewrite zlookup_insert_eq, fn_lookup_insert by done. by intros [= <-].
    + rewrite zlookup_insert_ne, fn_lookup_insert_ne by done. apply gd_queues0.
  - intros k x. change (<[i := q']> (cpuSidePorts s) !! k = Some x -> load s + zlen (PacketQueue.transmitList x) <= 129).
    destruct (decide (i = k)) as [<-|Hne]; [rewrite zlookup_insert_eq by done; intros [= <-]; specialize (gd_room0 i q Hq); lia|].
    rewrite zlookup_insert_ne by done. apply gd_room0.
Qed.
Lemma good_lent_ext now rm sm lent lent' s : (forall k, lent k = lent' k) -> good now rm sm lent s -> good now rm sm lent' s.
Proof. intros E []. split; try done. intros i q Hq. rewrite <- E. by apply gd_queues0. Qed.
(** A response is routed to the queue of the port its request came from. *)
Lemma good_return now rm sm lent s cpu mem q q' w p : good now rm sm lent s -> routeTo s !! ptr p = Some cpu -> cpuSidePorts s !! cpu = Some q ->
  queue_ok now (arrived cpu (returned s) ++ [(w, p)]) (lent cpu) q' -> zlen (PacketQueue.transmitList q') = zlen (PacketQueue.transmitList q) + 1 ->
  good now rm sm lent (s <| cpuSidePorts := <[cpu := q']> (cpuSidePorts s) |> <| routeTo ::= delete (ptr p) |>
    <| returned ::= fun l => l ++ [(cpu, mem, (w, p))] |>).
Proof.
  intros [] Hr Hq Hok Hz. pose proof (zlookup_lt _ _ _ Hq) as Hi. split; try done.
  - split; [apply gd_sizes0|]. split; [apply gd_sizes0|]. change (zlen (<[cpu := q']> (cpuSidePorts s)) = nc). rewrite zlen_insert. apply gd_sizes0.
  - destruct gd_routes0. split; try done.
    + change (omap asked (accepted s) ≡ₚ (answered <$> returned s ++ [(cpu, mem, (w, p))]) ++ map_to_list (delete (ptr p) (routeTo s))).
      rewrite ro_keys0, fmap_app, <- (map_to_list_delete _ _ _ Hr). cbn. solve_Permutation.
    + intros x i. change (delete (ptr p) (routeTo s) !! x = Some i -> 0 <= i < nc). intros [_ Hx]%lookup_delete_Some. by eapply ro_dest0.
    + intros x Hx. change (delete (ptr p) (routeTo s) !! x = None). apply lookup_delete_None. right. by apply ro_pending0.
  - intros k x. change (<[cpu := q']> (cpuSidePorts s) !! k = Some x -> queue_ok now (arrived k (returned s ++ [(cpu, mem, (w, p))])) (lent k) x).
    rewrite arrived_snoc. cbn [fst snd]. destruct (Z.eqb_spec cpu k) as [<-|Hne].
    + rewrite zlookup_insert_eq by done. by intros [= <-].
    + rewrite zlookup_insert_ne, app_nil_r by done. apply gd_queues0.
  - assert (size (routeTo s) = S (size (delete (ptr p) (routeTo s)))) as Es.
    { rewrite <- (map_size_insert_None (ptr p) cpu) by apply lookup_delete_eq. f_equal. rewrite insert_delete_eq. symmetry. by apply insert_id. }
    intros k x. change (<[cpu := q']> (cpuSidePorts s) !! k = Some x -> Z.of_nat (size (delete (ptr p) (routeTo s))) + zlen (begun s) + zlen (PacketQueue.transmitList x) <= 129).
    unfold load in *. destruct (decide (cpu = k)) as [<-|Hne].
    + rewrite zlookup_insert_eq by done. intros [= <-]. specialize (gd_room0 cpu q Hq). lia.
    + rewrite zlookup_insert_ne by done. intros Hx. specialize (gd_room0 k x Hx). lia.
Qed.

Lemma xbar_response_wp now mem p : horizon now -> fine (responseLatency c) p ->
  forall rm sm lent s, good now rm sm lent s -> permits s (Response mem p) = true ->
  wp (response c now mem p) s (fun _ s' => good now rm sm lent s' /\ begun s' = begun s).
Proof.
  intros Hh Hf rm sm lent s H [P1%bool_decide_eq_true P2%bool_decide_eq_true]%andb_true_iff. unfold response, recvTimingResp.
  wp_step. wp_step. wp_step. unfold ptr in P2. destruct (routeTo s !! Request.ptr (Pkt.req p)) as [cpu|] eqn:Er; [|done].
  pose proof (ro_dest _ _ _ _ (gd_routes _ _ _ _ _ H) _ _ Er) as Hcpu. destruct (gd_sizes _ _ _ _ _ H) as (_ & Hzl & Hzq). pose proof (co_ports Hc) as Cn.
  wp_step. apply wp_assert; [by rewrite (proj2 (Z.eqb_neq _ _)) by (unfold InvalidPortID; lia)|]. wp_step.
  apply wp_assert; [apply Z.ltb_lt; rewrite u64_small, Hzl by lia; lia|].
  destruct (zlookup_in (respLayers s) cpu nc Hzl Hcpu) as [l Hl]. destruct (zlookup_in (cpuSidePorts s) cpu nc Hzq Hcpu) as [q Hq].
  wp_step. unfold at_respLayer at 1. eapply (wp_zoom_at _ _ _ l); [exact Hl|].
  eapply wp_mono; [apply (group_try now sm _ _ _ _ cpu l (gd_resp _ _ _ _ _ H) Hl mem P1); by intros ?%elem_of_nil|].
  intros [] l'; cbn [negb]; cycle 1.
  { intros G. wp_step. apply wp_when; [intros _|done]. wp_step. split; [|done]. exact (good_resp_layers now rm sm sm lent s _ _ H G (zlen_insert _ _ _)). }
  intros (-> & Ho & G). set (s2 := over respLayers _ s). set (sm' := <[cpu := Sending]> sm) in *.
  assert (good now rm sm' lent s2) as H2 by exact (good_resp_layers now rm sm sm' lent s _ (stalledResp s) H G (zlen_insert _ _ _)).
  pose proof (co_period Hc) as Cp. pose proof (co_resp Hc) as Cr. pose proof (co_us Hc) as Cu. pose proof (fi_delay _ _ Hf) as Hd.
  rewrite (u64_small (responseLatency c * period c)) by nia.
  wp_step. eapply wp_mono; [apply (calc_wp now p _ (responseLatency c)); [done|apply H2|done..]|]. intros p' s3 (k & h & f & -> & Hk & -> & Hh1 & Hf1).
  set (s3 := over clock _ s2). set (p1 := over Pkt.payloadDelay _ _). assert (good now rm sm' lent s3) as H3 by by apply good_clock.
  wp_step. eapply wp_mono; [by apply (xbar_clockEdge_wp now 1); [| |lia]|]. intros e s4 (k1 & -> & Hk1 & He). set (s4 := over clock _ s3).
  assert (good now rm sm' lent s4) as H4 by by apply good_clock. destruct Hh as [Hh0 Hh2].
  change (Pkt.payloadDelay p1) with f. change (Pkt.headerDelay p1) with h. set (p2 := over Pkt.headerDelay _ p1).
  assert (0 < tadd e f /\ now <= tadd e f) as [Hw0 Hw] by (rewrite tadd_small; nia).
  assert (tadd now h = now + h) as Ew by (apply tadd_small; nia). rewrite Ew. assert (0 <= responseLatency c * period c) as Hl0 by nia.
  assert (QueuePromise.sendable now (p2, now + h)) as Hsd by (split; [apply Hf|apply Hf|cbn [snd]; unfold MaxTick; lia]).
  assert (now + 1 < MaxTick) as Hmt by (unfold MaxTick; lia).
  assert (wp (PacketQueue.schedSendTiming false now p2 (now + h)) q (fun _ q' => queue_ok now (arrived cpu (returned s) ++ [(now + h, p2)]) (lent cpu) q' /\
    zlen (PacketQueue.transmitList q') = zlen (PacketQueue.transmitList q) + 1)) as Hsched.
  { assert (QueuePromise.room 1 q) as Hroom.
    { right. pose proof (gd_room _ _ _ _ _ H cpu q Hq) as Hr. unfold load in Hr. pose proof (zlen_nonneg (begun s)).
      assert (size (routeTo s) <> 0%nat); [|lia]. intros E%map_size_empty_inv. by rewrite E, lookup_empty in Er. }
    pose proof (gd_queues _ _ _ _ _ H cpu q Hq) as Hok.
    eapply wp_mono; [by apply QueuePromise.queue_schedule|]. intros [] q' (? & _ & ?). done. }
  wp_step. unfold at_cpuSidePort. eapply (wp_zoom_at _ _ _ q); [exact Hq|]. eapply wp_mono; [exact Hsched|]. intros [] q' [Hq1 Hq2].
  pose proof (good_return now rm sm' lent s4 cpu mem q q' (now + h) p2 H4 Er Hq Hq1 Hq2) as H5. set (s5 := over returned _ _) in H5.
  wp_step. wp_step. match goal with |- wp _ ?x _ => change x with s5 end.
  assert (respLayers s5 !! cpu = Some (l <| Layer.state := Layer.BUSY |>)) as Hl5.
  { change (respLayers s5) with (<[cpu := l <| Layer.state := Layer.BUSY |>]> (respLayers s)). apply zlookup_insert_eq. by eapply zlookup_lt. }
  wp_step. unfold at_respLayer. eapply (wp_zoom_at _ _ _ _); [exact Hl5|].
  eapply wp_mono; [by apply (group_succeed now sm (respLayers s5) _ _ _ cpu _ (gd_resp _ _ _ _ _ H5) Hl5 Ho)|]. intros [] l6 G6. wp_step.
  apply wp_when; [done|intros _]. split; [|done]. exact (good_resp_layers now rm sm' sm lent s5 _ (stalledResp s5) H5 G6 (zlen_insert _ _ _)).
Qed.

(** ** Retries *)

#[local] Abbreviation put_req := (fun l s => s <| reqLayers := l |>).
#[local] Abbreviation put_resp := (fun l s => s <| respLayers := l |>).
Lemma good_req_modes now rm rm' sm lent s st rf bg : good now rm' sm lent s -> st = stalledReq s -> rf = refusing s -> bg = (begun s).*1 ->
  group now rm (reqLayers s) st rf bg -> good now rm sm lent s.
Proof. intros [] -> -> -> G. by split. Qed.
Lemma good_resp_modes now rm sm sm' lent s st rf bg : good now rm sm' lent s -> st = stalledResp s -> rf = [] -> bg = [] ->
  group now sm (respLayers s) st rf bg -> good now rm sm lent s.
Proof. intros [] -> -> -> G. by split. Qed.
(** A port is told to retry a request: what remains of the layer's retry. *)
Lemma told_req now mem rm sm lent s i ls rf inside : horizon now -> stable now inside -> good now rm sm lent s -> 0 <= mem < nm ->
  group now (<[mem := Retrying]> rm) ls (without i (stalledReq s)) rf (begun s).*1 -> zlen ls = zlen (reqLayers s) ->
  wp (sendRetryReq inside i) (s <| reqLayers := ls |> <| refusing := rf |>) (fun _ s' => is_Some (reqLayers s' !! mem) /\
    resume reqLayers put_req (clockEdge c now 0) now mem rm (fun _ s'' => good now rm sm lent s'' /\ begun s'' = begun s) s').
Proof.
  intros Hh Hin H Hm G E. unfold sendRetryReq. wp_step. wp_step. set (s1 := over told _ _).
  assert (good now (<[mem := Retrying]> rm) sm lent s1) as H1.
  { pose proof (good_req_layers now rm _ sm lent s ls _ rf H G E) as H1. destruct H1. by split. }
  eapply wp_mono; [by apply Hin|]. intros [] s2 [H2 E2]. destruct (gd_sizes _ _ _ _ _ H2) as (Hz & _ & _). split.
  { destruct (zlookup_in (reqLayers s2) mem nm Hz Hm) as [l Hl]. by exists l. }
  exists (stalledReq s2), (refusing s2), (begun s2).*1. split; [apply H2|]. split.
  { intros G2. split; [|done]. by eapply good_req_modes. }
  intros l. eapply wp_mono; [apply (xbar_clockEdge_wp now 0); [done|apply H2|lia]|]. intros e s3 (k & -> & Hk & He). split; [done|]. split; [lia|].
  intros l' G3. split; [|done]. exact (good_req_layers now _ rm sm lent (s2 <| clock := k |>) _ (stalledReq s2) (refusing s2) (good_clock _ _ _ _ _ _ H2 Hk) G3 (zlen_insert _ _ _)).
Qed.
Lemma told_resp now cpu rm sm lent s i ls inside : horizon now -> stable now inside -> good now rm sm lent s -> 0 <= cpu < nc ->
  group now (<[cpu := Retrying]> sm) ls (without i (stalledResp s)) [] [] -> zlen ls = zlen (respLayers s) ->
  wp (sendRetryResp inside i) (s <| respLayers := ls |>) (fun _ s' => is_Some (respLayers s' !! cpu) /\
    resume respLayers put_resp (clockEdge c now 0) now cpu sm (fun _ s'' => good now rm sm lent s'' /\ begun s'' = begun s) s').
Proof.
  intros Hh Hin H Hm G E. unfold sendRetryResp. wp_step. wp_step. set (s1 := over stalledResp _ _).
  assert (good now rm (<[cpu := Retrying]> sm) lent s1) as H1 by exact (good_resp_layers now rm sm _ lent s ls _ H G E).
  eapply wp_mono; [by apply Hin|]. intros [] s2 [H2 E2]. destruct (gd_sizes _ _ _ _ _ H2) as (_ & Hz & _). split.
  { destruct (zlookup_in (respLayers s2) cpu nc Hz Hm) as [l Hl]. by exists l. }
  exists (stalledResp s2), [], []. split; [apply H2|]. split.
  { intros G2. split; [|done]. by eapply good_resp_modes. }
  intros l. eapply wp_mono; [apply (xbar_clockEdge_wp now 0); [done|apply H2|lia]|]. intros e s3 (k & -> & Hk & He). split; [done|]. split; [lia|].
  intros l' G3. split; [|done]. exact (good_resp_layers now rm _ sm lent (s2 <| clock := k |>) _ (stalledResp s2) (good_clock _ _ _ _ _ _ H2 Hk) G3 (zlen_insert _ _ _)).
Qed.

Lemma layers_range now rm ls st rf bg j : group now rm ls st rf bg -> j ∈ rf -> exists l, ls !! j = Some l.
Proof. intros G (l & Hl & _)%(gr_refusing _ _ _ _ _ _ G). by exists l. Qed.
Lemma reqRetry_wp now mem inside : horizon now -> stable now inside ->
  forall rm sm lent s, good now rm sm lent s -> mem ∈ refusing s ->
  wp (reqRetry c now mem inside) s (fun _ s' => good now rm sm lent s' /\ begun s' = begun s).
Proof.
  intros Hh Hin rm sm lent s H Hm. destruct (layers_range _ _ _ _ _ _ _ (gd_req _ _ _ _ _ H) Hm) as [l Hl].
  assert (0 <= mem < nm) as Hmn by (destruct (gd_sizes _ _ _ _ _ H) as (<- & _); by eapply zlookup_lt).
  unfold reqRetry, recvReqRetry. wp_step. wp_step. set (s1 := over refusing _ s).
  apply (recvRetry_wp reqLayers put_req (clockEdge c now 0) (sendRetryReq inside) now mem s1 l rm (stalledReq s) (refusing s) (without mem (refusing s)) (begun s).*1).
  - apply H.
  - exact Hl.
  - exact Hm.
  - unfold without. rewrite list_elem_of_filter. tauto.
  - intros k Hk. unfold without. rewrite list_elem_of_filter. tauto.
  - intros l' G. split; [|done]. exact (good_req_layers now rm rm sm lent s _ (stalledReq s) (without mem (refusing s)) H G (zlen_insert _ _ _)).
  - intros i l' _ _ G. exact (told_req now mem rm sm lent s i _ _ inside Hh Hin H Hmn G (zlen_insert _ _ _)).
Qed.
Lemma releaseReq_wp now mem inside : horizon now -> stable now inside ->
  forall rm sm lent s l, good now rm sm lent s -> rm mem = Free -> reqLayers s !! mem = Some l -> Layer.releaseEvent l = Some now ->
  wp (release_req c now (sendRetryReq inside) mem) s (fun _ s' => good now rm sm lent s' /\ begun s' = begun s).
Proof.
  intros Hh Hin rm sm lent s l H Hrm Hl He.
  assert (0 <= mem < nm) as Hmn by (destruct (gd_sizes _ _ _ _ _ H) as (<- & _); by eapply zlookup_lt).
  apply (layer_process_wp reqLayers put_req (clockEdge c now 0) (sendRetryReq inside) now mem s l rm (stalledReq s) (refusing s) (begun s).*1); [apply H|done..| |].
  - intros l' G. split; [|done]. exact (good_req_layers now rm rm sm lent s _ (stalledReq s) (refusing s) H G (zlen_insert _ _ _)).
  - intros i l' _ G. exact (told_req now mem rm sm lent s i _ _ inside Hh Hin H Hmn G (zlen_insert _ _ _)).
Qed.
Lemma releaseResp_wp now cpu inside : horizon now -> stable now inside ->
  forall rm sm lent s l, good now rm sm lent s -> sm cpu = Free -> respLayers s !! cpu = Some l -> Layer.releaseEvent l = Some now ->
  wp (release_resp c now (sendRetryResp inside) cpu) s (fun _ s' => good now rm sm lent s' /\ begun s' = begun s).
Proof.
  intros Hh Hin rm sm lent s l H Hsm Hl He.
  assert (0 <= cpu < nc) as Hcn by (destruct (gd_sizes _ _ _ _ _ H) as (_ & <- & _); by eapply zlookup_lt).
  apply (layer_process_wp respLayers put_resp (clockEdge c now 0) (sendRetryResp inside) now cpu s l sm (stalledResp s) [] []); [apply H|done..| |].
  - intros l' G. split; [|done]. exact (good_resp_layers now rm sm sm lent s _ (stalledResp s) H G (zlen_insert _ _ _)).
  - intros i l' _ G. exact (told_resp now cpu rm sm lent s i _ inside Hh Hin H Hcn G (zlen_insert _ _ _)).
Qed.

(** ** Sending responses *)

Lemma put_queue_twice s (i : Z) q1 q2 : s <| cpuSidePorts := <[i := q1]> (cpuSidePorts s) |> <| cpuSidePorts ::= fun l => <[i := q2]> l |> =
  s <| cpuSidePorts := <[i := q2]> (cpuSidePorts s) |>.
Proof.
  change (s <| cpuSidePorts := <[i := q2]> (<[i := q1]> (cpuSidePorts s)) |> = s <| cpuSidePorts := <[i := q2]> (cpuSidePorts s) |>). by rewrite zinsert_twice.
Qed.
Lemma lent_back (lent : Z -> option PacketQueue.deferred) i m k : lent i = None -> (<[i := None]> (<[i := m]> lent)) k = lent k.
Proof. intros Hi. destruct (decide (i = k)) as [<-|Hne]; [by rewrite fn_lookup_insert|by rewrite !fn_lookup_insert_ne]. Qed.
Lemma lent_same (lent : Z -> option PacketQueue.deferred) i k : lent i = None -> (<[i := None]> lent) k = lent k.
Proof. intros Hi. destruct (decide (i = k)) as [<-|Hne]; [by rewrite fn_lookup_insert|by rewrite fn_lookup_insert_ne]. Qed.

Lemma port_send_wp now i ok inside q q1 : horizon now -> stable now inside ->
  forall rm sm lent s, good now rm sm lent s -> lent i = None -> cpuSidePorts s !! i = Some q ->
  QueuePromise.sending false now (arrived i (returned s)) q1 -> PacketQueue.transmitList q1 = PacketQueue.transmitList q ->
  wp (sendDeferredPacket now (sendTimingResp ok inside) i) (s <| cpuSidePorts := <[i := q1]> (cpuSidePorts s) |>) (fun _ s' => good now rm sm lent s' /\ begun s' = begun s).
Proof.
  intros Hh Hin rm sm lent s H Hlent Hq Hs Et. pose proof (zlookup_lt _ _ _ Hq) as Hi. assert (now + 1 < MaxTick) as Hmt by (destruct Hh; unfold MaxTick; pose proof (co_period Hc); lia).
  unfold sendDeferredPacket, at_cpuSidePort. wp_step. eapply (wp_zoom_at _ _ _ q1); [by apply zlookup_insert_eq|].
  eapply wp_mono; [by apply QueuePromise.take_wp|]. intros x q2 (E2 & El & L & R). match goal with |- wp _ ?y _ => change y with (s <| cpuSidePorts := <[i := q1]> (cpuSidePorts s) |> <| cpuSidePorts ::= fun l => <[i := q2]> l |>) end.
  rewrite put_queue_twice. assert (PacketQueue.transmitList q2 = tail (PacketQueue.transmitList q)) as Et2 by (rewrite E2, <- Et; done).
  assert (zlen (PacketQueue.transmitList q) = zlen (PacketQueue.transmitList q2) + 1) as Ez.
  { rewrite Et2, <- Et, El. unfold zlen. cbn [length tail]. lia. }
  wp_step. unfold sendTimingResp. destruct ok.
  - wp_step. pose proof (good_queue now rm sm lent s i q q2 (Some x) H Hq L ltac:(lia)) as H2. eapply wp_mono; [by apply Hin|]. intros [] s3 [H3 E3]. wp_step.
    destruct (zlookup_in (cpuSidePorts s3) i nc) as [q3 Hq3]; [apply (gd_sizes _ _ _ _ _ H3)|destruct (gd_sizes _ _ _ _ _ H) as (_ & _ & <-); done|].
    pose proof (gd_queues _ _ _ _ _ H3 i q3 Hq3) as L3. rewrite fn_lookup_insert in L3. eapply (wp_zoom_at _ _ _ q3); [exact Hq3|].
    eapply wp_mono; [by apply (QueuePromise.finish_wp false now (arrived i (returned s3)) x q3)|]. intros [] q4 (H4 & E4 & _). split; [|done].
    apply (good_lent_ext now rm sm (<[i := None]> (<[i := Some x]> lent))); [intros k; by apply lent_back|]. apply (good_queue now rm sm _ s3 i q3 q4 None H3 Hq3 H4). by rewrite E4.
  - wp_step. wp_step. wp_step. eapply (wp_zoom_at _ _ _ q2); [by apply zlookup_insert_eq|].
    eapply wp_mono; [by apply (QueuePromise.finish_refused_wp false now (arrived i (returned s)) x q2)|]. intros [] q4 (H4 & E4 & _).
    match goal with |- good _ _ _ _ ?y /\ _ => change y with (s <| cpuSidePorts := <[i := q2]> (cpuSidePorts s) |> <| cpuSidePorts ::= fun l => <[i := q4]> l |>) end.
    rewrite put_queue_twice. split; [|done]. apply (good_lent_ext now rm sm (<[i := None]> lent)); [intros k; by apply lent_same|].
    apply (good_queue now rm sm lent s i q q4 None H Hq H4). rewrite E4. unfold zlen in *. cbn [length]. lia.
Qed.
Lemma respRetry_wp now i ok inside q : horizon now -> stable now inside ->
  forall rm sm lent s, good now rm sm lent s -> cpuSidePorts s !! i = Some q -> PacketQueue.waitingOnRetry q = true ->
  wp (recvRespRetry now (sendTimingResp ok inside) i) s (fun _ s' => good now rm sm lent s' /\ begun s' = begun s).
Proof.
  intros Hh Hin rm sm lent s H Hq Hw. pose proof (gd_queues _ _ _ _ _ H i q Hq) as Hok. unfold QueuePromise.queue_ok in Hok. destruct (lent i) as [x|] eqn:El.
  { pose proof (QueuePromise.le_wait _ _ _ _ _ Hok). congruence. }
  unfold recvRespRetry, at_cpuSidePort. wp_step. eapply (wp_zoom_at _ _ _ q); [exact Hq|]. eapply wp_mono; [by apply QueuePromise.retry_start_wp|].
  intros [] q1 [-> Hs]. by apply (port_send_wp now i ok inside q).
Qed.
Lemma sendEvent_wp now i ok inside q : horizon now -> stable now inside ->
  forall rm sm lent s, good now rm sm lent s -> lent i = None -> cpuSidePorts s !! i = Some q -> PacketQueue.sendEvent q = Some now ->
  wp (processSendEvent now (sendTimingResp ok inside) i) s (fun _ s' => good now rm sm lent s' /\ begun s' = begun s).
Proof.
  intros Hh Hin rm sm lent s H El Hq Hw. pose proof (gd_queues _ _ _ _ _ H i q Hq) as Hok. rewrite El in Hok.
  unfold processSendEvent, at_cpuSidePort. wp_step. eapply (wp_zoom_at _ _ _ q); [exact Hq|]. eapply wp_mono; [by apply QueuePromise.event_start_wp|].
  intros [] q1 [-> Hs]. by apply (port_send_wp now i ok inside q).
Qed.

(** ** Calls *)

Lemma perform_stable now x : horizon now -> call_ok x -> stable now (perform c now x).
Proof.
  intros Hh. revert x.
  set (ok_all := fix all l := match l with [] => True | y :: l' => call_ok y /\ all l' end).
  set (do_all := fix all l : comp t unit := match l with [] => mret tt | y :: l' => perform c now y;; all l' end).
  assert (forall l, Forall (fun x => call_ok x -> stable now (perform c now x)) l -> ok_all l -> stable now (do_all l)) as Hall.
  { induction 1 as [|x l Hx Hl IH]; intros Hok rm sm lent s H; [exact (conj H eq_refl)|]. destruct Hok as [Hokx Hok]. change (do_all (x :: l)) with (perform c now x;; do_all l).
    wp_step. eapply wp_mono; [by apply Hx|]. intros [] s1 [H1 E1]. eapply wp_mono; [by apply IH|]. intros [] s2 [H2 E2]. split; [done|congruence]. }
  apply (call_rect' (fun x => call_ok x -> stable now (perform c now x))).
  - intros cpu p ok l IH (Hcpu & Hp & Hok) rm sm lent s H. change (perform c now (Request cpu p ok l)) with (s ← get; when_ (permits s (Request cpu p ok l)) (request c now cpu p ok (do_all l))).
    wp_step. wp_step. apply wp_when; [intros Hperm|done]. apply request_wp; try done. by apply Hall.
  - intros mem p Hf rm sm lent s H. change (perform c now (Response mem p)) with (s ← get; when_ (permits s (Response mem p)) (response c now mem p)).
    wp_step. wp_step. apply wp_when; [intros Hperm|done]. by apply xbar_response_wp.
  - intros mem l IH Hok rm sm lent s H. change (perform c now (ReqRetry mem l)) with (s ← get; when_ (permits s (ReqRetry mem l)) (reqRetry c now mem (do_all l))).
    wp_step. wp_step. apply wp_when; [intros Hperm%bool_decide_eq_true|done]. apply reqRetry_wp; try done. by apply Hall.
  - intros cpu ok l IH Hok rm sm lent s H.
    change (perform c now (RespRetry cpu ok l)) with (s ← get; when_ (permits s (RespRetry cpu ok l)) (recvRespRetry now (sendTimingResp ok (do_all l)) cpu)).
    wp_step. wp_step. apply wp_when; [intros Hperm|done]. cbn [permits] in Hperm. destruct (cpuSidePorts s !! cpu) as [q|] eqn:Eq; [|done].
    apply (respRetry_wp now cpu ok _ q); try done. by apply Hall.
Qed.
Lemma performs_stable now l : horizon now -> Forall call_ok l -> stable now (performs c now l).
Proof.
  intros Hh. induction 1 as [|x l Hx Hl IH]; intros rm sm lent s H; cbn [performs]; [by wp_step|].
  wp_step. eapply wp_mono; [by apply perform_stable|]. intros [] s1 [H1 E1]. eapply wp_mono; [by apply IH|]. intros [] s2 [H2 E2]. split; [done|congruence].
Qed.

(** ** Runs *)

(** Between calls. *)
Definition promise now s : Prop := good now (fun _ => Free) (fun _ => Free) (fun _ => None) s /\ begun s = [].
(** No event is due before [now]. *)
Definition until now s : Prop :=
  (forall j l w, reqLayers s !! j = Some l -> Layer.releaseEvent l = Some w -> now <= w) /\
  (forall i l w, respLayers s !! i = Some l -> Layer.releaseEvent l = Some w -> now <= w) /\
  (forall i q w, cpuSidePorts s !! i = Some q -> PacketQueue.sendEvent q = Some w -> now <= w).
(** An event is served at its tick. *)
Definition allowed now (st : step) s : Prop :=
  match st with
  | Call x => call_ok x
  | ReleaseReq mem inside => Forall call_ok inside /\ exists l, reqLayers s !! mem = Some l /\ Layer.releaseEvent l = Some now
  | ReleaseResp cpu inside => Forall call_ok inside /\ exists l, respLayers s !! cpu = Some l /\ Layer.releaseEvent l = Some now
  | SendEvent cpu ok inside => Forall call_ok inside /\ exists q, cpuSidePorts s !! cpu = Some q /\ PacketQueue.sendEvent q = Some now
  end.
Lemma promise_later now now' s : promise now s -> now <= now' -> until now' s -> promise now' s.
Proof.
  intros [[] Hb] Hn (U1 & U2 & U3). split; [|done]. split; try done.
  - by eapply ClockedSpec.clock_later.
  - by eapply group_later.
  - by eapply group_later.
  - intros i q Hq. apply (QueuePromise.good_time false now now'); [done|by apply gd_queues0|]. intros w. by apply (U3 i q).
Qed.
Lemma xbar_exec_wp now st s : promise now s -> horizon now -> allowed now st s -> wp (exec c now st) s (fun _ s' => promise now s').
Proof.
  intros [H Hb] Hh Ha. assert (forall m : comp t unit, wp m s (fun _ s' => good now (fun _ => Free) (fun _ => Free) (fun _ => None) s' /\ begun s' = begun s) -> wp m s (fun _ s' => promise now s')) as Hw.
  { intros m Hm. eapply wp_mono; [exact Hm|]. intros [] s' [H' E]. split; [done|congruence]. }
  destruct st as [x|mem l|cpu l|cpu ok l]; cbn [exec allowed] in *; apply Hw.
  - by apply perform_stable.
  - destruct Ha as (Hl & y & Hy & He). by apply (releaseReq_wp now mem _ Hh (performs_stable now l Hh Hl) _ _ _ s y).
  - destruct Ha as (Hl & y & Hy & He). by apply (releaseResp_wp now cpu _ Hh (performs_stable now l Hh Hl) _ _ _ s y).
  - destruct Ha as (Hl & q & Hq & He). by apply (sendEvent_wp now cpu ok _ q Hh (performs_stable now l Hh Hl)).
Qed.
Fixpoint run (l : list (Z * step)) : comp t unit := match l with [] => mret tt | (now, st) :: l' => exec c now st;; run l' end.
Fixpoint legal_run now (l : list (Z * step)) s : Prop :=
  match l with
  | [] => True
  | (now', st) :: l' => now <= now' /\ horizon now' /\ until now' s /\ allowed now' st s /\ forall s', exec c now' st s = Ok (tt, s') -> legal_run now' l' s'
  end.
Fixpoint end_time now (l : list (Z * step)) : Z := match l with [] => now | (now', _) :: l' => end_time now' l' end.
Lemma xbar_run_wp l : forall now s, promise now s -> legal_run now l s -> wp (run l) s (fun _ s' => promise (end_time now l) s').
Proof.
  induction l as [|[now' st] l IH]; intros now s H Hl; cbn [run end_time]; [by wp_step|]. destruct Hl as (Hn & Hh & Hu & Ha & Hl).
  pose proof (xbar_exec_wp now' st s (promise_later _ _ _ H Hn Hu) Hh Ha) as Hw. destruct (wp_inv _ _ _ Hw) as ([] & s1 & E & H1).
  wp_step. unfold wp at 1. rewrite E. by apply IH; [|apply Hl].
Qed.
(** A crossbar that has learnt its ranges and carried nothing. *)
Record fresh s : Prop := {
  fr_sizes : zlen (reqLayers s) = nm /\ zlen (respLayers s) = nc /\ zlen (cpuSidePorts s) = nc;
  fr_req : Forall (eq Layer.create) (reqLayers s); fr_resp : Forall (eq Layer.create) (respLayers s);
  fr_queues : Forall (eq (PacketQueue.create false)) (cpuSidePorts s);
  fr_clock : clock s = Clocked.create; fr_routes : routeTo s = ∅;
  fr_empty : begun s = [] /\ stalledReq s = [] /\ stalledResp s = [] /\ refusing s = [] /\ accepted s = [] /\ returned s = [] }.
Lemma group_fresh now ls : Forall (eq Layer.create) ls -> group now (fun _ => Free) ls [] [] [].
Proof.
  intros H. assert (ls = replicate (length ls) Layer.create) as -> by (induction H as [|x l <- Hl IH]; [done|cbn; by rewrite <- IH]). apply group_create.
Qed.
Lemma fresh_promise s : fresh s -> gotAllAddrRanges s = true -> represents (portMap s) ranges -> defaultPortID s = dport -> defaultRange s = drange -> promise 0 s.
Proof.
  intros [] Hg Hm Hp Hr. destruct fr_empty0 as (E1 & E2 & E3 & E4 & E5 & E6). split; [|done]. split.
  - rewrite fr_clock0. pose proof (co_period Hc). by split; cbn; [lia|].
  - done.
  - done.
  - rewrite E1, E2, E4. by apply group_fresh.
  - rewrite E3. by apply group_fresh.
  - rewrite fr_routes0, E1, E5, E6. by split.
  - intros i q Hq. rewrite E6. rewrite <- (Forall_zlookup _ _ _ _ fr_queues0 Hq). apply (QueuePromise.create_good false false).
  - intros i q Hq. unfold load. rewrite fr_routes0, E1. by rewrite <- (Forall_zlookup _ _ _ _ fr_queues0 Hq).
Qed.
End Invariant.

(** A crossbar that has learnt the ranges of all its ports, from the start. *)
Lemma learnt_promise c (n m : nat) b ops x got : let nm := ports n b in
  config_ok c (Z.of_nat m) (Z.of_nat nm) x.1 (default_id n b) -> (useDefaultRange c = true -> b = true) -> (0 < nm)%nat ->
  Forall (legal_change (Z.of_nat nm)) ops -> learn_spec c (default_id n b) ops ([], no_range) (replicate nm false) = Some (x, got) -> forallb id got = true ->
  exists s, learn c ops (create n m b) = Ok (tt, s) /\ promise c (Z.of_nat m) (Z.of_nat nm) x.1 (default_id n b) x.2 0 s.
Proof.
  intros nm Hc Hd Hn Hops Hl Hg. assert (zlen (replicate nm false) = Z.of_nat nm) as Ez by (unfold zlen; by rewrite length_replicate).
  rewrite <- Ez in Hops. pose proof (learn_run c _ ops _ _ _ (create_learnt c n m b Hn Hd) Hops) as Hw. fold nm in Hw. rewrite Hl in Hw.
  destruct (wp_inv _ _ _ Hw) as ([] & s & E & [] & T). exists s. split; [done|]. unfold same_traffic in T. cbn [create] in T.
  destruct T as (T1 & T2 & T3 & T4 & T5 & T6 & T7 & T8 & T9 & T10 & T11 & _). apply fresh_promise; try done.
  - split; rewrite ?T1, ?T2, ?T3; try done.
    + unfold zlen. cbn. by rewrite !length_replicate.
    + by apply Forall_replicate.
    + by apply Forall_replicate.
    + by apply Forall_replicate.
  - by rewrite ln_all, Hg.
Qed.

(** ** Properties *)

(** Two requestors of one memory-side port: the second waits for the layer, is refused by the
    memory when its turn comes, and is accepted when the memory calls back. *)
Definition demo_config : Config := mkConfig 1 1 1 8 false 10 1000000.
Definition demo_packet (cmd : MemCmd.Command) (a id : Z) : Pkt.t :=
  Pkt.mkPkt cmd (Z.lor Pkt.VALID_ADDR Pkt.VALID_SIZE) (Request.mkRequest (Some a) (Some 4) 0 1 None None [] (fun l => l) id) [] a false 4 [] 0 3 2.
Definition demo_read (a id : Z) : Pkt.t := demo_packet MemCmd.ReadReq a id.
Definition demo_answer (a id : Z) : Pkt.t := demo_packet MemCmd.ReadResp a id.
Definition demo_changes : list (Z * list AddrRange.t) := [(1, [XBarRanges.span 256 512]); (0, [XBarRanges.span 0 256])].
Definition demo_ranges : list (AddrRange.t * Z) := [(XBarRanges.span 0 256, 0); (XBarRanges.span 256 512, 1)].
Definition demo_run : list (Z * step) :=
  [(12, Call (Request 0 (demo_read 0 7) true [])); (12, Call (Request 1 (demo_read 64 8) true []));
   (32, ReleaseReq 0 [Request 1 (demo_read 64 8) false []]); (35, Call (Response 0 (demo_answer 0 7))); (50, ReleaseReq 0 []);
   (51, Call (ReqRetry 0 [Request 1 (demo_read 64 8) true []])); (53, SendEvent 0 true [])].

Definition until_b now (s : t) : bool :=
  let early (e : event) := match e with Some w => now <=? w | None => true end in
  forallb (fun l => early (Layer.releaseEvent l)) (reqLayers s) && forallb (fun l => early (Layer.releaseEvent l)) (respLayers s) &&
  forallb (fun q => early (PacketQueue.sendEvent q)) (cpuSidePorts s).
Lemma until_b_ok now s : until_b now s = true -> until now s.
Proof.
  intros [[H1 H2]%andb_true_iff H3]%andb_true_iff. rewrite forallb_forall in H1, H2, H3.
  split_and!; intros i l w Hl Hw; apply elem_of_zlookup, list_elem_of_In in Hl; [specialize (H1 l Hl)|specialize (H2 l Hl)|specialize (H3 l Hl)];
    rewrite Hw in *; by apply Z.leb_le.
Qed.
Lemma xbar_demo_ok : config_ok demo_config 2 2 demo_ranges InvalidPortID.
Proof. split; try done. - intros x [->|[->|[]%elem_of_nil]%elem_of_cons]%elem_of_cons; done. - by right. Qed.
Lemma demo_read_fine a id : 0 <= a < 256 -> route demo_config demo_ranges InvalidPortID no_range (range_of (demo_read a id)) <> None ->
  fine_request demo_config demo_ranges InvalidPortID no_range (demo_read a id).
Proof. intros Ha Hr. split; [by split|cbn; lia|done]. Qed.
Ltac legal_step :=
  match goal with
  | |- _ /\ _ => split
  | |- True => exact I
  | |- forall s', _ = Ok (tt, s') -> _ => intros ? Es; vm_compute in Es; injection Es as <-
  | |- until _ _ => apply until_b_ok; vm_compute; done
  | |- horizon _ _ => split; vm_compute; done
  | |- fine_request _ _ _ _ _ => apply demo_read_fine; vm_compute; done
  | |- fine _ _ _ => split; vm_compute; done
  | |- Forall _ [] => apply Forall_nil_2
  | |- Forall _ (_ :: _) => apply Forall_cons_2
  | |- exists l, _ => eexists; split; [vm_compute; reflexivity|vm_compute; reflexivity]
  | |- _ => progress (cbn [allowed call_ok])
  end.
End XBarSpec.
