(* ===== verification/EventQueue.v ===== *)
(** The event queue of the simulator ([sim/eventq.hh], [sim/eventq.cc]): events linked by
    two pointers, [nextBin] from the top of a bin to that of the next, [nextInBin] down the
    stack of a bin.  The heap is explicit, so stale pointers and aliasing are the code's. *)
From S2P Require Import Prelude Flags Packet.
From stdpp Require Import gmap.
Open Scope Z_scope.

Module EventQueue.
Import Flags.

(** ** Events *)

(** [FlagsType] bits. *)
Definition Squashed : Z := 1.
Definition Scheduled : Z := 2.
Definition Managed : Z := 4.
Definition IsExitEvent : Z := 16.
Definition IsMainQueue : Z := 32.
Definition Initialized : Z := 31296.
Definition InitMask : Z := 65472.

(** An object pointer; [None] is the null pointer.  [mine] says that the member [queue] is
    the queue of this file. *)
Definition ptr : Type := Z.
Record Event := mkEvent {
  nextBin : option ptr; nextInBin : option ptr; when : Z; priority : Z; flags : Z; mine : bool }.
#[global] Instance eta_Event : Settable Event := fun r =>
  mkEvent (nextBin r) (nextInBin r) (when r) (priority r) (flags r) (mine r).
Definition new_Event (p f : Z) : Event := mkEvent None None 0 p (Z.lor Initialized f) false.

Definition is_scheduled (e : Event) : bool := isSet (flags e) Scheduled.
Definition squashed (e : Event) : bool := isSet (flags e) Squashed.
Definition initialized (e : Event) : bool := Z.land (flags e) InitMask =? Initialized.

Definition ev_lt (l r : Event) : bool := (when l <? when r) || (when l =? when r) && (priority l <? priority r).
Definition ev_le (l r : Event) : bool := (when l <? when r) || (when l =? when r) && (priority l <=? priority r).
Definition ev_eq (l r : Event) : bool := (when l =? when r) && (priority l =? priority r).

(** ** The queue *)

Record t := mkQueue { heap : gmap ptr Event; head : option ptr; curTick : Z; async_queue : list ptr }.
#[global] Instance eta_t : Settable t := fun r => mkQueue (heap r) (head r) (curTick r) (async_queue r).
Definition create (h : gmap ptr Event) : t := mkQueue h None 0 [].

(** A pointer that is not that of an object is not followed. *)
Definition deref (p : ptr) : comp t Event :=
  s ← get; match heap s !! p with Some e => mret e | None => lift (Fault OutOfBounds) end.
Definition store (p : ptr) (f : Event -> Event) : comp t unit :=
  e ← deref p; modify (fun s => s <| heap ::= <[p := f e]> |>).
Definition the (p : option ptr) : comp t ptr :=
  match p with Some p => mret p | None => lift (Fault OutOfBounds) end.

Definition insertBefore (event : ptr) (curr : option ptr) : comp t ptr :=
  e ← deref event;
  before ← (match curr with None => mret true | Some c => ec ← deref c; mret (ev_lt e ec) end);
  (if before : bool
   then store event (fun e => e <| nextBin := curr |> <| nextInBin := None |>)
   else c ← the curr; ec ← deref c; store event (fun e => e <| nextBin := nextBin ec |> <| nextInBin := curr |>));;
  mret event.

(** [while (curr && *curr < *event)] *)
Fixpoint find_bin (fuel : nat) (event prev : ptr) (curr : option ptr) : comp t (ptr * option ptr) :=
  match curr with
  | None => mret (prev, None)
  | Some c =>
      ec ← deref c; e ← deref event;
      if ev_lt ec e
      then match fuel with O => lift (Fault OutOfFuel) | S fuel' => find_bin fuel' event c (nextBin ec) end
      else mret (prev, Some c)
  end.
(** As many steps as there are objects. *)
Definition steps (s : t) : nat := S (size (heap s)).

Definition insert (event : ptr) : comp t unit :=
  s ← get;
  at_head ← (match head s with None => mret true | Some h => e ← deref event; eh ← deref h; mret (ev_le e eh) end);
  if at_head : bool then h ← insertBefore event (head s); modify (fun s => s <| head := Some h |>)
  else
    h ← the (head s); eh ← deref h;
    '(prev, curr) ← find_bin (steps s) event h (nextBin eh);
    p ← insertBefore event curr;
    store prev (fun e => e <| nextBin := Some p |>).

(** [while (event != next)], down the stack. *)
Fixpoint find_in_bin (fuel : nat) (event curr : ptr) (next : option ptr) : comp t (ptr * ptr) :=
  match next with
  | None => lift (Fault Panic)
  | Some n =>
      if event =? n then mret (curr, n)
      else
        en ← deref n;
        match fuel with O => lift (Fault OutOfFuel) | S fuel' => find_in_bin fuel' event n (nextInBin en) end
  end.
Definition removeItem (event top : ptr) : comp t (option ptr) :=
  et ← deref top;
  if event =? top then
    match nextInBin et with
    | None => mret (nextBin et)
    | Some next => store next (fun e => e <| nextBin := nextBin et |>);; mret (Some next)
    end
  else
    s ← get;
    '(curr, next) ← find_in_bin (steps s) event top (nextInBin et);
    en ← deref next;
    store curr (fun e => e <| nextInBin := nextInBin en |>);;
    mret (Some top).

Definition remove (event : ptr) : comp t unit :=
  s ← get;
  match head s with
  | None => lift (Fault Panic)
  | Some h =>
      e ← deref event; eh ← deref h;
      assert_ (mine e);;
      if ev_eq eh e then h' ← removeItem event h; modify (fun s => s <| head := h' |>)
      else
        '(prev, curr) ← find_bin (steps s) event h (nextBin eh);
        match curr with
        | None => lift (Fault Panic)
        | Some c =>
            ec ← deref c;
            if negb (ev_eq ec e) then lift (Fault Panic)
            else p ← removeItem event c; store prev (fun e => e <| nextBin := p |>)
        end
  end.

(** ** Scheduling *)

Section Code.
(** [inParallelMode], and whether the calling thread's queue is another one. *)
Context (inParallelMode elsewhere : bool).

(** [acquireImpl] of a managed event does nothing; [releaseImpl] deletes it unless it is
    scheduled. *)
Definition release (event : ptr) : comp t unit :=
  e ← deref event;
  when_ (isSet (flags e) Managed && negb (is_scheduled e)) (modify (fun s => s <| heap ::= delete event |>)).

Definition asyncInsert (event : ptr) : comp t unit := modify (fun s => s <| async_queue ::= fun l => l ++ [event] |>).
Definition setWhen (event : ptr) (w : Z) : comp t unit := store event (fun e => e <| when := w |> <| mine := true |>).
Definition schedule (event : ptr) (w : Z) (global : bool) : comp t unit :=
  s ← get; e ← deref event;
  assert_ (curTick s <=? w);; assert_ (negb (is_scheduled e));; assert_ (initialized e);;
  setWhen event w;;
  (if inParallelMode && (elsewhere || global) then asyncInsert event else insert event);;
  store event (fun e => e <| flags ::= set Scheduled |>).
Definition deschedule (event : ptr) : comp t unit :=
  e ← deref event;
  assert_ (is_scheduled e);; assert_ (initialized e);; assert_ (negb inParallelMode || negb elsewhere);;
  remove event;;
  store event (fun e => e <| flags ::= fun f => clear Scheduled (clear Squashed f) |>);;
  release event.
Definition reschedule (event : ptr) (w : Z) (always : bool) : comp t unit :=
  s ← get; e ← deref event;
  assert_ (curTick s <=? w);; assert_ (always || is_scheduled e);; assert_ (initialized e);;
  assert_ (negb inParallelMode || negb elsewhere);;
  when_ (is_scheduled e) (remove event);;
  setWhen event w;;
  insert event;;
  store event (fun e => e <| flags ::= fun f => set Scheduled (clear Squashed f) |>).
Definition squash (event : ptr) : comp t unit := store event (fun e => e <| flags ::= set Squashed |>).
Definition checkpointReschedule (event : ptr) : comp t unit :=
  e ← deref event; when_ (is_scheduled e) (insert event).
Definition handleAsyncInsertions : comp t unit :=
  assert_ (negb elsewhere);;
  s ← get;
  modify (fun s => s <| async_queue := [] |>);;
  foldr (fun p m => insert p;; m) (mret tt) (async_queue s).

(** ** Service *)

(** The event at the head leaves the queue. *)
Definition pop : comp t ptr :=
  s ← get;
  event ← the (head s);
  e ← deref event;
  store event (fun e => e <| flags ::= clear Scheduled |>);;
  (match nextInBin e with
   | Some next => store next (fun n => n <| nextBin := nextBin e |>);; modify (fun s => s <| head := Some next |>)
   | None => modify (fun s => s <| head := nextBin e |>)
   end);;
  mret event.
Definition setCurTick (w : Z) : comp t unit := modify (fun s => s <| curTick := w |>).

(** [process] is the virtual method of the event; the answer is the exit event served. *)
Context (process : ptr -> comp t unit).
Definition serviceOne : comp t (option ptr) :=
  event ← pop;
  e ← deref event;
  if negb (squashed e) then
    setCurTick (when e);;
    process event;;
    e ← deref event;
    if isSet (flags e) IsExitEvent
    then assert_ (negb (isSet (flags e) Managed) || negb (isSet (flags e) IsMainQueue));; mret (Some event)
    else release event;; mret None
  else
    store event (fun e => e <| flags ::= clear Squashed |>);;
    release event;; mret None.
Fixpoint serviceEvents (fuel : nat) (w : Z) : comp t unit :=
  s ← get;
  match head s with
  | None => setCurTick w
  | Some h =>
      eh ← deref h;
      if w <? when eh then setCurTick w
      else match fuel with O => lift (Fault OutOfFuel) | S fuel' => _ ← serviceOne; serviceEvents fuel' w end
  end.
End Code.

(** ** Debugging *)

(** [debugVerify]: the events of a stack, then the next bin; [seen] is the map of nodes. *)
Fixpoint verify_stack (fuel : nat) (p : option ptr) (acc : Z * Z * gset ptr) : comp t (option (Z * Z * gset ptr)) :=
  match p with
  | None => mret (Some acc)
  | Some p =>
      e ← deref p;
      let '(time, prio, seen) := acc in
      if when e <? time then mret None
      else if (when e =? time) && (priority e <? prio) then mret None
      else if decide (p ∈ seen) then mret None
      else match fuel with
           | O => lift (Fault OutOfFuel)
           | S fuel' => verify_stack fuel' (nextInBin e) (when e, priority e, {[ p ]} ∪ seen)
           end
  end.
Fixpoint verify_bins (fuel : nat) (p : option ptr) (acc : Z * Z * gset ptr) : comp t bool :=
  match p with
  | None => mret true
  | Some p =>
      s ← get;
      r ← verify_stack (steps s) (Some p) acc;
      match r with
      | None => mret false
      | Some acc' =>
          e ← deref p;
          match fuel with O => lift (Fault OutOfFuel) | S fuel' => verify_bins fuel' (nextBin e) acc' end
      end
  end.
Definition debugVerify : comp t bool := s ← get; verify_bins (steps s) (head s) (0, 0, ∅).
Definition replaceHead (h : option ptr) : comp t (option ptr) :=
  s ← get; modify (fun s => s <| head := h |>);; mret (head s).
Definition nextTick : comp t Z := s ← get; h ← the (head s); e ← deref h; mret (when e).
End EventQueue.
