(* ===== verification/EventQueueRep.v ===== *)
(** The linked bins of EventQueue.v represent one list of events, sorted by tick and
    priority; insertion and removal keep the links and act on that list. *)
From S2P Require Import Prelude Flags Packet EventQueue.
From stdpp Require Import gmap sorting.
Open Scope Z_scope.
Import Flags EventQueue.

Module QueueRep.
#[local] Arguments steps : simpl never.

(** ** Keys *)

Definition key : Type := Z * Z.
Definition klt (a b : key) : bool := (a.1 <? b.1) || (a.1 =? b.1) && (a.2 <? b.2).
Definition key_of (e : Event) : key := (when e, priority e).
Lemma ev_lt_key e e' : ev_lt e e' = klt (key_of e) (key_of e').
Proof. done. Qed.
Lemma klt_spec a b : klt a b = true <-> a.1 < b.1 \/ a.1 = b.1 /\ a.2 < b.2.
Proof.
  unfold klt. rewrite orb_true_iff, andb_true_iff, !Z.ltb_lt, Z.eqb_eq. done.
Qed.
Lemma klt_false a b : klt a b = false <-> b.1 < a.1 \/ b.1 = a.1 /\ b.2 <= a.2.
Proof. rewrite <- not_true_iff_false, klt_spec. lia. Qed.
Lemma klt_irrefl a : klt a a = false.
Proof. apply klt_false. lia. Qed.
Lemma klt_trans a b c : klt a b = true -> klt b c = true -> klt a c = true.
Proof. rewrite !klt_spec. lia. Qed.
Lemma key_tri a b : klt a b = false -> klt b a = false -> a = b.
Proof. rewrite !klt_false. destruct a, b; cbn. intros. f_equal; lia. Qed.
Lemma ev_le_key e e' : ev_le e e' = negb (klt (key_of e') (key_of e)).
Proof.
  apply eq_true_iff_eq. rewrite negb_true_iff, klt_false. unfold ev_le, key_of. cbn.
  rewrite orb_true_iff, andb_true_iff, Z.ltb_lt, Z.eqb_eq, Z.leb_le. lia.
Qed.
Lemma ev_eq_key e e' : ev_eq e e' = bool_decide (key_of e = key_of e').
Proof.
  apply eq_true_iff_eq. rewrite bool_decide_eq_true. unfold ev_eq, key_of.
  rewrite andb_true_iff, !Z.eqb_eq. split; [intros [-> ->]; done|intros [= ? ?]; done].
Qed.

(** ** Bins *)

Definition bin : Type := key * list ptr.
Definition ptrs (bins : list bin) : list ptr := concat (snd <$> bins).

(** [l] is a stack of events with key [k], linked by [nextInBin]. *)
Fixpoint stack (h : gmap ptr Event) (k : key) (l : list ptr) : Prop :=
  match l with
  | [] => True
  | p :: l' => exists e, h !! p = Some e /\ key_of e = k /\ nextInBin e = hd_error l' /\ stack h k l'
  end.
(** The bins are linked by the [nextBin] of their tops. *)
Fixpoint chain (h : gmap ptr Event) (top : option ptr) (bins : list bin) : Prop :=
  match bins with
  | [] => top = None
  | (k, b) :: bins' => exists p l e, b = p :: l /\ top = Some p /\ h !! p = Some e /\ stack h k b /\ chain h (nextBin e) bins'
  end.

(** The heaps agree at [p] on everything but what only the top of a bin needs. *)
Lemma stack_frame h h' k l : (forall p, p ∈ l -> h' !! p = h !! p) -> stack h k l -> stack h' k l.
Proof.
  induction l as [|p l IH]; [done|]. intros Hf (e & He & Hk & Hn & Hs). exists e.
  rewrite Hf by (by left). split; [done|]. split; [done|]. split; [done|]. apply IH; [|done]. intros q Hq. apply Hf. by right.
Qed.
Lemma chain_frame h h' top bins : (forall p, p ∈ ptrs bins -> h' !! p = h !! p) -> chain h top bins -> chain h' top bins.
Proof.
  revert top. induction bins as [|[k b] bins IH]; [done|]. intros top Hf (p & l & e & -> & -> & He & Hs & Hc).
  unfold ptrs in Hf. cbn in Hf.
  exists p, l, e. split; [done|]. split; [done|]. split; [rewrite Hf; [done|by left]|].
  split; [eapply stack_frame; [|exact Hs]|apply IH; [|done]]; intros q Hq; apply (Hf q).
  - by apply (elem_of_app (p :: l)); left.
  - by apply (elem_of_app (p :: l)); right.
Qed.
Lemma stack_in h k l p : stack h k l -> p ∈ l -> exists e, h !! p = Some e /\ key_of e = k.
Proof.
  induction l as [|q l IH]; [by intros _ ?%elem_of_nil|]. intros (e & He & Hk & _ & Hs) [->|Hp]%elem_of_cons; [by exists e|by apply IH].
Qed.
Lemma chain_in h top bins p : chain h top bins -> p ∈ ptrs bins -> is_Some (h !! p).
Proof.
  revert top. induction bins as [|[k b] bins IH]; [by intros top _ ?%elem_of_nil|].
  intros top (q & l & e & -> & -> & He & Hs & Hc) Hp. unfold ptrs in Hp. cbn [fmap list_fmap concat snd] in Hp.
  apply elem_of_app in Hp as [Hp|Hp]; [|by eapply IH]. destruct (stack_in _ _ _ _ Hs Hp) as (e' & ? & _). by eexists.
Qed.
(** There are no more distinct pointers than objects: the searches have enough steps. *)
Lemma objects_size (h : gmap ptr Event) l : NoDup l -> (forall p, p ∈ l -> is_Some (h !! p)) -> (length l <= size h)%nat.
Proof.
  intros Hn Hin. rewrite <- size_dom, <- (size_list_to_set (C := gset ptr)) by done. apply subseteq_size.
  intros p Hp%elem_of_list_to_set. apply elem_of_dom. by apply Hin.
Qed.
Lemma ptrs_size h top bins : chain h top bins -> NoDup (ptrs bins) -> (length (ptrs bins) <= size h)%nat.
Proof. intros Hc Hn. apply objects_size; [done|]. intros p. by eapply chain_in. Qed.
Lemma bins_ptrs h top bins : chain h top bins -> (length bins <= length (ptrs bins))%nat.
Proof.
  revert top. induction bins as [|[k b] bins IH]; cbn; [lia|]. intros top (q & l & e & -> & -> & He & Hs & Hc).
  specialize (IH _ Hc). unfold ptrs in *. cbn. rewrite length_app. lia.
Qed.

(** ** Steps on the heap *)

Lemma deref_wp p s e (Q : Event -> t -> Prop) : heap s !! p = Some e -> Q e s -> wp (deref p) s Q.
Proof. intros He HQ. unfold deref. wp_step. wp_step. by rewrite He. Qed.
Lemma store_wp p f s e (Q : unit -> t -> Prop) : heap s !! p = Some e -> Q tt (s <| heap := <[p := f e]> (heap s) |>) -> wp (store p f) s Q.
Proof. intros He HQ. unfold store. wp_step. eapply deref_wp; [exact He|]. wp_step. exact HQ. Qed.

Lemma the_wp c s (Q : ptr -> t -> Prop) : Q c s -> wp (the (Some c)) s Q.
Proof. exact id. Qed.

(** Only links differ. *)
Definition relinked (e e' : Event) : Prop := key_of e' = key_of e /\ flags e' = flags e /\ mine e' = mine e.
Definition linked (h h' : gmap ptr Event) : Prop :=
  forall q, match h !! q, h' !! q with Some e, Some e' => relinked e e' | None, None => True | _, _ => False end.
#[global] Instance linked_pre : PreOrder linked.
Proof.
  split.
  - intros h q. by destruct (h !! q).
  - intros h1 h2 h3 H1 H2 q. specialize (H1 q). specialize (H2 q).
    destruct (h1 !! q), (h2 !! q), (h3 !! q); try done. destruct H1 as (? & ? & ?), H2 as (? & ? & ?). split; [|split]; congruence.
Qed.
Lemma linked_insert h p e e' : h !! p = Some e -> relinked e e' -> linked h (<[p := e']> h).
Proof.
  intros He Hr q. destruct (decide (q = p)) as [->|Hq]; [by rewrite lookup_insert_eq, He|].
  rewrite lookup_insert_ne by done. by destruct (h !! q).
Qed.
Lemma linked_lookup h h' q e : linked h h' -> h !! q = Some e -> exists e', h' !! q = Some e' /\ relinked e e'.
Proof. intros H He. specialize (H q). rewrite He in H. destruct (h' !! q); [by eexists|done]. Qed.
(** The heaps differ at the pointers [l] only. *)
Definition within (l : list ptr) (h h' : gmap ptr Event) : Prop := forall q, q ∉ l -> h' !! q = h !! q.

Lemma ptrs_cons k b bins : ptrs ((k, b) :: bins) = b ++ ptrs bins.
Proof. done. Qed.
Lemma chain_insert h top bins p e : p ∉ ptrs bins -> chain h top bins -> chain (<[p := e]> h) top bins.
Proof. intros Hp. apply chain_frame. intros q Hq. rewrite lookup_insert_ne; [done|]. by intros ->. Qed.
Lemma stack_insert h k l p e : p ∉ l -> stack h k l -> stack (<[p := e]> h) k l.
Proof. intros Hp. apply stack_frame. intros q Hq. rewrite lookup_insert_ne; [done|]. by intros ->. Qed.

(** ** Insertion *)

Fixpoint place_bin (k : key) (p : ptr) (bins : list bin) : list bin :=
  match bins with
  | [] => [(k, [p])]
  | (k', b) :: bins' =>
      if klt k k' then (k, [p]) :: bins
      else if klt k' k then (k', b) :: place_bin k p bins' else (k', p :: b) :: bins'
  end.
Lemma place_ptrs k p bins : ptrs (place_bin k p bins) ≡ₚ p :: ptrs bins.
Proof.
  induction bins as [|[k' b] bins IH]; [done|]. cbn [place_bin]. destruct (klt k k'); [done|]. destruct (klt k' k); [|done].
  rewrite !ptrs_cons, IH. by rewrite Permutation_middle.
Qed.

Lemma insertBefore_wp p curr bins s e : heap s !! p = Some e -> chain (heap s) curr bins -> p ∉ ptrs bins ->
  (forall b, hd_error bins = Some b -> klt b.1 (key_of e) = false) ->
  wp (insertBefore p curr) s (fun q s' => q = p /\ exists e', s' = s <| heap := <[p := e']> (heap s) |> /\ relinked e e' /\
    chain (<[p := e']> (heap s)) (Some p) (place_bin (key_of e) p bins)).
Proof.
  intros He Hc Hp Hk. unfold insertBefore. wp_step. eapply deref_wp; [exact He|]. wp_step.
  assert (forall e', nextInBin e' = None -> nextBin e' = curr -> key_of e' = key_of e ->
    chain (<[p := e']> (heap s)) (Some p) ((key_of e, [p]) :: bins)) as Hnew.
  { intros e' E1 E2 E3. exists p, [], e'. split; [done|]. split; [done|]. rewrite lookup_insert_eq. split; [done|].
    split; [exists e'; by rewrite lookup_insert_eq|]. rewrite E2. by apply chain_insert. }
  destruct bins as [|[k' b] bins].
  - cbn in Hc. subst curr. wp_step. wp_step. eapply store_wp; [exact He|]. wp_step. split; [done|].
    eexists. split; [reflexivity|]. split; [done|]. by apply Hnew.
  - pose proof Hc as (c & l & ec & -> & Ec & Hec & Hs & Hcc). subst curr. cbn [place_bin].
    destruct (stack_in _ _ _ c Hs) as (ec' & E & Ek); [by left|]. rewrite Hec in E. injection E as <-.
    specialize (Hk _ eq_refl). cbn in Hk.
    wp_step. eapply deref_wp; [exact Hec|]. wp_step. rewrite ev_lt_key, Ek. destruct (klt (key_of e) k') eqn:El.
    + wp_step. eapply store_wp; [exact He|]. wp_step. split; [done|]. eexists. split; [reflexivity|]. split; [done|]. by apply Hnew.
    + rewrite Hk. assert (k' = key_of e) as -> by by apply key_tri.
      wp_step. wp_step. apply the_wp. wp_step. eapply deref_wp; [exact Hec|]. eapply store_wp; [exact He|]. wp_step. split; [done|].
      eexists. split; [reflexivity|]. split; [done|].
      rewrite ptrs_cons in Hp. apply not_elem_of_app in Hp as [Hp1 Hp2].
      eexists p, (c :: l), _. split; [done|]. split; [done|]. rewrite lookup_insert_eq. split; [done|].
      split; [|by apply chain_insert]. eexists. rewrite lookup_insert_eq. split; [done|]. split; [done|]. split; [done|].
      by apply stack_insert.
Qed.

Lemma klt_asym a b : klt a b = true -> klt b a = false.
Proof. rewrite klt_spec, klt_false. lia. Qed.
(** [nextBin] is not read down a stack. *)
Lemma stack_nextBin h k l q e x : h !! q = Some e -> stack h k l -> stack (<[q := e <| nextBin := x |>]> h) k l.
Proof.
  intros Hq. induction l as [|p l IH]; [done|]. intros (e' & He & Hk & Hn & Hs). destruct (decide (p = q)) as [->|Hpq].
  - rewrite Hq in He. injection He as <-. eexists. rewrite lookup_insert_eq. split; [done|]. auto.
  - exists e'. rewrite lookup_insert_ne by done. auto.
Qed.
(** The two events [prev] and [p] once [p] is linked behind [prev]. *)
Lemma hook_wp p e prev k0 l0 ep curr bins s : heap s !! p = Some e -> heap s !! prev = Some ep -> stack (heap s) k0 (prev :: l0) ->
  chain (heap s) curr bins -> p ∉ prev :: l0 -> p ∉ ptrs bins -> prev ∉ ptrs bins ->
  (forall b, hd_error bins = Some b -> klt b.1 (key_of e) = false) ->
  wp (q ← insertBefore p curr; store prev (fun e => e <| nextBin := Some q |>)) s (fun _ s' => exists h', s' = s <| heap := h' |> /\
    linked (heap s) h' /\ within [p; prev] (heap s) h' /\ chain h' (Some prev) ((k0, prev :: l0) :: place_bin (key_of e) p bins)).
Proof.
  intros He Hep Hs Hc Hp1 Hp2 Hpr Hk. wp_step. eapply wp_mono; [by eapply insertBefore_wp|].
  intros q s' (-> & e' & -> & Hr & Hc'). assert (prev <> p) as Hne by (intros ->; apply Hp1; left).
  set (h1 := <[p := e']> (heap s)) in *. assert (h1 !! prev = Some ep) as Hep1 by (unfold h1; by rewrite lookup_insert_ne).
  eapply store_wp; [exact Hep1|]. eexists. split; [reflexivity|]. cbn [heap over]. fold h1. split; [|split].
  - transitivity h1; [by apply (linked_insert _ p e e')|]. apply (linked_insert h1 prev ep); [done|]. by split_and!.
  - intros q Hq. apply not_elem_of_cons in Hq as [? [? _]%not_elem_of_cons]. rewrite lookup_insert_ne by done. by apply lookup_insert_ne.
  - eexists prev, l0, _. split; [done|]. split; [done|]. rewrite lookup_insert_eq. split; [done|]. split.
    + apply stack_nextBin; [done|]. by apply stack_insert.
    + apply chain_insert; [|exact Hc']. rewrite place_ptrs, not_elem_of_cons. done.
Qed.

Lemma NoDup_app_l {A} (l k : list A) : NoDup (l ++ k) -> NoDup l.
Proof. by intros (? & _)%NoDup_app. Qed.
Lemma insert_loop_wp p e bins : forall fuel prev k0 l0 ep s, heap s !! p = Some e -> heap s !! prev = Some ep ->
  stack (heap s) k0 (prev :: l0) -> chain (heap s) (nextBin ep) bins -> NoDup ((prev :: l0) ++ ptrs bins) ->
  p ∉ (prev :: l0) ++ ptrs bins -> (length bins <= fuel)%nat ->
  wp ('(prev', curr) ← find_bin fuel p prev (nextBin ep); q ← insertBefore p curr; store prev' (fun e => e <| nextBin := Some q |>)) s
    (fun _ s' => exists h', s' = s <| heap := h' |> /\ linked (heap s) h' /\ within (p :: prev :: ptrs bins) (heap s) h' /\
      chain h' (Some prev) ((k0, prev :: l0) :: place_bin (key_of e) p bins)).
Proof.
  induction bins as [|[k' b] bins IH]; intros fuel prev k0 l0 ep s He Hep Hs Hc Hnd Hp Hf.
  - cbn in Hc. rewrite Hc. replace (find_bin fuel p prev None) with (mret (M := comp t) (prev, None : option ptr)) by by destruct fuel.
    wp_step. wp_step. apply not_elem_of_app in Hp as [Hp1 Hp2].
    eapply (hook_wp p e prev k0 l0 ep None []); try done. by apply not_elem_of_nil.
  - pose proof Hc as (c & l & ec & -> & Ec & Hec & Hsc & Hcc). rewrite Ec.
    destruct (stack_in _ _ _ c Hsc) as (ec' & E & Ek); [by left|]. rewrite Hec in E. injection E as <-.
    rewrite ptrs_cons in Hnd, Hp. apply NoDup_app in Hnd as (Hnd1 & Hdis & Hnd2).
    apply not_elem_of_app in Hp as [Hp1 Hp2].
    assert (p <> c) as Hpc by (intros ->; apply Hp2; by left).
    cbn [length] in Hf. destruct fuel as [|fuel]; [lia|].
    wp_step. cbn [find_bin]. wp_step. eapply deref_wp; [exact Hec|]. wp_step. eapply deref_wp; [exact He|]. rewrite ev_lt_key, Ek.
    destruct (klt k' (key_of e)) eqn:El.
    + apply wp_bind_inv. eapply wp_mono; [apply (IH fuel c k' l ec s He Hec Hsc Hcc); [done|done|lia]|].
      intros [] s' (h' & -> & Hl & Hw & Hc'). exists h'. split; [done|]. split; [done|]. split.
      { intros q Hq. apply Hw. rewrite ptrs_cons in Hq. set_solver. }
      assert (forall q, q ∈ prev :: l0 -> h' !! q = heap s !! q) as Hkeep.
      { intros q Hq. apply Hw. specialize (Hdis q Hq). set_solver. }
      exists prev, l0, ep. split; [done|]. split; [done|]. rewrite Hkeep by left. split; [done|].
      split; [eapply stack_frame; [|exact Hs]; done|]. rewrite Ec. cbn [place_bin]. by rewrite (klt_asym _ _ El), El.
    + wp_step. eapply wp_mono.
      * eapply (hook_wp p e prev k0 l0 ep (Some c) ((k', c :: l) :: bins)); try done.
        -- rewrite <- Ec. exact Hc.
        -- apply Hdis. left.
        -- intros x [= <-]. done.
      * intros [] s' (h' & -> & Hl & Hw & Hc'). exists h'. split; [done|]. split; [done|]. split; [|done].
        intros q Hq. apply Hw. set_solver.
Qed.

(** [s'] is [s] with other links and another head. *)
Record moved (l : list ptr) (s s' : t) : Prop := {
  mv_links : linked (heap s) (heap s');
  mv_within : within l (heap s) (heap s');
  mv_now : curTick s' = curTick s;
  mv_async : async_queue s' = async_queue s }.
Lemma insert_wp p e bins s : heap s !! p = Some e -> chain (heap s) (head s) bins -> NoDup (ptrs bins) -> p ∉ ptrs bins ->
  wp (insert p) s (fun _ s' => moved (p :: ptrs bins) s s' /\ chain (heap s') (head s') (place_bin (key_of e) p bins)).
Proof.
  intros He Hc Hnd Hp. unfold insert. wp_step. wp_step. wp_step.
  assert ((forall x, hd_error bins = Some x -> klt x.1 (key_of e) = false) ->
    wp (h ← insertBefore p (head s); modify (fun s => s <| head := Some h |>)) s
      (fun _ s' => moved (p :: ptrs bins) s s' /\ chain (heap s') (head s') (place_bin (key_of e) p bins))) as Hfront.
  { intros Hk. wp_step. eapply wp_mono; [by eapply insertBefore_wp|]. intros q s' (-> & e' & -> & Hr & Hc'). wp_step.
    split; [|exact Hc']. split; [by apply (linked_insert _ p e e')| |done..].
    intros q Hq. apply not_elem_of_cons in Hq as [Hq _]. by apply lookup_insert_ne. }
  destruct bins as [|[k0 b] bins].
  - cbn in Hc. rewrite Hc at 1. wp_step. by apply Hfront.
  - pose proof Hc as (c & l & ec & -> & Ec & Hec & Hsc & Hcc). rewrite Ec at 1.
    destruct (stack_in _ _ _ c Hsc) as (ec' & E & Ek); [by left|]. rewrite Hec in E. injection E as <-.
    wp_step. eapply deref_wp; [exact He|]. wp_step. eapply deref_wp; [exact Hec|]. wp_step. rewrite ev_le_key, Ek.
    destruct (klt k0 (key_of e)) eqn:El; cbn [negb].
    + rewrite Ec. wp_step. apply the_wp. wp_step. eapply deref_wp; [exact Hec|].
      rewrite ptrs_cons in Hnd, Hp. pose proof (bins_ptrs _ _ _ Hcc).
      assert (length (ptrs bins) <= size (heap s))%nat as Hsz by (eapply ptrs_size; [done|by apply NoDup_app in Hnd as (_ & _ & ?)]).
      eapply wp_mono; [eapply (insert_loop_wp p e bins); try done; unfold steps; lia|].
      intros [] s' (h' & -> & Hl & Hw & Hc'). split.
      * split; try done. intros q Hq. apply Hw. rewrite ptrs_cons in Hq. set_solver.
      * cbn [heap head over]. rewrite Ec. cbn [place_bin]. by rewrite (klt_asym _ _ El), El.
    + apply Hfront. intros x [= <-]. done.
Qed.

(** ** Removal *)

Definition others (p : ptr) (l : list ptr) : list ptr := filter (fun q => q <> p) l.
Definition keep_bin (k : key) (b : list ptr) (bins : list bin) : list bin := match b with [] => bins | _ => (k, b) :: bins end.
Fixpoint del_bin (k : key) (p : ptr) (bins : list bin) : list bin :=
  match bins with
  | [] => []
  | (k', b) :: bins' => if bool_decide (k' = k) then keep_bin k' (others p b) bins' else (k', b) :: del_bin k p bins'
  end.
Lemma others_notin p l : p ∉ l -> others p l = l.
Proof.
  unfold others. induction l as [|q l IH]; [done|]. intros [Hq Hl]%not_elem_of_cons. rewrite filter_cons, decide_True by done. by rewrite IH.
Qed.
Lemma others_at p l1 l2 : p ∉ l1 -> p ∉ l2 -> others p (l1 ++ p :: l2) = l1 ++ l2.
Proof.
  intros H1 H2. unfold others. rewrite filter_app, filter_cons, decide_False by auto. fold (others p l1) (others p l2). by rewrite !others_notin.
Qed.

Lemma find_in_bin_wp p k s : forall l fuel curr ec, stack (heap s) k (curr :: l) -> heap s !! curr = Some ec -> p ∈ l -> (length l <= fuel)%nat ->
  wp (find_in_bin fuel p curr (nextInBin ec)) s (fun '(c, n) s' => s' = s /\ n = p /\ exists l1 l2, curr :: l = l1 ++ c :: p :: l2).
Proof.
  induction l as [|n l IH]; intros fuel curr ec (ec' & He & Hk & Hn & Hs) Hc Hp Hf; [by apply elem_of_nil in Hp|].
  rewrite Hc in He. injection He as <-. rewrite Hn. cbn [hd_error].
  replace (find_in_bin fuel p curr (Some n)) with (if p =? n then mret (M := comp t) (curr, n) else en ← deref n;
    match fuel with O => lift (Fault OutOfFuel) | S fuel' => find_in_bin fuel' p n (nextInBin en) end) by by destruct fuel.
  destruct (Z.eqb_spec p n) as [->|Hpn].
  - wp_step. split; [done|]. split; [done|]. by exists [], l.
  - pose proof Hs as (en & Hen & _). wp_step. eapply deref_wp; [exact Hen|]. cbn [length] in Hf. destruct fuel as [|fuel]; [lia|].
    apply elem_of_cons in Hp as [Hp|Hp]; [done|]. eapply wp_mono; [apply (IH fuel n en); try done; lia|].
    intros [c q] s' (-> & -> & l1 & l2 & ->). split; [done|]. split; [done|]. by exists (curr :: l1), l2.
Qed.
Lemma stack_unlink h k c ec p ep l2 : h !! c = Some ec -> h !! p = Some ep -> forall l1, stack h k (l1 ++ c :: p :: l2) -> NoDup (l1 ++ c :: p :: l2) ->
  stack (<[c := ec <| nextInBin := nextInBin ep |>]> h) k (l1 ++ c :: l2).
Proof.
  intros Hc Hp. induction l1 as [|q l1 IH]; cbn [app].
  - intros (e & He & Hk & Hn & (e' & He' & Hk' & Hn' & Hs)) [Hnc [Hnp Hnd]%NoDup_cons]%NoDup_cons. rewrite Hc in He. injection He as <-.
    rewrite Hp in He'. injection He' as <-. eexists. rewrite lookup_insert_eq. split; [done|]. split; [done|]. split; [exact Hn'|].
    apply stack_insert; [|done]. intros Hin. apply Hnc. by right.
  - intros (e & He & Hk & Hn & Hs) [Hnq Hnd]%NoDup_cons. exists e. rewrite lookup_insert_ne; [|intros ->; apply Hnq; set_solver].
    split; [done|]. split; [done|]. split; [|by apply IH]. rewrite Hn. by destruct l1.
Qed.

Lemma removeItem_wp p top l k et bins s : heap s !! top = Some et -> stack (heap s) k (top :: l) -> chain (heap s) (nextBin et) bins ->
  NoDup ((top :: l) ++ ptrs bins) -> p ∈ top :: l ->
  wp (removeItem p top) s (fun r s' => exists h', s' = s <| heap := h' |> /\ linked (heap s) h' /\ within (top :: l) (heap s) h' /\
    chain h' r (keep_bin k (others p (top :: l)) bins)).
Proof.
  intros Het Hs Hc (Hnd & Hdis & _)%NoDup_app Hp. unfold removeItem. wp_step. eapply deref_wp; [exact Het|].
  pose proof Hs as (et' & E & Ek & En & Hsl). rewrite Het in E. injection E as <-. pose proof Hnd as [Htop Hndl]%NoDup_cons.
  destruct (Z.eqb_spec p top) as [->|Hpt].
  - assert (others top (top :: l) = l) as -> by (apply (others_at top [] l); [apply not_elem_of_nil|done]). rewrite En.
    destruct l as [|n l]; cbn [hd_error keep_bin].
    + wp_step. exists (heap s). split; [by destruct s|]. done.
    + pose proof Hsl as (en & Hen & _). wp_step. eapply store_wp; [exact Hen|]. wp_step. eexists. split; [reflexivity|].
      split; [by apply (linked_insert _ n en); [|split_and!]|]. split.
      { intros q Hq. apply lookup_insert_ne. intros ->. apply Hq. right. left. }
      eexists n, l, _. split; [done|]. split; [done|]. rewrite lookup_insert_eq. split; [done|]. split; [by apply stack_nextBin|].
      apply chain_insert; [|done]. apply Hdis. right. left.
  - apply elem_of_cons in Hp as [?|Hp]; [done|]. wp_step. wp_step. wp_step.
    eapply wp_mono; [apply (find_in_bin_wp p k s l (steps s) top et Hs Het Hp)|].
    { assert (length (top :: l) <= size (heap s))%nat as Hz; [|cbn in Hz; unfold steps; lia].
      apply objects_size; [done|]. intros q Hq. destruct (stack_in _ _ _ q Hs Hq) as (? & ? & _). by eexists. }
    intros [c n] s' (-> & -> & l1 & l2 & El). destruct (stack_in _ _ _ c Hs) as (ec & Hec & Ekc); [rewrite El; set_solver|].
    destruct (stack_in _ _ _ p Hs) as (ep & Hep & _); [by right|].
    wp_step. eapply deref_wp; [exact Hep|]. wp_step. eapply store_wp; [exact Hec|]. wp_step. eexists. split; [reflexivity|].
    split; [by apply (linked_insert _ c ec); [|split_and!]|]. split.
    { intros q Hq. apply lookup_insert_ne. intros ->. apply Hq. rewrite El. set_solver. }
    rewrite El in Hs, Hnd. pose proof (stack_unlink _ _ _ _ _ _ _ Hec Hep _ Hs Hnd) as Hs'.
    assert (others p (top :: l) = l1 ++ c :: l2) as ->.
    { rewrite El. change (l1 ++ c :: p :: l2) with (l1 ++ [c] ++ p :: l2). rewrite app_assoc, others_at; [by rewrite <- app_assoc|..]; intros Hin; rewrite NoDup_app, !NoDup_cons in Hnd; set_solver. }
    destruct l1 as [|q l1]; cbn [app] in *; injection El as -> ->; cbn [keep_bin].
    + rewrite Het in Hec. injection Hec as <-. eexists c, l2, _. split; [done|]. split; [done|]. rewrite lookup_insert_eq. split; [done|].
      split; [done|]. apply chain_insert; [|done]. apply Hdis. left.
    + eexists q, (l1 ++ c :: l2), et. split; [done|]. split; [done|]. split; [|split; [done|]].
      * apply NoDup_cons in Hnd as [Hq _]. rewrite lookup_insert_ne; [done|]. intros ->. apply Hq. set_solver.
      * apply chain_insert; [|done]. apply Hdis. set_solver.
Qed.

Definition sorted (bins : list bin) : Prop := StronglySorted (fun a b => klt a.1 b.1 = true) bins.
Lemma keep_ptrs k b bins : ptrs (keep_bin k b bins) = b ++ ptrs bins.
Proof. by destruct b. Qed.
Lemma del_ptrs k p bins q : q ∈ ptrs (del_bin k p bins) -> q ∈ ptrs bins.
Proof.
  induction bins as [|[k' b] bins IH]; [done|]. cbn [del_bin]. case_bool_decide.
  - rewrite keep_ptrs, !ptrs_cons, !elem_of_app. intros [Hq|Hq]; [left|by right]. unfold others in Hq. by apply list_elem_of_filter in Hq as [_ ?].
  - rewrite !ptrs_cons, !elem_of_app. intros [Hq|Hq]; [by left|right; auto].
Qed.
(** An event of the bins is in the bin of its key. *)
Lemma bin_of h top bins p e : chain h top bins -> p ∈ ptrs bins -> h !! p = Some e -> exists b, (key_of e, b) ∈ bins /\ p ∈ b.
Proof.
  revert top. induction bins as [|[k b] bins IH]; [by intros top _ ?%elem_of_nil|].
  intros top (q & l & eq & -> & -> & He & Hs & Hc) Hp He'. rewrite ptrs_cons in Hp. apply elem_of_app in Hp as [Hp|Hp].
  - destruct (stack_in _ _ _ _ Hs Hp) as (e1 & E1 & <-). rewrite He' in E1. injection E1 as ->. exists (q :: l). split; [left|done].
  - destruct (IH _ Hc Hp He') as (b & ? & ?). exists b. split; [by right|done].
Qed.

Lemma first_bin h k b top bins p e : stack h k b -> chain h top bins -> sorted ((k, b) :: bins) -> p ∈ b ++ ptrs bins -> h !! p = Some e ->
  if bool_decide (k = key_of e) then p ∈ b else p ∈ ptrs bins.
Proof.
  intros Hs Hc [_ Hall]%StronglySorted_inv [Hp|Hp]%elem_of_app He.
  - destruct (stack_in _ _ _ _ Hs Hp) as (e1 & E1 & Ek1). rewrite bool_decide_true; [done|congruence].
  - case_bool_decide as Hk; [|done]. destruct (bin_of _ _ _ _ _ Hc Hp He) as (b1 & Hb1 & _).
    rewrite Forall_forall in Hall. specialize (Hall _ Hb1). cbn in Hall. rewrite Hk in Hall. by rewrite klt_irrefl in Hall.
Qed.

Lemma unhook_wp p e prev k0 l0 ep c l ec bins s : heap s !! p = Some e -> heap s !! prev = Some ep -> stack (heap s) k0 (prev :: l0) ->
  heap s !! c = Some ec -> stack (heap s) (key_of e) (c :: l) -> chain (heap s) (nextBin ec) bins ->
  NoDup ((prev :: l0) ++ (c :: l) ++ ptrs bins) -> p ∈ c :: l ->
  wp (p' ← removeItem p c; store prev (fun e => e <| nextBin := p' |>)) s (fun _ s' => exists h', s' = s <| heap := h' |> /\
    linked (heap s) h' /\ within (prev :: c :: l) (heap s) h' /\
    chain h' (Some prev) ((k0, prev :: l0) :: keep_bin (key_of e) (others p (c :: l)) bins)).
Proof.
  intros He Hep Hs Hec Hsc Hc Hnd Hp. apply NoDup_app in Hnd as (Hnd1 & Hdis & Hnd2).
  wp_step. eapply wp_mono; [eapply (removeItem_wp p c l (key_of e) ec bins); done|].
  intros r s' (h' & -> & Hl & Hw & Hc'). assert (forall q, q ∈ prev :: l0 -> h' !! q = heap s !! q) as Hkeep.
  { intros q Hq. apply Hw. specialize (Hdis q Hq). set_solver. }
  assert (h' !! prev = Some ep) as Hep' by (rewrite Hkeep; [done|left]).
  eapply store_wp; [exact Hep'|]. eexists. split; [reflexivity|]. cbn [heap over]. split; [|split].
  - transitivity h'; [done|]. apply (linked_insert h' prev ep); [done|by split_and!].
  - intros q [Hq Hq']%not_elem_of_cons. rewrite lookup_insert_ne by done. by apply Hw.
  - eexists prev, l0, _. split; [done|]. split; [done|]. rewrite lookup_insert_eq. split; [done|]. split.
    + apply stack_nextBin; [done|]. by eapply stack_frame.
    + apply chain_insert; [|exact Hc']. rewrite keep_ptrs, elem_of_app. specialize (Hdis prev ltac:(by left)). rewrite elem_of_app in Hdis.
      intros [Hq|Hq]; apply Hdis; [left|by right]. unfold others in Hq. by apply list_elem_of_filter in Hq as [_ ?].
Qed.

(** What [remove] does once the bin before is known. *)
Definition cut (event : ptr) (e : Event) (prev : ptr) (curr : option ptr) : comp t unit :=
  match curr with
  | None => lift (Fault Panic)
  | Some c => ec ← deref c;
      if negb (ev_eq ec e) then lift (Fault Panic)
      else p ← removeItem event c; store prev (fun e => e <| nextBin := p |>)
  end.
Lemma remove_loop_wp p e bins : forall fuel prev k0 l0 ep s, heap s !! p = Some e -> heap s !! prev = Some ep ->
  stack (heap s) k0 (prev :: l0) -> chain (heap s) (nextBin ep) bins -> NoDup ((prev :: l0) ++ ptrs bins) -> sorted bins ->
  p ∈ ptrs bins -> (length bins <= fuel)%nat ->
  wp ('(prev', curr) ← find_bin fuel p prev (nextBin ep); cut p e prev' curr) s
    (fun _ s' => exists h', s' = s <| heap := h' |> /\ linked (heap s) h' /\ within (prev :: ptrs bins) (heap s) h' /\
      chain h' (Some prev) ((k0, prev :: l0) :: del_bin (key_of e) p bins)).
Proof.
  induction bins as [|[k' b] bins IH]; intros fuel prev k0 l0 ep s He Hep Hs Hc Hnd Hso Hp Hf; [by apply elem_of_nil in Hp|].
  destruct (bin_of _ _ _ _ _ Hc Hp He) as (b0 & Hb0 & Hpb0).
  pose proof Hc as (c & l & ec & -> & Ec & Hec & Hsc & Hcc). rewrite Ec.
  destruct (stack_in _ _ _ c Hsc) as (ec' & E & Ek); [by left|]. rewrite Hec in E. injection E as <-.
  rewrite ptrs_cons in Hnd, Hp. pose proof Hnd as Hnd0. apply NoDup_app in Hnd as (Hnd1 & Hdis & Hnd2).
  pose proof (first_bin _ _ _ _ _ _ _ Hsc Hcc Hso Hp He) as Hin.
  cbn [length] in Hf. destruct fuel as [|fuel]; [lia|]. apply StronglySorted_inv in Hso as [Hso Hall].
  wp_step. cbn [find_bin]. wp_step. eapply deref_wp; [exact Hec|]. wp_step. eapply deref_wp; [exact He|]. rewrite ev_lt_key, Ek.
  destruct (klt k' (key_of e)) eqn:El.
  - assert (k' <> key_of e) as Hne by (intros ->; by rewrite klt_irrefl in El).
    rewrite bool_decide_false in Hin by done.
    apply wp_bind_inv. eapply wp_mono; [apply (IH fuel c k' l ec s); try done; lia|].
    intros [] s' (h' & -> & Hl & Hw & Hc'). exists h'. split; [done|]. split; [done|]. split.
    { intros q Hq. apply Hw. rewrite ptrs_cons in Hq. set_solver. }
    assert (forall q, q ∈ prev :: l0 -> h' !! q = heap s !! q) as Hkeep.
    { intros q Hq. apply Hw. specialize (Hdis q Hq). set_solver. }
    exists prev, l0, ep. split; [done|]. split; [done|]. rewrite Hkeep by left. split; [done|].
    split; [eapply stack_frame; [|exact Hs]; done|]. rewrite Ec. cbn [del_bin]. by rewrite bool_decide_false.
  - assert (k' = key_of e) as ->.
    { apply elem_of_cons in Hb0 as [[= ->]|Hb0]; [done|]. rewrite Forall_forall in Hall. specialize (Hall _ Hb0). cbn in Hall. congruence. }
    wp_step. cbn [cut]. wp_step. eapply deref_wp; [exact Hec|]. rewrite ev_eq_key, bool_decide_true by done. cbn [negb].
    cbn [del_bin]. rewrite bool_decide_true by done. eapply wp_mono; [eapply (unhook_wp p e prev k0 l0 ep c l ec bins); try done|].
    + by rewrite bool_decide_true in Hin.
    + intros [] s' (h' & -> & Hl & Hw & Hc'). exists h'. split; [done|]. split; [done|]. split; [|done].
      intros q Hq. apply Hw. rewrite ptrs_cons in Hq. set_solver.
Qed.

Lemma remove_wp p e bins s : heap s !! p = Some e -> mine e = true -> chain (heap s) (head s) bins -> NoDup (ptrs bins) -> sorted bins ->
  p ∈ ptrs bins ->
  wp (remove p) s (fun _ s' => moved (ptrs bins) s s' /\ chain (heap s') (head s') (del_bin (key_of e) p bins)).
Proof.
  intros He Hm Hc Hnd Hso Hp. unfold remove. wp_step. wp_step. destruct bins as [|[k0 b] bins]; [by apply elem_of_nil in Hp|].
  pose proof Hc as (c & l & ec & -> & Ec & Hec & Hsc & Hcc). rewrite Ec.
  destruct (stack_in _ _ _ c Hsc) as (ec' & E & Ek); [by left|]. rewrite Hec in E. injection E as <-.
  wp_step. eapply deref_wp; [exact He|]. wp_step. eapply deref_wp; [exact Hec|]. wp_step. apply wp_assert; [done|].
  rewrite ev_eq_key, Ek. rewrite ptrs_cons in Hnd, Hp. pose proof (first_bin _ _ _ _ _ _ _ Hsc Hcc Hso Hp He) as Hin.
  cbn [del_bin]. case_bool_decide as Hk.
  - subst k0. wp_step. eapply wp_mono; [eapply (removeItem_wp p c l _ ec bins); done|].
    intros r s' (h' & -> & Hl & Hw & Hc'). wp_step. split; [|exact Hc']. split; try done. intros q Hq. apply Hw. rewrite ptrs_cons in Hq. set_solver.
  - pose proof (bins_ptrs _ _ _ Hcc). assert (length (ptrs bins) <= size (heap s))%nat as Hsz by (eapply ptrs_size; [done|by apply NoDup_app in Hnd as (_ & _ & ?)]).
    apply StronglySorted_inv in Hso as [Hso _].
    eapply wp_mono; [eapply (remove_loop_wp p e bins (steps s) c k0 l ec); try done; unfold steps; lia|].
    intros [] s' (h' & -> & Hl & Hw & Hc'). split; [|by cbn [heap head over]; rewrite Ec]. split; try done.
    intros q Hq. apply Hw. rewrite ptrs_cons in Hq. set_solver.
Qed.
End QueueRep.
