(* ===== verification/EventQueueSpec.v ===== *)
(** What the event queue promises: it is a list of events in order of tick and priority, the
    latest arrival first among equals; every operation refines its effect on that list and
    faults exactly where the list has no such step; time does not go back. *)
From S2P Require Import Prelude Flags Packet EventQueue EventQueueRep.
From stdpp Require Import gmap sorting.
Open Scope Z_scope.
Import Flags EventQueue QueueRep.

Module QueueSpec.
#[local] Arguments steps : simpl never.

(** ** The list *)

Definition item : Type := key * ptr.
Definition of_bin (x : bin) : list item := (fun p => (x.1, p)) <$> x.2.
Definition items (bins : list bin) : list item := concat (of_bin <$> bins).
Fixpoint place (k : key) (p : ptr) (l : list item) : list item :=
  match l with
  | [] => [(k, p)]
  | x :: l' => if klt x.1 k then x :: place k p l' else (k, p) :: l
  end.
Definition drop_item (p : ptr) (l : list item) : list item := filter (fun x => x.2 <> p) l.

Lemma items_cons k b bins : items ((k, b) :: bins) = of_bin (k, b) ++ items bins.
Proof. done. Qed.
Lemma items_ptrs bins : snd <$> items bins = ptrs bins.
Proof.
  induction bins as [|[k b] bins IH]; [done|]. rewrite items_cons, fmap_app, IH, ptrs_cons. f_equal.
  unfold of_bin. rewrite <- list_fmap_compose. apply list_fmap_id.
Qed.
Lemma items_in bins k p : (k, p) ∈ items bins <-> exists b, (k, b) ∈ bins /\ p ∈ b.
Proof.
  induction bins as [|[k' b] bins IH].
  - split; [by intros ?%elem_of_nil|by intros (b & ?%elem_of_nil & _)].
  - rewrite items_cons, elem_of_app, IH. split.
    + intros [(q & [= -> ->] & Hq)%list_elem_of_fmap|(b' & Hb & Hp)]; [exists b; split; [left|done]|exists b'; split; [by right|done]].
    + intros (b' & [[= -> ->]|Hb]%elem_of_cons & Hp); [left|right; by exists b']. apply list_elem_of_fmap. by exists p.
Qed.
Lemma place_app k p l1 l2 : Forall (fun x => klt x.1 k = true) l1 -> place k p (l1 ++ l2) = l1 ++ place k p l2.
Proof. induction 1 as [|x l1 Hx _ IH]; [done|]. cbn. by rewrite Hx, IH. Qed.
Lemma items_place h top k p bins : chain h top bins -> items (place_bin k p bins) = place k p (items bins).
Proof.
  revert top. induction bins as [|[k' b] bins IH]; [done|]. intros top (q & l & e & -> & _ & _ & _ & Hc). cbn [place_bin].
  destruct (klt k k') eqn:E1; [|destruct (klt k' k) eqn:E2].
  - rewrite !items_cons. cbn. by rewrite (klt_asym _ _ E1).
  - rewrite !items_cons, (IH _ Hc). rewrite place_app; [done|]. apply Forall_fmap, Forall_forall. intros y _. exact E2.
  - assert (k' = k) as -> by by apply key_tri. rewrite !items_cons. cbn. by rewrite klt_irrefl.
Qed.
Lemma drop_notin p l : p ∉ (snd <$> l) -> drop_item p l = l.
Proof.
  unfold drop_item. induction l as [|x l IH]; [done|]. intros [Hx Hl]%not_elem_of_cons. rewrite filter_cons, decide_True by (intros E; by apply Hx).
  f_equal. by apply IH.
Qed.
Lemma drop_app p l1 l2 : drop_item p (l1 ++ l2) = drop_item p l1 ++ drop_item p l2.
Proof. apply filter_app. Qed.
Lemma drop_stack k p b : drop_item p (of_bin (k, b)) = of_bin (k, others p b).
Proof.
  unfold drop_item, others, of_bin. induction b as [|q b IH]; [done|]. cbn [fmap list_fmap fst snd] in *. rewrite !filter_cons. cbn [snd].
  destruct (decide (q <> p)); cbn; by rewrite <- IH.
Qed.
Lemma items_keep k b bins : items (keep_bin k b bins) = of_bin (k, b) ++ items bins.
Proof. by destruct b. Qed.
Lemma items_del h top bins p e : chain h top bins -> sorted bins -> NoDup (ptrs bins) -> p ∈ ptrs bins -> h !! p = Some e ->
  items (del_bin (key_of e) p bins) = drop_item p (items bins).
Proof.
  revert top. induction bins as [|[k b] bins IH]; [done|]. intros top Hc Hso Hnd Hp He. pose proof Hc as (q & l & eq & Eb & _ & _ & Hs & Hcc).
  rewrite ptrs_cons in Hnd, Hp. pose proof (first_bin _ _ _ _ _ _ _ Hs Hcc Hso Hp He) as Hin. apply NoDup_app in Hnd as (_ & Hdis & Hnd).
  cbn [del_bin]. rewrite items_cons, drop_app, drop_stack. case_bool_decide as Hk.
  - rewrite items_keep. f_equal. rewrite drop_notin; [done|]. rewrite items_ptrs. by apply Hdis.
  - rewrite items_cons. f_equal; [|apply StronglySorted_inv in Hso as [Hso _]; by eapply IH].
    rewrite others_notin; [done|]. intros Hpb. by apply (Hdis p).
Qed.

(** ** Order *)

Lemma place_sorted k p bins : sorted bins -> sorted (place_bin k p bins).
Proof.
  induction 1 as [|[k' b] bins Hs IH Hall]; [by repeat constructor|]. cbn [place_bin].
  destruct (klt k k') eqn:E1; [|destruct (klt k' k) eqn:E2].
  - constructor; [by constructor|]. constructor; [done|]. eapply Forall_impl; [exact Hall|]. intros x Hx. cbn in *. by eapply klt_trans.
  - constructor; [done|]. clear -Hall E2. induction Hall as [|[k1 b1] bins Hx Hall IH]; [by repeat constructor|]. cbn [place_bin].
    destruct (klt k k1); [by repeat constructor|]. destruct (klt k1 k); by repeat constructor.
  - by constructor.
Qed.
Lemma keep_sorted k b bins : sorted ((k, b) :: bins) -> forall b', sorted (keep_bin k b' bins).
Proof. intros [Hs Hall]%StronglySorted_inv b'. destruct b'; [done|]. by constructor. Qed.
Lemma del_sorted k p bins : sorted bins -> sorted (del_bin k p bins).
Proof.
  intros Hs. pose proof Hs as Hs0. induction Hs as [|[k' b] bins Hs IH Hall]; [done|]. cbn [del_bin]. case_bool_decide.
  - by eapply keep_sorted.
  - constructor; [by apply IH|]. clear -Hall. induction Hall as [|[k1 b1] bins Hx Hall IH]; [done|]. cbn [del_bin]. case_bool_decide.
    + destruct (others p b1); [done|]. by constructor.
    + by constructor.
Qed.

(** ** Steps on the list *)

(** The links of [s] represent [l]. *)
Definition queue (s : t) (l : list item) : Prop :=
  exists bins, chain (heap s) (head s) bins /\ sorted bins /\ NoDup (ptrs bins) /\ items bins = l.
Record relink (s s' : t) : Prop := {
  re_links : linked (heap s) (heap s'); re_now : curTick s' = curTick s; re_async : async_queue s' = async_queue s }.
Lemma relink_trans s1 s2 s3 : relink s1 s2 -> relink s2 s3 -> relink s1 s3.
Proof. intros [] []. split; [by etrans|congruence|congruence]. Qed.

Lemma queue_nodup s l : queue s l -> NoDup (snd <$> l).
Proof. intros (bins & _ & _ & Hn & <-). by rewrite items_ptrs. Qed.
Lemma insert_queue s l p e : queue s l -> p ∉ (snd <$> l) -> heap s !! p = Some e ->
  wp (insert p) s (fun _ s' => relink s s' /\ queue s' (place (key_of e) p l)).
Proof.
  intros (bins & Hc & Hs & Hn & <-) Hp He. rewrite items_ptrs in Hp. eapply wp_mono; [by eapply insert_wp|].
  intros [] s' [[Hl _ Hnow Has] Hc']. split; [by split|]. exists (place_bin (key_of e) p bins). split; [done|].
  split; [by apply place_sorted|]. split; [by rewrite place_ptrs, NoDup_cons|]. by eapply items_place.
Qed.
Lemma remove_queue s l p e : queue s l -> p ∈ (snd <$> l) -> heap s !! p = Some e -> mine e = true ->
  wp (remove p) s (fun _ s' => relink s s' /\ queue s' (drop_item p l)).
Proof.
  intros (bins & Hc & Hs & Hn & <-) Hp He Hm. rewrite items_ptrs in Hp. eapply wp_mono; [by eapply remove_wp|].
  intros [] s' [[Hl _ Hnow Has] Hc']. split; [by split|]. exists (del_bin (key_of e) p bins). split; [done|].
  split; [by apply del_sorted|]. assert (items (del_bin (key_of e) p bins) = drop_item p (items bins)) as Ei by by eapply items_del.
  split; [|done]. rewrite <- items_ptrs, Ei. rewrite <- items_ptrs in Hn. unfold drop_item.
  eapply sublist_NoDup; [exact Hn|]. apply fmap_sublist, sublist_filter.
Qed.

(** An update that keeps the links and the key, or of an event outside the queue. *)
Lemma stack_update h k l p e e' : h !! p = Some e -> key_of e' = key_of e -> nextInBin e' = nextInBin e -> stack h k l -> stack (<[p := e']> h) k l.
Proof.
  intros He Hk Hn. induction l as [|q l IH]; [done|]. intros (eq & Hq & Hkq & Hnq & Hs). destruct (decide (q = p)) as [->|Hne].
  - rewrite He in Hq. injection Hq as <-. exists e'. rewrite lookup_insert_eq. split; [done|]. split; [congruence|]. split; [congruence|]. auto.
  - exists eq. rewrite lookup_insert_ne by done. auto.
Qed.
Lemma chain_update h top bins p e e' : h !! p = Some e -> key_of e' = key_of e -> nextInBin e' = nextInBin e -> nextBin e' = nextBin e ->
  chain h top bins -> chain (<[p := e']> h) top bins.
Proof.
  intros He Hk Hi Hb. revert top. induction bins as [|[k b] bins IH]; [done|]. intros top (q & l & eq & -> & -> & Hq & Hs & Hc).
  destruct (decide (q = p)) as [->|Hne].
  - rewrite He in Hq. injection Hq as <-. exists p, l, e'. rewrite lookup_insert_eq, Hb. split_and!; try done; [by eapply stack_update|by apply IH].
  - exists q, l, eq. rewrite lookup_insert_ne by done. split_and!; try done; [by eapply stack_update|by apply IH].
Qed.
Lemma queue_update s l p e f : queue s l -> heap s !! p = Some e -> queue (s <| heap := <[p := e <| flags := f |>]> (heap s) |>) l.
Proof. intros (bins & Hc & H) He. exists bins. split; [|done]. by eapply chain_update. Qed.
Lemma queue_outside s l p e : queue s l -> p ∉ (snd <$> l) -> queue (s <| heap := <[p := e]> (heap s) |>) l.
Proof. intros (bins & Hc & Hs & Hn & <-) Hp. rewrite items_ptrs in Hp. exists bins. split; [|done]. by apply chain_insert. Qed.

Lemma pop_queue s l k p e : queue s ((k, p) :: l) -> heap s !! p = Some e ->
  let s1 := s <| heap := <[p := e <| flags ::= clear Scheduled |>]> (heap s) |> in
  key_of e = k /\ wp pop s (fun r s' => r = p /\ relink s1 s' /\ queue s' l).
Proof.
  intros (bins & Hc & Hs & Hn & Hi) He s1. destruct bins as [|[k0 b] bins]; [done|].
  pose proof Hc as (q & l0 & eq & -> & Eh & Hq & Hst & Hcc). rewrite items_cons in Hi. cbn in Hi. injection Hi as <- <- <-.
  rewrite He in Hq. injection Hq as <-. pose proof Hst as (e1 & E1 & Ek & En & Hst'). rewrite He in E1. injection E1 as <-.
  split; [done|]. unfold pop. wp_step. wp_step. wp_step. rewrite Eh. apply the_wp. wp_step. eapply deref_wp; [exact He|]. wp_step.
  eapply store_wp; [exact He|]. fold s1. wp_step. rewrite En. rewrite ptrs_cons in Hn. apply NoDup_app in Hn as (Hn1 & Hdis & Hn2).
  pose proof Hn1 as [Hq Hn0]%NoDup_cons. destruct l0 as [|n l0]; cbn [hd_error].
  - wp_step. wp_step. split; [done|]. split; [done|]. exists bins. split; [|split; [by apply StronglySorted_inv in Hs as [? _]|done]].
    apply chain_insert; [|exact Hcc]. apply Hdis. left.
  - pose proof Hst' as (en & Hen & _). assert (q <> n) as Hqn by (intros ->; apply Hq; left).
    assert (heap s1 !! n = Some en) as Hen1 by (unfold s1; cbn; by rewrite lookup_insert_ne).
    wp_step. eapply store_wp; [exact Hen1|]. wp_step. wp_step. split; [done|]. split.
    { split; [|done..]. apply (linked_insert _ n en); [exact Hen1|by split_and!]. }
    exists ((k0, n :: l0) :: bins). split; [|split; [|split; [|done]]].
    + eexists n, l0, _. split; [done|]. split; [done|]. cbn [heap over]. rewrite lookup_insert_eq. split; [done|]. split.
      * apply stack_nextBin; [exact Hen1|]. by apply stack_insert.
      * apply chain_insert; [apply Hdis; right; left|]. apply chain_insert; [apply Hdis; left|]. exact Hcc.
    + by apply (keep_sorted _ _ _ Hs (n :: l0)).
    + rewrite ptrs_cons. apply NoDup_app. split; [done|]. split; [|done]. intros x Hx. apply Hdis. by right.
Qed.

(** ** The specification *)

(** The pending events, the tick, and the events that are squashed. *)
Record spec := mkSpec { order : list item; now : Z; squash_set : gset ptr }.
#[global] Instance eta_spec : Settable spec := fun r => mkSpec (order r) (now r) (squash_set r).
Definition pending (a : spec) : list ptr := snd <$> order a.

(** What a handler may ask of the queue, and what the simulation does. *)
Inductive call := Schedule (p : ptr) (w : Z) | Deschedule (p : ptr) | Reschedule (p : ptr) (w : Z) (always : bool) | Squash (p : ptr).

Section Refinement.
(** The events, none managed, and their priorities; the calls each makes when it is
    processed at a tick. *)
Context (objs : gset ptr) (prio : ptr -> Z) (script : Z -> ptr -> list call).

(** [None]: the call trips an assertion, or names no event. *)
Definition call_spec (c : call) (a : spec) : option spec :=
  match c with
  | Schedule p w =>
      if bool_decide (p ∈ objs) && (now a <=? w) && negb (bool_decide (p ∈ pending a))
      then Some (a <| order ::= place (w, prio p) p |>) else None
  | Deschedule p =>
      if bool_decide (p ∈ pending a) then Some (a <| order ::= drop_item p |> <| squash_set ::= fun X => X ∖ {[ p ]} |>) else None
  | Reschedule p w always =>
      if bool_decide (p ∈ objs) && (now a <=? w) && (always || bool_decide (p ∈ pending a))
      then Some (a <| order ::= fun l => place (w, prio p) p (drop_item p l) |> <| squash_set ::= fun X => X ∖ {[ p ]} |>) else None
  | Squash p => if bool_decide (p ∈ objs) then Some (a <| squash_set ::= fun X => {[ p ]} ∪ X |>) else None
  end.
Fixpoint calls_spec (l : list call) (a : spec) : option spec :=
  match l with [] => Some a | c :: l' => match call_spec c a with Some a' => calls_spec l' a' | None => None end end.
(** The first event is served, unless it is squashed, at its tick. *)
Definition serve_spec (a : spec) : option spec :=
  match order a with
  | [] => None
  | (k, p) :: l =>
      let a := a <| order := l |> in
      if bool_decide (p ∈ squash_set a) then Some (a <| squash_set ::= fun X => X ∖ {[ p ]} |>)
      else calls_spec (script k.1 p) (a <| now := k.1 |>)
  end.

Definition run_call (c : call) : comp t unit :=
  match c with
  | Schedule p w => schedule false false p w false
  | Deschedule p => deschedule false false p
  | Reschedule p w always => reschedule false false p w always
  | Squash p => squash p
  end.
Fixpoint run_calls (l : list call) : comp t unit :=
  match l with [] => mret tt | c :: l' => run_call c;; run_calls l' end.
Definition process (p : ptr) : comp t unit := s ← get; run_calls (script (curTick s) p).

(** ** The relation *)

Record event_ok (a : spec) (p : ptr) (e : Event) : Prop := {
  ek_prio : priority e = prio p;
  ek_sched : is_scheduled e = bool_decide (p ∈ pending a);
  ek_squash : squashed e = bool_decide (p ∈ squash_set a);
  ek_init : initialized e = true;
  ek_plain : isSet (flags e) Managed = false /\ isSet (flags e) IsExitEvent = false;
  ek_mine : p ∈ pending a -> mine e = true }.
Record refines (s : t) (a : spec) : Prop := {
  rf_dom : dom (heap s) = objs;
  rf_queue : queue s (order a);
  rf_now : curTick s = now a;
  rf_time : Forall (fun x => now a <= x.1.1) (order a);
  rf_events : forall p e, heap s !! p = Some e -> event_ok a p e;
  rf_async : async_queue s = [] }.

Lemma place_in k p l q : q ∈ (snd <$> place k p l) <-> q = p \/ q ∈ (snd <$> l).
Proof.
  induction l as [|x l IH]; cbn [place]; [cbn; rewrite elem_of_cons; done|]. destruct (klt x.1 k); cbn [fmap list_fmap snd];
    rewrite !elem_of_cons; [|done]. rewrite IH. tauto.
Qed.
Lemma drop_in p l q : q ∈ (snd <$> drop_item p l) <-> q <> p /\ q ∈ (snd <$> l).
Proof.
  unfold drop_item. rewrite !list_elem_of_fmap. split.
  - intros (x & -> & [? ?]%list_elem_of_filter). split; [done|]. by exists x.
  - intros (Hq & x & -> & Hx). exists x. split; [done|]. by apply list_elem_of_filter.
Qed.
Lemma place_Forall (P : item -> Prop) k p l : P (k, p) -> Forall P l -> Forall P (place k p l).
Proof.
  intros Hp. induction 1 as [|x l Hx Hl IH]; cbn [place]; [by repeat constructor|]. destruct (klt x.1 k); by repeat constructor.
Qed.
Lemma drop_Forall (P : item -> Prop) p l : Forall P l -> Forall P (drop_item p l).
Proof. rewrite !Forall_forall. intros H x [_ Hx]%list_elem_of_filter. by apply H. Qed.

(** An event whose membership did not change. *)
Lemma event_other a a' q e e' : event_ok a q e -> relinked e e' -> (q ∈ pending a' <-> q ∈ pending a) -> (q ∈ squash_set a' <-> q ∈ squash_set a) ->
  event_ok a' q e'.
Proof.
  intros [] ([= Hw Hpr] & Hf & Hm) Hp Hs. split; unfold is_scheduled, squashed, initialized in *; rewrite ?Hf, ?Hm; try done; try congruence.
  - rewrite ek_sched0. by apply bool_decide_ext.
  - rewrite ek_squash0. by apply bool_decide_ext.
  - intros Hq. by apply ek_mine0, Hp.
Qed.

(** The heaps agree on the events other than [p], but for links. *)
Definition linked_but (p : ptr) (h h' : gmap ptr Event) : Prop :=
  dom h' = dom h /\ forall q e', q <> p -> h' !! q = Some e' -> exists e, h !! q = Some e /\ relinked e e'.
Lemma linked_but_linked p h h' : linked h h' -> linked_but p h h'.
Proof.
  intros H. split.
  - apply set_eq. intros q. rewrite !elem_of_dom. specialize (H q). destruct (h !! q), (h' !! q); try done; split; intros _; by eexists.
  - intros q e' _ He. specialize (H q). rewrite He in H. destruct (h !! q) as [e|]; [by exists e|done].
Qed.
Lemma linked_but_insert p h e e' : h !! p = Some e -> linked_but p h (<[p := e']> h).
Proof.
  intros He. split; [by rewrite dom_insert_lookup_L|]. intros q x Hq. rewrite lookup_insert_ne by done. intros Hx. exists x. done.
Qed.
#[local] Instance linked_but_trans p : Transitive (linked_but p).
Proof.
  intros h1 h2 h3 [D1 H1] [D2 H2]. split; [congruence|]. intros q e' Hq He. destruct (H2 q e' Hq He) as (e2 & He2 & R2).
  destruct (H1 q e2 Hq He2) as (e1 & He1 & R1). exists e1. split; [done|]. destruct R1 as (? & ? & ?), R2 as (? & ? & ?). split_and!; congruence.
Qed.

(** The bits no call changes: those of [InitMask], [Managed] and [IsExitEvent]. *)
Definition fixed_flags : Z := 65492.
(** What a call leaves: a list, the clock, and the event it names. *)
Record changed (p : ptr) (s s' : t) (l : list item) (f : Z) (P : Event -> Prop) : Prop := {
  ch_queue : queue s' l; ch_now : curTick s' = curTick s; ch_async : async_queue s' = async_queue s;
  ch_others : linked_but p (heap s) (heap s');
  ch_event : exists e e', heap s !! p = Some e /\ heap s' !! p = Some e' /\ priority e' = priority e /\ flags e' = f /\ P e' }.
Lemma enqueue_wp s l p e w f : queue s l -> p ∉ (snd <$> l) -> heap s !! p = Some e ->
  wp (setWhen p w;; insert p;; store p (fun e => e <| flags ::= f |>)) s (fun _ s' =>
    changed p s s' (place (w, priority e) p l) (f (flags e)) (fun e' => mine e' = true)).
Proof.
  intros Hq Hp He. unfold setWhen. wp_step. eapply store_wp; [exact He|]. set (e1 := over mine _ _). set (s1 := over heap _ s).
  assert (heap s1 !! p = Some e1) as He1 by apply lookup_insert_eq.
  wp_step. eapply wp_mono; [eapply (insert_queue s1 l p e1); [by apply queue_outside|done|done]|]. intros [] s2 [[Hl Hn Ha] Hq2].
  destruct (linked_lookup _ _ _ _ Hl He1) as (e2 & He2 & ([= Hw2 Hp2] & Hf2 & Hm2)).
  eapply store_wp; [exact He2|]. change (key_of e1) with (w, priority e) in Hq2. split.
  - by apply queue_update.
  - exact Hn.
  - exact Ha.
  - etrans; [by apply (linked_but_insert _ _ e e1)|]. etrans; [by apply linked_but_linked|]. by apply (linked_but_insert _ _ e2).
  - exists e, (e2 <| flags ::= f |>). split; [done|]. split; [apply lookup_insert_eq|]. split; [exact Hp2|]. cbn. by rewrite Hf2.
Qed.

(** From a change of one event to the specification. *)
Lemma changed_refines p s s' a a' f : refines s a ->
  changed p s s' (order a') f (fun e' => p ∈ pending a' -> mine e' = true) -> now a' = now a ->
  Forall (fun x => now a' <= x.1.1) (order a') ->
  (forall q, q <> p -> (q ∈ pending a' <-> q ∈ pending a) /\ (q ∈ squash_set a' <-> q ∈ squash_set a)) ->
  isSet f Scheduled = bool_decide (p ∈ pending a') -> isSet f Squashed = bool_decide (p ∈ squash_set a') ->
  (forall e, heap s !! p = Some e -> Z.land f fixed_flags = Z.land (flags e) fixed_flags) ->
  refines s' a'.
Proof.
  intros [] [Hq Hn Ha [Hd Ho] (e & e' & He & He' & Hpr & Hf & Hm)] Hnow Ht Hsame Hs1 Hs2 Hkeep. split; try done; try congruence.
  intros q eq Heq. destruct (decide (q = p)) as [->|Hqp].
  - rewrite He' in Heq. injection Heq as <-. destruct (rf_events0 p e He). specialize (Hkeep e He). rewrite <- Hf in Hs1, Hs2, Hkeep.
    assert (forall m, Z.land m fixed_flags = m -> Z.land (flags e') m = Z.land (flags e) m) as Hk.
    { intros m <-. by rewrite !(Z.land_comm m), !Z.land_assoc, Hkeep. }
    split; try done; try congruence; unfold initialized, isSet in *; rewrite ?Hk; try done.
  - destruct (Ho q eq Hqp Heq) as (e0 & He0 & Hr). destruct (Hsame q Hqp). eapply event_other; eauto.
Qed.

(** The outcome of an operation agrees with the specification; a fault is one of the code. *)
Definition agrees {A} (r : result (A * t)) (o : option spec) : Prop :=
  match o with Some a' => exists x s', r = Ok (x, s') /\ refines s' a' | None => exists f, r = Fault f /\ f <> OutOfFuel end.
Lemma agrees_wp {A} (m : comp t A) s a : wp m s (fun _ s' => refines s' a) -> agrees (m s) (Some a).
Proof. intros (x & s' & E & H)%wp_inv. by exists x, s'. Qed.

Lemma object s a p : refines s a -> p ∈ objs -> exists e, heap s !! p = Some e /\ event_ok a p e.
Proof. intros H Hp. rewrite <- (rf_dom _ _ H) in Hp. apply elem_of_dom in Hp as [e He]. exists e. split; [done|by apply (rf_events _ _ H)]. Qed.
Lemma no_object s a p (k : Event -> comp t unit) : refines s a -> p ∉ objs -> exists f, (e ← deref p; k e) s = Fault f /\ f <> OutOfFuel.
Proof.
  intros H Hp. rewrite <- (rf_dom _ _ H) in Hp. apply not_elem_of_dom in Hp. exists OutOfBounds.
  unfold deref, mbind, comp_bind, get. by rewrite Hp.
Qed.
Lemma pending_object s a p : refines s a -> p ∈ pending a -> p ∈ objs.
Proof.
  intros H Hp. destruct (rf_queue _ _ H) as (bins & Hc & _ & _ & Hi). unfold pending in Hp. rewrite <- Hi, items_ptrs in Hp.
  rewrite <- (rf_dom _ _ H). apply elem_of_dom. by eapply chain_in.
Qed.

Lemma schedule_refines s a p w : refines s a -> agrees (schedule false false p w false s) (call_spec (Schedule p w) a).
Proof.
  intros H. cbn [call_spec]. case_bool_decide as Hp; cbn [andb]; last first.
  { unfold schedule. unfold mbind at 1, comp_bind at 1, get at 1. by eapply no_object. }
  destruct (object s a p H Hp) as (e & He & Hok).
  assert (schedule false false p w false s = (assert_ (now a <=? w);; assert_ (negb (bool_decide (p ∈ pending a)));;
    setWhen p w;; insert p;; store p (fun e => e <| flags ::= set Scheduled |>)) s) as ->.
  { unfold schedule. unfold mbind at 1, comp_bind at 1, get at 1. unfold deref, mbind at 1, comp_bind at 1, get at 1.
    unfold mbind at 1, comp_bind at 1. rewrite He. cbn [mret comp_ret]. unfold mret, comp_ret.
    rewrite (ek_sched _ _ _ Hok), (rf_now _ _ H), (ek_init _ _ _ Hok). unfold mbind, comp_bind, assert_.
    destruct (now a <=? w); [|done]. by destruct (negb _). }
  destruct (Z.leb_spec (now a) w) as [Hw|Hw]; cbn [andb]; [|by eexists; split]. case_bool_decide as Hin; cbn [negb]; [by eexists; split|].
  apply agrees_wp. wp_step. apply wp_assert; [done|]. wp_step. apply wp_assert; [done|].
  eapply wp_mono; [by apply (enqueue_wp s (order a) p e w (set Scheduled)); [apply H|..]|].
  intros [] s' Hc. rewrite (ek_prio _ _ _ Hok) in Hc. eapply (changed_refines p s s' a _ _ H).
  - destruct Hc as [? ? ? ? (e1 & e2 & ? & ? & ? & ? & ?)]. split; try done. exists e1, e2. split_and!; try done.
  - done.
  - cbn. apply place_Forall; [exact Hw|apply H].
  - intros q Hq. unfold pending. cbn. rewrite place_in. tauto.
  - rewrite isSet_set by done. symmetry. apply bool_decide_eq_true. unfold pending. cbn. apply place_in. by left.
  - rewrite isSet_set_ne by done. apply (ek_squash _ _ _ Hok).
  - intros e0 He0. rewrite He in He0. injection He0 as <-. by apply land_set.
Qed.

Lemma drop_pending a p q : q <> p -> q ∈ (snd <$> drop_item p (order a)) <-> q ∈ pending a.
Proof. intros Hq. rewrite drop_in. unfold pending. tauto. Qed.
Lemma deschedule_refines s a p : refines s a -> agrees (deschedule false false p s) (call_spec (Deschedule p) a).
Proof.
  intros H. cbn [call_spec]. destruct (decide (p ∈ objs)) as [Hp|Hp]; last first.
  { rewrite bool_decide_false by (intros Hin; apply Hp; by eapply pending_object). unfold deschedule. by eapply no_object. }
  destruct (object s a p H Hp) as (e & He & Hok).
  assert (deschedule false false p s = (assert_ (bool_decide (p ∈ pending a));; remove p;;
    store p (fun e => e <| flags ::= fun f => clear Scheduled (clear Squashed f) |>);; release p) s) as ->.
  { unfold deschedule, deref at 1. unfold mbind at 1, comp_bind at 1. unfold mbind at 1, comp_bind at 1, get at 1. rewrite He.
    unfold mret at 1, comp_ret at 1. rewrite (ek_sched _ _ _ Hok), (ek_init _ _ _ Hok). unfold mbind, comp_bind, assert_. by destruct (bool_decide _). }
  case_bool_decide as Hin; [|by eexists; split].
  apply agrees_wp. wp_step. apply wp_assert; [done|]. wp_step.
  eapply wp_mono; [eapply (remove_queue s (order a) p e); [apply H|done|done|by apply Hok]|]. intros [] s1 [[Hl Hn Ha] Hq1].
  destruct (linked_lookup _ _ _ _ Hl He) as (e1 & He1 & ([= Hw1 Hp1] & Hf1 & Hm1)).
  wp_step. eapply store_wp; [exact He1|]. unfold release. wp_step. eapply deref_wp; [apply lookup_insert_eq|].
  set (e2 := over flags _ e1). set (f2 := clear Scheduled (clear Squashed (flags e))).
  assert (flags e2 = f2) as Ef2 by (unfold e2, f2; cbn; by rewrite Hf1).
  assert (Z.land f2 fixed_flags = Z.land (flags e) fixed_flags) as Hfix by (unfold f2; by rewrite !land_clear).
  assert (isSet (flags e2) Managed = false) as ->.
  { rewrite Ef2. unfold isSet, f2. rewrite !land_clear by done. apply (ek_plain _ _ _ Hok). }
  cbn [when_ andb]. wp_step. eapply (changed_refines p s _ a _ f2 H).
  - split; [by apply queue_update|exact Hn|exact Ha| |].
    + etrans; [by apply linked_but_linked|]. by apply (linked_but_insert _ _ e1).
    + exists e, e2. split; [done|]. split; [apply lookup_insert_eq|]. split; [exact Hp1|]. split; [done|].
      unfold pending. cbn. rewrite drop_in. by intros [? _].
  - done.
  - apply drop_Forall, H.
  - intros q Hq. split; [by apply drop_pending|]. cbn. set_solver.
  - unfold f2. rewrite isSet_clear. symmetry. apply bool_decide_eq_false. unfold pending. cbn. rewrite drop_in. by intros [? _].
  - unfold f2. rewrite isSet_clear_ne, isSet_clear by done. symmetry. apply bool_decide_eq_false. cbn. set_solver.
  - intros e0 He0. rewrite He in He0. by injection He0 as <-.
Qed.

Lemma squash_refines s a p : refines s a -> agrees (EventQueue.squash p s) (call_spec (Squash p) a).
Proof.
  intros H. cbn [call_spec]. case_bool_decide as Hp; [|unfold EventQueue.squash, store; by eapply no_object].
  destruct (object s a p H Hp) as (e & He & Hok). apply agrees_wp. unfold EventQueue.squash. eapply store_wp; [exact He|].
  eapply (changed_refines p s _ a _ (set Squashed (flags e)) H).
  - split; [apply (queue_update s _ p e); [apply H|done]|done|done|by apply (linked_but_insert _ _ e)|].
    eexists e, _. split; [done|]. split; [apply lookup_insert_eq|]. split; [done|]. split; [done|]. apply Hok.
  - done.
  - apply H.
  - intros q Hq. cbn. set_solver.
  - rewrite isSet_set_ne by done. apply (ek_sched _ _ _ Hok).
  - rewrite isSet_set by done. symmetry. apply bool_decide_eq_true. cbn. set_solver.
  - intros e0 He0. rewrite He in He0. injection He0 as <-. by apply land_set.
Qed.

Lemma reschedule_refines s a p w always : refines s a -> agrees (reschedule false false p w always s) (call_spec (Reschedule p w always) a).
Proof.
  intros H. cbn [call_spec]. case_bool_decide as Hp; cbn [andb]; last first.
  { unfold reschedule. unfold mbind at 1, comp_bind at 1, get at 1. by eapply no_object. }
  destruct (object s a p H Hp) as (e & He & Hok).
  assert (reschedule false false p w always s = (assert_ (now a <=? w);; assert_ (always || bool_decide (p ∈ pending a));;
    when_ (bool_decide (p ∈ pending a)) (remove p);;
    setWhen p w;; insert p;; store p (fun e => e <| flags ::= fun f => set Scheduled (clear Squashed f) |>)) s) as ->.
  { unfold reschedule. unfold mbind at 1, comp_bind at 1, get at 1. unfold deref, mbind at 1, comp_bind at 1, get at 1.
    unfold mbind at 1, comp_bind at 1. rewrite He. unfold mret at 1, comp_ret at 1.
    rewrite (ek_sched _ _ _ Hok), (rf_now _ _ H), (ek_init _ _ _ Hok). unfold mbind, comp_bind, assert_.
    destruct (now a <=? w); [|done]. by destruct (always || _). }
  destruct (Z.leb_spec (now a) w) as [Hw|Hw]; cbn [andb]; [|by eexists; split].
  destruct (always || bool_decide (p ∈ pending a)) eqn:Eal; [|by eexists; split].
  apply agrees_wp. wp_step. apply wp_assert; [done|]. wp_step. apply wp_assert; [done|]. wp_step.
  eapply (wp_mono _ _ (fun _ s1 => relink s s1 /\ queue s1 (drop_item p (order a)))).
  { case_bool_decide as Hin; cbn [when_]; [eapply (remove_queue s (order a) p e); [apply H|done|done|by apply Hok]|].
    wp_step. rewrite drop_notin by done. split; [done|apply H]. }
  intros [] s1 [[Hl Hn Ha] Hq1]. destruct (linked_lookup _ _ _ _ Hl He) as (e1 & He1 & ([= Hw1 Hp1] & Hf1 & Hm1)).
  assert (p ∉ (snd <$> drop_item p (order a))) as Hnot by (rewrite drop_in; by intros [? _]).
  eapply wp_mono; [by apply (enqueue_wp s1 (drop_item p (order a)) p e1 w (fun f => set Scheduled (clear Squashed f)))|].
  intros [] s' [Hq' Hn' Ha' Ho' (x & e' & Hx & He' & Hpr & Hf & Hm)]. rewrite He1 in Hx. injection Hx as <-.
  rewrite Hp1, (ek_prio _ _ _ Hok) in Hq'. rewrite Hf1 in Hf.
  eapply (changed_refines p s s' a _ _ H).
  - split; [exact Hq'|congruence|congruence|etrans; [by apply linked_but_linked|exact Ho']|].
    exists e, e'. split_and!; try done. congruence.
  - done.
  - cbn. apply place_Forall; [exact Hw|apply drop_Forall, H].
  - intros q Hq. split; [|cbn; set_solver]. unfold pending. cbn. rewrite place_in, drop_in. tauto.
  - rewrite isSet_set by done. symmetry. apply bool_decide_eq_true. unfold pending. cbn. apply place_in. by left.
  - rewrite isSet_set_ne, isSet_clear by done. symmetry. apply bool_decide_eq_false. cbn. set_solver.
  - intros e0 He0. rewrite He in He0. injection He0 as <-. rewrite land_set by done. by apply land_clear.
Qed.

Lemma call_refines s a c : refines s a -> agrees (run_call c s) (call_spec c a).
Proof.
  intros H. destruct c; cbn [run_call]; [by apply schedule_refines|by apply deschedule_refines|by apply reschedule_refines|by apply squash_refines].
Qed.
Lemma calls_refines l : forall s a, refines s a -> agrees (run_calls l s) (calls_spec l a).
Proof.
  induction l as [|c l IH]; intros s a H; cbn [run_calls calls_spec]; [by exists tt, s|].
  pose proof (call_refines s a c H) as Hc. unfold mbind, comp_bind. unfold agrees in Hc.
  destruct (call_spec c a) as [a'|]; [|by destruct Hc as (f & -> & Hf); exists f]. destruct Hc as (x & s' & -> & H'). by apply IH.
Qed.

(** ** Service *)

Lemma queue_order s k p l : queue s ((k, p) :: l) -> Forall (fun x => k.1 <= x.1.1) l.
Proof.
  intros (bins & Hc & Hs & _ & Hi). destruct bins as [|[k0 b] bins]; [done|]. destruct Hc as (q & b' & _ & -> & _).
  apply StronglySorted_inv in Hs as [_ Hall]. rewrite items_cons in Hi. injection Hi as -> -> <-.
  apply Forall_app. split; [apply Forall_fmap, Forall_forall; intros y _; cbn; lia|].
  apply Forall_forall. intros [kx px] [b [Hb _]]%items_in. rewrite Forall_forall in Hall. specialize (Hall _ Hb).
  apply klt_spec in Hall. cbn in *. lia.
Qed.
Lemma release_plain s p e : heap s !! p = Some e -> isSet (flags e) Managed = false -> release p s = Ok (tt, s).
Proof. intros He Hm. unfold release, deref, mbind, comp_bind, get. rewrite He. unfold mret, comp_ret. by rewrite Hm. Qed.
Lemma pop_refines s a k p l : refines s a -> order a = (k, p) :: l ->
  exists s' e, pop s = Ok (p, s') /\ refines s' (a <| order := l |>) /\ heap s' !! p = Some e /\ key_of e = k /\ async_queue s' = [].
Proof.
  intros H Ho. pose proof (rf_queue _ _ H) as Hq. rewrite Ho in Hq. assert (p ∈ pending a) as Hp by (unfold pending; rewrite Ho; left).
  destruct (object s a p H (pending_object s a p H Hp)) as (e & He & Hok). destruct (pop_queue s l k p e Hq He) as (Hk & Hpop).
  apply wp_inv in Hpop as (x & s' & E & -> & [Hl Hn Ha] & Hq'). set (s1 := over heap _ s) in Hl, Hn, Ha.
  assert (heap s1 !! p = Some (e <| flags ::= clear Scheduled |>)) as He1 by apply lookup_insert_eq.
  destruct (linked_lookup _ _ _ _ Hl He1) as (e' & He' & ([= Hw Hpr] & Hf & Hm)). cbn in Hf.
  assert (p ∉ (snd <$> l)) as Hnot by by apply queue_nodup, NoDup_cons in Hq as [? _].
  exists s', e'. split; [done|]. split; [|split; [done|split; [|rewrite Ha; apply H]]].
  - eapply (changed_refines p s s' a _ (clear Scheduled (flags e)) H).
    + split; [done|done|done|etrans; [|by apply linked_but_linked, Hl]; by apply (linked_but_insert _ _ e)|].
      exists e, e'. split_and!; try done.
    + done.
    + pose proof (rf_time _ _ H) as Ht. rewrite Ho in Ht. by apply Forall_cons_1 in Ht as [_ ?].
    + intros q Hqp. unfold pending. rewrite Ho. cbn. rewrite elem_of_cons. tauto.
    + rewrite isSet_clear. symmetry. by apply bool_decide_eq_false.
    + rewrite isSet_clear_ne by done. apply (ek_squash _ _ _ Hok).
    + intros e0 He0. rewrite He in He0. injection He0 as <-. by apply land_clear.
  - rewrite <- Hk. unfold key_of. by rewrite Hw, Hpr.
Qed.
Lemma tick_refines s a w : refines s a -> now a <= w -> Forall (fun x => w <= x.1.1) (order a) ->
  refines (s <| curTick := w |>) (a <| now := w |>).
Proof. intros [] Hw Hall. split; try done. intros p e He. destruct (rf_events0 p e He). by split. Qed.
Lemma unsquash_refines s a p e : refines s a -> heap s !! p = Some e ->
  refines (s <| heap := <[p := e <| flags ::= clear Squashed |>]> (heap s) |>) (a <| squash_set ::= fun X => X ∖ {[ p ]} |>).
Proof.
  intros H He. pose proof (rf_events _ _ H p e He) as Hok. eapply (changed_refines p s _ a _ (clear Squashed (flags e)) H).
  - split; [apply (queue_update s _ p e); [apply H|done]|done|done|by apply (linked_but_insert _ _ e)|].
    eexists e, _. split; [done|]. split; [apply lookup_insert_eq|]. split; [done|]. split; [done|]. apply Hok.
  - done.
  - apply H.
  - intros q Hq. split; [done|]. cbn. set_solver.
  - rewrite isSet_clear_ne by done. apply Hok.
  - rewrite isSet_clear. symmetry. apply bool_decide_eq_false. cbn. set_solver.
  - intros e0 He0. rewrite He in He0. injection He0 as <-. by apply land_clear.
Qed.
Lemma process_refines s a p : refines s a -> agrees (process p s) (calls_spec (script (now a) p) a).
Proof. intros H. unfold process, mbind, comp_bind, get. rewrite (rf_now _ _ H). by apply calls_refines. Qed.

Lemma serve_refines s a : refines s a -> agrees (serviceOne process s) (serve_spec a).
Proof.
  intros H. unfold serve_spec, serviceOne. destruct (order a) as [|[k p] l] eqn:Ho.
  { pose proof (rf_queue _ _ H) as (bins & Hc & _ & _ & Hi). rewrite Ho in Hi. destruct bins as [|[k0 b] bins]; cycle 1.
    { by destruct Hc as (q & b' & _ & -> & _). }
    exists OutOfBounds. unfold pop, mbind, comp_bind, get. cbn in Hc. by rewrite Hc. }
  destruct (pop_refines s a k p l H Ho) as (s1 & e & Hpop & H1 & He & Hk & _).
  pose proof (rf_events _ _ H1 p e He) as Hok. set (a1 := over order _ a) in *. change (squash_set a) with (squash_set a1).
  unfold mbind at 1, comp_bind at 1. rewrite Hpop. unfold mbind at 1, comp_bind at 1. unfold deref at 1, mbind at 1, comp_bind at 1, get at 1.
  rewrite He. unfold mret at 1, comp_ret at 1. rewrite (ek_squash _ _ _ Hok). case_bool_decide as Hsq; cbn [negb].
  - apply agrees_wp. wp_step. eapply store_wp; [exact He|]. wp_step.
    eapply (wp_mono _ _ (fun _ s' => refines s' (a1 <| squash_set ::= fun X => X ∖ {[ p ]} |>))); [|intros [] s' Hs'; wp_step; exact Hs'].
    unfold wp. rewrite (release_plain _ p _ (lookup_insert_eq _ _ _)); [by apply unsquash_refines|].
    cbn. unfold isSet. rewrite land_clear by done. apply Hok.
  - assert (refines (s1 <| curTick := when e |>) (a1 <| now := k.1 |>)) as H2.
    { rewrite <- Hk. apply tick_refines; [done|..].
      - pose proof (rf_time _ _ H) as Ht. rewrite Ho in Ht. apply Forall_cons_1 in Ht as [Ht _]. by rewrite <- Hk in Ht.
      - pose proof (rf_queue _ _ H) as Hq. rewrite Ho in Hq. rewrite <- Hk in Hq. by apply queue_order in Hq. }
    pose proof (process_refines _ _ p H2) as Hp. change (now (a1 <| now := k.1 |>)) with k.1 in Hp.
    unfold mbind at 1, comp_bind at 1, setCurTick at 1, modify at 1. unfold mbind at 1, comp_bind at 1.
    destruct (calls_spec _ _) as [a2|]; [|by destruct Hp as (f & -> & Hf); exists f]. destruct Hp as ([] & s2 & -> & H3).
    assert (p ∈ objs) as Hpo by (rewrite <- (rf_dom _ _ H1); apply elem_of_dom; by eexists).
    destruct (object s2 a2 p H3 Hpo) as (e2 & He2 & Hok2). unfold mbind at 1, comp_bind at 1, deref, mbind at 1, comp_bind at 1, get at 1.
    rewrite He2. unfold mret at 1, comp_ret at 1. destruct (ek_plain _ _ _ Hok2) as [Hm Hx]. rewrite Hx.
    unfold mbind, comp_bind. rewrite (release_plain s2 p e2 He2 Hm). by exists None, s2.
Qed.

(** ** Runs *)

Definition run_op (o : option call) : comp t unit :=
  match o with Some c => run_call c | None => _ ← serviceOne process; mret tt end.
Fixpoint run_ops (l : list (option call)) : comp t unit :=
  match l with [] => mret tt | o :: l' => run_op o;; run_ops l' end.
Definition op_spec (o : option call) (a : spec) : option spec :=
  match o with Some c => call_spec c a | None => serve_spec a end.
Fixpoint ops_spec (l : list (option call)) (a : spec) : option spec :=
  match l with [] => Some a | o :: l' => match op_spec o a with Some a' => ops_spec l' a' | None => None end end.
(** An event as its constructor leaves it. *)
Definition fresh (p : ptr) (e : Event) : Prop := e = new_Event (prio p) 0.

Lemma agrees_bind {A B} (m : comp t A) (k : A -> comp t B) s a o :
  agrees (m s) o -> (forall x s' a', o = Some a' -> m s = Ok (x, s') -> refines s' a' -> agrees (k x s') a) ->
  (o = None -> a = None) -> agrees ((x ← m; k x) s) a.
Proof.
  intros Hm Hk Hn. unfold mbind, comp_bind. destruct o as [a'|].
  - destruct Hm as (x & s' & E & H'). rewrite E. by eapply Hk.
  - destruct Hm as (f & -> & Hf). rewrite Hn by done. by exists f.
Qed.
Lemma op_refines o s a : refines s a -> agrees (run_op o s) (op_spec o a).
Proof.
  intros H. destruct o as [c|]; cbn [run_op op_spec]; [by apply call_refines|].
  eapply agrees_bind; [by apply serve_refines| |done]. intros x s' a' -> _ H'. by exists tt, s'.
Qed.
Lemma ops_refines l : forall s a, refines s a -> agrees (run_ops l s) (ops_spec l a).
Proof.
  induction l as [|o l IH]; intros s a H; cbn [run_ops ops_spec]; [by exists tt, s|].
  eapply agrees_bind; [by apply op_refines| |by intros ->]. intros x s' a' -> _ H'. by apply IH.
Qed.
Lemma create_refines h : dom h = objs -> map_Forall fresh h -> refines (create h) (mkSpec [] 0 ∅).
Proof.
  intros Hd Hf. split; try done.
  - exists []. repeat split; constructor.
  - intros p e He. rewrite (Hf p e He). split; try done. by intros ?%elem_of_nil.
Qed.

(** ** Running to a tick *)

(** The events up to the tick [w] are served in order, then the clock is at [w]. *)
Inductive served (w : Z) : spec -> option spec -> Prop :=
  | served_end a : Forall (fun x => w < x.1.1) (order a) -> served w a (Some (a <| now := w |>))
  | served_one a a' r x l : order a = x :: l -> x.1.1 <= w -> serve_spec a = Some a' -> served w a' r -> served w a r
  | served_fault a x l : order a = x :: l -> x.1.1 <= w -> serve_spec a = None -> served w a None.
(** The handlers schedule only after the current tick. *)
Definition later (t : Z) (c : call) : Prop :=
  match c with Schedule _ w | Reschedule _ w _ => t < w | _ => True end.

(** The events due now, and a bound on the events served up to [w]. *)
Definition due (a : spec) : list item := filter (fun x => x.1.1 = now a) (order a).
Definition bound (w : Z) (a : spec) : Z :=
  let n := Z.of_nat (size objs) in
  ((w - now a) * n + Z.of_nat (length (due a))) * (n + 1) + Z.of_nat (length (order a)).

Lemma due_place t k p l : t < k.1 -> filter (fun x : item => x.1.1 = t) (place k p l) = filter (fun x => x.1.1 = t) l.
Proof.
  intros Hk. induction l as [|x l IH]; cbn [place].
  - rewrite filter_cons, decide_False by (cbn; lia). done.
  - destruct (klt x.1 k); [|rewrite (filter_cons _ (k, p)), decide_False by (cbn; lia); done].
    rewrite !filter_cons, IH. done.
Qed.
Lemma due_drop t p l : (length (filter (fun x : item => x.1.1 = t) (drop_item p l)) <= length (filter (fun x => x.1.1 = t) l))%nat.
Proof.
  assert (filter (fun x : item => x.1.1 = t) (drop_item p l) = drop_item p (filter (fun x => x.1.1 = t) l)) as ->.
  { unfold drop_item. rewrite !list_filter_filter. apply list_filter_iff. tauto. }
  apply length_filter.
Qed.
Lemma call_due c a a' : later (now a) c -> call_spec c a = Some a' ->
  now a' = now a /\ (length (due a') <= length (due a))%nat.
Proof.
  unfold due. intros Hl. destruct c as [p w|p|p w always|p]; cbn [call_spec later] in *.
  - destruct (_ && _); [|done]. intros [= <-]. split; [done|]. cbn [order now over]. by rewrite due_place.
  - destruct (bool_decide _); [|done]. intros [= <-]. split; [done|]. apply due_drop.
  - destruct (_ && _); [|done]. intros [= <-]. split; [done|]. cbn [order now over]. rewrite due_place by done. apply due_drop.
  - destruct (bool_decide _); [|done]. by intros [= <-].
Qed.
Lemma calls_due l : forall a a', Forall (later (now a)) l -> calls_spec l a = Some a' ->
  now a' = now a /\ (length (due a') <= length (due a))%nat.
Proof.
  induction l as [|c l IH]; intros a a' Hl; cbn [calls_spec]; [by intros [= <-]|]. apply Forall_cons_1 in Hl as [Hc Hl].
  destruct (call_spec c a) as [a1|] eqn:E; [|done]. destruct (call_due c a a1 Hc E) as [Hn Hd]. rewrite <- Hn in Hl.
  intros Ha'. destruct (IH a1 a' Hl Ha') as [Hn' Hd']. split; [congruence|lia].
Qed.
Lemma order_size s a : refines s a -> (length (order a) <= size objs)%nat.
Proof.
  intros H. assert (length (order a) = length (pending a)) as -> by (unfold pending; by rewrite length_fmap). assert (NoDup (pending a)) as Hn by (eapply queue_nodup; apply H).
  rewrite <- (size_list_to_set (C := gset ptr) (pending a) Hn). apply subseteq_size. intros p. rewrite elem_of_list_to_set.
  by eapply pending_object.
Qed.

Lemma bound_drop n w t t' d d' len len' : 0 <= n -> 0 <= d' -> 0 <= len' -> 0 <= len -> t <= t' <= w ->
  (d' < d /\ len' <= n) \/ (t < t' /\ d' < n /\ 0 <= d /\ len' <= n) \/ (d' <= d /\ len' < len) ->
  0 <= ((w - t') * n + d') * (n + 1) + len' < ((w - t) * n + d) * (n + 1) + len.
Proof.
  intros Hn Hd Hl Hlen Ht H. assert (0 <= (w - t') * n <= (w - t) * n) by nia. destruct H as [H|[H|H]]; [nia| |nia].
  assert ((w - t') * n + d' + 1 <= (w - t) * n + d) by nia. nia.
Qed.
Lemma serve_bound s s' a w x l a' : refines s a -> refines s' a' -> (forall t p, Forall (later t) (script t p)) ->
  order a = x :: l -> x.1.1 <= w -> serve_spec a = Some a' -> now a' <= w /\ 0 <= bound w a' < bound w a.
Proof.
  intros H H' Hscr Ho Hw. pose proof (order_size _ _ H) as Hs. pose proof (order_size _ _ H') as Hs'.
  pose proof (rf_time _ _ H) as Ht. rewrite Ho in Ht. apply Forall_cons_1 in Ht as [Ht _].
  unfold serve_spec. rewrite Ho in Hs |- *. destruct x as [k p]. cbn [fst snd length] in *. case_bool_decide.
  - intros [= <-]. cbn [now over]. split; [lia|]. unfold bound, due. rewrite Ho. cbn [now order over]. rewrite filter_cons.
    apply bound_drop; try lia. right. right. cbn [length]. split; [|lia]. apply inj_le. destruct (decide _); [apply Nat.le_succ_diag_r|done].
  - intros E. destruct (calls_due _ _ _ (Hscr _ _) E) as [Hn Hd]. cbn [now over] in Hn. split; [lia|]. unfold bound. rewrite Hn.
    apply bound_drop; try lia. unfold due in *. rewrite Ho. cbn [order now over] in *. rewrite filter_cons in *. cbn [fst snd] in *.
    destruct (decide (k.1 = now a)) as [E1|E1].
    + left. split; [|lia]. apply inj_lt, Nat.lt_succ_r. rewrite E1 in Hd. exact Hd.
    + right. left. split; [lia|]. split; [|lia]. apply inj_lt. eapply Nat.le_lt_trans; [exact Hd|].
      eapply Nat.le_lt_trans; [apply length_filter|exact Hs].
Qed.
Lemma first_event s a : refines s a ->
  match order a with
  | [] => head s = None
  | (k, p) :: _ => exists e, head s = Some p /\ heap s !! p = Some e /\ when e = k.1
  end.
Proof.
  intros H. pose proof (rf_queue _ _ H) as (bins & Hc & _ & _ & <-). destruct bins as [|[k b] bins]; [exact Hc|].
  destruct Hc as (p & l & e & -> & Hh & He & (e' & He' & <- & _) & _). rewrite items_cons. cbn. exists e. rewrite He in He'. by injection He' as <-.
Qed.
Lemma events_served fuel w : forall s a, refines s a -> (forall t p, Forall (later t) (script t p)) -> now a <= w ->
  bound w a < Z.of_nat fuel ->
  exists r, served w a r /\ agrees (serviceEvents process fuel w s) r.
Proof.
  induction fuel as [|fuel IH]; intros s a H Hscr Hnow Hb.
  { unfold bound in Hb. assert (0 <= (w - now a) * Z.of_nat (size objs)) by nia. nia. }
  cbn [serviceEvents]. unfold mbind at 1, comp_bind at 1, get at 1. pose proof (first_event s a H) as Hf.
  destruct (order a) as [|[k p] l] eqn:Ho.
  { rewrite Hf. exists (Some (a <| now := w |>)). split; [by apply served_end; rewrite Ho|].
    eexists tt, _. split; [done|]. apply tick_refines; [done..|]. by rewrite Ho. }
  destruct Hf as (e & -> & He & Hw). unfold mbind at 1, comp_bind at 1. unfold deref at 1, mbind at 1, comp_bind at 1, get at 1.
  rewrite He. unfold mret at 1, comp_ret at 1. rewrite Hw. destruct (Z.ltb_spec w k.1) as [Hk|Hk].
  { assert (Forall (fun x => w < x.1.1) (order a)) as Hall.
    { rewrite Ho. constructor; [done|]. pose proof (rf_queue _ _ H) as Hq. rewrite Ho in Hq. apply queue_order in Hq.
      eapply Forall_impl; [exact Hq|]. cbn. intros x Hx. lia. }
    exists (Some (a <| now := w |>)). split; [by apply served_end|]. eexists tt, _. split; [done|].
    apply tick_refines; [done..|]. eapply Forall_impl; [exact Hall|]. intros x. apply Z.lt_le_incl. }
  pose proof (serve_refines s a H) as Hs. unfold mbind, comp_bind. destruct (serve_spec a) as [a'|] eqn:E; cbn [agrees] in Hs.
  - destruct Hs as (x & s' & -> & H'). destruct (serve_bound s s' a w _ l a' H H' Hscr Ho Hk E) as [Hn Hb'].
    destruct (IH s' a' H' Hscr Hn ltac:(lia)) as (r & Hr & Ha). exists r. split; [by eapply served_one|done].
  - destruct Hs as (f & -> & Hf). exists None. split; [by eapply served_fault|by exists f].
Qed.
Lemma served_done w a a' : served w a (Some a') -> now a' = w /\ Forall (fun x => w < x.1.1) (order a').
Proof. remember (Some a') as r eqn:E. intros H. revert E. induction H; [by intros [= <-]|done|done]. Qed.
End Refinement.

(** ** The consistency check *)

Lemma before_key e time prio : (when e <? time) = false -> (when e =? time) && (priority e <? prio) = klt (key_of e) (time, prio).
Proof. intros H. unfold klt. cbn. by rewrite H. Qed.
Lemma verify_stack_wp s k l : forall fuel time prio seen, stack (heap s) k l -> NoDup l -> (forall p, p ∈ l -> p ∉ seen) ->
  (length l <= fuel)%nat -> klt k (time, prio) = false ->
  wp (verify_stack fuel (hd_error l) (time, prio, seen)) s (fun r s' => s' = s /\
    exists seen', r = Some (if l is [] then (time, prio) else k, seen') /\ forall p, p ∈ seen' -> p ∈ l \/ p ∈ seen).
Proof.
  induction l as [|p l IH]; intros fuel time prio seen Hst Hn Hd Hf Hk; cbn [hd_error].
  { destruct fuel; cbn [verify_stack]; wp_step; (split; [done|]); exists seen; (split; [done|]); auto. }
  destruct Hst as (e & He & Ek & En & Hst). apply NoDup_cons in Hn as [Hp Hn].
  assert ((when e <? time) = false) as E1.
  { rewrite <- Ek in Hk. apply klt_false in Hk. cbn in Hk. lia. }
  assert (klt k (when e, priority e) = false) as E3 by (change (when e, priority e) with (key_of e); rewrite Ek; apply klt_irrefl).
  destruct fuel as [|fuel]; [cbn in Hf; lia|]. cbn [verify_stack]. wp_step. eapply deref_wp; [exact He|].
  rewrite E1, (before_key _ _ _ E1), Ek, Hk, decide_False by (apply Hd; left). rewrite En.
  eapply wp_mono; [apply (IH fuel (when e) (priority e))|].
  - done.
  - done.
  - intros q Hq. apply not_elem_of_union. split; [|apply Hd; by right]. rewrite elem_of_singleton. by intros ->.
  - cbn in Hf. lia.
  - done.
  - intros r s' (-> & seen' & -> & Hs). split; [done|]. exists seen'. split.
    + f_equal. f_equal. destruct l; [exact Ek|done].
    + intros q Hq. destruct (Hs q Hq) as [?|[->%elem_of_singleton|?]%elem_of_union]; [left; by right|left; left|by right].
Qed.
Lemma verify_first s k p l : forall fuel time prio seen, stack (heap s) k (p :: l) -> klt k (time, prio) = true -> 
  wp (verify_stack fuel (Some p) (time, prio, seen)) s (fun r s' => s' = s /\ r = None).
Proof.
  intros fuel time prio seen (e & He & Ek & _) Hk. destruct fuel; cbn [verify_stack]; wp_step; (eapply deref_wp; [exact He|]);
    (destruct (when e <? time) eqn:E; [by wp_step|]); rewrite (before_key _ _ _ E), Ek, Hk; by wp_step.
Qed.
Lemma verify_bins_wp s bins : forall fuel top time prio seen, chain (heap s) top bins -> sorted bins -> NoDup (ptrs bins) ->
  (forall p, p ∈ ptrs bins -> p ∉ seen) -> (length bins <= fuel)%nat ->
  (forall b, hd_error bins = Some b -> klt b.1 (time, prio) = false) ->
  wp (verify_bins fuel top (time, prio, seen)) s (fun r s' => r = true /\ s' = s).
Proof.
  induction bins as [|[k b] bins IH]; intros fuel top time prio seen Hc Hs Hn Hd Hf Hk.
  { cbn in Hc. subst top. destruct fuel; cbn [verify_bins]; by wp_step. }
  pose proof Hc as (p & l & e & -> & -> & He & Hst & Hcc). rewrite ptrs_cons in Hn, Hd. apply NoDup_app in Hn as (Hn1 & Hdis & Hn2).
  apply StronglySorted_inv in Hs as [Hs Hall].
  assert (length (p :: l) <= size (heap s))%nat as Hsz.
  { apply objects_size; [done|]. intros q Hq. destruct (stack_in _ _ _ _ Hst Hq) as (eq & Heq & _). by eexists. }
  destruct fuel as [|fuel]; [cbn in Hf; lia|]. cbn [verify_bins]. wp_step. wp_step. wp_step.
  eapply wp_mono; [apply (verify_stack_wp s k (p :: l) (steps s) time prio seen Hst Hn1)|].
  - intros q Hq. apply Hd, elem_of_app. by left.
  - unfold steps. lia.
  - by apply (Hk (k, p :: l)).
  - intros r s' (-> & seen' & -> & Hin). wp_step. eapply deref_wp; [exact He|]. destruct k as [kt kp]. apply IH; try done.
    + intros q Hq Hq'. destruct (Hin q Hq') as [?|Hq2]; [by apply (Hdis q)|]. apply (Hd q); [apply elem_of_app; by right|done].
    + cbn in Hf. lia.
    + intros b Hb. destruct bins as [|b' bins]; [done|]. injection Hb as ->. apply Forall_cons_1 in Hall as [Hb _]. by apply klt_asym.
Qed.
Lemma debugVerify_wp s l : queue s l -> 
  wp debugVerify s (fun r s' => s' = s /\ r = match l with (k, _) :: _ => negb (klt k (0, 0)) | [] => true end).
Proof.
  intros (bins & Hc & Hs & Hn & <-). unfold debugVerify. wp_step. wp_step.
  assert (length bins <= steps s)%nat as Hsz by (pose proof (bins_ptrs _ _ _ Hc); pose proof (ptrs_size _ _ _ Hc Hn); unfold steps; lia).
  destruct (match bins with b :: _ => klt b.1 (0, 0) | [] => false end) eqn:E.
  - destruct bins as [|[k b] bins]; [done|]. destruct Hc as (p & l & e & -> & -> & He & Hst & _).
    unfold steps at 1. cbn [verify_bins]. wp_step. wp_step. wp_step.
    eapply wp_mono; [by eapply (verify_first s k p l)|]. intros r s' (-> & ->). wp_step. rewrite items_cons. cbn in *. by rewrite E.
  - eapply wp_mono; [apply (verify_bins_wp s bins); try done|].
    + intros b Hb. by destruct bins as [|b' bins]; [|injection Hb as ->].
    + intros r s' [-> ->]. split; [done|]. destruct bins as [|[k b] bins]; [done|].
      destruct Hc as (p & l & e & -> & _). rewrite items_cons. cbn in *. by rewrite E.
Qed.

(** ** Properties *)

(** C7. The event queue implements a priority list: any sequence of schedules, deschedules,
    reschedules, squashes and services, the handlers scheduling in turn, faults exactly
    where the list has no such step (a time in the past, an event scheduled twice, one that
    is not scheduled, nothing to serve), and otherwise leaves linked bins that represent
    the list of the specification: ordered by tick and priority, last in first out among
    equals, the clock at the last event served and no pending event before it. *)
Theorem queue_refines objs prio script s a ops : refines objs prio s a ->
  agrees objs prio (run_ops script ops s) (ops_spec objs prio script ops a).
Proof. intros H. by apply ops_refines. Qed.

(** Three events: a clock every 10 ticks, a monitor that precedes it and squashes the third. *)
Definition demo_prio (p : ptr) : Z := if p =? 2 then -1 else 0.
Definition demo_script (t : Z) (p : ptr) : list call :=
  if p =? 1 then [Schedule 1 (t + 10)] else if p =? 2 then [Squash 3; Reschedule 2 (t + 15) true] else [].
Definition demo_objs : gset ptr := {[ 1; 2; 3 ]}.
Definition demo_heap : gmap ptr Event := {[ 1 := new_Event 0 0; 2 := new_Event (-1) 0; 3 := new_Event 0 0 ]}.
Definition demo_ops : list (option call) :=
  [Some (Schedule 1 5); Some (Schedule 2 5); Some (Schedule 3 5); None; None; None; Some (Deschedule 2)].
Lemma demo_fresh : dom demo_heap = demo_objs /\ map_Forall (fresh demo_prio) demo_heap.
Proof.
  split; [set_solver|]. apply map_Forall_insert_2; [done|]. apply map_Forall_insert_2; [done|]. by apply map_Forall_singleton.
Qed.
Lemma queue_refines_witness :
  exists x s', run_ops demo_script demo_ops (create demo_heap) = Ok (x, s') /\
    refines demo_objs demo_prio s' (mkSpec [((15, 0), 1)] 5 ∅).
Proof.
  pose proof (queue_refines demo_objs demo_prio demo_script (create demo_heap) (mkSpec [] 0 ∅) demo_ops
    (create_refines _ _ _ (proj1 demo_fresh) (proj2 demo_fresh))) as H.
  assert (ops_spec demo_objs demo_prio demo_script demo_ops (mkSpec [] 0 ∅) = Some (mkSpec [((15, 0), 1)] 5 ∅)) as E by (vm_compute; reflexivity).
  by rewrite E in H.
Defined.

(** C8. [serviceEvents] returns: when the handlers schedule only after the current tick, it
    serves at most [bound w a] events and leaves the clock at [w] with every remaining
    event after [w], unless a handler's call trips an assertion. *)
Theorem serviceEvents_stops objs prio script s a w fuel : refines objs prio s a -> now a <= w ->
  (forall t p, Forall (later t) (script t p)) -> bound objs w a < Z.of_nat fuel ->
  exists r, served objs prio script w a r /\ agrees objs prio (serviceEvents (process script) fuel w s) r /\
    match r with Some a' => now a' = w /\ Forall (fun x => w < x.1.1) (order a') | None => True end.
Proof.
  intros H Hw Hl Hf. destruct (events_served objs prio script fuel w s a H Hl Hw Hf) as (r & Hr & Ha).
  exists r. split; [done|]. split; [done|]. destruct r; [by eapply served_done|done].
Qed.
Lemma demo_later t p : Forall (later t) (demo_script t p).
Proof. unfold demo_script. destruct (p =? 1); [|destruct (p =? 2)]; repeat constructor; cbn; lia. Qed.
Lemma serviceEvents_stops_witness :
  let a := mkSpec [((5, 0), 1)] 0 ∅ in
  exists s r, run_ops demo_script [Some (Schedule 1 5)] (create demo_heap) = Ok (tt, s) /\
    served demo_objs demo_prio demo_script 40 a r /\ agrees demo_objs demo_prio (serviceEvents (process demo_script) 500 40 s) r.
Proof.
  intros a. destruct (ops_refines demo_objs demo_prio demo_script [Some (Schedule 1 5)] (create demo_heap) (mkSpec [] 0 ∅)
    (create_refines _ _ _ (proj1 demo_fresh) (proj2 demo_fresh))) as ([] & s & E & H).
  destruct (serviceEvents_stops demo_objs demo_prio demo_script s a 40 500 H ltac:(done) demo_later ltac:(vm_compute; done)) as (r & Hr & Ha & _).
  exists s, r. split_and!; done.
Defined.

(** [debugVerify] accepts a queue in order, but for one whose first event is at tick 0 with
    a negative priority: its scan starts at tick 0 and priority 0. *)
Theorem debugVerify_result s l : queue s l ->
  debugVerify s = Ok (match l with (k, _) :: _ => negb (klt k (0, 0)) | [] => true end, s).
Proof. intros H. destruct (wp_inv _ _ _ (debugVerify_wp s l H)) as (r & s' & -> & -> & ->). done. Qed.
Lemma debugVerify_result_witness :
  exists s, run_ops demo_script [Some (Schedule 2 0); Some (Schedule 1 0)] (create demo_heap) = Ok (tt, s) /\
    debugVerify s = Ok (false, s).
Proof.
  destruct (ops_refines demo_objs demo_prio demo_script [Some (Schedule 2 0); Some (Schedule 1 0)] (create demo_heap) (mkSpec [] 0 ∅)
    (create_refines _ _ _ (proj1 demo_fresh) (proj2 demo_fresh))) as ([] & s & E & H).
  exists s. split; [done|]. by rewrite (debugVerify_result s _ (rf_queue _ _ _ _ H)).
Defined.
End QueueSpec.
