(* ===== verification/Dram.v ===== *)
(** The DRAM interface ([mem/mem_interface.cc], [mem/mem_interface.hh]): the
    configuration, the banks and ranks, address decoding, and the timing of
    activates, precharges and bursts. *)
From S2P Require Import Prelude CmdBus Packet.

Module DRAMInterface.

(** ** Configuration: the const members of [MemInterface] and [DRAMInterface] *)

Inductive AddrMap := RoRaBaChCo | RoRaBaCoCh | RoCoRaBaCh.
Inductive PageManage := open_ | open_adaptive | close_ | close_adaptive.
#[global] Instance PageManage_eq_dec : EqDecision PageManage.
Proof. solve_decision. Defined.

Record Config := mkConfig {
  addrMapping : AddrMap; pageMgmt : PageManage;
  burstSize : Z; rowBufferSize : Z; burstsPerRowBuffer : Z; burstsPerStripe : Z;
  ranksPerChannel : Z; banksPerRank : Z; rowsPerBank : Z; bankGroupsPerRank : Z;
  maxCommandsPerWindow : Z; activationLimit : Z; maxAccessesPerRow : Z;
  tCK : Z; tCS : Z; tBURST : Z; tRTW : Z; tWTR : Z;
  tCL : Z; tBURST_MIN : Z; tBURST_MAX : Z; tCCD_L_WR : Z; tCCD_L : Z; tRCD : Z;
  tRP : Z; tRAS : Z; tWR : Z; tRTP : Z; tRFC : Z; tREFI : Z; tRRD : Z; tRRD_L : Z;
  tPPD : Z; tAAD : Z; tXAW : Z; tXP : Z; tXS : Z;
  clkResyncDelay : Z; wrToRdDlySameBG : Z; rdToWrDlySameBG : Z;
  dataClockSync : bool; twoCycleActivate : bool; enableDRAMPowerdown : bool;
  timeStampOffset : Z }.

Definition bankGroupArch (c : Config) : bool := 0 <? bankGroupsPerRank c.
Definition burstInterleave (c : Config) : bool := negb (tBURST c =? tBURST_MIN c).
Definition writeToReadDelay (c : Config) : Z := u64 (tBURST c + tWTR c + tCL c).
Definition readToWriteDelay (c : Config) : Z := u64 (tBURST c + tRTW c).
Definition rankToRankDelay (c : Config) : Z := u64 (tBURST c + tCS c).
Definition minReadToWriteDataGap (c : Config) : Z := Z.min (tRTW c) (tCS c).
Definition minWriteToReadDataGap (c : Config) : Z := Z.min (tWTR c) (tCS c).
Definition commandOffset (c : Config) : Z := u64 (tRP c + tRCD c).
Definition accessLatency (c : Config) : Z := u64 (tRP c + tRCD c + tCL c).

(** ** Banks and ranks *)

Definition NO_ROW : Z := 2 ^ 32 - 1.

Record Bank := mkBank {
  openRow : Z; bank_no : Z; bankgr : Z;
  rdAllowedAt : Z; wrAllowedAt : Z; preAllowedAt : Z; actAllowedAt : Z;
  rowAccesses : Z; bytesAccessed : Z }.
#[global] Instance eta_Bank : Settable Bank := fun r =>
  mkBank (openRow r) (bank_no r) (bankgr r) (rdAllowedAt r) (wrAllowedAt r) (preAllowedAt r)
    (actAllowedAt r) (rowAccesses r) (bytesAccessed r).

Inductive PowerState := PWR_IDLE | PWR_REF | PWR_SREF | PWR_PRE_PDN | PWR_ACT | PWR_ACT_PDN.
#[global] Instance PowerState_eq_dec : EqDecision PowerState.
Proof. solve_decision. Defined.
Inductive RefreshState :=
  REF_IDLE | REF_DRAIN | REF_PD_EXIT | REF_SREF_EXIT | REF_PRE | REF_START | REF_RUN.
#[global] Instance RefreshState_eq_dec : EqDecision RefreshState.
Proof. solve_decision. Defined.

Inductive cmds := ACT | PRE | PREA | RD | WR | REF | PDN_F_ACT | PDN_F_PRE | SREN
  | PUP_ACT | PUP_PRE | SREX.
Record Command := mkCommand { type : cmds; cmd_bank : Z; timeStamp : Z }.

(** [power] is the list of the commands handed to the DRAMPower library, with
    their cycle. *)
Record Rank := mkRank {
  pwrStateTrans : PowerState; pwrStatePostRefresh : PowerState; pwrStateTick : Z;
  refreshDueAt : Z; pwrState : PowerState; refreshState : RefreshState;
  inLowPowerState : bool; rank_no : Z; readEntries : Z; writeEntries : Z;
  outstandingEvents : Z; wakeUpAllowedAt : Z; power : list Command; cmdList : list Command;
  banks : list Bank; numBanksActive : Z; actTicks : list Z; lastBurstTick : Z;
  writeDoneEvent : event; activateEvent : event; prechargeEvent : event;
  refreshEvent : event; powerEvent : event; wakeUpEvent : event;
  pwrStateTime : list Z; totalIdleTime : Z }.
#[global] Instance eta_Rank : Settable Rank := fun r =>
  mkRank (pwrStateTrans r) (pwrStatePostRefresh r) (pwrStateTick r) (refreshDueAt r) (pwrState r)
    (refreshState r) (inLowPowerState r) (rank_no r) (readEntries r) (writeEntries r)
    (outstandingEvents r) (wakeUpAllowedAt r) (power r) (cmdList r) (banks r) (numBanksActive r)
    (actTicks r) (lastBurstTick r) (writeDoneEvent r) (activateEvent r) (prechargeEvent r)
    (refreshEvent r) (powerEvent r) (wakeUpEvent r) (pwrStateTime r) (totalIdleTime r).

Definition inRefIdleState (r : Rank) : bool := bool_decide (refreshState r = REF_IDLE).
Definition inPwrIdleState (r : Rank) : bool := bool_decide (pwrState r = PWR_IDLE).

(** The [Rank] constructor. *)
Definition new_Bank (c : Config) (b : Z) : Bank :=
  mkBank NO_ROW b (if 0 <? bankGroupsPerRank c then b mod bankGroupsPerRank c else b) 0 0 0 0 0 0.
Definition new_Rank (c : Config) (n : Z) : Rank :=
  mkRank PWR_IDLE PWR_IDLE 0 0 PWR_IDLE REF_IDLE false n 0 0 0 0 [] []
    (new_Bank c <$> seqZ 0 (banksPerRank c)) 0 (calloc (activationLimit c) 0) 0
    None None None None None None (calloc 6 0) 0.

Record Stats := mkStats {
  readBursts : Z; writeBursts : Z; readRowHits : Z; writeRowHits : Z;
  bytesRead : Z; bytesWritten : Z; perBankRdBursts : list Z; perBankWrBursts : list Z;
  totQLat : Z; totBusLat : Z; totMemAccLat : Z; bytesPerActivate : list Z }.
#[global] Instance eta_Stats : Settable Stats := fun r =>
  mkStats (readBursts r) (writeBursts r) (readRowHits r) (writeRowHits r) (bytesRead r) (bytesWritten r)
    (perBankRdBursts r) (perBankWrBursts r) (totQLat r) (totBusLat r) (totMemAccLat r) (bytesPerActivate r).

(** The members of the interface that change; [bus] is the command bus of the
    controller, which the interface reaches through [ctrl]. *)
Record t := mkDRAM { ranks : list Rank; activeRank : Z; stats : Stats; bus : CmdBus.t }.
#[global] Instance eta_t : Settable t := fun r => mkDRAM (ranks r) (activeRank r) (stats r) (bus r).

(** What the interface asks of the controller. *)
Record CtrlView := mkView {
  inReadBusState : bool -> bool;
  inWriteBusState : bool -> bool;
  ctrl_draining : bool;
  ctrl_drained : bool;
  requestEventScheduled : bool;
  respondEventScheduled : bool }.

(** ** Address decoding *)

Definition decode_row_bank_col (c : Config) (a : Z) : result (Z * Z * Z) :=
  a ← udiv a (burstSize c);
  a ← match addrMapping c with
      | RoRaBaChCo | RoRaBaCoCh => udiv a (burstsPerRowBuffer c)
      | RoCoRaBaCh => if burstsPerRowBuffer c <? burstsPerStripe c
                      then udiv a (burstsPerRowBuffer c) else udiv a (burstsPerStripe c)
      end;
  bk ← umod a (banksPerRank c);
  a ← udiv a (banksPerRank c);
  rk ← umod a (ranksPerChannel c);
  a ← udiv a (ranksPerChannel c);
  a ← match addrMapping c with
      | RoCoRaBaCh => if burstsPerStripe c <? burstsPerRowBuffer c
                      then udiv (burstsPerRowBuffer c) (burstsPerStripe c) ≫= udiv a else Ok a
      | _ => Ok a
      end;
  rw ← umod a (rowsPerBank c);
  Ok (u8 rk, u8 bk, rw).

(** [getOffset] is [range.getOffset] of the address range of the interface. *)
Definition decodePacket (c : Config) (getOffset : Z -> Z) (mem : Alloc) (now : Z) (p : Packet)
    (pkt_addr size : Z) (is_read is_dram : bool) : result MemPacket :=
  '(rk, bk, rw) ← decode_row_bank_col c (getOffset pkt_addr);
  if (rk <? ranksPerChannel c) && (bk <? banksPerRank c) && (rw <? rowsPerBank c) && (rw <? NO_ROW)
  then Ok (new_MemPacket mem now p is_read is_dram rk bk (u32 rw)
             ((banksPerRank c * rk + bk) mod 2 ^ 16) pkt_addr size)
  else Fault AssertFail.

(** ** Operations on one rank *)

(** A rank and the command bus; [now] is [curTick()]. *)
Record rb := mkRB { rk : Rank; cmd_bus : CmdBus.t }.
#[global] Instance eta_rb : Settable rb := fun r => mkRB (rk r) (cmd_bus r).

Section Rank_operations.
Context (c : Config) (now : Z).

Definition on_rank (g : Rank -> Rank) : comp rb unit := modify (fun s => s <| rk ::= g |>).
Definition on_bus {A} (m : comp CmdBus.t A) : comp rb A :=
  zoom cmd_bus (fun b s => s <| cmd_bus := b |>) m.
Definition get_bank (b : Z) : comp rb Bank := s ← get; lift (aread (banks (rk s)) b).
Definition set_bank (b : Z) (v : Bank) : comp rb unit :=
  s ← get; l ← lift (awrite (banks (rk s)) b v); on_rank (fun r => r <| banks := l |>).
(** [for (int i = 0; i < banksPerRank; i++) banks[i] = ...]: every bank of the rank. *)
Definition all_banks (g : Bank -> Bank) : comp rb unit := on_rank (fun r => r <| banks ::= fmap g |>).
Definition push_cmd (ty : cmds) (b at_ : Z) : comp rb unit :=
  on_rank (fun r => r <| cmdList ::= fun l => l ++ [mkCommand ty b at_] |>).
Definition on_event (get_ev : Rank -> event) (put : event -> Rank -> Rank)
    (g : event -> result event) : comp rb unit :=
  s ← get; e ← lift (g (get_ev (rk s))); on_rank (put e).
Definition on_activateEvent := on_event activateEvent (fun e r => r <| activateEvent := e |>).
Definition on_prechargeEvent := on_event prechargeEvent (fun e r => r <| prechargeEvent := e |>).

Definition verifyCmd (multi : bool) (tick split : Z) : comp rb Z :=
  on_bus (if multi then CmdBus.verifyMultiCmd tick (maxCommandsPerWindow c) split
          else CmdBus.verifySingleCmd tick (maxCommandsPerWindow c)).

(** The tRRD constraint of an activate of a bank of group [gr] on a bank. *)
Definition enforce_tRRD (gr act_at : Z) (b : Bank) : Bank :=
  if bankGroupArch c && (gr =? bankgr b)
  then b <| actAllowedAt ::= Z.max (tadd act_at (tRRD_L c)) |>
  else b <| actAllowedAt ::= Z.max (tadd act_at (tRRD c)) |>.

(** The activation window: [actTicks.back()] is the oldest of the last
    [activationLimit] activates. *)
Definition back (l : list Z) : Z := last l 0.
Definition enforce_tXAW (act_at : Z) : comp rb unit :=
  s ← get;
  let ticks := actTicks (rk s) in
  match ticks with
  | [] => mret tt
  | _ =>
      (if negb (back ticks =? 0) && (tsub act_at (back ticks) <? tXAW c)
       then lift (Fault Panic) else mret tt);;
      let ticks' := act_at :: removelast ticks in
      on_rank (fun r => r <| actTicks := ticks' |>);;
      when_ (negb (back ticks' =? 0) && (tsub act_at (back ticks') <? tXAW c))
        (all_banks (fun b => b <| actAllowedAt ::= Z.max (tadd (back ticks') (tXAW c)) |>))
  end.

Definition activateBank (b act_tick rw : Z) : comp rb unit :=
  s ← get;
  assert_ (zlen (actTicks (rk s)) =? activationLimit c);;
  act_at ← verifyCmd (twoCycleActivate c) act_tick (tAAD c);
  bk ← get_bank b;
  assert_ (openRow bk =? NO_ROW);;
  set_bank b (bk <| openRow := rw |> <| bytesAccessed := 0 |> <| rowAccesses := 0 |>);;
  on_rank (fun r => r <| numBanksActive ::= fun n => u32 (n + 1) |>);;
  s ← get;
  assert_ (numBanksActive (rk s) <=? banksPerRank c);;
  push_cmd ACT (bank_no bk) act_at;;
  bk ← get_bank b;
  set_bank b (bk <| preAllowedAt := tadd act_at (tRAS c) |>
                 <| rdAllowedAt ::= Z.max (tadd act_at (tRCD c)) |>
                 <| wrAllowedAt ::= Z.max (tadd act_at (tRCD c)) |>);;
  all_banks (enforce_tRRD (bankgr bk) act_at);;
  enforce_tXAW act_at;;
  on_activateEvent (fun e => match e with
    | None => schedule now e act_at
    | Some w => if act_at <? w then reschedule now e act_at else Ok e
    end).

(** The result is the bytes accessed while the row was open, which the statistics
    sample. *)
Definition prechargeBank (b pre_tick : Z) (auto_or_preall trace : bool) : comp rb Z :=
  bk ← get_bank b;
  assert_ (negb (openRow bk =? NO_ROW));;
  let sample := bytesAccessed bk in
  set_bank b (bk <| openRow := NO_ROW |>);;
  pre_at ← (if auto_or_preall then
              bk ← get_bank b; set_bank b (bk <| preAllowedAt := pre_tick |>);; mret pre_tick
            else
              pre_at ← verifyCmd false pre_tick 0;
              all_banks (fun x => x <| preAllowedAt ::= Z.max (tadd pre_at (tPPD c)) |>);;
              mret pre_at);
  let pre_done_at := tadd pre_at (tRP c) in
  bk ← get_bank b;
  set_bank b (bk <| actAllowedAt ::= fun x => Z.max x pre_done_at |>);;
  s ← get;
  assert_ (negb (numBanksActive (rk s) =? 0));;
  on_rank (fun r => r <| numBanksActive ::= fun n => n - 1 |>);;
  when_ trace (push_cmd PRE (bank_no bk) pre_at);;
  s ← get;
  (match prechargeEvent (rk s) with
   | None => on_prechargeEvent (fun e => schedule now e pre_done_at);;
             on_rank (fun r => r <| outstandingEvents ::= fun n => u8 (n + 1) |>)
   | Some w => when_ (w <? pre_done_at) (on_prechargeEvent (fun e => reschedule now e pre_done_at))
   end);;
  mret sample.

(** Waking up from power-down. *)
Definition push_exit (exit_at : Z) (b : Bank) : Bank :=
  b <| wrAllowedAt ::= Z.max exit_at |> <| rdAllowedAt ::= Z.max exit_at |>
    <| preAllowedAt ::= Z.max exit_at |> <| actAllowedAt ::= Z.max exit_at |>.
Definition scheduleWakeUpEvent (exit_delay : Z) : comp rb unit :=
  s ← get;
  let wake_up_tick := Z.max now (wakeUpAllowedAt (rk s)) in
  on_rank (fun r => if decide (refreshState r = REF_PD_EXIT)
                    then r <| pwrStatePostRefresh := pwrState r |>
                    else r <| pwrStatePostRefresh := PWR_IDLE |>);;
  on_event wakeUpEvent (fun e r => r <| wakeUpEvent := e |>) (fun e => schedule now e wake_up_tick);;
  all_banks (push_exit (tadd wake_up_tick exit_delay));;
  on_rank (fun r => r <| inLowPowerState := false |>);;
  match pwrStateTrans (rk s) with
  | PWR_ACT_PDN => push_cmd PUP_ACT 0 wake_up_tick
  | PWR_PRE_PDN => push_cmd PUP_PRE 0 wake_up_tick
  | PWR_SREF => push_cmd SREX 0 wake_up_tick
  | _ => mret tt
  end.
End Rank_operations.

(** ** The burst *)

Section Interface_operations.
Context (c : Config) (now : Z).

Definition on_rb {A} (j : Z) (m : comp rb A) : comp t A := fun s =>
  match aread (ranks s) j with
  | Fault f => Fault f
  | Ok r => match m (mkRB r (bus s)) with
            | Fault f => Fault f
            | Ok (a, s') => Ok (a, s <| ranks ::= <[j := rk s']> |> <| bus := cmd_bus s' |>)
            end
  end.

(** Open the row of the packet: whether it was open, and what the statistics
    sample of a page closed for it. *)
Definition open_page (p : MemPacket) : comp rb (bool * list Z) :=
  bk ← get_bank (bank p);
  if openRow bk =? row p then mret (true, [])
  else
    samples ← (if openRow bk =? NO_ROW then mret []
               else x ← prechargeBank c now (bank p) (Z.max (preAllowedAt bk) now) false true;
                    mret [x]);
    bk ← get_bank (bank p);
    activateBank c now (bank p) (Z.max (actAllowedAt bk) now) (row p);;
    mret (false, samples).

(** When the column command may go out, before the command bus is asked. *)
Definition column_at (p : MemPacket) (bk : Bank) (next_burst_at : Z) : Z :=
  let col_allowed_at := if isRead p then rdAllowedAt bk else wrAllowedAt bk in
  if rh_injectDelay p && (rh_bubbleSize p =? 90000)
  then Z.max (Z.max col_allowed_at (u64 (next_burst_at - tCL c - tBURST c))) now
  else Z.max (Z.max col_allowed_at next_burst_at) now.

(** The tick of the column command and the gap to the next one. *)
Definition issue_column (p : MemPacket) (next_burst_at : Z) : comp rb (Z * Z) :=
  bk ← get_bank (bank p);
  let cmd_at := column_at p bk next_burst_at in
  s ← get;
  let lastBurst := lastBurstTick (rk s) in
  cmd_at ← verifyCmd c (dataClockSync c && (clkResyncDelay c <? tsub cmd_at lastBurst)) cmd_at (tCK c);
  let '(cmd_at, burst_gap) :=
    if burstInterleave c then
      if cmd_at =? tadd lastBurst (tBURST_MIN c) then (cmd_at, tBURST c)
      else if cmd_at <? tadd lastBurst (tBURST c) then (tadd lastBurst (tBURST c), tBURST_MIN c)
      else (cmd_at, tBURST_MIN c)
    else (cmd_at, tBURST_MIN c) in
  on_rank (fun r => r <| lastBurstTick := cmd_at |>);;
  mret (cmd_at, burst_gap).

(** The delays, to the next read and the next write, that a burst of [p] imposes
    on a bank. *)
Definition burst_delays (p : MemPacket) (gr burst_gap : Z) (same_rank : bool) (b : Bank) : Z * Z :=
  if same_rank then
    if bankGroupArch c && (gr =? bankgr b) then
      (if isRead p then tCCD_L c else Z.max (tCCD_L c) (wrToRdDlySameBG c),
       if isRead p then Z.max (tCCD_L c) (rdToWrDlySameBG c) else tCCD_L_WR c)
    else
      (if isRead p then burst_gap else writeToReadDelay c,
       if isRead p then readToWriteDelay c else burst_gap)
  else (rankToRankDelay c, rankToRankDelay c).
Definition delay_bank (p : MemPacket) (gr burst_gap cmd_at : Z) (same_rank : bool) (b : Bank) : Bank :=
  let '(dly_to_rd_cmd, dly_to_wr_cmd) := burst_delays p gr burst_gap same_rank b in
  b <| rdAllowedAt ::= Z.max (tadd cmd_at dly_to_rd_cmd) |>
    <| wrAllowedAt ::= Z.max (tadd cmd_at dly_to_wr_cmd) |>.
Definition delay_ranks (p : MemPacket) (gr burst_gap cmd_at : Z) (l : list Rank) : list Rank :=
  imap (fun j r => r <| banks ::= fmap (delay_bank p gr burst_gap cmd_at (rank p =? Z.of_nat j)) |>) l.

(** The look-ahead of the adaptive page policies: is there a hit on the row, or a
    conflict on the bank, in the queues? *)
Fixpoint scan_queue (p : MemPacket) (q : list MemPacket) (hits conflict : bool) : bool * bool :=
  match q with
  | [] => (hits, conflict)
  | x :: q' =>
      if hits then (hits, conflict)
      else if ptr p =? ptr x then scan_queue p q' hits conflict
      else
        let same_rank_bank := (rank p =? rank x) && (bank p =? bank x) in
        let same_row := row p =? row x in
        scan_queue p q' (hits || same_rank_bank && same_row) (conflict || same_rank_bank && negb same_row)
  end.
Fixpoint scan_queues (p : MemPacket) (qs : list (list MemPacket)) (conflict : bool) : bool * bool :=
  match qs with
  | [] => (false, conflict)
  | q :: qs' =>
      let '(hits, conflict) := scan_queue p q false conflict in
      if hits then (true, conflict) else scan_queues p qs' conflict
  end.
Definition auto_precharge (p : MemPacket) (bk : Bank) (queue : list (list MemPacket)) : bool :=
  bool_decide (pageMgmt c = close_) || (rowAccesses bk =? maxAccessesPerRow c) ||
  (if bool_decide (pageMgmt c = open_adaptive) || bool_decide (pageMgmt c = close_adaptive) then
     let '(got_more_hits, got_bank_conflict) := scan_queues p queue false in
     negb got_more_hits && (got_bank_conflict || bool_decide (pageMgmt c = close_adaptive))
   else false).

(** What the burst does to its own bank, and the precharge that may follow it. *)
Definition close_page (p : MemPacket) (cmd_at : Z) (queue : list (list MemPacket)) : comp rb (list Z) :=
  bk ← get_bank (bank p);
  let bk' := bk <| preAllowedAt ::= fun x => Z.max x (if isRead p then tadd cmd_at (tRTP c)
                                                      else tadd (readyTime p) (tWR c)) |>
                <| bytesAccessed ::= fun n => u32 (n + burstSize c) |>
                <| rowAccesses ::= fun n => u32 (n + 1) |> in
  set_bank (bank p) bk';;
  push_cmd (if isRead p then RD else WR) (bank p) cmd_at;;
  if auto_precharge p bk' queue
  then x ← prechargeBank c now (bank p) (Z.max now (preAllowedAt bk')) true true; mret [x]
  else mret [].

(** The outstanding events of the rank: a read is counted until its response, the
    latest write until its data are transferred. *)
Definition track_burst (p : MemPacket) : comp rb unit :=
  if isRead p then on_rank (fun r => r <| outstandingEvents ::= fun n => u8 (n + 1) |>)
  else
    s ← get;
    (match writeDoneEvent (rk s) with
     | None =>
         on_event writeDoneEvent (fun e r => r <| writeDoneEvent := e |>)
           (fun e => schedule now e (readyTime p));;
         on_rank (fun r => r <| outstandingEvents ::= fun n => u8 (n + 1) |>)
     | Some w => when_ (w <? readyTime p)
         (on_event writeDoneEvent (fun e r => r <| writeDoneEvent := e |>)
            (fun e => reschedule now e (readyTime p)))
     end);;
    on_rank (fun r => r <| writeEntries ::= fun n => u32 (n - 1) |>).

Definition bump_bank (l : list Z) (i : Z) : result (list Z) := x ← aread l i; awrite l i (x + 1).
Definition count_burst (p : MemPacket) (row_hit : bool) (cmd_at : Z) (samples : list Z) (st : Stats)
    : result Stats :=
  let st := st <| bytesPerActivate ::= fun l => l ++ samples |> in
  if isRead p then
    pb ← bump_bank (perBankRdBursts st) (bankId p);
    Ok (st <| readBursts ::= Z.succ |> <| readRowHits ::= Z.add (Z.b2z row_hit) |>
           <| bytesRead ::= Z.add (burstSize c) |> <| perBankRdBursts := pb |>
           <| totMemAccLat ::= Z.add (tsub (readyTime p) (entryTime p)) |>
           <| totQLat ::= Z.add (tsub cmd_at (entryTime p)) |> <| totBusLat ::= Z.add (tBURST c) |>)
  else
    pb ← bump_bank (perBankWrBursts st) (bankId p);
    Ok (st <| writeBursts ::= Z.succ |> <| writeRowHits ::= Z.add (Z.b2z row_hit) |>
           <| bytesWritten ::= Z.add (burstSize c) |> <| perBankWrBursts := pb |>).

(** A rank ready for the burst, awake or woken up for it. *)
Definition prepare_rank : comp rb unit :=
  s ← get;
  assert_ (inRefIdleState (rk s));;
  when_ (inLowPowerState (rk s)) (
    assert_ (negb (bool_decide (pwrState (rk s) = PWR_SREF)));;
    scheduleWakeUpEvent now (tXP c)).

(** The last steps of a burst: the page, the events and the counters. *)
Definition finish_burst (p : MemPacket) (cmd_at : Z) (queue : list (list MemPacket)) (row_hit : bool)
    (samples : list Z) : comp t unit :=
  samples' ← on_rb (rank p) (close_page p cmd_at queue);
  on_rb (rank p) (track_burst p);;
  s ← get;
  st ← lift (count_burst p row_hit cmd_at (samples ++ samples') (stats s));
  modify (fun s => s <| stats := st |>).

(** The burst of [mem_pkt]: the packet with its ready time, the tick of the
    command and the tick from which the next burst may go out. *)
Definition doBurstAccess (mem_pkt : MemPacket) (next_burst_at : Z) (queue : list (list MemPacket))
    : comp t (MemPacket * (Z * Z)) :=
  on_rb (rank mem_pkt) prepare_rank;;
  '(row_hit, samples) ← on_rb (rank mem_pkt) (open_page mem_pkt);
  '(cmd_at, burst_gap) ← on_rb (rank mem_pkt) (issue_column mem_pkt next_burst_at);
  let mem_pkt := mem_pkt <| readyTime := tadd (tadd cmd_at (tCL c)) (tBURST c) |> in
  bk ← on_rb (rank mem_pkt) (get_bank (bank mem_pkt));
  modify (fun s => s <| ranks ::= delay_ranks mem_pkt (bankgr bk) burst_gap cmd_at |>
                     <| activeRank := rank mem_pkt |>);;
  finish_burst mem_pkt cmd_at queue row_hit samples;;
  mret (mem_pkt, (cmd_at, tadd cmd_at burst_gap)).

Definition addRankToRankDelay (cmd_at : Z) : comp t unit :=
  modify (fun s => s <| ranks ::= fmap (fun r => r <| banks ::= fmap (fun b =>
    b <| rdAllowedAt ::= Z.max (tadd cmd_at (rankToRankDelay c)) |>
      <| wrAllowedAt ::= Z.max (tadd cmd_at (rankToRankDelay c)) |>) |>) |>).

Definition setupRank (rk_no : Z) (is_read : bool) : comp t unit :=
  on_rb rk_no (on_rank (fun r => if is_read then r <| readEntries ::= fun n => u32 (n + 1) |>
                                 else r <| writeEntries ::= fun n => u32 (n + 1) |>)).
End Interface_operations.

(** ** Scheduling: first-ready, first-come first-served *)

Section Scheduling.
Context (c : Config) (now : Z) (v : CtrlView) (rs : list Rank).

Definition get_rank (j : Z) : result Rank := aread rs j.
Definition bank_of (p : MemPacket) : result Bank :=
  r ← get_rank (rank p); aread (banks r) (bank p).
Definition burstReady (p : MemPacket) : result bool := r ← get_rank (rank p); Ok (inRefIdleState r).

(** [got_waiting]: the identifiers of the banks with a packet in the queue, in a
    rank that is not refreshing. *)
Fixpoint waiting_banks (q : list MemPacket) : result (list Z) :=
  match q with
  | [] => Ok []
  | p :: q' =>
      l ← waiting_banks q';
      if isDram p then b ← burstReady p; Ok (if b : bool then bankId p :: l else l) else Ok l
  end.

(** The variables of the loop over the banks. *)
Record Prep := mkPrep { bank_mask : list Z; min_act_at : Z; found_seamless_bank : bool; hidden_bank_prep : bool }.
Definition prep0 : Prep := mkPrep (calloc (ranksPerChannel c) 0) MaxTick false false.

(** When the bank can be activated, and when its burst can issue. *)
Definition act_at_of (b : Bank) : Z :=
  if openRow b =? NO_ROW then Z.max (actAllowedAt b) now
  else tadd (Z.max (preAllowedAt b) now) (tRP c).
Definition col_at_of (b : Bank) : Z :=
  Z.max (if inReadBusState v false then rdAllowedAt b else wrAllowedAt b) (tadd (act_at_of b) (tRCD c)).

Definition set_bank_bit (l : list Z) (i j : Z) : result (list Z) :=
  m ← aread l i; awrite l i (u32 (Z.setbit m j)).

Definition prep_bank (waiting : list Z) (min_col_at hidden_act_max i j : Z) (r : Rank) (b : Bank) (st : Prep)
    : result Prep :=
  if bool_decide ((i * banksPerRank c + j) mod 2 ^ 16 ∈ waiting) then
    if negb (inRefIdleState r) then Fault AssertFail else
    let act_at := act_at_of b in
    let new_seamless_bank := col_at_of b <=? min_col_at in
    if new_seamless_bank || (negb (found_seamless_bank st) && (act_at <=? min_act_at st)) then
      let mask := if negb (found_seamless_bank st) && (new_seamless_bank || (act_at <? min_act_at st))
                  then (fun _ : Z => 0) <$> bank_mask st else bank_mask st in
      mask ← set_bank_bit mask i j;
      Ok (mkPrep mask act_at (found_seamless_bank st || new_seamless_bank) (act_at <=? hidden_act_max))
    else Ok st
  else Ok st.

Fixpoint prep_banks (waiting : list Z) (min_col_at hidden_act_max i j : Z) (r : Rank) (l : list Bank) (st : Prep)
    : result Prep :=
  match l with
  | [] => Ok st
  | b :: l' => st ← prep_bank waiting min_col_at hidden_act_max i j r b st;
               prep_banks waiting min_col_at hidden_act_max i (j + 1) r l' st
  end.
Fixpoint prep_ranks (waiting : list Z) (min_col_at hidden_act_max i : Z) (l : list Rank) (st : Prep)
    : result Prep :=
  match l with
  | [] => Ok st
  | r :: l' => st ← prep_banks waiting min_col_at hidden_act_max i 0 r (banks r) st;
               prep_ranks waiting min_col_at hidden_act_max (i + 1) l' st
  end.
Definition minBankPrep (queue : list MemPacket) (min_col_at : Z) : result (list Z * bool) :=
  let hidden_act_max := Z.max (tsub min_col_at (tRCD c)) now in
  waiting ← waiting_banks queue;
  st ← prep_ranks waiting min_col_at hidden_act_max 0 rs prep0;
  Ok (bank_mask st, hidden_bank_prep st).

(** The variables of the loop over the queue. *)
Record Choice := mkChoice {
  earliest_banks : option (list Z * bool);
  found_hidden_bank : bool; found_prepped_pkt : bool; found_earliest_pkt : bool;
  selected_pkt : option Z; selected_col_at : Z }.
#[global] Instance eta_Choice : Settable Choice := fun r =>
  mkChoice (earliest_banks r) (found_hidden_bank r) (found_prepped_pkt r) (found_earliest_pkt r)
    (selected_pkt r) (selected_col_at r).
Definition choice0 : Choice := mkChoice None false false false None MaxTick.
Definition select (i col : Z) (st : Choice) : Choice := st <| selected_pkt := Some i |> <| selected_col_at := col |>.

(** One packet of the queue: the new variables, and whether the loop stops. *)
Definition consider (queue : list MemPacket) (min_col_at : Z) (i : Z) (p : MemPacket) (st : Choice)
    : result (Choice * bool) :=
  if negb (isDram p) then Ok (st, false) else
  b ← bank_of p;
  let col_allowed_at := if isRead p then rdAllowedAt b else wrAllowedAt b in
  ready ← burstReady p;
  if negb ready then Ok (st, false) else
  if openRow b =? row p then
    if col_allowed_at <=? min_col_at then Ok (select i col_allowed_at st, true)
    else if negb (found_hidden_bank st) && negb (found_prepped_pkt st)
    then Ok (select i col_allowed_at st <| found_prepped_pkt := true |>, false)
    else Ok (st, false)
  else if found_earliest_pkt st then Ok (st, false)
  else
    '(masks, hidden) ← match earliest_banks st with
                       | Some e => Ok e
                       | None => minBankPrep queue min_col_at
                       end;
    let st := st <| earliest_banks := Some (masks, hidden) |> in
    mask ← aread masks (rank p);
    if Z.testbit mask (bank p) then
      let st := st <| found_earliest_pkt := true |> <| found_hidden_bank := hidden |> in
      Ok (if hidden || negb (found_prepped_pkt st) then select i col_allowed_at st else st, false)
    else Ok (st, false).

Fixpoint choose_loop (queue : list MemPacket) (min_col_at : Z) (i : Z) (q : list MemPacket) (st : Choice)
    : result Choice :=
  match q with
  | [] => Ok st
  | p :: q' =>
      '(st, stop) ← consider queue min_col_at i p st;
      if stop : bool then Ok st else choose_loop queue min_col_at (i + 1) q' st
  end.
(** The position of the packet selected ([None] is [queue.end()]) and the tick of
    its column command. *)
Definition chooseNextFRFCFS (queue : list MemPacket) (min_col_at : Z) : result (option Z * Z) :=
  st ← choose_loop queue min_col_at 0 queue choice0;
  Ok (selected_pkt st, selected_col_at st).
End Scheduling.

(** ** Construction *)

#[global] Instance eta_Config : Settable Config := fun c =>
  mkConfig (addrMapping c) (pageMgmt c) (burstSize c) (rowBufferSize c) (burstsPerRowBuffer c) (burstsPerStripe c)
    (ranksPerChannel c) (banksPerRank c) (rowsPerBank c) (bankGroupsPerRank c) (maxCommandsPerWindow c)
    (activationLimit c) (maxAccessesPerRow c) (tCK c) (tCS c) (tBURST c) (tRTW c) (tWTR c) (tCL c)
    (tBURST_MIN c) (tBURST_MAX c) (tCCD_L_WR c) (tCCD_L c) (tRCD c) (tRP c) (tRAS c) (tWR c) (tRTP c) (tRFC c)
    (tREFI c) (tRRD c) (tRRD_L c) (tPPD c) (tAAD c) (tXAW c) (tXP c) (tXS c) (clkResyncDelay c)
    (wrToRdDlySameBG c) (rdToWrDlySameBG c) (dataClockSync c) (twoCycleActivate c) (enableDRAMPowerdown c)
    (timeStampOffset c).

(** The members derived from others, in [MemInterface] and [DRAMInterface]. *)
Definition derive (p : Config) (devices_per_rank burst_length device_bus_width device_rowbuffer_size
    granularity tWTR_L command_window : Z) : result Config :=
  let bs := devices_per_rank * burst_length * device_bus_width / 8 in
  let rbs := u32 (devices_per_rank * device_rowbuffer_size) in
  bprb ← udiv rbs (u32 bs);
  bps ← (if granularity =? 0 then Ok 1 else udiv granularity (u32 bs));
  mcpw ← udiv command_window (tCK p);
  Ok (p <| burstSize := u32 bs |> <| rowBufferSize := rbs |> <| burstsPerRowBuffer := bprb |>
        <| burstsPerStripe := u32 bps |> <| maxCommandsPerWindow := u32 mcpw |>
        <| clkResyncDelay := u64 (tCL p + tBURST_MAX p) |>
        <| wrToRdDlySameBG := u64 (tCL p + tBURST_MAX p + tWTR_L) |>
        <| rdToWrDlySameBG := u64 (tRTW p + tBURST_MAX p) |>).

Definition isPowerOf2 (n : Z) : bool := negb (n =? 0) && (Z.land n (n - 1) =? 0).
Definition stats0 (c : Config) : Stats :=
  let banks := ranksPerChannel c * banksPerRank c in
  mkStats 0 0 0 0 0 0 (calloc banks 0) (calloc banks 0) 0 0 0 [].
Definition fatal_if (b : bool) : result unit := if b then Fault Panic else Ok tt.

(** The constructor: the checks, the ranks and the number of rows; [mem_size] is
    [AbstractMemory::size()]. *)
Definition create (c : Config) (mem_size : Z) (b : CmdBus.t) : result (Config * t) :=
  fatal_if (negb (isPowerOf2 (burstSize c)));;
  fatal_if (negb (isPowerOf2 (ranksPerChannel c)));;
  let capacity := u64 (Z.shiftl 1 (Z.log2_up mem_size)) in
  rows ← udiv capacity (u32 (rowBufferSize c * banksPerRank c * ranksPerChannel c));
  fatal_if ((tREFI c <=? tRP c) || (tREFI c <=? tRFC c));;
  (if bankGroupArch c then
     fatal_if (banksPerRank c <? bankGroupsPerRank c);;
     fatal_if (negb (banksPerRank c mod bankGroupsPerRank c =? 0));;
     fatal_if (tCCD_L c <=? tBURST c);;
     fatal_if (tCCD_L_WR c <=? tBURST c);;
     fatal_if (tRRD_L c <? tRRD c)
   else Ok tt);;
  let c := c <| rowsPerBank := u32 rows |> in
  Ok (c, mkDRAM (new_Rank c <$> seqZ 0 (ranksPerChannel c)) 0 (stats0 c) b).

(** A small interface: two ranks of four banks in two groups. *)
Definition small : Config :=
  mkConfig RoRaBaCoCh open_adaptive 64 1024 16 1 2 4 16 2 2 4 16
    2 2 8 2 4 12 8 8 12 10 14 14 32 15 8 100 2000 6 8 2 2 24 10 120 20 24 10 false false true 0.
Definition small_dram : t := mkDRAM (new_Rank small <$> seqZ 0 2) 0 (stats0 small) (CmdBus.mkBus [] 4).
Definition small_packet (is_read : bool) (rk_no bk_no rw : Z) : MemPacket :=
  mkMemPacket (rk_no * 4 + bk_no) false 0 0 0 0 (mkPacket is_read (negb is_read) true 0 64 0 0 true false false 0 0) 0 is_read true
    rk_no bk_no rw (rk_no * 4 + bk_no) 0 64 None 0.
End DRAMInterface.
