(* ===== verification/Refresh.v ===== *)
(** The refresh and power-down state machines of a rank ([DRAMInterface::Rank] in
    [mem/mem_interface.cc]) and the operations of the interface that drive them.
    An event handler runs after the event queue has taken its event off. *)
From S2P Require Import Prelude CmdBus Packet Dram.
From stdpp Require Import sorting.
Open Scope Z_scope.
Import DRAMInterface.

Module Refresh.

Section Rank_machine.
Context (c : Config) (now : Z) (v : CtrlView).

Definition on_refreshEvent := on_event refreshEvent (fun e r => r <| refreshEvent := e |>).
Definition on_powerEvent := on_event powerEvent (fun e r => r <| powerEvent := e |>).
Definition fire (put : event -> Rank -> Rank) : comp rb unit := on_rank (put None).

Definition isQueueEmpty (r : Rank) : bool :=
  inReadBusState v true && (readEntries r =? 0) || inWriteBusState v true && (writeEntries r =? 0).
Definition forceSelfRefreshExit (r : Rank) : bool :=
  negb (readEntries r =? 0) || inWriteBusState v true && negb (writeEntries r =? 0).

(** [flushCmdList]: the commands up to now go, sorted, to the power library. *)
Definition before (x y : Command) : Prop := timeStamp x <= timeStamp y.
#[global] Instance before_dec : RelDecision before := fun x y => decide (timeStamp x <= timeStamp y).
Fixpoint split_issued (l : list Command) : list Command * list Command :=
  match l with
  | [] => ([], [])
  | x :: l' => if timeStamp x <=? now then let '(a, b) := split_issued l' in (x :: a, b) else ([], l)
  end.
Definition in_cycles (x : Command) : result Command :=
  q ← udiv (u64 (timeStamp x + tCK c - 1)) (tCK c);
  Ok (mkCommand (type x) (cmd_bank x) (tsub q (timeStampOffset c))).
Definition flushCmdList : comp rb unit :=
  s ← get;
  let '(issued, later) := split_issued (merge_sort before (cmdList (rk s))) in
  cs ← lift (mapM in_cycles issued);
  on_rank (fun r => r <| cmdList := later |> <| power ::= fun l => l ++ cs |>).
(** The energies [updatePowerStats] reads back from the library are left out. *)
Definition updatePowerStats : comp rb unit := flushCmdList.

Definition schedulePowerEvent (pwr_state : PowerState) (tick : Z) : comp rb unit :=
  assert_ (now <=? tick);;
  s ← get;
  if scheduled (powerEvent (rk s)) then lift (Fault Panic)
  else
    on_rank (fun r => r <| pwrStateTrans := pwr_state |>);;
    on_powerEvent (fun e => schedule now e tick).

Definition powerDownSleep (pwr_state : PowerState) (tick : Z) : comp rb unit :=
  (match pwr_state with
   | PWR_ACT_PDN => schedulePowerEvent pwr_state tick;; push_cmd PDN_F_ACT 0 tick
   | PWR_PRE_PDN => schedulePowerEvent pwr_state tick;; push_cmd PDN_F_PRE 0 tick
   | PWR_REF => schedulePowerEvent PWR_PRE_PDN tick;; push_cmd PDN_F_PRE 0 tick
   | PWR_SREF =>
       s ← get;
       assert_ (bool_decide (pwrStatePostRefresh (rk s) = PWR_PRE_PDN));;
       schedulePowerEvent PWR_SREF tick;; push_cmd SREN 0 tick
   | _ => mret tt
   end);;
  on_rank (fun r => r <| wakeUpAllowedAt := tadd tick (tCK c) |> <| inLowPowerState := true |>).

Definition rank_startup (ref_tick : Z) : comp rb unit :=
  assert_ (now <? ref_tick);;
  on_rank (fun r => r <| pwrStateTick := now |>);;
  on_refreshEvent (fun e => schedule now e ref_tick).

Definition rank_suspend : comp rb unit :=
  on_refreshEvent deschedule;;
  updatePowerStats;;
  on_rank (fun r => r <| pwrStatePostRefresh := PWR_IDLE |>).

Definition checkDrainDone : comp rb unit :=
  s ← get;
  when_ (bool_decide (refreshState (rk s) = REF_DRAIN)) (
    on_rank (fun r => r <| refreshState := REF_PD_EXIT |>);;
    on_refreshEvent (fun e => schedule now e now)).

(** One outstanding event less. *)
Definition drop_outstanding : comp rb unit :=
  s ← get;
  assert_ (0 <? outstandingEvents (rk s));;
  on_rank (fun r => r <| outstandingEvents ::= fun n => n - 1 |>).

Definition processActivateEvent : comp rb unit :=
  fire (fun e r => r <| activateEvent := e |>);;
  s ← get;
  when_ (negb (bool_decide (pwrState (rk s) = PWR_ACT))) (schedulePowerEvent PWR_ACT now).

Definition processPrechargeEvent : comp rb unit :=
  fire (fun e r => r <| prechargeEvent := e |>);;
  drop_outstanding;;
  s ← get;
  let r := rk s in
  when_ (numBanksActive r =? 0) (
    if isQueueEmpty r && (outstandingEvents r =? 0) && enableDRAMPowerdown c then
      assert_ (bool_decide (pwrState r = PWR_ACT));;
      powerDownSleep PWR_PRE_PDN now
    else schedulePowerEvent PWR_IDLE now).

Definition processWriteDoneEvent : comp rb unit :=
  fire (fun e r => r <| writeDoneEvent := e |>);; drop_outstanding.

Definition processWakeUpEvent : comp rb unit :=
  fire (fun e r => r <| wakeUpEvent := e |>);;
  s ← get;
  match pwrState (rk s) with
  | PWR_ACT_PDN => schedulePowerEvent PWR_ACT now
  | PWR_PRE_PDN | PWR_SREF => schedulePowerEvent PWR_IDLE now
  | _ => lift (Fault AssertFail)
  end.

(** ** The refresh event *)

Definition state_is (st : RefreshState) (r : Rank) : bool := bool_decide (refreshState r = st).
Definition goto (st : RefreshState) : comp rb unit := on_rank (fun r => r <| refreshState := st |>).

(** Remember when the refresh is due, and hold off power-down. *)
Definition refresh_due : comp rb unit :=
  on_rank (fun r => r <| refreshDueAt := now |> <| refreshState := REF_DRAIN |>
                      <| outstandingEvents ::= fun n => u8 (n + 1) |>).

(** [REF_PRE]: the banks are closed, or the power state machine is set off. *)
Definition close_bank (pre_at act_allowed_at b : Z) : comp rb unit :=
  bk ← get_bank b;
  if negb (openRow bk =? NO_ROW) then prechargeBank c now b pre_at true false;; mret tt
  else set_bank b (bk <| actAllowedAt ::= fun x => Z.max x act_allowed_at |>
                      <| preAllowedAt ::= fun x => Z.max x pre_at |>).
Definition precharge_all : comp rb unit :=
  s ← get;
  let pre_at := foldl (fun a b => Z.max (preAllowedAt b) a) now (banks (rk s)) in
  let act_allowed_at := tadd pre_at (tRP c) in
  for_ (length (banks (rk s))) 0 (close_bank pre_at act_allowed_at);;
  push_cmd PREA 0 pre_at.
Definition refresh_precharge : comp rb unit :=
  s ← get;
  let r := rk s in
  (if negb (numBanksActive r =? 0) then precharge_all
   else if bool_decide (pwrState r = PWR_IDLE) && (outstandingEvents r =? 1)
   then schedulePowerEvent PWR_REF now
   else assert_ (scheduled (prechargeEvent r) || respondEventScheduled v));;
  s ← get;
  assert_ (numBanksActive (rk s) =? 0).

(** [REF_START]: the refresh command itself. *)
Definition refresh_start : comp rb unit :=
  s ← get;
  assert_ (numBanksActive (rk s) =? 0);;
  assert_ (bool_decide (pwrState (rk s) = PWR_REF));;
  let ref_done_at := tadd now (tRFC c) in
  all_banks (fun b => b <| actAllowedAt := ref_done_at |>);;
  push_cmd REF 0 now;;
  updatePowerStats;;
  on_rank (fun r => r <| refreshDueAt ::= fun t => tadd t (tREFI c) |>);;
  s ← get;
  if refreshDueAt (rk s) <? ref_done_at then lift (Fault Panic)
  else goto REF_RUN;; on_refreshEvent (fun e => schedule now e ref_done_at).

(** [REF_RUN]: the refresh is over. *)
Definition refresh_done : comp rb unit :=
  s ← get;
  let r := rk s in
  assert_ (numBanksActive r =? 0);;
  assert_ (bool_decide (pwrState r = PWR_REF));;
  assert_ (negb (scheduled (powerEvent r)));;
  (if ctrl_draining v || ctrl_drained v then schedulePowerEvent PWR_IDLE now
   else if negb (bool_decide (pwrStatePostRefresh r = PWR_IDLE)) then powerDownSleep (pwrState r) now
   else if isQueueEmpty r && enableDRAMPowerdown c then
     assert_ (outstandingEvents r =? 1);; powerDownSleep PWR_PRE_PDN now
   else schedulePowerEvent PWR_IDLE now);;
  on_refreshEvent (fun e => schedule now e (tsub (refreshDueAt r) (tRP c))).

(** Is the rank asleep?  Then it is woken and the handler returns. *)
Definition refresh_wake : comp rb unit :=
  s ← get;
  if inLowPowerState (rk s) then scheduleWakeUpEvent now (tXP c)
  else goto REF_PRE;; refresh_precharge.

Definition processRefreshEvent (activeRank : Z) : comp rb unit :=
  fire (fun e r => r <| refreshEvent := e |>);;
  s ← get;
  when_ (state_is REF_IDLE (rk s) || state_is REF_SREF_EXIT (rk s)) refresh_due;;
  s ← get;
  let r := rk s in
  match refreshState r with
  | REF_DRAIN =>
      if (rank_no r =? activeRank) && requestEventScheduled v then mret tt
      else goto REF_PD_EXIT;; refresh_wake
  | REF_PD_EXIT => refresh_wake
  | REF_PRE => refresh_precharge
  | REF_START => refresh_start
  | REF_RUN => refresh_done
  | REF_IDLE | REF_SREF_EXIT => mret tt
  end.

(** ** The power event *)

Definition pwr_index (st : PowerState) : Z :=
  match st with
  | PWR_IDLE => 0 | PWR_REF => 1 | PWR_SREF => 2 | PWR_PRE_PDN => 3 | PWR_ACT => 4 | PWR_ACT_PDN => 5
  end.
Definition account (duration : Z) : comp rb unit :=
  s ← get;
  let i := pwr_index (pwrState (rk s)) in
  x ← lift (aread (pwrStateTime (rk s)) i);
  l ← lift (awrite (pwrStateTime (rk s)) i (x + duration));
  on_rank (fun r => r <| pwrStateTime := l |>);;
  match pwrState (rk s) with
  | PWR_PRE_PDN | PWR_ACT_PDN | PWR_SREF => on_rank (fun r => r <| totalIdleTime ::= Z.add duration |>)
  | _ => mret tt
  end.

(** The refresh is complete: is the controller's scheduler restarted? *)
Definition after_refresh : comp rb bool :=
  s ← get;
  assert_ (outstandingEvents (rk s) =? 1);;
  on_rank (fun r => r <| outstandingEvents ::= fun n => n - 1 |> <| refreshState := REF_IDLE |>);;
  (if bool_decide (pwrState (rk s) = PWR_IDLE) then mret tt
   else assert_ (bool_decide (pwrState (rk s) = PWR_PRE_PDN)));;
  mret (negb (requestEventScheduled v)).

(** The banks are precharged: a pending refresh goes ahead. *)
Definition entered_idle (prev_state : PowerState) : comp rb unit :=
  s ← get;
  let r := rk s in
  if bool_decide (prev_state = PWR_SREF) then
    goto REF_SREF_EXIT;; on_refreshEvent (fun e => schedule now e (tadd now (tXS c)))
  else when_ (state_is REF_PRE r || state_is REF_PD_EXIT r) (
    if negb (scheduled (activateEvent r)) then
      assert_ (negb (scheduled (powerEvent r)));;
      if state_is REF_PD_EXIT r then
        assert_ (bool_decide (prev_state = PWR_PRE_PDN));;
        schedulePowerEvent PWR_REF (tadd now (tXP c))
      else on_rank (fun r => r <| pwrState := PWR_REF |>)
    else assert_ (scheduled (prechargeEvent r))).

(** The refresh state of the power machine: self-refresh, or a refresh. *)
Definition entered_refresh : comp rb unit :=
  s ← get;
  let r := rk s in
  assert_ (state_is REF_PRE r || state_is REF_PD_EXIT r);;
  if bool_decide (pwrStatePostRefresh r = PWR_PRE_PDN) && isQueueEmpty r
     && negb (ctrl_draining v) && negb (ctrl_drained v) && enableDRAMPowerdown c then
    powerDownSleep PWR_SREF now;;
    s ← get;
    assert_ (outstandingEvents (rk s) =? 1);;
    on_rank (fun r => r <| outstandingEvents ::= fun n => n - 1 |> <| pwrState := PWR_IDLE |>)
  else
    assert_ (negb (scheduled (powerEvent r)));;
    on_refreshEvent (fun e => schedule now e now);;
    goto REF_START.

(** The result says that the handler restarts the controller's scheduler. *)
Definition processPowerEvent : comp rb bool :=
  fire (fun e r => r <| powerEvent := e |>);;
  s ← get;
  assert_ (pwrStateTick (rk s) <=? now);;
  let prev_state := pwrState (rk s) in
  account (tsub now (pwrStateTick (rk s)));;
  on_rank (fun r => r <| pwrState := pwrStateTrans r |> <| pwrStateTick := now |>);;
  restart ← (if bool_decide (prev_state = PWR_REF) then after_refresh else mret false);
  s ← get;
  (if bool_decide (pwrState (rk s) = PWR_ACT) && state_is REF_PD_EXIT (rk s) then
     assert_ (bool_decide (prev_state = PWR_ACT_PDN));;
     goto REF_PRE;; on_refreshEvent (fun e => schedule now e now)
   else when_ (bool_decide (pwrState (rk s) = PWR_IDLE)) (entered_idle prev_state));;
  s ← get;
  when_ (bool_decide (pwrState (rk s) = PWR_REF)) entered_refresh;;
  mret restart.

Definition computeStats : comp rb unit :=
  updatePowerStats;;
  s ← get;
  let i := pwr_index (pwrState (rk s)) in
  x ← lift (aread (pwrStateTime (rk s)) i);
  l ← lift (awrite (pwrStateTime (rk s)) i (x + tsub now (pwrStateTick (rk s))));
  on_rank (fun r => r <| pwrStateTime := l |> <| pwrStateTick := now |>).
End Rank_machine.

(** ** Operations of the interface *)

Section Interface_machine.
Context (c : Config) (now : Z) (v : CtrlView).

(** [for (auto r : ranks) ...] *)
Definition each_rank (m : comp rb unit) : comp t unit :=
  s ← get; for_ (length (ranks s)) 0 (fun j => on_rb j m).

(** [ref_at] is [curTick() + tREFI - tRP]. *)
Definition startup : comp t unit := each_rank (rank_startup now (u64 (now + tREFI c - tRP c))).
Definition suspend : comp t unit := each_rank (rank_suspend c now).
Definition drainRanks : comp t unit :=
  each_rank (s ← get; when_ (bool_decide (pwrState (rk s) = PWR_SREF)) (scheduleWakeUpEvent now (tXS c))).
Definition allRanksDrained (s : t) : bool :=
  forallb (fun r => inPwrIdleState r && inRefIdleState r) (ranks s).

Definition check_rank : comp rb bool :=
  s ← get;
  let r := rk s in
  if inRefIdleState r then mret false
  else
    let busy := negb (bool_decide (pwrState r = PWR_SREF)) in
    when_ busy (checkDrainDone now);;
    when_ (bool_decide (pwrState r = PWR_SREF) && inLowPowerState r && forceSelfRefreshExit v r)
      (scheduleWakeUpEvent now (tXS c));;
    mret busy.
Fixpoint busy_ranks (n : nat) (j : Z) : comp t Z :=
  match n with
  | O => mret 0
  | S n' => b ← on_rb j check_rank; k ← busy_ranks n' (j + 1); mret (Z.b2z b + k)
  end.
Definition isBusy : comp t bool :=
  s ← get; k ← busy_ranks (length (ranks s)) 0; mret (k =? ranksPerChannel c).

(** A read has reached its ready time. *)
Definition read_done : comp rb unit :=
  on_rank (fun r => r <| readEntries ::= fun n => u32 (n - 1) |>);;
  drop_outstanding;;
  s ← get;
  let r := rk s in
  assert_ (match pwrState r with PWR_SREF | PWR_PRE_PDN | PWR_ACT_PDN => false | _ => true end);;
  when_ (isQueueEmpty v r && (outstandingEvents r =? 0) && inRefIdleState r && enableDRAMPowerdown c) (
    assert_ (negb (scheduled (activateEvent r)));;
    assert_ (negb (scheduled (prechargeEvent r)));;
    powerDownSleep c now (if bool_decide (pwrState r = PWR_IDLE) then PWR_PRE_PDN else PWR_ACT_PDN) now).
Definition respondEvent (rk_no : Z) : comp t unit := on_rb rk_no read_done.

Definition checkRefreshState (rk_no : Z) : comp t unit :=
  on_rb rk_no (
    s ← get;
    when_ (state_is REF_PRE (rk s) && negb (scheduled (prechargeEvent (rk s))))
      (on_refreshEvent (fun e => schedule now e now))).
End Interface_machine.
End Refresh.
