(* ===== verification/DramTiming.v ===== *)
(** The timing of the DRAM interface: the activation window, the row protocol and
    the spacing of the bursts ([DRAMInterface::activateBank], [prechargeBank] and
    [doBurstAccess] of [mem/mem_interface.cc]). *)
From S2P Require Import Prelude CmdBus Packet Dram.
Import DRAMInterface.

Module Timing.

(** ** The command bus as its clients see it *)

(** [m] commands per window, no window beyond [H]. *)
Record bus_ok (m H : Z) (b : CmdBus.t) : Prop := {
  bo_window : 0 < CmdBus.commandWindow b;
  bo_horizon : CmdBus.horizon (CmdBus.burstTicks b) <= H;
  bo_within : CmdBus.within m (CmdBus.burstTicks b)
}.
Lemma bus_ok_mono m H H' b : H <= H' -> bus_ok m H b -> bus_ok m H' b.
Proof. intros ? [? ? ?]. split; try done; lia. Qed.

Lemma horizon_cons x l : CmdBus.horizon (x :: l) = Z.max x (CmdBus.horizon l).
Proof. done. Qed.

Lemma bus_verify_wp m multi tick split H w D b (Q : Z -> CmdBus.t -> Prop) : 0 < m -> 0 < w -> 0 <= D -> 0 <= H ->
  H + 4 * w + 4 * D < 2 ^ 64 -> bus_ok m H b -> CmdBus.commandWindow b = w ->
  0 <= tick <= H -> (multi = true -> 0 < split <= D) ->
  (forall at_ bus', tick <= at_ <= H + 2 * w -> bus_ok m (H + 2 * w) bus' -> CmdBus.commandWindow bus' = w -> Q at_ bus') ->
  wp (if multi then CmdBus.verifyMultiCmd tick m split else CmdBus.verifySingleCmd tick m) b Q.
Proof.
  intros Hm Hw0 HD H0 H64 [Hw Hh Hi] Hcw Ht Hs HQ. assert (CmdBus.ok m b) as Hok by (split; [lia|lia|done]). destruct multi.
  - destruct (CmdBus.verifyMultiCmd_spec _ split tick _ Hm Hok) as (y & f & at_ & E & [? ? [? ?]] & ? & ? & Hin);
      [lia|lia|lia|lia|].
    eapply wp_ok; [exact E|]. apply HQ; [lia| |done].
    split; cbn -[CmdBus.horizon]; [lia| |done]. rewrite !horizon_cons. lia.
  - destruct (CmdBus.verifySingleCmd_spec _ tick _ Hm Hok) as (y & at_ & E & [? ? [? ?]] & ? & ? & Hin); [lia|].
    eapply wp_ok; [exact E|]. apply HQ; [lia| |done].
    split; cbn -[CmdBus.horizon]; [lia| |done]. rewrite !horizon_cons. lia.
Qed.

Section Rank_timing.
Context (c : Config) (now w D : Z).

(** The parameters the timing depends on are delays of at most [D] ticks. *)
Record cfg_ok : Prop := {
  co_cmds : 0 < maxCommandsPerWindow c;
  co_tCK : 0 < tCK c <= D;
  co_tAAD : 0 < tAAD c <= D;
  co_tXAW : 0 <= tXAW c <= D;
  co_tRRD : 0 <= tRRD c <= D /\ 0 <= tRRD_L c <= D;
  co_tRCD : 0 <= tRCD c <= D;
  co_tRAS : 0 <= tRAS c <= D;
  co_tRP : 0 <= tRP c <= D;
  co_tPPD : 0 <= tPPD c <= D;
  co_tCL : 0 <= tCL c <= D;
  co_tRTP : 0 <= tRTP c <= D;
  co_tWR : 0 <= tWR c <= D;
  co_tBURST : 0 <= tBURST c <= D /\ 0 <= tBURST_MIN c <= tBURST c;
  co_tXP : 0 <= tXP c <= D;
  co_same : tBURST c <= tCCD_L c <= D /\ tBURST c <= tCCD_L_WR c <= D;
  co_turn : 0 <= wrToRdDlySameBG c <= D /\ 0 <= rdToWrDlySameBG c <= D;
  co_switch : 0 <= tCS c <= D /\ 0 <= tWTR c <= D /\ 0 <= tRTW c <= D;
  co_limit : 0 < activationLimit c;
  co_banks : 0 < banksPerRank c < 2 ^ 32 - 1
}.
Hypothesis Hcfg : cfg_ok.

Definition tick_ok (H x : Z) : Prop := 0 <= x <= H.

(** Room above the horizon for the delays of one operation. *)
Definition room (H : Z) : Prop := 0 <= H /\ 0 <= now <= H /\ H + 4 * w + 4 * D < 2 ^ 64 /\ 0 <= D /\ 0 < w.

Lemma verifyCmd_wp multi tick split H s (Q : Z -> rb -> Prop) : room H ->
  bus_ok (maxCommandsPerWindow c) H (cmd_bus s) -> CmdBus.commandWindow (cmd_bus s) = w ->
  0 <= tick <= H -> (multi = true -> 0 < split <= D) ->
  (forall at_ bus', tick <= at_ <= H + 2 * w -> bus_ok (maxCommandsPerWindow c) (H + 2 * w) bus' ->
     CmdBus.commandWindow bus' = w -> Q at_ (s <| cmd_bus := bus' |>)) ->
  wp (verifyCmd c multi tick split) s Q.
Proof using Hcfg.
  intros (H0 & Hn & H64 & HD & Hw0) Hb Hcw Ht Hs HQ. unfold verifyCmd, on_bus. apply wp_zoom.
  eapply (bus_verify_wp _ _ _ _ H w D); done || exact (co_cmds Hcfg) || lia.
Qed.

(** ** The invariant of a rank *)

Record bank_ok (H : Z) (b : Bank) : Prop := {
  bk_rd : tick_ok H (rdAllowedAt b);
  bk_wr : tick_ok H (wrAllowedAt b);
  bk_pre : tick_ok H (preAllowedAt b);
  bk_act : tick_ok H (actAllowedAt b)
}.
Definition is_open (b : Bank) : Z := if openRow b =? NO_ROW then 0 else 1.

(** No bank can be activated before the window of the last [activationLimit]
    activates of the rank is over. *)
Definition window_closed (ticks : list Z) (b : Bank) : Prop :=
  back ticks <> 0 -> back ticks + tXAW c <= actAllowedAt b.

Record rank_ok (H : Z) (r : Rank) : Prop := {
  ro_banks : zlen (banks r) = banksPerRank c;
  ro_bank : Forall (bank_ok H) (banks r);
  ro_active : numBanksActive r = lsum is_open (banks r);
  ro_acts : zlen (actTicks r) = activationLimit c;
  ro_act : Forall (tick_ok H) (actTicks r);
  ro_window : Forall (window_closed (actTicks r)) (banks r);
  ro_past : Forall (fun bk => Forall (fun x => x <= actAllowedAt bk) (actTicks r)) (banks r);
  ro_last : tick_ok H (lastBurstTick r)
}.

Lemma tick_ok_mono H H' x : H <= H' -> tick_ok H x -> tick_ok H' x.
Proof. unfold tick_ok. lia. Qed.
Lemma bank_ok_mono H H' b : H <= H' -> bank_ok H b -> bank_ok H' b.
Proof. intros ? [? ? ? ?]. split; by eapply tick_ok_mono. Qed.
Lemma rank_ok_mono H H' r : H <= H' -> rank_ok H r -> rank_ok H' r.
Proof.
  intros Hle [? Hb ? ? Ha ? ? ?]. split; try done.
  - eapply Forall_impl; [|exact Hb]. intros. by eapply bank_ok_mono.
  - eapply Forall_impl; [|exact Ha]. intros. by eapply tick_ok_mono.
  - by eapply tick_ok_mono.
Qed.

Lemma zinsert_insert {A} (l : list A) (i : Z) x y : <[i := x]> (<[i := y]> l) = <[i := x]> l.
Proof.
  unfold insert, zlist_insert. destruct (i <? 0); [done|]. apply list_insert_insert_eq.
Qed.
Lemma lsum_fmap_same {A B} (f : B -> Z) (g : A -> Z) (h : A -> B) l :
  (forall x, f (h x) = g x) -> lsum f (h <$> l) = lsum g l.
Proof. intros H. induction l as [|x l IH]; [done|]. rewrite fmap_cons. cbn [lsum]. rewrite H. lia. Qed.

Lemma rank_bank H r b : rank_ok H r -> 0 <= b < banksPerRank c -> exists bk, banks r !! b = Some bk.
Proof using. intros Hr Hb. apply zlookup_is_Some. by rewrite (ro_banks _ _ Hr). Qed.
Lemma is_open_range b : 0 <= is_open b <= 1.
Proof. unfold is_open. destruct (_ =? _); lia. Qed.
Lemma open_count l : 0 <= lsum is_open l <= zlen l.
Proof.
  unfold zlen. induction l as [|x l IH]; cbn [lsum length]; [lia|].
  pose proof (is_open_range x). lia.
Qed.
(** A rank with a closed bank has room for one more open one. *)
Lemma closed_room l (b : Z) bk : l !! b = Some bk -> openRow bk = NO_ROW -> lsum is_open l < zlen l.
Proof.
  intros Hb Ho. pose proof (lsum_insert is_open l b bk (bk <| openRow := 0 |>) Hb) as E.
  pose proof (open_count (<[b := bk <| openRow := 0 |>]> l)) as Hc. rewrite zlen_insert in Hc.
  assert (is_open bk = 0) by (unfold is_open; by rewrite Ho).
  change (is_open (bk <| openRow := 0 |>)) with 1 in E. lia.
Qed.

(** ** The steps of an operation *)

Lemma get_bank_wp b bk s (Q : Bank -> rb -> Prop) :
  banks (rk s) !! b = Some bk -> Q bk s -> wp (get_bank b) s Q.
Proof. intros Hb HQ. unfold get_bank. wp_steps. by eapply rp_aread. Qed.
Lemma set_bank_wp b bk v s (Q : unit -> rb -> Prop) : banks (rk s) !! b = Some bk ->
  Q tt (s <| rk ::= fun r => r <| banks := <[b := v]> (banks (rk s)) |> |>) -> wp (set_bank b v) s Q.
Proof.
  intros Hb HQ. unfold set_bank. wp_steps. apply rp_awrite; [by eapply zlookup_lt|]. exact HQ.
Qed.

(** ** Activates *)

(** The bank that is opened, and the activation window on the other banks. *)
Definition opened (bk : Bank) (rw at_ : Z) : Bank :=
  bk <| openRow := rw |> <| bytesAccessed := 0 |> <| rowAccesses := 0 |>
     <| preAllowedAt := tadd at_ (tRAS c) |>
     <| rdAllowedAt ::= Z.max (tadd at_ (tRCD c)) |> <| wrAllowedAt ::= Z.max (tadd at_ (tRCD c)) |>.
Definition windowed (ticks : list Z) (at_ : Z) (x : Bank) : Bank :=
  if negb (back ticks =? 0) && (tsub at_ (back ticks) <? tXAW c)
  then x <| actAllowedAt ::= Z.max (tadd (back ticks) (tXAW c)) |> else x.

Record activated (b rw at_ : Z) (bk : Bank) (r r' : Rank) : Prop := {
  av_banks : banks r' = windowed (at_ :: removelast (actTicks r)) at_ <$>
                        (enforce_tRRD c (bankgr bk) at_ <$> <[b := opened bk rw at_]> (banks r));
  av_ticks : actTicks r' = at_ :: removelast (actTicks r);
  av_active : numBanksActive r' = numBanksActive r + 1;
  av_last : lastBurstTick r' = lastBurstTick r;
  av_cmds : cmdList r' = cmdList r ++ [mkCommand ACT (bank_no bk) at_]
}.

Lemma enforce_tXAW_wp at_ s (Q : unit -> rb -> Prop) :
  actTicks (rk s) <> [] -> 0 <= back (actTicks (rk s)) -> 0 <= at_ < 2 ^ 64 ->
  (back (actTicks (rk s)) <> 0 -> back (actTicks (rk s)) + tXAW c <= at_) ->
  (forall r', banks r' = windowed (at_ :: removelast (actTicks (rk s))) at_ <$> banks (rk s) ->
     actTicks r' = at_ :: removelast (actTicks (rk s)) -> numBanksActive r' = numBanksActive (rk s) ->
     lastBurstTick r' = lastBurstTick (rk s) -> cmdList r' = cmdList (rk s) ->
     activateEvent r' = activateEvent (rk s) -> Q tt (s <| rk := r' |>)) ->
  wp (enforce_tXAW c at_) s Q.
Proof using Hcfg.
  intros Hne H0 Ha Hw HQ. unfold enforce_tXAW. wp_step. wp_step.
  destruct (actTicks (rk s)) as [|x l] eqn:E; [done|]. set (ticks := x :: l) in *.
  pose proof (co_tXAW Hcfg). wp_step. unfold windowed in HQ.
  destruct (Z.eqb_spec (back ticks) 0) as [Hz|Hz]; cbn [negb andb].
  - apply wp_ret. wp_step. apply wp_modify. apply wp_when; intros Hc; rewrite Hc in HQ.
    + apply wp_modify. by apply HQ.
    + apply HQ; try done. cbn. by rewrite list_fmap_id.
  - rewrite tsub_small by lia. destruct (Z.ltb_spec (at_ - back ticks) (tXAW c)); [lia|].
    apply wp_ret. wp_step. apply wp_modify. apply wp_when; intros Hc; rewrite Hc in HQ.
    + apply wp_modify. by apply HQ.
    + apply HQ; try done. cbn. by rewrite list_fmap_id.
Qed.

Lemma activateEvent_wp at_ s (Q : unit -> rb -> Prop) : now <= at_ ->
  (forall e, Q tt (s <| rk ::= fun r => r <| activateEvent := e |> |>)) ->
  wp (on_activateEvent (fun e => match e with
    | None => schedule now e at_
    | Some x => if at_ <? x then reschedule now e at_ else Ok e
    end)) s Q.
Proof using.
  intros Hn HQ. unfold on_activateEvent, on_event. wp_steps. unfold schedule, reschedule.
  destruct (Z.leb_spec now at_); [|lia].
  destruct (activateEvent (rk s)) as [x|]; cbn; [destruct (at_ <? x)|]; apply HQ.
Qed.

Lemma back_ok H r : rank_ok H r -> tick_ok H (back (actTicks r)).
Proof using Hcfg.
  intros Hr. unfold back. pose proof (ro_acts _ _ Hr) as Hl. pose proof (co_limit Hcfg).
  pose proof (ro_act _ _ Hr) as Ha. destruct (actTicks r) as [|x l] using rev_ind.
  - unfold zlen in Hl. cbn in Hl. lia.
  - rewrite List.last_last. apply Forall_app in Ha as [_ Ha]. by inversion Ha.
Qed.

Lemma activateBank_wp b act_tick rw bk H s (Q : unit -> rb -> Prop) : room H ->
  bus_ok (maxCommandsPerWindow c) H (cmd_bus s) -> CmdBus.commandWindow (cmd_bus s) = w ->
  rank_ok H (rk s) -> banks (rk s) !! b = Some bk -> openRow bk = NO_ROW ->
  now <= act_tick <= H -> actAllowedAt bk <= act_tick ->
  (forall at_ s', act_tick <= at_ <= H + 2 * w -> activated b rw at_ bk (rk s) (rk s') ->
     bus_ok (maxCommandsPerWindow c) (H + 2 * w) (cmd_bus s') ->
     CmdBus.commandWindow (cmd_bus s') = w -> Q tt s') ->
  wp (activateBank c now b act_tick rw) s Q.
Proof using Hcfg.
  intros Hroom Hbus Hcw Hr Hb Ho Hn Hact HQ. pose proof (back_ok _ _ Hr) as Hbk.
  pose proof (Forall_zlookup _ _ _ _ (ro_window _ _ Hr) Hb) as Hwin. unfold window_closed in Hwin.
  pose proof Hroom as (HH & Hnow & H64 & HD & Hw0). unfold tick_ok in Hbk.
  unfold activateBank. wp_step. wp_step. wp_step. apply wp_assert; [apply Z.eqb_eq, (ro_acts _ _ Hr)|].
  wp_step. eapply verifyCmd_wp; [exact Hroom|done|done|lia|intros _; apply (co_tAAD Hcfg)|].
  intros at_ bus' Hat Hbus' Hcw'. wp_step. eapply get_bank_wp; [exact Hb|].
  wp_step. apply wp_assert; [by apply Z.eqb_eq|]. wp_step. eapply set_bank_wp; [exact Hb|].
  wp_step. apply wp_modify. wp_step. wp_step. wp_step.
  pose proof (closed_room _ _ _ Hb Ho) as Hroom'. pose proof (open_count (banks (rk s))).
  rewrite (ro_banks _ _ Hr) in Hroom'. pose proof (co_banks Hcfg). pose proof (ro_active _ _ Hr) as Hac.
  apply wp_assert.
  { cbn. rewrite Hac, u32_small by lia. apply Z.leb_le. lia. }
  wp_step. apply wp_modify. wp_step. eapply get_bank_wp.
  { apply zlookup_insert_eq. by eapply zlookup_lt. }
  wp_step. eapply set_bank_wp.
  { apply zlookup_insert_eq. by eapply zlookup_lt. }
  wp_step. apply wp_modify. wp_step. apply enforce_tXAW_wp.
  - intros E. change (actTicks (rk s) = []) in E. pose proof (ro_acts _ _ Hr) as Hl. rewrite E in Hl. pose proof (co_limit Hcfg).
    unfold zlen in Hl. cbn in Hl. lia.
  - exact (proj1 Hbk).
  - lia.
  - intros E. change (back (actTicks (rk s)) + tXAW c <= at_). specialize (Hwin E). lia.
  - intros r' E1 E2 E3 E4 E5 E6. apply activateEvent_wp; [lia|]. intros e.
    apply (HQ at_); [lia| |exact Hbus'|exact Hcw'].
    split.
    + etransitivity; [exact E1|]. cbn. by rewrite zinsert_insert.
    + exact E2.
    + etransitivity; [exact E3|]. cbn. rewrite Hac, u32_small by lia. done.
    + exact E4.
    + etransitivity; [exact E5|]. done.
Qed.

(** What an activate at [at_] makes of the banks. *)
Lemma enforce_tRRD_act gr at_ x : 0 <= at_ -> at_ + D < 2 ^ 64 ->
  at_ + (if bankGroupArch c && (gr =? bankgr x) then tRRD_L c else tRRD c)
    <= actAllowedAt (enforce_tRRD c gr at_ x) /\
  actAllowedAt x <= actAllowedAt (enforce_tRRD c gr at_ x) <= Z.max (at_ + D) (actAllowedAt x).
Proof using Hcfg.
  intros H0 H64. destruct (co_tRRD Hcfg). unfold enforce_tRRD.
  destruct (bankGroupArch c && (gr =? bankgr x)); cbn; rewrite tadd_small by lia; lia.
Qed.
Lemma enforce_tRRD_same gr at_ x :
  rdAllowedAt (enforce_tRRD c gr at_ x) = rdAllowedAt x /\
  wrAllowedAt (enforce_tRRD c gr at_ x) = wrAllowedAt x /\
  preAllowedAt (enforce_tRRD c gr at_ x) = preAllowedAt x /\
  openRow (enforce_tRRD c gr at_ x) = openRow x /\ bankgr (enforce_tRRD c gr at_ x) = bankgr x.
Proof using. unfold enforce_tRRD. by destruct (_ && _). Qed.
Lemma windowed_same ticks at_ x :
  rdAllowedAt (windowed ticks at_ x) = rdAllowedAt x /\
  wrAllowedAt (windowed ticks at_ x) = wrAllowedAt x /\
  preAllowedAt (windowed ticks at_ x) = preAllowedAt x /\
  openRow (windowed ticks at_ x) = openRow x /\ bankgr (windowed ticks at_ x) = bankgr x.
Proof using. unfold windowed. by destruct (_ && _). Qed.
Lemma windowed_act ticks at_ x : 0 <= back ticks <= at_ -> at_ + D < 2 ^ 64 -> at_ <= actAllowedAt x ->
  actAllowedAt x <= actAllowedAt (windowed ticks at_ x) <= Z.max (at_ + D) (actAllowedAt x) /\
  window_closed ticks (windowed ticks at_ x).
Proof using Hcfg.
  intros H0 H64 Ha. pose proof (co_tXAW Hcfg). unfold windowed, window_closed.
  destruct (Z.eqb_spec (back ticks) 0); cbn [negb andb]; [split; lia|].
  rewrite tsub_small by lia. destruct (Z.ltb_spec (at_ - back ticks) (tXAW c)); cbn;
    rewrite ?tadd_small by lia; lia.
Qed.

Lemma back_in (l : list Z) : l <> [] -> back l ∈ l.
Proof using.
  intros H. unfold back. destruct l as [|x l _] using rev_ind; [done|].
  rewrite List.last_last. apply elem_of_app. right. by apply list_elem_of_singleton.
Qed.
Lemma removelast_Forall (P : Z -> Prop) l : Forall P l -> Forall P (removelast l).
Proof using.
  destruct l as [|x l _] using rev_ind; [done|]. rewrite removelast_last. intros H.
  by apply Forall_app in H as [? _].
Qed.

(** One bank after an activate at [at_]. *)
Definition act_bank (gr : Z) (ticks : list Z) (at_ : Z) (x : Bank) : Bank :=
  windowed ticks at_ (enforce_tRRD c gr at_ x).
Lemma act_bank_spec H gr ticks at_ x : 0 <= back ticks <= at_ -> at_ + D < 2 ^ 64 ->
  at_ <= H + 2 * w -> 0 <= H -> 0 < w -> 0 <= D -> bank_ok (H + 2 * w + D) x ->
  bank_ok (H + 2 * w + D) (act_bank gr ticks at_ x) /\
  at_ + (if bankGroupArch c && (gr =? bankgr x) then tRRD_L c else tRRD c)
    <= actAllowedAt (act_bank gr ticks at_ x) /\
  window_closed ticks (act_bank gr ticks at_ x) /\ is_open (act_bank gr ticks at_ x) = is_open x.
Proof using Hcfg.
  intros Hb H64 Hat H0 Hw HD [B1 B2 B3 B4]. unfold act_bank, tick_ok in *.
  destruct (enforce_tRRD_act gr at_ x ltac:(lia) H64) as [E1 E2].
  destruct (enforce_tRRD_same gr at_ x) as (S1 & S2 & S3 & S4 & S5).
  set (y := enforce_tRRD c gr at_ x) in *.
  destruct (co_tRRD Hcfg) as [? ?].
  assert (at_ <= actAllowedAt y) as Ha by (destruct (_ && _) in E1; lia).
  destruct (windowed_act ticks at_ y Hb H64 Ha) as [W1 W2].
  destruct (windowed_same ticks at_ y) as (T1 & T2 & T3 & T4 & T5).
  split; [split; unfold tick_ok; lia|]. split; [lia|]. split; [done|].
  unfold is_open. by rewrite T4, S4.
Qed.

Lemma opened_ok H at_ bk rw : bank_ok H bk -> 0 <= at_ <= H + 2 * w -> 0 <= D -> 0 < w -> 0 <= H ->
  H + 2 * w + D < 2 ^ 64 ->
  bank_ok (H + 2 * w + D) (opened bk rw at_) /\ preAllowedAt (opened bk rw at_) = at_ + tRAS c /\
  at_ + tRCD c <= rdAllowedAt (opened bk rw at_) /\ at_ + tRCD c <= wrAllowedAt (opened bk rw at_).
Proof using Hcfg.
  intros [B1 B2 B3 B4] Ha HD Hw HH H64. pose proof (co_tRCD Hcfg). pose proof (co_tRAS Hcfg).
  unfold tick_ok in *. unfold opened; cbn. rewrite !tadd_small by lia.
  split; [split; unfold tick_ok; cbn; lia|]. lia.
Qed.

Lemma activated_banks b rw at_ bk r r' : activated b rw at_ bk r r' ->
  banks r' = act_bank (bankgr bk) (at_ :: removelast (actTicks r)) at_ <$> <[b := opened bk rw at_]> (banks r).
Proof using. intros Hav. rewrite (av_banks _ _ _ _ _ _ Hav), <- list_fmap_compose. done. Qed.

Lemma activated_past H r (b : Z) bk at_ : rank_ok H r -> banks r !! b = Some bk ->
  actAllowedAt bk <= at_ -> Forall (fun x => 0 <= x <= at_) (at_ :: removelast (actTicks r)) \/ at_ < 0.
Proof using.
  intros Hr Hb Ha. destruct (Z.lt_ge_cases at_ 0); [by right|left].
  constructor; [lia|]. apply removelast_Forall.
  pose proof (Forall_zlookup _ _ _ _ (ro_past _ _ Hr) Hb) as Hp. pose proof (ro_act _ _ Hr) as Hz.
  apply Forall_lookup. intros k x Hx. cbn in Hp.
  pose proof (Forall_lookup_1 _ _ _ _ Hp Hx) as Hp'. pose proof (Forall_lookup_1 _ _ _ _ Hz Hx) as H0'.
  cbn in Hp'. unfold tick_ok in H0'. lia.
Qed.
Lemma back_cons_in at_ l : back (at_ :: l) ∈ at_ :: l.
Proof using. by apply back_in. Qed.

Lemma activated_ok b rw at_ bk H r r' : room H -> rank_ok H r -> banks r !! b = Some bk ->
  openRow bk = NO_ROW -> rw <> NO_ROW -> actAllowedAt bk <= at_ <= H + 2 * w -> now <= at_ ->
  activated b rw at_ bk r r' ->
  rank_ok (H + 2 * w + D) r' /\
  exists bk', banks r' !! b = Some bk' /\ openRow bk' = rw /\ preAllowedAt bk' = at_ + tRAS c /\
    at_ + tRCD c <= rdAllowedAt bk' /\ at_ + tRCD c <= wrAllowedAt bk'.
Proof using Hcfg.
  intros (HH & Hn & H64 & HD & Hw0) Hr Hb Ho Hrw Ha Hna Hav.
  pose proof (activated_banks _ _ _ _ _ _ Hav) as Hbanks. set (ticks := at_ :: removelast (actTicks r)) in *.
  destruct (activated_past H r b bk at_ Hr Hb ltac:(lia)) as [Hpast|]; [|lia]. fold ticks in Hpast.
  assert (0 <= back ticks <= at_) as Hback.
  { pose proof (back_cons_in at_ (removelast (actTicks r))) as Hin.
    apply list_elem_of_lookup in Hin as [k Hk]. apply (Forall_lookup_1 _ _ _ _ Hpast Hk). }
  destruct (opened_ok H at_ bk rw (Forall_zlookup _ _ _ _ (ro_bank _ _ Hr) Hb)) as (O1 & O2 & O3 & O4); [lia..|].
  assert (Forall (bank_ok (H + 2 * w + D)) (<[b := opened bk rw at_]> (banks r))) as Hall.
  { apply Forall_zinsert; [|done]. eapply Forall_impl; [|exact (ro_bank _ _ Hr)].
    intros. eapply bank_ok_mono; [|done]. lia. }
  pose proof (fun x => act_bank_spec H (bankgr bk) ticks at_ x Hback ltac:(lia) ltac:(lia) HH Hw0 HD) as Hspec.
  pose proof (co_tRRD Hcfg) as [? ?].
  split; [split|].
  - rewrite Hbanks, zlen_fmap, zlen_insert. apply (ro_banks _ _ Hr).
  - rewrite Hbanks. apply Forall_fmap. eapply Forall_impl; [|exact Hall]. intros x Hx. apply (Hspec x Hx).
  - rewrite (av_active _ _ _ _ _ _ Hav), (ro_active _ _ Hr), Hbanks.
    rewrite (lsum_fmap_same is_open is_open) by
      (intros x; unfold is_open, act_bank; destruct (windowed_same ticks at_ (enforce_tRRD c (bankgr bk) at_ x)) as (_ & _ & _ & -> & _);
       by destruct (enforce_tRRD_same (bankgr bk) at_ x) as (_ & _ & _ & -> & _)).
    rewrite (lsum_insert is_open _ _ _ _ Hb). unfold is_open at 3 4. rewrite Ho, Z.eqb_refl.
    change (openRow (opened bk rw at_)) with rw. destruct (Z.eqb_spec rw NO_ROW); [done|lia].
  - rewrite (av_ticks _ _ _ _ _ _ Hav). pose proof (ro_acts _ _ Hr) as Hl. pose proof (co_limit Hcfg).
    destruct (actTicks r) as [|x l _] using rev_ind; [unfold zlen in Hl; cbn in Hl; lia|].
    rewrite removelast_last. rewrite <- Hl. unfold zlen. cbn [length]. rewrite length_app. cbn. lia.
  - rewrite (av_ticks _ _ _ _ _ _ Hav). fold ticks. eapply Forall_impl; [|exact Hpast].
    unfold tick_ok. lia.
  - rewrite (av_ticks _ _ _ _ _ _ Hav), Hbanks. apply Forall_fmap. eapply Forall_impl; [|exact Hall].
    intros x Hx. apply (Hspec x Hx).
  - rewrite (av_ticks _ _ _ _ _ _ Hav), Hbanks. apply Forall_fmap. eapply Forall_impl; [|exact Hall].
    intros x Hx. destruct (Hspec x Hx) as (_ & Hge & _). cbn.
    eapply Forall_impl; [|exact Hpast]. intros y Hy. cbn in Hy. destruct (_ && _) in Hge; lia.
  - rewrite (av_last _ _ _ _ _ _ Hav). eapply tick_ok_mono; [|exact (ro_last _ _ Hr)]. lia.
  - exists (act_bank (bankgr bk) ticks at_ (opened bk rw at_)).
    rewrite Hbanks, zlookup_fmap, zlookup_insert_eq by (by eapply zlookup_lt). split; [done|].
    unfold act_bank. destruct (windowed_same ticks at_ (enforce_tRRD c (bankgr bk) at_ (opened bk rw at_))) as (-> & -> & -> & -> & _).
    destruct (enforce_tRRD_same (bankgr bk) at_ (opened bk rw at_)) as (-> & -> & -> & -> & _).
    done.
Qed.

(** ** The history of a rank: its activates, the latest first *)

Definition limit : nat := Z.to_nat (activationLimit c).
Record act_log (r : Rank) (acts : list Z) : Prop := {
  al_ticks : actTicks r = take limit (acts ++ replicate limit 0);
  al_gap : forall (i : nat) x y, acts !! i = Some x -> acts !! (i + limit)%nat = Some y ->
             y <> 0 -> y + tXAW c <= x
}.

Lemma removelast_take (l : list Z) n : (S n <= length l)%nat -> removelast (take (S n) l) = take n l.
Proof using. intros H. rewrite removelast_firstn_len, length_take, take_take. f_equal. lia. Qed.
Lemma back_take (l : list Z) n : (S n <= length l)%nat -> l !! n = Some (back (take (S n) l)).
Proof using.
  intros H. destruct (lookup_lt_is_Some_2 l n ltac:(lia)) as [x Hx].
  rewrite (take_S_r _ _ _ Hx). unfold back. by rewrite List.last_last.
Qed.

Lemma activated_log b rw at_ bk H r r' acts : rank_ok H r -> banks r !! b = Some bk ->
  actAllowedAt bk <= at_ -> activated b rw at_ bk r r' -> act_log r acts -> act_log r' (at_ :: acts).
Proof using Hcfg.
  intros Hr Hb Ha Hav [Ht Hg]. pose proof (co_limit Hcfg) as Hl.
  assert (exists n, limit = S n) as [n Hn] by (exists (pred limit); unfold limit; lia).
  pose proof (Forall_zlookup _ _ _ _ (ro_window _ _ Hr) Hb) as Hwin. unfold window_closed in Hwin.
  assert (S n <= length (acts ++ replicate limit 0%Z))%nat as Hlen
    by (rewrite length_app, length_replicate, Hn; lia).
  split.
  - rewrite (av_ticks _ _ _ _ _ _ Hav), Ht, Hn, removelast_take by (rewrite Hn in Hlen; done). done.
  - intros [|i] x y Hx Hy Hne.
    + cbn in Hx, Hy. injection Hx as <-. rewrite Hn in Hy. change (acts !! n = Some y) in Hy.
      rewrite Ht, Hn in Hwin. rewrite Hn in Hlen.
      pose proof (back_take _ n Hlen) as Hback. rewrite lookup_app_l in Hback by (by eapply lookup_lt_Some).
      rewrite Hy in Hback. apply (inj Some) in Hback. rewrite <- Hback in Hwin. specialize (Hwin Hne). lia.
    + apply (Hg i); done.
Qed.

(** ** Precharges *)

Definition respect_tPPD (pre_at : Z) (x : Bank) : Bank :=
  x <| preAllowedAt ::= Z.max (tadd pre_at (tPPD c)) |>.
Definition closed (auto : bool) (pre_at : Z) (bk : Bank) : Bank :=
  (if auto then bk <| openRow := NO_ROW |> <| preAllowedAt := pre_at |>
   else respect_tPPD pre_at (bk <| openRow := NO_ROW |>))
  <| actAllowedAt ::= fun x => Z.max x (tadd pre_at (tRP c)) |>.

Record precharged (b pre_at : Z) (auto : bool) (bk : Bank) (r r' : Rank) : Prop := {
  pr_banks : banks r' = <[b := closed auto pre_at bk]> ((if auto then id else respect_tPPD pre_at) <$> banks r);
  pr_active : numBanksActive r' = numBanksActive r - 1;
  pr_ticks : actTicks r' = actTicks r;
  pr_last : lastBurstTick r' = lastBurstTick r
}.

Lemma prechargeEvent_wp pre_done (x : Z) s (Q : Z -> rb -> Prop) : now <= pre_done ->
  (forall s', banks (rk s') = banks (rk s) -> numBanksActive (rk s') = numBanksActive (rk s) ->
     actTicks (rk s') = actTicks (rk s) -> lastBurstTick (rk s') = lastBurstTick (rk s) ->
     cmd_bus s' = cmd_bus s -> Q x s') ->
  wp ((match prechargeEvent (rk s) with
       | None => on_prechargeEvent (fun e => schedule now e pre_done);;
                 on_rank (fun r => r <| outstandingEvents ::= fun n => u8 (n + 1) |>)
       | Some z => when_ (z <? pre_done) (on_prechargeEvent (fun e => reschedule now e pre_done))
       end);; mret x) s Q.
Proof using.
  intros Hn HQ. wp_step. destruct (prechargeEvent (rk s)) as [z|] eqn:E.
  - apply wp_when; intros ?; [|by apply HQ]. unfold on_prechargeEvent, on_event. wp_steps.
    unfold reschedule. rewrite E. destruct (Z.leb_spec now pre_done); [|lia]. cbn [scheduled andb rp].
    apply wp_modify. by apply HQ.
  - unfold on_prechargeEvent, on_event. wp_steps.
    unfold schedule. rewrite E. destruct (Z.leb_spec now pre_done); [|lia]. cbn [scheduled negb andb rp].
    apply wp_modify, wp_modify. by apply HQ.
Qed.

Lemma open_pos l (b : Z) bk : l !! b = Some bk -> openRow bk <> NO_ROW -> 0 < lsum is_open l.
Proof using.
  intros Hb Ho. pose proof (lsum_elem is_open l b bk) as H.
  enough (is_open bk = 1) as E by (rewrite E in H; specialize (H (fun _ _ _ => proj1 (is_open_range _)) Hb); lia).
  unfold is_open. by destruct (Z.eqb_spec (openRow bk) NO_ROW).
Qed.

Lemma prechargeBank_wp b pre_tick auto trace bk H s (Q : Z -> rb -> Prop) : room H ->
  bus_ok (maxCommandsPerWindow c) H (cmd_bus s) -> CmdBus.commandWindow (cmd_bus s) = w ->
  rank_ok H (rk s) -> banks (rk s) !! b = Some bk -> openRow bk <> NO_ROW -> now <= pre_tick <= H ->
  (forall pre_at x s', pre_tick <= pre_at <= H + 2 * w -> precharged b pre_at auto bk (rk s) (rk s') ->
     bus_ok (maxCommandsPerWindow c) (H + 2 * w) (cmd_bus s') ->
     CmdBus.commandWindow (cmd_bus s') = w -> Q x s') ->
  wp (prechargeBank c now b pre_tick auto trace) s Q.
Proof using Hcfg.
  intros Hroom Hbus Hcw Hr Hb Ho Hn HQ. pose proof Hroom as (HH & Hnow & H64 & HD & Hw0).
  pose proof (co_tRP Hcfg). pose proof (co_tPPD Hcfg).
  pose proof (open_pos _ _ _ Hb Ho). pose proof (ro_active _ _ Hr).
  unfold prechargeBank. wp_step. eapply get_bank_wp; [exact Hb|].
  wp_step. apply wp_assert; [by destruct (Z.eqb_spec (openRow bk) NO_ROW)|].
  wp_step. eapply set_bank_wp; [exact Hb|]. wp_step.
  match goal with |- wp _ ?st _ => set (s1 := st) end.
  apply wp_mono with (P := fun pre_at s2 => pre_tick <= pre_at <= H + 2 * w /\
    (exists v, banks (rk s2) = <[b := v]> ((if auto then id else respect_tPPD pre_at) <$> banks (rk s)) /\
       v <| actAllowedAt ::= fun x => Z.max x (tadd pre_at (tRP c)) |> = closed auto pre_at bk) /\
    numBanksActive (rk s2) = numBanksActive (rk s) /\ actTicks (rk s2) = actTicks (rk s) /\
    lastBurstTick (rk s2) = lastBurstTick (rk s) /\ bus_ok (maxCommandsPerWindow c) (H + 2 * w) (cmd_bus s2) /\
    CmdBus.commandWindow (cmd_bus s2) = w).
  - destruct auto.
    + wp_step. eapply get_bank_wp; [apply zlookup_insert_eq; by eapply zlookup_lt|].
      wp_step. eapply set_bank_wp; [apply zlookup_insert_eq; by eapply zlookup_lt|].
      apply wp_ret. split; [lia|]. split; [|split_and!; try done; by eapply bus_ok_mono; [|exact Hbus]; lia].
      eexists. split; [|reflexivity]. rewrite list_fmap_id. cbn. by rewrite zinsert_insert.
    + wp_step. eapply verifyCmd_wp; [exact Hroom|exact Hbus|exact Hcw|lia|done|].
      intros at_ bus' Hat Hbus' Hcw'. wp_step. apply wp_modify. apply wp_ret.
      split; [lia|]. split; [|by split_and!].
      exists (respect_tPPD at_ (bk <| openRow := NO_ROW |>)). split; [|done]. cbn.
      unfold insert, zlist_insert. destruct (b <? 0); [done|]. apply list_fmap_insert.
  - clear s1. intros pre_at s2 (Hat & (v & Hbs & Hv) & Hna & Htk & Hlast & Hbus' & Hcw').
    assert (banks (rk s2) !! b = Some v) as Hb2.
    { rewrite Hbs. apply zlookup_insert_eq. rewrite zlen_fmap. by eapply zlookup_lt. }
    wp_step. eapply get_bank_wp; [exact Hb2|]. wp_step. eapply set_bank_wp; [exact Hb2|].
    wp_step. wp_step. wp_step. apply wp_assert; [cbn; destruct (Z.eqb_spec (numBanksActive (rk s2)) 0); [lia|done]|].
    wp_step. apply wp_modify. wp_step.
    match goal with |- wp _ ?st _ => set (s3 := st) end.
    apply wp_mono with (P := fun _ s4 => banks (rk s4) = banks (rk s3) /\ numBanksActive (rk s4) = numBanksActive (rk s3) /\
      actTicks (rk s4) = actTicks (rk s3) /\ lastBurstTick (rk s4) = lastBurstTick (rk s3) /\ cmd_bus s4 = cmd_bus s3).
    { apply wp_when; intros ?; [apply wp_modify|]; by split_and!. }
    intros [] s4 (E1 & E2 & E3 & E4 & E5). wp_step. wp_step.
    apply prechargeEvent_wp; [rewrite tadd_small by lia; lia|].
    intros s5 F1 F2 F3 F4 F5. apply (HQ pre_at); [lia| |by rewrite F5, E5|by rewrite F5, E5].
    split; [rewrite F1, E1|rewrite F2, E2|rewrite F3, E3|rewrite F4, E4]; cbn.
    + by rewrite Hbs, zinsert_insert, Hv.
    + by rewrite Hna.
    + done.
    + done.
Qed.

Lemma respect_tPPD_same at_ x : rdAllowedAt (respect_tPPD at_ x) = rdAllowedAt x /\
  wrAllowedAt (respect_tPPD at_ x) = wrAllowedAt x /\ actAllowedAt (respect_tPPD at_ x) = actAllowedAt x /\
  openRow (respect_tPPD at_ x) = openRow x /\ bankgr (respect_tPPD at_ x) = bankgr x.
Proof using. done. Qed.

(** A bank whose next activate is not earlier. *)
Lemma window_closed_mono ticks x y :
  actAllowedAt x <= actAllowedAt y -> window_closed ticks x -> window_closed ticks y.
Proof using. unfold window_closed. intros Hle H Hne. specialize (H Hne). lia. Qed.

(** The parts of the invariant that only ask for later and later ticks. *)
Lemma rank_ok_later H H' r r' : H <= H' -> rank_ok H r ->
  zlen (banks r') = zlen (banks r) ->
  (forall (i : Z) x', banks r' !! i = Some x' -> bank_ok H' x' /\
     exists x, banks r !! i = Some x /\ actAllowedAt x <= actAllowedAt x') ->
  numBanksActive r' = lsum is_open (banks r') -> actTicks r' = actTicks r ->
  tick_ok H' (lastBurstTick r') -> rank_ok H' r'.
Proof using.
  intros Hle Hr Hlen Hbk Hac Ht Hlast.
  assert (Hl : forall P : Bank -> Prop, (forall (i : Z) x', banks r' !! i = Some x' -> P x') -> Forall P (banks r')).
  { intros P HP. apply Forall_lookup. intros k x' Hx. apply (HP (Z.of_nat k)). by rewrite zlookup_nat. }
  split; [by rewrite Hlen, (ro_banks _ _ Hr)| |done| | | | |done]; rewrite ?Ht.
  - apply Hl. intros i x' Hx. by destruct (Hbk i x' Hx).
  - apply (ro_acts _ _ Hr).
  - eapply Forall_impl; [|exact (ro_act _ _ Hr)]. intros. by eapply tick_ok_mono.
  - apply Hl. intros i x' Hx. destruct (Hbk i x' Hx) as (_ & x & Hx0 & Hle').
    eapply window_closed_mono; [exact Hle'|]. exact (Forall_zlookup _ _ _ _ (ro_window _ _ Hr) Hx0).
  - apply Hl. intros i x' Hx. destruct (Hbk i x' Hx) as (_ & x & Hx0 & Hle').
    pose proof (Forall_zlookup _ _ _ _ (ro_past _ _ Hr) Hx0) as Hp. cbn in Hp.
    eapply Forall_impl; [|exact Hp]. cbn. lia.
Qed.

Lemma precharged_ok b pre_at auto bk H r r' : room H -> rank_ok H r -> banks r !! b = Some bk ->
  openRow bk <> NO_ROW -> now <= pre_at <= H + 2 * w -> precharged b pre_at auto bk r r' ->
  rank_ok (H + 2 * w + D) r' /\
  exists bk', banks r' !! b = Some bk' /\ openRow bk' = NO_ROW /\ pre_at + tRP c <= actAllowedAt bk'.
Proof using Hcfg.
  intros (HH & Hn & H64 & HD & Hw0) Hr Hb Ho Hat Hpr.
  pose proof (co_tRP Hcfg). pose proof (co_tPPD Hcfg). pose proof (pr_banks _ _ _ _ _ _ Hpr) as Hbs.
  set (g := if auto then id else respect_tPPD pre_at) in Hbs.
  assert (Hg : forall x, bank_ok H x -> bank_ok (H + 2 * w + D) (g x) /\ actAllowedAt (g x) = actAllowedAt x /\ openRow (g x) = openRow x).
  { intros x [B1 B2 B3 B4]. unfold g. destruct auto; (split; [|done]); split; cbn; unfold tick_ok in *; try lia.
    rewrite tadd_small by lia. lia. }
  pose proof (Forall_zlookup _ _ _ _ (ro_bank _ _ Hr) Hb) as [B1 B2 B3 B4].
  assert (actAllowedAt (closed auto pre_at bk) = Z.max (actAllowedAt bk) (pre_at + tRP c)) as Eact
    by (unfold closed; destruct auto; cbn; by rewrite tadd_small by lia).
  assert (Hc : bank_ok (H + 2 * w + D) (closed auto pre_at bk)).
  { split; [| | |rewrite Eact; unfold tick_ok in *; lia]; unfold closed; destruct auto; cbn; unfold tick_ok in *; try lia.
    rewrite tadd_small by lia. lia. }
  assert (openRow (closed auto pre_at bk) = NO_ROW) as Eo by (unfold closed; by destruct auto).
  assert (0 <= b < zlen (g <$> banks r)) as Hrange by (rewrite zlen_fmap; by eapply zlookup_lt).
  split.
  - eapply (rank_ok_later H); [lia|exact Hr| | | |exact (pr_ticks _ _ _ _ _ _ Hpr)|].
    + by rewrite Hbs, zlen_insert, zlen_fmap.
    + intros i x' Hx. rewrite Hbs in Hx. apply zlookup_insert in Hx as [(<- & -> & _)|[Hne Hx]].
      * split; [done|]. exists bk. split; [done|]. rewrite Eact. lia.
      * rewrite zlookup_fmap in Hx. destruct (banks r !! i) as [x|] eqn:E; [|done].
        cbn in Hx. injection Hx as <-. destruct (Hg x (Forall_zlookup _ _ _ _ (ro_bank _ _ Hr) E)) as (G1 & G2 & _).
        split; [done|]. exists x. split; [done|lia].
    + rewrite (pr_active _ _ _ _ _ _ Hpr), (ro_active _ _ Hr), Hbs.
      assert ((g <$> banks r) !! b = Some (g bk)) as Egb by (by rewrite zlookup_fmap, Hb).
      rewrite (lsum_insert is_open _ _ _ _ Egb).
      rewrite (lsum_fmap_same is_open is_open) by (intros x; unfold is_open, g; by destruct auto).
      unfold is_open at 3 4. rewrite Eo. replace (openRow (g bk)) with (openRow bk) by (unfold g; by destruct auto).
      rewrite Z.eqb_refl. destruct (Z.eqb_spec (openRow bk) NO_ROW); [done|lia].
    + rewrite (pr_last _ _ _ _ _ _ Hpr). eapply tick_ok_mono; [|exact (ro_last _ _ Hr)]. lia.
  - exists (closed auto pre_at bk). rewrite Hbs, zlookup_insert_eq by done.
    split; [done|]. split; [done|]. rewrite Eact. lia.
Qed.
Lemma precharged_log b pre_at auto bk r r' acts : precharged b pre_at auto bk r r' -> act_log r acts -> act_log r' acts.
Proof using. intros Hpr [Ht Hg]. split; [|done]. by rewrite (pr_ticks _ _ _ _ _ _ Hpr). Qed.

(** Every bank can be read and written no earlier than in [r]. *)
Definition no_earlier (r r' : Rank) : Prop := forall (i : Z) x', banks r' !! i = Some x' ->
  exists x, banks r !! i = Some x /\ rdAllowedAt x <= rdAllowedAt x' /\ wrAllowedAt x <= wrAllowedAt x'.

Lemma no_earlier_refl r : no_earlier r r.
Proof using. intros i x Hx. exists x. split; [done|lia]. Qed.
Lemma no_earlier_trans r1 r2 r3 : no_earlier r1 r2 -> no_earlier r2 r3 -> no_earlier r1 r3.
Proof using.
  intros H1 H2 i x3 Hx3. destruct (H2 i x3 Hx3) as (x2 & Hx2 & ? & ?).
  destruct (H1 i x2 Hx2) as (x1 & Hx1 & ? & ?). exists x1. split; [done|lia].
Qed.
Lemma precharged_no_earlier b pre_at auto bk r r' : banks r !! b = Some bk ->
  precharged b pre_at auto bk r r' -> no_earlier r r'.
Proof using.
  intros Hb Hpr i x' Hx. rewrite (pr_banks _ _ _ _ _ _ Hpr) in Hx.
  apply zlookup_insert in Hx as [(<- & -> & _)|[_ Hx]].
  - exists bk. split; [done|]. unfold closed. destruct auto; cbn; lia.
  - rewrite zlookup_fmap in Hx. destruct (banks r !! i) as [x|]; [|done]. cbn in Hx. injection Hx as <-.
    exists x. split; [done|]. destruct auto; cbn; lia.
Qed.

Lemma act_bank_col gr ticks at_ x : rdAllowedAt (act_bank gr ticks at_ x) = rdAllowedAt x /\
  wrAllowedAt (act_bank gr ticks at_ x) = wrAllowedAt x.
Proof using.
  unfold act_bank. destruct (windowed_same ticks at_ (enforce_tRRD c gr at_ x)) as (-> & -> & _).
  destruct (enforce_tRRD_same gr at_ x) as (-> & -> & _). done.
Qed.
Lemma activated_no_earlier b rw at_ bk r r' : banks r !! b = Some bk ->
  activated b rw at_ bk r r' -> no_earlier r r'.
Proof using.
  intros Hb Hav i x' Hx. rewrite (activated_banks _ _ _ _ _ _ Hav), zlookup_fmap in Hx.
  destruct (<[b := opened bk rw at_]> (banks r) !! i) as [x|] eqn:E; [|done]. cbn in Hx. injection Hx as <-.
  destruct (act_bank_col (bankgr bk) (at_ :: removelast (actTicks r)) at_ x) as [-> ->].
  apply zlookup_insert in E as [(<- & -> & _)|[_ Hx]].
  - exists bk. split; [done|]. cbn. lia.
  - exists x. split; [done|lia].
Qed.

(** ** The steps of a burst on its rank *)

(** A rank with its bus and the history of its activates. *)
Record rb_ok (H : Z) (acts : list Z) (s : rb) : Prop := {
  rb_rank : rank_ok H (rk s);
  rb_bus : bus_ok (maxCommandsPerWindow c) H (cmd_bus s);
  rb_window : CmdBus.commandWindow (cmd_bus s) = w;
  rb_log : act_log (rk s) acts
}.

Lemma rb_ok_mono H H' acts s : H <= H' -> rb_ok H acts s -> rb_ok H' acts s.
Proof using.
  intros Hle [R1 R2 R3 R4]. split; try done; [by eapply rank_ok_mono; [|exact R1]|by eapply bus_ok_mono; [|exact R2]].
Qed.

(** The history grows by activates that are not in the past. *)
Inductive grown (acts : list Z) : list Z -> Prop :=
| grown_same : grown acts acts
| grown_act at_ : now <= at_ -> grown acts (at_ :: acts).

Lemma room_step H : 0 <= now <= H -> 0 < w -> 0 <= D -> H + 6 * w + 5 * D < 2 ^ 64 -> room H /\ room (H + 2 * w + D).
Proof using. unfold room. lia. Qed.

Lemma open_row_wp p bk H acts s (Q : bool * list Z -> rb -> Prop) x :
  room H -> rb_ok H acts s -> banks (rk s) !! bank p = Some bk -> openRow bk = NO_ROW -> row p <> NO_ROW ->
  (forall at_ s', now <= at_ -> rb_ok (H + 2 * w + D) (at_ :: acts) s' ->
     lastBurstTick (rk s') = lastBurstTick (rk s) -> no_earlier (rk s) (rk s') ->
     (exists bk', banks (rk s') !! bank p = Some bk' /\ openRow bk' = row p /\
        at_ + tRCD c <= rdAllowedAt bk' /\ at_ + tRCD c <= wrAllowedAt bk') -> Q (false, x) s') ->
  wp (bk ← get_bank (bank p); activateBank c now (bank p) (Z.max (actAllowedAt bk) now) (row p);; mret (false, x)) s Q.
Proof using Hcfg.
  intros Hroom [Hr Hbus Hcw Hlog] Hb Ho Hrow HQ. pose proof Hroom as (HH & Hn & H64 & HD & Hw0).
  pose proof (Forall_zlookup _ _ _ _ (ro_bank _ _ Hr) Hb) as [_ _ _ Ba]. unfold tick_ok in Ba.
  wp_step. eapply get_bank_wp; [exact Hb|]. wp_step.
  eapply activateBank_wp; [exact Hroom|done|done|done|exact Hb|done|lia|lia|].
  intros at_ s' Hat Hav Hbus' Hcw'. apply wp_ret.
  destruct (activated_ok (bank p) (row p) at_ bk H (rk s) (rk s') Hroom Hr Hb Ho Hrow ltac:(lia) ltac:(lia) Hav)
    as (Hr' & bk' & Hb' & Ho' & _ & Hrd & Hwr).
  apply (HQ at_); [lia| |exact (av_last _ _ _ _ _ _ Hav)|by eapply activated_no_earlier|by exists bk'].
  split; [done| |done|].
  - eapply bus_ok_mono; [|done]. lia.
  - eapply activated_log; [exact Hr|exact Hb| |exact Hav|done]. lia.
Qed.


(** The row of the packet is open, and a row activated for it can only be read or
    written tRCD later. *)
Definition row_opened (p : MemPacket) (H : Z) (acts : list Z) (last0 : Z) (r0 : Rank) (acts' : list Z) (s' : rb) : Prop :=
  grown acts acts' /\ rb_ok H acts' s' /\ lastBurstTick (rk s') = last0 /\ no_earlier r0 (rk s') /\
  exists bk', banks (rk s') !! bank p = Some bk' /\ openRow bk' = row p /\
    forall at_, acts' = at_ :: acts -> at_ + tRCD c <= rdAllowedAt bk' /\ at_ + tRCD c <= wrAllowedAt bk'.

Lemma open_miss_wp p H H' last0 r0 acts s (x : list Z) : room H -> H + 2 * w + D <= H' ->
  no_earlier r0 (rk s) ->
  rb_ok H acts s -> row p <> NO_ROW -> lastBurstTick (rk s) = last0 ->
  (exists bk, banks (rk s) !! bank p = Some bk /\ openRow bk = NO_ROW) ->
  wp (bk ← get_bank (bank p); activateBank c now (bank p) (Z.max (actAllowedAt bk) now) (row p);; mret (false, x)) s
    (fun _ s' => exists acts', row_opened p H' acts last0 r0 acts' s').
Proof using Hcfg.
  intros Hroom Hle Hne Hok Hrow Hlast (bk & Hb & Ho).
  eapply open_row_wp; [exact Hroom|exact Hok|exact Hb|done|done|].
  intros at_ s' Hat Hok' Hl' Hne' (bk' & Hb' & Ho' & Hrd & Hwr). exists (at_ :: acts).
  split; [by constructor|]. split; [by eapply rb_ok_mono; [|exact Hok']|].
  split; [by rewrite Hl'|]. split; [by eapply no_earlier_trans|]. exists bk'. split; [done|]. split; [done|].
  intros at' E. injection E as <-. done.
Qed.

(** The row of the packet is open afterwards, whatever was open before. *)
Lemma open_page_wp p H acts s : 0 <= now <= H -> 0 < w -> 0 <= D -> H + 6 * w + 5 * D < 2 ^ 64 ->
  rb_ok H acts s -> 0 <= bank p < banksPerRank c -> row p <> NO_ROW ->
  wp (open_page c now p) s (fun _ s' => exists acts',
    row_opened p (H + 4 * w + 2 * D) acts (lastBurstTick (rk s)) (rk s) acts' s').
Proof using Hcfg.
  intros Hn Hw0 HD H64 Hok Hbk Hrow. destruct (room_step H Hn Hw0 HD H64) as [Hroom Hroom'].
  pose proof Hok as [Hr Hbus Hcw Hlog]. destruct (rank_bank H (rk s) _ Hr Hbk) as [bk Hb].
  unfold open_page. wp_step. eapply get_bank_wp; [exact Hb|]. destruct (Z.eqb_spec (openRow bk) (row p)) as [Eo|Eo].
  { apply wp_ret. exists acts. split; [constructor|]. split; [eapply rb_ok_mono; [|exact Hok]; lia|].
    split; [done|]. split; [apply no_earlier_refl|]. exists bk. split; [done|]. split; [done|]. intros at_ E. exfalso.
    apply (f_equal length) in E. cbn in E. lia. }
  wp_step. destruct (Z.eqb_spec (openRow bk) NO_ROW) as [En|En].
  - apply wp_ret. eapply open_miss_wp; [exact Hroom|lia|apply no_earlier_refl|exact Hok|done|done|by exists bk].
  - pose proof (Forall_zlookup _ _ _ _ (ro_bank _ _ Hr) Hb) as [_ _ Bp _]. unfold tick_ok in Bp.
    wp_step. eapply prechargeBank_wp; [exact Hroom|done|done|done|exact Hb|done|lia|].
    intros pre_at x s' Hat Hpr Hbus' Hcw'. apply wp_ret.
    destruct (precharged_ok (bank p) pre_at false bk H _ _ Hroom Hr Hb En ltac:(lia) Hpr) as (Hr' & bk' & Hb' & Ho' & _).
    eapply open_miss_wp; [exact Hroom'|lia|by eapply precharged_no_earlier| |done|exact (pr_last _ _ _ _ _ _ Hpr)|by exists bk'].
    split; [done| |done|by eapply precharged_log]. eapply bus_ok_mono; [|done]. lia.
Qed.

(** The bubble of the defence, when it is exactly 90000 ticks, is made up for
    by an earlier command; [next_burst_at] is past it. *)
Definition bubble (p : MemPacket) : bool := rh_injectDelay p && (rh_bubbleSize p =? 90000).
Definition bubble_ok (p : MemPacket) (next_burst_at : Z) : Prop :=
  bubble p = true -> tCL c + tBURST c <= next_burst_at.
Definition not_before (p : MemPacket) (next_burst_at : Z) : Z :=
  if bubble p then next_burst_at - tCL c - tBURST c else next_burst_at.

Lemma column_at_spec p bk next H : bank_ok H bk -> 0 <= now <= H -> 0 <= next <= H -> H < 2 ^ 64 ->
  bubble_ok p next ->
  column_at c now p bk next <= H /\ now <= column_at c now p bk next /\
  not_before p next <= column_at c now p bk next /\
  (if isRead p then rdAllowedAt bk else wrAllowedAt bk) <= column_at c now p bk next.
Proof using Hcfg.
  intros [B1 B2 _ _] Hn Hx H64 Hbub. unfold bubble_ok, not_before, column_at in *. fold (bubble p).
  pose proof (co_tCL Hcfg). pose proof (co_tBURST Hcfg). unfold tick_ok in *.
  destruct (bubble p); [specialize (Hbub eq_refl); rewrite u64_small by lia|];
    destruct (isRead p); lia.
Qed.

(** Two bursts of one rank are either one interleaved burst apart, or do not
    overlap. *)
Definition interleaved (last0 cmd_at gap : Z) : Prop :=
  if burstInterleave c
  then (cmd_at = last0 + tBURST_MIN c /\ gap = tBURST c) \/ (last0 + tBURST c <= cmd_at /\ gap = tBURST_MIN c)
  else gap = tBURST c.

Lemma issue_column_wp p next H acts s bk : room H -> rb_ok H acts s -> banks (rk s) !! bank p = Some bk ->
  0 <= next <= H -> bubble_ok p next ->
  wp (issue_column c now p next) s (fun '(cmd_at, gap) s' =>
    column_at c now p bk next <= cmd_at <= H + 2 * w + D /\ interleaved (lastBurstTick (rk s)) cmd_at gap /\
    lastBurstTick (rk s') = cmd_at /\
    rb_ok (H + 2 * w + D) acts s' /\ banks (rk s') = banks (rk s)).
Proof using Hcfg.
  intros Hroom Hok Hb Hx Hbub. pose proof Hok as [Hr Hbus Hcw [Hlog Hgap]].
  pose proof Hroom as (HH & Hn & H64 & HD & Hw0).
  destruct (column_at_spec p bk next H (Forall_zlookup _ _ _ _ (ro_bank _ _ Hr) Hb)) as (Hc1 & Hc2 & _); [lia..|done|].
  pose proof (ro_last _ _ Hr) as Hl. unfold tick_ok in Hl. pose proof (co_tBURST Hcfg). pose proof (co_tCK Hcfg).
  unfold issue_column. wp_step. eapply get_bank_wp; [exact Hb|]. wp_step. wp_step. wp_step.
  eapply verifyCmd_wp; [exact Hroom|done|done|lia|intros _; lia|].
  intros at_ bus' Hat Hbus' Hcw'.
  set (last0 := lastBurstTick (rk s)) in *.
  match goal with |- context [if burstInterleave c then ?a else ?b] =>
    assert (exists cmd_at gap, (if burstInterleave c then a else b) = (cmd_at, gap) /\
      at_ <= cmd_at <= H + 2 * w + D /\ interleaved last0 cmd_at gap) as (cmd_at & gap & -> & Hcmd & Hint) end.
  { unfold interleaved. destruct (burstInterleave c) eqn:Ei.
    - rewrite !tadd_small by lia. destruct (Z.eqb_spec at_ (last0 + tBURST_MIN c)).
      { exists at_, (tBURST c). split; [done|]. split; [lia|]. left. lia. }
      destruct (Z.ltb_spec at_ (last0 + tBURST c)).
      + exists (last0 + tBURST c), (tBURST_MIN c). split; [done|]. split; [lia|]. right. lia.
      + exists at_, (tBURST_MIN c). split; [done|]. split; [lia|]. right. lia.
    - exists at_, (tBURST_MIN c). split; [done|]. split; [lia|]. unfold burstInterleave in Ei.
      apply negb_false_iff, Z.eqb_eq in Ei. done. }
  wp_step. apply wp_modify. apply wp_ret.
  split; [lia|]. split; [done|]. split; [done|]. split; [|done].
  split; [|by eapply bus_ok_mono; [|exact Hbus']; lia|done|by split].
  eapply (rank_ok_later H); [lia|exact Hr|done| |exact (ro_active _ _ Hr)|done|cbn; unfold tick_ok; lia].
  intros i x Hi. split; [|by exists x]. eapply bank_ok_mono; [|exact (Forall_zlookup _ _ _ _ (ro_bank _ _ Hr) Hi)]. lia.
Qed.

(** ** The delays a burst imposes *)

Lemma burst_delays_range p gr gap same x : 0 <= D -> tBURST_MIN c <= gap <= tBURST c ->
  D < 2 ^ 60 ->
  tBURST_MIN c <= fst (burst_delays c p gr gap same x) <= 3 * D /\
  tBURST_MIN c <= snd (burst_delays c p gr gap same x) <= 3 * D.
Proof using Hcfg.
  intros HD Hg H60. pose proof (co_tBURST Hcfg) as [? ?]. pose proof (co_same Hcfg) as [? ?].
  pose proof (co_turn Hcfg) as [? ?]. pose proof (co_switch Hcfg) as (? & ? & ?). pose proof (co_tCL Hcfg).
  unfold burst_delays, rankToRankDelay, writeToReadDelay, readToWriteDelay. rewrite !u64_small by lia.
  destruct same; [destruct (_ && _)|]; destruct (isRead p); cbn; lia.
Qed.

Lemma delay_bank_spec H p gr gap cmd_at same x : 0 <= D -> D < 2 ^ 60 -> tBURST_MIN c <= gap <= tBURST c ->
  0 <= cmd_at -> cmd_at + 3 * D < 2 ^ 64 -> bank_ok H x -> 0 <= H ->
  bank_ok (Z.max H (cmd_at + 3 * D)) (delay_bank c p gr gap cmd_at same x) /\
  actAllowedAt (delay_bank c p gr gap cmd_at same x) = actAllowedAt x /\
  openRow (delay_bank c p gr gap cmd_at same x) = openRow x /\
  cmd_at + fst (burst_delays c p gr gap same x) <= rdAllowedAt (delay_bank c p gr gap cmd_at same x) /\
  cmd_at + snd (burst_delays c p gr gap same x) <= wrAllowedAt (delay_bank c p gr gap cmd_at same x).
Proof using Hcfg.
  intros HD H60 Hg Hc H64 [B1 B2 B3 B4] HH. pose proof (burst_delays_range p gr gap same x HD Hg H60) as [Hr1 Hr2].
  pose proof (co_tBURST Hcfg) as [? ?].
  unfold delay_bank. destruct (burst_delays c p gr gap same x) as [d1 d2]. cbn in Hr1, Hr2. unfold tick_ok in *.
  rewrite !tadd_small by lia. split; [split; cbn; unfold tick_ok; lia|]. cbn. lia.
Qed.

(** The new bank of a burst that is read from or written to. *)
Lemma set_same_open H H' acts s (b : Z) bk v : H <= H' -> rb_ok H acts s -> banks (rk s) !! b = Some bk ->
  bank_ok H' v -> actAllowedAt v = actAllowedAt bk -> openRow v = openRow bk ->
  rb_ok H' acts (s <| rk ::= fun r => r <| banks := <[b := v]> (banks (rk s)) |> |>).
Proof using.
  intros Hle [Hr Hbus Hcw [Ht Hg]] Hb Hv Ha Ho. split; [|by eapply bus_ok_mono; [|exact Hbus]|done|by split].
  eapply (rank_ok_later H); [done|exact Hr|cbn; apply zlen_insert| | |done|].
  - intros i x' Hx. cbn in Hx. apply zlookup_insert in Hx as [(<- & -> & _)|[_ Hx]].
    + split; [done|]. exists bk. split; [done|lia].
    + split; [|by exists x'].
      eapply bank_ok_mono; [done|]. exact (Forall_zlookup _ _ _ _ (ro_bank _ _ Hr) Hx).
  - cbn. rewrite (lsum_insert is_open _ _ _ _ Hb). unfold is_open at 2 3. rewrite Ho.
    rewrite (ro_active _ _ Hr). lia.
  - cbn. eapply tick_ok_mono; [done|]. apply (ro_last _ _ Hr).
Qed.

Lemma close_page_wp p cmd_at queue H acts s bk : 0 <= now <= H -> 0 < w -> 0 <= D ->
  H + 6 * w + 6 * D < 2 ^ 64 -> rb_ok H acts s -> banks (rk s) !! bank p = Some bk ->
  openRow bk <> NO_ROW -> 0 <= cmd_at <= H -> 0 <= readyTime p <= H ->
  wp (close_page c now p cmd_at queue) s (fun _ s' =>
    rb_ok (H + 2 * w + 2 * D) acts s' /\ no_earlier (rk s) (rk s')).
Proof using Hcfg.
  intros Hn Hw0 HD H64 Hok Hb Ho Hc Hrt. pose proof (co_tRTP Hcfg). pose proof (co_tWR Hcfg).
  pose proof Hok as [Hr _ _ _]. pose proof (Forall_zlookup _ _ _ _ (ro_bank _ _ Hr) Hb) as [B1 B2 B3 B4].
  unfold close_page. wp_step. eapply get_bank_wp; [exact Hb|].
  match goal with |- context [auto_precharge c p ?v queue] => set (bk' := v) end.
  assert (bank_ok (H + D) bk') as Hbk'.
  { unfold tick_ok in *. split; unfold bk'; cbn; unfold tick_ok; try lia.
    destruct (isRead p); rewrite tadd_small by lia; lia. }
  wp_step. eapply set_bank_wp; [exact Hb|]. wp_step. apply wp_modify.
  match goal with |- wp _ ?st _ => set (s1 := st) end.
  assert (rb_ok (H + D) acts s1) as Hok1.
  { destruct (set_same_open H (H + D) acts s _ bk bk' ltac:(lia) Hok Hb Hbk' eq_refl eq_refl) as [[? ? ? ? ? ? ? ?] ? ? [? ?]].
    split; [split|..]; try done. }
  assert (banks (rk s1) !! bank p = Some bk') as Hb1 by (apply zlookup_insert_eq; by eapply zlookup_lt).
  assert (no_earlier (rk s) (rk s1)) as Hlat.
  { intros i x' Hx. change (banks (rk s1)) with (<[bank p := bk']> (banks (rk s))) in Hx.
    apply zlookup_insert in Hx as [(<- & -> & _)|[_ Hx]]; [exists bk|exists x']; (split; [done|]); cbn; lia. }
  destruct (auto_precharge c p bk' queue).
  - assert (room (H + D)) as Hroom by (unfold room; lia). pose proof Hok1 as [Hr1 Hbus1 Hcw1 Hlog1].
    destruct Hbk' as [_ _ Bp _]. unfold tick_ok in Bp.
    wp_step. eapply prechargeBank_wp; [exact Hroom|done|done|done|exact Hb1|done|lia|].
    intros pre_at x s' Hat Hpr Hbus' Hcw'. apply wp_ret.
    destruct (precharged_ok (bank p) pre_at true bk' (H + D) _ _ Hroom Hr1 Hb1 Ho ltac:(lia) Hpr) as (Hr' & _).
    split; [|eapply no_earlier_trans; [exact Hlat|by eapply precharged_no_earlier]].
    eapply (rb_ok_mono (H + D + 2 * w + D)); [lia|]. split; [done| |done|by eapply precharged_log].
    eapply bus_ok_mono; [|done]. lia.
  - apply wp_ret. split; [|done]. eapply rb_ok_mono; [|exact Hok1]. lia.
Qed.

Lemma track_burst_wp p H acts s : rb_ok H acts s -> now <= readyTime p ->
  wp (track_burst now p) s (fun _ s' => rb_ok H acts s' /\ banks (rk s') = banks (rk s)).
Proof using.
  intros [[? ? ? ? ? ? ? ?] ? ? [? ?]] Hn.
  assert (Hsame : forall s', banks (rk s') = banks (rk s) -> numBanksActive (rk s') = numBanksActive (rk s) ->
    actTicks (rk s') = actTicks (rk s) -> lastBurstTick (rk s') = lastBurstTick (rk s) -> cmd_bus s' = cmd_bus s ->
    rb_ok H acts s' /\ banks (rk s') = banks (rk s)).
  { intros s' E1 E2 E3 E4 E5. split; [|done].
    split; [split|..|split]; rewrite ?E1, ?E2, ?E3, ?E4, ?E5; done. }
  unfold track_burst. destruct (isRead p); [apply wp_modify; by apply Hsame|].
  wp_step. wp_step. wp_step.
  destruct (writeDoneEvent (rk s)) as [z|] eqn:E.
  - apply wp_when; intros ?; [|apply wp_modify; by apply Hsame].
    unfold on_event. wp_step. wp_step. wp_step. wp_step. unfold reschedule. rewrite E.
    destruct (Z.leb_spec now (readyTime p)); [|lia]. cbn [scheduled andb rp].
    apply wp_modify, wp_modify. by apply Hsame.
  - unfold on_event. wp_step. wp_step. wp_step. wp_step. wp_step. unfold schedule. rewrite E.
    destruct (Z.leb_spec now (readyTime p)); [|lia]. cbn [scheduled negb andb rp].
    apply wp_modify, wp_modify, wp_modify. by apply Hsame.
Qed.

(** ** The interface *)

(** A rank that takes a burst: not refreshing, and not in self-refresh. *)
Record awake (H : Z) (r : Rank) : Prop := {
  aw_idle : inRefIdleState r = true;
  aw_low : inLowPowerState r = true ->
    pwrState r <> PWR_SREF /\ wakeUpEvent r = None /\ wakeUpAllowedAt r <= H
}.

Lemma prepare_rank_wp H acts s : 0 <= now <= H -> 0 <= D -> H + D < 2 ^ 64 -> rb_ok H acts s -> awake H (rk s) ->
  wp (prepare_rank c now) s (fun _ s' => rb_ok (H + D) acts s' /\ no_earlier (rk s) (rk s') /\
    lastBurstTick (rk s') = lastBurstTick (rk s)).
Proof using Hcfg.
  intros Hn HD H64 Hok [Hi Hlow]. pose proof (co_tXP Hcfg). unfold prepare_rank. wp_step. wp_step. wp_step.
  apply wp_assert; [done|]. apply wp_when; intros Hl.
  2: { split; [eapply rb_ok_mono; [|exact Hok]; lia|]. split; [apply no_earlier_refl|done]. }
  destruct (Hlow Hl) as (Hs & Hw & Ha). wp_step. apply wp_assert; [by rewrite bool_decide_false|].
  unfold scheduleWakeUpEvent. wp_step. wp_step. wp_step. apply wp_modify. wp_step. unfold on_event.
  set (wake := Z.max now (wakeUpAllowedAt (rk s))).
  wp_step. wp_step. wp_step. wp_step.
  match goal with |- rp (schedule _ ?e _) _ => replace e with (@None Z) by (cbn; destruct (decide (refreshState (rk s) = REF_PD_EXIT)); done) end.
  unfold schedule. destruct (Z.leb_spec now wake); [|lia]. cbn [scheduled negb andb rp].
  apply wp_modify. wp_step. apply wp_modify. wp_step. apply wp_modify.
  assert (Hfin : forall s', banks (rk s') = push_exit (tadd wake (tXP c)) <$> banks (rk s) ->
    numBanksActive (rk s') = numBanksActive (rk s) -> actTicks (rk s') = actTicks (rk s) ->
    lastBurstTick (rk s') = lastBurstTick (rk s) -> cmd_bus s' = cmd_bus s ->
    rb_ok (H + D) acts s' /\ no_earlier (rk s) (rk s') /\ lastBurstTick (rk s') = lastBurstTick (rk s)).
  { intros s' E1 E2 E3 E4 E5. pose proof Hok as [Hr Hbus Hcw [Ht Hg]]. rewrite tadd_small in E1 by lia.
    split; [|split; [|done]].
    - split; [|rewrite E5; by eapply bus_ok_mono; [|exact Hbus]; lia|by rewrite E5|split; [by rewrite E3|done]].
      eapply (rank_ok_later H); [lia|exact Hr|by rewrite E1, zlen_fmap| |
        |done|rewrite E4; eapply tick_ok_mono; [|exact (ro_last _ _ Hr)]; lia].
      + intros i x' Hx. rewrite E1, zlookup_fmap in Hx. destruct (banks (rk s) !! i) as [x|] eqn:E; [|done].
        cbn in Hx. injection Hx as <-. destruct (Forall_zlookup _ _ _ _ (ro_bank _ _ Hr) E) as [B1 B2 B3 B4].
        unfold tick_ok in *. split; [split; cbn; unfold tick_ok; lia|]. exists x. split; [done|]. cbn. lia.
      + rewrite E2, E1, (lsum_fmap_same is_open is_open) by done. apply (ro_active _ _ Hr).
    - intros i x' Hx. rewrite E1, zlookup_fmap in Hx. destruct (banks (rk s) !! i) as [x|] eqn:E; [|done].
      cbn in Hx. injection Hx as <-. exists x. split; [done|]. cbn. lia. }
  destruct (decide (refreshState (rk s) = REF_PD_EXIT)) as [Hpd|Hpd];
    destruct (pwrStateTrans (rk s)); apply Hfin; cbn; by rewrite ?decide_True, ?decide_False by done.
Qed.

Definition upd_acts (acts : Z -> list Z) (j : Z) (l : list Z) : Z -> list Z :=
  fun k => if k =? j then l else acts k.

Record iface_ok (H : Z) (acts : Z -> list Z) (s : t) : Prop := {
  if_rank : forall (j : Z) r, ranks s !! j = Some r -> rank_ok H r /\ act_log r (acts j);
  if_bus : bus_ok (maxCommandsPerWindow c) H (bus s);
  if_window : CmdBus.commandWindow (bus s) = w
}.

Lemma iface_rb H acts s (j : Z) r : iface_ok H acts s -> ranks s !! j = Some r -> rb_ok H (acts j) (mkRB r (bus s)).
Proof using. intros [Hr Hb Hw] Hj. destruct (Hr j r Hj). by split. Qed.

(** An operation of one rank, at the interface. *)
Lemma on_rb_wp {A} j (m : comp rb A) s (Q : A -> t -> Prop) H H' acts r :
  iface_ok H acts s -> ranks s !! j = Some r -> H <= H' ->
  wp m (mkRB r (bus s)) (fun a s1 => exists acts', rb_ok H' acts' s1 /\
    forall s', iface_ok H' (upd_acts acts j acts') s' -> ranks s' = <[j := rk s1]> (ranks s) ->
      stats s' = stats s -> Q a s') ->
  wp (on_rb j m) s Q.
Proof using.
  intros [Hr Hb Hw] Hj Hle Hm. unfold wp, on_rb in *. unfold aread. rewrite Hj.
  destruct (m (mkRB r (bus s))) as [[a s1]|]; [|done]. destruct Hm as (acts' & [R1 R2 R3 R4] & HQ).
  apply HQ; [|done|done]. split; [|done|done]. intros k r' Hk. cbn in Hk. unfold upd_acts.
  apply zlookup_insert in Hk as [(<- & -> & _)|[Hne Hk]].
  - rewrite Z.eqb_refl. done.
  - destruct (Z.eqb_spec k j); [lia|]. destruct (Hr k r' Hk). split; [by eapply rank_ok_mono|done].
Qed.

Lemma zlookup_imap {A B} (f : nat -> A -> B) (l : list A) (i : Z) :
  imap f l !! i = f (Z.to_nat i) <$> l !! i.
Proof using. unfold lookup, zlist_lookup. destruct (i <? 0); [done|]. apply list_lookup_imap. Qed.

Definition later (s s' : t) : Prop := forall (j : Z) r', ranks s' !! j = Some r' ->
  exists r, ranks s !! j = Some r /\ no_earlier r r'.
Lemma later_trans s1 s2 s3 : later s1 s2 -> later s2 s3 -> later s1 s3.
Proof using.
  intros H1 H2 j r3 Hr3. destruct (H2 j r3 Hr3) as (r2 & Hr2 & ?). destruct (H1 j r2 Hr2) as (r1 & Hr1 & ?).
  exists r1. split; [done|by eapply no_earlier_trans].
Qed.
Lemma later_set s s' (j : Z) r r' : ranks s !! j = Some r -> ranks s' = <[j := r']> (ranks s) ->
  no_earlier r r' -> later s s'.
Proof using.
  intros Hj E Hne k r1 Hk. rewrite E in Hk. apply zlookup_insert in Hk as [(<- & -> & _)|[_ Hk]].
  - by exists r.
  - exists r1. split; [done|apply no_earlier_refl].
Qed.

(** No column command of any bank before [x]. *)
Definition col_free (s : t) (x : Z) : Prop := forall (j : Z) r (i : Z) bk,
  ranks s !! j = Some r -> banks r !! i = Some bk -> x <= rdAllowedAt bk /\ x <= wrAllowedAt bk.
Lemma col_free_later s s' x : col_free s x -> later s s' -> col_free s' x.
Proof using.
  intros Hf Hl j r' i bk' Hj Hi. destruct (Hl j r' Hj) as (r & Hr & Hne).
  destruct (Hne i bk' Hi) as (bk & Hbk & ? & ?). destruct (Hf j r i bk Hr Hbk). lia.
Qed.

(** The bursts of the interface, the latest first, and what they leave free. *)
Record burst_log (s : t) (bursts : list Z) : Prop := {
  bl_head : forall x, head bursts = Some x -> col_free s (x + tBURST_MIN c);
  bl_gap : forall (i : nat) x y, bursts !! i = Some x -> bursts !! S i = Some y -> y + tBURST_MIN c <= x
}.

Lemma interleaved_gap last0 cmd_at gap : interleaved last0 cmd_at gap -> tBURST_MIN c <= gap <= tBURST c.
Proof using Hcfg.
  pose proof (co_tBURST Hcfg). unfold interleaved. destruct (burstInterleave c); [intros [[_ ->]|[_ ->]]|intros ->]; lia.
Qed.

Lemma delay_ranks_ok p gr gap cmd_at H acts s k : 0 <= D -> D < 2 ^ 60 -> tBURST_MIN c <= gap <= tBURST c ->
  0 <= cmd_at <= H -> H + 3 * D < 2 ^ 64 -> iface_ok H acts s ->
  let s' := s <| ranks ::= delay_ranks c p gr gap cmd_at |> <| activeRank := k |> in
  iface_ok (H + 3 * D) acts s' /\ later s s' /\ col_free s' (cmd_at + tBURST_MIN c) /\
  (forall (j : Z) r, ranks s !! j = Some r -> ranks s' !! j = Some (r <| banks ::= fmap (delay_bank c p gr gap cmd_at (rank p =? j)) |>)).
Proof using Hcfg.
  intros HD H60 Hg Hc H64 [Hr Hb Hw]. cbv zeta.
  assert (Hlk : forall (j : Z) r', delay_ranks c p gr gap cmd_at (ranks s) !! j = Some r' ->
    exists r, ranks s !! j = Some r /\ r' = r <| banks ::= fmap (delay_bank c p gr gap cmd_at (rank p =? j)) |>).
  { intros j r' Hj. unfold delay_ranks in Hj. rewrite zlookup_imap in Hj.
    destruct (ranks s !! j) as [r|] eqn:E; [|done]. cbn in Hj. injection Hj as <-. exists r. split; [done|].
    pose proof (zlookup_lt _ _ _ E). by rewrite Z2Nat.id by lia. }
  pose proof (fun x same => delay_bank_spec H p gr gap cmd_at same x HD H60 Hg ltac:(lia) ltac:(lia)) as Hspec.
  pose proof (fun x same => burst_delays_range p gr gap same x HD Hg H60) as Hrange.
  pose proof (co_tBURST Hcfg) as [? ?].
  split; [split|split; [|split]].
  - intros j r' Hj. destruct (Hlk j r' Hj) as (r & Er & ->). destruct (Hr j r Er) as [Hok [Ht Hgp]].
    split; [|by split].
    eapply (rank_ok_later H); [lia|exact Hok|cbn; apply zlen_fmap| | |done|cbn; eapply tick_ok_mono; [|exact (ro_last _ _ Hok)]; lia].
    + intros i x' Hx. cbn in Hx. rewrite zlookup_fmap in Hx. destruct (banks r !! i) as [x|] eqn:E; [|done].
      cbn in Hx. injection Hx as <-. destruct (Hspec x (rank p =? j) (Forall_zlookup _ _ _ _ (ro_bank _ _ Hok) E)) as (S1 & S2 & _); [lia|].
      split; [eapply bank_ok_mono; [|exact S1]; lia|]. exists x. split; [done|lia].
    + cbn. rewrite (lsum_fmap_same is_open is_open); [apply (ro_active _ _ Hok)|].
      intros x. unfold is_open, delay_bank. by destruct (burst_delays _ _ _ _ _ _).
  - cbn. eapply bus_ok_mono; [|done]. lia.
  - done.
  - intros j r' Hj. destruct (Hlk j r' Hj) as (r & Er & ->). exists r. split; [done|].
    intros i x' Hx. cbn in Hx. rewrite zlookup_fmap in Hx. destruct (banks r !! i) as [x|] eqn:E; [|done].
    cbn in Hx. injection Hx as <-. exists x. split; [done|]. unfold delay_bank.
    destruct (burst_delays _ _ _ _ _ _). cbn. lia.
  - intros j r' i x' Hj Hx. destruct (Hlk j r' Hj) as (r & Er & ->). destruct (Hr j r Er) as [Hok _].
    cbn in Hx. rewrite zlookup_fmap in Hx. destruct (banks r !! i) as [x|] eqn:E; [|done].
    cbn in Hx. injection Hx as <-.
    destruct (Hspec x (rank p =? j) (Forall_zlookup _ _ _ _ (ro_bank _ _ Hok) E)) as (_ & _ & _ & S4 & S5); [lia|].
    destruct (Hrange x (rank p =? j)). lia.
  - intros j r Er. cbn. unfold delay_ranks. rewrite zlookup_imap, Er. cbn.
    pose proof (zlookup_lt _ _ _ Er). by rewrite Z2Nat.id by lia.
Qed.

(** ** The burst *)

(** A burst the controller may ask for. *)
Record burst_ready (H : Z) (acts : Z -> list Z) (s : t) (p : MemPacket) (next_burst_at : Z) : Prop := {
  br_iface : iface_ok H acts s;
  br_now : 0 <= now <= H;
  br_room : 0 < w /\ 0 <= D < 2 ^ 60 /\ H + 16 * w + 16 * D < 2 ^ 64;
  br_rank : exists r, ranks s !! rank p = Some r /\ awake H r;
  br_bank : 0 <= bank p < banksPerRank c;
  br_row : row p <> NO_ROW;
  br_stats : (exists x, perBankRdBursts (stats s) !! bankId p = Some x) /\
             (exists x, perBankWrBursts (stats s) !! bankId p = Some x);
  br_next : 0 <= next_burst_at <= H;
  br_bubble : bubble_ok p next_burst_at
}.

Lemma count_burst_ok p row_hit cmd_at samples st :
  (exists x, perBankRdBursts st !! bankId p = Some x) -> (exists x, perBankWrBursts st !! bankId p = Some x) ->
  exists st', count_burst c p row_hit cmd_at samples st = Ok st'.
Proof using.
  intros [x Hx] [y Hy]. unfold count_burst.
  assert (Hb : forall l z, l !! bankId p = Some z -> exists l', bump_bank l (bankId p) = Ok l').
  { intros l z Hz. unfold bump_bank, aread, awrite. rewrite Hz. cbn. apply zlookup_lt in Hz.
    destruct (Z.leb_spec 0 (bankId p)), (Z.ltb_spec (bankId p) (zlen l)); try lia. by eexists. }
  destruct (isRead p).
  - destruct (Hb _ _ Hx) as [l Hl]. cbn [perBankRdBursts over]. rewrite Hl. by eexists.
  - destruct (Hb _ _ Hy) as [l Hl]. cbn [perBankWrBursts over]. rewrite Hl. by eexists.
Qed.

Lemma finish_burst_wp p cmd_at queue row_hit samples H acts s r bk : 0 <= now <= H -> 0 < w -> 0 <= D ->
  H + 6 * w + 6 * D < 2 ^ 64 -> iface_ok H acts s -> ranks s !! rank p = Some r ->
  banks r !! bank p = Some bk -> openRow bk <> NO_ROW -> 0 <= cmd_at <= H -> now <= readyTime p <= H ->
  (exists x, perBankRdBursts (stats s) !! bankId p = Some x) -> (exists x, perBankWrBursts (stats s) !! bankId p = Some x) ->
  wp (finish_burst c now p cmd_at queue row_hit samples) s (fun _ s' => exists acts', (forall j, acts' j = acts j) /\
    iface_ok (H + 2 * w + 2 * D) acts' s' /\ later s s').
Proof using Hcfg.
  intros Hn Hw0 HD H64 Hif Hj Hb Ho Hc Hrt Hst1 Hst2. unfold finish_burst.
  pose proof (iface_rb _ _ _ _ _ Hif Hj) as Hrb.
  wp_step. eapply (on_rb_wp _ _ _ _ H (H + 2 * w + 2 * D)); [exact Hif|exact Hj|lia|].
  eapply wp_mono; [eapply close_page_wp; try done; lia|].
  intros samples' s1 [Hok1 Hne1]. exists (acts (rank p)). split; [done|]. intros s2 Hif2 Hr2 Hs2.
  assert (ranks s2 !! rank p = Some (rk s1)) as Hj2 by (rewrite Hr2; apply zlookup_insert_eq; by eapply zlookup_lt).
  pose proof (iface_rb _ _ _ _ _ Hif2 Hj2) as Hrb2.
  wp_step. eapply (on_rb_wp _ _ _ _ (H + 2 * w + 2 * D) (H + 2 * w + 2 * D)); [exact Hif2|exact Hj2|lia|].
  eapply wp_mono; [eapply track_burst_wp; [exact Hrb2|lia]|].
  intros [] s3 [Hok3 Hbk3]. eexists. split; [exact Hok3|]. intros s4 Hif4 Hr4 Hs4.
  wp_step. wp_step. wp_step. wp_step. rewrite Hs4, Hs2.
  destruct (count_burst_ok p row_hit cmd_at (samples ++ samples') _ Hst1 Hst2) as [st ->].
  apply wp_modify. eexists. split; [|split; [by destruct Hif4|]].
  - intros k. unfold upd_acts. destruct (Z.eqb_spec k (rank p)) as [->|]; [by rewrite Z.eqb_refl|done].
  - eapply (later_trans _ s2); [by eapply later_set|].
    eapply (later_set s2 _ _ _ (rk s3)); [exact Hj2|exact Hr4|].
    intros i x' Hx. rewrite Hbk3 in Hx. by apply no_earlier_refl.
Qed.

Lemma grown_upd acts (j : Z) l k : grown (acts j) l -> grown (acts k) (upd_acts acts j l k).
Proof using. unfold upd_acts. destruct (Z.eqb_spec k j) as [->|]; [done|constructor]. Qed.

(** The first half of a burst: the rank is awake and the row open. *)
Lemma open_stage_wp {A} H acts s p next (k : bool * list Z -> comp t A) (Q : A -> t -> Prop) :
  burst_ready H acts s p next ->
  (forall a s4 r4 acts4 bk4, iface_ok (H + 4 * w + 3 * D) acts4 s4 -> ranks s4 !! rank p = Some r4 ->
     later s s4 -> stats s4 = stats s -> (forall j, grown (acts j) (acts4 j)) ->
     banks r4 !! bank p = Some bk4 -> openRow bk4 = row p ->
     (forall at_, acts4 (rank p) = at_ :: acts (rank p) -> at_ + tRCD c <= rdAllowedAt bk4 /\ at_ + tRCD c <= wrAllowedAt bk4) ->
     wp (k a) s4 Q) ->
  wp (on_rb (rank p) (prepare_rank c now);; a ← on_rb (rank p) (open_page c now p); k a) s Q.
Proof using Hcfg.
  intros [Hif Hn (Hw0 & HD & H64) (r & Hj & Haw) Hbk Hrow _ _ _] HQ.
  pose proof (iface_rb _ _ _ _ _ Hif Hj) as Hrb.
  wp_step. eapply (on_rb_wp _ _ _ _ H (H + D)); [exact Hif|exact Hj|lia|].
  eapply wp_mono; [eapply prepare_rank_wp; try done; lia|].
  intros [] s1 (Hok1 & Hne1 & Hl1). exists (acts (rank p)). split; [done|]. intros s2 Hif2 Hr2 Hs2.
  set (acts2 := upd_acts acts (rank p) (acts (rank p))) in *.
  assert (acts2 (rank p) = acts (rank p)) as Ha2 by (unfold acts2, upd_acts; by rewrite Z.eqb_refl).
  assert (ranks s2 !! rank p = Some (rk s1)) as Hj2 by (rewrite Hr2; apply zlookup_insert_eq; by eapply zlookup_lt).
  assert (later s s2) as Hlat2 by (by eapply later_set).
  pose proof (iface_rb _ _ _ _ _ Hif2 Hj2) as Hrb2. rewrite Ha2 in Hrb2.
  wp_step. eapply (on_rb_wp _ _ _ _ (H + D) (H + D + 4 * w + 2 * D)); [exact Hif2|exact Hj2|lia|].
  eapply wp_mono; [eapply (open_page_wp p (H + D)); [lia|lia|lia|lia|exact Hrb2|done|done]|].
  intros a s3 (acts3 & Hgr3 & Hok3 & Hl3 & Hne3 & bk3 & Hb3 & Ho3 & Hrcd).
  exists acts3. split; [done|]. intros s4 Hif4 Hr4 Hs4.
  assert (upd_acts acts2 (rank p) acts3 (rank p) = acts3) as Ha4 by (unfold upd_acts; by rewrite Z.eqb_refl).
  apply (HQ a s4 (rk s3) (upd_acts acts2 (rank p) acts3) bk3).
  - by replace (H + 4 * w + 3 * D) with (H + D + 4 * w + 2 * D) by lia.
  - rewrite Hr4. apply zlookup_insert_eq. by eapply zlookup_lt.
  - eapply later_trans; [exact Hlat2|by eapply later_set].
  - by rewrite Hs4.
  - intros j. unfold acts2, upd_acts. destruct (Z.eqb_spec j (rank p)) as [->|]; [done|constructor].
  - done.
  - done.
  - rewrite Ha4. done.
Qed.

(** What a burst has done when its column command has gone out at [cmd_at]. *)
Record burst_done (H : Z) (acts acts' : Z -> list Z) (bursts : list Z) (s s' : t) (p : MemPacket)
    (next cmd_at gap : Z) : Prop := {
  bd_now : now <= cmd_at;
  bd_bus : not_before p next <= cmd_at;
  bd_gap : tBURST_MIN c <= gap <= tBURST c;
  bd_bank : forall r bk, ranks s !! rank p = Some r -> banks r !! bank p = Some bk ->
     (if isRead p then rdAllowedAt bk else wrAllowedAt bk) <= cmd_at;
  bd_rcd : forall at_, acts' (rank p) = at_ :: acts (rank p) -> at_ + tRCD c <= cmd_at;
  bd_acts : forall j, grown (acts j) (acts' j);
  bd_ok : iface_ok (H + 8 * w + 9 * D) acts' s';
  bd_log : burst_log s' (cmd_at :: bursts)
}.

Lemma doBurstAccess_wp H acts bursts s p next queue :
  burst_ready H acts s p next -> burst_log s bursts ->
  wp (doBurstAccess c now p next queue) s (fun a s' => exists cmd_at gap acts',
    a = (p <| readyTime := cmd_at + tCL c + tBURST c |>, (cmd_at, cmd_at + gap)) /\
    burst_done H acts acts' bursts s s' p next cmd_at gap).
Proof using Hcfg.
  intros Hready [Hhead Hgap]. pose proof Hready as [Hif Hn (Hw0 & HD & H64) _ _ Hrow (Hst1 & Hst2) Hx Hbub].
  pose proof (co_tCL Hcfg). pose proof (co_tBURST Hcfg) as [? ?].
  unfold doBurstAccess. eapply open_stage_wp; [exact Hready|].
  intros [row_hit samples] s4 r4 acts4 bk4 Hif4 Hj4 Hlat4 Hs4 Hgr4 Hb4 Ho4 Hrcd.
  pose proof (iface_rb _ _ _ _ _ Hif4 Hj4) as Hrb4. set (H4 := H + 4 * w + 3 * D) in *.
  assert (room H4) as Hroom by (unfold room; lia).
  wp_step. eapply (on_rb_wp _ _ _ _ H4 (H4 + 2 * w + D)); [exact Hif4|exact Hj4|lia|].
  eapply wp_mono; [eapply issue_column_wp; [exact Hroom|exact Hrb4|exact Hb4|lia|exact Hbub]|].
  intros [cmd_at gap] s5 (Hcmd & Hint & Hl5 & Hok5 & Hbk5). cbn [rk] in Hbk5. exists (acts4 (rank p)). split; [done|].
  intros s6 Hif6 Hr6 Hs6. set (acts6 := upd_acts acts4 (rank p) (acts4 (rank p))) in *.
  assert (Ha6 : forall j, acts6 j = acts4 j) by (intros j; unfold acts6, upd_acts; by destruct (Z.eqb_spec j (rank p)) as [->|]).
  pose proof Hrb4 as [Hr4 _ _ _]. pose proof (Forall_zlookup _ _ _ _ (ro_bank _ _ Hr4) Hb4) as Hbk4.
  destruct (column_at_spec p bk4 next H4 Hbk4) as (_ & Hc2 & Hc3 & Hc4); [lia..|exact Hbub|].
  pose proof (interleaved_gap _ _ _ Hint) as Hg.
  assert (ranks s6 !! rank p = Some (rk s5)) as Hj6 by (rewrite Hr6; apply zlookup_insert_eq; by eapply zlookup_lt).
  rewrite (tadd_small cmd_at (tCL c)), tadd_small by lia.
  set (p' := p <| readyTime := cmd_at + tCL c + tBURST c |>).
  wp_step. eapply (on_rb_wp _ _ _ _ (H4 + 2 * w + D) (H4 + 2 * w + D)); [exact Hif6|exact Hj6|lia|].
  eapply get_bank_wp; [cbn [rk]; rewrite Hbk5; exact Hb4|]. exists (acts6 (rank p)).
  split; [exact (iface_rb _ _ _ _ _ Hif6 Hj6)|]. intros s7 Hif7 Hr7 Hs7. cbn [rk] in Hr7.
  set (acts7 := upd_acts acts6 (rank p) (acts6 (rank p))) in *.
  assert (Ha7 : forall j, acts7 j = acts4 j) by (intros j; unfold acts7, upd_acts; destruct (Z.eqb_spec j (rank p)) as [->|]; apply Ha6).
  assert (ranks s7 !! rank p = Some (rk s5)) as Hj7 by (rewrite Hr7; apply zlookup_insert_eq; by eapply zlookup_lt).
  assert (later s s7) as Hlat7.
  { eapply later_trans; [exact Hlat4|]. eapply (later_trans _ s6); eapply later_set;
      [exact Hj4|exact Hr6| |exact Hj6|exact Hr7|apply no_earlier_refl].
    intros i x Hi. rewrite Hbk5 in Hi. by apply no_earlier_refl. }
  wp_step. apply wp_modify.
  destruct (delay_ranks_ok p' (bankgr bk4) gap cmd_at (H4 + 2 * w + D) acts7 s7 (rank p)) as (Hif8 & Hlat8 & Hfree8 & Hlook8);
    [lia|lia|lia|lia|lia|exact Hif7|].
  specialize (Hlook8 _ _ Hj7).
  change (rank p') with (rank p). set (s8 := s7 <| ranks ::= _ |> <| activeRank := _ |>) in *.
  wp_step. eapply wp_mono; [eapply (finish_burst_wp p' cmd_at queue row_hit samples (H4 + 2 * w + D + 3 * D) acts7 s8);
    [lia|lia|lia|lia|exact Hif8|exact Hlook8| | |lia|cbn; lia| | ]|].
  - cbn [banks over]. cbn. rewrite zlookup_fmap, Hbk5, Hb4. reflexivity.
  - replace (openRow _) with (openRow bk4); [by rewrite Ho4|]. unfold delay_bank. by destruct (burst_delays _ _ _ _ _ _).
  - change (stats s8) with (stats s7). by rewrite Hs7, Hs6, Hs4.
  - change (stats s8) with (stats s7). by rewrite Hs7, Hs6, Hs4.
  - intros [] s9 (acts9 & Ha9 & Hif9 & Hlat9). apply wp_ret. exists cmd_at, gap, acts9.
    rewrite tadd_small by lia. split; [done|].
    assert (Hcol : forall r bk, ranks s !! rank p = Some r -> banks r !! bank p = Some bk ->
      (if isRead p then rdAllowedAt bk else wrAllowedAt bk) <= cmd_at).
    { intros r bk Er Eb. destruct (Hlat4 _ _ Hj4) as (r' & Er' & Hne'). rewrite Er in Er'. injection Er' as <-.
      destruct (Hne' _ _ Hb4) as (bk' & Eb' & ? & ?). rewrite Eb in Eb'. injection Eb' as <-. destruct (isRead p); lia. }
    split; try done; try lia.
    + intros at_ E. rewrite Ha9, Ha7 in E. destruct (Hrcd at_ E). destruct (isRead p); lia.
    + intros j. rewrite Ha9, Ha7. apply Hgr4.
    + by replace (H + 8 * w + 9 * D) with (H4 + 2 * w + D + 3 * D + 2 * w + 2 * D) by lia.
    + split; [intros x [= <-]; by eapply col_free_later|].
      intros [|i] x y Hx' Hy; [|by apply (Hgap i)]. injection Hx' as <-. cbn in Hy.
      destruct (Hlat4 _ _ Hj4) as (r' & Er' & Hne'). destruct (Hne' _ _ Hb4) as (bk' & Eb' & _).
      destruct bursts as [|y' bursts']; [done|]. injection Hy as <-.
      destruct (Hhead y' eq_refl _ _ _ _ Er' Eb'). specialize (Hcol _ _ Er' Eb'). destruct (isRead p); lia.
Qed.

(** C31. doBurstAccess never fails for a rank that is ready: it returns the packet
    with its ready time, and the column command goes out no earlier than now, than
    the bus allows (up to the bubble the defence makes up for), than the bank
    allows, and tRCD after the activate it needed.  The activates of every rank
    still respect the activation window, and the burst is at least tBURST_MIN after
    every earlier burst of the interface. *)
Theorem doBurstAccess_timing H acts bursts s p next_burst_at queue :
  burst_ready H acts s p next_burst_at -> burst_log s bursts ->
  exists cmd_at gap acts' s',
    doBurstAccess c now p next_burst_at queue s
      = Ok ((p <| readyTime := cmd_at + tCL c + tBURST c |>, (cmd_at, cmd_at + gap)), s') /\
    burst_done H acts acts' bursts s s' p next_burst_at cmd_at gap.
Proof using Hcfg.
  intros Hready Hlog.
  destruct (wp_inv _ _ _ (doBurstAccess_wp H acts bursts s p next_burst_at queue Hready Hlog))
    as (a & s' & E & cmd_at & gap & acts' & -> & Hdone).
  by exists cmd_at, gap, acts', s'.
Qed.
End Rank_timing.

(** ** A fresh interface *)

(** The ranks the constructor makes satisfy the invariant, with empty histories. *)
Lemma fresh_ok c w H b : 0 <= H -> 0 < activationLimit c -> 0 < banksPerRank c ->
  bus_ok (maxCommandsPerWindow c) H b -> CmdBus.commandWindow b = w ->
  let s := mkDRAM (new_Rank c <$> seqZ 0 (ranksPerChannel c)) 0 (stats0 c) b in
  iface_ok c w H (fun _ => []) s /\ burst_log c s [].
Proof.
  intros HH Hl Hb Hbus Hw s. split; [split; [|done|done]|by split].
  intros j r Hj. cbn in Hj. rewrite zlookup_fmap in Hj.
  destruct (seqZ 0 (ranksPerChannel c) !! j) as [n|] eqn:E; [|done]. cbn in Hj. injection Hj as <-.
  assert (Hbk : forall P : Bank -> Prop, (forall n, P (new_Bank c n)) -> Forall P (banks (new_Rank c n))).
  { intros P HP. apply Forall_fmap. apply Forall_true. intros x. apply HP. }
  assert (Hlast : forall k, last (replicate k 0) 0 = 0) by (induction k as [|[|k] IH]; [done|done|exact IH]).
  split; [split|split].
  - cbn. unfold zlen. rewrite length_fmap, length_seqZ. lia.
  - apply Hbk. intros k. split; cbn; unfold tick_ok; lia.
  - cbn [numBanksActive new_Rank banks]. induction (seqZ 0 (banksPerRank c)) as [|x l IH]; [done|].
    rewrite fmap_cons. cbn [lsum]. rewrite <- IH. done.
  - cbn. apply zlen_calloc. lia.
  - cbn. unfold calloc. apply Forall_replicate. unfold tick_ok. lia.
  - apply Hbk. intros k Hne. exfalso. apply Hne. apply Hlast.
  - apply Hbk. intros k. cbn. apply Forall_replicate. lia.
  - cbn. unfold tick_ok. lia.
  - cbn. unfold limit, calloc. rewrite take_ge; [done|by rewrite length_replicate].
  - done.
Qed.

Lemma small_cfg : cfg_ok small 200.
Proof. split; cbn; lia. Qed.

Lemma doBurstAccess_timing_witness : exists cmd_at gap acts' s',
  doBurstAccess small 10 (small_packet true 1 2 5) 40 [] small_dram
    = Ok (((small_packet true 1 2 5) <| readyTime := cmd_at + 12 + 8 |>, (cmd_at, cmd_at + gap)), s') /\
  burst_done small 10 4 200 100 (fun _ => []) acts' [] small_dram s' (small_packet true 1 2 5) 40 cmd_at gap.
Proof.
  assert (bus_ok 2 100 (CmdBus.mkBus [] 4)) as Hbus by (split; cbn; [lia|lia|intros x; cbn; lia]).
  destruct (fresh_ok small 4 100 (CmdBus.mkBus [] 4) ltac:(lia) ltac:(cbn; lia) ltac:(cbn; lia) Hbus eq_refl) as [Hok Hlog].
  destruct (doBurstAccess_timing small 10 4 200 small_cfg 100 (fun _ => []) [] small_dram (small_packet true 1 2 5) 40 [])
    as (cmd_at & gap & acts' & s' & E & Hdone).
  - split; [exact Hok|lia|lia| |cbn; lia|cbn; unfold NO_ROW; lia| |lia|intros E; discriminate E].
    + eexists. split; [reflexivity|]. split; [reflexivity|intros E; discriminate E].
    + split; eexists; reflexivity.
  - exact Hlog.
  - exists cmd_at, gap, acts', s'. split; [exact E|exact Hdone].
Defined.
(** The activate goes out at 10, the read tRCD later at the earliest, and at 40 since
    the bus is taken until then. *)
Example small_burst : exists s', doBurstAccess small 10 (small_packet true 1 2 5) 40 [] small_dram
  = Ok (((small_packet true 1 2 5) <| readyTime := 60 |>, (40, 48)), s').
Proof. eexists. vm_compute. reflexivity. Qed.
End Timing.
