(* ===== verification/DramSched.v ===== *)
(** First-ready, first-come first-served scheduling over the banks of the DRAM
    interface ([minBankPrep] and [chooseNextFRFCFS] of [mem/mem_interface.cc]). *)
From S2P Require Import Prelude CmdBus Packet Dram.
Import DRAMInterface.

Module Sched.

Section Scheduling.
Context (c : Config) (now : Z) (v : CtrlView) (rs : list Rank).

(** The geometry: at most 32 banks of every rank, numbered as decodePacket does. *)
Record geometry : Prop := {
  ge_banks : 0 < banksPerRank c <= 32;
  ge_ids : ranksPerChannel c * banksPerRank c <= 2 ^ 16;
  ge_ranks : zlen rs = ranksPerChannel c;
  ge_rank : forall (i : Z) r, rs !! i = Some r -> zlen (banks r) = banksPerRank c;
  ge_ticks : forall (i : Z) r (j : Z) b, rs !! i = Some r -> banks r !! j = Some b ->
     0 <= actAllowedAt b <= MaxTick;
  ge_now : 0 <= now <= MaxTick
}.
Hypothesis Hgeo : geometry.

Record decoded (p : MemPacket) : Prop := {
  de_rank : 0 <= rank p < ranksPerChannel c;
  de_bank : 0 <= bank p < banksPerRank c;
  de_id : bankId p = rank p * banksPerRank c + bank p
}.

(** A DRAM packet whose rank is not refreshing. *)
Definition ready (p : MemPacket) : Prop :=
  isDram p = true /\ exists r, rs !! rank p = Some r /\ inRefIdleState r = true.

Lemma decoded_bank p : decoded p -> exists r b, rs !! rank p = Some r /\ banks r !! bank p = Some b.
Proof using Hgeo.
  intros [Hr Hb _]. destruct (zlookup_is_Some rs (rank p)) as [r Er]; [rewrite (ge_ranks Hgeo); lia|].
  destruct (zlookup_is_Some (banks r) (bank p)) as [b Eb]; [rewrite (ge_rank Hgeo _ _ Er); lia|].
  by exists r, b.
Qed.
Lemma burstReady_ok p : decoded p -> exists r, rs !! rank p = Some r /\ burstReady rs p = Ok (inRefIdleState r).
Proof using Hgeo.
  intros Hd. destruct (decoded_bank p Hd) as (r & b & Er & _). exists r. split; [done|].
  unfold burstReady, get_rank, aread. by rewrite Er.
Qed.

(** ** The banks with a waiting packet *)

Lemma waiting_banks_ok q : Forall (fun p => isDram p = true -> decoded p) q ->
  exists l, waiting_banks rs q = Ok l /\
    forall x, x ∈ l <-> exists p, p ∈ q /\ ready p /\ x = bankId p.
Proof using Hgeo.
  induction 1 as [|p q Hp _ (l & E & Hl)]; cbn [waiting_banks].
  { exists []. split; [done|]. intros x. split; [by intros ?%not_elem_of_nil|].
    intros (p & Hp & _). by apply not_elem_of_nil in Hp. }
  rewrite E. cbn [mbind result_bind]. destruct (isDram p) eqn:Ed.
  - destruct (burstReady_ok p (Hp eq_refl)) as (r & Er & ->). cbn [mbind result_bind].
    eexists. split; [reflexivity|]. intros x. destruct (inRefIdleState r) eqn:Ei.
    + rewrite elem_of_cons, Hl. split.
      * intros [->|(p' & ? & ? & ?)].
        { exists p. split; [by left|]. split; [|done]. split; [done|]. by exists r. }
        exists p'. split; [by right|]. done.
      * intros (p' & Hin & Hrd & ->). apply elem_of_cons in Hin as [->|Hin]; [by left|right]. by exists p'.
    + rewrite Hl. split; intros (p' & Hin & Hrd & ->).
      * exists p'. split; [by right|]. done.
      * apply elem_of_cons in Hin as [->|Hin]; [|by exists p'].
        destruct Hrd as (_ & r' & Er' & Ei'). rewrite Er in Er'. injection Er' as <-. congruence.
  - exists l. split; [done|]. intros x. rewrite Hl. split; intros (p' & Hin & Hrd & ->).
    + exists p'. split; [by right|]. done.
    + apply elem_of_cons in Hin as [->|Hin]; [|by exists p']. destruct Hrd. congruence.
Qed.

(** ** The first banks *)

(** The bit of bank [j] of rank [i] is set. *)
Definition chosen (l : list Z) (i j : Z) : Prop := exists m, l !! i = Some m /\ Z.testbit m j = true.

(** The loop over the banks has seen [seen]; some waiting bank it has seen, if
    there is one, is chosen. *)
Record prep_ok (waiting : list Z) (seen : Z -> Z -> Prop) (st : Prep) : Prop := {
  po_len : zlen (bank_mask st) = ranksPerChannel c;
  po_some : (exists i j, seen i j /\ i * banksPerRank c + j ∈ waiting) ->
            exists i j, chosen (bank_mask st) i j /\ 0 <= j < banksPerRank c /\
                        i * banksPerRank c + j ∈ waiting;
  po_none : (exists i j, chosen (bank_mask st) i j /\ 0 <= j < banksPerRank c /\
                        i * banksPerRank c + j ∈ waiting) \/
            (found_seamless_bank st = false /\ min_act_at st = MaxTick)
}.

Lemma u32_setbit_other m j k : 0 <= j < 32 -> 0 <= k < 32 -> Z.testbit (u32 (Z.setbit m j)) k = (j =? k) || Z.testbit m k.
Proof using.
  intros Hj Hk. unfold u32. rewrite Z.mod_pow2_bits_low by lia. by rewrite Z.setbit_eqb by lia.
Qed.

Lemma set_bank_bit_ok l i j : 0 <= i < zlen l -> 0 <= j < 32 -> exists l',
  set_bank_bit l i j = Ok l' /\ zlen l' = zlen l /\ chosen l' i j.
Proof using.
  intros Hi Hj. destruct (zlookup_is_Some l i Hi) as [m Em]. unfold set_bank_bit, aread, awrite. rewrite Em.
  cbn. destruct (Z.leb_spec 0 i), (Z.ltb_spec i (zlen l)); try lia. eexists. split; [done|].
  split; [apply zlen_insert|]. eexists. split; [by apply zlookup_insert_eq|].
  rewrite u32_setbit_other by lia. by rewrite Z.eqb_refl.
Qed.

Lemma act_at_le (i : Z) r (j : Z) b : rs !! i = Some r -> banks r !! j = Some b -> act_at_of c now b <= MaxTick.
Proof using Hgeo.
  intros Er Eb. pose proof (ge_ticks Hgeo _ _ _ _ Er Eb). pose proof (ge_now Hgeo). unfold act_at_of.
  destruct (openRow b =? NO_ROW); [lia|]. unfold tadd, MaxTick. pose proof (u64_range (Z.max (preAllowedAt b) now + tRP c)). lia.
Qed.

Lemma prep_bank_ok waiting mc hm (i j : Z) r b seen st : rs !! i = Some r -> banks r !! j = Some b ->
  (i * banksPerRank c + j ∈ waiting -> inRefIdleState r = true) -> prep_ok waiting seen st ->
  exists st', prep_bank c now v waiting mc hm i j r b st = Ok st' /\
    prep_ok waiting (fun i' j' => seen i' j' \/ (i' = i /\ j' = j)) st'.
Proof using Hgeo.
  intros Er Eb Hidle [Hlen Hsome Hnone]. pose proof (zlookup_lt _ _ _ Er) as Hi. pose proof (zlookup_lt _ _ _ Eb) as Hj.
  rewrite (ge_ranks Hgeo) in Hi. rewrite (ge_rank Hgeo _ _ Er) in Hj. pose proof (ge_banks Hgeo). pose proof (ge_ids Hgeo).
  unfold prep_bank. rewrite (Z.mod_small (i * banksPerRank c + j)) by nia.
  destruct (decide (i * banksPerRank c + j ∈ waiting)) as [Hin|Hin];
    [rewrite bool_decide_true by done|rewrite bool_decide_false by done].
  2: { exists st. split; [done|]. split; [done| |done].
       intros (i' & j' & [Hs|[-> ->]] & Hw); [|done]. apply Hsome. by exists i', j'. }
  rewrite (Hidle Hin). cbn [negb]. pose proof (act_at_le _ _ _ _ Er Eb) as Hact.
  destruct ((col_at_of c now v b <=? mc) || negb (found_seamless_bank st) && (act_at_of c now b <=? min_act_at st)) eqn:Ec.
  - match goal with |- context [set_bank_bit ?l i j] =>
      assert (zlen l = ranksPerChannel c) as Hm by (destruct (_ && _) in |- *; [rewrite <- Hlen; apply zlen_fmap|done]);
      destruct (set_bank_bit_ok l i j ltac:(lia) ltac:(lia)) as (l' & -> & Hl' & Hch) end.
    cbn [mbind result_bind]. eexists. split; [done|]. split.
    + cbn [bank_mask]. by rewrite Hl'.
    + intros _. exists i, j. done.
    + left. exists i, j. done.
  - exists st. split; [done|]. split; [done| |done]. intros _. destruct Hnone as [?|[Hf Hm]]; [done|].
    exfalso. rewrite Hf, Hm in Ec. apply orb_false_iff in Ec as [_ Ec]. cbn in Ec. lia.
Qed.

Lemma prep_ok_weaken waiting (seen seen' : Z -> Z -> Prop) st : (forall i j, seen' i j -> seen i j) ->
  prep_ok waiting seen st -> prep_ok waiting seen' st.
Proof using.
  intros Hs [? Hsome ?]. split; try done. intros (i & j & Hsn & Hw). apply Hsome. exists i, j. split; [by apply Hs|done].
Qed.

Lemma prep_banks_ok waiting mc hm (i : Z) r : rs !! i = Some r ->
  (forall j, 0 <= j < banksPerRank c -> i * banksPerRank c + j ∈ waiting -> inRefIdleState r = true) ->
  forall l j seen st, 0 <= j -> (forall k : Z, 0 <= k -> l !! k = banks r !! (j + k)) -> prep_ok waiting seen st ->
  exists st', prep_banks c now v waiting mc hm i j r l st = Ok st' /\
    prep_ok waiting (fun i' j' => seen i' j' \/ (i' = i /\ j <= j' < j + zlen l)) st'.
Proof using Hgeo.
  intros Er Hidle. induction l as [|b l IH]; intros j seen st Hj Hl Hok; cbn [prep_banks].
  { exists st. split; [done|]. eapply prep_ok_weaken; [|exact Hok]. intros i' j'. unfold zlen. cbn. intros [?|?]; [done|lia]. }
  assert (banks r !! j = Some b) as Eb by (pose proof (Hl 0 ltac:(lia)) as E; rewrite Z.add_0_r in E; by rewrite <- E).
  pose proof (zlookup_lt _ _ _ Eb) as Hjr. rewrite (ge_rank Hgeo _ _ Er) in Hjr.
  destruct (prep_bank_ok waiting mc hm i j r b seen st Er Eb (Hidle j Hjr) Hok) as (st1 & -> & Hok1).
  cbn [mbind result_bind].
  unshelve (destruct (fun Hlk => IH (j + 1) _ st1 ltac:(lia) Hlk Hok1) as (st2 & E2 & Hok2)).
  { intros k Hk. replace (j + 1 + k) with (j + (k + 1)) by lia. rewrite <- Hl by lia. by rewrite zlookup_cons_succ. }
  exists st2. split; [done|]. eapply prep_ok_weaken; [|exact Hok2]. cbn beta. intros i' j'.
  unfold zlen. cbn [length]. intros [?|[-> ?]]; [by left; left|]. destruct (decide (j' = j)) as [->|]; [by left; right|].
  right. lia.
Qed.

Lemma prep_ranks_ok waiting mc hm :
  (forall i r j, rs !! i = Some r -> 0 <= j < banksPerRank c -> i * banksPerRank c + j ∈ waiting -> inRefIdleState r = true) ->
  forall l i seen st, 0 <= i -> (forall k : Z, 0 <= k -> l !! k = rs !! (i + k)) -> prep_ok waiting seen st ->
  exists st', prep_ranks c now v waiting mc hm i l st = Ok st' /\
    prep_ok waiting (fun i' j' => seen i' j' \/ (i <= i' < i + zlen l /\ 0 <= j' < banksPerRank c)) st'.
Proof using Hgeo.
  intros Hidle. induction l as [|r l IH]; intros i seen st Hi Hl Hok; cbn [prep_ranks].
  { exists st. split; [done|]. eapply prep_ok_weaken; [|exact Hok]. intros i' j'. unfold zlen. cbn. intros [?|?]; [done|lia]. }
  assert (rs !! i = Some r) as Er by (pose proof (Hl 0 ltac:(lia)) as E; rewrite Z.add_0_r in E; by rewrite <- E).
  destruct (prep_banks_ok waiting mc hm i r Er (fun j => Hidle i r j Er) (banks r) 0 seen st ltac:(lia)) as (st1 & -> & Hok1); [|done|].
  { intros k Hk. f_equal. }
  cbn [mbind result_bind].
  unshelve (destruct (fun Hlk => IH (i + 1) _ st1 ltac:(lia) Hlk Hok1) as (st2 & E2 & Hok2)).
  { intros k Hk. replace (i + 1 + k) with (i + (k + 1)) by lia. rewrite <- Hl by lia. by rewrite zlookup_cons_succ. }
  exists st2. split; [done|]. eapply prep_ok_weaken; [|exact Hok2]. cbn beta. intros i' j'.
  rewrite (ge_rank Hgeo _ _ Er). unfold zlen. cbn [length]. intros [?|[? ?]]; [by left; left|].
  destruct (decide (i' = i)) as [->|]; [left; right; split; [done|lia]|]. right. lia.
Qed.

(** Some packet of the queue that is ready waits for a bank of the mask. *)
Definition earliest (queue : list MemPacket) (mask : list Z) : Prop :=
  (exists p, p ∈ queue /\ ready p) ->
  exists p, p ∈ queue /\ ready p /\ chosen mask (rank p) (bank p).

Lemma minBankPrep_ok queue mc : Forall (fun p => isDram p = true -> decoded p) queue ->
  exists mask hidden, minBankPrep c now v rs queue mc = Ok (mask, hidden) /\
    zlen mask = ranksPerChannel c /\ earliest queue mask.
Proof using Hgeo.
  intros Hq. destruct (waiting_banks_ok queue Hq) as (wt & Ew & Hw).
  assert (Hdec : forall p, p ∈ queue -> ready p -> decoded p).
  { intros p Hp [Hd _]. apply list_elem_of_lookup in Hp as [k Hk]. exact (Forall_lookup_1 _ _ _ _ Hq Hk Hd). }
  pose proof (ge_banks Hgeo) as HB. pose proof (ge_ranks Hgeo) as HR.
  assert (Hid : forall p i j, decoded p -> 0 <= j < banksPerRank c -> i * banksPerRank c + j = bankId p ->
    i = rank p /\ j = bank p).
  { intros p i j [D1 D2 D3] Hj E. rewrite D3 in E. assert (i = rank p) as -> by nia. split; [done|lia]. }
  unfold minBankPrep. rewrite Ew. cbn [mbind result_bind].
  destruct (prep_ranks_ok wt mc (Z.max (tsub mc (tRCD c)) now)) with (l := rs) (i := 0) (seen := fun _ _ : Z => False) (st := prep0 c)
    as (st & -> & [Hlen Hsome _]).
  - intros i r j Er Hj Hin. apply Hw in Hin as (p & Hp & Hrd & E).
    destruct (Hid p i j (Hdec p Hp Hrd) Hj E) as [-> _]. destruct Hrd as (_ & r' & Er' & Hi). rewrite Er in Er'. by injection Er' as <-.
  - lia.
  - intros k Hk. f_equal.
  - pose proof (zlen_nonneg rs). split; [cbn; rewrite zlen_calloc; lia|intros (i & j & [] & _)|by right].
  - cbn [mbind result_bind]. exists (bank_mask st), (hidden_bank_prep st). split; [done|]. split; [done|].
    intros (p & Hp & Hrd). pose proof (Hdec p Hp Hrd) as Hd. pose proof Hd as [D1 D2 D3].
    destruct Hsome as (i & j & Hch & Hj & Hin).
    { exists (rank p), (bank p). split; [right; lia|]. apply Hw. exists p. by rewrite D3. }
    apply Hw in Hin as (p' & Hp' & Hrd' & E). destruct (Hid p' i j (Hdec p' Hp' Hrd') Hj E) as [-> ->].
    by exists p'.
Qed.

(** ** The choice *)

Definition col_of (p : MemPacket) (b : Bank) : Z := if isRead p then rdAllowedAt b else wrAllowedAt b.
Definition row_hit (p : MemPacket) : Prop := exists b, bank_of rs p = Ok b /\ openRow b = row p.
(** A seamless hit: the row is open and the column command can go out in time. *)
Definition seamless (mc : Z) (p : MemPacket) : Prop :=
  ready p /\ exists b, bank_of rs p = Ok b /\ openRow b = row p /\ col_of p b <= mc.
Definition is_candidate (queue : list MemPacket) (k col : Z) : Prop :=
  exists p b, queue !! k = Some p /\ ready p /\ bank_of rs p = Ok b /\ col = col_of p b.

(** The variables of the loop after the first [i] packets, none a seamless hit. *)
Record choice_ok (queue : list MemPacket) (mc i : Z) (st : Choice) : Prop := {
  ch_sel : forall k, selected_pkt st = Some k -> is_candidate queue k (selected_col_at st);
  ch_flag : found_prepped_pkt st = true \/ found_earliest_pkt st = true -> selected_pkt st <> None;
  ch_hidden : found_hidden_bank st = true -> found_earliest_pkt st = true;
  ch_masks : forall e, earliest_banks st = Some e -> minBankPrep c now v rs queue mc = Ok e;
  ch_seen : forall (k : Z) p, queue !! k = Some p -> k < i -> ready p -> selected_pkt st = None ->
    exists mask hidden, earliest_banks st = Some (mask, hidden) /\ ~ chosen mask (rank p) (bank p);
  ch_hit : forall (k : Z) p, queue !! k = Some p -> k < i -> ~ seamless mc p
}.

Lemma choice0_ok queue mc : choice_ok queue mc 0 choice0.
Proof using.
  split; try done; cbn; [by intros [?|?]|..]; intros k p Hk ?; apply zlookup_lt in Hk; lia.
Qed.

Lemma bank_of_ok p : decoded p -> exists b, bank_of rs p = Ok b.
Proof using Hgeo.
  intros Hd. destruct (decoded_bank p Hd) as (r & b & Er & Eb). exists b. unfold bank_of, get_rank, aread.
  rewrite Er. cbn. by rewrite Eb.
Qed.

(** A packet passed over: the variables stand for one more packet. *)
Lemma choice_skip queue mc i p st st' : queue !! i = Some p ->
  choice_ok queue mc i st -> ~ seamless mc p ->
  selected_pkt st' = selected_pkt st -> selected_col_at st' = selected_col_at st ->
  found_prepped_pkt st' = found_prepped_pkt st -> found_hidden_bank st' = found_hidden_bank st ->
  found_earliest_pkt st' = found_earliest_pkt st ->
  (earliest_banks st' = earliest_banks st \/ earliest_banks st = None) ->
  (forall e, earliest_banks st' = Some e -> minBankPrep c now v rs queue mc = Ok e) ->
  (ready p -> selected_pkt st = None ->
     exists mask hidden, earliest_banks st' = Some (mask, hidden) /\ ~ chosen mask (rank p) (bank p)) ->
  choice_ok queue mc (i + 1) st'.
Proof using.
  intros Hi [C1 C2 C3 C4 C5 C6] Hns E1 E2 E3 E4 E5 E6 E7 Hp.
  split; rewrite ?E1, ?E2, ?E3, ?E4, ?E5; try done.
  - intros k q Hk Hlt Hr Hn. destruct (decide (k = i)) as [->|Hne].
    + rewrite Hi in Hk. injection Hk as <-. by apply Hp.
    + destruct (C5 k q Hk ltac:(lia) Hr Hn) as (mask & hidden & Ee & Hch).
      destruct E6 as [->|En]; [by exists mask, hidden|congruence].
  - intros k q Hk Hlt. destruct (decide (k = i)) as [->|Hne].
    + rewrite Hi in Hk. by injection Hk as <-.
    + apply (C6 k q Hk). lia.
Qed.

(** A packet selected. *)
Lemma choice_select queue mc i p b st st' : queue !! i = Some p ->
  choice_ok queue mc i st -> ~ seamless mc p -> ready p -> bank_of rs p = Ok b ->
  selected_pkt st' = Some i -> selected_col_at st' = col_of p b ->
  (found_hidden_bank st' = true -> found_earliest_pkt st' = true) ->
  (forall e, earliest_banks st' = Some e -> minBankPrep c now v rs queue mc = Ok e) ->
  choice_ok queue mc (i + 1) st'.
Proof using.
  intros Hi [C1 C2 C3 C4 C5 C6] Hns Hr Hb E1 E2 E3 E4. split; rewrite ?E1, ?E2; try done.
  - intros k [= <-]. by exists p, b.
  - intros k q Hk Hlt. destruct (decide (k = i)) as [->|Hne].
    + rewrite Hi in Hk. by injection Hk as <-.
    + apply (C6 k q Hk). lia.
Qed.

(** A packet of one of the first banks. *)
Lemma choice_earliest queue mc i p b st mask hidden : queue !! i = Some p ->
  choice_ok queue mc i st -> ~ seamless mc p -> ready p -> bank_of rs p = Ok b ->
  (forall e, Some (mask, hidden) = Some e -> minBankPrep c now v rs queue mc = Ok e) ->
  let st1 := st <| earliest_banks := Some (mask, hidden) |> <| found_earliest_pkt := true |>
                <| found_hidden_bank := hidden |> in
  choice_ok queue mc (i + 1) (if hidden || negb (found_prepped_pkt st) then select i (col_of p b) st1 else st1).
Proof using.
  intros Hi Hok Hns Hr Eb Hmk st1. destruct (hidden || negb (found_prepped_pkt st)) eqn:Eh.
  - eapply choice_select; [exact Hi|exact Hok|done|done|exact Eb|done|done|done|exact Hmk].
  - apply orb_false_iff in Eh as [-> Eh]. apply negb_false_iff in Eh.
    pose proof (ch_flag _ _ _ _ Hok (or_introl Eh)) as Hsel. destruct Hok as [C1 C2 C3 C4 C5 C6].
    split; try done.
    intros k q Hk Hlt. destruct (decide (k = i)) as [->|Hne]; [rewrite Hi in Hk; by injection Hk as <-|].
    apply (C6 k q Hk). lia.
Qed.

Lemma consider_ok queue mc i p st : Forall (fun p => isDram p = true -> decoded p) queue ->
  queue !! i = Some p -> choice_ok queue mc i st ->
  exists st' stop, consider c now v rs queue mc i p st = Ok (st', stop) /\
    (if stop : bool then seamless mc p /\ selected_pkt st' = Some i /\ is_candidate queue i (selected_col_at st')
     else choice_ok queue mc (i + 1) st').
Proof using Hgeo.
  intros Hq Hi Hok. unfold consider.
  pose proof (Forall_lookup_1 _ _ (Z.to_nat i) p Hq) as Hdec.
  assert (queue !! Z.to_nat i = Some p) as Hi'
    by (pose proof (zlookup_lt _ _ _ Hi); rewrite <- zlookup_nat; by rewrite Z2Nat.id by lia).
  specialize (Hdec Hi'). cbn in Hdec.
  destruct (isDram p) eqn:Ed; cbn [negb].
  2: { exists st, false. split; [done|].
       assert (~ ready p) as Hnr by (intros [? _]; congruence).
       eapply choice_skip; [exact Hi|exact Hok| | | | | | |by left|apply (ch_masks _ _ _ _ Hok)|done]; try done.
       by intros [? _]. }
  specialize (Hdec eq_refl). destruct (bank_of_ok p Hdec) as [b Eb]. rewrite Eb. cbn [mbind result_bind].
  destruct (burstReady_ok p Hdec) as (r & Er & ->). cbn [mbind result_bind].
  destruct (inRefIdleState r) eqn:Ei; cbn [negb].
  2: { exists st, false. split; [done|].
       assert (~ ready p) as Hnr by (intros (_ & r' & Er' & ?); rewrite Er in Er'; injection Er' as <-; congruence).
       eapply choice_skip; [exact Hi|exact Hok| | | | | | |by left|apply (ch_masks _ _ _ _ Hok)|done]; try done.
       by intros [? _]. }
  assert (ready p) as Hr by (split; [done|by exists r]).
  fold (col_of p b). destruct (Z.eqb_spec (openRow b) (row p)) as [Eo|Eo].
  - destruct (Z.leb_spec (col_of p b) mc) as [Hc|Hc].
    { exists (select i (col_of p b) st), true. split; [done|]. split; [split; [done|by exists b]|].
      split; [done|]. by exists p, b. }
    assert (~ seamless mc p) as Hns.
    { intros (_ & b' & Eb' & _ & ?). rewrite Eb in Eb'. injection Eb' as <-. lia. }
    destruct (negb (found_hidden_bank st) && negb (found_prepped_pkt st)) eqn:Ef.
    + eexists _, false. split; [reflexivity|].
      eapply choice_select; [exact Hi|exact Hok|done|done|exact Eb|done|done| |]; cbn; [|apply (ch_masks _ _ _ _ Hok)].
      apply (ch_hidden _ _ _ _ Hok).
    + exists st, false. split; [done|].
      eapply choice_skip; [exact Hi|exact Hok|done| | | | | |by left|apply (ch_masks _ _ _ _ Hok)|]; try done.
      intros _ Hn. exfalso. apply (ch_flag _ _ _ _ Hok); [|done].
      destruct (found_hidden_bank st) eqn:Eh; [right; by apply (ch_hidden _ _ _ _ Hok)|]. left.
      by destruct (found_prepped_pkt st).
  - assert (~ seamless mc p) as Hns.
    { intros (_ & b' & Eb' & ? & _). rewrite Eb in Eb'. by injection Eb' as <-. }
    destruct (found_earliest_pkt st) eqn:Ee.
    { exists st, false. split; [done|].
      eapply choice_skip; [exact Hi|exact Hok|done| | | | | |by left|apply (ch_masks _ _ _ _ Hok)|]; try done.
      intros _ Hn. exfalso. apply (ch_flag _ _ _ _ Hok); [by right|done]. }
    destruct (minBankPrep_ok queue mc Hq) as (mask & hidden & Em & Hlen & _).
    replace (match earliest_banks st with Some e => Ok e | None => minBankPrep c now v rs queue mc end)
      with (Ok (mask, hidden)) by (destruct (earliest_banks st) as [e|] eqn:Eeb; [|done];
        pose proof (ch_masks _ _ _ _ Hok _ Eeb); congruence).
    cbn [mbind result_bind]. destruct (zlookup_is_Some mask (rank p)) as [m Hm].
    { rewrite Hlen. apply (de_rank _ Hdec). }
    unfold aread. rewrite Hm. cbn [mbind result_bind].
    assert (Hmk : forall e, Some (mask, hidden) = Some e -> minBankPrep c now v rs queue mc = Ok e) by (by intros e [= <-]).
    destruct (Z.testbit m (bank p)) eqn:Et.
    + set (st1 := st <| earliest_banks := Some (mask, hidden) |> <| found_earliest_pkt := true |>
                     <| found_hidden_bank := hidden |>).
      exists (if hidden || negb (found_prepped_pkt st) then select i (col_of p b) st1 else st1), false.
      split; [done|]. by apply choice_earliest.
    + eexists _, false. split; [reflexivity|].
      eapply choice_skip; [exact Hi|exact Hok|done|done|done|done|done|cbn; done| |exact Hmk|].
      * destruct (earliest_banks st) as [e|] eqn:Eeb; [left|by right]. cbn.
        pose proof (ch_masks _ _ _ _ Hok _ Eeb). congruence.
      * intros _ _. exists mask, hidden. split; [done|]. intros (m' & Em' & Ht). rewrite Hm in Em'. injection Em' as <-. congruence.
Qed.

Lemma choose_loop_ok queue mc : Forall (fun p => isDram p = true -> decoded p) queue ->
  forall q i st, 0 <= i -> (forall k : Z, 0 <= k -> q !! k = queue !! (i + k)) -> choice_ok queue mc i st ->
  exists st', choose_loop c now v rs queue mc i q st = Ok st' /\
    (choice_ok queue mc (i + zlen q) st' \/
     exists k p, queue !! k = Some p /\ seamless mc p /\ (forall j p', queue !! j = Some p' -> j < k -> ~ seamless mc p') /\
       selected_pkt st' = Some k /\ is_candidate queue k (selected_col_at st')).
Proof using Hgeo.
  intros Hq. induction q as [|p q IH]; intros i st Hi Hl Hok; cbn [choose_loop].
  { exists st. split; [done|]. left. by replace (i + zlen []) with i by (unfold zlen; cbn; lia). }
  assert (queue !! i = Some p) as Ei by (pose proof (Hl 0 ltac:(lia)) as E; rewrite Z.add_0_r in E; by rewrite <- E).
  destruct (consider_ok queue mc i p st Hq Ei Hok) as (st1 & stop & -> & H1). cbn [mbind result_bind].
  destruct stop.
  - destruct H1 as (Hs & Hsel & Hcand). exists st1. split; [done|]. right. exists i, p.
    split_and!; try done. intros j p' Hj Hlt. by apply (ch_hit _ _ _ _ Hok j p').
  - unshelve (destruct (fun Hlk => IH (i + 1) st1 ltac:(lia) Hlk H1) as (st2 & E2 & Hok2)).
    { intros k Hk. replace (i + 1 + k) with (i + (k + 1)) by lia. rewrite <- Hl by lia. by rewrite zlookup_cons_succ. }
    exists st2. split; [done|]. unfold zlen in *. cbn [length].
    by replace (i + Z.of_nat (S (length q))) with (i + 1 + Z.of_nat (length q)) by lia.
Qed.

(** C32. On decoded packets of ranks with at most 32 banks (and 2^16 in all; of more than
    32, minBankPrep loses some, see [bank_mask_loses_bank_40]) chooseNextFRFCFS
    returns, and chooses: the first packet, in queue order, that is a seamless row hit, when there is one; some DRAM packet of a rank that
    is not refreshing, with the tick its bank allows the column command, whenever
    the queue holds one; and queue.end() only when it holds none. *)
Theorem chooseNextFRFCFS_complete queue min_col_at :
  Forall (fun p => isDram p = true -> decoded p) queue ->
  exists sel col, chooseNextFRFCFS c now v rs queue min_col_at = Ok (sel, col) /\
    (sel = None <-> ~ exists p, p ∈ queue /\ ready p) /\
    (forall k, sel = Some k -> is_candidate queue k col) /\
    (forall k p, queue !! k = Some p -> seamless min_col_at p ->
       (forall j p', queue !! j = Some p' -> j < k -> ~ seamless min_col_at p') -> sel = Some k).
Proof using Hgeo.
  intros Hq. unfold chooseNextFRFCFS.
  destruct (choose_loop_ok queue min_col_at Hq queue 0 choice0 ltac:(lia)) as (st & -> & Hst);
    [intros k Hk; f_equal|apply choice0_ok|]. cbn [mbind result_bind].
  exists (selected_pkt st), (selected_col_at st). split; [done|].
  assert (Hin : forall k p, queue !! k = Some p -> p ∈ queue) by (intros k p; apply elem_of_zlookup).
  destruct Hst as [Hok|(k & p & Hk & Hs & Hfirst & Hsel & Hcand)].
  - split; [split|split].
    + intros Hn (p0 & Hp0 & Hr0). destruct (minBankPrep_ok queue min_col_at Hq) as (mask & hidden & Em & _ & Hear).
      destruct (Hear (ex_intro _ p0 (conj Hp0 Hr0))) as (p & Hp & Hr & Hch).
      apply list_elem_of_lookup in Hp as [k Hk]. rewrite <- zlookup_nat in Hk. pose proof (zlookup_lt _ _ _ Hk).
      destruct (ch_seen _ _ _ _ Hok _ p Hk ltac:(lia) Hr Hn) as (mask' & hidden' & Ee & Hnc).
      apply (ch_masks _ _ _ _ Hok) in Ee. rewrite Em in Ee. injection Ee as <- <-. done.
    + intros Hno. destruct (selected_pkt st) as [k|] eqn:E; [|done]. exfalso. apply Hno.
      destruct (ch_sel _ _ _ _ Hok k E) as (p & b & Hk & Hr & _). exists p. split; [by eapply Hin|done].
    + apply (ch_sel _ _ _ _ Hok).
    + intros k p Hk Hs _. exfalso. pose proof (zlookup_lt _ _ _ Hk). apply (ch_hit _ _ _ _ Hok k p Hk ltac:(lia) Hs).
  - rewrite Hsel. split; [split|split].
    + done.
    + intros Hno. exfalso. apply Hno. exists p. split; [by eapply Hin|]. apply Hs.
    + by intros k' [= <-].
    + intros k' p' Hk' Hs' Hfirst'. f_equal. destruct (Z.lt_trichotomy k k') as [?|[->|?]]; [|done|].
      * by destruct (Hfirst' k p Hk).
      * by destruct (Hfirst k' p' Hk').
Qed.
End Scheduling.

(** ** Witness: the small interface *)

Definition view0 : CtrlView := mkView (fun _ => true) (fun _ => false) false false false false.
Lemma small_geometry : geometry small 10 (ranks small_dram).
Proof.
  assert (Hr : forall (i : Z) r, ranks small_dram !! i = Some r -> exists n, r = new_Rank small n).
  { intros i r Hi. cbn [ranks small_dram] in Hi. rewrite zlookup_fmap in Hi.
    destruct (seqZ 0 2 !! i) as [n|]; [|done]. cbn in Hi. injection Hi as <-. by exists n. }
  split; [cbn; lia|cbn; lia|reflexivity| | |unfold MaxTick; lia].
  - intros i r Hi. by destruct (Hr i r Hi) as [n ->].
  - intros i r j b Hi Hb. destruct (Hr i r Hi) as [n ->]. cbn [banks new_Rank] in Hb. rewrite zlookup_fmap in Hb.
    destruct (seqZ 0 (banksPerRank small) !! j) as [k|]; [|done]. cbn in Hb. injection Hb as <-. cbn. unfold MaxTick. lia.
Qed.
Definition queue0 : list MemPacket := [small_packet true 0 1 3; small_packet true 1 2 5].

Lemma chooseNextFRFCFS_complete_witness : exists sel col,
  chooseNextFRFCFS small 10 view0 (ranks small_dram) queue0 40 = Ok (sel, col) /\ sel <> None.
Proof.
  destruct (chooseNextFRFCFS_complete small 10 view0 (ranks small_dram) small_geometry queue0 40)
    as (sel & col & E & Hn & _).
  - unfold queue0. repeat constructor; cbn; lia.
  - exists sel, col. split; [exact E|]. intros Hs. apply (proj1 Hn Hs).
    exists (small_packet true 0 1 3). split; [by left|]. split; [reflexivity|]. eexists. split; reflexivity.
Defined.
Example small_choice : chooseNextFRFCFS small 10 view0 (ranks small_dram) queue0 40 = Ok (Some 0, 0).
Proof. vm_compute. reflexivity. Qed.

(** A bank past the 32 bits of the mask. *)
Definition wide : Config := small <| banksPerRank := 64 |>.

(** With more than 32 banks in a rank the 32-bit bank mask loses the bank: a
    packet for bank 40 of an idle rank is not chosen, though it is alone in the
    queue. *)
Theorem bank_mask_loses_bank_40 :
  let rs := new_Rank wide <$> seqZ 0 2 in
  chooseNextFRFCFS wide 10 view0 rs [(small_packet true 0 40 3) <| bankId := 40 |>] 40 = Ok (None, MaxTick) /\
  ready rs (small_packet true 0 40 3).
Proof. split; [vm_compute; reflexivity|]. split; [reflexivity|]. eexists. split; reflexivity. Qed.
End Sched.
