(* ===== verification/DramDecode.v ===== *)
(** Address decoding ([MemInterface::decodePacket] of [mem/mem_interface.cc]). *)
From S2P Require Import Prelude CmdBus Packet Dram.
Import DRAMInterface.

Module Decode.

Section Decode.
Context (c : Config).

(** The geometry of an interface, in the widths of a packet. *)
Record geometry : Prop := {
  ge_burst : 0 < burstSize c;
  ge_row : 0 < burstsPerRowBuffer c;
  ge_stripe : 0 < burstsPerStripe c;
  ge_banks : 0 < banksPerRank c <= 256;
  ge_ranks : 0 < ranksPerChannel c <= 256;
  ge_rows : 0 < rowsPerBank c < 2 ^ 32
}.
Hypothesis Hgeo : geometry.

(** The bursts that are consecutive in a bank, and the stripes of a row. *)
Definition low_bursts : Z :=
  match addrMapping c with
  | RoCoRaBaCh => if burstsPerRowBuffer c <? burstsPerStripe c then burstsPerRowBuffer c else burstsPerStripe c
  | _ => burstsPerRowBuffer c
  end.
Definition stripes : Z :=
  match addrMapping c with
  | RoCoRaBaCh => if burstsPerStripe c <? burstsPerRowBuffer c then burstsPerRowBuffer c / burstsPerStripe c else 1
  | _ => 1
  end.
(** The address of a burst, from the row down to the offset in the burst. *)
Definition encode (rw col_hi rk_no bk_no col_lo off : Z) : Z :=
  ((((rw * stripes + col_hi) * ranksPerChannel c + rk_no) * banksPerRank c + bk_no) * low_bursts + col_lo) * burstSize c + off.

Lemma low_bursts_pos : 0 < low_bursts.
Proof using Hgeo. destruct Hgeo. unfold low_bursts. destruct (addrMapping c); try lia. destruct (_ <? _); lia. Qed.
Lemma stripes_pos : 0 < stripes.
Proof using Hgeo.
  destruct Hgeo. unfold stripes. destruct (addrMapping c); try lia.
  destruct (Z.ltb_spec (burstsPerStripe c) (burstsPerRowBuffer c)); [|lia].
  apply Z.div_str_pos. lia.
Qed.
Lemma udiv_ok a b : b <> 0 -> udiv a b = Ok (a / b).
Proof using. intros H. unfold udiv. by destruct (Z.eqb_spec b 0). Qed.
Lemma umod_ok a b : b <> 0 -> umod a b = Ok (a mod b).
Proof using. intros H. unfold umod. by destruct (Z.eqb_spec b 0). Qed.

(** The decoding in one expression. *)
Lemma decode_eq a : decode_row_bank_col c a =
  let x := a / burstSize c / low_bursts in
  let y := x / banksPerRank c in
  Ok (u8 (y mod ranksPerChannel c), u8 (x mod banksPerRank c), y / ranksPerChannel c / stripes mod rowsPerBank c).
Proof using Hgeo.
  pose proof low_bursts_pos as Hl. pose proof stripes_pos as Hs. destruct Hgeo. unfold decode_row_bank_col.
  rewrite (udiv_ok a) by lia. cbn [mbind result_bind].
  replace (match addrMapping c with
      | RoRaBaChCo | RoRaBaCoCh => udiv (a / burstSize c) (burstsPerRowBuffer c)
      | RoCoRaBaCh => if burstsPerRowBuffer c <? burstsPerStripe c
                      then udiv (a / burstSize c) (burstsPerRowBuffer c) else udiv (a / burstSize c) (burstsPerStripe c)
      end) with (Ok (a / burstSize c / low_bursts)).
  2: { unfold low_bursts in *. destruct (addrMapping c); [| |destruct (_ <? _)]; by rewrite udiv_ok by lia. }
  set (x := a / burstSize c / low_bursts). cbn [mbind result_bind].
  rewrite (umod_ok x), (udiv_ok x) by lia. cbn [mbind result_bind].
  rewrite (umod_ok (x / _)), (udiv_ok (x / _)) by lia. cbn [mbind result_bind]. cbv zeta.
  set (z := x / banksPerRank c / ranksPerChannel c).
  match goal with |- mbind _ ?m = _ => replace m with (Ok (z / stripes)) end.
  - cbn [mbind result_bind]. by rewrite umod_ok by lia.
  - unfold stripes in *. destruct (addrMapping c); [by rewrite Z.div_1_r|by rewrite Z.div_1_r|].
    destruct (_ <? _); [|by rewrite Z.div_1_r]. rewrite udiv_ok by lia. cbn. by rewrite udiv_ok by lia.
Qed.

Lemma div_digit a b d : 0 < b -> 0 <= d < b -> (a * b + d) / b = a.
Proof using. intros Hb Hd. rewrite Z.div_add_l, Z.div_small by lia. lia. Qed.
Lemma mod_digit a b d : 0 < b -> 0 <= d < b -> (a * b + d) mod b = d.
Proof using. intros Hb Hd. rewrite Z.add_comm, Z_mod_plus_full. by apply Z.mod_small. Qed.

Lemma decode_encode rw col_hi rk_no bk_no col_lo off :
  0 <= rw < rowsPerBank c -> 0 <= col_hi < stripes -> 0 <= rk_no < ranksPerChannel c ->
  0 <= bk_no < banksPerRank c -> 0 <= col_lo < low_bursts -> 0 <= off < burstSize c ->
  decode_row_bank_col c (encode rw col_hi rk_no bk_no col_lo off) = Ok (rk_no, bk_no, rw).
Proof using Hgeo.
  intros H1 H2 H3 H4 H5 H6. pose proof low_bursts_pos. pose proof stripes_pos. destruct Hgeo.
  rewrite decode_eq. unfold encode. cbv zeta. rewrite !div_digit, !mod_digit by lia.
  rewrite (Z.mod_small rw) by lia. unfold u8. by rewrite !Z.mod_small by lia.
Qed.

(** The packet that comes out is the one of the arguments. *)
Lemma decodePacket_new getOffset mem now p a size is_read is_dram m :
  decodePacket c getOffset mem now p a size is_read is_dram = Ok m ->
  m = new_MemPacket mem now p is_read is_dram (rank m) (bank m) (row m) (bankId m) a size.
Proof using.
  unfold decodePacket. destruct (decode_row_bank_col c (getOffset a)) as [[[rk bk] rw]|f]; cbn [mbind result_bind]; [|done].
  destruct (_ && _); [|done]. by intros [= <-].
Qed.
Lemma decodePacket_ok getOffset mem now p a size is_read is_dram : 0 <= getOffset a ->
  exists m, decodePacket c getOffset mem now p a size is_read is_dram = Ok m /\ 0 <= rank m < ranksPerChannel c /\
    0 <= bank m < banksPerRank c /\ 0 <= row m < rowsPerBank c.
Proof using Hgeo.
  intros Ha. pose proof Hgeo as [? ? ? ? ? ?]. unfold decodePacket. rewrite decode_eq. cbv zeta. cbn [mbind result_bind].
  set (x := getOffset a / burstSize c / low_bursts). set (y := x / banksPerRank c).
  pose proof (Z.mod_pos_bound y (ranksPerChannel c) ltac:(lia)). pose proof (Z.mod_pos_bound x (banksPerRank c) ltac:(lia)).
  pose proof (Z.mod_pos_bound (y / ranksPerChannel c / stripes) (rowsPerBank c) ltac:(lia)).
  rewrite (u8_small (y mod _)), (u8_small (x mod _)) by lia. unfold NO_ROW.
  repeat match goal with |- context [?u <? ?w] => destruct (Z.ltb_spec u w); [|lia] end. cbn [andb]. eexists. split; [reflexivity|]. cbn.
  rewrite u32_small by lia. lia.
Qed.

(** C33. decodePacket never fails an assertion, whatever the address: the rank, the
    bank and the row are in range; and it inverts the address map, so that the
    bytes of one row of one bank are the addresses that decode to it. *)
Theorem decodePacket_total getOffset mem now p a size is_read is_dram :
  0 <= getOffset a ->
  exists m, decodePacket c getOffset mem now p a size is_read is_dram = Ok m /\
    0 <= rank m < ranksPerChannel c /\ 0 <= bank m < banksPerRank c /\ 0 <= row m < rowsPerBank c /\
    bankId m = banksPerRank c * rank m + bank m /\ addr m = a /\
    forall rw col_hi rk_no bk_no col_lo off,
      0 <= rw < rowsPerBank c -> 0 <= col_hi < stripes -> 0 <= rk_no < ranksPerChannel c ->
      0 <= bk_no < banksPerRank c -> 0 <= col_lo < low_bursts -> 0 <= off < burstSize c ->
      getOffset a = encode rw col_hi rk_no bk_no col_lo off ->
      rank m = rk_no /\ bank m = bk_no /\ row m = rw.
Proof using Hgeo.
  intros Ha. unfold decodePacket. pose proof (decode_eq (getOffset a)) as E. cbv zeta in E.
  set (x := getOffset a / burstSize c / low_bursts) in E. pose proof low_bursts_pos. pose proof stripes_pos.
  pose proof Hgeo as [? ? ? ? ? ?].
  pose proof (Z.mod_pos_bound (x / banksPerRank c) (ranksPerChannel c) ltac:(lia)).
  pose proof (Z.mod_pos_bound x (banksPerRank c) ltac:(lia)).
  set (z := x / banksPerRank c / ranksPerChannel c / stripes) in E.
  pose proof (Z.mod_pos_bound z (rowsPerBank c) ltac:(lia)).
  rewrite (u8_small (_ mod ranksPerChannel c)), (u8_small (x mod _)) in E by lia.
  set (rk_m := (x / banksPerRank c) mod ranksPerChannel c) in *. set (bk_m := x mod banksPerRank c) in *.
  set (rw_m := z mod rowsPerBank c) in *. rewrite E. cbn [mbind result_bind].
  destruct (Z.ltb_spec rk_m (ranksPerChannel c)); [|lia]. destruct (Z.ltb_spec bk_m (banksPerRank c)); [|lia].
  destruct (Z.ltb_spec rw_m (rowsPerBank c)); [|lia]. unfold NO_ROW. destruct (Z.ltb_spec rw_m (2 ^ 32 - 1)); [|lia].
  cbn [andb]. eexists. split; [reflexivity|]. cbn [rank bank row bankId addr new_MemPacket].
  rewrite u32_small by lia. split_and!; try lia; [apply Z.mod_small; nia|].
  intros rw col_hi rk_no bk_no col_lo off H1' H2' H3' H4' H5' H6' Eg.
  rewrite Eg, decode_encode in E by done. injection E as -> -> ->. done.
Qed.
End Decode.

Lemma small_decode : geometry small.
Proof. split; cbn; lia. Qed.
Lemma decodePacket_total_witness : 0 <= 5000 /\ exists m,
  decodePacket small id (mkAlloc 0 0 0) 0 (mkPacket true false false 5000 64 0 0 true false false 0 0) 5000 64 true true = Ok m /\
  0 <= rank m < 2 /\ 0 <= bank m < 4.
Proof.
  split; [lia|].
  destruct (decodePacket_total small small_decode id (mkAlloc 0 0 0) 0
    (mkPacket true false false 5000 64 0 0 true false false 0 0) 5000 64 true true ltac:(cbn; lia)) as (m & E & Hr & Hb & _).
  exists m. split; [exact E|split; [exact Hr|exact Hb]].
Defined.
End Decode.
