(* ===== verification/RefreshCycle.v ===== *)
(** The refresh of a rank, event by event: the states it goes through, the period
    of an idle rank, and the closing of the banks of a busy one. *)
From S2P Require Import Prelude CmdBus Packet Dram Refresh DramTiming.
Import DRAMInterface.

Module Cycle.
Import Refresh.

#[local] Arguments wp : simpl never.
#[local] Arguments schedulePowerEvent : simpl never.
#[local] Arguments on_refreshEvent : simpl never.
(** Run a handler on states that are known. *)
Ltac decide_states :=
  repeat match goal with
  | |- context [bool_decide (?a = ?b)] =>
      is_constructor a; is_constructor b;
      let x := eval vm_compute in (bool_decide (a = b)) in change (bool_decide (a = b)) with x
  end.
Ltac run :=
  repeat (cbn; unfold state_is; cbn; decide_states; cbn;
          first [wp_step | match goal with |- wp (on_rank _) _ _ => apply wp_modify end
                | match goal with |- wp (goto _) _ _ => apply wp_modify end
                | match goal with |- wp (all_banks _) _ _ => apply wp_modify end
                | match goal with |- wp (push_cmd _ _ _) _ _ => apply wp_modify end
                | match goal with |- wp (assert_ true) _ _ => apply wp_assert; [reflexivity|] end]);
  cbn; unfold state_is; cbn; decide_states; cbn.

(** ** A refresh of an idle rank *)

Section Idle.
Context (c : Config) (v : CtrlView) (activeRank : Z).

Definition period : Z := tREFI c - tRP c.
Definition blocked_until (t : Z) (b : Bank) : Bank := b <| actAllowedAt := t |>.

(** The refresh of an idle rank, at the ticks its events are scheduled at. *)
Definition refresh_cycle (t0 : Z) : comp rb bool :=
  processRefreshEvent c t0 v activeRank;;
  _ ← processPowerEvent c t0 v;
  processRefreshEvent c t0 v activeRank;;
  processRefreshEvent c (t0 + tRFC c) v activeRank;;
  processPowerEvent c (t0 + tRFC c) v.

(** All banks are closed, nothing is outstanding, and nothing asks for the rank
    to sleep. *)
Record idle (t0 : Z) (r : Rank) : Prop := {
  id_refresh : refreshState r = REF_IDLE;
  id_power : pwrState r = PWR_IDLE /\ pwrStatePostRefresh r = PWR_IDLE /\ inLowPowerState r = false;
  id_banks : numBanksActive r = 0;
  id_events : outstandingEvents r = 0 /\ powerEvent r = None /\ activateEvent r = None;
  id_tick : 0 <= pwrStateTick r <= t0;
  id_stats : zlen (pwrStateTime r) = 6;
  id_stay : isQueueEmpty v r && enableDRAMPowerdown c = false;
  id_free : (rank_no r =? activeRank) && requestEventScheduled v = false
}.

Lemma in_cycles_ok l : tCK c <> 0 -> exists cs, mapM (in_cycles c) l = Ok cs.
Proof using.
  intros H. induction l as [|x l [cs IH]]; [by exists []|].
  change (exists cs, (y ← in_cycles c x; k ← mapM (in_cycles c) l; mret (y :: k)) = Ok cs).
  assert (exists y, in_cycles c x = Ok y) as [y ->]
    by (unfold in_cycles, udiv; destruct (Z.eqb_spec (tCK c) 0); [done|by eexists]).
  cbn [mbind result_bind]. rewrite IH. by eexists.
Qed.

(** Flushing the commands touches nothing but the two lists. *)
Lemma updatePowerStats_wp now s (Q : unit -> rb -> Prop) : tCK c <> 0 ->
  (forall l p, Q tt (s <| rk ::= fun r => r <| cmdList := l |> <| power := p |> |>)) ->
  wp (updatePowerStats c now) s Q.
Proof using.
  intros H HQ. unfold updatePowerStats, flushCmdList. wp_step. wp_step.
  destruct (split_issued now (stdpp.sorting.merge_sort before (cmdList (rk s)))) as [issued later].
  wp_step. wp_step. destruct (in_cycles_ok issued H) as [cs ->]. apply wp_modify. apply HQ.
Qed.

(** ** The events of the cycle *)

Lemma on_event_wp (g : Rank -> event) (put : event -> Rank -> Rank) (f : event -> result event) e s
    (Q : unit -> rb -> Prop) :
  f (g (rk s)) = Ok e -> Q tt (s <| rk ::= put e |>) -> wp (on_event g put f) s Q.
Proof using. intros E HQ. unfold on_event. wp_step. wp_step. wp_step. wp_step. rewrite E. by apply wp_modify. Qed.
Lemma schedule_ok now when : now <= when -> schedule now None when = Ok (Some when).
Proof using. intros H. unfold schedule. destruct (Z.leb_spec now when); [done|lia]. Qed.

Lemma schedulePowerEvent_wp now st tick s (Q : unit -> rb -> Prop) : now <= tick -> powerEvent (rk s) = None ->
  Q tt (s <| rk ::= fun r => r <| pwrStateTrans := st |> |> <| rk ::= fun r => r <| powerEvent := Some tick |> |>) ->
  wp (schedulePowerEvent now st tick) s Q.
Proof using.
  intros Hn He HQ. unfold schedulePowerEvent. wp_step. apply wp_assert; [by apply Z.leb_le|].
  wp_step. wp_step. rewrite He. cbn [scheduled]. wp_step. apply wp_modify.
  eapply on_event_wp; [|exact HQ]. change (powerEvent _) with (powerEvent (rk s)). rewrite He.
  by apply schedule_ok.
Qed.

(** The part of a rank the refresh machine works on. *)
Record machine (r : Rank) (rf : RefreshState) (pw tr : PowerState) (out : Z) (rev pev : event)
    (due tick : Z) : Prop := {
  ma_rf : refreshState r = rf;
  ma_pw : pwrState r = pw;
  ma_tr : pev <> None -> pwrStateTrans r = tr;
  ma_post : pwrStatePostRefresh r = PWR_IDLE;
  ma_low : inLowPowerState r = false;
  ma_banks : numBanksActive r = 0;
  ma_out : outstandingEvents r = out;
  ma_rev : refreshEvent r = rev;
  ma_pev : powerEvent r = pev;
  ma_act : activateEvent r = None;
  ma_due : refreshDueAt r = due;
  ma_tick : pwrStateTick r = tick;
  ma_stats : zlen (pwrStateTime r) = 6;
  ma_stay : isQueueEmpty v r && enableDRAMPowerdown c = false;
  ma_free : (rank_no r =? activeRank) && requestEventScheduled v = false
}.

(** The rest of the rank is as in [r]. *)
Definition same_rest (r r' : Rank) : Prop :=
  actTicks r' = actTicks r /\ lastBurstTick r' = lastBurstTick r /\
  readEntries r' = readEntries r /\ writeEntries r' = writeEntries r.

(** Open a rank with its machine fields known. *)
Ltac open_rank H :=
  match type of H with machine (rk ?s) _ _ _ _ _ _ _ _ =>
    destruct s as [[] ?]; destruct H; cbn in *; subst end.

(** Due: the rank is idle, and the power state machine is set off. *)
Lemma refresh_due_wp t0 rev due tick tr s : 0 <= t0 ->
  machine (rk s) REF_IDLE PWR_IDLE tr 0 rev None due tick ->
  wp (processRefreshEvent c t0 v activeRank) s (fun _ s' =>
    machine (rk s') REF_PRE PWR_IDLE PWR_REF 1 None (Some t0) t0 tick /\ banks (rk s') = banks (rk s)).
Proof using.
  intros Ht H. open_rank H. unfold processRefreshEvent, fire, state_is, refresh_due, goto.
  run. rewrite ma_free0. run. unfold refresh_wake. run. unfold refresh_precharge. run.
  apply schedulePowerEvent_wp; [lia|done|]. run. split; [|done]. split; done.
Qed.

Lemma account_wp d s (Q : unit -> rb -> Prop) : zlen (pwrStateTime (rk s)) = 6 ->
  (forall l n, zlen l = 6 -> Q tt (s <| rk ::= fun r => r <| pwrStateTime := l |> <| totalIdleTime := n |> |>)) ->
  wp (account d) s Q.
Proof using.
  intros Hl HQ. unfold account. wp_step. wp_step. wp_step.
  assert (0 <= pwr_index (pwrState (rk s)) < 6) as Hi by (destruct (pwrState (rk s)); cbn; lia).
  destruct (zlookup_is_Some (pwrStateTime (rk s)) (pwr_index (pwrState (rk s))) ltac:(lia)) as [x Hx].
  wp_step. eapply rp_aread; [exact Hx|]. wp_step. wp_step. apply rp_awrite; [lia|]. wp_step. apply wp_modify.

  match goal with |- context [<[?i := x + d]> ?l] =>
    assert (zlen (<[i := x + d]> l) = 6) as Hz by (by rewrite zlen_insert); revert Hz; generalize (<[i := x + d]> l) end.
  intros l' Hz. destruct s as [[] ?]; cbn in *. specialize (HQ l').
  destruct pwrState0; cbn;
    first [apply wp_ret; exact (HQ totalIdleTime0 Hz)|apply wp_modify; exact (HQ (d + totalIdleTime0) Hz)].
Qed.
#[local] Arguments account : simpl never.
#[local] Arguments updatePowerStats : simpl never.

(** The refresh starts. *)
Lemma refresh_power_wp t0 due tick s : 0 <= tick <= t0 ->
  machine (rk s) REF_PRE PWR_IDLE PWR_REF 1 None (Some t0) due tick ->
  wp (processPowerEvent c t0 v) s (fun restart s' => restart = false /\
    machine (rk s') REF_START PWR_REF PWR_REF 1 (Some t0) None due t0 /\ banks (rk s') = banks (rk s)).
Proof using.
  intros Ht H. open_rank H. rewrite (ma_tr0 ltac:(done)) in *. unfold processPowerEvent, fire. run.
  apply wp_assert; [apply Z.leb_le; lia|]. run. apply account_wp; [done|]. intros l n Hln. run.
  unfold entered_refresh. run. unfold on_refreshEvent. eapply on_event_wp; [cbn; apply schedule_ok; lia|]. run.
  split; [done|]. split; [|done]. split; done.
Qed.

(** The refresh command goes out, for tRFC. *)
Lemma refresh_start_wp t0 rev due tick s : tCK c <> 0 -> 0 <= t0 -> 0 <= tRFC c -> t0 + tRFC c < 2 ^ 64 ->
  0 <= due -> t0 + tRFC c <= due + tREFI c < 2 ^ 64 ->
  machine (rk s) REF_START PWR_REF PWR_REF 1 rev None due tick ->
  wp (processRefreshEvent c t0 v activeRank) s (fun _ s' =>
    machine (rk s') REF_RUN PWR_REF PWR_REF 1 (Some (t0 + tRFC c)) None (due + tREFI c) tick /\
    banks (rk s') = blocked_until (t0 + tRFC c) <$> banks (rk s)).
Proof using.
  intros HtCK Ht Hr H64 Hdue Hdue' H. open_rank H. unfold processRefreshEvent, fire. run. unfold refresh_start. run.
  rewrite tadd_small by lia. apply updatePowerStats_wp; [done|]. intros l p. run. rewrite tadd_small by lia.
  destruct (Z.ltb_spec (due + tREFI c) (t0 + tRFC c)); [lia|]. run. unfold on_refreshEvent.
  eapply on_event_wp; [cbn; apply schedule_ok; lia|]. cbn.
  split; [|done]. split; first [done|apply tadd_small; lia].
Qed.

(** The refresh is over: the next one is scheduled. *)
Lemma refresh_done_wp t1 rev due tick s : 0 <= t1 -> 0 <= tRP c -> t1 <= due - tRP c -> due < 2 ^ 64 ->
  machine (rk s) REF_RUN PWR_REF PWR_REF 1 rev None due tick ->
  wp (processRefreshEvent c t1 v activeRank) s (fun _ s' =>
    machine (rk s') REF_RUN PWR_REF PWR_IDLE 1 (Some (due - tRP c)) (Some t1) due tick /\
    banks (rk s') = banks (rk s)).
Proof using.
  intros Ht Hp Hd H64 H. open_rank H. unfold processRefreshEvent, fire. run. unfold refresh_done. run.
  unfold isQueueEmpty in *; cbn in *. rewrite ma_stay0, Tauto.if_same.
  apply schedulePowerEvent_wp; [lia|done|]. run. rewrite tsub_small by lia. unfold on_refreshEvent.
  eapply on_event_wp; [cbn; apply schedule_ok; lia|]. cbn. split; [|done]. split; done.
Qed.

(** The power machine is back to idle. *)
Lemma refresh_idle_wp t1 rev due tick s : 0 <= tick <= t1 ->
  machine (rk s) REF_RUN PWR_REF PWR_IDLE 1 rev (Some t1) due tick ->
  wp (processPowerEvent c t1 v) s (fun restart s' => restart = negb (requestEventScheduled v) /\
    machine (rk s') REF_IDLE PWR_IDLE PWR_IDLE 0 rev None due t1 /\ banks (rk s') = banks (rk s)).
Proof using.
  intros Ht H. open_rank H. rewrite (ma_tr0 ltac:(done)) in *. unfold processPowerEvent, fire. run.
  apply wp_assert; [apply Z.leb_le; lia|]. run. apply account_wp; [done|]. intros l n Hln. run.
  unfold after_refresh. run. unfold entered_idle. run.
  split; [done|]. split; [|done]. split; done.
Qed.

Lemma idle_machine t0 r : idle t0 r ->
  machine r REF_IDLE PWR_IDLE (pwrStateTrans r) 0 (refreshEvent r) None (refreshDueAt r) (pwrStateTick r).
Proof using. intros []. destruct_and!. split; first [done|congruence]. Qed.
Lemma machine_idle t0 r tr rev due tick : 0 <= tick <= t0 ->
  machine r REF_IDLE PWR_IDLE tr 0 rev None due tick -> idle t0 r.
Proof using. intros ? []. split; try done; subst; lia. Qed.

Lemma refresh_cycle_wp t0 s : tCK c <> 0 -> 0 <= tRP c -> 0 <= tRFC c -> tRP c + tRFC c <= tREFI c ->
  0 <= t0 -> t0 + tREFI c + tRFC c < 2 ^ 64 -> idle t0 (rk s) ->
  wp (refresh_cycle t0) s (fun restart s' => restart = negb (requestEventScheduled v) /\
    idle (t0 + period) (rk s') /\ refreshEvent (rk s') = Some (t0 + period) /\
    banks (rk s') = blocked_until (t0 + tRFC c) <$> banks (rk s)).
Proof using.
  intros HtCK HtRP HtRFC HtREFI Ht H64 Hi. pose proof (id_tick _ _ Hi) as Htick. apply idle_machine in Hi.
  unfold refresh_cycle, period in *.
  wp_step. eapply wp_mono; [eapply refresh_due_wp; [|exact Hi]; lia|]. intros _ s1 [H1 B1].
  wp_step. eapply wp_mono; [eapply refresh_power_wp; [|exact H1]; lia|]. intros re s2 (_ & H2 & B2).
  wp_step. eapply wp_mono; [eapply refresh_start_wp; [..|exact H2]; lia|].
  intros _ s3 [H3 B3].
  wp_step. eapply wp_mono; [eapply refresh_done_wp; [..|exact H3]; lia|].
  intros _ s4 [H4 B4].
  eapply wp_mono; [eapply refresh_idle_wp; [|exact H4]; lia|]. intros re' s5 (-> & H5 & B5).
  split; [done|]. split; [|split].
  - eapply machine_idle; [|exact H5]. lia.
  - rewrite (ma_rev _ _ _ _ _ _ _ _ _ H5). f_equal. lia.
  - by rewrite B5, B4, B3, B2, B1.
Qed.

(** [n] refreshes, each at the tick the one before has scheduled. *)
Fixpoint refresh_cycles (n : nat) (t0 : Z) : comp rb unit :=
  match n with O => mret tt | S n' => refresh_cycle t0;; refresh_cycles n' (t0 + period) end.

Lemma refresh_cycles_wp n t0 s : tCK c <> 0 -> 0 <= tRP c -> 0 <= tRFC c -> tRP c + tRFC c <= tREFI c ->
  0 <= t0 -> t0 + Z.of_nat n * period + tREFI c + tRFC c < 2 ^ 64 -> idle t0 (rk s) ->
  wp (refresh_cycles (S n) t0) s (fun _ s' => idle (t0 + Z.of_nat (S n) * period) (rk s') /\
    refreshEvent (rk s') = Some (t0 + Z.of_nat (S n) * period) /\
    banks (rk s') = blocked_until (t0 + Z.of_nat n * period + tRFC c) <$> banks (rk s)).
Proof using.
  intros HtCK HtRP HtRFC HtREFI. assert (0 <= period) by (unfold period; lia).
  revert t0 s. induction n as [|n IH]; intros t0 s Ht H64 Hi.
  - cbn [refresh_cycles]. wp_step. eapply wp_mono; [apply refresh_cycle_wp; try done; lia|].
    intros _ s' (_ & Hi' & He & Hb). apply wp_ret.
    replace (t0 + Z.of_nat 1 * period) with (t0 + period) by lia.
    by replace (t0 + Z.of_nat 0 * period) with t0 by lia.
  - change (refresh_cycles (S (S n)) t0) with (refresh_cycle t0;; refresh_cycles (S n) (t0 + period)).
    wp_step. eapply wp_mono; [apply refresh_cycle_wp; try done; lia|]. intros _ s1 (_ & Hi1 & _ & Hb1).
    eapply wp_mono; [apply IH; [lia|lia|exact Hi1]|]. intros _ s2 (Hi2 & He2 & Hb2).
    replace (t0 + Z.of_nat (S (S n)) * period) with (t0 + period + Z.of_nat (S n) * period) by lia.
    replace (t0 + Z.of_nat (S n) * period) with (t0 + period + Z.of_nat n * period) by lia.
    split; [done|]. split; [done|]. rewrite Hb2, Hb1, <- list_fmap_compose. by apply list_fmap_ext.
Qed.

(** C34. The refreshes of an idle rank run without a fault: each takes the rank through
    its refresh and power states back to idle, keeps every bank from being activated
    for tRFC, and schedules the next one. The period is tREFI - tRP, not tREFI. *)
Theorem refresh_period n t0 s : tCK c <> 0 -> 0 <= tRP c -> 0 <= tRFC c -> tRP c + tRFC c <= tREFI c ->
  0 <= t0 -> t0 + Z.of_nat n * (tREFI c - tRP c) + tREFI c + tRFC c < 2 ^ 64 -> idle t0 (rk s) ->
  exists s', refresh_cycles (S n) t0 s = Ok (tt, s') /\
    refreshEvent (rk s') = Some (t0 + Z.of_nat (S n) * (tREFI c - tRP c)) /\
    refreshState (rk s') = REF_IDLE /\ pwrState (rk s') = PWR_IDLE /\ outstandingEvents (rk s') = 0 /\
    banks (rk s') = blocked_until (t0 + Z.of_nat n * (tREFI c - tRP c) + tRFC c) <$> banks (rk s).
Proof using.
  intros. pose proof (refresh_cycles_wp n t0 s ltac:(done) ltac:(done) ltac:(done) ltac:(done) ltac:(done)
    ltac:(done) ltac:(done)) as Hw.
  destruct (wp_inv _ _ _ Hw) as ([] & s' & E & Hi & He & Hb).
  exists s'. destruct Hi. destruct_and!. done.
Qed.
End Idle.

(** The first three refreshes of a rank that stays idle. *)
Definition calm : CtrlView := mkView (fun _ => false) (fun _ => false) false false true false.
Lemma refresh_period_witness :
  exists s', refresh_cycles small calm 1 3 1986 (mkRB (new_Rank small 0) (CmdBus.mkBus [] 4)) = Ok (tt, s') /\
    refreshEvent (rk s') = Some (1986 + 3 * 1986).
Proof.
  destruct (refresh_period small calm 1 2 1986 (mkRB (new_Rank small 0) (CmdBus.mkBus [] 4)))
    as (s' & E & He & _); [done|cbn; lia..|split; try done; cbn; lia|].
  exists s'. split; [exact E|exact He].
Defined.

(** ** A refresh that finds banks open *)

Section Busy.
Context (c : Config) (now : Z) (v : CtrlView).

(** The tick all banks can be precharged at. *)
Definition all_pre_at (bs : list Bank) : Z := foldl (fun a b => Z.max (preAllowedAt b) a) now bs.
Lemma all_pre_at_ge bs : now <= all_pre_at bs /\ Forall (fun b => preAllowedAt b <= all_pre_at bs) bs.
Proof using.
  unfold all_pre_at. generalize now as a. induction bs as [|b bs IH]; intros a; cbn [foldl]; [by split|].
  destruct (IH (Z.max (preAllowedAt b) a)) as [H1 H2]. split; [lia|]. constructor; [lia|done].
Qed.

(** A bank after all banks are closed at [pre]. *)
Definition swept (pre : Z) (bk : Bank) : Bank :=
  if openRow bk =? NO_ROW
  then bk <| actAllowedAt ::= fun x => Z.max x (tadd pre (tRP c)) |> <| preAllowedAt ::= fun x => Z.max x pre |>
  else Timing.closed c true pre bk.

(** ** The loop that closes them *)

(** The part of a rank that closing a bank leaves alone. *)
Definition kept (r r' : Rank) : Prop :=
  cmdList r' = cmdList r /\ refreshState r' = refreshState r /\ outstandingEvents r <= outstandingEvents r'.
(** A precharge event is scheduled, no earlier than [at_]. *)
Definition precharging (at_ : Z) (r : Rank) : Prop := exists e, prechargeEvent r = Some e /\ at_ <= e.

Lemma close_open_wp pre b bk s (Q : unit -> rb -> Prop) : banks (rk s) !! b = Some bk ->
  openRow bk <> NO_ROW -> numBanksActive (rk s) <> 0 -> now <= tadd pre (tRP c) ->
  (forall s', banks (rk s') = <[b := swept pre bk]> (banks (rk s)) ->
     numBanksActive (rk s') = numBanksActive (rk s) - 1 -> cmdList (rk s') = cmdList (rk s) ->
     refreshState (rk s') = refreshState (rk s) -> precharging (tadd pre (tRP c)) (rk s') -> Q tt s') ->
  wp (close_bank c now pre (tadd pre (tRP c)) b) s Q.
Proof using.
  intros Hb Ho Hn Ht HQ. pose proof (zlookup_lt _ _ _ Hb) as Hlt. destruct s as [[] cb]; cbn in *.
  unfold close_bank, prechargeBank. apply Z.eqb_neq in Ho as Ho'.
  wp_step. eapply Timing.get_bank_wp; [exact Hb|]. rewrite Ho'. cbn [negb].
  wp_step. wp_step. eapply Timing.get_bank_wp; [exact Hb|]. wp_step. apply wp_assert; [by rewrite Ho'|].
  wp_step. eapply Timing.set_bank_wp; [exact Hb|]. wp_step. wp_step.
  eapply Timing.get_bank_wp; [cbn; by apply zlookup_insert_eq|].
  wp_step. eapply Timing.set_bank_wp; [cbn; by apply zlookup_insert_eq|]. wp_step. apply wp_ret. wp_step.
  eapply Timing.get_bank_wp; [cbn; apply zlookup_insert_eq; by rewrite zlen_insert|].
  wp_step. eapply Timing.set_bank_wp; [cbn; apply zlookup_insert_eq; by rewrite zlen_insert|].
  wp_step. wp_step. wp_step. apply wp_assert; [by apply negb_true_iff, Z.eqb_neq|]. wp_step. apply wp_modify. wp_step.
  apply wp_ret. wp_step. wp_step. cbn.
  assert (Hsw : <[b := swept pre bk]> banks0 = <[b := swept pre bk]>
    (<[b := bk <| openRow := NO_ROW |> <| preAllowedAt := pre |>]> (<[b := bk <| openRow := NO_ROW |>]> banks0)))
    by (by rewrite !Timing.zinsert_insert).
  unfold swept in Hsw at 2. rewrite Ho' in Hsw.
  destruct prechargeEvent0 as [e|]; wp_step.
  - apply wp_when; intros He.
    + eapply on_event_wp; [unfold reschedule; cbn; destruct (Z.leb_spec now (tadd pre (tRP c))); [done|lia]|].
      apply wp_ret, wp_ret. cbn. apply HQ; try done. eexists. split; [done|]. lia.
    + apply wp_ret, wp_ret, HQ; try done. exists e. split; [done|]. apply Z.ltb_ge in He. lia.
  - wp_step. eapply on_event_wp; [by apply schedule_ok|]. apply wp_modify, wp_ret, wp_ret, HQ; try done.
    exists (tadd pre (tRP c)). split; [done|lia].
Qed.

Lemma close_closed_wp pre b bk s (Q : unit -> rb -> Prop) : banks (rk s) !! b = Some bk ->
  openRow bk = NO_ROW ->
  (Q tt (s <| rk ::= fun r => r <| banks := <[b := swept pre bk]> (banks (rk s)) |> |>)) ->
  wp (close_bank c now pre (tadd pre (tRP c)) b) s Q.
Proof using.
  intros Hb Ho HQ. unfold close_bank. wp_step. eapply Timing.get_bank_wp; [exact Hb|].
  unfold swept in HQ. rewrite Ho in *. change (NO_ROW =? NO_ROW) with true in *. cbn [negb].
  eapply Timing.set_bank_wp; [exact Hb|exact HQ].
Qed.

(** The first [n] elements of a list, rewritten. *)
Definition sweep {A} (f : A -> A) (n : Z) (l : list A) : list A :=
  (f <$> take (Z.to_nat n) l) ++ drop (Z.to_nat n) l.
Lemma sweep_step {A} (f : A -> A) (i : Z) l : 0 <= i < zlen l ->
  exists x, l !! i = Some x /\ sweep f i l !! i = Some x /\ drop (Z.to_nat i) l = x :: drop (Z.to_nat (i + 1)) l /\
    <[i := f x]> (sweep f i l) = sweep f (i + 1) l.
Proof using.
  intros Hi. destruct (zlookup_is_Some l i Hi) as [x Hx]. exists x. split; [done|].
  unfold lookup, zlist_lookup in Hx. destruct (Z.ltb_spec i 0) as [|_]; [lia|].
  pose proof (lookup_lt_Some _ _ _ Hx) as Hlt. unfold sweep, lookup, zlist_lookup, insert, zlist_insert.
  replace (Z.to_nat (i + 1)) with (S (Z.to_nat i)) by lia.
  destruct (Z.ltb_spec i 0) as [|_]; [lia|]. set (n := Z.to_nat i) in *.
  assert (length (f <$> take n l) = n) as Hn by (rewrite length_fmap, length_take; lia).
  pose proof (drop_S _ _ _ Hx) as Hd. split; [|split].
  - by rewrite lookup_app_r, Hn, Nat.sub_diag, Hd by lia.
  - exact Hd.
  - rewrite insert_app_r_alt by lia. rewrite Hn, Nat.sub_diag, Hd. cbn [list_insert].
    rewrite (take_S_r _ _ x) by done. rewrite fmap_app. by rewrite <- app_assoc.
Qed.

(** The state of the loop before its [i]-th turn. *)
Record sweeping (bs : list Bank) (pre i : Z) (r0 r : Rank) : Prop := {
  sw_banks : banks r = sweep (swept pre) i bs;
  sw_active : numBanksActive r = lsum Timing.is_open (drop (Z.to_nat i) bs);
  sw_cmds : cmdList r = cmdList r0;
  sw_state : refreshState r = refreshState r0;
  sw_event : numBanksActive r < numBanksActive r0 -> precharging (tadd pre (tRP c)) r
}.

Lemma is_open_01 l : 0 <= lsum Timing.is_open l.
Proof using. induction l as [|x l IH]; cbn [lsum]; [done|]. unfold Timing.is_open at 1. case_match; lia. Qed.

Lemma sweep_banks_wp pre bs s (Q : unit -> rb -> Prop) : banks (rk s) = bs ->
  numBanksActive (rk s) = lsum Timing.is_open bs -> now <= tadd pre (tRP c) ->
  (forall s', sweeping bs pre (zlen bs) (rk s) (rk s') -> Q tt s') ->
  wp (for_ (length bs) 0 (close_bank c now pre (tadd pre (tRP c)))) s Q.
Proof using.
  intros Hbs Hn Ht HQ. apply (wp_for (fun i s' => sweeping bs pre i (rk s) (rk s'))).
  - split; try done. lia.
  - intros i s' Hi [Sb Sa Sc Ss Se].
    destruct (sweep_step (swept pre) i bs) as (x & Hx & Hx' & Hd & Hins); [unfold zlen; lia|].
    rewrite Hd in Sa. cbn [lsum] in Sa. pose proof (is_open_01 (drop (Z.to_nat (i + 1)) bs)).
    destruct (decide (openRow x = NO_ROW)) as [Eo|Eo].
    + assert (Timing.is_open x = 0) as Hx0 by (unfold Timing.is_open; by rewrite Eo).
      eapply close_closed_wp; [by rewrite Sb|done|]. destruct s' as [[] ?]; cbn in *. split; try done; cbn.
      * by rewrite Sb.
      * lia.
    + assert (Timing.is_open x = 1) as Hx1
        by (unfold Timing.is_open; by destruct (Z.eqb_spec (openRow x) NO_ROW)).
      eapply close_open_wp; [by rewrite Sb|done|lia|done|].
      intros s'' Eb En Ec Es Hp. split; [by rewrite Eb, Sb|lia|congruence|congruence|done].
  - intros s' Hs'. apply HQ. replace (zlen bs) with (0 + Z.of_nat (length bs)) by (unfold zlen; lia). done.
Qed.

Lemma sweep_all {A} (f : A -> A) l : sweep f (zlen l) l = f <$> l.
Proof using. unfold sweep, zlen. rewrite Nat2Z.id, firstn_all, drop_all. apply app_nil_r. Qed.

Lemma swept_closed pre bk : 0 <= pre -> 0 <= tRP c -> pre + tRP c < 2 ^ 64 -> preAllowedAt bk <= pre ->
  openRow (swept pre bk) = NO_ROW /\ preAllowedAt (swept pre bk) = pre /\
  pre + tRP c <= actAllowedAt (swept pre bk) /\ actAllowedAt bk <= actAllowedAt (swept pre bk).
Proof using.
  intros Hp HtRP H64 Hle. unfold swept, Timing.closed.
  destruct (Z.eqb_spec (openRow bk) NO_ROW) as [Ho|Ho]; cbn; rewrite tadd_small by lia; split_and!; try done; lia.
Qed.

(** All banks of [bs] are closed: none earlier than each of them allows, and none
    can be activated before the precharge is over. *)
Record all_closed (bs : list Bank) (r r' : Rank) (pre : Z) : Prop := {
  ac_state : refreshState r' = REF_PRE;
  ac_active : numBanksActive r' = 0;
  ac_allowed : now <= pre /\ Forall (fun b => preAllowedAt b <= pre) bs;
  ac_banks : Forall2 (fun b b' => openRow b' = NO_ROW /\ preAllowedAt b' = pre /\ pre + tRP c <= actAllowedAt b' /\
    actAllowedAt b <= actAllowedAt b') bs (banks r');
  ac_command : cmdList r' = cmdList r ++ [mkCommand PREA 0 pre];
  ac_event : precharging (pre + tRP c) r'
}.

Lemma precharge_all_wp s : let bs := banks (rk s) in let pre := all_pre_at bs in
  0 <= now -> 0 <= tRP c -> pre + tRP c < 2 ^ 64 -> refreshState (rk s) = REF_PRE ->
  numBanksActive (rk s) = lsum Timing.is_open bs -> numBanksActive (rk s) <> 0 ->
  wp (precharge_all c now) s (fun _ s' => all_closed bs (rk s) (rk s') pre).
Proof using.
  intros bs pre H0 HtRP H64 Hst Hn Hne. destruct (all_pre_at_ge bs) as [Hp Hall]. fold pre in Hp, Hall.
  unfold precharge_all. wp_step. wp_step. wp_step. fold bs. change (foldl _ now bs) with pre.
  apply sweep_banks_wp; [done|done|rewrite tadd_small; lia|]. intros s' [Sb Sa Sc Ss Se]. apply wp_modify.
  rewrite sweep_all in Sb. rewrite tadd_small in Se by lia.
  assert (numBanksActive (rk s') = 0) as Hz.
  { rewrite Sa. unfold zlen. by rewrite Nat2Z.id, drop_all. }
  pose proof (is_open_01 bs). assert (precharging (pre + tRP c) (rk s')) as Hpre by (apply Se; lia).
  destruct s' as [[] ?]; cbn in *. split; cbn; [by rewrite Ss|done|by split| |by rewrite Sc|done].
  rewrite Sb. apply Forall2_fmap_r, Forall_Forall2_diag. eapply Forall_impl; [|exact Hall]. intros bk Hle.
  by apply swept_closed; [lia| | |].
Qed.

(** A refresh that finds banks open closes every one of them: no bank is precharged
    earlier than it allows, none can be activated until tRP later, and the precharge
    event that sets off the refresh proper is scheduled. *)
Theorem refresh_closes_banks activeRank s : let bs := banks (rk s) in
  0 <= now -> 0 <= tRP c -> all_pre_at bs + tRP c < 2 ^ 64 ->
  refreshState (rk s) = REF_PD_EXIT \/ refreshState (rk s) = REF_PRE -> inLowPowerState (rk s) = false ->
  numBanksActive (rk s) = lsum Timing.is_open bs -> numBanksActive (rk s) <> 0 ->
  exists s', processRefreshEvent c now v activeRank s = Ok (tt, s') /\
    all_closed bs (rk s) (rk s') (all_pre_at bs).
Proof using.
  intros bs H0 HtRP H64 Hst Hlow Hn Hne.
  enough (wp (processRefreshEvent c now v activeRank) s (fun _ s' => all_closed bs (rk s) (rk s') (all_pre_at bs)))
    as Hw by (apply wp_inv in Hw as ([] & s' & E & H); by exists s').
  destruct s as [[] cb]; cbn in *. subst inLowPowerState0 bs.
  unfold processRefreshEvent, fire, refresh_wake. destruct Hst as [-> | ->]; run;
    unfold refresh_precharge, goto; run; rewrite (proj2 (Z.eqb_neq _ _) Hne); cbn [negb]; run.
  all: eapply wp_mono; [by apply precharge_all_wp|]; intros [] s' H; wp_step; wp_step.
  all: apply wp_assert; [by rewrite (ac_active _ _ _ _ H)|]; by destruct H.
Qed.
End Busy.

(** Two banks are open when the refresh comes due. *)
Definition two_open : Rank :=
  let r := new_Rank small 0 in
  r <| refreshState := REF_PD_EXIT |> <| numBanksActive := 2 |> <| pwrState := PWR_ACT |>
    <| banks := match banks r with
                | b0 :: b1 :: bs => (b0 <| openRow := 5 |> <| preAllowedAt := 1990 |>) ::
                                    (b1 <| openRow := 7 |> <| preAllowedAt := 2011 |>) :: bs
                | bs => bs end |>.
Lemma refresh_closes_banks_witness :
  exists s', processRefreshEvent small 1986 calm 1 (mkRB two_open (CmdBus.mkBus [] 4)) = Ok (tt, s') /\
    all_closed small 1986 (banks two_open) two_open (rk s') 2011.
Proof.
  apply (refresh_closes_banks small 1986 calm 1 (mkRB two_open (CmdBus.mkBus [] 4)));
    [done|done|done|by left|done|done|done].
Defined.
End Cycle.
