(* ===== verification/NVM.v ===== *)
(** The NVM interface ([NVMInterface] in [mem/mem_interface.cc], [mem/mem_interface.hh]):
    reads that are issued to the medium and sent when their data are ready, and writes
    that the medium completes later. *)
From S2P Require Import Prelude CmdBus Packet Dram.
From stdpp Require Import sorting.
Open Scope Z_scope.

Module NVMInterface.
Import DRAMInterface.

Definition u16 (x : Z) : Z := x mod 2 ^ 16.
Arguments u16 : simpl never.
Lemma u16_small x : 0 <= x < 2 ^ 16 -> u16 x = x.
Proof. apply Z.mod_small. Qed.

(** The members of [MemInterface] are those of [mem]; its DRAM timings are not used. *)
Record NConfig := mkNConfig {
  mem : Config; maxPendingWrites : Z; maxPendingReads : Z; twoCycleRdWr : bool;
  tREAD : Z; tWRITE : Z; tSEND : Z }.
#[global] Instance eta_NConfig : Settable NConfig := fun r =>
  mkNConfig (mem r) (maxPendingWrites r) (maxPendingReads r) (twoCycleRdWr r) (tREAD r) (tWRITE r) (tSEND r).

Record NRank := mkNRank { nrank : Z; nbanks : list Bank }.
#[global] Instance eta_NRank : Settable NRank := fun r => mkNRank (nrank r) (nbanks r).

(** The histograms are the lists of their samples. *)
Record NStats := mkNStats {
  n_readBursts : Z; n_writeBursts : Z; n_perBankRdBursts : list Z; n_perBankWrBursts : list Z;
  n_totQLat : Z; n_totBusLat : Z; n_totMemAccLat : Z; n_bytesRead : Z; n_bytesWritten : Z;
  pendingReads : list Z; pendingWrites : list Z; bytesPerBank : list Z }.
#[global] Instance eta_NStats : Settable NStats := fun r =>
  mkNStats (n_readBursts r) (n_writeBursts r) (n_perBankRdBursts r) (n_perBankWrBursts r) (n_totQLat r) (n_totBusLat r)
    (n_totMemAccLat r) (n_bytesRead r) (n_bytesWritten r) (pendingReads r) (pendingWrites r) (bytesPerBank r).

Record nvm := mkNVM {
  nranks : list NRank; writeRespQueue : list Z; readReadyQueue : list Z; nextReadAt : Z;
  numPendingReads : Z; numReadDataReady : Z; numReadsToIssue : Z; numWritesQueued : Z;
  writeRespondEvent : event; readReadyEvent : event; nstats : NStats; nbus : CmdBus.t }.
#[global] Instance eta_nvm : Settable nvm := fun r =>
  mkNVM (nranks r) (writeRespQueue r) (readReadyQueue r) (nextReadAt r) (numPendingReads r) (numReadDataReady r)
    (numReadsToIssue r) (numWritesQueued r) (writeRespondEvent r) (readReadyEvent r) (nstats r) (nbus r).

(** ** Construction *)

Definition n_new_Bank (b : Z) : Bank := mkBank NO_ROW b b 0 0 0 0 0 0.
Definition n_new_Rank (c : Config) (j : Z) : NRank := mkNRank j (n_new_Bank <$> seqZ 0 (banksPerRank c)).
Definition n_stats0 (c : Config) : NStats :=
  let n := if ranksPerChannel c =? 0 then 1 else banksPerRank c * ranksPerChannel c in
  mkNStats 0 0 (calloc n 0) (calloc n 0) 0 0 0 0 0 [] [] [].
Definition n_create (c : NConfig) (mem_size : Z) (b : CmdBus.t) : result (NConfig * nvm) :=
  fatal_if (negb (isPowerOf2 (burstSize (mem c))));;
  fatal_if (negb (isPowerOf2 (ranksPerChannel (mem c))));;
  let capacity := u64 (Z.shiftl 1 (Z.log2_up mem_size)) in
  rows ← udiv capacity (u32 (rowBufferSize (mem c) * banksPerRank (mem c) * ranksPerChannel (mem c)));
  let c := c <| mem ::= fun m => m <| rowsPerBank := u32 rows |> |> in
  Ok (c, mkNVM (n_new_Rank (mem c) <$> seqZ 0 (ranksPerChannel (mem c))) [] [] 0 0 0 0 0 None None (n_stats0 (mem c)) b).

(** ** Queries *)

Section Code.
Context (c : NConfig) (now : Z) (v : CtrlView).

Definition n_commandOffset : Z := tBURST (mem c).
(** [MemInterface::writeToReadDelay], which only the DRAM interface overrides. *)
Definition n_writeToReadDelay : Z := u64 (tBURST (mem c) + tWTR (mem c)).
Definition n_accessLatency : Z := u64 (tREAD c + tSEND c).
Definition writeRespQueueEmpty (s : nvm) : bool := match writeRespQueue s with [] => true | _ => false end.
Definition n_allRanksDrained (s : nvm) : bool := writeRespQueueEmpty s.
Definition writeRespQueueFull (s : nvm) : bool := zlen (writeRespQueue s) =? maxPendingWrites c.
Definition readsWaitingToIssue (s : nvm) : bool :=
  negb (numReadsToIssue s =? 0) && (numPendingReads s <? maxPendingReads c).
Definition n_burstReady (s : nvm) (p : MemPacket) : bool :=
  isRead p && inReadBusState v true && (readyTime p <=? now) && (0 <? numReadDataReady s)
  || negb (isRead p) && negb (inReadBusState v true) && negb (writeRespQueueFull s).
Definition n_isBusy (read_queue_empty all_writes_nvm : bool) (s : nvm) : bool :=
  if inReadBusState v true then (numReadDataReady s =? 0) && negb read_queue_empty
  else writeRespQueueFull s && read_queue_empty && all_writes_nvm.

Definition n_setupRank (is_read : bool) : comp nvm unit :=
  modify (fun s => if is_read then s <| numReadsToIssue ::= fun n => u16 (n + 1) |>
                   else s <| numWritesQueued ::= fun n => u32 (n + 1) |>).

Definition n_bank (s : nvm) (p : MemPacket) : result Bank :=
  r ← aread (nranks s) (rank p); aread (nbanks r) (bank p).
Definition n_set_bank (p : MemPacket) (b : Bank) : comp nvm unit :=
  s ← get;
  r ← lift (aread (nranks s) (rank p)); l ← lift (awrite (nbanks r) (bank p) b);
  v ← lift (awrite (nranks s) (rank p) (r <| nbanks := l |>));
  modify (fun s => s <| nranks := v |>).

(** ** Scheduling *)

(** The scan of the queue: the packet found so far and its column tick. *)
Fixpoint n_choose_loop (s : nvm) (min_col_at i : Z) (q : list MemPacket) (found_prepped_pkt : bool)
    (sel : option Z * Z) : result (option Z * Z) :=
  match q with
  | [] => Ok sel
  | p :: q' =>
      if isDram p then n_choose_loop s min_col_at (i + 1) q' found_prepped_pkt sel
      else
        b ← n_bank s p;
        let col_allowed_at := if isRead p then rdAllowedAt b else wrAllowedAt b in
        if n_burstReady s p then
          if col_allowed_at <=? min_col_at then Ok (Some i, col_allowed_at)
          else if negb found_prepped_pkt then n_choose_loop s min_col_at (i + 1) q' true (Some i, col_allowed_at)
          else n_choose_loop s min_col_at (i + 1) q' found_prepped_pkt sel
        else n_choose_loop s min_col_at (i + 1) q' found_prepped_pkt sel
  end.
Definition n_chooseNextFRFCFS (s : nvm) (queue : list MemPacket) (min_col_at : Z) : result (option Z * Z) :=
  n_choose_loop s min_col_at 0 queue false (None, MaxTick).

Definition n_verifyCmd (multi : bool) (tick split : Z) : comp nvm Z :=
  zoom nbus (fun b s => s <| nbus := b |>)
    (if multi then CmdBus.verifyMultiCmd tick (maxCommandsPerWindow (mem c)) split
     else CmdBus.verifySingleCmd tick (maxCommandsPerWindow (mem c))).

(** The row of the packet is in the buffer of its bank: the bank, and the sample of the
    bytes read of the row it replaces. *)
Definition rebuffer (p : MemPacket) (b : Bank) : Bank * list Z :=
  if openRow b =? row p then (b, [])
  else (b <| openRow := row p |> <| bytesAccessed := 0 |>, [bytesAccessed b]).
Definition sample_bytes (l : list Z) : comp nvm unit :=
  modify (fun s => s <| nstats ::= fun st => st <| bytesPerBank ::= fun k => k ++ l |> |>).

(** The first NVM read without a read command is issued; it stays in the queue. *)
Definition unissued (p : MemPacket) : bool := (readyTime p =? MaxTick) && negb (isDram p) && isRead p.
Definition issue_read (p : MemPacket) : comp nvm MemPacket :=
  s ← get;
  let cmd_at := Z.max now (nextReadAt s) in
  b ← lift (n_bank s p);
  modify (fun s => s <| numPendingReads ::= fun n => u16 (n + 1) |>);;
  s ← get;
  assert_ (numPendingReads s <=? maxPendingReads c);;
  let b := b <| bytesAccessed ::= fun n => u32 (n + burstSize (mem c)) |> in
  cmd_at ← n_verifyCmd (twoCycleRdWr c) cmd_at (tCK (mem c));
  modify (fun s => s <| nextReadAt := tadd cmd_at (tCK (mem c)) |>);;
  let '(b', sample) := rebuffer p b in
  let b' := if openRow b =? row p then b'
            else b' <| actAllowedAt := tadd (Z.max cmd_at (actAllowedAt b)) (tREAD c) |> in
  n_set_bank p b';; sample_bytes sample;;
  let ready := Z.max cmd_at (actAllowedAt b') in
  s ← get;
  (match readReadyQueue s with
   | [] => e ← lift (schedule now (readReadyEvent s) ready); modify (fun s => s <| readReadyEvent := e |>)
   | _ => match readReadyEvent s with
          | None => lift (Fault AssertFail)
          | Some when => when_ (ready <? when) (
              e ← lift (reschedule now (readReadyEvent s) ready); modify (fun s => s <| readReadyEvent := e |>))
          end
   end);;
  modify (fun s => s <| readReadyQueue ::= fun l => l ++ [ready] |>);;
  mret (p <| readyTime := ready |>).
Fixpoint issue_first (q : list MemPacket) : comp nvm (list MemPacket) :=
  match q with
  | [] => mret []
  | p :: q' => if unissued p then p' ← issue_read p; mret (p' :: q')
               else q'' ← issue_first q'; mret (p :: q'')
  end.
Definition chooseRead (queue : list MemPacket) : comp nvm (list MemPacket) :=
  assert_ (match queue with [] => false | _ => true end);;
  s ← get;
  assert_ (0 <? numReadsToIssue s);;
  modify (fun s => s <| numReadsToIssue ::= fun n => u16 (n - 1) |>);;
  issue_first queue.

(** ** Events *)

(** The scan for the lowest and the next lowest ready time: [i] is the position of [q]
    in the queue, [ready_it] that of the lowest, [ready] its tick. *)
Fixpoint scan_ready (q : list Z) (i ready_it ready next_ready_at : Z) : Z * Z * Z :=
  match q with
  | [] => (ready_it, ready, next_ready_at)
  | x :: q' =>
      if x <? ready then scan_ready q' (i + 1) i x ready
      else if (x <? next_ready_at) && negb (i =? ready_it) then scan_ready q' (i + 1) ready_it ready x
      else scan_ready q' (i + 1) ready_it ready next_ready_at
  end.
(** The result says that the handler restarts the controller's scheduler. *)
Definition processReadReadyEvent : comp nvm bool :=
  modify (fun s => s <| readReadyEvent := None |>);;
  modify (fun s => s <| numReadDataReady ::= fun n => u16 (n + 1) |>);;
  s ← get;
  first ← lift (aread (readReadyQueue s) 0);
  let '(ready_it, ready, next_ready_at) := scan_ready (readReadyQueue s) 0 0 first MaxTick in
  assert_ (ready =? now);;
  let l := take (Z.to_nat ready_it) (readReadyQueue s) ++ drop (S (Z.to_nat ready_it)) (readReadyQueue s) in
  modify (fun s => s <| readReadyQueue := l |>);;
  (match l with
   | [] => mret tt
   | front :: _ =>
       assert_ (now <=? front);;
       s ← get;
       e ← lift (schedule now (readReadyEvent s) next_ready_at);
       modify (fun s => s <| readReadyEvent := e |>)
   end);;
  mret (negb (requestEventScheduled v)).

Definition processWriteRespondEvent : comp nvm bool :=
  modify (fun s => s <| writeRespondEvent := None |>);;
  modify (fun s => s <| nstats ::= fun st => st <| pendingWrites ::= fun l => l ++ [zlen (writeRespQueue s)] |> |>);;
  s ← get;
  (match writeRespQueue s with
   | [] => lift (Fault OutOfBounds)
   | _ :: l =>
       modify (fun s => s <| writeRespQueue := l |>);;
       match l with
       | [] => mret tt
       | front :: _ =>
           assert_ (now <=? front);;
           s ← get;
           e ← lift (schedule now (writeRespondEvent s) front);
           modify (fun s => s <| writeRespondEvent := e |>)
       end
   end);;
  mret (negb (requestEventScheduled v)).

(** ** The burst *)

Definition n_delay_bank (p : MemPacket) (cmd_at : Z) (same_rank : bool) (b : Bank) : Bank :=
  let dly_to_rd_cmd := if same_rank then (if isRead p then tBURST (mem c) else n_writeToReadDelay) else rankToRankDelay (mem c) in
  let dly_to_wr_cmd := if same_rank then (if isRead p then readToWriteDelay (mem c) else tBURST (mem c)) else rankToRankDelay (mem c) in
  b <| rdAllowedAt ::= Z.max (tadd cmd_at dly_to_rd_cmd) |> <| wrAllowedAt ::= Z.max (tadd cmd_at dly_to_wr_cmd) |>.
Definition n_delay_ranks (p : MemPacket) (cmd_at : Z) (l : list NRank) : list NRank :=
  (fun r => r <| nbanks ::= fmap (n_delay_bank p cmd_at (rank p =? nrank r)) |>) <$> l.
Definition n_addRankToRankDelay (cmd_at : Z) : comp nvm unit :=
  modify (fun s => s <| nranks ::= fmap (fun r => r <| nbanks ::= fmap (fun b =>
    b <| rdAllowedAt ::= Z.max (tadd cmd_at (rankToRankDelay (mem c))) |>
      <| wrAllowedAt ::= Z.max (tadd cmd_at (rankToRankDelay (mem c))) |>) |>) |>).

Definition read_sent : comp nvm unit :=
  s ← get;
  assert_ (negb (numPendingReads s =? 0));;
  assert_ (negb (numReadDataReady s =? 0));;
  modify (fun s => s <| numPendingReads ::= fun n => n - 1 |> <| numReadDataReady ::= fun n => n - 1 |>).

#[global] Instance le_dec : RelDecision Z.le := fun x y => decide (x <= y).
(** A write goes to the medium, which completes it at [done_at]. *)
Definition track_write (done_at : Z) : comp nvm unit :=
  s ← get;
  assert_ (negb (writeRespQueueFull s));;
  (match writeRespQueue s with
   | [] => e ← lift (schedule now (writeRespondEvent s) done_at); modify (fun s => s <| writeRespondEvent := e |>)
   | _ => assert_ (scheduled (writeRespondEvent s))
   end);;
  modify (fun s => s <| writeRespQueue ::= fun l => merge_sort Z.le (l ++ [done_at]) |>);;
  s ← get;
  match writeRespondEvent s with
  | None => lift (Fault AssertFail)
  | Some when => when_ (done_at <? when) (
      e ← lift (reschedule now (writeRespondEvent s) done_at); modify (fun s => s <| writeRespondEvent := e |>))
  end.
Definition write_sent (p : MemPacket) : comp nvm unit :=
  s ← get;
  assert_ (0 <? numWritesQueued s);;
  modify (fun s => s <| numWritesQueued ::= fun n => n - 1 |>);;
  b ← lift (n_bank s p);
  let b := b <| bytesAccessed ::= fun n => u32 (n + burstSize (mem c)) |> in
  let '(b, sample) := if bank_no b =? bank p then rebuffer p b else (b, []) in
  let b := b <| actAllowedAt ::= fun x => tadd (Z.max (readyTime p) x) (tWRITE c) |> in
  n_set_bank p b;; sample_bytes sample;;
  track_write (actAllowedAt b).

Definition n_count_burst (p : MemPacket) (cmd_at : Z) (pending : Z) (st : NStats) : result NStats :=
  if isRead p then
    l ← bump_bank (n_perBankRdBursts st) (bankId p);
    Ok (st <| n_readBursts ::= Z.succ |> <| n_bytesRead ::= Z.add (burstSize (mem c)) |> <| n_perBankRdBursts := l |>
           <| pendingReads ::= fun k => k ++ [pending] |>
           <| n_totMemAccLat ::= Z.add (tsub (readyTime p) (entryTime p)) |>
           <| n_totBusLat ::= Z.add (tBURST (mem c)) |> <| n_totQLat ::= Z.add (tsub cmd_at (entryTime p)) |>)
  else
    l ← bump_bank (n_perBankWrBursts st) (bankId p);
    Ok (st <| n_writeBursts ::= Z.succ |> <| n_bytesWritten ::= Z.add (burstSize (mem c)) |> <| n_perBankWrBursts := l |>).

Definition n_doBurstAccess (mem_pkt : MemPacket) (next_burst_at : Z) : comp nvm (MemPacket * (Z * Z)) :=
  s ← get;
  b ← lift (n_bank s mem_pkt);
  let bst_allowed_at := if isRead mem_pkt then rdAllowedAt b else wrAllowedAt b in
  let cmd_at := Z.max (Z.max bst_allowed_at now) next_burst_at in
  cmd_at ← n_verifyCmd (negb (isRead mem_pkt || negb (twoCycleRdWr c))) cmd_at (tCK (mem c));
  let mem_pkt := mem_pkt <| readyTime := tadd (tadd cmd_at (tSEND c)) (tBURST (mem c)) |> in
  modify (fun s => s <| nranks ::= n_delay_ranks mem_pkt cmd_at |>);;
  (if isRead mem_pkt then read_sent else write_sent mem_pkt);;
  s ← get;
  st ← lift (n_count_burst mem_pkt cmd_at (numPendingReads s) (nstats s));
  modify (fun s => s <| nstats := st |>);;
  mret (mem_pkt, (cmd_at, tadd cmd_at (tBURST (mem c)))).
End Code.
End NVMInterface.
