(* ===== verification/NVMInv.v ===== *)
(** The invariant of the NVM interface: the counters of the reads, the two queues of
    completions and their events stay in step, and no operation faults; and what a read
    issued from the wrong queue does. *)
From S2P Require Import Prelude CmdBus Packet Dram DramTiming NVM.
From stdpp Require Import sorting.
Open Scope Z_scope.
Import DRAMInterface NVMInterface Timing.

Module NVMInv.

(** ** The earliest of a queue of ticks *)

Definition mn (l : list Z) : Z := foldr Z.min MaxTick l.
(** The event of a queue: scheduled at its earliest tick. *)
Definition event_of (l : list Z) : event := match l with [] => None | _ => Some (mn l) end.

Lemma mn_app l x : x <= MaxTick -> mn (l ++ [x]) = Z.min (mn l) x.
Proof. intros Hx. induction l as [|y l IH]; unfold mn in *; cbn in *; [lia|]. rewrite IH. lia. Qed.
Lemma mn_lower l c : c <= MaxTick -> Forall (fun x => c <= x) l -> c <= mn l.
Proof. intros Hc H. induction H as [|x l Hx _ IH]; unfold mn in *; cbn; lia. Qed.
Lemma mn_elem l x : In x l -> mn l <= x.
Proof. induction l as [|y l IH]; [done|]. unfold mn in *. cbn. intros [-> | Hx%IH]; lia. Qed.
Lemma mn_perm l l' : l ≡ₚ l' -> mn l = mn l'.
Proof. intros H. induction H; unfold mn in *; cbn in *; lia. Qed.
Lemma mn_sorted x l : StronglySorted Z.le (x :: l) -> x <= MaxTick -> mn (x :: l) = x.
Proof.
  intros H Hx. apply StronglySorted_inv in H as [_ Hl]. pose proof (mn_lower l x Hx Hl). unfold mn in *. cbn. lia.
Qed.
Lemma event_of_app l x : x <= MaxTick -> event_of (l ++ [x]) = Some (Z.min (mn l) x).
Proof. intros Hx. rewrite <- mn_app by done. by destruct l. Qed.

(** Without the element at [k]. *)
Definition without (k : nat) (l : list Z) : list Z := take k l ++ drop (S k) l.
Lemma without_app k l x : (k < length l)%nat -> without k (l ++ [x]) = without k l ++ [x].
Proof. intros Hk. unfold without. rewrite take_app_le, drop_app_le, app_assoc by lia. done. Qed.
Lemma without_last l x : without (length l) (l ++ [x]) = l.
Proof. unfold without. rewrite take_app_length, drop_ge, app_nil_r; [done|]. rewrite length_app. cbn. lia. Qed.
Lemma without_incl k l x : In x (without k l) -> In x l.
Proof.
  unfold without. intros [H|H]%in_app_iff; rewrite <- (take_drop k l); apply in_app_iff; [by left|right].
  rewrite <- (Nat.add_1_r k), <- drop_drop in H. rewrite <- (take_drop 1 (drop k l)). apply in_app_iff. by right.
Qed.
Lemma zlen_without k l : (k < length l)%nat -> zlen (without k l) = zlen l - 1.
Proof. intros Hk. unfold without, zlen. rewrite length_app, length_take, length_drop. lia. Qed.

Lemma scan_ready_spec l pre (k : nat) : pre <> [] -> (k < length pre)%nat -> Forall (fun x => x < MaxTick) (pre ++ l) ->
  exists j : nat, (j < length (pre ++ l))%nat /\
    scan_ready l (zlen pre) (Z.of_nat k) (mn pre) (mn (without k pre)) =
      (Z.of_nat j, mn (pre ++ l), mn (without j (pre ++ l))).
Proof.
  revert pre k. induction l as [|x l IH]; intros pre k Hne Hk Hl; cbn [scan_ready].
  { exists k. rewrite app_nil_r. done. }
  pose proof Hl as Hx. rewrite List.Forall_app in Hx. destruct Hx as [Hp Hx%Forall_cons_1]. destruct Hx as [Hx _].
  assert (zlen pre + 1 = zlen (pre ++ [x])) as -> by (unfold zlen; rewrite length_app; cbn; lia).
  replace (pre ++ x :: l) with ((pre ++ [x]) ++ l) in * by (by rewrite <- app_assoc).
  pose proof (mn_app pre x ltac:(lia)) as Emn. assert (pre ++ [x] <> []) as Hne' by (by destruct pre).
  destruct (Z.ltb_spec x (mn pre)) as [Hlt|Hge].
  - assert (scan_ready l (zlen (pre ++ [x])) (zlen pre) x (mn pre) =
      scan_ready l (zlen (pre ++ [x])) (Z.of_nat (length pre)) (mn (pre ++ [x])) (mn (without (length pre) (pre ++ [x])))) as ->
      by (rewrite without_last; f_equal; lia).
    apply IH; [done|rewrite length_app; cbn; lia|done].
  - assert (k <> length pre) as Hkl by lia. pose proof (mn_app (without k pre) x ltac:(lia)) as Emn'.
    rewrite <- (without_app k pre x Hk) in Emn'.
    assert ((if (x <? mn (without k pre)) && negb (zlen pre =? Z.of_nat k)
             then scan_ready l (zlen (pre ++ [x])) (Z.of_nat k) (mn pre) x
             else scan_ready l (zlen (pre ++ [x])) (Z.of_nat k) (mn pre) (mn (without k pre))) =
            scan_ready l (zlen (pre ++ [x])) (Z.of_nat k) (mn (pre ++ [x])) (mn (without k (pre ++ [x])))) as ->.
    { unfold zlen at 1. destruct (Z.eqb_spec (Z.of_nat (length pre)) (Z.of_nat k)); [lia|]. cbn [negb].
      rewrite andb_true_r. destruct (Z.ltb_spec x (mn (without k pre))); f_equal; lia. }
    apply IH; [done|rewrite length_app; cbn; lia|done].
Qed.
(** The scan of the whole queue. *)
Lemma scan_ready_all x l : Forall (fun x => x < MaxTick) (x :: l) -> exists j : nat, (j < length (x :: l))%nat /\
  scan_ready (x :: l) 0 0 x MaxTick = (Z.of_nat j, mn (x :: l), mn (without j (x :: l))).
Proof.
  intros H. pose proof H as Hx%Forall_cons_1. destruct Hx as [Hx _].
  destruct (scan_ready_spec l [x] 0%nat ltac:(done) ltac:(cbn; lia) H) as (j & Hj & E). exists j. split; [done|].
  cbn [app] in *. rewrite <- E. cbn [scan_ready]. rewrite Z.ltb_irrefl. rewrite andb_false_r.
  assert (mn [x] = x) as -> by (unfold mn; cbn; lia). done.
Qed.

(** ** The invariant *)

Section Inv.
Context (c : NConfig) (w D : Z).

(** The delays of the medium and of the bus are at most [D] ticks. *)
Record ncfg_ok : Prop := {
  nc_cmds : 0 < maxCommandsPerWindow (mem c);
  nc_tCK : 0 < tCK (mem c) <= D;
  nc_tREAD : 0 <= tREAD c <= D;
  nc_tWRITE : 0 <= tWRITE c <= D;
  nc_tSEND : 0 <= tSEND c <= D;
  nc_tBURST : 0 <= tBURST (mem c) <= D;
  nc_turn : 0 <= n_writeToReadDelay c <= D /\ 0 <= readToWriteDelay (mem c) <= D /\ 0 <= rankToRankDelay (mem c) <= D;
  nc_reads : maxPendingReads c < 2 ^ 16 - 1
}.
Hypothesis Hcfg : ncfg_ok.

(** Banks whose ticks are up to [H], in ranks of the right shape. *)
Definition nbank_ok (H : Z) (b : Bank) : Prop :=
  tick_ok H (rdAllowedAt b) /\ tick_ok H (wrAllowedAt b) /\ tick_ok H (actAllowedAt b).
Definition nrank_ok (H : Z) (r : NRank) : Prop :=
  zlen (nbanks r) = banksPerRank (mem c) /\ Forall (nbank_ok H) (nbanks r).
Record n_dev (H : Z) (s : nvm) : Prop := {
  nd_ranks : zlen (nranks s) = ranksPerChannel (mem c);
  nd_banks : Forall (nrank_ok H) (nranks s);
  nd_next : tick_ok H (nextReadAt s);
  nd_bus : bus_ok (maxCommandsPerWindow (mem c)) H (nbus s);
  nd_window : CmdBus.commandWindow (nbus s) = w;
  nd_stats : zlen (n_perBankRdBursts (nstats s)) = banksPerRank (mem c) * ranksPerChannel (mem c) /\
             zlen (n_perBankWrBursts (nstats s)) = banksPerRank (mem c) * ranksPerChannel (mem c)
}.
(** A pending read is in the queue of the medium or its data are ready; the event is at
    the earliest ready time. *)
Record n_reads (now H : Z) (s : nvm) : Prop := {
  nr_pending : numPendingReads s = numReadDataReady s + zlen (readReadyQueue s);
  nr_data : 0 <= numReadDataReady s;
  nr_limit : numPendingReads s <= maxPendingReads c;
  nr_event : readReadyEvent s = event_of (readReadyQueue s);
  nr_ticks : Forall (fun x => now <= x <= H) (readReadyQueue s)
}.
Record n_writes (now H : Z) (s : nvm) : Prop := {
  nw_sorted : StronglySorted Z.le (writeRespQueue s);
  nw_event : writeRespondEvent s = event_of (writeRespQueue s);
  nw_ticks : Forall (fun x => now <= x <= H) (writeRespQueue s);
  nw_limit : zlen (writeRespQueue s) <= maxPendingWrites c
}.
Definition n_ok (now H : Z) (s : nvm) : Prop := n_dev H s /\ n_reads now H s /\ n_writes now H s.
Definition n_room (now H : Z) : Prop := 0 <= now <= H /\ 0 < w /\ 0 <= D /\ H + 4 * w + 5 * D < MaxTick.
Definition decoded (p : MemPacket) : Prop :=
  0 <= rank p < ranksPerChannel (mem c) /\ 0 <= bank p < banksPerRank (mem c) /\
  0 <= bankId p < banksPerRank (mem c) * ranksPerChannel (mem c).
(** The horizon after one operation. *)
Definition beyond (H : Z) : Z := H + 2 * w + 3 * D.

Lemma nbank_ok_mono H H' b : H <= H' -> nbank_ok H b -> nbank_ok H' b.
Proof using. unfold nbank_ok, tick_ok. lia. Qed.
Lemma nrank_ok_mono H H' r : H <= H' -> nrank_ok H r -> nrank_ok H' r.
Proof using. intros Hle [? Hb]. split; [done|]. eapply List.Forall_impl; [|exact Hb]. intros b. by apply nbank_ok_mono. Qed.
Lemma ticks_mono now H H' l : H <= H' -> Forall (fun x => now <= x <= H) l -> Forall (fun x => now <= x <= H') l.
Proof using. intros Hle Hl. eapply List.Forall_impl; [|exact Hl]. cbn. lia. Qed.

Lemma n_bank_ok H s p : n_dev H s -> decoded p ->
  exists r b, nranks s !! rank p = Some r /\ nbanks r !! bank p = Some b /\ n_bank s p = Ok b /\ nrank_ok H r /\ nbank_ok H b.
Proof using.
  intros Hs (Hr & Hb & _). destruct (zlookup_is_Some (nranks s) (rank p)) as [r Er]; [rewrite (nd_ranks _ _ Hs); lia|].
  pose proof (Forall_zlookup _ _ _ _ (nd_banks _ _ Hs) Er) as Hrk. pose proof Hrk as [El Hbk].
  destruct (zlookup_is_Some (nbanks r) (bank p)) as [b Eb]; [lia|]. exists r, b.
  split; [done|]. split; [done|]. split; [unfold n_bank, aread; rewrite Er; cbn; by rewrite Eb|]. split; [done|].
  exact (Forall_zlookup _ _ _ _ Hbk Eb).
Qed.
(** The ranks with one bank replaced. *)
Definition put_bank (p : MemPacket) (b : Bank) (r : NRank) (s : nvm) : nvm :=
  s <| nranks ::= <[rank p := r <| nbanks ::= <[bank p := b]> |>]> |>.
Lemma n_set_bank_wp s p r b b0 (Q : unit -> nvm -> Prop) : nranks s !! rank p = Some r -> nbanks r !! bank p = Some b0 ->
  Q tt (put_bank p b r s) -> wp (n_set_bank p b) s Q.
Proof using.
  intros Hr Hb HQ. pose proof (zlookup_lt _ _ _ Hr). pose proof (zlookup_lt _ _ _ Hb). unfold n_set_bank. wp_steps.
  unfold aread. rewrite Hr. wp_steps. apply rp_awrite; [done|]. wp_steps. apply rp_awrite; [done|]. wp_steps. exact HQ.
Qed.
Lemma put_bank_ok H H' s p r b b0 : H <= H' -> Forall (nrank_ok H) (nranks s) -> nranks s !! rank p = Some r ->
  nbanks r !! bank p = Some b0 -> nbank_ok H' b -> Forall (nrank_ok H') (nranks (put_bank p b r s)).
Proof using.
  intros Hle Hs Hr Hb Hok. cbn. apply Forall_zinsert.
  - eapply List.Forall_impl; [|exact Hs]. intros x. by apply nrank_ok_mono.
  - pose proof (Forall_zlookup _ _ _ _ Hs Hr) as [El Hbk]. split; cbn; [by rewrite zlen_insert|].
    apply Forall_zinsert; [|done]. eapply List.Forall_impl; [|exact Hbk]. intros x. by apply nbank_ok_mono.
Qed.
Lemma n_verifyCmd_wp multi tick split now H s (Q : Z -> nvm -> Prop) : n_room now H ->
  bus_ok (maxCommandsPerWindow (mem c)) H (nbus s) -> CmdBus.commandWindow (nbus s) = w ->
  0 <= tick <= H -> (multi = true -> 0 < split <= D) ->
  (forall at_ bus', tick <= at_ <= H + 2 * w -> bus_ok (maxCommandsPerWindow (mem c)) (H + 2 * w) bus' ->
     CmdBus.commandWindow bus' = w -> Q at_ (s <| nbus := bus' |>)) ->
  wp (n_verifyCmd c multi tick split) s Q.
Proof using Hcfg.
  intros (Hn & Hw & HD & H64) Hb Hcw Ht Hs HQ. unfold n_verifyCmd. apply wp_zoom. unfold MaxTick in *.
  eapply (bus_verify_wp _ _ _ _ H w D); done || exact (nc_cmds Hcfg) || lia.
Qed.

Lemma n_dev_mono H H' s : H <= H' -> n_dev H s -> n_dev H' s.
Proof using.
  intros Hle []. split; try done.
  - eapply List.Forall_impl; [|eassumption]. intros r. by apply nrank_ok_mono.
  - unfold tick_ok in *. lia.
  - by eapply bus_ok_mono.
Qed.
Lemma n_reads_mono now H H' s : H <= H' -> n_reads now H s -> n_reads now H' s.
Proof using. intros Hle []. split; try done. by eapply ticks_mono. Qed.
Lemma n_writes_mono now H H' s : H <= H' -> n_writes now H s -> n_writes now H' s.
Proof using. intros Hle []. split; try done. by eapply ticks_mono. Qed.
(** The fields a component of the invariant reads. *)
Lemma n_reads_frame now H s s' : n_reads now H s -> numPendingReads s' = numPendingReads s ->
  numReadDataReady s' = numReadDataReady s -> readReadyQueue s' = readReadyQueue s -> readReadyEvent s' = readReadyEvent s ->
  n_reads now H s'.
Proof using. intros [] E1 E2 E3 E4. split; by rewrite ?E1, ?E2, ?E3, ?E4. Qed.
Lemma n_writes_frame now H s s' : n_writes now H s -> writeRespQueue s' = writeRespQueue s ->
  writeRespondEvent s' = writeRespondEvent s -> n_writes now H s'.
Proof using. intros [] E1 E2. split; by rewrite ?E1, ?E2. Qed.
Lemma n_dev_frame H s s' : n_dev H s -> nranks s' = nranks s -> nextReadAt s' = nextReadAt s -> nbus s' = nbus s ->
  n_perBankRdBursts (nstats s') = n_perBankRdBursts (nstats s) -> n_perBankWrBursts (nstats s') = n_perBankWrBursts (nstats s) ->
  n_dev H s'.
Proof using. intros [] E1 E2 E3 E4 E5. split; by rewrite ?E1, ?E2, ?E3, ?E4, ?E5. Qed.
Lemma put_bank_dev H H' s p r b b0 : H <= H' -> n_dev H s -> nranks s !! rank p = Some r ->
  nbanks r !! bank p = Some b0 -> nbank_ok H' b -> n_dev H' (put_bank p b r s).
Proof using.
  intros Hle Hs Hr Hb Hok. pose proof (put_bank_ok H H' s p r b b0 Hle (nd_banks _ _ Hs) Hr Hb Hok) as HB.
  pose proof (n_dev_mono _ _ _ Hle Hs) as []. split; try done. cbn. by rewrite zlen_insert.
Qed.

(** ** A read is issued *)

Lemma read_event_wp now H r s (Q : unit -> nvm -> Prop) : readReadyEvent s = event_of (readReadyQueue s) ->
  now <= r <= H -> H <= MaxTick -> Q tt (s <| readReadyEvent := Some (Z.min (mn (readReadyQueue s)) r) |>) ->
  wp (match readReadyQueue s with
   | [] => e ← lift (schedule now (readReadyEvent s) r); modify (fun s => s <| readReadyEvent := e |>)
   | _ => match readReadyEvent s with
          | None => lift (Fault AssertFail)
          | Some when => when_ (r <? when) (
              e ← lift (reschedule now (readReadyEvent s) r); modify (fun s => s <| readReadyEvent := e |>))
          end
   end) s Q.
Proof using.
  intros He Hr HM HQ. rewrite He. destruct (readReadyQueue s) as [|x l] eqn:El; cbn [event_of].
  - wp_steps. unfold schedule. destruct (Z.leb_spec now r); [|lia]. cbn. unfold mn in HQ. cbn in HQ.
    rewrite Z.min_r in HQ by lia. exact HQ.
  - apply wp_when; intros Hlt.
    + wp_steps. unfold reschedule. destruct (Z.leb_spec now r); [|lia]. cbn.
      apply Z.ltb_lt in Hlt. by rewrite Z.min_r in HQ by lia.
    + apply Z.ltb_ge in Hlt. rewrite Z.min_l in HQ by lia. by destruct s; cbn in *; subst.
Qed.
Lemma rebuffer_ok H (p : MemPacket) b : nbank_ok H b -> nbank_ok H (rebuffer p b).1.
Proof using. unfold rebuffer. by destruct (_ =? _). Qed.

(** What issuing a read adds to the queue of the medium. *)
Definition issued (s s' : nvm) (ready : Z) : Prop :=
  numPendingReads s' = numPendingReads s + 1 /\ readReadyQueue s' = readReadyQueue s ++ [ready] /\
  numReadDataReady s' = numReadDataReady s /\ numReadsToIssue s' = numReadsToIssue s /\
  numWritesQueued s' = numWritesQueued s.
Lemma issue_read_wp now H p s : n_room now H -> n_ok now H s -> decoded p -> numPendingReads s < maxPendingReads c ->
  wp (issue_read c now p) s (fun p' s' => exists ready, p' = p <| readyTime := ready |> /\ now <= ready <= beyond H /\
    n_ok now (beyond H) s' /\ issued s s' ready).
Proof using Hcfg.
  intros (Hn & Hw & HD & HM) (Hdev & Hrd & Hwr) Hp Hlim. unfold beyond.
  destruct (n_bank_ok _ _ _ Hdev Hp) as (r & b & Er & Eb & Enb & Hrk & Hbk).
  unfold issue_read. wp_step. wp_step. wp_step. wp_step. rewrite Enb. cbn [rp]. wp_step. wp_step. wp_step. wp_step.
  pose proof Hrd as []. pose proof (nc_reads Hcfg). pose proof (zlen_nonneg (readReadyQueue s)).
  set (s1 := s <| numPendingReads ::= _ |>).
  assert (numPendingReads s1 = numPendingReads s + 1) as E1 by (cbn; rewrite u16_small; lia).
  wp_step. apply wp_assert; [apply Z.leb_le; lia|]. wp_step.
  pose proof (nd_next _ _ Hdev) as Hnx. unfold tick_ok in Hnx.
  eapply (n_verifyCmd_wp _ _ _ now H); [by repeat split; lia|exact (nd_bus _ _ Hdev)|exact (nd_window _ _ Hdev)|lia| |].
  { intros _. exact (nc_tCK Hcfg). }
  intros at_ bus' Hat Hbus Hcw. pose proof (nc_tCK Hcfg). pose proof (nc_tREAD Hcfg). unfold MaxTick in *.
  wp_step. wp_step. set (b1 := b <| bytesAccessed ::= _ |>).
  assert (nbank_ok H b1) as Hb1 by done. destruct (rebuffer p b1) as [b2 smp] eqn:Erb.
  assert (nbank_ok H b2) as Hb2 by (pose proof (rebuffer_ok H p b1 Hb1) as HX; by rewrite Erb in HX).
  set (b3 := if openRow b1 =? row p then b2 else _).
  assert (nbank_ok (H + 2 * w + D) b3) as Hb3.
  { subst b3. destruct Hb2 as (? & ? & ?), Hbk as (? & ? & ?). unfold tick_ok in *.
    destruct (_ =? _); (split; [|split]; unfold tick_ok); cbn; rewrite ?tadd_small; cbn; try lia. }
  set (s2 := _ <| nextReadAt := _ |>). wp_step.
  apply (n_set_bank_wp s2 p r b3 b); [exact Er|exact Eb|]. wp_step. unfold sample_bytes at 1. wp_step.
  set (ready := Z.max at_ (actAllowedAt b3)). set (s3 := _ <| nstats ::= _ |>). wp_step. wp_step.
  assert (now <= ready <= H + 2 * w + D) as Hready by (destruct Hb3 as (? & ? & ?); unfold tick_ok in *; subst ready; lia).
  wp_step. apply (read_event_wp now (H + 2 * w + D)); [exact nr_event0|lia|unfold MaxTick; lia|]. wp_step. wp_step. wp_step.
  exists ready. split; [done|]. split; [lia|]. split; [|by repeat split]. split; [|split].
  - assert (n_dev (H + 2 * w + D) s2) as Hd2.
    { pose proof (n_dev_mono H (H + 2 * w + D) _ ltac:(lia) Hdev) as []. split; try done.
      - change (tick_ok (H + 2 * w + D) (tadd at_ (tCK (mem c)))). unfold tick_ok. rewrite tadd_small; lia.
      - eapply bus_ok_mono; [|exact Hbus]. lia. }
    eapply n_dev_frame; [eapply (put_bank_dev (H + 2 * w + D) _ s2 p r b3 b); [lia|exact Hd2|exact Er|exact Eb|]|done..].
    eapply nbank_ok_mono; [|exact Hb3]. lia.
  - assert (zlen (readReadyQueue s ++ [ready]) = zlen (readReadyQueue s) + 1) as El
      by (unfold zlen; rewrite length_app; cbn; lia).
    split.
    + change (numPendingReads s1 = numReadDataReady s + zlen (readReadyQueue s ++ [ready])). lia.
    + done.
    + change (numPendingReads s1 <= maxPendingReads c). lia.
    + symmetry. apply event_of_app. unfold MaxTick. lia.
    + apply List.Forall_app. split; [eapply ticks_mono; [|exact nr_ticks0]; lia|by constructor; [lia|]].
  - eapply n_writes_frame; [eapply n_writes_mono; [|exact Hwr]; lia|done..].
Qed.

Lemma issue_first_found now q1 p q2 s : Forall (fun x => unissued x = false) q1 -> unissued p = true ->
  issue_first c now (q1 ++ p :: q2) s = (p' ← issue_read c now p; mret (q1 ++ p' :: q2)) s.
Proof using.
  intros H1 Hp. induction H1 as [|x q1 Hx _ IH]; cbn [issue_first app]; [by rewrite Hp|].
  rewrite Hx. unfold mbind, comp_bind in *. rewrite IH. by destruct (issue_read c now p s) as [[? ?]|].
Qed.
Lemma issue_first_none now q s : Forall (fun x => unissued x = false) q -> issue_first c now q s = Ok (q, s).
Proof using.
  intros H1. induction H1 as [|x q Hx _ IH]; cbn [issue_first]; [done|]. rewrite Hx.
  unfold mbind, comp_bind in *. by rewrite IH.
Qed.

(** [readsWaitingToIssue] with an unissued read in the queue: it is issued. *)
Lemma chooseRead_wp now H q1 p q2 s : n_room now H -> n_ok now H s -> decoded p -> 0 < numReadsToIssue s < 2 ^ 16 ->
  readsWaitingToIssue c s = true -> Forall (fun x => unissued x = false) q1 -> unissued p = true ->
  wp (chooseRead c now (q1 ++ p :: q2)) s (fun q' s' => exists ready,
    q' = q1 ++ p <| readyTime := ready |> :: q2 /\ now <= ready <= beyond H /\ n_ok now (beyond H) s' /\
    issued (s <| numReadsToIssue ::= fun n => n - 1 |>) s' ready).
Proof using Hcfg.
  intros Hroom (Hd & Hrd & Hwr) Hdec Hn Hwait H1 Hp. apply andb_true_iff in Hwait as [_ Hlim%Z.ltb_lt].
  unfold chooseRead. wp_step. apply wp_assert; [by destruct q1|]. wp_step. wp_step. wp_step.
  apply wp_assert; [apply Z.ltb_lt; lia|]. wp_step. wp_step. unfold wp. rewrite issue_first_found by done.
  change (wp (p' ← issue_read c now p; mret (q1 ++ p' :: q2)) (s <| numReadsToIssue ::= fun n => u16 (n - 1) |>)
    (fun q' s' => exists ready, q' = q1 ++ p <| readyTime := ready |> :: q2 /\ now <= ready <= beyond H /\
       n_ok now (beyond H) s' /\ issued (s <| numReadsToIssue ::= fun n => n - 1 |>) s' ready)).
  wp_step. eapply wp_mono.
  - apply (issue_read_wp now H p); [done| |done|done]. split; [|split].
    + by eapply n_dev_frame.
    + by eapply n_reads_frame.
    + by eapply n_writes_frame.
  - intros p' s' (ready & -> & Hr & Hok & Hi1 & Hi2 & Hi3 & Hi4 & Hi5). wp_step. exists ready.
    split; [done|]. split; [done|]. split; [done|]. unfold issued. rewrite Hi1, Hi2, Hi3, Hi4, Hi5.
    cbn. rewrite u16_small by lia. done.
Qed.

(** ** The completions *)

Lemma event_of_some l t : event_of l = Some t -> exists x l', l = x :: l' /\ mn l = t.
Proof using. destruct l as [|x l']; [done|]. cbn [event_of]. intros [= <-]. eauto. Qed.

(** The data of the earliest read are ready when its event fires. *)
Lemma processReadReadyEvent_wp now H v s : H < MaxTick -> n_ok now H s -> readReadyEvent s = Some now ->
  wp (processReadReadyEvent now v) s (fun restart s' => n_ok now H s' /\ restart = negb (requestEventScheduled v) /\
    numReadDataReady s' = numReadDataReady s + 1 /\ numPendingReads s' = numPendingReads s /\
    zlen (readReadyQueue s') = zlen (readReadyQueue s) - 1).
Proof using Hcfg.
  intros HM (Hd & Hrd & Hwr) He. pose proof Hrd as []. rewrite nr_event0 in He.
  destruct (event_of_some _ _ He) as (x & l & El & Emn). pose proof (nc_reads Hcfg).
  assert (zlen (readReadyQueue s) = zlen l + 1) as Ezl by (rewrite El; unfold zlen; cbn; lia).
  pose proof (zlen_nonneg l).
  unfold processReadReadyEvent. wp_step. wp_step. wp_step. wp_step. set (s1 := _ <| numReadDataReady ::= _ |>).
  assert (numReadDataReady s1 = numReadDataReady s + 1) as E1 by (cbn; rewrite u16_small; lia).
  wp_step. wp_step. wp_step. wp_step. change (readReadyQueue s1) with (readReadyQueue s). rewrite El in *. cbn [aread rp].
  destruct (scan_ready_all x l) as (j & Hj & Es); [eapply List.Forall_impl; [|exact nr_ticks0]; cbn; lia|].
  unfold aread. rewrite zlookup_cons_0. cbn [rp]. rewrite Es. wp_step. apply wp_assert; [apply Z.eqb_eq; lia|].
  wp_step. wp_step. rewrite Nat2Z.id. fold (without j (x :: l)).
  set (l' := without j (x :: l)) in *. assert (Forall (fun x => now <= x <= H) l') as Hl'.
  { apply List.Forall_forall. intros y Hy%without_incl. by eapply List.Forall_forall in nr_ticks0. }
  assert (zlen l' = zlen l) as El' by (subst l'; rewrite zlen_without by done; lia).
  wp_step. apply (wp_mono _ _ (fun _ s' => s' = s1 <| readReadyQueue := l' |> <| readReadyEvent := event_of l' |>)).
  - destruct l' as [|front l'']; wp_step; [done|]. apply wp_assert; [apply Z.leb_le; exact (proj1 (Forall_inv Hl'))|].
    wp_step. wp_step. wp_step. wp_step. unfold schedule.
    pose proof (mn_lower _ now ltac:(pose proof (Forall_inv nr_ticks0) as HX; cbn in HX; lia)
      (List.Forall_impl _ (fun z Hz => proj1 Hz) Hl')). by rewrite (proj2 (Z.leb_le _ _)).
  - intros [] s' ->. wp_step. split; [|split; [done|]; split; [done|]; split; [done|cbn; lia]].
    split; [by eapply n_dev_frame|]. split; [|by eapply n_writes_frame]. split; try done.
    + change (numPendingReads s = numReadDataReady s1 + zlen l'). lia.
    + change (0 <= numReadDataReady s1). lia.
Qed.

(** The medium completes the earliest write. *)
Lemma processWriteRespondEvent_wp now H v s : n_ok now H s -> writeRespondEvent s = Some now -> H < MaxTick ->
  wp (processWriteRespondEvent now v) s (fun restart s' => n_ok now H s' /\ restart = negb (requestEventScheduled v) /\
    writeRespQueue s = now :: writeRespQueue s').
Proof using.
  intros (Hd & Hrd & Hwr) He HM. pose proof Hwr as []. rewrite nw_event0 in He.
  destruct (event_of_some _ _ He) as (x & l & El & Emn). rewrite El in *.
  unfold processWriteRespondEvent. wp_step. wp_step. wp_step. wp_step. wp_step. wp_step. wp_step.
  cbn [writeRespQueue over]. change (writeRespQueue (_ <| nstats ::= _ |>)) with (writeRespQueue s). rewrite El. cbn iota.
  pose proof (Forall_inv nw_ticks0) as Hx. cbn in Hx. rewrite mn_sorted in Emn by (done || lia). subst x.
  pose proof (List.Forall_inv_tail nw_ticks0) as Hl. apply StronglySorted_inv in nw_sorted0 as [Hs _].
  set (s1 := _ <| nstats ::= _ |>). wp_step. wp_step.
  apply (wp_mono _ _ (fun _ s' => s' = s1 <| writeRespQueue := l |> <| writeRespondEvent := event_of l |>)).
  - destruct l as [|front l'']; [by apply wp_ret|]. wp_step. apply wp_assert; [apply Z.leb_le; exact (proj1 (Forall_inv Hl))|].
    wp_step. wp_step. wp_step. wp_step. unfold schedule. pose proof (Forall_inv Hl) as Hf. cbn in Hf.
    cbn [event_of]. rewrite mn_sorted by (done || lia). rewrite (proj2 (Z.leb_le _ _)); [done|lia].
  - intros [] s' ->. wp_step. split; [|by split]. split; [by eapply n_dev_frame|]. split; [by eapply n_reads_frame|].
    split; try done. change (zlen l <= maxPendingWrites c). unfold zlen in *. cbn in nw_limit0. lia.
Qed.

(** ** A burst *)

Lemma later_ok now H b x : 0 <= x <= b -> H <= b -> tick_ok H now -> tick_ok b (Z.max x now).
Proof using. unfold tick_ok. lia. Qed.
Lemma n_delay_ranks_ok H H' p cmd_at l : H <= H' -> 0 <= cmd_at -> cmd_at + D <= H' -> H' < 2 ^ 64 ->
  Forall (nrank_ok H) l -> Forall (nrank_ok H') (n_delay_ranks c p cmd_at l).
Proof using Hcfg.
  intros. unfold n_delay_ranks. apply Forall_fmap. eapply List.Forall_impl; [|eassumption]. intros r [El Hb]. split.
  - cbn. by rewrite zlen_fmap.
  - cbn. apply Forall_fmap. eapply List.Forall_impl; [|exact Hb]. intros b (? & ? & ?). unfold compose.
    pose proof (nc_turn Hcfg). pose proof (nc_tBURST Hcfg). unfold n_delay_bank, nbank_ok, tick_ok in *. cbn.
    rewrite !tadd_small; repeat case_match; lia.
Qed.

Lemma n_delay_ranks_dev H H' p cmd_at s : H <= H' -> 0 <= cmd_at -> cmd_at + D <= H' -> H' < 2 ^ 64 -> n_dev H s ->
  n_dev H' (s <| nranks ::= n_delay_ranks c p cmd_at |>).
Proof using Hcfg.
  intros Hle H0 Hc H64 Hd. pose proof (n_delay_ranks_ok _ _ p _ _ Hle H0 Hc H64 (nd_banks _ _ Hd)).
  apply (n_dev_mono _ _ _ Hle) in Hd as []. split; try done. cbn. unfold n_delay_ranks. by rewrite zlen_fmap.
Qed.

Lemma read_sent_wp now H s (Q : unit -> nvm -> Prop) : n_reads now H s -> 0 < numReadDataReady s ->
  (forall s', s' = s <| numPendingReads ::= fun n => n - 1 |> <| numReadDataReady ::= fun n => n - 1 |> ->
     n_reads now H s' -> Q tt s') -> wp read_sent s Q.
Proof using.
  intros [] Hd HQ. pose proof (zlen_nonneg (readReadyQueue s)). unfold read_sent. wp_step. wp_step. wp_step.
  apply wp_assert; [apply negb_true_iff, Z.eqb_neq; lia|]. wp_step.
  apply wp_assert; [apply negb_true_iff, Z.eqb_neq; lia|]. wp_step. apply HQ; [done|]. split; try done; cbn; lia.
Qed.

Lemma zlen_perm {A} (l l' : list A) : l ≡ₚ l' -> zlen l = zlen l'.
Proof using. intros H. unfold zlen. by rewrite (Permutation_length H). Qed.
#[local] Instance le_transitive : Transitive Z.le := Z.le_trans.
#[local] Instance le_total : Total Z.le.
Proof using. intros x y. lia. Qed.

Lemma track_write_wp now H done_at s (Q : unit -> nvm -> Prop) : n_writes now H s -> now <= done_at <= H -> H < MaxTick ->
  writeRespQueueFull c s = false ->
  (forall s', writeRespQueue s' ≡ₚ done_at :: writeRespQueue s -> n_writes now H s' ->
     s' = s <| writeRespQueue := writeRespQueue s' |> <| writeRespondEvent := writeRespondEvent s' |> -> Q tt s') ->
  wp (track_write c now done_at) s Q.
Proof using.
  intros Hwr Hd HM Hfull HQ. pose proof Hwr as []. unfold track_write. wp_step. wp_step. wp_step.
  apply wp_assert; [by rewrite Hfull|]. wp_step.
  set (l := writeRespQueue s). set (l' := merge_sort Z.le (l ++ [done_at])).
  assert (l' ≡ₚ done_at :: l) as Hp by (subst l'; rewrite merge_sort_Permutation; by rewrite <- Permutation_cons_append).
  assert (mn l' = Z.min done_at (mn l)) as Emn by (rewrite (mn_perm _ _ Hp); done).
  assert (l' <> []) as Hne by (intros E; by rewrite E in Hp; apply Permutation_nil in Hp).
  apply (wp_mono _ _ (fun _ s' => s' = s <| writeRespondEvent := event_of (match l with [] => [done_at] | _ => l end) |>)).
  { subst l. rewrite nw_event0. destruct (writeRespQueue s) as [|x k] eqn:El; cbn [event_of].
    - wp_steps. unfold schedule. rewrite (proj2 (Z.leb_le _ _)); [|lia]. cbn.
      unfold mn. cbn. by rewrite Z.min_l by lia.
    - apply wp_assert; [done|]. destruct s. cbn in *. by subst. }
  intros [] s1 ->. wp_step. wp_step. wp_step. wp_step.
  set (k := match l with [] => [done_at] | _ => l end).
  assert (event_of k = Some (mn k)) as -> by (by subst k; destruct l).
  assert (mn l' = Z.min done_at (mn k)) as Emn' by (rewrite Emn; subst k; destruct l; [unfold mn; cbn; lia|done]).
  assert (event_of l' = Some (mn l')) as El' by (by destruct l').
  set (s2 := _ <| writeRespQueue ::= _ |>).
  enough (forall e, e = event_of l' -> Q tt (s2 <| writeRespondEvent := e |>)) as Hall.
  { change (writeRespondEvent s2) with (Some (mn k)). cbn iota. apply wp_when; [intros Hlt%Z.ltb_lt|intros Hlt%Z.ltb_ge].
    - wp_step. wp_step. unfold reschedule. rewrite (proj2 (Z.leb_le _ _)); [|lia]. apply Hall. rewrite El'. f_equal. lia.
    - change s2 with (s2 <| writeRespondEvent := Some (mn k) |>). apply Hall. rewrite El'. f_equal. lia. }
  intros e ->. apply HQ; [done| |done]. split.
  - change (StronglySorted Z.le l'). apply StronglySorted_merge_sort; apply _.
  - done.
  - change (Forall (fun x => now <= x <= H) l'). rewrite Hp. by constructor.
  - change (zlen l' <= maxPendingWrites c). rewrite (zlen_perm _ _ Hp). unfold writeRespQueueFull in Hfull.
    apply Z.eqb_neq in Hfull. fold l in Hfull, nw_limit0. unfold zlen in *. cbn. lia.
Qed.

(** The write is handed to the medium, which completes it at [done_at]. *)
Definition write_tracked (p : MemPacket) (s s' : nvm) : Prop :=
  numWritesQueued s' = numWritesQueued s - 1 /\ numPendingReads s' = numPendingReads s /\
  numReadDataReady s' = numReadDataReady s /\
  exists done_at, readyTime p + tWRITE c <= done_at /\ writeRespQueue s' ≡ₚ done_at :: writeRespQueue s.
Lemma write_sent_wp now H H' p s : n_room now H -> H' = H + 2 * w + 2 * D -> n_ok now H' s -> decoded p ->
  now <= readyTime p <= H' -> 0 < numWritesQueued s -> writeRespQueueFull c s = false ->
  wp (write_sent c now p) s (fun _ s' => n_ok now (beyond H) s' /\ write_tracked p s s').
Proof using Hcfg.
  intros (Hn & Hw & HD & HM) EH (Hd & Hrd & Hwr) Hdec Hrt Hq Hfull. unfold beyond.
  destruct (n_bank_ok _ _ _ Hd Hdec) as (r & b & Er & Eb & Enb & Hrk & Hbk).
  unfold write_sent. wp_step. wp_step. wp_step. apply wp_assert; [by apply Z.ltb_lt|]. wp_step. wp_step. wp_step. wp_step.
  rewrite Enb. cbn [rp]. set (b1 := b <| bytesAccessed ::= _ |>).
  destruct (if bank_no b1 =? bank p then _ else _) as [b2 smp] eqn:E2.
  assert (nbank_ok H' b2) as Hb2.
  { assert (nbank_ok H' b1) as Hb1 by done. pose proof (rebuffer_ok H' p b1 Hb1) as HX.
    destruct (_ =? _) in E2; [by rewrite E2 in HX|]. by injection E2 as <- <-. }
  set (b3 := b2 <| actAllowedAt ::= _ |>). pose proof (nc_tWRITE Hcfg). unfold MaxTick in *.
  assert (actAllowedAt b3 = Z.max (readyTime p) (actAllowedAt b2) + tWRITE c) as E3.
  { destruct Hb2 as (_ & _ & ?). unfold tick_ok in *. cbn. rewrite tadd_small; lia. }
  assert (nbank_ok (H + 2 * w + 3 * D) b3) as Hb3.
  { destruct Hb2 as (? & ? & ?). unfold nbank_ok, tick_ok in *. rewrite E3. cbn. lia. }
  set (s1 := s <| numWritesQueued ::= _ |>).
  wp_step. apply (n_set_bank_wp s1 p r b3 b); [exact Er|exact Eb|]. wp_step. unfold sample_bytes. wp_step.
  set (s2 := _ <| nstats ::= _ |>).
  assert (n_dev (H + 2 * w + 3 * D) s2) as Hd2.
  { eapply n_dev_frame; [eapply (put_bank_dev H' _ s1 p r b3 b); [lia| |exact Er|exact Eb|exact Hb3]|done..].
    by eapply n_dev_frame. }
  assert (n_writes now (H + 2 * w + 3 * D) s2) as Hw2.
  { eapply n_writes_mono; [|by eapply n_writes_frame]. lia. }
  destruct Hb2 as (_ & _ & Ha). unfold tick_ok in Ha.
  eapply track_write_wp; [exact Hw2|rewrite E3; lia|unfold MaxTick; lia|exact Hfull|].
  intros s' Hp Hw' Es'. split; [split; [|split]|].
  - eapply n_dev_frame; [exact Hd2|by rewrite Es'..].
  - eapply n_reads_frame; [eapply n_reads_mono; [|exact Hrd]; lia|by rewrite Es'..].
  - done.
  - do 3 (split; [by rewrite Es'|]). exists (actAllowedAt b3). split; [lia|exact Hp].
Qed.

Lemma n_count_burst_ok H p cmd_at pending s : n_dev H s -> decoded p ->
  rp (n_count_burst c p cmd_at pending (nstats s)) (fun st =>
    zlen (n_perBankRdBursts st) = banksPerRank (mem c) * ranksPerChannel (mem c) /\
    zlen (n_perBankWrBursts st) = banksPerRank (mem c) * ranksPerChannel (mem c)).
Proof using.
  intros Hd (_ & _ & Hb). pose proof (nd_stats _ _ Hd) as [E1 E2].
  assert (forall l, zlen l = banksPerRank (mem c) * ranksPerChannel (mem c) -> rp (bump_bank l (bankId p)) (fun l' => zlen l' = zlen l)) as Hbump.
  { intros l El. unfold bump_bank. wp_step. destruct (zlookup_is_Some l (bankId p)) as [x Ex]; [lia|].
    apply (rp_aread _ _ x); [done|]. apply rp_awrite; [lia|]. by rewrite zlen_insert. }
  unfold n_count_burst. destruct (isRead p); wp_step; (eapply rp_mono; [by apply Hbump|]); cbn beta; intros l El; wp_step; cbn; lia.
Qed.

(** The packet of a burst, sent by the bus at [cmd_at]. *)
Definition sent (p : MemPacket) (cmd_at : Z) : MemPacket := p <| readyTime := cmd_at + tSEND c + tBURST (mem c) |>.
Definition n_done (p : MemPacket) (s s' : nvm) : Prop :=
  if isRead p then numPendingReads s' = numPendingReads s - 1 /\ numReadDataReady s' = numReadDataReady s - 1 /\
                   writeRespQueue s' = writeRespQueue s /\ numWritesQueued s' = numWritesQueued s
  else write_tracked p s s'.
Definition n_may_send (p : MemPacket) (s : nvm) : Prop :=
  if isRead p then 0 < numReadDataReady s else 0 < numWritesQueued s /\ writeRespQueueFull c s = false.
Lemma n_doBurstAccess_wp now H p next s : n_room now H -> n_ok now H s -> decoded p -> 0 <= next <= H -> n_may_send p s ->
  wp (n_doBurstAccess c now p next) s (fun r s' => exists cmd_at, r = (sent p cmd_at, (cmd_at, cmd_at + tBURST (mem c))) /\
    Z.max now next <= cmd_at <= H + 2 * w /\ n_ok now (beyond H) s' /\ n_done (sent p cmd_at) s s').
Proof using Hcfg.
  intros Hroom (Hd & Hrd & Hwr) Hdec Hnext Hmay. pose proof Hroom as (Hn & Hw & HD & HM). unfold beyond.
  pose proof (nc_tSEND Hcfg). pose proof (nc_tBURST Hcfg). unfold MaxTick in *.
  destruct (n_bank_ok _ _ _ Hd Hdec) as (r & b & Er & Eb & Enb & Hrk & (Hb1 & Hb2 & Hb3)). unfold tick_ok in *.
  unfold n_doBurstAccess. wp_step. wp_step. wp_step. wp_step. rewrite Enb. cbn [rp].
  set (bst := if isRead p then rdAllowedAt b else wrAllowedAt b).
  assert (0 <= bst <= H) as Hbst by (subst bst; by destruct (isRead p)). wp_step.
  eapply (n_verifyCmd_wp _ _ _ now H); [exact Hroom|exact (nd_bus _ _ Hd)|exact (nd_window _ _ Hd)|lia| |].
  { intros _. exact (nc_tCK Hcfg). }
  intros cmd_at bus' Hat Hbus Hcw. rewrite !tadd_small by (rewrite ?tadd_small; lia). fold (sent p cmd_at).
  wp_step. wp_step. set (s1 := _ <| nranks ::= _ |>).
  assert (n_dev (H + 2 * w + 2 * D) s1) as Hd1.
  { apply (n_delay_ranks_dev (H + 2 * w)); [lia|lia|lia|lia|].
    apply (n_dev_mono _ (H + 2 * w)) in Hd as []; [|lia]. by split. }
  assert (n_ok now (H + 2 * w + 2 * D) s1) as Hok1.
  { split; [done|]. split; [eapply n_reads_frame|eapply n_writes_frame]; done ||
      ((eapply n_reads_mono || eapply n_writes_mono); [|eassumption]; lia). }
  assert (decoded (sent p cmd_at)) as Hdec' by done.
  wp_step. apply (wp_mono _ _ (fun _ s' => n_ok now (H + 2 * w + 3 * D) s' /\ n_done (sent p cmd_at) s s')).
  - unfold n_may_send in Hmay. unfold n_done. change (isRead (sent p cmd_at)) with (isRead p). destruct (isRead p).
    + eapply read_sent_wp; [apply Hok1|exact Hmay|]. intros s' -> Hr'. split; [|done].
      split; [|split].
      * eapply n_dev_frame; [eapply n_dev_mono; [|exact Hd1]; lia|done..].
      * eapply n_reads_mono; [|exact Hr']. lia.
      * eapply n_writes_frame; [eapply n_writes_mono; [|exact Hwr]; lia|done..].
    + destruct Hmay as [Hq Hfull].
      eapply wp_mono; [eapply (write_sent_wp now H); [done|done|exact Hok1|done| |done|done]; cbn; lia|].
      intros [] s' [Hok' Ht]. by split.
  - intros [] s' [(Hd' & Hr' & Hw') Hdone]. wp_step. wp_step. wp_step. wp_step.
    eapply rp_mono; [by apply (n_count_burst_ok (H + 2 * w + 3 * D))|]. intros st [E1 E2]. cbn beta.
    wp_step. wp_step. wp_step. exists cmd_at. split; [done|]. split; [lia|]. split; [|exact Hdone].
    split; [|split; [by eapply n_reads_frame|by eapply n_writes_frame]]. destruct Hd' as []. by split.
Qed.

(** ** The operations of the interface *)

Inductive nop :=
| OpSetup (is_read : bool)                      (* [setupRank] *)
| OpIssue (queue : list MemPacket)              (* [chooseRead] *)
| OpSend (p : MemPacket) (next_burst_at : Z)    (* [doBurstAccess] *)
| OpReadReady (v : CtrlView)                    (* the event of a read *)
| OpWriteRespond (v : CtrlView)                 (* the event of a write *)
| OpOtherRank (cmd_at : Z)                      (* [addRankToRankDelay] *)
| OpWait (tick : Z).                            (* nothing happens until [tick] *)
Definition n_apply (op : nop) (now : Z) : comp nvm Z :=
  match op with
  | OpSetup is_read => n_setupRank is_read;; mret now
  | OpIssue q => _ ← chooseRead c now q; mret now
  | OpSend p next => _ ← n_doBurstAccess c now p next; mret now
  | OpReadReady v => _ ← processReadReadyEvent now v; mret now
  | OpWriteRespond v => _ ← processWriteRespondEvent now v; mret now
  | OpOtherRank cmd_at => n_addRankToRankDelay c cmd_at;; mret now
  | OpWait tick => mret tick
  end.
(** When the controller and the event queue perform them: an event fires at its tick and
    time does not pass it. *)
Definition n_guard (op : nop) (now H : Z) (s : nvm) : Prop :=
  match op with
  | OpSetup _ => True
  | OpIssue q => 0 < numReadsToIssue s < 2 ^ 16 /\ readsWaitingToIssue c s = true /\
      exists q1 p q2, q = q1 ++ p :: q2 /\ Forall (fun x => unissued x = false) q1 /\ unissued p = true /\ decoded p
  | OpSend p next => decoded p /\ 0 <= next <= H /\ n_may_send p s
  | OpReadReady _ => readReadyEvent s = Some now
  | OpWriteRespond _ => writeRespondEvent s = Some now
  | OpOtherRank cmd_at => 0 <= cmd_at <= H
  | OpWait tick => now <= tick <= H /\ (forall e, readReadyEvent s = Some e -> tick <= e) /\
                   (forall e, writeRespondEvent s = Some e -> tick <= e)
  end.

Lemma n_ok_mono now H H' s : H <= H' -> n_ok now H s -> n_ok now H' s.
Proof using.
  intros Hle (? & ? & ?). split; [by eapply n_dev_mono|]. split; [by eapply n_reads_mono|by eapply n_writes_mono].
Qed.
Lemma ticks_later now tick H l : Forall (fun x => now <= x <= H) l -> (forall e, event_of l = Some e -> tick <= e) ->
  Forall (fun x => tick <= x <= H) l.
Proof using.
  intros Hl He. apply List.Forall_forall. intros x Hx. pose proof (mn_elem _ _ Hx).
  assert (event_of l = Some (mn l)) as E by (by destruct l). apply He in E.
  eapply List.Forall_forall in Hl; [|exact Hx]. cbn in Hl. lia.
Qed.
Lemma n_wait_ok now tick H s : n_ok now H s -> n_guard (OpWait tick) now H s -> n_ok tick H s.
Proof using.
  intros (Hd & [] & []) (Ht & Hr & Hw). split; [done|]. rewrite nr_event0 in Hr. rewrite nw_event0 in Hw.
  split; split; try done; by eapply ticks_later.
Qed.
Lemma n_addRankToRankDelay_ok H H' cmd_at s : H <= H' -> 0 <= cmd_at -> cmd_at + D <= H' -> H' < 2 ^ 64 -> n_dev H s ->
  wp (n_addRankToRankDelay c cmd_at) s (fun _ s' => n_dev H' s' /\ s' = s <| nranks := nranks s' |>).
Proof using Hcfg.
  intros Hle H0 Hc H64 Hd. unfold n_addRankToRankDelay. wp_step. split; [|done].
  pose proof (nd_banks _ _ Hd) as Hb. apply (n_dev_mono _ _ _ Hle) in Hd as []. split; try done.
  - cbn. by rewrite zlen_fmap.
  - cbn. apply Forall_fmap. eapply List.Forall_impl; [|exact Hb]. intros r [El Hbk]. split; cbn; [by rewrite zlen_fmap|].
    apply Forall_fmap. eapply List.Forall_impl; [|exact Hbk]. intros b (? & ? & ?). pose proof (nc_turn Hcfg).
    unfold compose, nbank_ok, tick_ok in *. cbn. rewrite !tadd_small; lia.
Qed.
Lemma n_apply_wp op now H s : n_room now H -> n_ok now H s -> n_guard op now H s ->
  wp (n_apply op now) s (fun now' s' => n_ok now' (beyond H) s' /\ 0 <= now' <= H).
Proof using Hcfg.
  intros Hroom Hok Hg. pose proof Hroom as (Hn & Hw & HD & HM). unfold MaxTick in *.
  assert (H <= beyond H) as Hle by (unfold beyond; lia). pose proof Hok as (Hd & Hr & Hwr).
  destruct op as [rd|q|p next|v|v|cmd_at|tick]; cbn [n_apply n_guard] in *.
  - wp_step. unfold n_setupRank. wp_step. wp_step. split; [|lia]. apply (n_ok_mono _ _ _ _ Hle).
    destruct rd; (split; [by eapply n_dev_frame|split; [by eapply n_reads_frame|by eapply n_writes_frame]]).
  - destruct Hg as (Hi & Hwait & q1 & p & q2 & -> & H1 & Hp & Hdec). wp_step.
    eapply wp_mono; [by eapply chooseRead_wp|]. intros q' s' (r & _ & _ & Hok' & _). by wp_step.
  - destruct Hg as (Hdec & Hnext & Hmay). wp_step. eapply wp_mono; [by eapply n_doBurstAccess_wp|].
    intros x s' (cmd_at & _ & _ & Hok' & _). by wp_step.
  - wp_step. eapply wp_mono; [eapply (processReadReadyEvent_wp _ H); [unfold MaxTick; lia|done|done]|].
    intros x s' [Hok' _]. wp_step. split; [by eapply n_ok_mono|lia].
  - wp_step. eapply wp_mono; [eapply (processWriteRespondEvent_wp _ H); [done|done|unfold MaxTick; lia]|].
    intros x s' [Hok' _]. wp_step. split; [by eapply n_ok_mono|lia].
  - wp_step. eapply wp_mono; [eapply (n_addRankToRankDelay_ok H (beyond H)); unfold beyond in *; (done || lia)|].
    intros x s' [Hd' Es']. wp_step. split; [|lia]. split; [done|].
    split; [eapply n_reads_frame; [by eapply n_reads_mono|by rewrite Es'..]|
            eapply n_writes_frame; [by eapply n_writes_mono|by rewrite Es'..]].
  - wp_step. split; [|lia]. apply (n_ok_mono _ H); [done|]. by eapply n_wait_ok.
Qed.

(** A run of operations, each performed when it may be. *)
Fixpoint n_applys (ops : list nop) (now : Z) : comp nvm Z :=
  match ops with [] => mret now | op :: ops' => now' ← n_apply op now; n_applys ops' now' end.
Fixpoint n_admissible (ops : list nop) (now H : Z) (s : nvm) : Prop :=
  match ops with
  | [] => True
  | op :: ops' => n_guard op now H s /\
      forall now' s', n_apply op now s = Ok (now', s') -> n_admissible ops' now' (beyond H) s'
  end.

(** C38. The NVM interface keeps its state well formed.  In every run of its operations, each
    made when what it asserts holds ([n_guard]: [chooseRead] on a queue with a read left to
    issue and room for it, which the controller does not see to; a burst of a read whose data
    are ready or of a write there is room for; the events at their ticks, with time not passing
    them), none faults and after each the pending reads are those waiting for the medium and
    those whose data are ready, within the limit; the read event is at the earliest
    ready time; the queue of writes is sorted, within its limit, with its event at the
    front; and the ticks of the banks and of the command bus stay within a horizon that
    an operation moves by two windows and three delays at most. *)
Theorem nvm_well_formed ops now H s : n_room now (H + zlen ops * (2 * w + 3 * D)) -> now <= H -> n_ok now H s ->
  n_admissible ops now H s ->
  exists now' s', n_applys ops now s = Ok (now', s') /\ n_ok now' (H + zlen ops * (2 * w + 3 * D)) s'.
Proof using Hcfg.
  intros Hroom Hnow Hok Hadm. pose proof (zlen_nonneg ops). 
  enough (wp (n_applys ops now) s (fun now' s' => n_ok now' (H + zlen ops * (2 * w + 3 * D)) s')) as Hwp.
  { destruct (wp_inv _ _ _ Hwp) as (now' & s' & E & Hok'). eauto. }
  revert now H s Hroom Hnow Hok Hadm. induction ops as [|op ops IH]; intros now H s Hroom Hnow Hok Hadm; cbn [n_applys].
  { apply wp_ret. cbn. by rewrite Z.add_0_r. }
  destruct Hadm as [Hg Hadm]. destruct Hroom as (Hn & Hw & HD & HM). pose proof (zlen_nonneg ops).
  assert (zlen (op :: ops) = 1 + zlen ops) as El by (unfold zlen; cbn; lia). rewrite El in *.
  assert (beyond H + zlen ops * (2 * w + 3 * D) = H + (1 + zlen ops) * (2 * w + 3 * D)) as Eb by (unfold beyond; lia).
  assert (n_room now H) as Hroom by (unfold n_room; nia).
  destruct (wp_inv _ _ _ (n_apply_wp op now H s Hroom Hok Hg)) as (now' & s' & E & Hok' & Hn').
  wp_step. eapply wp_ok; [exact E|]. rewrite <- Eb. apply IH; [done|unfold n_room, beyond in *; nia|unfold beyond; nia|done|by apply Hadm].
Qed.
End Inv.

(** The interface as the constructor leaves it. *)
Lemma n_create_ok c w m b now H c' s : n_create c m b = Ok (c', s) -> 0 <= now <= H -> 0 <= maxPendingReads c ->
  0 <= maxPendingWrites c -> 0 < banksPerRank (mem c) -> 0 < ranksPerChannel (mem c) ->
  bus_ok (maxCommandsPerWindow (mem c)) H b -> CmdBus.commandWindow b = w -> n_ok c' w now H s.
Proof.
  intros E Hn Hr Hw Hb Hk Hbus Hcw. unfold n_create, fatal_if in E.
  unfold mbind, result_bind, udiv in E. repeat case_match; try discriminate. simplify_eq.
  split; [split|split; split]; cbn; try done.
  - rewrite zlen_fmap. unfold zlen. rewrite length_seqZ. lia.
  - apply Forall_fmap, Forall_true. intros r. split; cbn; [unfold zlen; rewrite length_fmap, length_seqZ; lia|].
    apply Forall_fmap, Forall_true. intros x. unfold nbank_ok, tick_ok. cbn. lia.
  - unfold tick_ok. lia.
  - unfold n_stats0. destruct (Z.eqb_spec (ranksPerChannel (mem c)) 0); [lia|]. cbn. rewrite !zlen_calloc by nia. done.
  - constructor.
Qed.

(** A small medium: one rank of two banks, one pending access of a kind. *)
Definition small_nvm : NConfig :=
  mkNConfig (small <| ranksPerChannel := 1 |> <| banksPerRank := 2 |>) 1 1 false 9 9 2.
Definition small_bus : CmdBus.t := CmdBus.mkBus [] 4.
Definition small_state : nvm := mkNVM (n_new_Rank (mem small_nvm) <$> seqZ 0 1) [] [] 0 0 0 0 0 None None (n_stats0 (mem small_nvm)) small_bus.
Definition nread : MemPacket := (small_packet true 0 1 5) <| isDram := false |> <| readyTime := MaxTick |>.
Definition nwrite : MemPacket := (small_packet false 0 0 7) <| isDram := false |>.
Definition small_view : CtrlView := mkView (fun _ => true) (fun _ => false) false false false false.
(** A read and a write arrive; the read is issued, the write is sent meanwhile; the
    medium completes them at 19 and 29. *)
Definition small_ops : list nop :=
  [OpSetup true; OpSetup false; OpIssue [nwrite; nread]; OpSend nwrite 0; OpWait 19; OpReadReady small_view;
   OpSend (nread <| readyTime := 19 |>) 22; OpOtherRank 22; OpWait 29; OpWriteRespond small_view].

Lemma small_ncfg : ncfg_ok small_nvm 100.
Proof. split; vm_compute; intuition congruence. Qed.
Lemma small_bus_ok H : 0 <= H -> bus_ok 2 H small_bus.
Proof. intros HH. split; [done|done|intros x; cbn; lia]. Qed.
Lemma small_state_ok : n_ok small_nvm 4 10 100 small_state.
Proof.
  eapply (n_create_ok small_nvm 4 32768 small_bus); [vm_compute; reflexivity|lia|done|done|done|done|by apply small_bus_ok|done].
Qed.
Ltac run_guard := repeat split; try (intros ? [= <-]); vm_compute; (reflexivity || discriminate).
Ltac run_next := split; [|intros ? ? E; vm_compute in E; injection E as <- <-].
Lemma small_admissible : n_admissible small_nvm 4 100 small_ops 10 100 small_state.
Proof.
  unfold small_ops. cbn [n_admissible].
  run_next; [done|]. run_next; [done|]. run_next.
  { split; [cbn; lia|]. split; [reflexivity|]. exists [nwrite], nread, []. repeat split; try (cbn; lia). by constructor. }
  do 7 (run_next; [run_guard|]). done.
Qed.
Lemma nvm_well_formed_witness : exists now' s', n_applys small_nvm small_ops 10 small_state = Ok (now', s') /\
  n_ok small_nvm 4 now' (100 + zlen small_ops * (2 * 4 + 3 * 100)) s'.
Proof.
  apply (nvm_well_formed small_nvm 4 100 small_ncfg small_ops 10 100 small_state).
  - repeat split; vm_compute; (reflexivity || discriminate).
  - lia.
  - exact small_state_ok.
  - exact small_admissible.
Defined.
(** Both accesses are done and nothing is left pending. *)
Example small_run : exists s, n_applys small_nvm small_ops 10 small_state = Ok (29, s) /\
  (numPendingReads s, numReadDataReady s, writeRespQueue s, n_readBursts (nstats s), n_writeBursts (nstats s)) = (0, 0, [], 1, 1).
Proof. eexists. split; vm_compute; reflexivity. Qed.

(** ** The wrong queue *)

(** chooseRead given the queue of another priority: it fails its assertion when that
    queue is empty; when the queue holds no read to issue it gives up one of the reads
    waiting, which no later call will issue. *)
Theorem chooseRead_wrong_queue c now s :
  chooseRead c now [] s = Fault AssertFail /\
  forall q, q <> [] -> Forall (fun p => unissued p = false) q -> 0 < numReadsToIssue s ->
    chooseRead c now q s = Ok (q, s <| numReadsToIssue ::= fun n => u16 (n - 1) |>).
Proof.
  split; [done|]. intros q Hq Hu Hn. unfold chooseRead, assert_, get, modify, mbind, comp_bind. destruct q as [|p q]; [done|].
  rewrite (proj2 (Z.ltb_lt _ _)) by done. by apply issue_first_none.
Qed.
Lemma chooseRead_wrong_queue_witness :
  chooseRead small_nvm 10 [nwrite] (small_state <| numReadsToIssue := 1 |>) =
    Ok ([nwrite], small_state <| numReadsToIssue := 0 |>).
Proof.
  rewrite (proj2 (chooseRead_wrong_queue small_nvm 10 (small_state <| numReadsToIssue := 1 |>)) [nwrite]).
  - reflexivity.
  - discriminate.
  - by constructor.
  - reflexivity.
Defined.
End NVMInv.
