(* ===== verification/Defense.v ===== *)
(** The Rowhammer defence of a memory controller ([MemCtrl::MemCtrl] and the uses of
    [rh_defense] in [mem/mem_ctrl.cc]): which mitigation is built from the parameters,
    how an access consults it, and the bubble its delay puts on the bus. *)
From S2P Require Import Prelude Packet Detector FuncCache Bloom Mitigation BlockHammer RRS RQ Dram.
From Stdlib Require Import String.
Open Scope Z_scope.

Module Defense.

(** ** Construction *)

Record Params := mkParams {
  rh_mitigation : string; rh_actual_threshold : Z; rh_rrs_swap_delay : Z; rh_rit_acc_delay : Z;
  rh_rq_qr_size : Z; rh_rq_virtualize_rit : bool; rh_rq_rows_per_btv_bit : Z; rh_rq_cache_sets : Z;
  rh_rq_drain_threshold : Z; rh_bh_black_list_threshold : Z }.

(** What the allocator leaves in the members that no constructor sets. *)
Record Raw := mkRaw {
  raw_base : RH_Mitigation; raw_rrs_stat : Z; raw_rq : Row_Quarantine.t; raw_tracker : Misra_Gries.bank -> Misra_Gries.Tracker }.

(** The object behind [RH_Mitigation* rh_defense]. *)
Inductive t :=
| RRS (r : Randomized_Row_Swap.t)
| RQ (r : Row_Quarantine.t)
| BH (r : BlockHammer.t).

Definition delay_ps_cacti : list Z := [136; 167; 227; 316; 431; 628].
(** [int(log2(32/rows))]: no integer when the quotient is zero. *)
Definition cbf_delay_index (rows : Z) : result Z :=
  q ← udiv 32 rows; if q =? 0 then Fault OutOfBounds else Ok (Z.log2 q).

(** The geometry [dram] answers: rows per bank, banks per rank, ranks per channel. *)
Record Geometry := mkGeometry { getRowsPerBank : Z; getBanksPerRank : Z; getRanksPerChannel : Z }.
Definition geometry (c : DRAMInterface.Config) : Geometry :=
  mkGeometry (DRAMInterface.rowsPerBank c) (DRAMInterface.banksPerRank c) (DRAMInterface.ranksPerChannel c).

Section Create.
Context (rand_stream : nat -> Z) (raw : Raw) (p : Params) (g : Geometry).

(** [new Misra_Gries(rh_mg_entries, rh_threshold, ...)] *)
Definition new_detector (rh_mg_entries rh_threshold : Z) : Misra_Gries.t :=
  Misra_Gries.create (raw_tracker raw) rh_mg_entries rh_threshold (getRowsPerBank g) (getBanksPerRank g) (getRanksPerChannel g) 1.

Definition new_RRS : result t :=
  let rh_threshold := rh_actual_threshold p / 6 in
  rh_mg_entries ← udiv 1360000 rh_threshold;
  let rh_rrs_tuples := u32 (2 * rh_mg_entries) in
  let r := Randomized_Row_Swap.create (raw_base raw) (raw_rrs_stat raw) (new_detector rh_mg_entries rh_threshold)
    rh_rrs_tuples (getRowsPerBank g) rh_threshold (getBanksPerRank g) (getRanksPerChannel g) 1 in
  Ok (RRS (r <| Randomized_Row_Swap.base ::= fun b =>
    b <| swapDelay := rh_rrs_swap_delay p |> <| virtualize_RIT := false |> <| SRAM_RIT_accDelay := rh_rit_acc_delay p |> |>)).

Definition new_RQ : result t :=
  let rh_threshold := rh_actual_threshold p / 2 in
  rh_mg_entries ← udiv 1360000 rh_threshold;
  r ← Row_Quarantine.create rand_stream (raw_rq raw) (rh_rq_qr_size p) (getRowsPerBank g) rh_threshold
    (getBanksPerRank g) (getRanksPerChannel g) 1;
  cache_delay ← aread delay_ps_cacti (rh_rq_cache_sets p / 256);
  i ← cbf_delay_index (rh_rq_rows_per_btv_bit p);
  cbf_delay ← aread delay_ps_cacti i;
  let r := r <| Row_Quarantine.filter := None |>
    <| Row_Quarantine.cache := Some (Functional_Cache.create (rh_rq_cache_sets p) 16 (rh_rq_rows_per_btv_bit p)) |>
    <| Row_Quarantine.rows_per_btv_bit := rh_rq_rows_per_btv_bit p |>
    <| Row_Quarantine.drain_cache_miss_threshold := rh_rq_drain_threshold p |>
    <| Row_Quarantine.base ::= fun b =>
         b <| moveDelay := rh_rrs_swap_delay p / 2 |> <| accDelay := 45000 |>
           <| SRAM_Cache_accDelay := cache_delay |> <| SRAM_CBF_accDelay := cbf_delay |>
           <| virtualize_RIT := rh_rq_virtualize_rit p |> |> in
  let r := if rh_rq_virtualize_rit p then r
           else r <| Row_Quarantine.base ::= fun b =>
                b <| SRAM_RQT_accDelay := rh_rit_acc_delay p |> <| SRAM_Cache_accDelay := 0 |> <| SRAM_CBF_accDelay := 0 |> |> in
  Ok (RQ (r <| Row_Quarantine.detector := new_detector rh_mg_entries rh_threshold |>)).

Definition new_BH : result t :=
  let rh_threshold := rh_actual_threshold p / 2 in
  let black_list_threshold := u32 (rh_threshold * rh_bh_black_list_threshold p) / 100 in
  let r := BlockHammer.create (raw_base raw) rh_threshold (getRowsPerBank g) black_list_threshold
    (getBanksPerRank g) (getRanksPerChannel g) 1 in
  Ok (BH (r <| BlockHammer.base ::= fun b => b <| SRAM_CBF_accDelay := rh_rit_acc_delay p |> |>)).

Definition create : result t :=
  if (rh_mitigation p =? "RRS")%string then new_RRS
  else if (rh_mitigation p =? "RQ")%string then new_RQ
  else new_BH.
End Create.

(** ** An access *)

Definition s_num_accesses (d : t) : Z :=
  match d with
  | RRS r => Mitigation.s_num_accesses (Randomized_Row_Swap.base r)
  | RQ r => Mitigation.s_num_accesses (Row_Quarantine.base r)
  | BH r => Mitigation.s_num_accesses (BlockHammer.base r)
  end.

Section Access.
Context (rand_stream : nat -> Z).

(** [rh_defense->access(currTick, a, bank, rank, 0)], a virtual call. *)
Definition access (currTick a bank rank : Z) : comp t Decision := fun d =>
  match d with
  | RRS r => '(x, r) ← Randomized_Row_Swap.access rand_stream currTick a bank rank 0 r; Ok (x, RRS r)
  | RQ r => '(x, r) ← Row_Quarantine.access currTick a r; Ok (x, RQ r)
  | BH r => '(x, r) ← BlockHammer.access currTick a bank rank 0 r; Ok (x, BH r)
  end.

(** Which arguments the controller passes depends on the name of the mitigation. *)
Definition by_row (rh_mitigation : string) : bool := ((rh_mitigation =? "RRS") || (rh_mitigation =? "BH"))%string.
Definition defend (rh_mitigation : string) (now : Z) (p : MemPacket) : comp t MemPacket :=
  rh_decision ← (if by_row rh_mitigation then access now (row p) (bank p) (rank p) else access now (addr p) 0 0);
  mret (p <| rh_injectDelay := true |> <| rh_bubbleSize := delay rh_decision |>
          <| rh_SRAMDelay := u64 (SRAM_delay rh_decision + MC_delay rh_decision) |>).
End Access.

(** ** The bubble *)

(** [nextBurstAt += ...] of [doBurstAccess]: what the bubble adds. *)
Definition bubble (enabled : bool) (p : MemPacket) : Z :=
  if enabled && rh_injectDelay p && (0 <? rh_bubbleSize p)
  then if 7800 * 1000 <=? rh_bubbleSize p then 7000 * 1000 else rh_bubbleSize p
  else 0.

(** ** What the throttle of BlockHammer delays *)

Lemma bh_decision r now p c :
  let id := u32 (bank p + numBanks (BlockHammer.base r) * row p) in
  let acts := threshold (BlockHammer.base r) - (c + 1) - 1 in
  BlockHammer.ready r now id c -> 0 < acts -> BlockHammer.BlackListThreshold r <= c + 1 ->
  exists r', BlockHammer.access now (row p) (bank p) (rank p) 0 r =
    Ok (resetDecision <| MC_delay := BlockHammer.remaining r now / acts |> <| mitigate := true |>
          <| SRAM_delay := u64 (SRAM_CBF_accDelay (BlockHammer.base r)) |>, r').
Proof.
  intros id acts Hr Ha Hb. pose proof (BlockHammer.access_in_window r now (row p) (bank p) (rank p) 0 c Hr) as E.
  unfold BlockHammer.decide_access in E. cbv zeta in E.
  replace (c + 1 <? BlockHammer.BlackListThreshold r) with false in E by (symmetry; apply Z.ltb_ge; lia).
  replace (c + 1 + 1 <? threshold (BlockHammer.base r)) with true in E by (symmetry; apply Z.ltb_lt; lia).
  fold acts in E. unfold udiv in E. destruct (Z.eqb_spec acts 0); [lia|]. destruct E as (r' & E & _). by exists r'.
Qed.

(** A row that BlockHammer throttles is not slowed down on the bus: the delay of the
    controller goes to the response of the packet only, and the bubble before its burst is
    empty, so its activation is issued as early as that of any other row. *)
Theorem throttle_leaves_bus rand_stream now p r c :
  let id := u32 (bank p + numBanks (BlockHammer.base r) * row p) in
  let acts := threshold (BlockHammer.base r) - (c + 1) - 1 in
  BlockHammer.ready r now id c -> 0 < acts -> BlockHammer.BlackListThreshold r <= c + 1 ->
  exists p' r', defend rand_stream "BH" now p (BH r) = Ok (p', BH r') /\
    rh_SRAMDelay p' = u64 (u64 (SRAM_CBF_accDelay (BlockHammer.base r)) + BlockHammer.remaining r now / acts) /\
    forall enabled, bubble enabled p' = 0.
Proof.
  intros id acts Hr Ha Hb. destruct (bh_decision r now p c Hr Ha Hb) as (r' & E).
  eexists _, r'. unfold defend, access, mbind, comp_bind. cbn [by_row String.eqb Ascii.eqb Bool.eqb orb].
  cbn. unfold mbind in E |- *. rewrite E. split; [reflexivity|]. split; [done|]. intros enabled. unfold bubble. cbn. by rewrite andb_false_r.
Qed.

Lemma throttle_leaves_bus_witness : exists p' r',
  defend (fun _ => 0) "BH" 1000 (DRAMInterface.small_packet true 0 1 1) (BH (BlockHammer.example_bh 4)) = Ok (p', BH r') /\
  rh_SRAMDelay p' = u64 (5 + BlockHammer.remaining (BlockHammer.example_bh 4) 1000 / 2) /\ forall enabled, bubble enabled p' = 0.
Proof.
  apply (throttle_leaves_bus (fun _ => 0) 1000 (DRAMInterface.small_packet true 0 1 1) (BlockHammer.example_bh 4) 4);
    [apply BlockHammer.example_ready; lia|done|done].
Defined.
End Defense.
