(* ===== verification/QoSPolicy.v ===== *)
(** The scheduling policies of the QoS controller ([mem/qos/policy.hh],
    [policy_fixed_prio.cc], [policy_pf.cc]): the priority of a request, and the
    history a policy keeps.  The containers and the sort of the C++ library come
    in through [StdLib]. *)
From S2P Require Import Prelude Float64.
From Stdlib Require Import Floats.SpecFloat.
From stdpp Require Import sorting.
Open Scope Z_scope.

(** [std::sort] with the predicate of the proportional-fair policy, which leaves the
    order of equal scores open; the order in which an [unordered_map] is iterated. *)
Definition RequestorHistory : Type := Z * spec_float.
Definition not_above (x y : RequestorHistory) : Prop := SFltb (snd x) (snd y) = false.
Class StdLib := {
  std_sort : list RequestorHistory -> list RequestorHistory;
  map_order : list Z -> list Z;
  std_sort_perm l : std_sort l ≡ₚ l;
  std_sort_sorted l : Sorted not_above (std_sort l);
  map_order_perm l : map_order l ≡ₚ l
}.

(** An implementation of these. *)
#[global] Instance not_above_dec : RelDecision not_above := fun x y => bool_eq_dec _ _.
#[global] Instance not_above_total : Total not_above.
Proof.
  intros [i x] [j y]. unfold not_above, SFltb. cbn [snd].
  assert (SFcompare y x = CompOpp <$> SFcompare x y) as ->.
  { destruct x as [[]|[]| |[] m e], y as [[]|[]| |[] n f]; try done; cbn;
      rewrite (Z.compare_antisym e f); destruct (Z.compare e f); cbn; try done;
      change (Pos.compare_cont Eq) with Pos.compare; rewrite (Pos.compare_antisym m n); by rewrite ?CompOpp_involutive. }
  destruct (SFcompare x y) as [[]|]; auto.
Qed.
#[global] Program Instance merge_std : StdLib := {| std_sort := merge_sort not_above; map_order := id |}.
Next Obligation. intros l. apply merge_sort_Permutation. Qed.
Next Obligation. intros l. apply Sorted_merge_sort, _. Qed.
Next Obligation. done. Qed.

Module Policy.

(** ** The policies *)

Record FixedPriority := mkFixed { priorityMap : gmap Z Z; defaultPriority : Z }.
#[global] Instance eta_Fixed : Settable FixedPriority := fun r => mkFixed (priorityMap r) (defaultPriority r).
Record PropFair := mkPropFair { weight : spec_float; history : list RequestorHistory }.
#[global] Instance eta_PropFair : Settable PropFair := fun r => mkPropFair (weight r) (history r).

Inductive t := fixed (p : FixedPriority) | propfair (p : PropFair).

(** [std::map::insert] keeps the entry already there.  [id] is what the system
    object answers for the requestor; [None] is the invalid one. *)
Definition initRequestor_fixed (id : option Z) (priority : Z) (p : FixedPriority) : result FixedPriority :=
  match id with
  | None => Fault Panic
  | Some i => Ok (match priorityMap p !! i with
                  | Some _ => p
                  | None => p <| priorityMap ::= <[i := priority]> |>
                  end)
  end.
Definition initRequestor_pf (numPriorities : Z) (id : option Z) (score : spec_float) (p : PropFair)
    : result PropFair :=
  match id with
  | None => Fault AssertFail
  | Some i =>
      let p := p <| history ::= fun h => h ++ [(i, score)] |> in
      if numPriorities <? zlen (history p) then Fault Panic else Ok p
  end.
Definition new_PropFair (w : spec_float) : result PropFair :=
  if SFltb w (f64_of 0) || SFltb (f64_of 1) w then Fault Panic else Ok (mkPropFair w []).

Definition updateScore (p : PropFair) (old_score : spec_float) (served_bytes : Z) : spec_float :=
  f64_add (f64_mul (f64_sub (f64_of 1) (weight p)) old_score) (f64_mul (weight p) (f64_of served_bytes)).

(** One pass over the sorted history: the scores, and the position of [id]. *)
Fixpoint serve (p : PropFair) (id size : Z) (pos prio : Z) (h : list RequestorHistory)
    : Z * list RequestorHistory :=
  match h with
  | [] => (prio, [])
  | (curr_id, curr_score) :: h' =>
      let '(prio', h'') := serve p id size (pos + 1) (if curr_id =? id then u8 pos else prio) h' in
      (prio', (curr_id, updateScore p curr_score (if curr_id =? id then size else 0)) :: h'')
  end.

Section Schedule.
Context `{!StdLib}.

Definition schedule_fixed (id : Z) (p : FixedPriority) : Z :=
  match priorityMap p !! id with Some x => x | None => defaultPriority p end.
Definition schedule_pf (id size : Z) (p : PropFair) : Z * PropFair :=
  let '(prio, h) := serve p id size 0 0 (std_sort (history p)) in (prio, p <| history := h |>).

(** [Policy::schedule]: the priority of a request of [data] bytes. *)
Definition schedule (id data : Z) (p : t) : Z * t :=
  match p with
  | fixed q => (schedule_fixed id q, p)
  | propfair q => let '(prio, q) := schedule_pf id data q in (prio, propfair q)
  end.

(** ** What the proportional-fair policy promises *)

Lemma serve_ids p id size pos prio h : (serve p id size pos prio h).2.*1 = h.*1.
Proof using.
  revert pos prio. induction h as [|[i x] h IH]; intros pos prio; cbn; [done|].
  specialize (IH (pos + 1) (if i =? id then u8 pos else prio)).
  destruct (serve p id size (pos + 1) _ h) as [pr h'']. cbn in *. by rewrite IH.
Qed.
Lemma serve_prio p id size pos prio h : id ∉ h.*1 -> (serve p id size pos prio h).1 = prio.
Proof using.
  revert pos. induction h as [|[i x] h IH]; intros pos Hid; cbn; [done|].
  cbn in Hid. apply not_elem_of_cons in Hid as [Hne Hid].
  destruct (Z.eqb_spec i id) as [->|_]; [done|]. specialize (IH (pos + 1) Hid).
  by destruct (serve p id size (pos + 1) prio h).
Qed.
Lemma serve_position p id size pos prio h k s : NoDup h.*1 -> h !! k = Some (id, s) ->
  (serve p id size pos prio h).1 = u8 (pos + Z.of_nat k).
Proof using.
  revert pos prio k. induction h as [|[i x] h IH]; intros pos prio k Hnd Hk; [done|].
  cbn in *. apply NoDup_cons in Hnd as [Hi Hnd].
  destruct k as [|k]; cbn in Hk.
  - simplify_eq. rewrite Z.eqb_refl. pose proof (serve_prio p id size (pos + 1) (u8 pos) h Hi) as E.
    destruct (serve p id size (pos + 1) (u8 pos) h). cbn in *. rewrite E. f_equal. lia.
  - assert (i <> id) as Hne.
    { intros ->. apply Hi. apply list_elem_of_fmap. exists (id, s). split; [done|]. by eapply list_elem_of_lookup_2. }
    apply Z.eqb_neq in Hne as ->. pose proof (IH (pos + 1) prio k Hnd Hk) as E.
    destruct (serve p id size (pos + 1) prio h). cbn in *. rewrite E. f_equal. lia.
Qed.

(** The proportional-fair policy gives a requestor its position among the scores in
    decreasing order, so who has been served more has the lower priority; a requestor
    it does not know has priority 0; no requestor is lost from its history. *)
Theorem schedule_pf_position p id size : NoDup (history p).*1 -> zlen (history p) <= 256 ->
  (history (schedule_pf id size p).2).*1 ≡ₚ (history p).*1 /\
  Sorted not_above (std_sort (history p)) /\
  (id ∈ (history p).*1 ->
     exists s, std_sort (history p) !! (schedule_pf id size p).1 = Some (id, s)) /\
  (id ∉ (history p).*1 -> (schedule_pf id size p).1 = 0).
Proof using.
  intros Hnd Hlen. unfold schedule_pf.
  pose proof (std_sort_perm (history p)) as Hp. pose proof (fmap_Permutation fst _ _ Hp) as Hp1.
  pose proof (serve_ids p id size 0 0 (std_sort (history p))) as Hids.
  assert (NoDup (std_sort (history p)).*1) as Hnd' by by rewrite Hp1.
  pose proof (serve_prio p id size 0 0 (std_sort (history p))) as H0.
  pose proof (fun k s => serve_position p id size 0 0 _ k s Hnd') as Hk.
  destruct (serve p id size 0 0 (std_sort (history p))) as [prio h]. cbn in *. split_and!.
  - by rewrite Hids.
  - apply std_sort_sorted.
  - intros Hin. rewrite <- Hp1 in Hin. apply list_elem_of_fmap in Hin as ([i s] & -> & Hin). cbn in *.
    apply list_elem_of_lookup_1 in Hin as [k Hin]. exists s. rewrite (Hk _ _ Hin).
    apply lookup_lt_Some in Hin as Hlt. pose proof (Permutation_length Hp) as Hl. unfold zlen, RequestorHistory in *.
    rewrite u8_small, Z.add_0_l by lia. by rewrite zlookup_nat.
  - intros Hnin. apply H0. by rewrite Hp1.
Qed.
End Schedule.

Definition two_served : PropFair := mkPropFair (f64_of 1) [(7, f64_of 64); (8, f64_of 128)].
Lemma schedule_pf_position_witness : exists s, std_sort (history two_served) !! (schedule_pf 7 64 two_served).1 = Some (7, s).
Proof.
  apply (schedule_pf_position two_served 7 64).
  - change (NoDup [7; 8]). apply (bool_decide_unpack _). exact I.
  - done.
  - apply (bool_decide_unpack (7 ∈ [7; 8])). exact I.
Defined.
Example schedule_pf_7 : (schedule_pf 7 64 two_served).1 = 1.
Proof. by vm_compute. Qed.
End Policy.
