(* ===== verification/QoS.v ===== *)
(** The QoS part of the memory controller ([mem/qos/mem_ctrl.cc], [mem/qos/mem_ctrl.hh],
    [turnaround_policy_ideal.cc]): the accounts of the packets of each requestor at each
    priority, the escalation of queued packets, and the direction of the bus. *)
From S2P Require Import Prelude Packet QoSPolicy.

Module QoS.

(** ** State *)

Inductive BusState := READ | WRITE.
#[global] Instance BusState_eq_dec : EqDecision BusState.
Proof. solve_decision. Defined.
(** The only turnaround policy of the repository. *)
Inductive TurnaroundPolicy := Ideal.

(** What the statistics are given: the samples of the averages, the turnarounds, and
    for each response its priority, tick, delay and the tick of its request. *)
Record Stats := mkStats {
  avgPriority : list (Z * Z); avgPriorityDistance : list (Z * Z);
  latencies : list (Z * (Z * Z * Z));
  numReadWriteTurnArounds : Z; numWriteReadTurnArounds : Z;
  numStayReadState : Z; numStayWriteState : Z }.
#[global] Instance eta_Stats : Settable Stats := fun r =>
  mkStats (avgPriority r) (avgPriorityDistance r) (latencies r) (numReadWriteTurnArounds r)
    (numWriteReadTurnArounds r) (numStayReadState r) (numStayWriteState r).

Record t := mkQoS {
  policy : option Policy.t; turnPolicy : option TurnaroundPolicy; numPriorities : Z;
  qosPriorityEscalation : bool; qosSyncroScheduler : bool;
  requestors : list Z; packetPriorities : gmap Z (list Z); requestTimes : gmap Z (gmap Z (list Z));
  serviceTick : list Z; readQueueSizes : list Z; writeQueueSizes : list Z;
  totalReadQueueSize : Z; totalWriteQueueSize : Z; busState : BusState; busStateNext : BusState;
  stats : Stats }.
#[global] Instance eta_t : Settable t := fun r =>
  mkQoS (policy r) (turnPolicy r) (numPriorities r) (qosPriorityEscalation r) (qosSyncroScheduler r)
    (requestors r) (packetPriorities r) (requestTimes r) (serviceTick r) (readQueueSizes r)
    (writeQueueSizes r) (totalReadQueueSize r) (totalWriteQueueSize r) (busState r) (busStateNext r) (stats r).

Definition create (pol : option Policy.t) (turn : option TurnaroundPolicy) (n : Z) (escalation syncro : bool) : t :=
  mkQoS pol turn n escalation syncro [] ∅ ∅ (calloc n 0) (calloc n 0) (calloc n 0) 0 0 READ READ
    (mkStats [] [] [] 0 0 0 0).

(** ** Accounting *)

Definition hasRequestor (id : Z) (s : t) : bool := bool_decide (id ∈ requestors s).
Definition resize (n : Z) (l : list Z) : list Z :=
  take (Z.to_nat n) l ++ replicate (Z.to_nat n - length l) 0.
Definition prios_of (id : Z) (s : t) : list Z := default [] (packetPriorities s !! id).
Definition addRequestor (id : Z) : comp t unit :=
  s ← get;
  when_ (negb (hasRequestor id s)) (modify (fun s =>
    s <| requestors ::= fun l => l ++ [id] |>
      <| packetPriorities ::= <[id := resize (numPriorities s) (prios_of id s)]> |>)).

(** [l[i] += d], on a vector of counters. *)
Definition bump (l : list Z) (i d : Z) : result (list Z) := x ← aread l i; awrite l i (u64 (x + d)).
(** The size of the queues of one direction, changed by [d]. *)
Definition bump_queue (dir : BusState) (qos d : Z) : comp t unit :=
  s ← get;
  match dir with
  | READ => l ← lift (bump (readQueueSizes s) qos d);
            modify (fun s => s <| readQueueSizes := l |> <| totalReadQueueSize ::= fun n => u64 (n + d) |>)
  | WRITE => l ← lift (bump (writeQueueSizes s) qos d);
             modify (fun s => s <| writeQueueSizes := l |> <| totalWriteQueueSize ::= fun n => u64 (n + d) |>)
  end.
Definition bump_prio (id qos d : Z) : comp t unit :=
  s ← get; l ← lift (bump (prios_of id s) qos d);
  modify (fun s => s <| packetPriorities ::= <[id := l]> |>).

(** The times of the requests to [addr] that wait for their response. *)
Definition times_of (id addr : Z) (s : t) : list Z := default [] (default ∅ (requestTimes s !! id) !! addr).
Definition set_times (id addr : Z) (l : list Z) (s : t) : t :=
  s <| requestTimes ::= <[id := match l with
                                | [] => delete addr (default ∅ (requestTimes s !! id))
                                | _ => <[addr := l]> (default ∅ (requestTimes s !! id)) end]> |>.

(** The distances to the other priorities, cut to eight bits. *)
Fixpoint distances (qos i : Z) (l : list Z) : list Z :=
  match l with
  | [] => []
  | n :: l' => let d := u8 (Z.abs (qos - i) * n) in
               if 0 <? d then d :: distances qos (i + 1) l' else distances qos (i + 1) l'
  end.

Section Code.
Context (now : Z).

Definition logRequest (dir : BusState) (id qos addr entries : Z) : comp t unit :=
  addRequestor id;;
  bump_queue dir qos entries;;
  bump_prio id qos entries;;
  for_ (Z.to_nat entries) 0 (fun _ => modify (fun s => set_times id addr (times_of id addr s ++ [now]) s));;
  modify (fun s => s <| stats ::= fun st =>
    st <| avgPriority ::= fun l => l ++ [(id, qos)] |>
       <| avgPriorityDistance ::= fun l => l ++ (pair id <$> distances qos 0 (prios_of id s)) |> |>).

(** The oldest request to [addr] is answered. *)
Definition take_time (id qos addr delay : Z) : comp t unit :=
  s ← get;
  match times_of id addr s with
  | [] => lift (Fault Panic)
  | requestTime :: l =>
      modify (fun s => set_times id addr l s <| stats ::= fun st =>
        st <| latencies ::= fun l => l ++ [(qos, (now, delay, requestTime))] |> |>)
  end.
Definition logResponse (dir : BusState) (id qos addr entries delay : Z) : comp t unit :=
  s ← get;
  if negb (hasRequestor id s) then lift (Fault Panic) else
  bump_queue dir qos (- entries);;
  s ← get;
  n ← lift (aread (prios_of id s) qos);
  if n =? 0 then lift (Fault Panic) else
  bump_prio id qos (- entries);;
  for_ (Z.to_nat entries) 0 (fun _ => take_time id qos addr delay).

(** ** The direction of the bus *)

Definition opposite (b : BusState) : BusState := match b with READ => WRITE | WRITE => READ end.

(** [TurnaroundPolicyIdeal::selectBusState], from priority [numPriorities - n .. ] on:
    [n] queues are left, the highest first. *)
Fixpoint ideal_from (s : t) (n : nat) : result BusState :=
  match n with
  | O => Ok (busState s)
  | S n' =>
      let queue_idx := Z.of_nat n' in
      readq_size ← aread (readQueueSizes s) queue_idx;
      writeq_size ← aread (writeQueueSizes s) queue_idx;
      if (readq_size =? 0) && (writeq_size =? 0) then ideal_from s n'
      else if readq_size =? 0 then Ok WRITE
      else if writeq_size =? 0 then Ok READ
      else Ok (opposite (busState s))
  end.
Definition selectBusState (s : t) : result BusState := ideal_from s (Z.to_nat (numPriorities s)).

Definition selectNextBusState (s : t) : result BusState :=
  match turnPolicy s with
  | Some Ideal => selectBusState s
  | None =>
      if (totalReadQueueSize s =? 0) && bool_decide (busState s = READ)
         || (totalWriteQueueSize s =? 0) && bool_decide (busState s = WRITE)
      then Ok (opposite (busState s)) else Ok (busState s)
  end.
Definition setCurrentBusState : comp t unit := modify (fun s => s <| busState := busStateNext s |>).

Definition count_turnaround (next cur : BusState) (st : Stats) : Stats :=
  match next, cur with
  | WRITE, READ => st <| numWriteReadTurnArounds ::= Z.succ |>
  | READ, WRITE => st <| numReadWriteTurnArounds ::= Z.succ |>
  | READ, READ => st <| numStayReadState ::= Z.succ |>
  | WRITE, WRITE => st <| numStayWriteState ::= Z.succ |>
  end.
Definition recordTurnaroundStats : comp t unit :=
  modify (fun s => s <| stats ::= count_turnaround (busStateNext s) (busState s) |>).
End Code.

(** ** Scheduling *)

Section Schedule.
Context `{!StdLib}.

Definition schedule (id data : Z) : comp t Z :=
  s ← get;
  match policy s with
  | None => mret 0
  | Some p => let '(prio, p) := Policy.schedule id data p in
              modify (fun s => s <| policy := Some p |>);; mret prio
  end.
Definition schedule_pkt (p : Packet) : comp t Z :=
  s ← get;
  match policy s with
  | None => mret (pkt_qosValue p)
  | Some _ => schedule (pkt_requestorId p) (pkt_size p)
  end.

(** ** Escalation *)

(** The packets of the queues: system packets in one controller, memory packets in
    the other. *)
Class QueuedPacket (A : Type) := {
  qp_requestorId : A -> Z; qp_size : A -> Z; qp_isRead : A -> bool; qp_isWrite : A -> bool; qp_qosValue : A -> Z;
  qp_addr : A -> Z;
  set_qosValue : Z -> A -> A }.

Context {A : Type} `{!QueuedPacket A}.

(** The controller and the queues handed to the scheduler, each a vector of queues
    indexed by priority. *)
Record qq := mkQQ { ctl : t; queues : list (list (list A)) }.
#[global] Instance eta_qq : Settable qq := fun r => mkQQ (ctl r) (queues r).
Definition on_ctl {B} (m : comp t B) : comp qq B := zoom ctl (fun c s => s <| ctl := c |>) m.

Definition get_queue (k prio : Z) : comp qq (list A) :=
  s ← get; v ← lift (aread (queues s) k); lift (aread v prio).
Definition set_queue (k prio : Z) (q : list A) : comp qq unit :=
  s ← get; v ← lift (aread (queues s) k); v ← lift (awrite v prio q); v' ← lift (awrite (queues s) k v);
  modify (fun s => s <| queues := v' |>).

Definition divCeil (a b : Z) : result Z := udiv (a + b - 1) b.

(** [sizes[curr_prio] -= moved; sizes[tgt_prio] += moved], or a panic. *)
Definition move_count (moved curr_prio tgt_prio : Z) (l : list Z) : result (list Z) :=
  n ← aread l curr_prio;
  if n <? moved then Fault Panic else l ← awrite l curr_prio (n - moved); bump l tgt_prio moved.
Definition move_entries (is_read is_write : bool) (id moved curr_prio tgt_prio : Z) : comp t unit :=
  s ← get;
  (if is_read then l ← lift (move_count moved curr_prio tgt_prio (readQueueSizes s));
                   modify (fun s => s <| readQueueSizes := l |>)
   else when_ is_write (
     l ← lift (move_count moved curr_prio tgt_prio (writeQueueSizes s));
     modify (fun s => s <| writeQueueSizes := l |>)));;
  l ← lift (move_count moved curr_prio tgt_prio (prios_of id s));
  modify (fun s => s <| packetPriorities ::= <[id := l]> |>).

(** The iteration over one queue: what is left of it. *)
Fixpoint escalate_loop (k entry_size id curr_prio tgt_prio : Z) (q : list A) : comp qq (list A) :=
  match q with
  | [] => mret []
  | p :: q' =>
      s ← get;
      n ← lift (aread (prios_of id (ctl s)) curr_prio);
      if n =? 0 then mret q
      else if qp_requestorId p =? id then
        moved ← lift (divCeil (qp_size p) entry_size);
        on_ctl (move_entries (qp_isRead p) (qp_isWrite p) id moved curr_prio tgt_prio);;
        qt ← get_queue k tgt_prio;
        set_queue k tgt_prio (qt ++ [set_qosValue tgt_prio p]);;
        escalate_loop k entry_size id curr_prio tgt_prio q'
      else q'' ← escalate_loop k entry_size id curr_prio tgt_prio q'; mret (p :: q'')
  end.
Definition escalateQueues (entry_size id curr_prio tgt_prio k : Z) : comp qq unit :=
  q ← get_queue k curr_prio;
  q' ← escalate_loop k entry_size id curr_prio tgt_prio q;
  set_queue k curr_prio q'.

(** [while (packetPriorities[id][curr_prio] > 0)] *)
Fixpoint escalate_prio (fuel : nat) (entry_size id tgt_prio curr_prio : Z) : comp qq unit :=
  s ← get;
  n ← lift (aread (prios_of id (ctl s)) curr_prio);
  if n =? 0 then mret tt
  else match fuel with
       | O => lift (Fault OutOfFuel)
       | S f => for_ (length (queues s)) 0 (escalateQueues entry_size id curr_prio tgt_prio);;
                escalate_prio f entry_size id tgt_prio curr_prio
       end.
(** Every pass that makes progress moves an entry. *)
Definition passes (id curr_prio : Z) (s : qq) : nat := S (Z.to_nat (default 0 (prios_of id (ctl s) !! curr_prio))).
Definition escalate (entry_size id tgt_prio : Z) : comp qq unit :=
  on_ctl (addRequestor id);;
  n ← gets (fun s => numPriorities (ctl s));
  for_ (Z.to_nat n) 0 (fun curr_prio => when_ (negb (curr_prio =? tgt_prio))
    (s ← get; escalate_prio (passes id curr_prio s) entry_size id tgt_prio curr_prio)).

(** The other requestors, when they are scheduled together. *)
Fixpoint synchronise (entry_size me : Z) (ids : list Z) : comp qq unit :=
  match ids with
  | [] => mret tt
  | id :: ids' =>
      when_ (negb (id =? me)) (
        prio ← on_ctl (schedule id 0);
        s ← get; when_ (qosPriorityEscalation (ctl s)) (escalate entry_size id prio));;
      synchronise entry_size me ids'
  end.

(** The priority of the packet, and the packet marked with it. *)
Definition qosSchedule (now entry_size : Z) (p : Packet) : comp qq (Z * Packet) :=
  pkt_priority ← on_ctl (schedule_pkt p);
  s ← get;
  assert_ (pkt_priority <? numPriorities (ctl s));;
  let p := p <| pkt_qosValue := pkt_priority |> in
  s ← get;
  when_ (qosSyncroScheduler (ctl s))
    (synchronise entry_size (pkt_requestorId p) (map_order (requestors (ctl s))));;
  when_ (qosPriorityEscalation (ctl s)) (escalate entry_size (pkt_requestorId p) pkt_priority);;
  s ← get;
  l ← lift (awrite (serviceTick (ctl s)) pkt_priority now);
  on_ctl (modify (fun c => c <| serviceTick := l |>));;
  mret (pkt_priority, p).
End Schedule.
Arguments qq : clear implicits.

#[global] Instance Packet_queued : QueuedPacket Packet := {|
  qp_requestorId := pkt_requestorId; qp_size := pkt_size; qp_isRead := pkt_read; qp_isWrite := pkt_write; qp_qosValue := pkt_qosValue; qp_addr := pkt_addr;
  set_qosValue := fun v p => p <| pkt_qosValue := v |> |}.
#[global] Instance MemPacket_queued : QueuedPacket MemPacket := {|
  qp_requestorId := requestorId; qp_size := size; qp_isRead := isRead; qp_isWrite := fun p => negb (isRead p);
  qp_qosValue := qosValue; qp_addr := addr;
  set_qosValue := fun v p => p <| qosValue := v |> |}.
End QoS.
