(* ===== verification/QoSEscalate.v ===== *)
(** The escalation of the packets of a requestor ([QoS::MemCtrl::escalate]): it ends,
    panics on none of its checks, and moves the packets of the requestor, and no
    others, to the target priority. *)
From S2P Require Import Prelude Packet QoSPolicy QoS.

(** ** Arrays changed at one place *)

Lemma zalter_write {A} (f : A -> A) (l : list A) (i : Z) x : l !! i = Some x ->
  awrite l i (f x) = Ok (alter f (Z.to_nat i) l).
Proof.
  intros Hx. pose proof (zlookup_lt _ _ _ Hx) as Hi. unfold awrite, zlen in *.
  destruct (Z.leb_spec 0 i), (Z.ltb_spec i (Z.of_nat (length l))); try lia. cbn [andb].
  unfold lookup, zlist_lookup in Hx. unfold insert, zlist_insert. destruct (Z.ltb_spec i 0); [lia|].
  f_equal. apply list_eq. intros j. destruct (decide (j = Z.to_nat i)) as [->|Hj].
  - rewrite list_lookup_insert_eq, list_lookup_alter_eq, Hx by lia. done.
  - by rewrite list_lookup_insert_ne, list_lookup_alter_ne.
Qed.
Lemma zlookup_alter {A} (f : A -> A) (l : list A) (i : Z) : 0 <= i ->
  alter f (Z.to_nat i) l !! i = f <$> l !! i.
Proof.
  intros Hi. unfold lookup, zlist_lookup. destruct (Z.ltb_spec i 0); [lia|]. apply list_lookup_alter_eq.
Qed.
Lemma zlookup_alter_ne {A} (f : A -> A) (l : list A) (i j : Z) : 0 <= i -> i <> j ->
  alter f (Z.to_nat i) l !! j = l !! j.
Proof.
  intros Hi Hij. unfold lookup, zlist_lookup. destruct (Z.ltb_spec j 0); [done|].
  apply list_lookup_alter_ne. lia.
Qed.
Lemma zlen_alter {A} (f : A -> A) (l : list A) (n : nat) : zlen (alter f n l) = zlen l.
Proof. unfold zlen. by rewrite length_alter. Qed.


(** ** Moving a count from one priority to another *)

Definition shift (m curr tgt : Z) (l : list Z) : list Z :=
  alter (Z.add m) (Z.to_nat tgt) (alter (Z.add (- m)) (Z.to_nat curr) l).

Lemma zlen_shift m a b l : zlen (shift m a b l) = zlen l.
Proof. unfold shift. by rewrite !zlen_alter. Qed.
Lemma list_alter_id' {A} (f : A -> A) (l : list A) n : (forall x, f x = x) -> alter f n l = l.
Proof.
  intros H. apply list_eq. intros i. destruct (decide (i = n)) as [->|Hi].
  - rewrite list_lookup_alter_eq. destruct (l !! n); cbn; by rewrite ?H.
  - by rewrite list_lookup_alter_ne.
Qed.
Lemma shift_0 a b l : shift 0 a b l = l.
Proof. unfold shift. rewrite !list_alter_id'; try done; intros; lia. Qed.
Lemma shift_lookup m a b l i : shift m a b l !! i =
  (fun x => x + (if decide (Z.to_nat b = i) then m else 0) - (if decide (Z.to_nat a = i) then m else 0)) <$> l !! i.
Proof.
  unfold shift. rewrite !list_lookup_alter.
  destruct (decide (Z.to_nat b = i)) as [Eb|Eb], (decide (Z.to_nat a = i)) as [Ea|Ea], (decide (Z.to_nat a = Z.to_nat b)) as [Eab|Eab];
    try congruence; rewrite ?Ea, ?Eb; destruct (l !! i); cbn; try done; f_equal; lia.
Qed.
Lemma shift_shift m m' a b l : shift m a b (shift m' a b l) = shift (m + m') a b l.
Proof.
  apply list_eq. intros i. rewrite !shift_lookup. destruct (l !! i); [|done]. cbn. f_equal.
  repeat case_decide; lia.
Qed.
Lemma shift_curr m a b l x : 0 <= a -> 0 <= b -> a <> b -> l !! a = Some x -> shift m a b l !! a = Some (x - m).
Proof.
  intros Ha Hb Hab Hx. unfold shift. rewrite zlookup_alter_ne, zlookup_alter, Hx by lia. cbn. f_equal. lia.
Qed.
Lemma shift_tgt m a b l x : 0 <= a -> 0 <= b -> a <> b -> l !! b = Some x -> shift m a b l !! b = Some (x + m).
Proof.
  intros Ha Hb Hab Hx. unfold shift. rewrite zlookup_alter, zlookup_alter_ne, Hx by lia. cbn. f_equal. lia.
Qed.

Module Escalate.
Import QoS.

Lemma move_count_ok m a b l x y : 0 <= a -> 0 <= b -> a <> b -> 0 <= m <= x -> 0 <= y -> y + m < 2 ^ 64 ->
  l !! a = Some x -> l !! b = Some y -> move_count m a b l = Ok (shift m a b l).
Proof.
  intros Ha Hb Hab Hm Hy H64 Hx Hy'. unfold move_count, aread. rewrite Hx. cbn [mbind result_bind].
  destruct (Z.ltb_spec x m); [lia|]. replace (x - m) with (Z.add (- m) x) by lia.
  rewrite (zalter_write _ _ _ _ Hx). cbn [mbind result_bind]. unfold bump, aread.
  rewrite zlookup_alter_ne, Hy' by done. cbn [mbind result_bind]. rewrite u64_small by lia.
  rewrite Z.add_comm. apply zalter_write. by rewrite zlookup_alter_ne.
Qed.

(** The counts of [id] at two priorities. *)
Lemma resize_fresh n : resize n [] = calloc n 0.
Proof. unfold resize, calloc. by rewrite take_nil, Nat.sub_0_r. Qed.

(** What the code relies on of the packets: setting the priority changes nothing else. *)
Class QueuedPacketLaws (A : Type) `{!QueuedPacket A} := {
  set_qos v p : qp_qosValue (set_qosValue v p) = v;
  set_addr v p : qp_addr (set_qosValue v p) = qp_addr p;
  set_requestorId v p : qp_requestorId (set_qosValue v p) = qp_requestorId p;
  set_size v p : qp_size (set_qosValue v p) = qp_size p;
  set_isRead v p : qp_isRead (set_qosValue v p) = qp_isRead p;
  set_isWrite v p : qp_isWrite (set_qosValue v p) = qp_isWrite p }.
#[global] Instance Packet_laws : QueuedPacketLaws Packet.
Proof. by split. Qed.
#[global] Instance MemPacket_laws : QueuedPacketLaws MemPacket.
Proof. by split. Qed.

Section Loop.
Context {A : Type} `{!QueuedPacket A} `{!QueuedPacketLaws A} (es : Z).

(** The entries of a packet, and those of the packets of [id] in a queue. *)
Definition entries (p : A) : Z := (qp_size p + es - 1) / es.
Definition is_of (id : Z) (p : A) : bool := qp_requestorId p =? id.
Definition vol (q : list A) : Z := lsum entries q.
Definition vol_of (id : Z) (q : list A) : Z := vol (List.filter (is_of id) q).
Definition others (id : Z) (q : list A) : list A := List.filter (fun p => negb (is_of id p)) q.
Definition mine (id : Z) (q : list A) : list A := List.filter (is_of id) q.

(** The direction of the [k]-th vector of queues: reads, then writes. *)
Definition dir_ok (k : Z) (p : A) : Prop :=
  0 < qp_size p /\ qp_isRead p = (k =? 0) /\ (k <> 0 -> qp_isWrite p = true).
Definition sizes (k : Z) (c : t) : list Z := if k =? 0 then readQueueSizes c else writeQueueSizes c.
Definition shift_sizes (k m a b : Z) (c : t) : t :=
  if k =? 0 then c <| readQueueSizes ::= shift m a b |> else c <| writeQueueSizes ::= shift m a b |>.
Definition shift_prio (id m a b : Z) (c : t) : t :=
  c <| packetPriorities ::= <[id := shift m a b (prios_of id c)]> |>.
Definition shift_ctl (k id m a b : Z) (c : t) : t := shift_prio id m a b (shift_sizes k m a b c).

Hypothesis Hes : 0 < es.
Lemma entries_pos p : 0 < qp_size p -> 0 < entries p.
Proof using Hes. intros H. unfold entries. apply Z.div_str_pos. lia. Qed.
Lemma vol_nonneg q : Forall (fun p => 0 < qp_size p) q -> 0 <= vol q.
Proof using Hes.
  intros H. induction H as [|p q Hp _ IH]; [done|]. unfold vol in *. cbn [lsum]. pose proof (entries_pos p Hp). lia.
Qed.
Lemma Forall_filter {P : A -> Prop} (f : A -> bool) q : Forall P q -> Forall P (List.filter f q).
Proof using. intros H. induction H as [|p q Hp _ IH]; cbn; [constructor|]. destruct (f p); [by constructor|done]. Qed.
Lemma vol_of_nonneg id q : Forall (fun p => 0 < qp_size p) q -> 0 <= vol_of id q.
Proof using Hes. intros H. by apply vol_nonneg, Forall_filter. Qed.

Lemma move_entries_wp k p id m a b (c : t) x y n z (Q : unit -> t -> Prop) : 0 <= a -> 0 <= b -> a <> b ->
  dir_ok k p -> 0 <= m <= x -> 0 <= y -> y + m < 2 ^ 64 -> m <= n -> 0 <= z -> z + m < 2 ^ 64 ->
  sizes k c !! a = Some x -> sizes k c !! b = Some y -> prios_of id c !! a = Some n -> prios_of id c !! b = Some z ->
  Q tt (shift_ctl k id m a b c) -> wp (move_entries (qp_isRead p) (qp_isWrite p) id m a b) c Q.
Proof using.
  intros Ha Hb Hab (Hsz & Hr & Hw) Hm Hy H64 Hn Hz Hz64 Hx Hy' Hn' Hz' HQ. unfold move_entries. wp_step. wp_step. wp_step.
  apply wp_mono with (P := fun _ c' => c' = shift_sizes k m a b c).
  - unfold sizes, shift_sizes in *. rewrite Hr. destruct (Z.eqb_spec k 0) as [->|Hk].
    + cbv iota. wp_step. wp_step. rewrite (move_count_ok m a b _ x y) by (done || lia). apply wp_modify. done.
    + cbv iota. apply wp_when; intros ?; [|by rewrite Hw in *]. wp_step. wp_step.
      rewrite (move_count_ok m a b _ x y) by (done || lia). apply wp_modify. done.
  - intros _ c' ->. wp_step. wp_step.
    assert (prios_of id (shift_sizes k m a b c) = prios_of id c) as E by (unfold shift_sizes; by destruct (k =? 0)).
    rewrite (move_count_ok m a b _ n z) by (done || lia). apply wp_modify.
    unfold shift_ctl, shift_prio in HQ. by rewrite E in HQ.
Qed.

(** What moves out of one queue goes to the end of another. *)
Definition send (id a b : Z) (v : list (list A)) : list (list A) :=
  alter (fun q => q ++ (set_qosValue b <$> mine id (default [] (v !! a)))) (Z.to_nat b)
    (alter (others id) (Z.to_nat a) v).
Definition append (b : Z) (l : list A) (v : list (list A)) : list (list A) := alter (fun q => q ++ l) (Z.to_nat b) v.

Lemma get_queue_wp k prio v q (s : qq A) (Q : list A -> qq A -> Prop) :
  queues s !! k = Some v -> v !! prio = Some q -> Q q s -> wp (get_queue k prio) s Q.
Proof using.
  intros Hv Hq HQ. unfold get_queue. wp_step. wp_step. wp_step. wp_step. unfold aread. rewrite Hv. wp_step.
  wp_step. by rewrite Hq.
Qed.
Lemma set_queue_wp k prio v q f (s : qq A) (Q : unit -> qq A -> Prop) :
  queues s !! k = Some v -> v !! prio = Some q ->
  Q tt (s <| queues ::= alter (alter f (Z.to_nat prio)) (Z.to_nat k) |>) -> wp (set_queue k prio (f q)) s Q.
Proof using.
  intros Hv Hq HQ. unfold set_queue. wp_step. wp_step. wp_step. wp_step. unfold aread. rewrite Hv. wp_step.
  wp_step. wp_step. rewrite (zalter_write f _ _ _ Hq). wp_step.
  wp_step. wp_step. rewrite (zalter_write (alter f (Z.to_nat prio)) _ _ _ Hv). apply wp_modify. exact HQ.
Qed.

(** Only the counters per priority differ. *)
Definition same_ctl (c c' : t) : Prop := exists pp rs ws,
  c' = c <| packetPriorities := pp |> <| readQueueSizes := rs |> <| writeQueueSizes := ws |>.

(** [m] entries and the packets [l] of [id] moved from priority [a] to [b] of the
    [k]-th vector. *)
Definition moved (k id m a b : Z) (l : list A) (s : qq A) : qq A :=
  s <| ctl ::= shift_ctl k id m a b |> <| queues ::= alter (append b l) (Z.to_nat k) |>.

Lemma prios_shift k id m a b c : prios_of id (shift_ctl k id m a b c) = shift m a b (prios_of id c).
Proof using.
  unfold shift_ctl, shift_prio, prios_of, shift_sizes. destruct (k =? 0); cbn; by rewrite lookup_insert_eq.
Qed.
Lemma sizes_shift k id m a b c : sizes k (shift_ctl k id m a b c) = shift m a b (sizes k c).
Proof using. unfold shift_ctl, shift_prio, sizes, shift_sizes. by destruct (k =? 0). Qed.
Lemma shift_ctl_0 k id a b c x : prios_of id c !! a = Some x -> shift_ctl k id 0 a b c = c.
Proof using.
  intros Hx. unfold shift_ctl, shift_prio, prios_of, shift_sizes in *.
  destruct (packetPriorities c !! id) as [l|] eqn:E; [|cbn in Hx; by rewrite zlookup_nil in Hx].
  destruct c; cbn in *. destruct (k =? 0); unfold over; cbn; by rewrite E; cbn; rewrite !shift_0, insert_id.
Qed.
Lemma shift_ctl_shift k id m m' a b c :
  shift_ctl k id m a b (shift_ctl k id m' a b c) = shift_ctl k id (m' + m) a b c.
Proof using.
  unfold shift_ctl at 1. unfold shift_prio at 1.
  assert (prios_of id (shift_sizes k m a b (shift_ctl k id m' a b c)) = shift m' a b (prios_of id c)) as ->
    by (rewrite <- (prios_shift k id m' a b c); unfold shift_sizes; by destruct (k =? 0)).
  rewrite shift_shift, (Z.add_comm m m'). unfold shift_ctl, shift_prio, shift_sizes, prios_of. destruct c.
  destruct (k =? 0); unfold over; cbn; by rewrite shift_shift, insert_insert_eq, (Z.add_comm m m').
Qed.
Lemma append_nil b v : append b [] v = v.
Proof using. apply list_alter_id'. intros q. apply app_nil_r. Qed.
Lemma alter_alter {B} (f g : B -> B) (l : list B) n : alter f n (alter g n l) = alter (fun x => f (g x)) n l.
Proof using. apply list_eq. intros i. rewrite !list_lookup_alter. repeat case_decide; try done. by destruct (l !! n). Qed.
Lemma alter_ext {B} (f g : B -> B) (l : list B) n : (forall x, f x = g x) -> alter f n l = alter g n l.
Proof using.
  intros H. apply list_eq. intros i. rewrite !list_lookup_alter. case_decide; [|done]. destruct (l !! n); cbn; by rewrite ?H.
Qed.
Lemma append_append b l l' v : append b l' (append b l v) = append b (l ++ l') v.
Proof using. unfold append. rewrite alter_alter. apply alter_ext. intros q. by rewrite app_assoc. Qed.
Lemma moved_0 k id a b s x : prios_of id (ctl s) !! a = Some x -> moved k id 0 a b [] s = s.
Proof using.
  intros Hx. unfold moved, over. destruct s as [c qs]. cbn in *. rewrite (shift_ctl_0 _ _ _ _ _ x Hx). f_equal.
  apply list_alter_id'. intros v. apply append_nil.
Qed.
Lemma moved_moved k id m m' a b l l' s :
  moved k id m' a b l' (moved k id m a b l s) = moved k id (m + m') a b (l ++ l') s.
Proof using.
  unfold moved, over. destruct s as [c qs]. cbn. rewrite shift_ctl_shift. f_equal. rewrite alter_alter. apply alter_ext.
  intros v. apply append_append.
Qed.

Lemma vol_of_cons id p q : vol_of id (p :: q) = (if is_of id p then entries p else 0) + vol_of id q.
Proof using. unfold vol_of. cbn. by destruct (is_of id p). Qed.
Lemma none_of id q : Forall (fun p => 0 < qp_size p) q -> vol_of id q <= 0 -> mine id q = [] /\ others id q = q.
Proof using Hes.
  intros H. induction H as [|p q Hp H IH]; intros Hv; [done|]. rewrite vol_of_cons in Hv.
  pose proof (vol_of_nonneg id q H). pose proof (entries_pos p Hp). unfold mine, others. cbn.
  destruct (is_of id p); [lia|]. destruct (IH ltac:(lia)) as [E1 E2]. unfold mine, others in *. cbn. by rewrite E1, E2.
Qed.
Lemma dir_size k q : Forall (dir_ok k) q -> Forall (fun p => 0 < qp_size p) q.
Proof using. intros H. eapply Forall_impl; [|exact H]. by intros p []. Qed.

Lemma escalate_loop_wp k id a b q (s : qq A) v qt n x y z (Q : list A -> qq A -> Prop) :
  0 <= k -> 0 <= a -> 0 <= b -> a <> b -> Forall (dir_ok k) q -> let m := vol_of id q in
  m <= n -> prios_of id (ctl s) !! a = Some n -> prios_of id (ctl s) !! b = Some z -> 0 <= z -> z + m < 2 ^ 64 ->
  m <= x -> sizes k (ctl s) !! a = Some x -> sizes k (ctl s) !! b = Some y -> 0 <= y -> y + m < 2 ^ 64 ->
  queues s !! k = Some v -> v !! b = Some qt ->
  Q (others id q) (moved k id m a b (set_qosValue b <$> mine id q) s) ->
  wp (escalate_loop k es id a b q) s Q.
Proof using Hes.
  intros Hk Ha Hb Hab. revert s v qt n x y z Q.
  induction q as [|p q IH]; intros s v qt n x y z Q Hq m Hn En Ez Hz Hz64 Hx Ex Ey Hy Hy64 Hv Hqt HQ;
    cbn [escalate_loop].
  { apply wp_ret. subst m. unfold mine, vol_of, vol in HQ. cbn in HQ. by rewrite (moved_0 _ _ _ _ _ n) in HQ. }
  subst m. inversion Hq as [|? ? Hp Hq']; subst. pose proof (dir_size _ _ Hq) as Hpos.
  inversion Hpos as [|? ? Hp0 Hpos']; subst. rewrite vol_of_cons in *.
  pose proof (vol_of_nonneg id q Hpos'). pose proof (entries_pos p Hp0).
  wp_step. wp_step. wp_step. wp_step. unfold aread at 1. rewrite En. wp_step.
  destruct (Z.eqb_spec n 0) as [->|Hn0].
  - apply wp_ret. destruct (none_of id (p :: q) Hpos) as [E1 E2]; [rewrite vol_of_cons; lia|].
    rewrite E1, E2 in HQ. assert ((if is_of id p then entries p else 0) + vol_of id q = 0) as Em by (destruct (is_of id p); lia).
    rewrite Em in HQ.
    change (set_qosValue b <$> []) with (@nil A) in HQ. by rewrite (moved_0 _ _ _ _ _ 0) in HQ.
  - change (qp_requestorId p =? id) with (is_of id p). revert Hn Hz64 Hx Hy64 HQ. unfold others, mine. cbn [List.filter].
    destruct (is_of id p) eqn:Ep; cbn [negb]; intros Hn Hz64 Hx Hy64 HQ.
    + wp_step. wp_step. unfold divCeil. apply rp_udiv; [lia|]. change ((qp_size p + es - 1) / es) with (entries p).
      wp_step. unfold on_ctl. wp_step.
      eapply (move_entries_wp k p id (entries p) a b (ctl s) x y n z); [done..|lia|lia|lia|lia|lia|lia|done|done|done|done|].
      wp_step. eapply get_queue_wp; [exact Hv|exact Hqt|]. wp_step.
      eapply (set_queue_wp k b v qt (fun q => q ++ [set_qosValue b p])); [exact Hv|exact Hqt|].
      change (wp (escalate_loop k es id a b q) (moved k id (entries p) a b [set_qosValue b p] s) Q).
      apply (IH _ (append b [set_qosValue b p] v) (qt ++ [set_qosValue b p]) (n - entries p) (x - entries p)
               (y + entries p) (z + entries p)); try done; try lia.
      * cbn. rewrite prios_shift. by apply shift_curr.
      * cbn. rewrite prios_shift. by apply shift_tgt.
      * cbn. rewrite sizes_shift. by apply shift_curr.
      * cbn. rewrite sizes_shift. by apply shift_tgt.
      * cbn. by rewrite zlookup_alter, Hv.
      * unfold append. by rewrite zlookup_alter, Hqt.
      * by rewrite moved_moved.
    + wp_step. eapply (IH s v qt n x y z); try done; lia.
Qed.

(** ** The state of the controller and its queues *)

Definition at_prio (v : list (list A)) (j : Z) : list A := default [] (v !! j).

(** Each queue holds the packets of its direction and priority; the counters are the
    entries of these packets. *)
Definition queues_ok (k : Z) (c : t) (v : list (list A)) : Prop :=
  zlen v = numPriorities c /\
  forall (j : Z) q, v !! j = Some q ->
    Forall (fun p => dir_ok k p /\ qp_qosValue p = j /\ qp_requestorId p ∈ requestors c) q.
Definition counts (id : Z) (rq wq : list (list A)) : list Z :=
  zip_with (fun q r => vol_of id q + vol_of id r) rq wq.

Record consistent (c : t) (rq wq : list (list A)) : Prop := {
  co_reads : queues_ok 0 c rq;
  co_writes : queues_ok 1 c wq;
  co_rsizes : readQueueSizes c = vol <$> rq;
  co_wsizes : writeQueueSizes c = vol <$> wq;
  co_prio id : id ∈ requestors c -> packetPriorities c !! id = Some (counts id rq wq);
  co_unknown id : id ∉ requestors c -> packetPriorities c !! id = None;
  co_rtotal : totalReadQueueSize c = lsum vol rq;
  co_wtotal : totalWriteQueueSize c = lsum vol wq;
  co_bound : lsum vol rq + lsum vol wq < 2 ^ 64
}.

Lemma queues_dir k c v (j : Z) q : queues_ok k c v -> v !! j = Some q -> Forall (dir_ok k) q.
Proof using. intros [_ H] Hq. eapply Forall_impl; [|exact (H j q Hq)]. by intros p (? & _). Qed.
Lemma queues_vol k c v (j : Z) q : queues_ok k c v -> v !! j = Some q -> 0 <= vol q /\ vol q <= lsum vol v.
Proof using Hes.
  intros H Hq. assert (forall (i : Z) r, v !! i = Some r -> 0 <= vol r) as Hpos.
  { intros i r Hr. by apply vol_nonneg, (dir_size k), (queues_dir k c v i). }
  split; [by eapply Hpos|]. by eapply lsum_elem.
Qed.
Lemma vol_split id q : vol q = vol_of id q + vol (others id q).
Proof using.
  unfold vol_of, vol, others. induction q as [|p q IH]; [done|]. cbn. destruct (is_of id p); cbn [negb lsum] in *; lia.
Qed.
Lemma vol_of_le id q : Forall (fun p => 0 < qp_size p) q -> vol_of id q <= vol q.
Proof using Hes. intros H. rewrite (vol_split id q). pose proof (vol_nonneg (others id q) (Forall_filter _ _ H)). lia. Qed.

Lemma zlookup_zip_with {B C D} (f : B -> C -> D) l k (i : Z) x y :
  l !! i = Some x -> k !! i = Some y -> zip_with f l k !! i = Some (f x y).
Proof using.
  unfold lookup, zlist_lookup. destruct (i <? 0); [done|]. intros Hx Hy.
  apply lookup_zip_with_Some. by exists x, y.
Qed.

(** The queue that is left, and the one that is joined. *)
Lemma send_eq id a b v qa : 0 <= a -> 0 <= b -> a <> b -> v !! a = Some qa ->
  send id a b v = alter (fun _ => others id qa) (Z.to_nat a) (append b (set_qosValue b <$> mine id qa) v).
Proof using.
  intros Ha Hb Hab Hq. unfold send, append. rewrite Hq. cbn [default]. apply list_eq. intros i.
  unfold lookup at 1, zlist_lookup in Hq. destruct (Z.ltb_spec a 0); [lia|].
  rewrite !list_lookup_alter.
  destruct (decide (Z.to_nat b = i)), (decide (Z.to_nat a = i)), (decide (Z.to_nat a = Z.to_nat b)),
    (decide (Z.to_nat b = Z.to_nat a)); try lia; try congruence; cbn; by rewrite ?Hq.
Qed.

Lemma escalateQueues_wp k id a b (s : qq A) v qa qb n x y z (Q : unit -> qq A -> Prop) :
  0 <= k -> 0 <= a -> 0 <= b -> a <> b -> Forall (dir_ok k) qa -> let m := vol_of id qa in
  m <= n -> prios_of id (ctl s) !! a = Some n -> prios_of id (ctl s) !! b = Some z -> 0 <= z -> z + m < 2 ^ 64 ->
  m <= x -> sizes k (ctl s) !! a = Some x -> sizes k (ctl s) !! b = Some y -> 0 <= y -> y + m < 2 ^ 64 ->
  queues s !! k = Some v -> v !! a = Some qa -> v !! b = Some qb ->
  Q tt (s <| ctl ::= shift_ctl k id m a b |> <| queues ::= alter (fun _ => send id a b v) (Z.to_nat k) |>) ->
  wp (escalateQueues es id a b k) s Q.
Proof using Hes.
  intros Hk Ha Hb Hab Hdir m Hn En Ez Hz Hz64 Hx Ex Ey Hy Hy64 Hv Hqa Hqb HQ. unfold escalateQueues.
  wp_step. eapply get_queue_wp; [exact Hv|exact Hqa|]. wp_step.
  eapply (escalate_loop_wp k id a b qa s v qb n x y z); try done.
  eapply (set_queue_wp k a (append b (set_qosValue b <$> mine id qa) v) qa (fun _ => others id qa)).
  - cbn. by rewrite zlookup_alter, Hv.
  - unfold append. by rewrite zlookup_alter_ne.
  - rewrite (send_eq id a b v qa) in HQ by done. unfold moved, over in *. destruct s as [c qs]. cbn in *.
    rewrite alter_alter. erewrite list_alter_ext; [exact HQ| |done].
    intros w Hw. unfold lookup, zlist_lookup in Hv. destruct (Z.ltb_spec k 0); [lia|]. rewrite Hw in Hv. by simplify_eq.
Qed.

(** ** What a pass over both queues does *)

Lemma send_lookup id a b v qa (i : nat) : 0 <= a -> 0 <= b -> a <> b -> v !! a = Some qa ->
  send id a b v !! i = (fun q => if decide (Z.to_nat b = i) then q ++ (set_qosValue b <$> mine id qa)
                                 else if decide (Z.to_nat a = i) then others id q else q) <$> v !! i.
Proof using.
  intros Ha Hb Hab Hq. unfold send. rewrite Hq, !list_lookup_alter.
  destruct (decide (Z.to_nat b = i)) as [Eb|Eb], (decide (Z.to_nat a = i)) as [Ea|Ea],
    (decide (Z.to_nat a = Z.to_nat b)) as [Eab|Eab]; try lia; rewrite ?Eb, ?Ea; by destruct (v !! i).
Qed.
Lemma send_zlookup id a b v qa (j : Z) : 0 <= a -> 0 <= b -> a <> b -> v !! a = Some qa ->
  send id a b v !! j = (fun q => if decide (b = j) then q ++ (set_qosValue b <$> mine id qa)
                                 else if decide (a = j) then others id q else q) <$> v !! j.
Proof using.
  intros Ha Hb Hab Hq. unfold lookup at 1 2, zlist_lookup. destruct (Z.ltb_spec j 0); [done|].
  rewrite (send_lookup id a b v qa) by done. destruct (v !! Z.to_nat j); [|done]. cbn. f_equal.
  repeat case_decide; try lia; done.
Qed.
Lemma zlen_send id a b v : zlen (send id a b v) = zlen v.
Proof using. unfold send. by rewrite !zlen_alter. Qed.

Lemma entries_set v p : entries (set_qosValue v p) = entries p.
Proof using QueuedPacketLaws0. unfold entries. by rewrite set_size. Qed.
Lemma is_of_set id v p : is_of id (set_qosValue v p) = is_of id p.
Proof using QueuedPacketLaws0. unfold is_of. by rewrite set_requestorId. Qed.
Lemma vol_app q r : vol (q ++ r) = vol q + vol r.
Proof using. apply lsum_app. Qed.
Lemma vol_of_app id q r : vol_of id (q ++ r) = vol_of id q + vol_of id r.
Proof using. unfold vol_of. by rewrite List.filter_app, vol_app. Qed.
Lemma vol_set v q : vol (set_qosValue v <$> q) = vol q.
Proof using QueuedPacketLaws0.
  unfold vol. induction q as [|p q IH]; [done|].
  change (entries (set_qosValue v p) + lsum entries (set_qosValue v <$> q) = entries p + lsum entries q).
  by rewrite entries_set, IH.
Qed.
Lemma vol_of_set_mine id' id v q : vol_of id' (set_qosValue v <$> mine id q) = if decide (id' = id) then vol_of id q else 0.
Proof using QueuedPacketLaws0.
  unfold mine. induction q as [|p q IH]; [by case_decide|]. rewrite vol_of_cons. cbn [List.filter].
  destruct (is_of id p) eqn:Ep; [|rewrite IH; case_decide; lia]. rewrite fmap_cons, vol_of_cons, is_of_set, entries_set, IH.
  unfold is_of in *. apply Z.eqb_eq in Ep. rewrite Ep. destruct (decide (id' = id)) as [->|Hne].
  - by rewrite Z.eqb_refl.
  - destruct (Z.eqb_spec id id'); [congruence|lia].
Qed.
Lemma vol_of_others id' id q : vol_of id' (others id q) = if decide (id' = id) then 0 else vol_of id' q.
Proof using.
  unfold others. induction q as [|p q IH]; [by case_decide|]. rewrite vol_of_cons. cbn [List.filter].
  destruct (is_of id p) eqn:Ep; cbn [negb]; rewrite ?vol_of_cons, IH; unfold is_of in *.
  - apply Z.eqb_eq in Ep. rewrite Ep. destruct (decide (id' = id)); [done|]. destruct (Z.eqb_spec id id'); [congruence|lia].
  - destruct (decide (id' = id)) as [->|Hne]; [|done]. by rewrite Ep.
Qed.
Lemma vol_others id q : vol (others id q) = vol q - vol_of id q.
Proof using. rewrite (vol_split id q). lia. Qed.

(** A weight that does not depend on the priority. *)
Lemma lsum_filter_split (f : A -> Z) id q : lsum f q = lsum f (mine id q) + lsum f (others id q).
Proof using.
  unfold mine, others. induction q as [|p q IH]; [done|]. cbn. destruct (is_of id p); cbn [negb lsum] in *; lia.
Qed.
Lemma lsum_set (f : A -> Z) v q : (forall p, f (set_qosValue v p) = f p) -> lsum f (set_qosValue v <$> q) = lsum f q.
Proof using.
  intros Hf. induction q as [|p q IH]; [done|].
  change (f (set_qosValue v p) + lsum f (set_qosValue v <$> q) = f p + lsum f q). by rewrite Hf, IH.
Qed.
Lemma weight_send (f : A -> Z) id a b v qa : (forall p, f (set_qosValue b p) = f p) ->
  0 <= a -> 0 <= b -> a <> b -> v !! a = Some qa ->
  lsum f <$> send id a b v = shift (lsum f (mine id qa)) a b (lsum f <$> v).
Proof using.
  intros Hf Ha Hb Hab Hq. apply list_eq. intros i. rewrite list_lookup_fmap, (send_lookup id a b v qa) by done.
  rewrite shift_lookup, list_lookup_fmap. destruct (v !! i) as [q|] eqn:Ei; [|done]. cbn. f_equal.
  destruct (decide (Z.to_nat b = i)), (decide (Z.to_nat a = i)) as [Ea|]; try lia.
  - rewrite lsum_app, lsum_set by done. lia.
  - pose proof (lsum_filter_split f id q). unfold lookup, zlist_lookup in Hq. destruct (Z.ltb_spec a 0); [lia|].
    rewrite Ea, Ei in Hq. simplify_eq. lia.
Qed.
Lemma vol_send id a b v qa : 0 <= a -> 0 <= b -> a <> b -> v !! a = Some qa ->
  vol <$> send id a b v = shift (vol_of id qa) a b (vol <$> v).
Proof using QueuedPacketLaws0. intros. apply weight_send; try done. intros p. apply entries_set. Qed.
#[local] Arguments vol : simpl never.
#[local] Arguments vol_of : simpl never.
#[local] Arguments others : simpl never.
#[local] Arguments mine : simpl never.
Lemma counts_send id id' a b rq wq qa wa : 0 <= a -> 0 <= b -> a <> b -> rq !! a = Some qa -> wq !! a = Some wa ->
  counts id' (send id a b rq) (send id a b wq) =
  if decide (id' = id) then shift (vol_of id qa + vol_of id wa) a b (counts id' rq wq) else counts id' rq wq.
Proof using QueuedPacketLaws0.
  intros Ha Hb Hab Hq Hw.
  assert (forall i, counts id' (send id a b rq) (send id a b wq) !! i =
    (fun x => if decide (id' = id) then x + (if decide (Z.to_nat b = i) then vol_of id qa + vol_of id wa else 0)
       - (if decide (Z.to_nat a = i) then vol_of id qa + vol_of id wa else 0) else x) <$> counts id' rq wq !! i) as H.
  { intros i. unfold counts. rewrite !lookup_zip_with, (send_lookup id a b rq qa), (send_lookup id a b wq wa) by done.
    destruct (rq !! i) as [q|] eqn:Er; [|done]. cbn. destruct (wq !! i) as [r|] eqn:Ew; [|done]. cbn. f_equal.
    destruct (decide (Z.to_nat b = i)), (decide (Z.to_nat a = i)) as [Ea|]; try lia.
    - rewrite !vol_of_app, !vol_of_set_mine. case_decide; lia.
    - rewrite !vol_of_others. unfold lookup, zlist_lookup in Hq, Hw. destruct (Z.ltb_spec a 0); [lia|].
      rewrite Ea in Hq, Hw. rewrite Er in Hq. rewrite Ew in Hw. simplify_eq. case_decide; subst; lia.
    - case_decide; lia. }
  apply list_eq. intros i. rewrite H. destruct (decide (id' = id)); [|by destruct (_ !! i)].
  by rewrite shift_lookup.
Qed.

Lemma lsum_alter (g : Z -> Z) (l : list Z) (n : nat) x : l !! n = Some x ->
  lsum (fun y => y) (alter g n l) = lsum (fun y => y) l - x + g x.
Proof using.
  intros Hx. assert (alter g n l = <[n := g x]> l) as ->.
  { apply list_eq. intros i. rewrite list_lookup_alter. destruct (decide (n = i)) as [<-|].
    - rewrite Hx, list_lookup_insert_eq; [done|by eapply lookup_lt_Some].
    - by rewrite list_lookup_insert_ne. }
  by apply (lsum_insert_nat (fun y => y)).
Qed.
Lemma lsum_shift m a b l x y : 0 <= a -> 0 <= b -> a <> b -> l !! a = Some x -> l !! b = Some y ->
  lsum (fun z => z) (shift m a b l) = lsum (fun z => z) l.
Proof using.
  unfold lookup, zlist_lookup. intros Ha Hb Hab Hx Hy. destruct (Z.ltb_spec a 0), (Z.ltb_spec b 0); try lia.
  unfold shift. rewrite (lsum_alter _ _ _ y) by (rewrite list_lookup_alter_ne by lia; done).
  rewrite (lsum_alter _ _ _ x) by done. lia.
Qed.
Lemma lsum_fmap {B} (f : B -> Z) (l : list B) : lsum (fun z => z) (f <$> l) = lsum f l.
Proof using. induction l as [|x l IH]; [done|]. cbn. by rewrite IH. Qed.
Lemma lsum_weight_send (f : A -> Z) id a b v qa qb : (forall p, f (set_qosValue b p) = f p) ->
  0 <= a -> 0 <= b -> a <> b -> v !! a = Some qa -> v !! b = Some qb ->
  lsum (lsum f) (send id a b v) = lsum (lsum f) v.
Proof using.
  intros Hf Ha Hb Hab Hqa Hqb.
  rewrite <- (lsum_fmap (lsum f) (send id a b v)), <- (lsum_fmap (lsum f) v), (weight_send f id a b v qa) by done.
  apply (lsum_shift _ a b _ (lsum f qa) (lsum f qb)); try done; by rewrite zlookup_fmap, ?Hqa, ?Hqb.
Qed.
Lemma lsum_send id a b v qa qb : 0 <= a -> 0 <= b -> a <> b -> v !! a = Some qa -> v !! b = Some qb ->
  lsum vol (send id a b v) = lsum vol v.
Proof using QueuedPacketLaws0. intros. eapply lsum_weight_send; try done. intros p. apply entries_set. Qed.

Lemma dir_ok_set k v p : dir_ok k p -> dir_ok k (set_qosValue v p).
Proof using QueuedPacketLaws0. intros (? & ? & ?). unfold dir_ok. by rewrite set_size, set_isRead, set_isWrite. Qed.
Lemma queues_ok_send k c c' id a b v qa : same_ctl c c' -> 0 <= a -> 0 <= b -> a <> b -> v !! a = Some qa ->
  queues_ok k c v -> queues_ok k c' (send id a b v).
Proof using QueuedPacketLaws0.
  intros (? & ? & ? & ->) Ha Hb Hab Hqa [Hlen H]. split; [by rewrite zlen_send|]. intros j q'.
  rewrite (send_zlookup id a b v qa) by done. intros (q & Hq & ->)%fmap_Some. cbn. specialize (H j q Hq) as Hf.
  destruct (decide (b = j)) as [<-|]; [|destruct (decide (a = j))]; [|by apply Forall_filter|done].
  apply Forall_app. split; [done|]. apply Forall_fmap. eapply Forall_impl; [|apply Forall_filter, (H a qa Hqa)].
  intros p (Hd & _ & Hin). cbn. rewrite set_qos, set_requestorId. split; [by apply dir_ok_set|done].
Qed.

Lemma same_shift k id m a b c : same_ctl c (shift_ctl k id m a b c).
Proof using.
  set (c' := shift_ctl k id m a b c). exists (packetPriorities c'), (readQueueSizes c'), (writeQueueSizes c').
  subst c'. unfold shift_ctl, shift_prio, shift_sizes. by destruct c, (k =? 0).
Qed.
Lemma same_refl c : same_ctl c c.
Proof using. exists (packetPriorities c), (readQueueSizes c), (writeQueueSizes c). by destruct c. Qed.
Lemma same_trans c c' c'' : same_ctl c c' -> same_ctl c' c'' -> same_ctl c c''.
Proof using. intros (?&?&?&->) (pp&rs&ws&->). exists pp, rs, ws. reflexivity. Qed.
Lemma same_fields c c' : same_ctl c c' -> requestors c' = requestors c /\ numPriorities c' = numPriorities c /\
  totalReadQueueSize c' = totalReadQueueSize c /\ totalWriteQueueSize c' = totalWriteQueueSize c /\
  requestTimes c' = requestTimes c.
Proof using. intros (?&?&?&->). split_and!; reflexivity. Qed.
Lemma prio_other k id id' m a b c : id' <> id -> packetPriorities (shift_ctl k id m a b c) !! id' = packetPriorities c !! id'.
Proof using.
  intros Hne. unfold shift_ctl, shift_prio, shift_sizes. destruct (k =? 0); cbn; by rewrite lookup_insert_ne by done.
Qed.
Lemma prio_same k id m a b c : packetPriorities (shift_ctl k id m a b c) !! id = Some (shift m a b (prios_of id c)).
Proof using. unfold shift_ctl, shift_prio, shift_sizes, prios_of. destruct (k =? 0); cbn; by rewrite lookup_insert_eq. Qed.

(** Both queues of a priority are swept. *)
Definition swept_ctl (id a b : Z) (qa wa : list A) (c : t) : t :=
  shift_ctl 1 id (vol_of id wa) a b (shift_ctl 0 id (vol_of id qa) a b c).

Lemma consistent_send c rq wq id a b qa wa : consistent c rq wq -> id ∈ requestors c ->
  0 <= a -> 0 <= b < numPriorities c -> a <> b -> rq !! a = Some qa -> wq !! a = Some wa ->
  consistent (swept_ctl id a b qa wa c) (send id a b rq) (send id a b wq) /\ same_ctl c (swept_ctl id a b qa wa c).
Proof using QueuedPacketLaws0.
  intros Hc Hid Ha Hb Hab Hqa Hwa. assert (same_ctl c (swept_ctl id a b qa wa c)) as Hs
    by (eapply same_trans; apply same_shift).
  split; [|done]. pose proof (same_fields _ _ Hs) as (Er & En & Et & Ew & _). destruct Hc.
  destruct (zlookup_is_Some rq b) as [qb Hqb]; [rewrite (proj1 co_reads0); lia|].
  destruct (zlookup_is_Some wq b) as [wb Hwb]; [rewrite (proj1 co_writes0); lia|].
  split.
  - by eapply queues_ok_send; [exact Hs|lia..| |].
  - by eapply queues_ok_send; [exact Hs|lia..| |].
  - rewrite (vol_send id a b rq qa), <- co_rsizes0 by (done || lia). done.
  - rewrite (vol_send id a b wq wa), <- co_wsizes0 by (done || lia). done.
  - rewrite Er. intros id' Hid'. unfold swept_ctl. rewrite (counts_send id id' a b rq wq qa wa) by (done || lia).
    destruct (decide (id' = id)) as [->|Hne].
    + rewrite prio_same, prios_shift, shift_shift. unfold prios_of. rewrite (co_prio0 id Hid). cbn. do 2 f_equal. lia.
    + by rewrite !prio_other, co_prio0.
  - rewrite Er. intros id' Hid'. unfold swept_ctl. rewrite !prio_other by congruence. by apply co_unknown0.
  - rewrite Et, (lsum_send id a b rq qa qb) by (done || lia). done.
  - rewrite Ew, (lsum_send id a b wq wa wb) by (done || lia). done.
  - rewrite (lsum_send id a b rq qa qb), (lsum_send id a b wq wa wb) by (done || lia). done.
Qed.

(** Room at the target for what is sent there. *)
Lemma send_room k c id a b v qa qb : 0 <= a -> 0 <= b -> a <> b -> v !! a = Some qa -> v !! b = Some qb ->
  queues_ok k c v -> 0 <= vol_of id qa /\ vol_of id qb <= vol qb /\ 0 <= vol_of id qb /\ 0 <= vol qb /\
    vol qb + vol_of id qa <= lsum vol v /\ vol_of id qa <= vol qa.
Proof using QueuedPacketLaws0 Hes.
  intros Ha Hb Hab Hqa Hqb Hv.
  assert (queues_ok k c (send id a b v)) as Hv' by (eapply queues_ok_send; try done; apply same_refl).
  assert (send id a b v !! b = Some (qb ++ (set_qosValue b <$> mine id qa))) as Hb'.
  { rewrite (send_zlookup id a b v qa), Hqb by done. cbn. by destruct (decide (b = b)). }
  pose proof (queues_vol _ _ _ _ _ Hv' Hb') as [_ Hle].
  rewrite vol_app, vol_set, (lsum_send id a b v qa qb) in Hle by done. change (vol (mine id qa)) with (vol_of id qa) in Hle.
  pose proof (dir_size _ _ (queues_dir _ _ _ _ _ Hv Hqa)). pose proof (dir_size _ _ (queues_dir _ _ _ _ _ Hv Hqb)).
  pose proof (vol_of_nonneg id qa ltac:(done)). pose proof (vol_of_le id qb ltac:(done)).
  pose proof (vol_of_nonneg id qb ltac:(done)). pose proof (vol_of_le id qa ltac:(done)).
  pose proof (vol_nonneg qb ltac:(done)). split_and!; lia.
Qed.

Lemma sizes_other id m a b c : sizes 1 (shift_ctl 0 id m a b c) = sizes 1 c.
Proof using. reflexivity. Qed.

Lemma pass_wp c rq wq id a b qa wa (Q : unit -> qq A -> Prop) : consistent c rq wq -> id ∈ requestors c ->
  0 <= a -> 0 <= b < numPriorities c -> a <> b -> rq !! a = Some qa -> wq !! a = Some wa ->
  Q tt (mkQQ (swept_ctl id a b qa wa c) [send id a b rq; send id a b wq]) ->
  wp (for_ 2 0 (escalateQueues es id a b)) (mkQQ c [rq; wq]) Q.
Proof using QueuedPacketLaws0 Hes.
  intros Hc Hid Ha Hb Hab Hqa Hwa HQ. destruct Hc.
  destruct (zlookup_is_Some rq b) as [qb Hqb]; [rewrite (proj1 co_reads0); lia|].
  destruct (zlookup_is_Some wq b) as [wb Hwb]; [rewrite (proj1 co_writes0); lia|].
  destruct (send_room 0 c id a b rq qa qb) as (R1&R2&R3&R4&R5&R6); try done; [lia|].
  destruct (send_room 1 c id a b wq wa wb) as (W1&W2&W3&W4&W5&W6); try done; [lia|].
  assert (prios_of id c = counts id rq wq) as Ep by (unfold prios_of; by rewrite co_prio0).
  assert (counts id rq wq !! a = Some (vol_of id qa + vol_of id wa)) as Ea by (by apply (zlookup_zip_with (fun q r => vol_of id q + vol_of id r))).
  assert (counts id rq wq !! b = Some (vol_of id qb + vol_of id wb)) as Eb by (by apply (zlookup_zip_with (fun q r => vol_of id q + vol_of id r))).
  cbn [for_]. wp_step.
  eapply (escalateQueues_wp 0 id a b _ rq qa qb (vol_of id qa + vol_of id wa) (vol qa) (vol qb) (vol_of id qb + vol_of id wb));
    try done; try lia; try (cbn; rewrite Ep; done).
  { by eapply queues_dir. }
  { cbn. unfold sizes. cbn. by rewrite co_rsizes0, zlookup_fmap, Hqa. }
  { cbn. unfold sizes. cbn. by rewrite co_rsizes0, zlookup_fmap, Hqb. }
  wp_step.
  eapply (escalateQueues_wp 1 id a b _ wq wa wb (vol_of id qa + vol_of id wa - vol_of id qa) (vol wa) (vol wb) (vol_of id qb + vol_of id wb + vol_of id qa));
    try done; try lia; unfold over; cbn.
  { by eapply queues_dir. }
  { rewrite prios_shift, Ep. apply shift_curr; done || lia. }
  { rewrite prios_shift, Ep. apply shift_tgt; done || lia. }
  { change (writeQueueSizes c !! a = Some (vol wa)). by rewrite co_wsizes0, zlookup_fmap, Hwa. }
  { change (writeQueueSizes c !! b = Some (vol wb)). by rewrite co_wsizes0, zlookup_fmap, Hwb. }
Qed.

(** ** One priority, and all of them *)

Lemma send_none k c id a b v qa : 0 <= a -> 0 <= b -> a <> b -> v !! a = Some qa -> queues_ok k c v ->
  vol_of id qa <= 0 -> send id a b v = v.
Proof using Hes.
  intros Ha Hb Hab Hqa Hv H0. pose proof (dir_size _ _ (queues_dir _ _ _ _ _ Hv Hqa)) as Hpos.
  destruct (none_of id qa Hpos H0) as [E1 E2]. apply list_eq. intros i. rewrite (send_lookup id a b v qa) by done.
  unfold lookup at 1, zlist_lookup in Hqa. destruct (Z.ltb_spec a 0); [lia|].
  destruct (v !! i) as [q|] eqn:Ei; [|done]. cbn. rewrite E1. change (set_qosValue b <$> []) with (@nil A). f_equal.
  destruct (decide (Z.to_nat b = i)); [apply app_nil_r|]. case_decide; [|done]. subst i. rewrite Ei in Hqa. by simplify_eq.
Qed.

Lemma prio_count c rq wq id a qa wa : consistent c rq wq -> id ∈ requestors c -> rq !! a = Some qa -> wq !! a = Some wa ->
  aread (prios_of id c) a = Ok (vol_of id qa + vol_of id wa).
Proof using.
  intros Hc Hid Hqa Hwa. unfold aread, prios_of. rewrite (co_prio _ _ _ Hc) by done. cbn. unfold counts.
  by rewrite (zlookup_zip_with (fun q r => vol_of id q + vol_of id r) rq wq a qa wa).
Qed.

Definition reaches (c : t) (rq wq : list (list A)) (s : qq A) : Prop :=
  exists c', s = mkQQ c' [rq; wq] /\ consistent c' rq wq /\ same_ctl c c'.

Lemma escalate_prio_wp f c rq wq id a b : consistent c rq wq -> id ∈ requestors c ->
  0 <= a < numPriorities c -> 0 <= b < numPriorities c -> a <> b ->
  wp (escalate_prio (S f) es id b a) (mkQQ c [rq; wq]) (fun _ => reaches c (send id a b rq) (send id a b wq)).
Proof using QueuedPacketLaws0 Hes.
  intros Hc Hid Ha Hb Hab.
  destruct (zlookup_is_Some rq a) as [qa Hqa]; [rewrite (proj1 (co_reads _ _ _ Hc)); lia|].
  destruct (zlookup_is_Some wq a) as [wa Hwa]; [rewrite (proj1 (co_writes _ _ _ Hc)); lia|].
  pose proof (vol_of_nonneg id qa (dir_size _ _ (queues_dir _ _ _ _ _ (co_reads _ _ _ Hc) Hqa))) as Hq0.
  pose proof (vol_of_nonneg id wa (dir_size _ _ (queues_dir _ _ _ _ _ (co_writes _ _ _ Hc) Hwa))) as Hw0.
  cbn [escalate_prio]. wp_step. wp_step. wp_step. wp_step. cbn [ctl]. rewrite (prio_count c rq wq id a qa wa) by done. wp_step.
  destruct (Z.eqb_spec (vol_of id qa + vol_of id wa) 0) as [E|E].
  - apply wp_ret. exists c. rewrite (send_none 0 c id a b rq qa), (send_none 1 c id a b wq wa) by
      (first [apply (co_reads _ _ _ Hc) | apply (co_writes _ _ _ Hc) | done | lia]).
    split; [done|]. split; [exact Hc|apply same_refl].
  - destruct (consistent_send c rq wq id a b qa wa) as [Hc' Hs]; try done; [lia|].
    wp_step. eapply (pass_wp c rq wq id a b qa wa); try done; [lia|].
    assert (exists qa' wa', send id a b rq !! a = Some qa' /\ send id a b wq !! a = Some wa' /\
      vol_of id qa' + vol_of id wa' = 0) as (qa' & wa' & Hqa' & Hwa' & E0).
    { rewrite (send_zlookup id a b rq qa), (send_zlookup id a b wq wa), Hqa, Hwa by (done || lia). cbn.
      destruct (decide (b = a)); [lia|]. destruct (decide (a = a)); [|done]. eexists _, _. split; [done|]. split; [done|].
      rewrite !vol_of_others. by destruct (decide (id = id)). }
    assert (aread (prios_of id (swept_ctl id a b qa wa c)) a = Ok 0) as Er.
    { rewrite (prio_count _ _ _ id a qa' wa' Hc'), E0 by (rewrite ?(proj1 Hs); done). done. }
    destruct f; cbn [escalate_prio]; wp_step; wp_step; wp_step; wp_step; cbn [ctl]; rewrite Er; wp_step; apply wp_ret;
      by exists (swept_ctl id a b qa wa c).
Qed.

Fixpoint gather (n : nat) (id b : Z) (v : list (list A)) : list (list A) :=
  match n with
  | O => v
  | S n' => if Z.of_nat n' =? b then gather n' id b v else send id (Z.of_nat n') b (gather n' id b v)
  end.
(** The packets of [id], from the lower priorities to the higher. *)
Fixpoint collect (n : nat) (id b : Z) (v : list (list A)) : list A :=
  match n with
  | O => []
  | S n' => collect n' id b v ++ (if Z.of_nat n' =? b then [] else mine id (at_prio v (Z.of_nat n')))
  end.
Definition escalated (id b : Z) (v : list (list A)) : list (list A) :=
  imap (fun j q => if Z.of_nat j =? b then q ++ (set_qosValue b <$> collect (length v) id b v) else others id q) v.

Lemma gather_lookup n id b v : (n <= length v)%nat -> 0 <= b -> forall j : Z,
  gather n id b v !! j = (fun q => if decide (b = j) then q ++ (set_qosValue b <$> collect n id b v)
                                   else if decide (j < Z.of_nat n) then others id q else q) <$> v !! j.
Proof using.
  intros Hn Hb. induction n as [|n IH]; intros j; cbn [gather collect].
  - destruct (v !! j) as [q|] eqn:Ej; [|done]. pose proof (zlookup_lt _ _ _ Ej). cbn. f_equal.
    repeat case_decide; try lia; by rewrite ?app_nil_r.
  - specialize (IH ltac:(lia)).
    destruct (zlookup_is_Some v (Z.of_nat n)) as [qn Hqn]; [unfold zlen; lia|].
    destruct (Z.eqb_spec (Z.of_nat n) b) as [E|E].
    + rewrite IH, app_nil_r. destruct (v !! j) as [q|] eqn:Ej; [|done]. cbn. f_equal.
      destruct (decide (b = j)); [done|]. repeat case_decide; try lia; done.
    + assert (gather n id b v !! Z.of_nat n = Some qn) as Hgn.
      { rewrite IH, Hqn. cbn. f_equal. repeat case_decide; try lia; done. }
      rewrite (send_zlookup id (Z.of_nat n) b _ qn), IH by (done || lia). unfold at_prio. rewrite Hqn. cbn [default].
      destruct (v !! j) as [q|] eqn:Ej; [|done]. cbn. f_equal.
      destruct (decide (b = j)) as [->|Hbj]; [by rewrite fmap_app, app_assoc|].
      repeat case_decide; try lia; done.
Qed.
Lemma gather_all id b v : 0 <= b -> gather (length v) id b v = escalated id b v.
Proof using.
  intros Hb. apply list_eq. intros i. rewrite <- zlookup_nat, gather_lookup by done. rewrite zlookup_nat.
  unfold escalated. rewrite list_lookup_imap. destruct (v !! i) as [q|] eqn:Ei; [|done]. cbn. f_equal.
  apply lookup_lt_Some in Ei. destruct (Z.eqb_spec (Z.of_nat i) b), (decide (b = Z.of_nat i)); try lia; [done|].
  by destruct (decide (Z.of_nat i < Z.of_nat (length v))); [|lia].
Qed.

(** A requestor that is new has no packets anywhere. *)
Lemma vol_of_stranger id k c v (j : Z) q : queues_ok k c v -> id ∉ requestors c -> v !! j = Some q -> vol_of id q = 0.
Proof using.
  intros [_ H] Hid Hq. specialize (H j q Hq). clear Hq. induction H as [|p q (_ & _ & Hp) _ IH]; [done|].
  rewrite vol_of_cons, IH. unfold is_of. destruct (Z.eqb_spec (qp_requestorId p) id); [congruence|done].
Qed.

(** The controller, with the requestor known. *)
Definition joined (c c' : t) : Prop := exists ids, requestors c ⊆ ids /\ same_ctl (c <| requestors := ids |>) c'.
Lemma addRequestor_wp c rq wq id (Q : unit -> t -> Prop) : consistent c rq wq ->
  (forall c', consistent c' rq wq -> id ∈ requestors c' -> joined c c' -> Q tt c') ->
  wp (addRequestor id) c Q.
Proof using QueuedPacketLaws0 Hes.
  intros Hc HQ. unfold addRequestor. wp_step. wp_step. apply wp_when; unfold hasRequestor; intros Hid.
  - apply wp_modify, HQ; [|cbn; set_solver|].
    2: { exists (requestors c ++ [id]). split; [set_solver|]. 
         exists (<[id := resize (numPriorities c) (prios_of id c)]> (packetPriorities c)), (readQueueSizes c),
           (writeQueueSizes c). by destruct c. }
    apply negb_true_iff, bool_decide_eq_false in Hid. destruct Hc.
    assert (Hmono : forall k v, queues_ok k c v -> queues_ok k (c <| requestors ::= fun l => l ++ [id] |>
      <| packetPriorities ::= <[id := resize (numPriorities c) (prios_of id c)]> |>) v).
    { intros k v [Hl H]. split; [done|]. intros j q Hq. eapply Forall_impl; [|exact (H j q Hq)].
      intros p (? & ? & ?). split; [done|]. split; [done|]. cbn. set_solver. }
    split; try done; try (by apply Hmono); cbn.
    + intros id' Hin. destruct (decide (id' = id)) as [->|Hne].
      * rewrite lookup_insert_eq. unfold prios_of. rewrite co_unknown0 by done. cbn. rewrite resize_fresh. f_equal.
        pose proof (proj1 co_reads0) as L1. pose proof (proj1 co_writes0) as L2. unfold zlen in *.
        apply list_eq. intros i. unfold counts, calloc. rewrite lookup_zip_with. destruct (rq !! i) as [q|] eqn:Eq.
        -- pose proof (lookup_lt_Some _ _ _ Eq). destruct (lookup_lt_is_Some_2 wq i) as [r Er]; [lia|].
           rewrite Er, lookup_replicate_2 by lia. cbn. f_equal.
           rewrite (vol_of_stranger id 0 c rq (Z.of_nat i) q), (vol_of_stranger id 1 c wq (Z.of_nat i) r);
             rewrite ?zlookup_nat; done.
        -- apply lookup_ge_None in Eq. cbn. apply lookup_ge_None_2. rewrite length_replicate. lia.
      * rewrite lookup_insert_ne by done. apply co_prio0. set_solver.
    + intros id' Hin. rewrite lookup_insert_ne by set_solver. apply co_unknown0. set_solver.
  - apply negb_false_iff, bool_decide_eq_true in Hid. apply HQ; [done..|].
    exists (requestors c). split; [done|]. replace (c <| requestors := _ |>) with c by (by destruct c). apply same_refl.
Qed.

Lemma weight_gather (f : A -> Z) n id b v : (forall p, f (set_qosValue b p) = f p) -> 0 <= b < zlen v ->
  (n <= length v)%nat -> lsum (lsum f) (gather n id b v) = lsum (lsum f) v.
Proof using.
  intros Hf Hb. induction n as [|n IH]; intros Hn; [done|]. cbn [gather]. rewrite <- IH by lia.
  destruct (Z.eqb_spec (Z.of_nat n) b) as [|Hne]; [done|].
  assert (forall j, is_Some (v !! j) -> is_Some (gather n id b v !! j)) as Hs.
  { intros j Hj. rewrite gather_lookup by lia. destruct Hj as [q ->]. by eexists. }
  destruct (Hs (Z.of_nat n)) as [qn Hqn]; [apply zlookup_is_Some; unfold zlen; lia|].
  destruct (Hs b) as [qb Hqb]; [by apply zlookup_is_Some|]. apply (lsum_weight_send f id (Z.of_nat n) b _ qn qb); try done; lia.
Qed.
Lemma weight_escalated (f : A -> Z) id b v : (forall p, f (set_qosValue b p) = f p) -> 0 <= b < zlen v ->
  lsum (lsum f) (escalated id b v) = lsum (lsum f) v.
Proof using. intros Hf Hb. rewrite <- gather_all by lia. by apply weight_gather. Qed.

Lemma escalate_wp c rq wq id b : consistent c rq wq -> 0 <= b < numPriorities c ->
  wp (escalate es id b) (mkQQ c [rq; wq]) (fun _ s' => exists c',
    s' = mkQQ c' [escalated id b rq; escalated id b wq] /\
    consistent c' (escalated id b rq) (escalated id b wq) /\ id ∈ requestors c' /\ joined c c').
Proof using QueuedPacketLaws0 Hes.
  intros Hc Hb. unfold escalate. wp_step. unfold on_ctl. wp_step. eapply addRequestor_wp; [exact Hc|].
  intros c1 Hc1 Hid (ids & Hsub & Hj). pose proof (same_fields _ _ Hj) as (Ei & En & _). cbn in Ei, En, Hsub.
  wp_step. wp_step. change (numPriorities (ctl _)) with (numPriorities c1).
  pose proof (proj1 (co_reads _ _ _ Hc1)) as Lr. pose proof (proj1 (co_writes _ _ _ Hc1)) as Lw.
  apply (wp_for (fun i => reaches c1 (gather (Z.to_nat i) id b rq) (gather (Z.to_nat i) id b wq))).
  - exists c1. split; [done|]. split; [done|apply same_refl].
  - intros i s' Hi (c' & -> & Hc' & Hs). replace (Z.to_nat (i + 1)) with (S (Z.to_nat i)) by lia.
    cbn [gather]. rewrite Z2Nat.id by lia. apply wp_when; intros Hne.
    + apply negb_true_iff, Z.eqb_neq in Hne as Hne'. rewrite (proj2 (Z.eqb_neq _ _) Hne'). wp_step. wp_step.
      pose proof (same_fields _ _ Hs) as (E1 & E2 & _). unfold passes.
      eapply wp_mono; [apply (escalate_prio_wp _ c'); try done; [by rewrite E1|lia|lia]|].
      intros _ s'' (c'' & -> & Hc'' & Hs''). exists c''. split; [done|]. split; [done|]. by eapply same_trans.
    + apply negb_false_iff in Hne. rewrite Hne. by exists c'.
  - intros s' (c' & -> & Hc' & Hs). pose proof (same_fields _ _ Hs) as (E1 & _). exists c'.
    replace (Z.to_nat (0 + Z.of_nat (Z.to_nat (numPriorities c1)))) with (length rq) in * by (unfold zlen in *; lia).
    assert (length rq = length wq) as El by (unfold zlen in *; lia).
    rewrite gather_all in * by lia. rewrite El in *. rewrite gather_all in * by lia.
    split; [done|]. split; [done|]. split; [by rewrite E1|]. exists ids. split; [done|]. by eapply same_trans.
Qed.

(** C36. The escalation of a requestor ends and trips none of its checks: every packet
    of the requestor goes to the end of the queue of the target priority, in the order
    of priorities and, within one, of arrival; no other packet moves; and the counters
    still are those of the queues. *)
Theorem escalate_moves c rq wq id b : consistent c rq wq -> 0 <= b < numPriorities c ->
  exists c', escalate es id b (mkQQ c [rq; wq]) = Ok (tt, mkQQ c' [escalated id b rq; escalated id b wq]) /\
    consistent c' (escalated id b rq) (escalated id b wq) /\
    totalReadQueueSize c' = totalReadQueueSize c /\ totalWriteQueueSize c' = totalWriteQueueSize c.
Proof using QueuedPacketLaws0 Hes.
  intros Hc Hb. destruct (wp_inv _ _ _ (escalate_wp c rq wq id b Hc Hb)) as ([] & s' & E & c' & -> & Hc' & _ & ids & _ & Hs).
  apply same_fields in Hs as (_ & _ & Er & Ew & _). by exists c'.
Qed.
End Loop.

(** Requestor 7 has two reads and a write in the low queues, requestor 8 a read. *)
Definition sample (rd : bool) (id a prio : Z) : Packet :=
  mkPacket rd (negb rd) true a 64 id prio true false false 0 0.
Definition sample_reads : list (list Packet) := [[sample true 7 0 0; sample true 8 64 0; sample true 7 128 0]; []].
Definition sample_writes : list (list Packet) := [[sample false 7 192 0]; []].
Definition sample_ctl : t := (create None None 2 true false)
  <| requestors := [7; 8] |> <| packetPriorities := {[7 := [3; 0]; 8 := [1; 0]]} |>
  <| readQueueSizes := [3; 0] |> <| writeQueueSizes := [1; 0] |>
  <| totalReadQueueSize := 3 |> <| totalWriteQueueSize := 1 |>.

Ltac known_place H :=
  lazymatch type of H with
  | _ !! _ = Some ?q => apply zlookup_cons in H as [[? ->]|[? H]]; [|known_place H]
  | _ => idtac end || (by rewrite zlookup_nil in H).
Ltac known_queue :=
  repeat first [apply Forall_nil_2|apply Forall_cons_2];
  (split; [done|]; split; [cbn; lia|]; apply (bool_decide_unpack _); exact I).
Lemma sample_consistent : consistent 64 sample_ctl sample_reads sample_writes.
Proof.
  assert (forall id, id ∈ [7; 8] -> id = 7 \/ id = 8) as Hid by (intros id Hin; set_solver).
  split; try done.
  - split; [done|]. intros j q Hq. known_place Hq; known_queue.
  - split; [done|]. intros j q Hq. known_place Hq; known_queue.
  - intros id [-> | ->]%Hid; reflexivity.
  - intros id Hn. change (({[7 := [3; 0]; 8 := [1; 0]]} : gmap Z (list Z)) !! id = None).
    rewrite lookup_insert_ne, lookup_singleton_ne; [done|..];
      intros <-; apply Hn; apply (bool_decide_unpack _); exact I.
Qed.
Lemma escalate_moves_witness : exists c',
  escalate 64 7 1 (mkQQ sample_ctl [sample_reads; sample_writes]) =
    Ok (tt, mkQQ c' [[[sample true 8 64 0]; [sample true 7 0 1; sample true 7 128 1]]; [[]; [sample false 7 192 1]]]) /\
  totalReadQueueSize c' = 3.
Proof.
  destruct (escalate_moves 64 eq_refl sample_ctl sample_reads sample_writes 7 1 sample_consistent ltac:(split; done))
    as (c' & E & _ & Er & _).
  exists c'. split; [exact E|exact Er].
Defined.
End Escalate.
