(* ===== verification/QoSAccount.v ===== *)
(** The accounts the QoS controller keeps of its queues ([QoS::MemCtrl::logRequest],
    [logResponse]): a request that enters a queue and one that leaves it keep the
    counters those of the queues, and no response is without its request.  The
    direction of the bus ([selectNextBusState], [recordTurnaroundStats]). *)
From S2P Require Import Prelude Packet QoSPolicy QoS QoSEscalate.
Import QoS Escalate.

Module Account.
#[local] Arguments vol : simpl never.
#[local] Arguments vol_of : simpl never.
#[local] Arguments others : simpl never.
#[local] Arguments mine : simpl never.

(** ** Request times *)

Lemma times_set id addr l id' addr' c : times_of id' addr' (set_times id addr l c) =
  if decide (id' = id /\ addr' = addr) then l else times_of id' addr' c.
Proof.
  unfold times_of, set_times. cbn. destruct (decide (id' = id)) as [->|Hne].
  - rewrite lookup_insert_eq. cbn. destruct (decide (addr' = addr)) as [->|Ha].
    + destruct (decide _) as [_|[]]; [|done]. destruct l; [by rewrite lookup_delete_eq|by rewrite lookup_insert_eq].
    + destruct (decide _) as [[_ ?]|_]; [done|]. destruct l; [by rewrite lookup_delete_ne|by rewrite lookup_insert_ne].
  - destruct (decide _) as [[? _]|_]; [done|]. by rewrite lookup_insert_ne.
Qed.

(** Only the request times and the statistics differ, the times by [n] entries of one
    address. *)
Definition times_moved (n id addr : Z) (c c' : t) : Prop :=
  (exists rt st, c' = c <| requestTimes := rt |> <| stats := st |>) /\
  forall id' addr', zlen (times_of id' addr' c') =
    zlen (times_of id' addr' c) + if decide (id' = id /\ addr' = addr) then n else 0.
Lemma times_moved_0 id addr c : times_moved 0 id addr c c.
Proof.
  split; [exists (requestTimes c), (stats c); by destruct c|]. intros id' addr'. case_decide; lia.
Qed.
Lemma times_moved_trans n m id addr c c' c'' :
  times_moved n id addr c c' -> times_moved m id addr c' c'' -> times_moved (n + m) id addr c c''.
Proof.
  intros [(?&?&->) H] [(rt&st&->) H']. split; [by exists rt, st|]. intros id' addr'. rewrite H', H. case_decide; lia.
Qed.
Lemma set_times_moved id addr l c n : zlen l = zlen (times_of id addr c) + n ->
  times_moved n id addr c (set_times id addr l c).
Proof.
  intros Hl. split.
  - exists (requestTimes (set_times id addr l c)), (stats c). by destruct c.
  - intros id' addr'. rewrite times_set. case_decide as H; [|lia]. destruct H as [-> ->]. lia.
Qed.

Lemma stats_moved id (f : Stats -> Stats) addr c : times_moved 0 id addr c (c <| stats ::= f |>).
Proof.
  split; [exists (requestTimes c), (f (stats c)); by destruct c|]. intros id' addr'.
  change (times_of id' addr' (c <| stats ::= f |>)) with (times_of id' addr' c). case_decide; lia.
Qed.

Section Moves.
Context (now : Z).

Lemma push_times_wp id addr n c : 0 <= n ->
  wp (for_ (Z.to_nat n) 0 (fun _ => modify (fun s => set_times id addr (times_of id addr s ++ [now]) s))) c
    (fun _ c' => times_moved n id addr c c').
Proof using.
  intros Hn. apply (wp_for (fun i c' => times_moved i id addr c c')).
  - apply times_moved_0.
  - intros i c' Hi H. apply wp_modify. eapply times_moved_trans; [exact H|]. apply set_times_moved.
    unfold zlen. rewrite length_app. cbn. lia.
  - intros c' H. by replace n with (0 + Z.of_nat (Z.to_nat n)) by lia.
Qed.
Lemma take_time_wp id qos addr delay c (Q : unit -> t -> Prop) : 0 < zlen (times_of id addr c) ->
  (forall c', times_moved (-1) id addr c c' -> Q tt c') -> wp (take_time now id qos addr delay) c Q.
Proof using.
  intros Hz HQ. unfold take_time. wp_step. wp_step. destruct (times_of id addr c) as [|x l] eqn:E; [done|].
  apply wp_modify, HQ. replace (-1) with (0 + -1) by done. eapply times_moved_trans.
  - apply (stats_moved _ (fun st => st <| latencies ::= fun l => l ++ [(qos, (now, delay, x))] |>)).
  - apply set_times_moved. change (times_of id addr _) with (times_of id addr c). rewrite E. unfold zlen. cbn. lia.
Qed.
Lemma take_times_wp id qos addr n delay c : 0 <= n <= zlen (times_of id addr c) ->
  wp (for_ (Z.to_nat n) 0 (fun _ => take_time now id qos addr delay)) c (fun _ c' => times_moved (- n) id addr c c').
Proof using.
  intros Hn. apply (wp_for (fun i c' => times_moved (- i) id addr c c')).
  - apply times_moved_0.
  - intros i c' Hi H. apply take_time_wp.
    + destruct H as [_ H]. rewrite H. destruct (decide _) as [_|[]]; [lia|done].
    + intros c'' H'. replace (- (i + 1)) with (- i + -1) by lia. by eapply times_moved_trans.
  - intros c' H. by replace n with (0 + Z.of_nat (Z.to_nat n)) by lia.
Qed.
End Moves.

(** ** One packet more, or one less *)

Definition dir_of (k : Z) : BusState := if k =? 0 then READ else WRITE.
Definition upd_ctl (k j id d : Z) (c : t) : t :=
  (if k =? 0 then c <| readQueueSizes ::= alter (Z.add d) (Z.to_nat j) |> <| totalReadQueueSize ::= Z.add d |>
   else c <| writeQueueSizes ::= alter (Z.add d) (Z.to_nat j) |> <| totalWriteQueueSize ::= Z.add d |>)
  <| packetPriorities ::= <[id := alter (Z.add d) (Z.to_nat j) (prios_of id c)]> |>.
Definition on_reads {B} (k : Z) (f : B -> B) (v : B) : B := if k =? 0 then f v else v.
Definition on_writes {B} (k : Z) (f : B -> B) (v : B) : B := if k =? 0 then v else f v.

(** What the accounting leaves alone. *)
Definition frame (c c' : t) : Prop :=
  requestors c ⊆ requestors c' /\ policy c' = policy c /\ turnPolicy c' = turnPolicy c /\ numPriorities c' = numPriorities c /\
  qosPriorityEscalation c' = qosPriorityEscalation c /\ qosSyncroScheduler c' = qosSyncroScheduler c /\
  serviceTick c' = serviceTick c /\ busState c' = busState c /\ busStateNext c' = busStateNext c.
Lemma frame_trans c c' c'' : frame c c' -> frame c' c'' -> frame c c''.
Proof. intros (?&?&?&?&?&?&?&?&?) (?&?&?&?&?&?&?&?&?). split; [set_solver|]. split_and!; congruence. Qed.
Lemma frame_joined c c' : joined c c' -> frame c c'.
Proof. intros (ids & ? & ? & ? & ? & ->). split; [done|]. split_and!; reflexivity. Qed.
Lemma frame_upd k j id d c : frame c (upd_ctl k j id d c).
Proof. unfold upd_ctl. destruct (k =? 0); (split; [done|]); split_and!; reflexivity. Qed.
Lemma frame_times n id addr c c' : times_moved n id addr c c' -> frame c c'.
Proof. intros [(?&?&->) _]. split; [done|]. split_and!; reflexivity. Qed.

Section Change.
Context {A : Type} `{!QueuedPacket A} `{!QueuedPacketLaws A} (es : Z).
Hypothesis Hes : 0 < es.

Lemma vol_of_weight id (q : list A) : vol_of es id q = lsum (fun p => if is_of id p then entries es p else 0) q.
Proof using.
  induction q as [|p q IH]; [done|]. rewrite vol_of_cons, IH. done.
Qed.

(** The queue [g q] has the packet [p] more ([sgn] is 1), or less ([sgn] is -1). *)
Definition one_packet (sgn : Z) (p : A) (q q' : list A) : Prop :=
  forall f : A -> Z, lsum f q' = lsum f q + sgn * f p.
Definition entry_ok (k j : Z) (c : t) (p : A) : Prop :=
  dir_ok k p /\ qp_qosValue p = j /\ qp_requestorId p ∈ requestors c.

Lemma lsum_alter_at {B} (f : B -> Z) (g : B -> B) (v : list B) (j : Z) q : v !! j = Some q ->
  lsum f (alter g (Z.to_nat j) v) = lsum f v - f q + f (g q).
Proof using.
  intros Hq. pose proof (zlookup_lt _ _ _ Hq). assert (alter g (Z.to_nat j) v = <[j := g q]> v) as ->.
  { pose proof (zalter_write g v j q Hq) as E. unfold awrite in E.
    destruct ((0 <=? j) && (j <? zlen v)) eqn:Er; [by apply Ok_inj in E|].
    apply andb_false_iff in Er as [?%Z.leb_gt|?%Z.ltb_ge]; lia. }
  by apply lsum_insert.
Qed.
Lemma fmap_alter_at {B C} (f : B -> C) (g : B -> B) (h : C -> C) (v : list B) (j : Z) q : v !! j = Some q ->
  f (g q) = h (f q) -> f <$> alter g (Z.to_nat j) v = alter h (Z.to_nat j) (f <$> v).
Proof using.
  intros Hq Hg. pose proof (zlookup_lt _ _ _ Hq). unfold lookup, zlist_lookup in Hq. destruct (Z.ltb_spec j 0); [lia|].
  apply list_eq. intros i. rewrite list_lookup_fmap, !list_lookup_alter, !list_lookup_fmap. case_decide; [|done].
  by rewrite Hq; cbn; rewrite Hg.
Qed.

Lemma queues_ok_alter k c c' v j g q : requestors c' = requestors c -> numPriorities c' = numPriorities c ->
  queues_ok k c v -> v !! j = Some q -> Forall (entry_ok k j c) (g q) -> queues_ok k c' (alter g (Z.to_nat j) v).
Proof using.
  intros Er En [Hl H] Hq Hg. split; [by rewrite zlen_alter, En|]. rewrite Er. pose proof (zlookup_lt _ _ _ Hq).
  intros i q'. destruct (decide (i = j)) as [->|Hne].
  - rewrite zlookup_alter, Hq by lia. cbn. intros [= <-]. exact Hg.
  - rewrite zlookup_alter_ne by lia. apply H.
Qed.
Lemma queues_ok_same k c c' (v : list (list A)) : requestors c' = requestors c -> numPriorities c' = numPriorities c ->
  queues_ok k c v -> queues_ok k c' v.
Proof using. unfold queues_ok. by intros -> ->. Qed.

Lemma counts_alter k j id (p : A) sgn g rq wq q : (on_writes k (fun _ => wq) rq) !! j = Some q ->
  zlen rq = zlen wq -> one_packet sgn p q (g q) ->
  counts es id (on_reads k (alter g (Z.to_nat j)) rq) (on_writes k (alter g (Z.to_nat j)) wq) =
  alter (Z.add (if is_of id p then sgn * entries es p else 0)) (Z.to_nat j) (counts es id rq wq).
Proof using.
  intros Hq Hlen Hg. pose proof (zlookup_lt _ _ _ Hq). unfold lookup, zlist_lookup in Hq.
  destruct (Z.ltb_spec j 0); [lia|]. apply list_eq. intros i. unfold counts.
  rewrite list_lookup_alter, !lookup_zip_with. unfold on_reads, on_writes in *.
  assert (vol_of es id (g q) = vol_of es id q + if is_of id p then sgn * entries es p else 0) as E.
  { rewrite !vol_of_weight, Hg. destruct (is_of id p); lia. }
  destruct (k =? 0); rewrite list_lookup_alter; destruct (decide (Z.to_nat j = i)) as [<-|]; try done; rewrite Hq; cbn.
  - destruct (wq !! Z.to_nat j) as [r|]; [|done]. cbn. f_equal. lia.
  - destruct (rq !! Z.to_nat j) as [r|]; [|done]. cbn. f_equal. lia.
Qed.

Lemma upd_fields k j id d c : requestors (upd_ctl k j id d c) = requestors c /\
  numPriorities (upd_ctl k j id d c) = numPriorities c /\ requestTimes (upd_ctl k j id d c) = requestTimes c /\
  packetPriorities (upd_ctl k j id d c) = <[id := alter (Z.add d) (Z.to_nat j) (prios_of id c)]> (packetPriorities c).
Proof using. unfold upd_ctl. destruct (k =? 0); split_and!; reflexivity. Qed.

Lemma consistent_upd k j sgn p g c rq wq q :
  let id := qp_requestorId p in let d := sgn * entries es p in
  consistent es c rq wq -> id ∈ requestors c -> (on_writes k (fun _ => wq) rq) !! j = Some q ->
  one_packet sgn p q (g q) -> Forall (entry_ok k j c) (g q) -> (k = 0 \/ k = 1) ->
  lsum (vol es) rq + lsum (vol es) wq + d < 2 ^ 64 ->
  consistent es (upd_ctl k j id d c) (on_reads k (alter g (Z.to_nat j)) rq) (on_writes k (alter g (Z.to_nat j)) wq).
Proof using QueuedPacketLaws0 Hes.
  intros id d Hc Hid Hq Hg Hok Hk H64. destruct (upd_fields k j id d c) as (Er & En & _ & Ep). pose proof Hc as [].
  pose proof (proj1 co_reads0) as Lr. pose proof (proj1 co_writes0) as Lw.
  assert (vol es (g q) = vol es q + d) as Ev by apply Hg.
  assert (Hcounts := fun id' => counts_alter k j id' p sgn g rq wq q Hq ltac:(lia) Hg).
  split.
  - destruct Hk as [-> | ->]; unfold on_writes, on_reads in *; cbn in Hq; [by eapply queues_ok_alter|by eapply queues_ok_same].
  - destruct Hk as [-> | ->]; unfold on_writes, on_reads in *; cbn in Hq; [by eapply queues_ok_same|by eapply queues_ok_alter].
  - destruct Hk as [-> | ->]; unfold on_writes, on_reads in *; cbn in Hq; [|done]. cbn. rewrite co_rsizes0. symmetry. apply (fmap_alter_at _ _ _ _ _ _ Hq). lia.
  - destruct Hk as [-> | ->]; unfold on_writes, on_reads in *; cbn in Hq; [done|]. cbn. rewrite co_wsizes0. symmetry. apply (fmap_alter_at _ _ _ _ _ _ Hq). lia.
  - rewrite Er, Ep. intros id' Hid'. rewrite Hcounts. unfold is_of. destruct (decide (id' = id)) as [->|Hne].
    + rewrite lookup_insert_eq, Z.eqb_refl. unfold prios_of. by rewrite co_prio0.
    + rewrite lookup_insert_ne, co_prio0 by done. destruct (Z.eqb_spec (qp_requestorId p) id') as [E|E].
      * by rewrite <- E in Hne.
      * f_equal. symmetry. by apply list_alter_id'.
  - rewrite Er, Ep. intros id' Hid'. rewrite lookup_insert_ne by congruence. by apply co_unknown0.
  - destruct Hk as [-> | ->]; unfold on_writes, on_reads in *; cbn in Hq; [|done]. cbn. rewrite co_rtotal0, (lsum_alter_at _ _ _ _ _ Hq). lia.
  - destruct Hk as [-> | ->]; unfold on_writes, on_reads in *; cbn in Hq; [done|]. cbn. rewrite co_wtotal0, (lsum_alter_at _ _ _ _ _ Hq). lia.
  - destruct Hk as [-> | ->]; unfold on_writes, on_reads in *; cbn in Hq; cbn; rewrite (lsum_alter_at _ _ _ _ _ Hq); lia.
Qed.

(** ** Requests and responses *)

Definition upd_queue (k j d : Z) (c : t) : t :=
  if k =? 0 then c <| readQueueSizes ::= alter (Z.add d) (Z.to_nat j) |> <| totalReadQueueSize ::= Z.add d |>
  else c <| writeQueueSizes ::= alter (Z.add d) (Z.to_nat j) |> <| totalWriteQueueSize ::= Z.add d |>.
Lemma bump_ok l j d x : l !! j = Some x -> 0 <= x + d < 2 ^ 64 -> bump l j d = Ok (alter (Z.add d) (Z.to_nat j) l).
Proof using.
  intros Hx H64. unfold bump, aread. rewrite Hx. cbn [mbind result_bind]. rewrite u64_small by lia.
  replace (x + d) with (d + x) by lia. by apply zalter_write.
Qed.
Ltac same_state HQ :=
  lazymatch goal with |- ?Q tt ?x => lazymatch type of HQ with _ tt ?y => replace x with y; [exact HQ|] end end.
Lemma bump_queue_wp k j d c q rq wq (Q : unit -> t -> Prop) : (k = 0 \/ k = 1) -> consistent es c rq wq ->
  (on_writes k (fun _ => wq) rq) !! j = Some q -> 0 <= vol es q + d ->
  lsum (vol es) rq + lsum (vol es) wq + d < 2 ^ 64 ->
  Q tt (upd_queue k j d c) -> wp (bump_queue (dir_of k) j d) c Q.
Proof using Hes.
  intros Hk Hc Hq H0 H64 HQ. pose proof Hc as [].
  assert (forall k' v, queues_ok k' c v -> 0 <= lsum (vol es) v) as Hpos.
  { intros k' v Hv. rewrite <- (Z.mul_0_l (zlen v)). apply lsum_lower. intros i r Hr. by apply (queues_vol es Hes k' c v i). }
  pose proof (Hpos _ _ co_reads0). pose proof (Hpos _ _ co_writes0).
  unfold bump_queue, upd_queue in *. destruct Hk as [-> | ->]; unfold on_writes in *; cbn in Hq |- *; wp_step; wp_step; wp_step; wp_step.
  - pose proof (queues_vol _ Hes _ _ _ _ _ co_reads0 Hq). rewrite (bump_ok _ j d (vol es q)) by
      (rewrite ?co_rsizes0, ?zlookup_fmap, ?Hq; done || lia).
    apply wp_modify. same_state HQ. destruct c; unfold over; cbn in *. f_equal. rewrite u64_small; lia.
  - pose proof (queues_vol _ Hes _ _ _ _ _ co_writes0 Hq). rewrite (bump_ok _ j d (vol es q)) by
      (rewrite ?co_wsizes0, ?zlookup_fmap, ?Hq; done || lia).
    apply wp_modify. same_state HQ. destruct c; unfold over; cbn in *. f_equal. rewrite u64_small; lia.
Qed.

Lemma bump_prio_wp k id j d n c (Q : unit -> t -> Prop) : prios_of id c !! j = Some n -> 0 <= n + d < 2 ^ 64 ->
  Q tt (upd_ctl k j id d c) -> wp (bump_prio id j d) (upd_queue k j d c) Q.
Proof using.
  intros Hn H64 HQ. unfold bump_prio. wp_step. wp_step. wp_step. wp_step.
  assert (prios_of id (upd_queue k j d c) = prios_of id c) as E by (unfold upd_queue; by destruct (k =? 0)).
  rewrite E, (bump_ok _ j d n) by done. apply wp_modify. same_state HQ. unfold upd_ctl, upd_queue. by destruct (k =? 0).
Qed.

(** The entries the queued packets of a requestor at an address stand for. *)
Definition weight_at (id addr : Z) (p : A) : Z :=
  if (qp_requestorId p =? id) && (qp_addr p =? addr) then entries es p else 0.
Definition pending (id addr : Z) (v : list (list A)) : Z := lsum (lsum (weight_at id addr)) v.
Record accounts (c : t) (rq wq : list (list A)) : Prop := {
  ac_consistent : consistent es c rq wq;
  ac_times id addr : zlen (times_of id addr c) = pending id addr rq + pending id addr wq
}.

Lemma consistent_times n id addr c c' rq wq : times_moved n id addr c c' -> consistent es c rq wq -> consistent es c' rq wq.
Proof using. intros [(?&?&->) _] []. by split. Qed.
Lemma times_same id addr c c' : requestTimes c' = requestTimes c -> times_of id addr c' = times_of id addr c.
Proof using. unfold times_of. by intros ->. Qed.

Lemma pending_alter id addr k j sgn p g rq wq q : (on_writes k (fun _ => wq) rq) !! j = Some q ->
  one_packet sgn p q (g q) ->
  pending id addr (on_reads k (alter g (Z.to_nat j)) rq) + pending id addr (on_writes k (alter g (Z.to_nat j)) wq) =
  pending id addr rq + pending id addr wq + sgn * weight_at id addr p.
Proof using.
  intros Hq Hg. unfold pending, on_reads, on_writes in *. destruct (k =? 0); rewrite (lsum_alter_at _ g _ j q Hq), Hg; lia.
Qed.

Lemma accounts_upd k j sgn p g c c' rq wq q :
  let id := qp_requestorId p in let d := sgn * entries es p in
  accounts c rq wq -> id ∈ requestors c -> (on_writes k (fun _ => wq) rq) !! j = Some q ->
  one_packet sgn p q (g q) -> Forall (entry_ok k j c) (g q) -> (k = 0 \/ k = 1) ->
  lsum (vol es) rq + lsum (vol es) wq + d < 2 ^ 64 -> times_moved d id (qp_addr p) (upd_ctl k j id d c) c' ->
  accounts c' (on_reads k (alter g (Z.to_nat j)) rq) (on_writes k (alter g (Z.to_nat j)) wq).
Proof using QueuedPacketLaws0 Hes.
  intros id d [Hc Ht] Hid Hq Hg Hok Hk H64 Hm. split.
  - eapply consistent_times; [exact Hm|]. by eapply consistent_upd.
  - intros id' addr'. destruct Hm as [_ ->]. destruct (upd_fields k j id d c) as (_ & _ & Er & _).
    rewrite (times_same _ _ _ _ Er), Ht, (pending_alter id' addr' k j sgn p g rq wq q) by done. unfold weight_at.
    fold id. destruct (decide (id' = id /\ addr' = qp_addr p)) as [[-> ->]|Hne].
    + rewrite !Z.eqb_refl. done.
    + destruct (Z.eqb_spec id id'), (Z.eqb_spec (qp_addr p) addr'); cbn [andb]; lia.
Qed.

Lemma one_packet_push p q : one_packet 1 p q (q ++ [p]).
Proof using. intros f. rewrite lsum_app. cbn. lia. Qed.

Lemma logRequest_wp now k j p c rq wq q : let id := qp_requestorId p in
  (k = 0 \/ k = 1) -> accounts c rq wq -> (on_writes k (fun _ => wq) rq) !! j = Some q -> dir_ok k p -> qp_qosValue p = j ->
  lsum (vol es) rq + lsum (vol es) wq + entries es p < 2 ^ 64 ->
  wp (logRequest now (dir_of k) id j (qp_addr p) (entries es p)) c (fun _ c' => frame c c' /\
    accounts c' (on_reads k (alter (fun q => q ++ [p]) (Z.to_nat j)) rq)
      (on_writes k (alter (fun q => q ++ [p]) (Z.to_nat j)) wq)).
Proof using QueuedPacketLaws0 Hes.
  intros id Hk [Hc Ht] Hq Hd Hj H64. pose proof (entries_pos es Hes p (proj1 Hd)) as He.
  unfold logRequest. wp_step. eapply (addRequestor_wp es Hes c rq wq); [exact Hc|].
  intros c1 Hc1 Hid Hjoin. pose proof Hjoin as (ids & Hsub & Hs). apply same_fields in Hs as (_ & _ & _ & _ & Etimes).
  assert (exists q', (on_writes k (fun _ => wq) rq) !! j = Some q' /\ 0 <= vol es q') as (q' & Hq' & Hv0).
  { exists q. split; [done|]. destruct Hk as [-> | ->]; cbn in Hq; eapply queues_vol; try done; apply Hc. }
  assert (q' = q) as -> by congruence.
  wp_step. eapply (bump_queue_wp k j _ _ q rq wq); try done; [lia|].
  pose proof (zlookup_lt _ _ _ Hq) as Hlt. assert (zlen rq = zlen wq) as Hlen
    by (rewrite (proj1 (co_reads _ _ _ _ Hc)), (proj1 (co_writes _ _ _ _ Hc)); done).
  destruct (zlookup_is_Some rq j) as [qr Hqr]; [destruct Hk as [-> | ->]; cbn in Hlt; lia|].
  destruct (zlookup_is_Some wq j) as [qw Hqw]; [destruct Hk as [-> | ->]; cbn in Hlt; lia|].
  pose proof (queues_vol es Hes _ _ _ _ _ (co_reads _ _ _ _ Hc) Hqr). pose proof (queues_vol es Hes _ _ _ _ _ (co_writes _ _ _ _ Hc) Hqw).
  pose proof (dir_size _ _ (queues_dir _ _ _ _ _ (co_reads _ _ _ _ Hc) Hqr)) as Sr.
  pose proof (dir_size _ _ (queues_dir _ _ _ _ _ (co_writes _ _ _ _ Hc) Hqw)) as Sw.
  pose proof (vol_of_le es Hes id _ Sr). pose proof (vol_of_le es Hes id _ Sw).
  pose proof (vol_of_nonneg es Hes id _ Sr). pose proof (vol_of_nonneg es Hes id _ Sw).
  pose proof (prio_count es c1 rq wq id j qr qw Hc1 Hid Hqr Hqw) as Hn. unfold aread in Hn.
  destruct (prios_of id c1 !! j) as [n|] eqn:En; [|done]. apply Ok_inj in Hn.
  wp_step. eapply (bump_prio_wp k id j _ n); [done|lia|]. wp_step.
  eapply wp_mono; [apply push_times_wp; lia|]. intros [] c2 Hm. cbn beta in Hm. apply wp_modify.
  lazymatch goal with |- context [c2 <| stats ::= ?h |>] => set (f := h) end. pose proof (stats_moved id f (qp_addr p) c2) as Hm'.
  pose proof (times_moved_trans _ _ _ _ _ _ _ Hm Hm') as Hmm. rewrite Z.add_0_r in Hmm.
  split.
  - eapply frame_trans; [by apply frame_joined|]. eapply frame_trans; [apply (frame_upd k j id (entries es p))|]. by eapply frame_times.
  - eapply (accounts_upd k j 1 p (fun q => q ++ [p]) c1 _ rq wq q); try done; try (rewrite Z.mul_1_l; done).
    + split; [done|]. intros id' addr'. rewrite (times_same _ _ _ _ Etimes). apply Ht.
    + apply one_packet_push.
    + apply Forall_app. split; [|constructor; [done|constructor]].
      destruct Hk as [-> | ->]; cbn in Hq; [apply (proj2 (co_reads _ _ _ _ Hc1) j q Hq)|apply (proj2 (co_writes _ _ _ _ Hc1) j q Hq)].
Qed.

Lemma one_packet_take p q r : one_packet (-1) p (q ++ p :: r) (q ++ r).
Proof using. intros f. rewrite !lsum_app. cbn. lia. Qed.
Lemma lsum_lower_0 {B} (f : B -> Z) (l : list B) : (forall (i : Z) x, l !! i = Some x -> 0 <= f x) -> 0 <= lsum f l.
Proof using. intros H. pose proof (lsum_lower f l 0 H). lia. Qed.
Lemma weight_nonneg id addr p : 0 < qp_size p -> 0 <= weight_at id addr p.
Proof using Hes. intros H. unfold weight_at. pose proof (entries_pos es Hes p H). destruct (_ && _); lia. Qed.
Lemma weights_nonneg id addr q : Forall (fun p => 0 < qp_size p) q -> 0 <= lsum (weight_at id addr) q.
Proof using Hes. intros H. apply lsum_lower_0. intros i p Hp. eapply weight_nonneg, (Forall_zlookup _ _ _ _ H Hp). Qed.
Lemma pending_nonneg id addr k c v : queues_ok k c v -> 0 <= pending id addr v.
Proof using Hes.
  intros Hv. apply lsum_lower_0. intros i q Hq. by apply weights_nonneg, (dir_size k), (queues_dir _ _ _ _ _ Hv Hq).
Qed.
Lemma pending_elem id addr k c v (j : Z) q p q1 q2 : queues_ok k c v -> v !! j = Some q -> q = q1 ++ p :: q2 ->
  weight_at id addr p <= pending id addr v.
Proof using Hes.
  intros Hv Hq ->. pose proof (dir_size _ _ (queues_dir _ _ _ _ _ Hv Hq)) as Hs. apply Forall_app in Hs as [H1 H2].
  inversion H2 as [|? ? _ H2']; subst. transitivity (lsum (weight_at id addr) (q1 ++ p :: q2)).
  - rewrite lsum_app. cbn. pose proof (weights_nonneg id addr _ H1). pose proof (weights_nonneg id addr _ H2'). lia.
  - apply (lsum_elem (lsum (weight_at id addr)) v j); [|done]. intros i r Hr.
    by apply weights_nonneg, (dir_size k), (queues_dir _ _ _ _ _ Hv Hr).
Qed.

Lemma is_of_self p : is_of (qp_requestorId p) p = true.
Proof using. unfold is_of. apply Z.eqb_refl. Qed.

Lemma logResponse_wp now delay k j p q1 q2 c rq wq : let id := qp_requestorId p in
  (k = 0 \/ k = 1) -> accounts c rq wq -> (on_writes k (fun _ => wq) rq) !! j = Some (q1 ++ p :: q2) ->
  wp (logResponse now (dir_of k) id j (qp_addr p) (entries es p) delay) c (fun _ c' => frame c c' /\
    accounts c' (on_reads k (alter (fun _ => q1 ++ q2) (Z.to_nat j)) rq)
      (on_writes k (alter (fun _ => q1 ++ q2) (Z.to_nat j)) wq)).
Proof using QueuedPacketLaws0 Hes.
  intros id Hk [Hc Ht] Hq. pose proof (zlookup_lt _ _ _ Hq) as Hlt.
  pose proof (co_reads _ _ _ _ Hc) as Hr. pose proof (co_writes _ _ _ _ Hc) as Hw.
  assert (zlen rq = zlen wq) as Hlen by (by rewrite (proj1 Hr), (proj1 Hw)).
  assert (queues_ok k c (on_writes k (fun _ => wq) rq)) as Hv by (by destruct Hk as [-> | ->]).
  pose proof (queues_vol es Hes _ _ _ _ _ Hv Hq) as [Hv0 Hv1]. pose proof (queues_dir _ _ _ _ _ Hv Hq) as Hd.
  pose proof (dir_size _ _ Hd) as Hs. pose proof (proj2 Hv _ _ Hq) as Hall.
  apply Forall_app in Hall as [A1 A2]. inversion A2 as [|? ? (Hdp & Hj & Hid) A2']; subst.
  assert (Forall (fun p => 0 < qp_size p) (q1 ++ q2)) as Hs'.
  { apply Forall_app in Hs as [? S2]. inversion S2; subst. by apply Forall_app. }
  pose proof (vol_nonneg es Hes _ Hs') as Hv2. pose proof (entries_pos es Hes p (proj1 Hdp)) as He.
  pose proof (one_packet_take p q1 q2) as Hone. assert (Hvol := Hone (entries es)). fold (vol es (q1 ++ q2)) in Hvol.
  fold (vol es (q1 ++ p :: q2)) in Hvol.
  unfold logResponse. wp_step. wp_step.
  unfold hasRequestor. rewrite bool_decide_true by done. cbn [negb]. wp_step.
  assert (0 <= lsum (vol es) rq /\ 0 <= lsum (vol es) wq) as [? ?].
  { split; apply lsum_lower_0; intros i r Hr'; [by apply (queues_vol es Hes _ _ _ _ _ Hr Hr')|by apply (queues_vol es Hes _ _ _ _ _ Hw Hr')]. }
  pose proof (co_bound _ _ _ _ Hc).
  eapply (bump_queue_wp k _ _ _ _ rq wq); try done; [lia..|]. wp_step. wp_step.
  destruct (zlookup_is_Some rq (qp_qosValue p)) as [qr Hqr]; [destruct Hk as [-> | ->]; cbn in Hlt; lia|].
  destruct (zlookup_is_Some wq (qp_qosValue p)) as [qw Hqw]; [destruct Hk as [-> | ->]; cbn in Hlt; lia|].
  pose proof (dir_size _ _ (queues_dir _ _ _ _ _ Hr Hqr)) as Sr. pose proof (dir_size _ _ (queues_dir _ _ _ _ _ Hw Hqw)) as Sw.
  pose proof (vol_of_nonneg es Hes id _ Sr). pose proof (vol_of_nonneg es Hes id _ Sw).
  pose proof (vol_of_le es Hes id _ Sr). pose proof (vol_of_le es Hes id _ Sw).
  pose proof (queues_vol es Hes _ _ _ _ _ Hr Hqr) as [_ Lr]. pose proof (queues_vol es Hes _ _ _ _ _ Hw Hqw) as [_ Lw].
  assert (entries es p <= vol_of es id (q1 ++ p :: q2)) as Hep.
  { assert (Hone' := Hone (fun p => if is_of id p then entries es p else 0)). rewrite <- !vol_of_weight in Hone'.
    unfold id in Hone' at 3. rewrite is_of_self in Hone'. pose proof (vol_of_nonneg es Hes id _ Hs'). lia. }
  pose proof (prio_count es c rq wq id _ qr qw Hc Hid Hqr Hqw) as Hn. unfold aread in Hn.
  destruct (prios_of id c !! qp_qosValue p) as [n|] eqn:En; [|done]. apply Ok_inj in Hn.
  assert (entries es p <= n) as Hpn.
  { destruct Hk as [-> | ->]; cbn in Hq; rewrite ?Hqr, ?Hqw in Hq; injection Hq as ->; lia. }
  assert (forall d, prios_of id (upd_queue k (qp_qosValue p) d c) = prios_of id c) as Ep
    by (intros d; unfold upd_queue; by destruct (k =? 0)).
  wp_step. wp_step. rewrite Ep. unfold aread. rewrite En. wp_step.
  destruct (Z.eqb_spec n 0); [lia|]. wp_step. eapply (bump_prio_wp k id _ _ n); [done|lia|].
  destruct (upd_fields k (qp_qosValue p) id (- entries es p) c) as (_ & _ & Er & _).
  eapply wp_mono; [apply take_times_wp|].
  - rewrite (times_same _ _ _ _ Er), Ht. split; [lia|].
    assert (weight_at id (qp_addr p) p = entries es p) as <-.
    { unfold weight_at, id. by rewrite !Z.eqb_refl. }
    pose proof (pending_elem id (qp_addr p) _ _ _ _ _ p q1 q2 Hv Hq eq_refl) as Hpe.
    pose proof (pending_nonneg id (qp_addr p) _ _ _ Hr). pose proof (pending_nonneg id (qp_addr p) _ _ _ Hw).
    destruct Hk as [-> | ->]; unfold on_writes in Hpe; cbn iota beta delta [Z.eqb] in Hpe; lia.
  - intros [] c' Hm. cbn beta in Hm. replace (- entries es p) with (-1 * entries es p) in Hm by lia. split.
    + eapply frame_trans; [apply (frame_upd k (qp_qosValue p) id (-1 * entries es p))|]. by eapply frame_times.
    + eapply (accounts_upd k _ (-1) p (fun _ => q1 ++ q2)); try done; [by apply Forall_app|lia].
Qed.
End Change.
End Account.
