(* ===== verification/QoSSchedule.v ===== *)
(** Scheduling by a QoS controller ([QoS::MemCtrl::qosSchedule] in [mem/qos/mem_ctrl.hh]):
    the priority is one of the controller's, and the queues keep their packets and their
    accounts when requestors are escalated. *)
From S2P Require Import Prelude Packet QoSPolicy QoS QoSEscalate QoSAccount.
Import QoS Escalate Account.

Module Schedule.
#[local] Arguments vol : simpl never.
#[local] Arguments entries : simpl never.

(** ** Scheduling *)

(** The policy gives no priority past the [n] there are. *)
Definition policy_ok (n : Z) (pol : option Policy.t) : Prop :=
  match pol with
  | None => True
  | Some (Policy.fixed p) =>
      0 <= Policy.defaultPriority p < n /\ forall id x, Policy.priorityMap p !! id = Some x -> 0 <= x < n
  | Some (Policy.propfair p) => zlen (Policy.history p) <= n
  end.
Lemma serve_range p id size pos prio h n : 0 <= prio < n -> 0 <= pos -> pos + zlen h <= n -> n <= 256 ->
  0 <= (Policy.serve p id size pos prio h).1 < n /\ zlen (Policy.serve p id size pos prio h).2 = zlen h.
Proof.
  revert pos prio. unfold zlen. induction h as [|[i x] h IH]; intros pos prio Hp H0 Hn H256; cbn in *; [lia|].
  assert (0 <= (if i =? id then u8 pos else prio) < n) as Hp' by (destruct (i =? id); rewrite ?u8_small; lia).
  specialize (IH (pos + 1) _ Hp' ltac:(lia) ltac:(lia) H256). destruct (Policy.serve p id size (pos + 1) _ h). cbn in *. lia.
Qed.

Section Schedule.
Context `{!StdLib}.

Lemma policy_schedule_ok n id data pol : 0 < n <= 256 -> policy_ok n (Some pol) ->
  0 <= (Policy.schedule id data pol).1 < n /\ policy_ok n (Some (Policy.schedule id data pol).2).
Proof using.
  intros Hn Hp. destruct pol as [p|p]; cbn in *.
  - split; [|done]. unfold Policy.schedule_fixed. destruct (Policy.priorityMap p !! id) as [x|] eqn:E; [|apply Hp].
    by apply (proj2 Hp id).
  - unfold Policy.schedule_pf. pose proof (Permutation_length (std_sort_perm (Policy.history p))) as El.
    pose proof (serve_range p id data 0 0 (std_sort (Policy.history p)) n) as Hsr. unfold zlen in *.
    destruct (Policy.serve p id data 0 0 _) as [prio h]. cbn in *. lia.
Qed.

(** What scheduling changes when nothing is escalated. *)
Definition rescheduled (n : Z) (c c' : QoS.t) : Prop := exists pol st,
  c' = c <| policy := pol |> <| serviceTick := st |> /\ policy_ok n pol /\ zlen st = n /\ (policy c = None -> pol = None).
Lemma rescheduled_refl n c : policy_ok n (policy c) -> zlen (serviceTick c) = n -> rescheduled n c c.
Proof using. intros Hp Hs. exists (policy c), (serviceTick c). by destruct c. Qed.
Lemma rescheduled_trans n c c' c'' : rescheduled n c c' -> rescheduled n c' c'' -> rescheduled n c c''.
Proof using.
  intros (? & ? & -> & ? & ? & Hp1) (pol & st & -> & ? & ? & Hp2). exists pol, st. split_and!; try done. auto.
Qed.
Lemma rescheduled_ok n c c' : rescheduled n c c' -> policy_ok n (policy c') /\ zlen (serviceTick c') = n /\
  numPriorities c' = numPriorities c /\ qosPriorityEscalation c' = qosPriorityEscalation c.
Proof using. by intros (? & ? & -> & ? & ? & _). Qed.

Lemma schedule_wp n id data c : 0 < n <= 256 -> policy_ok n (policy c) -> zlen (serviceTick c) = n ->
  wp (QoS.schedule id data) c (fun prio c' => 0 <= prio < n /\ rescheduled n c c').
Proof using.
  intros Hn Hp Hs. unfold QoS.schedule. wp_step. wp_step. destruct (policy c) as [pol|] eqn:E.
  - pose proof (policy_schedule_ok n id data pol Hn Hp) as [H1 H2]. destruct (Policy.schedule id data pol) as [prio pol'].
    cbn in H1, H2. wp_step. apply wp_modify. wp_step. split; [done|]. exists (Some pol'), (serviceTick c).
    split; [by destruct c|]. split; [done|]. split; [done|]. by rewrite E.
  - wp_step. split; [lia|]. apply rescheduled_refl; [by rewrite E|done].
Qed.
Lemma schedule_pkt_wp n p c : 0 < n <= 256 -> policy_ok n (policy c) -> zlen (serviceTick c) = n ->
  (policy c = None -> 0 <= pkt_qosValue p < n) ->
  wp (schedule_pkt p) c (fun prio c' => 0 <= prio < n /\ rescheduled n c c').
Proof using.
  intros Hn Hp Hs H0. unfold schedule_pkt. wp_step. wp_step. destruct (policy c) as [pol|] eqn:E.
  - apply schedule_wp; rewrite ?E; done.
  - wp_step. split; [by apply H0|]. apply rescheduled_refl; [by rewrite E|done].
Qed.

End Schedule.

(** ** Scheduling with escalation *)

Section Escalation.
Context {HS : StdLib} {A : Type} `{!QueuedPacket A} `{!QueuedPacketLaws A} (es : Z).
Hypothesis Hes : 0 < es.

Lemma accounts_escalated c rq wq id b : accounts es c rq wq -> 0 <= b < numPriorities c ->
  wp (escalate es id b) (mkQQ c [rq; wq]) (fun _ s' => exists c', s' = mkQQ c' [escalated id b rq; escalated id b wq] /\
    accounts es c' (escalated id b rq) (escalated id b wq) /\ joined c c').
Proof using QueuedPacketLaws0 Hes.
  intros [Hc Ht] Hb. eapply wp_mono; [by apply escalate_wp|]. intros [] s' (c' & -> & Hc' & _ & Hj).
  exists c'. split; [done|]. split; [|done]. split; [done|]. intros id' addr. destruct Hj as (ids & _ & Hs).
  apply same_fields in Hs as (_ & _ & _ & _ & Et).
  rewrite (times_same _ _ _ _ Et). change (times_of id' addr (c <| requestors := ids |>)) with (times_of id' addr c). rewrite Ht.
  assert (forall v p, weight_at es id' addr (set_qosValue v p) = weight_at es id' addr p) as Hw
    by (intros v p; unfold weight_at, entries; by rewrite set_requestorId, set_addr, set_size).
  unfold pending. rewrite !weight_escalated; [done|done| |done|];
    [rewrite (proj1 (co_writes _ _ _ _ Hc))|rewrite (proj1 (co_reads _ _ _ _ Hc))]; done.
Qed.

(** The queues of a direction, up to the priorities of their packets: every measure
    that does not look at the priority sees the same. *)
Definition weight (f : A -> Z) (v : list (list A)) : Z := lsum (lsum f) v.
Definition moved (v v' : list (list A)) : Prop := zlen v' = zlen v /\
  forall f, (forall b p, f (set_qosValue b p) = f p) -> weight f v' = weight f v.
Lemma moved_refl v : moved v v.
Proof using. done. Qed.
Lemma moved_trans v v' v'' : moved v v' -> moved v' v'' -> moved v v''.
Proof using. intros [L1 H1] [L2 H2]. split; [congruence|]. intros f Hf. by rewrite H2, H1. Qed.
Lemma moved_escalated id b v : 0 <= b < zlen v -> moved v (escalated id b v).
Proof using Hes QueuedPacketLaws0.
  intros Hb. split; [unfold escalated, zlen; by rewrite length_imap|]. intros f Hf. by apply weight_escalated.
Qed.

(** What scheduling keeps of the controller. *)
Definition kept (n : Z) (c c' : t) : Prop :=
  policy_ok n (policy c') /\ zlen (serviceTick c') = n /\ numPriorities c' = numPriorities c /\
  (policy c = None -> policy c' = None) /\ turnPolicy c' = turnPolicy c /\
  busState c' = busState c /\ busStateNext c' = busStateNext c.
Lemma kept_trans n c c' c'' : kept n c c' -> kept n c' c'' -> kept n c c''.
Proof using.
  intros (? & ? & ? & N1 & ? & ? & ?) (? & ? & ? & N2 & ? & ? & ?). split_and!; try done; try congruence. auto.
Qed.
Lemma kept_rescheduled n c c' : rescheduled n c c' -> kept n c c'.
Proof using. intros (pol & st & -> & ? & ? & ?). by split_and!. Qed.
Lemma kept_joined n c c' : policy_ok n (policy c) -> zlen (serviceTick c) = n -> joined c c' -> kept n c c'.
Proof using. intros ? ? (ids & _ & ? & ? & ? & ->). by split_and!. Qed.

(** The state of the queues and the controller as scheduling finds and leaves it. *)
Definition scheduled_from (n : Z) (c : t) (rq wq : list (list A)) (s : qq A) : Prop := exists c' rq' wq',
  s = mkQQ c' [rq'; wq'] /\ accounts es c' rq' wq' /\ moved rq rq' /\ moved wq wq' /\ kept n c c'.
Record ready (n : Z) (c : t) (rq wq : list (list A)) : Prop := {
  rd_n : 0 < n <= 256; rd_accounts : accounts es c rq wq; rd_policy : policy_ok n (policy c);
  rd_ticks : zlen (serviceTick c) = n; rd_prios : numPriorities c = n }.
Lemma scheduled_refl n c rq wq : ready n c rq wq -> scheduled_from n c rq wq (mkQQ c [rq; wq]).
Proof using. intros []. exists c, rq, wq. split_and!; done. Qed.
Lemma scheduled_ready n c rq wq s : ready n c rq wq -> scheduled_from n c rq wq s -> exists c' rq' wq',
  s = mkQQ c' [rq'; wq'] /\ ready n c' rq' wq' /\
  forall s', scheduled_from n c' rq' wq' s' -> scheduled_from n c rq wq s'.
Proof using.
  intros [] (c' & rq' & wq' & -> & Ha & M1 & M2 & K). exists c', rq', wq'. split; [done|]. split.
  - destruct K as (? & ? & ? & _). split; try done. congruence.
  - intros s' (c2 & rq2 & wq2 & -> & Ha2 & N1 & N2 & K2). exists c2, rq2, wq2. split; [done|]. split; [done|].
    split; [by eapply moved_trans|]. split; [by eapply moved_trans|by eapply kept_trans].
Qed.
Lemma accounts_rescheduled n c c' (rq wq : list (list A)) : rescheduled n c c' -> accounts es c rq wq -> accounts es c' rq wq.
Proof using. intros (?&?&->&_) [[] ?]. split; [by split|done]. Qed.
Lemma scheduled_rescheduled n c c' rq wq : ready n c rq wq -> rescheduled n c c' ->
  scheduled_from n c rq wq (mkQQ c' [rq; wq]).
Proof using.
  intros [] Hr. exists c', rq, wq. split; [done|]. split; [by eapply accounts_rescheduled|].
  split; [done|]. split; [done|by apply kept_rescheduled].
Qed.

Lemma escalate_any n c rq wq id b : ready n c rq wq -> 0 <= b < n ->
  wp (escalate es id b) (mkQQ c [rq; wq]) (fun _ s => scheduled_from n c rq wq s).
Proof using QueuedPacketLaws0 Hes.
  intros [] Hb. eapply wp_mono; [apply accounts_escalated; [done|lia]|]. intros [] s (c' & -> & Ha & Hj).
  exists c', (escalated id b rq), (escalated id b wq). split; [done|]. split; [done|].
  pose proof (proj1 (co_reads _ _ _ _ (ac_consistent _ _ _ _ rd_accounts0))).
  pose proof (proj1 (co_writes _ _ _ _ (ac_consistent _ _ _ _ rd_accounts0))).
  split; [apply moved_escalated; lia|]. split; [apply moved_escalated; lia|]. by apply kept_joined.
Qed.
Lemma synchronise_any me ids n c rq wq : ready n c rq wq ->
  wp (synchronise es me ids) (mkQQ c [rq; wq]) (fun _ s => scheduled_from n c rq wq s).
Proof using QueuedPacketLaws0 Hes.
  revert c rq wq. induction ids as [|id ids IH]; intros c rq wq Hrd; cbn [synchronise].
  { by apply wp_ret, scheduled_refl. }
  wp_step. eapply (wp_mono _ _ (fun _ s => scheduled_from n c rq wq s)).
  - apply wp_when; intros _; [|by apply scheduled_refl]. wp_step. unfold on_ctl. wp_step.
    eapply wp_mono; [apply (schedule_wp n); apply Hrd|]. intros prio c' [Hp Hr]. cbn beta. cbn [ctl] in Hr.
    change ((mkQQ c [rq; wq]) <| ctl := c' |>) with (mkQQ c' [rq; wq]).
    destruct (scheduled_ready n c rq wq _ Hrd (scheduled_rescheduled n c c' rq wq Hrd Hr)) as (c1 & rq1 & wq1 & [= <- <- <-] & Hrd' & Hback).
    wp_step. wp_step. apply wp_when; intros _; [|by apply Hback, scheduled_refl].
    eapply wp_mono; [by apply (escalate_any n)|]. intros [] s Hs. by apply Hback.
  - intros [] s Hs. destruct (scheduled_ready n c rq wq s Hrd Hs) as (c1 & rq1 & wq1 & -> & Hrd' & Hback).
    eapply wp_mono; [by apply IH|]. intros [] s'. apply Hback.
Qed.

(** The packet gets a priority of the controller; whatever is escalated, the queues keep
    their packets and their accounts. *)
Lemma qosSchedule_any now p n c rq wq : ready n c rq wq -> (policy c = None -> 0 <= pkt_qosValue p < n) ->
  wp (qosSchedule now es p) (mkQQ c [rq; wq]) (fun r s => exists prio, r = (prio, p <| pkt_qosValue := prio |>) /\
    0 <= prio < n /\ scheduled_from n c rq wq s).
Proof using QueuedPacketLaws0 Hes.
  intros Hrd H0. unfold qosSchedule. wp_step. unfold on_ctl at 1. wp_step.
  eapply wp_mono; [apply (schedule_pkt_wp n); [apply Hrd..|exact H0]|]. intros prio c1 [Hprio Hr]. cbn beta. cbn [ctl] in Hr.
  change ((mkQQ c [rq; wq]) <| ctl := c1 |>) with (mkQQ c1 [rq; wq]).
  destruct (scheduled_ready n c rq wq _ Hrd (scheduled_rescheduled n c c1 rq wq Hrd Hr)) as (c2 & rq2 & wq2 & [= <- <- <-] & Hrd1 & Hb1).
  wp_step. wp_step. wp_step. apply wp_assert; [apply Z.ltb_lt; pose proof (rd_prios _ _ _ _ Hrd1); cbn; lia|]. wp_step. wp_step. wp_step.
  apply (wp_mono _ _ (fun _ s => scheduled_from n c1 rq wq s)).
  { apply wp_when; intros _; [by apply synchronise_any|by apply scheduled_refl]. }
  intros [] s Hs. destruct (scheduled_ready n c1 rq wq s Hrd1 Hs) as (c3 & rq3 & wq3 & -> & Hrd3 & Hb3). wp_step.
  apply (wp_mono _ _ (fun _ s => scheduled_from n c3 rq3 wq3 s)).
  { apply wp_when; intros _; [by apply escalate_any|by apply scheduled_refl]. }
  intros [] s Hs3. destruct (scheduled_ready n c3 rq3 wq3 s Hrd3 Hs3) as (c4 & rq4 & wq4 & -> & Hrd4 & Hb4).
  wp_step. wp_step. wp_step. wp_step. pose proof (rd_ticks _ _ _ _ Hrd4). apply rp_awrite; [cbn; lia|]. wp_step. unfold on_ctl. wp_step. cbn beta.
  exists prio. split; [done|]. split; [done|]. apply Hb1, Hb3, Hb4.
  apply (scheduled_rescheduled n c4 _ rq4 wq4 Hrd4).
  exists (policy c4), (<[prio := now]> (serviceTick c4)). split; [by destruct c4|].
  split; [apply Hrd4|]. by rewrite zlen_insert.
Qed.
End Escalation.
End Schedule.
