(* ===== verification/QoSLife.v ===== *)
(** The life of the queues a QoS controller accounts for: requests that arrive, requests
    that are answered and escalations, in any order, from the empty controller on.  And
    the direction of the bus ([selectNextBusState], [recordTurnaroundStats]). *)
From S2P Require Import Prelude Packet QoSPolicy QoS QoSEscalate QoSAccount QoSSchedule.
Import QoS Escalate Account Schedule.

Module Life.

Section Queues.
Context {A : Type} `{!QueuedPacket A} `{!QueuedPacketLaws A} (es : Z).
Hypothesis Hes : 0 < es.

Record world := mkWorld { w_ctl : t; w_reads : list (list A); w_writes : list (list A) }.
Definition queues_of (k : Z) (w : world) : list (list A) := on_writes k (fun _ => w_writes w) (w_reads w).
(** The world whose controller is [c], the [j]-th queue of direction [k] changed by [g]. *)
Definition change (k j : Z) (g : list A -> list A) (c : t) (w : world) : world :=
  mkWorld c (on_reads k (alter g (Z.to_nat j)) (w_reads w)) (on_writes k (alter g (Z.to_nat j)) (w_writes w)).

Inductive step : world -> world -> Prop :=
| step_request now k j p w c : (k = 0 \/ k = 1) -> dir_ok k p -> qp_qosValue p = j -> 0 <= j < numPriorities (w_ctl w) ->
    lsum (vol es) (w_reads w) + lsum (vol es) (w_writes w) + entries es p < 2 ^ 64 ->
    logRequest now (dir_of k) (qp_requestorId p) j (qp_addr p) (entries es p) (w_ctl w) = Ok (tt, c) ->
    step w (change k j (fun q => q ++ [p]) c w)
| step_response now delay k j p q1 q2 w c : (k = 0 \/ k = 1) -> queues_of k w !! j = Some (q1 ++ p :: q2) ->
    logResponse now (dir_of k) (qp_requestorId p) j (qp_addr p) (entries es p) delay (w_ctl w) = Ok (tt, c) ->
    step w (change k j (fun _ => q1 ++ q2) c w)
| step_escalate id b w c rq wq : 0 <= b < numPriorities (w_ctl w) ->
    escalate es id b (mkQQ (w_ctl w) [w_reads w; w_writes w]) = Ok (tt, mkQQ c [rq; wq]) ->
    step w (mkWorld c rq wq).

Definition empty_world pol turn n esc syn : world :=
  mkWorld (create pol turn n esc syn) (calloc n []) (calloc n []).
Definition good (w : world) : Prop := accounts es (w_ctl w) (w_reads w) (w_writes w).

Lemma empty_good pol turn n esc syn : 0 <= n -> good (empty_world pol turn n esc syn).
Proof using.
  intros Hn. assert (forall k c, numPriorities c = n -> queues_ok k c (calloc n ([] : list A))) as Hq.
  { intros k c E. split; [by rewrite zlen_calloc|]. intros j q [-> _]%zlookup_calloc. constructor. }
  assert (calloc n 0 = vol es <$> calloc n ([] : list A)) as Hv by (unfold calloc; by rewrite fmap_replicate).
  assert (lsum (vol es) (calloc n ([] : list A)) = 0) as Hs by (rewrite lsum_calloc by done; change (n * 0 = 0); lia).
  split; [split|]; cbn; try done; try (by apply Hq); try (by rewrite Hs).
  - intros id Hid. by apply elem_of_nil in Hid.
  - intros id addr. unfold pending. rewrite !lsum_calloc by done. change (0 = n * 0 + n * 0). lia.
Qed.

Lemma accounts_escalate w id b : good w -> 0 <= b < numPriorities (w_ctl w) ->
  wp (escalate es id b) (mkQQ (w_ctl w) [w_reads w; w_writes w]) (fun _ s' => exists c',
    s' = mkQQ c' [escalated id b (w_reads w); escalated id b (w_writes w)] /\
    good (mkWorld c' (escalated id b (w_reads w)) (escalated id b (w_writes w)))).
Proof using QueuedPacketLaws0 Hes.
  intros Hg Hb. eapply wp_mono; [by apply accounts_escalated|]. intros [] s' (c' & -> & Ha & _). by exists c'.
Qed.

Lemma step_good w w' : step w w' -> good w -> good w'.
Proof using QueuedPacketLaws0 Hes.
  intros [now k j p w0 c Hk Hd Hj Hlt H64 E|now delay k j p q1 q2 w0 c Hk Hq E|id b w0 c rq wq Hb E] Hg.
  - assert (exists q, queues_of k w0 !! j = Some q) as [q Hq].
    { apply zlookup_is_Some. unfold queues_of. pose proof (ac_consistent _ _ _ _ Hg) as Hc.
      pose proof (proj1 (co_writes _ _ _ _ Hc)). pose proof (proj1 (co_reads _ _ _ _ Hc)).
      destruct Hk as [-> | ->]; cbn; lia. }
    pose proof (logRequest_wp es Hes now k j p _ _ _ q Hk Hg Hq Hd Hj H64) as H. unfold wp in H. rewrite E in H. apply H.
  - pose proof (logResponse_wp es Hes now delay k j p q1 q2 _ _ _ Hk Hg Hq) as H. unfold wp in H. rewrite E in H. apply H.
  - pose proof (accounts_escalate w0 id b Hg Hb) as H. unfold wp in H. rewrite E in H. destruct H as (c' & [= -> -> ->] & H).
    exact H.
Qed.
Lemma steps_good w w' : rtc step w w' -> good w -> good w'.
Proof using QueuedPacketLaws0 Hes. intros H. induction H as [w|w w1 w2 Hs _ IH]; [done|]. intros Hg. eauto using step_good. Qed.

(** C35. From the empty controller on, whatever requests arrive and are answered and
    whatever requestors are escalated, in any order: the counters per priority, per
    requestor and in total are those of the queues; there is one request time for each
    entry that waits; and the next response or escalation ends without a panic. *)
Theorem queues_accounted pol turn n esc syn w : 0 <= n -> rtc step (empty_world pol turn n esc syn) w ->
  accounts es (w_ctl w) (w_reads w) (w_writes w) /\
  (forall now delay k j p q1 q2, (k = 0 \/ k = 1) -> queues_of k w !! j = Some (q1 ++ p :: q2) -> exists c,
    logResponse now (dir_of k) (qp_requestorId p) j (qp_addr p) (entries es p) delay (w_ctl w) = Ok (tt, c)) /\
  (forall id b, 0 <= b < numPriorities (w_ctl w) -> exists s,
    escalate es id b (mkQQ (w_ctl w) [w_reads w; w_writes w]) = Ok (tt, s)).
Proof using QueuedPacketLaws0 Hes.
  intros Hn Hr. pose proof (steps_good _ _ Hr (empty_good pol turn n esc syn Hn)) as Hg. split; [exact Hg|]. split.
  - intros now delay k j p q1 q2 Hk Hq.
    destruct (wp_inv _ _ _ (logResponse_wp es Hes now delay k j p q1 q2 _ _ _ Hk Hg Hq)) as ([] & c & E & _). by exists c.
  - intros id b Hb. destruct (wp_inv _ _ _ (accounts_escalate w id b Hg Hb)) as ([] & s & E & _). by exists s.
Qed.
End Queues.
Arguments world : clear implicits.

(** A read of requestor 7 arrives at priority 0, is escalated to priority 1, and can
    be answered there. *)
Definition request : Packet := sample true 7 0 0.
Definition after_request : t :=
  match logRequest 10 READ 7 0 0 1 (create None None 2 true false) with Ok (_, c) => c | Fault _ => create None None 2 true false end.
Definition after_escalation : t :=
  match escalate 64 7 1 (mkQQ after_request [[[request]; []]; [[]; []]]) with Ok (_, s) => ctl s | Fault _ => after_request end.
Lemma queues_accounted_witness : exists c,
  logResponse 50 (dir_of 0) 7 1 0 1 5 after_escalation = Ok (tt, c) /\ totalReadQueueSize after_escalation = 1.
Proof.
  destruct (queues_accounted 64 eq_refl None None 2 true false
    (mkWorld after_escalation [[]; [sample true 7 0 1]] [[]; []]) ltac:(done)) as (H & Hresp & _).
  - apply rtc_l with (y := mkWorld after_request [[request]; []] [[]; []]); [|apply rtc_l with (2 := rtc_refl _ _)].
    + refine (step_request 64 10 0 0 request (empty_world None None 2 true false) after_request
        (or_introl eq_refl) _ eq_refl _ eq_refl _); [by repeat split|by split|vm_compute; reflexivity].
    + refine (step_escalate 64 7 1 (mkWorld after_request _ _) after_escalation _ _ _ _); [by split|]. vm_compute. reflexivity.
  - destruct (Hresp 50 5 0 1 (sample true 7 0 1) [] [] (or_introl eq_refl) eq_refl) as [c E].
    exists c. split; [exact E|exact (co_rtotal _ _ _ _ (ac_consistent _ _ _ _ H))].
Defined.
End Life.
