(* ===== verification/QoSTurn.v ===== *)
(** The direction of the bus: [TurnaroundPolicyIdeal::selectBusState],
    [MemCtrl::selectNextBusState], [recordTurnaroundStats]. *)
From S2P Require Import Prelude Packet QoSPolicy QoS.
Import QoS.

Module Turn.

(** The direction a non-empty priority asks for. *)
Definition wanted (cur : BusState) (r w : Z) : BusState :=
  if r =? 0 then WRITE else if w =? 0 then READ else opposite cur.
(** Priority [i] has packets and no priority in [i + 1 .. n - 1] has. *)
Definition highest (s : t) (n i r w : Z) : Prop :=
  0 <= i < n /\ readQueueSizes s !! i = Some r /\ writeQueueSizes s !! i = Some w /\ ~ (r = 0 /\ w = 0) /\
  forall j, i < j < n -> readQueueSizes s !! j = Some 0 /\ writeQueueSizes s !! j = Some 0.
Definition all_empty (s : t) (n : Z) : Prop :=
  forall j, 0 <= j < n -> readQueueSizes s !! j = Some 0 /\ writeQueueSizes s !! j = Some 0.
Definition sized (s : t) : Prop :=
  0 <= numPriorities s /\ zlen (readQueueSizes s) = numPriorities s /\ zlen (writeQueueSizes s) = numPriorities s.

Lemma ideal_from_ok s (n : nat) : Z.of_nat n <= zlen (readQueueSizes s) -> Z.of_nat n <= zlen (writeQueueSizes s) ->
  (all_empty s (Z.of_nat n) /\ ideal_from s n = Ok (busState s)) \/
  (exists i r w, highest s (Z.of_nat n) i r w /\ ideal_from s n = Ok (wanted (busState s) r w)).
Proof.
  induction n as [|n IH]; intros Hr Hw.
  - left. split; [|done]. intros j Hj. lia.
  - destruct (zlookup_is_Some (readQueueSizes s) (Z.of_nat n)) as [r Er]; [lia|].
    destruct (zlookup_is_Some (writeQueueSizes s) (Z.of_nat n)) as [w Ew]; [lia|].
    assert (ideal_from s (Datatypes.S n) = if (r =? 0) && (w =? 0) then ideal_from s n else Ok (wanted (busState s) r w)) as ->.
    { cbn [ideal_from]. unfold aread. rewrite Er, Ew. cbn [mbind result_bind]. unfold wanted.
      destruct (Z.eqb_spec r 0), (Z.eqb_spec w 0); done. }
    destruct (Z.eqb_spec r 0) as [->|], (Z.eqb_spec w 0) as [->|]; cbn [andb];
      try (right; exists (Z.of_nat n); eexists _, _; split; [|reflexivity]; split; [lia|]; split; [done|]; split; [done|];
           split; [lia|]; intros j Hj; lia).
    destruct IH as [[He E]|(i & r & w & (Hi & H1 & H2 & H3 & H4) & E)]; [lia|lia| |]; rewrite E.
    + left. split; [|done]. intros j Hj. destruct (decide (j = Z.of_nat n)) as [->|]; [done|apply He; lia].
    + right. exists i, r, w. split; [|done]. split; [lia|]. split; [done|]. split; [done|]. split; [done|].
      intros j Hj. destruct (decide (j = Z.of_nat n)) as [->|]; [done|apply H4; lia].
Qed.

Lemma all_empty_sum s : sized s -> all_empty s (numPriorities s) ->
  lsum (fun x => x) (readQueueSizes s) = 0 /\ lsum (fun x => x) (writeQueueSizes s) = 0.
Proof.
  intros (Hn & Hr & Hw) He. assert (forall l : list Z, (forall (i : Z) x, l !! i = Some x -> x = 0) -> lsum (fun x => x) l = 0) as Hs.
  { induction l as [|x l IH]; intros H; [done|]. cbn. rewrite (H 0 x eq_refl), IH; [done|].
    intros i y Hy. pose proof (zlookup_lt _ _ _ Hy). apply (H (i + 1)). by rewrite zlookup_cons_succ by lia. }
  split; apply Hs; intros i x Hx; pose proof (zlookup_lt _ _ _ Hx); destruct (He i) as [E1 E2]; try lia; congruence.
Qed.

(** The ideal turnaround policy serves the highest priority that has packets, in the
    direction they go and, when they go both ways, in the one the bus did not go last;
    with nothing to serve the bus keeps its direction. *)
Theorem selectBusState_ideal s : sized s ->
  (exists i r w, highest s (numPriorities s) i r w /\ selectBusState s = Ok (wanted (busState s) r w)) \/
  (lsum (fun x => x) (readQueueSizes s) = 0 /\ lsum (fun x => x) (writeQueueSizes s) = 0 /\
   selectBusState s = Ok (busState s)).
Proof.
  intros Hs. pose proof Hs as (Hn & Hr & Hw). unfold selectBusState.
  destruct (ideal_from_ok s (Z.to_nat (numPriorities s))) as [[He E]|H]; rewrite ?Z2Nat.id in * by lia; [lia|lia| |by left].
  right. destruct (all_empty_sum s Hs He). done.
Qed.
(** Three reads and a write at priority 0, two reads and four writes at priority 1. *)
Definition both_ways : t := (create None (Some Ideal) 2 false false) <| readQueueSizes := [3; 2] |> <| writeQueueSizes := [1; 4] |>.
Definition turning : t := (create None None 1 false false) <| busStateNext := WRITE |>.
Lemma selectBusState_ideal_witness :
  (exists i r w, highest both_ways 2 i r w /\
     Ok WRITE = Ok (wanted READ r w)) \/ (3 + (2 + 0) = 0 /\ 1 + (4 + 0) = 0 /\ Ok WRITE = Ok READ).
Proof.
  exact (selectBusState_ideal both_ways
    (conj (Zle_bool_imp_le 0 2 eq_refl) (conj eq_refl eq_refl))).
Defined.

(** A turn of the bus is counted under the name of the opposite turn:
    [numWriteReadTurnArounds], the "number of turnarounds from WRITE to READ", counts
    those from read to write, and [numReadWriteTurnArounds] those from write to read. *)
Theorem turnarounds_swapped s : busState s <> busStateNext s ->
  exists st, recordTurnaroundStats s = Ok (tt, s <| stats := st |>) /\
  (busState s = READ -> numWriteReadTurnArounds st = numWriteReadTurnArounds (stats s) + 1 /\
                        numReadWriteTurnArounds st = numReadWriteTurnArounds (stats s)) /\
  (busState s = WRITE -> numReadWriteTurnArounds st = numReadWriteTurnArounds (stats s) + 1 /\
                         numWriteReadTurnArounds st = numWriteReadTurnArounds (stats s)).
Proof.
  intros Hne. exists (count_turnaround (busStateNext s) (busState s) (stats s)).
  split; [by destruct s|]. destruct (busState s), (busStateNext s); cbn; done.
Qed.
Lemma turnarounds_swapped_witness :
  exists st, recordTurnaroundStats turning =
    Ok (tt, turning <| stats := st |>) /\
    numWriteReadTurnArounds st = 1.
Proof.
  destruct (turnarounds_swapped turning ltac:(done))
    as (st & E & H & _).
  exists st. split; [exact E|exact (proj1 (H eq_refl))].
Defined.
End Turn.
