(* ===== verification/MemSink.v ===== *)
(** The QoS memory sink ([mem/qos/mem_sink.cc], [mem_sink.hh]) and the queue policies
    that choose within one priority ([q_policy.cc], [q_policy.hh]). *)
From S2P Require Import Prelude Packet QoSPolicy QoS.
Import QoS.

(** What the sink relies on of its medium ([QoSMemSinkInterface]): an access changes
    the contents of the packet and may turn it into a response. *)
Class Medium := {
  access : Packet -> Packet;
  access_read p : pkt_read (access p) = pkt_read p;
  access_requestor p : pkt_requestorId (access p) = pkt_requestorId p;
  access_qos p : pkt_qosValue (access p) = pkt_qosValue p;
  access_addr p : pkt_addr (access p) = pkt_addr p }.

(** [AbstractMemory::access] of a read or a write on a memory without backing store. *)
Definition null_access (p : Packet) : Packet :=
  if cacheResponding p then p else if pkt_needsResponse p then p <| pkt_isResponse := true |> else p.
#[global] Program Instance null_memory : Medium := {| access := null_access |}.
Solve Obligations with (intros p; unfold null_access; by destruct (cacheResponding p), (pkt_needsResponse p)).

Module MemSink.

(** ** The queue policies *)

Inductive QueuePolicy := Lifo | Fifo | Lrg (toServe : list Z).

(** [QoSQPolicy]; [None] stands for any other value. *)
Inductive QoSQPolicy := q_fifo | q_lrg | q_lifo.
Definition create_policy (p : option QoSQPolicy) : QueuePolicy :=
  match p with Some q_fifo => Fifo | Some q_lrg => Lrg [] | Some q_lifo | None => Lifo end.

Definition enqueuePacket (known : Z -> bool) (p : Packet) (qp : QueuePolicy) : QueuePolicy :=
  match qp with
  | Lrg toServe => if negb (known (pkt_requestorId p)) then Lrg (toServe ++ [pkt_requestorId p]) else qp
  | _ => qp
  end.

(** The pass over the queue: the packet of the requestor to serve, or the first packet
    of every requestor. *)
Fixpoint lrg_scan (known : Z -> bool) (toServe : list Z) (track : gmap Z Z) (i : Z) (q : list Packet)
    : result (Z * list Z + gmap Z Z) :=
  match q with
  | [] => Ok (inr track)
  | p :: q' =>
      let requestor_id := pkt_requestorId p in
      if known requestor_id then Fault Panic else
      if 0 <? zlen toServe then Fault Panic else
      match toServe with
      | [] => Fault OutOfBounds
      | front :: rest =>
          if front =? requestor_id then Ok (inl (i, rest ++ [requestor_id]))
          else lrg_scan known toServe (match track !! requestor_id with None => <[requestor_id := i]> track | Some _ => track end)
                 (i + 1) q'
      end
  end.
Fixpoint lrg_first (track : gmap Z Z) (l : list Z) (other : Z) : Z :=
  match l with [] => other | id :: l' => match track !! id with Some i => i | None => lrg_first track l' other end end.

(** The index of the packet chosen; the length of the queue is [end()]. *)
Definition selectPacket (known : Z -> bool) (q : list Packet) (qp : QueuePolicy) : result (Z * QueuePolicy) :=
  match qp with
  | Lifo => Ok (zlen q, qp)
  | Fifo => Ok (0, qp)
  | Lrg toServe =>
      r ← lrg_scan known toServe ∅ 0 q;
      match r with
      | inl (i, l) => Ok (i, Lrg l)
      | inr track => Ok (lrg_first track toServe (zlen q), qp)
      end
  end.

(** ** The controller *)

(** [sent] are the responses handed to the port with the tick they leave at; [retries]
    counts the retries sent. *)
Record t := mkSink {
  base : QoS.t; queuePolicy : QueuePolicy;
  requestLatency : Z; responseLatency : Z; memoryPacketSize : Z; readBufferSize : Z; writeBufferSize : Z;
  retryRdReq : bool; retryWrReq : bool; nextRequest : Z; numReadRetries : Z; numWriteRetries : Z;
  readQueue : list (list Packet); writeQueue : list (list Packet); nextReqEvent : event;
  sent : list (Packet * Z); retries : Z }.
#[global] Instance eta_t : Settable t := fun r =>
  mkSink (base r) (queuePolicy r) (requestLatency r) (responseLatency r) (memoryPacketSize r) (readBufferSize r)
    (writeBufferSize r) (retryRdReq r) (retryWrReq r) (nextRequest r) (numReadRetries r) (numWriteRetries r)
    (readQueue r) (writeQueue r) (nextReqEvent r) (sent r) (retries r).

Definition create (base : QoS.t) (qp : option QoSQPolicy) (requestLatency responseLatency memoryPacketSize
    readBufferSize writeBufferSize : Z) : t :=
  mkSink base (create_policy qp) requestLatency responseLatency memoryPacketSize readBufferSize writeBufferSize
    false false 0 0 0 (calloc (numPriorities base) []) (calloc (numPriorities base) []) None [] 0.

Definition readQueueFull (packets : Z) (s : t) : bool := readBufferSize s <? u64 (totalReadQueueSize (base s) + packets).
Definition writeQueueFull (packets : Z) (s : t) : bool := writeBufferSize s <? u64 (totalWriteQueueSize (base s) + packets).

Definition on_base {B} (m : comp QoS.t B) : comp t B := zoom base (fun c s => s <| base := c |>) m.
Definition on_queues {B} (m : comp (qq Packet) B) : comp t B :=
  zoom (fun s => mkQQ (base s) [readQueue s; writeQueue s])
    (fun q s => match queues q with
                | [r; w] => s <| base := ctl q |> <| readQueue := r |> <| writeQueue := w |>
                | _ => s end) m.

Section Code.
Context `{!StdLib, !Medium} (now : Z).

Definition recvAtomic (p : Packet) (s : t) : result (Packet * Z) :=
  if cacheResponding p then Fault Panic else Ok (access p, responseLatency s).

(** [queue.at(prio).push_back(pkt)] and the hook of the queue policy. *)
Definition enqueue_read (prio : Z) (p : Packet) : comp t unit :=
  s ← get;
  q ← lift (aread (readQueue s) prio); v ← lift (awrite (readQueue s) prio (q ++ [p]));
  modify (fun s => s <| readQueue := v |> <| queuePolicy ::= enqueuePacket (fun id => hasRequestor id (base s)) p |>).
Definition enqueue_write (prio : Z) (p : Packet) : comp t unit :=
  s ← get;
  q ← lift (aread (writeQueue s) prio); v ← lift (awrite (writeQueue s) prio (q ++ [p]));
  modify (fun s => s <| writeQueue := v |> <| queuePolicy ::= enqueuePacket (fun id => hasRequestor id (base s)) p |>).
Definition accept (prio required_entries : Z) (p : Packet) : comp t bool :=
  s ← get;
  if pkt_read p then
    if readQueueFull required_entries s
    then modify (fun s => s <| retryRdReq := true |> <| numReadRetries ::= Z.succ |>);; mret false
    else enqueue_read prio p;; mret true
  else
    if writeQueueFull required_entries s
    then modify (fun s => s <| retryWrReq := true |> <| numWriteRetries ::= Z.succ |>);; mret false
    else enqueue_write prio p;; mret true.
(** [if (!nextReqEvent.scheduled()) schedule(nextReqEvent, when)] *)
Definition schedule_next (when : Z) : comp t unit :=
  s ← get;
  when_ (negb (scheduled (nextReqEvent s))) (
    e ← lift (Packet.schedule now (nextReqEvent s) when);
    modify (fun s => s <| nextReqEvent := e |>)).

Definition recvTimingReq (p : Packet) : comp t bool :=
  if negb (pkt_read p || pkt_write p) then lift (Fault Panic) else
  if cacheResponding p then lift (Fault Panic) else
  s ← get;
  required_entries ← lift (divCeil (pkt_size p) (memoryPacketSize s));
  assert_ (negb (required_entries =? 0));;
  '(pkt_priority, p) ← on_queues (qosSchedule now (memoryPacketSize s) p);
  req_accepted ← accept pkt_priority required_entries p;
  when_ req_accepted (on_base (logRequest now (if pkt_read p then READ else WRITE) (pkt_requestorId p)
    (pkt_qosValue p) (pkt_addr p) required_entries));;
  s ← get;
  schedule_next (Z.max now (nextRequest s));;
  mret req_accepted.

(** The packet to serve, from the queues of one direction: priority [n - 1] first. *)
Fixpoint pick (v : list (list Packet)) (n : nat) : comp t (option (Packet * list (list Packet))) :=
  match n with
  | O => mret None
  | S n' =>
      queue ← lift (aread v (Z.of_nat n'));
      match queue with
      | [] => pick v n'
      | _ =>
          s ← get;
          '(p_it, qp) ← lift (selectPacket (fun id => hasRequestor id (base s)) queue (queuePolicy s));
          pkt ← lift (aread queue p_it);
          v' ← lift (awrite v (Z.of_nat n') (take (Z.to_nat p_it) queue ++ drop (S (Z.to_nat p_it)) queue));
          modify (fun s => s <| queuePolicy := qp |>);;
          mret (Some (pkt, v'))
      end
  end.

(** The requestor, told to retry, sends packets until one is refused. *)
Fixpoint retry (offers : list Packet) : comp t unit :=
  match offers with
  | [] => mret tt
  | p :: offers' => accepted ← recvTimingReq p; if (accepted : bool) then retry offers' else mret tt
  end.
Definition sendRetryReq (offers : list Packet) : comp t unit :=
  modify (fun s => s <| retries ::= Z.succ |>);; retry offers.

(** The bus turns, and a packet leaves the queues of its direction. *)
Definition turn_bus : comp t BusState := on_base (
  c ← get;
  next ← lift (selectNextBusState c);
  modify (fun c => c <| busStateNext := next |>);;
  recordTurnaroundStats;;
  setCurrentBusState;;
  gets busState).
Definition take_packet (dir : BusState) : comp t Packet :=
  s ← get;
  let queue_ptr := match dir with READ => readQueue s | WRITE => writeQueue s end in
  r ← pick queue_ptr (length queue_ptr);
  match r with
  | None => lift (Fault AssertFail)
  | Some (pkt, v) =>
      modify (fun s => match dir with READ => s <| readQueue := v |> | WRITE => s <| writeQueue := v |> end);;
      mret pkt
  end.

(** [offers] are the packets of the requestor, if this event tells it to retry.  The
    event queue has taken the event off before it runs it. *)
Definition processNextReqEvent (offers : list Packet) : comp t unit :=
  modify (fun s => s <| nextReqEvent := None |>);;
  dir ← turn_bus;
  pkt ← take_packet dir;
  modify (fun s => s <| nextRequest := tadd now (requestLatency s) |>);;
  s ← get;
  removed_entries ← lift (divCeil (pkt_size pkt) (memoryPacketSize s));
  if negb (pkt_needsResponse pkt) then lift (Fault Panic) else
  let pkt := access pkt in
  on_base (logResponse now (if pkt_read pkt then READ else WRITE) (pkt_requestorId pkt) (pkt_qosValue pkt)
    (pkt_addr pkt) removed_entries (responseLatency s));;
  modify (fun s => s <| sent ::= fun l => l ++ [(pkt, tadd now (responseLatency s))] |>);;
  (if bool_decide (dir = READ) && retryRdReq s
   then modify (fun s => s <| retryRdReq := false |>);; sendRetryReq offers
   else when_ (bool_decide (dir = WRITE) && retryWrReq s)
          (modify (fun s => s <| retryWrReq := false |>);; sendRetryReq offers));;
  s ← get;
  when_ (negb (totalReadQueueSize (base s) =? 0) || negb (totalWriteQueueSize (base s) =? 0))
    (schedule_next (tadd now (requestLatency s))).

(** [DrainState::Drained]. *)
Definition drain (s : t) : bool := (totalReadQueueSize (base s) =? 0) && (totalWriteQueueSize (base s) =? 0).
End Code.
End MemSink.
