(* ===== verification/MemMedium.v ===== *)
(** The simulated memory is a medium of the controllers: an access keeps what the class
    [Medium] promises them of a packet. *)
From S2P Require Import Prelude Flags Packet MemCmd Request PacketData AbstractMem AbstractMemSpec MemSink.
Open Scope Z_scope.

Module MemMedium.

(** The packet of a controller, as it sees the packet of the system. *)
Definition seen (header payload : Z) (p : Pkt.t) : Packet :=
  mkPacket (MemCmd.isRead (Pkt.cmd p)) (MemCmd.isWrite (Pkt.cmd p)) (MemCmd.hasData (Pkt.cmd p)) (Pkt.addr p) (Pkt.size p)
    (Request.reqId (Pkt.req p)) (Pkt.qosValue p) (MemCmd.needsResponse (Pkt.cmd p)) (MemCmd.isResponse (Pkt.cmd p))
    (Pkt.cacheResponding p) header payload.

Lemma response_read c : MemCmd.needsResponse c = true -> MemCmd.isRead (MemCmd.responseCommand c) = MemCmd.isRead c.
Proof. by destruct c. Qed.
Lemma respond_keeps h d p : let q := seen h d (MemSpec.respond p) in
  pkt_read q = pkt_read (seen h d p) /\ pkt_requestorId q = pkt_requestorId (seen h d p) /\
  pkt_qosValue q = pkt_qosValue (seen h d p) /\ pkt_addr q = pkt_addr (seen h d p) /\
  (pkt_needsResponse (seen h d p) = true -> pkt_isResponse q = true).
Proof.
  unfold MemSpec.respond, seen. destruct (MemCmd.needsResponse (Pkt.cmd p)) eqn:E; cbn; [|done].
  split; [by apply response_read|]. split_and!; try done. intros _. by apply MemCmd.response_needed.
Qed.
Lemma serve_keeps h d p a : seen h d (MemSpec.serve_pkt p a).1 = seen h d p.
Proof.
  unfold MemSpec.serve_pkt. destruct (bool_decide _); [done|]. destruct (MemCmd.isRead _); [done|]. destruct (_ || _); [done|].
  by destruct (MemCmd.isLLSC _).
Qed.

(** The laws of [Medium], of the access of a legal packet; one that needs a response and is
    not left to a cache becomes one. *)
Lemma memory_medium r s a p h d : MemSpec.implements r s a -> MemSpec.ignored p = true \/ MemSpec.legal r p ->
  exists p' s', AbstractMemory.access p s = Ok (p', s') /\
    pkt_read (seen h d p') = pkt_read (seen h d p) /\ pkt_requestorId (seen h d p') = pkt_requestorId (seen h d p) /\
    pkt_qosValue (seen h d p') = pkt_qosValue (seen h d p) /\ pkt_addr (seen h d p') = pkt_addr (seen h d p) /\
    (MemSpec.ignored p = false -> pkt_needsResponse (seen h d p) = true -> pkt_isResponse (seen h d p') = true).
Proof.
  intros H Hp. destruct (wp_inv _ _ _ (MemSpec.mem_access_wp r p s a H Hp)) as (p' & s' & E & -> & _). eexists _, s'. split; [exact E|].
  unfold MemSpec.access_spec. destruct (MemSpec.ignored p); [done|]. pose proof (serve_keeps h d p a) as Hs.
  destruct (MemSpec.serve_pkt p a) as [q a']. cbn [fst] in Hs |- *. pose proof (respond_keeps h d q) as Hr. rewrite Hs in Hr. cbn zeta in Hr.
  destruct Hr as (R1 & R2 & R3 & R4 & R5). split_and!; try done.
Qed.
End MemMedium.
