(* ===== verification/MemSinkSafe.v ===== *)
(** What the QoS memory sink promises, with the first-in first-out policy and no
    escalation: it refines one list of waiting packets that is served by direction,
    priority and order of arrival, and it drains.  The other queue policies fail. *)
From S2P Require Import Prelude Packet QoSPolicy QoS QoSEscalate QoSAccount QoSSchedule QoSTurn MemSink.
Import QoS Escalate Account Schedule MemSink.

Module SinkSafe.
#[local] Arguments vol : simpl never.
#[local] Arguments entries : simpl never.

(** ** The abstract sink *)

(** The packets of a direction and priority, in order of arrival. *)
Definition at_dir (rd : bool) (j : Z) (p : Packet) : bool := eqb (pkt_read p) rd && (pkt_qosValue p =? j).
Definition split_queues (n : Z) (rd : bool) (w : list Packet) : list (list Packet) :=
  (fun j => List.filter (at_dir rd j) w) <$> seqZ 0 n.
Definition rd_of (d : BusState) : bool := bool_decide (d = READ).

(** [p] is the oldest of the packets of direction [d] with the highest priority; [w']
    is what waits without it. *)
Definition serves (d : BusState) (w : list Packet) (p : Packet) (w' : list Packet) : Prop :=
  exists w1 w2, w = w1 ++ p :: w2 /\ w' = w1 ++ w2 /\ pkt_read p = rd_of d /\
    (forall q, In q w1 -> pkt_read q = rd_of d -> pkt_qosValue q < pkt_qosValue p) /\
    (forall q, In q w2 -> pkt_read q = rd_of d -> pkt_qosValue q <= pkt_qosValue p).
(** The entries that wait in a direction. *)
Definition load (es : Z) (rd : bool) (w : list Packet) : Z :=
  lsum (entries es) (List.filter (fun p => eqb (pkt_read p) rd) w).

Lemma split_lookup n rd w (j : Z) : 0 <= j < n -> split_queues n rd w !! j = Some (List.filter (at_dir rd j) w).
Proof.
  intros Hj. unfold split_queues. rewrite zlookup_fmap. unfold lookup, zlist_lookup. destruct (Z.ltb_spec j 0); [lia|].
  rewrite (lookup_seqZ_lt 0 n) by lia. cbn. by rewrite Z2Nat.id by lia.
Qed.
Lemma zlen_split n rd w : 0 <= n -> zlen (split_queues n rd w) = n.
Proof. intros Hn. unfold split_queues, zlen. rewrite length_fmap, length_seqZ. lia. Qed.
Lemma split_ext n rd w v : 0 <= n -> zlen v = n ->
  (forall j : Z, 0 <= j < n -> v !! j = Some (List.filter (at_dir rd j) w)) -> v = split_queues n rd w.
Proof.
  intros Hn Hv H. apply list_eq. intros i. destruct (decide (Z.of_nat i < n)).
  - rewrite <- !zlookup_nat, split_lookup, H by lia. done.
  - rewrite !lookup_ge_None_2; [done| |]; pose proof (zlen_split n rd w Hn); unfold zlen in *; lia.
Qed.

Lemma split_push n rd w p : 0 <= pkt_qosValue p < n ->
  split_queues n rd (w ++ [p]) =
  if eqb (pkt_read p) rd then alter (fun q => q ++ [p]) (Z.to_nat (pkt_qosValue p)) (split_queues n rd w)
  else split_queues n rd w.
Proof.
  intros Hp. symmetry. apply split_ext; [lia|destruct (eqb _ _); rewrite ?zlen_alter, zlen_split; lia|].
  intros j Hj. rewrite List.filter_app. unfold at_dir at 2. cbn. destruct (eqb (pkt_read p) rd); cbn [andb].
  - destruct (Z.eqb_spec (pkt_qosValue p) j) as [->|Hne].
    + by rewrite zlookup_alter, split_lookup by lia.
    + by rewrite zlookup_alter_ne, split_lookup, app_nil_r by lia.
  - by rewrite split_lookup, app_nil_r.
Qed.
Lemma filter_nil {A} (f : A -> bool) l x : List.filter f l = [] -> In x l -> f x = false.
Proof.
  intros H Hx. destruct (f x) eqn:E; [|done]. assert (In x (List.filter f l)) as Hf by by apply filter_In. by rewrite H in Hf.
Qed.
Lemma filter_head {A} (f : A -> bool) w p q : List.filter f w = p :: q ->
  exists w1 w2, w = w1 ++ p :: w2 /\ List.filter f w1 = [] /\ List.filter f w2 = q /\ f p = true.
Proof.
  induction w as [|x w IH]; cbn; [done|]. destruct (f x) eqn:E.
  - intros [= -> <-]. by exists [], w.
  - intros (w1 & w2 & -> & H1 & H2 & H3)%IH. exists (x :: w1), w2. cbn. by rewrite E.
Qed.
Lemma split_take n rd w1 p w2 q : 0 <= pkt_qosValue p < n -> pkt_read p = rd ->
  List.filter (at_dir rd (pkt_qosValue p)) (w1 ++ p :: w2) = p :: q -> List.filter (at_dir rd (pkt_qosValue p)) w1 = [] ->
  split_queues n rd (w1 ++ w2) = alter (fun _ => q) (Z.to_nat (pkt_qosValue p)) (split_queues n rd (w1 ++ p :: w2)).
Proof.
  intros Hp Hrd Hq Hw1. symmetry. apply split_ext; [lia|by rewrite zlen_alter, zlen_split by lia|]. intros j Hj.
  rewrite !List.filter_app in *. rewrite Hw1 in Hq. cbn [app List.filter] in *.
  assert (at_dir rd (pkt_qosValue p) p = true) as Ep by (unfold at_dir; by rewrite Hrd, eqb_reflx, Z.eqb_refl).
  rewrite Ep in Hq. injection Hq as Hq. destruct (decide (j = pkt_qosValue p)) as [->|Hne].
  - rewrite zlookup_alter, split_lookup by lia. cbn. by rewrite Hw1, Hq.
  - rewrite zlookup_alter_ne, split_lookup by lia. rewrite List.filter_app. cbn. unfold at_dir at 2.
    apply not_eq_sym, Z.eqb_neq in Hne. by rewrite Hne, andb_false_r.
Qed.
Lemma split_other n rd w1 p w2 : 0 <= n -> pkt_read p <> rd ->
  split_queues n rd (w1 ++ w2) = split_queues n rd (w1 ++ p :: w2).
Proof.
  intros Hn Hp. apply split_ext; [lia|by apply zlen_split|]. intros j Hj. rewrite split_lookup, !List.filter_app by done.
  cbn. unfold at_dir at 4. destruct (eqb_spec (pkt_read p) rd); [done|]. done.
Qed.

(** ** Scheduling *)

Section Schedule.
Context `{!StdLib}.

Lemma synchronise_wp es me ids n c v : 0 < n <= 256 -> policy_ok n (policy c) -> zlen (serviceTick c) = n ->
  qosPriorityEscalation c = false ->
  wp (synchronise es me ids) (mkQQ c v) (fun _ (s : qq Packet) => queues s = v /\ rescheduled n c (ctl s)).
Proof using.
  intros Hn. revert c. induction ids as [|id ids IH]; intros c Hp Hs He; cbn [synchronise].
  { apply wp_ret. split; [done|]. by apply rescheduled_refl. }
  wp_step. apply wp_when; intros Hid.
  - wp_step. unfold on_ctl. wp_step. eapply wp_mono; [by apply (schedule_wp n)|]. intros prio c' [_ Hr]. cbn beta. cbn [ctl] in Hr.
    pose proof (rescheduled_ok _ _ _ Hr) as (Hp' & Hs' & _ & He'). wp_step. wp_step.
    change ((mkQQ c v) <| ctl := c' |>) with (mkQQ c' v). cbn [ctl]. rewrite He', He. cbn [when_]. wp_step.
    eapply wp_mono; [apply (IH c'); congruence|]. intros [] s [Hv Hr']. split; [done|]. by eapply rescheduled_trans.
  - by apply IH.
Qed.

Lemma qosSchedule_wp now es p n c (v : list (list (list Packet))) : 0 < n <= 256 -> policy_ok n (policy c) -> zlen (serviceTick c) = n ->
  numPriorities c = n -> qosPriorityEscalation c = false -> (policy c = None -> 0 <= pkt_qosValue p < n) ->
  wp (qosSchedule now es p) (mkQQ c v) (fun r (s : qq Packet) => exists prio, r = (prio, p <| pkt_qosValue := prio |>) /\
    0 <= prio < n /\ queues s = v /\ rescheduled n c (ctl s)).
Proof using.
  intros Hn Hp Hs Hnp He H0. unfold qosSchedule. wp_step. unfold on_ctl. wp_step.
  eapply wp_mono; [by apply (schedule_pkt_wp n)|]. intros prio c1 [Hprio Hr]. cbn beta. cbn [ctl] in Hr.
  pose proof (rescheduled_ok _ _ _ Hr) as (Hp1 & Hs1 & Hn1 & He1). wp_step. wp_step.
  change (ctl ((mkQQ c v) <| ctl := c1 |>)) with c1. wp_step. apply wp_assert; [apply Z.ltb_lt; lia|]. wp_step. wp_step.
  change (ctl ((mkQQ c v) <| ctl := c1 |>)) with c1. wp_step.
  apply wp_mono with (P := fun _ s => queues s = v /\ rescheduled n c (ctl s)).
  { apply wp_when; intros _; [|done]. change ((mkQQ c v) <| ctl := c1 |>) with (mkQQ c1 v).
    eapply wp_mono; [apply (synchronise_wp _ _ _ n); congruence|]. intros [] s [Hv Hr']. split; [done|]. by eapply rescheduled_trans. }
  intros [] s [Hv Hr']. pose proof (rescheduled_ok _ _ _ Hr') as (Hp2 & Hs2 & Hn2 & He2). wp_step.
  change (ctl ((mkQQ c v) <| ctl := c1 |>)) with c1. rewrite He1, He. cbn [when_]. wp_step.
  wp_step. wp_step. wp_step. wp_step. apply rp_awrite; [lia|]. wp_step. wp_step. wp_step. wp_step.
  exists prio. split; [done|]. split; [done|]. split; [done|]. eapply rescheduled_trans; [exact Hr'|].
  exists (policy (ctl s)), (<[prio := now]> (serviceTick (ctl s))). split; [by destruct s as [[]]|].
  split; [done|]. by rewrite zlen_insert.
Qed.
End Schedule.

(** ** The direction served has packets *)

Lemma lsum_nonzero {B} (f : B -> Z) (l : list B) : lsum f l <> 0 -> exists (i : Z) x, l !! i = Some x /\ f x <> 0.
Proof.
  induction l as [|x l IH]; cbn; [done|]. intros H. destruct (decide (f x = 0)) as [E|E].
  - destruct IH as (i & y & Hi & Hy); [lia|]. exists (i + 1), y. pose proof (zlookup_lt _ _ _ Hi).
    by rewrite zlookup_cons_succ by lia.
  - by exists 0, x.
Qed.
Definition queue_ptr (d : BusState) (rq wq : list (list Packet)) : list (list Packet) :=
  match d with READ => rq | WRITE => wq end.
Definition busy (d : BusState) (rq wq : list (list Packet)) : Prop :=
  exists (j : Z) q, queue_ptr d rq wq !! j = Some q /\ q <> [].

Lemma selectNextBusState_busy es c rq wq : consistent es c rq wq -> lsum (vol es) rq + lsum (vol es) wq <> 0 ->
  0 <= numPriorities c -> exists d, selectNextBusState c = Ok d /\ busy d rq wq.
Proof.
  intros [] Hne Hn.
  assert (forall q : list Packet, vol es q <> 0 -> q <> []) as Hv by (intros q Hq ->; by apply Hq).
  assert (forall d, lsum (vol es) (queue_ptr d rq wq) <> 0 -> busy d rq wq) as Hb.
  { intros d (j & q & Hq & Hq0)%lsum_nonzero. exists j, q. auto. }
  pose proof (Hb READ) as HR. pose proof (Hb WRITE) as HW. cbn in HR, HW. unfold selectNextBusState.
  destruct (turnPolicy c) as [[]|].
  - pose proof (proj1 co_reads0) as Lr. pose proof (proj1 co_writes0) as Lw.
    destruct (Turn.ideal_from_ok c (Z.to_nat (numPriorities c)) ltac:(rewrite co_rsizes0, zlen_fmap; lia)
      ltac:(rewrite co_wsizes0, zlen_fmap; lia)) as [[He _]|(i & r & w & (_ & Er & Ew & Hrw & _) & E)].
    + exfalso. rewrite Z2Nat.id in He by done. destruct (Turn.all_empty_sum c) as [E1 E2]; [|done|].
      * split; [done|]. by rewrite co_rsizes0, co_wsizes0, !zlen_fmap.
      * rewrite co_rsizes0, lsum_fmap in E1. rewrite co_wsizes0, lsum_fmap in E2. lia.
    + exists (Turn.wanted (busState c) r w). split; [exact E|]. rewrite co_rsizes0, zlookup_fmap in Er.
      rewrite co_wsizes0, zlookup_fmap in Ew. apply fmap_Some in Er as (q & Hq & ->). apply fmap_Some in Ew as (q' & Hq' & ->).
      unfold Turn.wanted. destruct (Z.eqb_spec (vol es q) 0), (Z.eqb_spec (vol es q') 0).
      * by exfalso; apply Hrw.
      * exists i, q'. auto.
      * exists i, q. auto.
      * destruct (busState c); [exists i, q'|exists i, q]; auto.
  - rewrite co_rtotal0, co_wtotal0. destruct (Z.eqb_spec (lsum (vol es) rq) 0) as [Er|], (Z.eqb_spec (lsum (vol es) wq) 0) as [Ew|];
      [lia|..]; destruct (busState c); cbn; eexists; (split; [reflexivity|]); auto.
Qed.

(** What turning the bus changes. *)
Definition turned (d : BusState) (c c' : QoS.t) : Prop := exists st,
  c' = c <| busStateNext := d |> <| stats := st |> <| busState := d |>.
Lemma turn_bus_wp es (s : MemSink.t) : consistent es (base s) (readQueue s) (writeQueue s) ->
  lsum (vol es) (readQueue s) + lsum (vol es) (writeQueue s) <> 0 -> 0 <= numPriorities (base s) ->
  wp turn_bus s (fun d s' => busy d (readQueue s) (writeQueue s) /\ exists c, turned d (base s) c /\ s' = s <| base := c |>).
Proof.
  intros Hc Hne Hn. destruct (selectNextBusState_busy es _ _ _ Hc Hne Hn) as (d & E & Hb).
  unfold turn_bus, on_base. wp_step. wp_step. wp_step. wp_step. wp_step. rewrite E. wp_step. wp_step. wp_step. wp_step.
  unfold recordTurnaroundStats. wp_step. wp_step. unfold setCurrentBusState. wp_step. wp_step.
  split; [done|]. eexists. split; [|reflexivity]. exists (count_turnaround d (busState (base s)) (stats (base s))). by destruct (base s).
Qed.

(** ** Taking a packet *)

Lemma pick_wp (v : list (list Packet)) (n : nat) (s : MemSink.t) (j : Z) p q : Z.of_nat n <= zlen v -> queuePolicy s = Fifo ->
  0 <= j < Z.of_nat n -> v !! j = Some (p :: q) -> (forall i, j < i < Z.of_nat n -> v !! i = Some []) ->
  wp (pick v n) s (fun r s' => s' = s /\ r = Some (p, alter (fun _ => q) (Z.to_nat j) v)).
Proof.
  intros Hn Hp Hj Hq Hhi. induction n as [|n IH]; [lia|]. cbn [pick]. wp_steps.
  destruct (decide (j = Z.of_nat n)) as [->|Hne].
  - unfold aread at 1. rewrite Hq. wp_steps. rewrite Hp. cbn [selectPacket]. wp_steps.
    change (aread (p :: q) 0) with (Ok p). wp_steps. change (take (Z.to_nat 0) (p :: q) ++ drop (Datatypes.S (Z.to_nat 0)) (p :: q)) with q.
    rewrite (zalter_write (fun _ => q) _ _ _ Hq). wp_steps. split; [|done].
    destruct s; unfold over; cbn in *. congruence.
  - unfold aread. rewrite (Hhi (Z.of_nat n)) by lia. wp_step. apply IH; [lia|lia|]. intros i Hi. apply Hhi. lia.
Qed.
Lemma highest_queue (v : list (list Packet)) (n : nat) (j : Z) q : Z.of_nat n <= zlen v -> 0 <= j < Z.of_nat n ->
  v !! j = Some q -> q <> [] ->
  exists i p r, 0 <= i < Z.of_nat n /\ v !! i = Some (p :: r) /\ forall k, i < k < Z.of_nat n -> v !! k = Some [].
Proof.
  intros Hn Hj Hq Hne. induction n as [|n IH]; [lia|].
  destruct (zlookup_is_Some v (Z.of_nat n)) as [[|p r] Hr]; [lia|..].
  - destruct (decide (j = Z.of_nat n)) as [->|]; [congruence|]. destruct IH as (i & p & r & Hi & Hv & Hhi); [lia|lia|].
    exists i, p, r. split; [lia|]. split; [done|]. intros k Hk. destruct (decide (k = Z.of_nat n)) as [->|]; [done|apply Hhi; lia].
  - exists (Z.of_nat n), p, r. split; [lia|]. split; [done|]. lia.
Qed.

Lemma schedule_next_wp now when s : now <= when ->
  wp (schedule_next now when) s (fun _ s' => scheduled (nextReqEvent s') = true /\
    exists e, s' = s <| nextReqEvent := e |> /\ (nextReqEvent s = None -> e = Some when)).
Proof.
  intros Hw. unfold schedule_next. wp_step. wp_step. destruct (scheduled (nextReqEvent s)) eqn:E; cbn [negb when_].
  - wp_step. split; [done|]. exists (nextReqEvent s). split; [by destruct s|]. intros Hn. by rewrite Hn in E.
  - wp_steps. unfold Packet.schedule. rewrite E. destruct (Z.leb_spec now when); [|lia]. cbn. wp_steps.
    split; [done|]. by exists (Some when).
Qed.

(** ** The refinement relation *)

Record Config := mkConfig { c_rl : Z; c_pl : Z; c_es : Z; c_rb : Z; c_wb : Z; c_n : Z }.
Definition config_of (s : MemSink.t) : Config :=
  mkConfig (requestLatency s) (responseLatency s) (memoryPacketSize s) (readBufferSize s) (writeBufferSize s)
    (numPriorities (base s)).
Record config_ok (cfg : Config) : Prop := {
  ok_es : 0 < c_es cfg; ok_n : 0 < c_n cfg <= 256; ok_rb : 0 <= c_rb cfg < 2 ^ 62; ok_wb : 0 <= c_wb cfg < 2 ^ 62;
  ok_rl : 0 <= c_rl cfg }.

Section Refine.
Context {HS : StdLib} {HM : Medium} (cfg : Config).
Hypothesis Hcfg : config_ok cfg.
Let es := c_es cfg.
Let n := c_n cfg.

Definition buffer (rd : bool) : Z := if rd then c_rb cfg else c_wb cfg.
(** A request the sink can serve: a read or a write that wants a response and fits the
    buffer. *)
Definition legal (p : Packet) : Prop :=
  0 < pkt_size p /\ pkt_needsResponse p = true /\ cacheResponding p = false /\ pkt_read p || pkt_write p = true /\
  entries es p <= buffer (pkt_read p) /\ 0 <= pkt_qosValue p < n.

(** The sink [s] stands for the list [w] of waiting packets. *)
Record sound (s : MemSink.t) (w : list Packet) : Prop := {
  so_config : config_of s = cfg;
  so_accounts : accounts es (base s) (readQueue s) (writeQueue s);
  so_reads : readQueue s = split_queues n true w;
  so_writes : writeQueue s = split_queues n false w;
  so_legal : Forall legal w;
  so_load rd : load es rd w <= buffer rd;
  so_fifo : queuePolicy s = Fifo;
  so_esc : qosPriorityEscalation (base s) = false;
  so_policy : policy_ok n (policy (base s));
  so_ticks : zlen (serviceTick (base s)) = n }.
(** While packets wait, the next event is scheduled. *)
Definition armed (s : MemSink.t) (w : list Packet) : Prop := w <> [] -> scheduled (nextReqEvent s) = true.

Lemma load_split rd w : Forall legal w -> lsum (vol es) (split_queues n rd w) = load es rd w.
Proof using Hcfg.
  pose proof (ok_n _ Hcfg) as Hn. intros H. induction w as [|p w IH] using rev_ind.
  - assert (split_queues n rd [] = calloc n []) as ->.
    { symmetry. apply split_ext; [lia|by rewrite zlen_calloc by lia|]. intros j Hj. by apply zlookup_calloc_eq. }
    rewrite lsum_calloc by lia. change (n * 0 = 0). lia.
  - apply Forall_app in H as [Hw Hp]. inversion Hp as [|? ? (_ & _ & _ & _ & _ & Hq) _]; subst. specialize (IH Hw).
    rewrite split_push by done. unfold load in *. rewrite List.filter_app, lsum_app. cbn [List.filter].
    destruct (eqb (pkt_read p) rd); cbn [lsum]; [|lia].
    rewrite (lsum_alter_at _ _ _ _ _ (split_lookup n rd w _ Hq)), IH, vol_app. unfold vol at 3. cbn [lsum]. lia.
Qed.
Lemma load_pos rd w : Forall legal w -> 0 <= load es rd w.
Proof using Hcfg.
  intros H. apply (vol_nonneg es (ok_es _ Hcfg)), Forall_filter. eapply Forall_impl; [|exact H]. by intros p (? & _).
Qed.
Lemma load_app rd w w' : load es rd (w ++ w') = load es rd w + load es rd w'.
Proof using. unfold load. by rewrite List.filter_app, lsum_app. Qed.
Lemma load_one rd p : load es rd [p] = if eqb (pkt_read p) rd then entries es p else 0.
Proof using. unfold load. cbn. destruct (eqb (pkt_read p) rd); cbn; lia. Qed.

Lemma sound_totals s w : sound s w -> totalReadQueueSize (base s) = load es true w /\
  totalWriteQueueSize (base s) = load es false w /\ lsum (vol es) (readQueue s) = load es true w /\
  lsum (vol es) (writeQueue s) = load es false w.
Proof using Hcfg.
  intros Hs. pose proof (ac_consistent _ _ _ _ (so_accounts _ _ Hs)) as [].
  rewrite co_rtotal0, co_wtotal0, (so_reads _ _ Hs), (so_writes _ _ Hs), !load_split by apply Hs. done.
Qed.

(** The fields [sound] does not speak of. *)
Definition quiet (s s' : MemSink.t) : Prop := exists rr rw nx nr nw re se,
  s' = s <| retryRdReq := rr |> <| retryWrReq := rw |> <| nextRequest := nx |> <| numReadRetries := nr |>
         <| numWriteRetries := nw |> <| retries := re |> <| sent := se |>.
Lemma sound_quiet s s' w : quiet s s' -> sound s w -> sound s' w.
Proof using. intros (?&?&?&?&?&?&?&->) []. by split. Qed.

Lemma accounts_turned d c c' (rq wq : list (list Packet)) : turned d c c' -> accounts es c rq wq -> accounts es c' rq wq.
Proof using. intros (?&->) [[] ?]. split; [by split|done]. Qed.
Lemma legal_set p prio : legal p -> 0 <= prio < n -> legal (p <| pkt_qosValue := prio |>).
Proof using. intros (?&?&?&?&?&_) Hp. done. Qed.
Lemma legal_dir p : legal p -> dir_ok (if pkt_read p then 0 else 1) p.
Proof using.
  intros (Hs & _ & _ & Hrw & _). split; [done|]. cbn. destruct (pkt_read p); (split; [done|]); by intros ?.
Qed.

(** ** Receiving a request *)

Definition room (w : list Packet) (p : Packet) : bool :=
  load es (pkt_read p) w + entries es p <=? buffer (pkt_read p).
Definition push (p : Packet) (s : MemSink.t) : MemSink.t :=
  if pkt_read p then s <| readQueue ::= alter (fun q => q ++ [p]) (Z.to_nat (pkt_qosValue p)) |>
  else s <| writeQueue ::= alter (fun q => q ++ [p]) (Z.to_nat (pkt_qosValue p)) |>.
Definition refused (p : Packet) (s : MemSink.t) : MemSink.t :=
  if pkt_read p then s <| retryRdReq := true |> <| numReadRetries ::= Z.succ |>
  else s <| retryWrReq := true |> <| numWriteRetries ::= Z.succ |>.
Lemma push_queues p s : let k := if pkt_read p then 0 else 1 in let g := alter (fun q => q ++ [p]) (Z.to_nat (pkt_qosValue p)) in
  readQueue (push p s) = on_reads k g (readQueue s) /\ writeQueue (push p s) = on_writes k g (writeQueue s).
Proof using. unfold push. by destruct (pkt_read p). Qed.
Lemma refused_quiet p s : quiet s (refused p s).
Proof using.
  destruct s as [b qp rl pl mp rb wb rr rw nx nr nw rq wq e se re]. unfold quiet, refused. destruct (pkt_read p).
  - by exists true, rw, nx, (Z.succ nr), nw, re, se.
  - by exists rr, true, nx, nr, (Z.succ nw), re, se.
Qed.

Lemma buffer_eq rd s w : sound s w -> (if (rd : bool) then readBufferSize s else writeBufferSize s) = buffer rd.
Proof using. intros Hs. unfold buffer. rewrite <- (so_config _ _ Hs). by destruct rd. Qed.
Lemma accept_wp s w p : sound s w -> legal p ->
  wp (accept (pkt_qosValue p) (entries es p) p) s (fun b s' =>
    b = room w p /\ s' = if b then push p s else refused p s).
Proof using Hcfg.
  intros Hs Hp. pose proof Hp as (Hsz & _ & _ & _ & Hfit & Hq). destruct (sound_totals s w Hs) as (Er & Ew & _).
  pose proof (buffer_eq (pkt_read p) s w Hs) as Hb. pose proof (so_load _ _ Hs (pkt_read p)) as Hl.
  pose proof (load_pos (pkt_read p) w (so_legal _ _ Hs)) as H0. pose proof (entries_pos es (ok_es _ Hcfg) p Hsz) as He.
  pose proof (ok_rb _ Hcfg) as Hrb. pose proof (ok_wb _ Hcfg) as Hwb.
  pose proof (split_lookup n true w _ Hq) as Lr. rewrite <- (so_reads _ _ Hs) in Lr.
  pose proof (split_lookup n false w _ Hq) as Lw. rewrite <- (so_writes _ _ Hs) in Lw. pose proof (so_fifo _ _ Hs) as Hf.
  unfold accept, room, readQueueFull, writeQueueFull, buffer in *. wp_step. wp_step. destruct (pkt_read p) eqn:Erd.
  - rewrite Er, Hb, u64_small by lia. destruct (Z.ltb_spec (c_rb cfg) (load es true w + entries es p)), (Z.leb_spec (load es true w + entries es p) (c_rb cfg)); try lia.
    + wp_step. apply wp_modify. wp_step. split; [done|]. unfold refused. by rewrite Erd.
    + unfold enqueue_read. wp_steps. unfold aread. rewrite Lr. wp_steps.
      rewrite (zalter_write (fun q => q ++ [p]) _ _ _ Lr). wp_steps. split; [done|].
      unfold push. rewrite Erd. destruct s; unfold over; cbn in *. by rewrite Hf.
  - rewrite Ew, Hb, u64_small by lia. destruct (Z.ltb_spec (c_wb cfg) (load es false w + entries es p)), (Z.leb_spec (load es false w + entries es p) (c_wb cfg)); try lia.
    + wp_step. apply wp_modify. wp_step. split; [done|]. unfold refused. by rewrite Erd.
    + unfold enqueue_write. wp_steps. unfold aread. rewrite Lw. wp_steps.
      rewrite (zalter_write (fun q => q ++ [p]) _ _ _ Lw). wp_steps. split; [done|].
      unfold push. rewrite Erd. destruct s; unfold over; cbn in *. by rewrite Hf.
Qed.

(** A packet joins the list. *)
Lemma push_sound s w p c : sound s w -> legal p -> room w p = true -> frame (base s) c ->
  accounts es c (readQueue (push p s)) (writeQueue (push p s)) -> forall e,
  sound ((push p s) <| base := c |> <| nextReqEvent := e |>) (w ++ [p]).
Proof using Hcfg.
  intros Hs Hp Hroom (_ & Epol & _ & En & Eesc & _ & Est & _) Hacc e. pose proof Hp as (_ & _ & _ & _ & _ & Hq).
  unfold room in Hroom. apply Z.leb_le in Hroom.
  assert (config_of ((push p s) <| base := c |> <| nextReqEvent := e |>) = config_of s) as Ecfg.
  { unfold config_of, push. rewrite <- En. by destruct (pkt_read p). }
  split.
  - rewrite Ecfg. apply Hs.
  - unfold push in *. by destruct (pkt_read p).
  - rewrite split_push by done. unfold push. destruct (pkt_read p); cbn; by rewrite (so_reads _ _ Hs).
  - rewrite split_push by done. unfold push. destruct (pkt_read p); cbn; by rewrite (so_writes _ _ Hs).
  - apply Forall_app. split; [apply Hs|by constructor].
  - intros rd. rewrite load_app, load_one. pose proof (so_load _ _ Hs rd). destruct (eqb_spec (pkt_read p) rd) as [<-|]; lia.
  - rewrite <- (so_fifo _ _ Hs). unfold push. by destruct (pkt_read p).
  - cbn. rewrite Eesc. apply Hs.
  - cbn. rewrite Epol. apply Hs.
  - cbn. rewrite Est. apply Hs.
Qed.

(** The sink with its controller rescheduled. *)
Lemma sound_base s w c e : sound s w -> rescheduled n (base s) c -> sound (s <| base := c |> <| nextReqEvent := e |>) w.
Proof using Hcfg.
  intros Hs Hr. pose proof (rescheduled_ok _ _ _ Hr) as (Hp & Ht & En & Ee). pose proof Hs as [].
  split; try done; cbn.
  - unfold config_of. cbn. by rewrite En.
  - by eapply accounts_rescheduled.
  - by rewrite Ee.
Qed.
Lemma sound_event s w e : sound s w -> sound (s <| nextReqEvent := e |>) w.
Proof using. intros []. by split. Qed.

Lemma recv_wp now p s w : sound s w -> legal p ->
  wp (recvTimingReq now p) s (fun b s' => exists prio, 0 <= prio < n /\ b = room w p /\
    sound s' (if b then w ++ [p <| pkt_qosValue := prio |>] else w) /\ sent s' = sent s /\
    scheduled (nextReqEvent s') = true).
Proof using Hcfg.
  intros Hs Hp. pose proof Hp as (Hsz & Hnr & Hcr & Hrw & Hfit & Hq). pose proof (ok_es _ Hcfg) as Hes.
  pose proof (entries_pos es Hes p Hsz) as Hent. pose proof (so_config _ _ Hs) as Ecfg.
  assert (memoryPacketSize s = es) as Ees by (unfold es; by rewrite <- Ecfg).
  assert (numPriorities (base s) = n) as En by (unfold n; by rewrite <- Ecfg).
  unfold recvTimingReq. rewrite Hrw, Hcr. cbn [negb]. wp_step. wp_step. wp_step. wp_step. rewrite Ees.
  unfold divCeil. apply rp_udiv; [lia|]. change ((pkt_size p + es - 1) / es) with (entries es p). wp_step.
  apply wp_assert; [apply negb_true_iff, Z.eqb_neq; lia|]. wp_step. unfold on_queues. wp_step.
  eapply wp_mono; [apply (qosSchedule_wp now es p n); try done; [exact (ok_n _ Hcfg)|apply Hs..]|].
  intros r q (prio & -> & Hprio & Hqs & Hr). cbn beta iota. rewrite Hqs.
  set (p' := p <| pkt_qosValue := prio |>). assert (legal p') as Hp' by by apply legal_set.
  set (s1 := s <| base := ctl q |> <| readQueue := readQueue s |> <| writeQueue := writeQueue s |>).
  assert (sound s1 w) as Hs1.
  { assert (s1 = s <| base := ctl q |> <| nextReqEvent := nextReqEvent s |>) as -> by (unfold s1; by destruct s).
    by apply sound_base. }
  wp_step. eapply wp_mono; [apply (accept_wp s1 w p' Hs1 Hp')|]. intros b s2 [Eb ->]. change (room w p') with (room w p) in Eb.
  pose proof (load_pos true w (so_legal _ _ Hs1)). pose proof (load_pos false w (so_legal _ _ Hs1)).
  pose proof (so_load _ _ Hs1 true) as Lt. pose proof (so_load _ _ Hs1 false) as Lf. cbn in Lt, Lf.
  pose proof (ok_rb _ Hcfg). pose proof (ok_wb _ Hcfg). destruct (sound_totals s1 w Hs1) as (_ & _ & Er & Ew).
  assert (entries es p < 2 ^ 62) as He62 by (unfold buffer in Hfit; destruct (pkt_read p); lia).
  set (k := if pkt_read p then 0 else 1).
  assert ((if pkt_read p then READ else WRITE) = dir_of k) as Edir by (unfold k; by destruct (pkt_read p)).
  change (pkt_read p') with (pkt_read p). rewrite Edir. wp_step. destruct b; cbn [when_].
  - unfold on_base. wp_step. assert (base (push p' s1) = base s1) as Eb1 by (unfold push; by destruct (pkt_read p')). rewrite Eb1.
    assert (on_writes k (fun _ => writeQueue s1) (readQueue s1) !! prio =
      Some (List.filter (at_dir (pkt_read p) prio) w)) as Hlook.
    { unfold on_writes, k. destruct (pkt_read p); cbn [Z.eqb]; rewrite ?(so_reads _ _ Hs1), ?(so_writes _ _ Hs1); by apply split_lookup. }
    eapply wp_mono; [refine (logRequest_wp es Hes now k prio p' (base s1) (readQueue s1) (writeQueue s1) _ _ _ Hlook _ _ _)|].
    + unfold k. destruct (pkt_read p); auto.
    + apply Hs1.
    + exact (legal_dir p' Hp').
    + reflexivity.
    + rewrite Er, Ew. change (entries es p') with (entries es p). lia.
    + intros [] c [Hfr Hacc]. cbn beta. wp_step. wp_step. wp_step.
      eapply wp_mono; [apply schedule_next_wp; lia|]. intros [] s3 [He (e & -> & _)]. wp_step. exists prio.
      split; [done|]. split; [by rewrite Eb|]. split.
      * apply (push_sound s1 w p' c Hs1 Hp' (eq_sym Eb) Hfr). destruct (push_queues p' s1) as [-> ->]. exact Hacc.
      * unfold push. by destruct (pkt_read p').
  - wp_step. wp_step. wp_step. wp_step. eapply wp_mono; [apply schedule_next_wp; lia|]. intros [] s3 [He (e & -> & _)]. wp_step.
    exists prio. split; [done|]. split; [by rewrite Eb|]. split.
    + apply sound_event. eapply sound_quiet; [apply refused_quiet|done].
    + unfold refused. by destruct (pkt_read p').
Qed.
End Refine.
End SinkSafe.
