(* ===== verification/MemSinkServe.v ===== *)
(** The next-request event of the QoS memory sink serves one waiting packet, the retry
    included; run again and again it drains the sink. *)
From S2P Require Import Prelude Packet QoSPolicy QoS QoSEscalate QoSAccount QoSSchedule QoSLife QoSTurn MemSink MemSinkSafe.
Import QoS Escalate Account Schedule MemSink SinkSafe.

Module SinkServe.
#[local] Arguments vol : simpl never.
#[local] Arguments entries : simpl never.

Lemma pick_fails (v : list (list Packet)) (k : nat) (s : MemSink.t) (j : Z) p q f : Z.of_nat k <= zlen v ->
  0 <= j < Z.of_nat k -> v !! j = Some (p :: q) -> (forall i, j < i < Z.of_nat k -> v !! i = Some []) ->
  (r ← selectPacket (fun id => hasRequestor id (base s)) (p :: q) (queuePolicy s); aread (p :: q) (fst r)) = Fault f ->
  pick v k s = Fault f.
Proof.
  intros Hk Hj Hq Hhi Hf. induction k as [|k IH]; [lia|]. cbn [pick]. destruct (decide (j = Z.of_nat k)) as [->|Hne].
  - replace (aread v (Z.of_nat k)) with (Ok (p :: q)) by (unfold aread; by rewrite Hq). unfold mbind, comp_bind, result_bind, lift, get in *.
    destruct (selectPacket _ (p :: q) (queuePolicy s)) as [[i qp]|f']; [|congruence]. cbn [fst] in Hf. by rewrite Hf.
  - replace (aread v (Z.of_nat k)) with (@Ok (list Packet) []) by (unfold aread; by rewrite Hhi by lia). apply IH; [lia|lia|]. intros i Hi. apply Hhi. lia.
Qed.

Lemma take_fails d s f :
  pick (queue_ptr d (readQueue s) (writeQueue s)) (length (queue_ptr d (readQueue s) (writeQueue s))) s = Fault f ->
  take_packet d s = Fault f.
Proof. intros Hp. unfold take_packet. unfold mbind at 1, comp_bind, get. unfold mbind at 1. destruct d; cbn in Hp; by rewrite Hp. Qed.
Lemma process_fails `{!StdLib, !Medium} now offers s d s2 f : turn_bus (s <| nextReqEvent := None |>) = Ok (d, s2) ->
  take_packet d s2 = Fault f -> processNextReqEvent now offers s = Fault f.
Proof.
  intros Ht Hf. unfold processNextReqEvent. unfold mbind at 1, comp_bind, modify at 1. unfold mbind at 1. rewrite Ht.
  unfold mbind at 1. by rewrite Hf.
Qed.
Section Serve.
Context {HS : StdLib} {HM : Medium} (cfg : Config).
Hypothesis Hcfg : config_ok cfg.
Let es := c_es cfg.
Let n := c_n cfg.

(** ** One packet *)

Definition popped (d : BusState) (j : Z) (r : list Packet) (s : MemSink.t) : MemSink.t :=
  match d with
  | READ => s <| readQueue ::= alter (fun _ => r) (Z.to_nat j) |>
  | WRITE => s <| writeQueue ::= alter (fun _ => r) (Z.to_nat j) |>
  end.
Lemma queue_split d s w : sound cfg s w -> queue_ptr d (readQueue s) (writeQueue s) = split_queues n (rd_of d) w.
Proof using. intros Hs. destruct d; cbn; apply Hs. Qed.

Lemma take_packet_wp s w d : sound cfg s w -> busy d (readQueue s) (writeQueue s) ->
  wp (take_packet d) s (fun p s' => exists w1 w2 r, w = w1 ++ p :: w2 /\ serves d w p (w1 ++ w2) /\
    queue_ptr d (readQueue s) (writeQueue s) !! pkt_qosValue p = Some (p :: r) /\
    List.filter (at_dir (rd_of d) (pkt_qosValue p)) w = p :: r /\
    List.filter (at_dir (rd_of d) (pkt_qosValue p)) w1 = [] /\ s' = popped d (pkt_qosValue p) r s).
Proof using Hcfg.
  intros Hs (j & q & Hq & Hne). pose proof (queue_split d s w Hs) as Eq. pose proof (ok_n _ Hcfg) as Hn.
  pose proof (zlookup_lt _ _ _ Hq) as Hj. assert (zlen (queue_ptr d (readQueue s) (writeQueue s)) = n) as Hl
    by (rewrite Eq; apply zlen_split; unfold n; lia). set (v := queue_ptr d (readQueue s) (writeQueue s)) in *.
  destruct (highest_queue v (length v) j q ltac:(unfold zlen; lia) Hj Hq Hne) as (i & p & r & Hi & Hv & Hhi).
  pose proof Hv as Hf. rewrite Eq, split_lookup in Hf by (unfold zlen in *; lia). injection Hf as Hf.
  pose proof (filter_head _ _ _ _ Hf) as (w1 & w2 & Ew & H1 & H2 & Hp). apply andb_prop in Hp as [Hrd Hpi].
  apply eqb_prop in Hrd. apply Z.eqb_eq in Hpi.
  unfold take_packet. wp_step. wp_step. wp_step.
  eapply wp_mono; [apply (pick_wp _ _ s i p r); first [done|exact (so_fifo _ _ _ Hs)|unfold zlen in *; lia]|].
  intros o s' [-> ->]. cbn beta iota. wp_step. apply wp_modify. wp_step. rewrite Hpi.
  exists w1, w2, r. split; [done|]. split; [|split; [done|]; split; [done|]; split; [done|]; by destruct d, s].
  exists w1, w2. split; [done|]. split; [done|]. split; [done|]. rewrite Hpi.
  assert (forall x, In x w -> pkt_read x = rd_of d -> pkt_qosValue x <= i) as Hle.
  { intros x Hx Hxr. destruct (Z.le_gt_cases (pkt_qosValue x) i) as [|Hgt]; [done|exfalso].
    pose proof (proj1 (List.Forall_forall _ _) (so_legal _ _ _ Hs) x Hx) as (_ & _ & _ & _ & _ & Hxq). fold n in Hxq.
    specialize (Hhi (pkt_qosValue x) ltac:(unfold zlen in *; lia)). rewrite Eq, split_lookup in Hhi by lia.
    injection Hhi as Hhi. pose proof (filter_nil _ _ _ Hhi Hx) as E. unfold at_dir in E.
    by rewrite Hxr, eqb_reflx, Z.eqb_refl in E. }
  split; intros x Hx Hxr.
  - assert (pkt_qosValue x <> i) as Hxi; [|specialize (Hle x); rewrite Ew, in_app_iff in Hle; intuition lia].
    intros E. pose proof (filter_nil _ _ _ H1 Hx) as E'. unfold at_dir in E'. by rewrite Hxr, E, eqb_reflx, Z.eqb_refl in E'.
  - apply Hle; [|done]. rewrite Ew. apply in_app_iff. right. by right.
Qed.

(** A packet leaves the list. *)
Lemma popped_sound s w1 p w2 r c d e : sound cfg s (w1 ++ p :: w2) -> pkt_read p = rd_of d ->
  List.filter (at_dir (rd_of d) (pkt_qosValue p)) (w1 ++ p :: w2) = p :: r ->
  List.filter (at_dir (rd_of d) (pkt_qosValue p)) w1 = [] ->
  frame (base s) c -> accounts es c (readQueue (popped d (pkt_qosValue p) r s)) (writeQueue (popped d (pkt_qosValue p) r s)) ->
  sound cfg ((popped d (pkt_qosValue p) r s) <| base := c |> <| nextReqEvent := e |>) (w1 ++ w2).
Proof using Hcfg.
  intros Hs Hrd Hf H1 (_ & Epol & _ & En & Eesc & _ & Est & _) Hacc. pose proof Hs as []. pose proof (ok_n _ Hcfg) as Hn.
  apply Forall_app in so_legal0 as [L1 L2]. apply Forall_cons_1 in L2 as [Lp L2']. pose proof Lp as (Hsz & _ & _ & _ & _ & Hq).
  assert (Forall (legal cfg) (w1 ++ w2)) as L by by apply Forall_app. pose proof (entries_pos es (ok_es _ Hcfg) p Hsz) as He.
  split; try done.
  - unfold config_of in *. destruct d; cbn; by rewrite En.
  - destruct d; cbn; rewrite so_reads0.
    + symmetry. by apply split_take.
    + symmetry. apply split_other; [lia|]. by rewrite Hrd.
  - destruct d; cbn; rewrite so_writes0.
    + symmetry. apply split_other; [lia|]. by rewrite Hrd.
    + symmetry. by apply split_take.
  - intros rd. specialize (so_load0 rd). change (w1 ++ p :: w2) with (w1 ++ [p] ++ w2) in so_load0.
    rewrite !load_app, load_one in *. fold es in so_load0 |- *. destruct (eqb (pkt_read p) rd); lia.
  - by destruct d.
  - cbn. by rewrite Eesc.
  - cbn. by rewrite Epol.
  - cbn. by rewrite Est.
Qed.

(** ** The event *)

Definition marked (offers acc : list Packet) : Prop :=
  Forall2 (fun p p' => exists prio, p' = p <| pkt_qosValue := prio |>) (take (length acc) offers) acc.
Lemma retry_wp now offers s w : sound cfg s w -> Forall (legal cfg) offers ->
  wp (retry now offers) s (fun _ s' => exists acc, marked offers acc /\ sound cfg s' (w ++ acc) /\ sent s' = sent s /\
    (offers = [] -> s' = s)).
Proof using Hcfg.
  intros Hs H. revert s w Hs. induction H as [|p offers Hp _ IH]; intros s w Hs; cbn [retry].
  { apply wp_ret. exists []. rewrite app_nil_r. split; [constructor|done]. }
  wp_step. eapply wp_mono; [by apply (recv_wp cfg Hcfg now p s w)|]. intros b s1 (prio & _ & _ & Hs1 & Esent & _).
  destruct b.
  - eapply wp_mono; [by apply (IH s1)|]. intros [] s2 (acc & Hm & Hs2 & Esent2 & _). exists (p <| pkt_qosValue := prio |> :: acc).
    rewrite <- app_assoc in Hs2. split; [|split; [exact Hs2|split; [congruence|done]]]. constructor; [by exists prio|done].
  - wp_step. exists []. rewrite app_nil_r. split; [constructor|done].
Qed.

Lemma sound_turned s w d c : sound cfg s w -> turned d (base s) c -> sound cfg (s <| base := c |>) w.
Proof using. intros [] Ht. pose proof Ht as (st & ->). split; try done. by eapply accounts_turned. Qed.
Lemma sound_empty s w : sound cfg s w -> (w = [] <-> totalReadQueueSize (base s) = 0 /\ totalWriteQueueSize (base s) = 0).
Proof using Hcfg.
  intros Hs. destruct (sound_totals cfg Hcfg s w Hs) as (-> & -> & _). split; [by intros ->|]. intros [Er Ew].
  pose proof (so_legal _ _ _ Hs) as L. destruct w as [|p w]; [done|exfalso]. apply Forall_cons_1 in L as [Lp L].
  pose proof (entries_pos es (ok_es _ Hcfg) p (proj1 Lp)) as He. change (p :: w) with ([p] ++ w) in Er, Ew.
  rewrite !load_app, load_one in Er, Ew. fold es in Er, Ew. pose proof (load_pos cfg Hcfg true w L) as H1.
  pose proof (load_pos cfg Hcfg false w L) as H2. fold es in H1, H2. destruct (pkt_read p); cbn in Er, Ew; lia.
Qed.

(** The retry and the next event, after the response. *)
Definition tail (now : Z) (offers : list Packet) (d : BusState) (s0 : MemSink.t) : comp MemSink.t unit :=
  (if bool_decide (d = READ) && retryRdReq s0
   then modify (fun s => s <| retryRdReq := false |>);; sendRetryReq now offers
   else when_ (bool_decide (d = WRITE) && retryWrReq s0)
          (modify (fun s => s <| retryWrReq := false |>);; sendRetryReq now offers));;
  s ← get;
  when_ (negb (totalReadQueueSize (base s) =? 0) || negb (totalWriteQueueSize (base s) =? 0))
    (schedule_next now (tadd now (requestLatency s))).
Definition next_event (now : Z) (w : list Packet) : event :=
  match w with [] => None | _ => Some (tadd now (c_rl cfg)) end.

Lemma quiet_read s (b : bool) : quiet s (s <| retryRdReq := b |> <| retries ::= Z.succ |>).
Proof using.
  exists b, (retryWrReq s), (nextRequest s), (numReadRetries s), (numWriteRetries s), (Z.succ (retries s)), (sent s). by destruct s.
Qed.
Lemma quiet_write s (b : bool) : quiet s (s <| retryWrReq := b |> <| retries ::= Z.succ |>).
Proof using.
  exists (retryRdReq s), b, (nextRequest s), (numReadRetries s), (numWriteRetries s), (Z.succ (retries s)), (sent s). by destruct s.
Qed.
Lemma retries_wp now offers d s0 s w : sound cfg s w -> Forall (legal cfg) offers ->
  wp (if bool_decide (d = READ) && retryRdReq s0
      then modify (fun s => s <| retryRdReq := false |>);; sendRetryReq now offers
      else when_ (bool_decide (d = WRITE) && retryWrReq s0)
             (modify (fun s => s <| retryWrReq := false |>);; sendRetryReq now offers)) s
    (fun _ s' => exists acc, marked offers acc /\ sound cfg s' (w ++ acc) /\ sent s' = sent s /\
      (offers = [] -> nextReqEvent s' = nextReqEvent s)).
Proof using Hcfg.
  intros Hs Ho. destruct (bool_decide (d = READ) && retryRdReq s0).
  - wp_step. wp_step. unfold sendRetryReq. wp_step. wp_step.
    eapply wp_mono; [apply (retry_wp now offers _ w); [eapply sound_quiet; [apply (quiet_read s)|done]|done]|].
    intros [] s' (acc & Hm & Hs' & E & Hn). exists acc. split_and!; try done. by intros ->%Hn.
  - apply wp_when; intros _.
    + wp_step. wp_step. unfold sendRetryReq. wp_step. wp_step.
      eapply wp_mono; [apply (retry_wp now offers _ w); [eapply sound_quiet; [apply (quiet_write s)|done]|done]|].
      intros [] s' (acc & Hm & Hs' & E & Hn). exists acc. split_and!; try done. by intros ->%Hn.
    + exists []. rewrite app_nil_r. split; [constructor|]. done.
Qed.
Lemma tail_wp now offers d s0 s w : sound cfg s w -> Forall (legal cfg) offers -> 0 <= now -> now + c_rl cfg < 2 ^ 64 ->
  wp (tail now offers d s0) s (fun _ s' => exists acc, marked offers acc /\ sound cfg s' (w ++ acc) /\ sent s' = sent s /\
    armed s' (w ++ acc) /\ (offers = [] -> nextReqEvent s = None -> acc = [] /\ nextReqEvent s' = next_event now w)).
Proof using Hcfg.
  intros Hs Ho Hnow Hlt. pose proof (ok_rl _ Hcfg) as Hrl. unfold tail. wp_step. eapply wp_mono; [by apply retries_wp|].
  intros [] s1 (acc & Hm & Hs1 & Esent & Hn). cbn beta. wp_step. wp_step.
  assert (requestLatency s1 = c_rl cfg) as Erl by (by rewrite <- (so_config _ _ _ Hs1)).
  assert (offers = [] -> acc = []) as Hacc by (intros ->; unfold marked in Hm; rewrite take_nil in Hm; by inversion Hm).
  pose proof (sound_empty _ _ Hs1) as He. apply wp_when; intros Hb.
  - assert (w ++ acc <> []) as Hw.
    { intros [E1 E2]%He. rewrite E1, E2 in Hb. done. }
    rewrite Erl, tadd_small by lia. eapply wp_mono; [apply schedule_next_wp; lia|].
    intros [] s2 [Hsch (e & -> & Hex)]. exists acc. split; [exact Hm|]. split; [by apply sound_event|]. split; [done|]. split; [by intros _|].
    intros Hoff Hnone. split; [by apply Hacc|]. rewrite (Hacc Hoff), app_nil_r in Hw. unfold next_event.
    rewrite tadd_small by lia. destruct w; [done|]. apply Hex. by rewrite (Hn Hoff).
  - apply orb_false_iff in Hb as [H1%negb_false_iff%Z.eqb_eq H2%negb_false_iff%Z.eqb_eq].
    pose proof (proj2 He (conj H1 H2)) as Hw. exists acc. split; [done|]. split; [done|]. split; [done|]. split; [by intros Hne|].
    intros Hoff Hnone. split; [by apply Hacc|]. apply app_eq_nil in Hw as [-> _]. cbn. by rewrite (Hn Hoff).
Qed.

Lemma response_wp now delay d p r s w : sound cfg s w -> pkt_read p = rd_of d ->
  queue_ptr d (readQueue s) (writeQueue s) !! pkt_qosValue p = Some (p :: r) ->
  wp (logResponse now (if pkt_read p then READ else WRITE) (pkt_requestorId p) (pkt_qosValue p) (pkt_addr p) (entries es p) delay)
    (base s) (fun _ c => frame (base s) c /\
      accounts es c (readQueue (popped d (pkt_qosValue p) r s)) (writeQueue (popped d (pkt_qosValue p) r s))).
Proof using Hcfg.
  intros Hs Hrd Hq. pose proof (so_accounts _ _ _ Hs) as Ha.
  set (k := match d with READ => 0 | WRITE => 1 end).
  assert ((if pkt_read p then READ else WRITE) = dir_of k) as -> by (rewrite Hrd; by destruct d).
  assert (k = 0 \/ k = 1) as Hk by (destruct d; auto).
  assert (on_writes k (fun _ => writeQueue s) (readQueue s) !! pkt_qosValue p = Some ([] ++ p :: r)) as Hq' by by destruct d.
  eapply wp_mono; [exact (logResponse_wp es (ok_es _ Hcfg) now delay k _ p [] r _ _ _ Hk Ha Hq')|].
  intros [] c [Hfr Hacc]. split; [done|]. by destruct d.
Qed.

Lemma process_wp now offers s w : sound cfg s w -> w <> [] -> Forall (legal cfg) offers -> 0 <= now -> now + c_rl cfg < 2 ^ 64 ->
  wp (processNextReqEvent now offers) s (fun _ s' => exists d p w' acc, serves d w p w' /\ marked offers acc /\
    sound cfg s' (w' ++ acc) /\ sent s' = sent s ++ [(access p, tadd now (c_pl cfg))] /\ armed s' (w' ++ acc) /\
    (offers = [] -> acc = [] /\ nextReqEvent s' = next_event now w')).
Proof using Hcfg.
  intros Hs Hw Ho Hnow Hlt. unfold processNextReqEvent. wp_step. wp_step. set (s1 := s <| nextReqEvent := None |>).
  assert (sound cfg s1 w) as Hs1 by by apply sound_event. pose proof (sound_totals cfg Hcfg s1 w Hs1) as (Er & Ew & Lr & Lw).
  pose proof (load_pos cfg Hcfg true w (so_legal _ _ _ Hs)). pose proof (load_pos cfg Hcfg false w (so_legal _ _ _ Hs)).
  wp_step. eapply wp_mono; [apply (turn_bus_wp (c_es cfg) s1)|].
  - apply (so_accounts _ _ _ Hs1).
  - rewrite Lr, Lw. intros E. apply Hw, (sound_empty s1 w Hs1). rewrite Er, Ew. lia.
  - pose proof (f_equal c_n (so_config _ _ _ Hs1)) as E. cbn in E. change (base s1) with (base s). rewrite E. pose proof (ok_n _ Hcfg). lia.
  - intros d s2 (Hbusy & c & Ht & ->). cbn beta. wp_step.
    pose proof (sound_turned _ _ _ _ Hs1 Ht) as Hs2. set (s2 := s1 <| base := c |>) in *.
    eapply wp_mono; [apply (take_packet_wp s2 w d Hs2 Hbusy)|].
    intros p s3 (w1 & w2 & r & -> & Hserve & Hq & Hf & Hf1 & ->). cbn beta.
    assert (pkt_read p = rd_of d) as Hrd by (by destruct Hserve as (? & ? & _ & _ & ? & _)).
    pose proof (so_legal _ _ _ Hs) as L. apply Forall_app in L as [_ L]. apply Forall_cons_1 in L as [(Hsz & Hnr & _) _].
    wp_step. wp_step. wp_step. wp_step. wp_step. wp_step.
    set (s4 := (popped d (pkt_qosValue p) r s2) <| nextRequest ::= _ |>).
    assert (config_of s4 = cfg) as Ecfg by (rewrite <- (so_config _ _ _ Hs2); by destruct d).
    pose proof (f_equal c_es Ecfg) as Ees. pose proof (f_equal c_pl Ecfg) as Epl. change (memoryPacketSize s4 = c_es cfg) in Ees.
    change (responseLatency s4 = c_pl cfg) in Epl. rewrite Ees.
    unfold divCeil. apply rp_udiv; [pose proof (ok_es _ Hcfg); lia|]. fold (entries es p). rewrite Hnr. cbn [negb]. 
    rewrite access_read, access_requestor, access_qos, access_addr. wp_step. unfold on_base. wp_step.
    change ((pkt_size p + c_es cfg - 1) / c_es cfg) with (entries es p).
    assert (base s4 = base s2) as -> by by destruct d.
    eapply wp_mono; [apply (response_wp now (responseLatency s4) d p r s2 _ Hs2 Hrd Hq)|].
    intros [] c' [Hfr Hacc]. cbn beta. wp_step. wp_step.
    pose proof (popped_sound s2 w1 p w2 r c' d None Hs2 Hrd Hf Hf1 Hfr Hacc) as Hs5.
    set (s6 := (s4 <| base := c' |>) <| sent ::= _ |>).
    assert (sound cfg s6 (w1 ++ w2)) as Hs6.
    { eapply sound_quiet; [|exact Hs5]. exists (retryRdReq s), (retryWrReq s), (nextRequest s6), (numReadRetries s), (numWriteRetries s), (retries s), (sent s6).
      subst s6 s4 s2 s1. destruct d, s; reflexivity. }
    change (wp (tail now offers d s4) s6 (fun _ s' => exists d0 p0 w' acc, serves d0 (w1 ++ p :: w2) p0 w' /\ marked offers acc /\
      sound cfg s' (w' ++ acc) /\ sent s' = sent s ++ [(access p0, tadd now (c_pl cfg))] /\ armed s' (w' ++ acc) /\
      (offers = [] -> acc = [] /\ nextReqEvent s' = next_event now w'))).
    assert (nextReqEvent s6 = None) as En6 by (subst s6 s4 s2 s1; by destruct d).
    eapply wp_mono; [by apply tail_wp|]. intros [] s' (acc & Hm & Hs' & Esent & Harm & Hnx).
    exists d, p, (w1 ++ w2), acc. split; [done|]. split; [done|]. split; [done|]. split; [|split; [done|auto]].
    rewrite Esent, <- Epl. subst s6 s4 s2 s1. by destruct d.
Qed.

(** ** What the sink promises *)

Lemma create_sound pol turn syn : policy_ok n pol ->
  sound cfg (MemSink.create (QoS.create pol turn n false syn) (Some q_fifo) (c_rl cfg) (c_pl cfg) (c_es cfg) (c_rb cfg) (c_wb cfg)) [].
Proof using Hcfg.
  intros Hp. pose proof (ok_n _ Hcfg) as Hn. fold n in Hn.
  assert (forall rd, split_queues n rd [] = calloc n []) as Hq.
  { intros rd. symmetry. apply split_ext; [lia|by rewrite zlen_calloc by lia|]. intros j Hj. by apply zlookup_calloc_eq. }
  split; try done.
  - by destruct cfg.
  - apply (Life.empty_good es pol turn n false syn). lia.
  - intros rd. pose proof (ok_rb _ Hcfg). pose proof (ok_wb _ Hcfg). unfold buffer. destruct rd; cbn; lia.
  - cbn. rewrite zlen_calloc by lia. done.
Qed.

(** C37. With the FIFO queue policy, priorities in range, without priority escalation, and for requests that want
    a response and whose entries fit the empty buffer of their direction (otherwise
    [queue_policies_fail] and [oversize_request]), the sink refines one list of waiting
    packets: a request is accepted exactly when its entries fit the buffer of its direction, and then waits last, at the priority
    the policy gives it; the next-request event answers the oldest packet of highest
    priority in the direction the bus takes, after the response latency, and takes in
    what the requestor retries.  Neither faults, and while packets wait the next event
    is scheduled. *)
Theorem sink_refines s w : sound cfg s w ->
  (forall now p, legal cfg p -> exists prio s', 0 <= prio < n /\
     recvTimingReq now p s = Ok (room cfg w p, s') /\ sent s' = sent s /\
     let w' := if room cfg w p then w ++ [p <| pkt_qosValue := prio |>] else w in sound cfg s' w' /\ armed s' w') /\
  (forall now offers, w <> [] -> Forall (legal cfg) offers -> 0 <= now -> now + c_rl cfg < 2 ^ 64 ->
     exists d p w' acc s', processNextReqEvent now offers s = Ok (tt, s') /\ serves d w p w' /\ marked offers acc /\
       sound cfg s' (w' ++ acc) /\ armed s' (w' ++ acc) /\ sent s' = sent s ++ [(access p, tadd now (c_pl cfg))]).
Proof using Hcfg.
  intros Hs. split.
  - intros now p Hp. destruct (wp_inv _ _ _ (recv_wp cfg Hcfg now p s w Hs Hp)) as (b & s' & E & prio & Hprio & -> & Hs' & Hsent & Hsch).
    exists prio, s'. split; [done|]. split; [done|]. split; [done|]. split; [done|]. by intros _.
  - intros now offers Hw Ho Hnow Hlt.
    destruct (wp_inv _ _ _ (process_wp now offers s w Hs Hw Ho Hnow Hlt)) as ([] & s' & E & d & p & w' & acc & Hserve & Hm & Hs' & Hsent & Harm & _).
    by exists d, p, w', acc, s'.
Qed.

(** The events of the sink when nothing arrives, each run at the tick it is scheduled at. *)
Fixpoint run (k : nat) : comp MemSink.t unit :=
  match k with
  | O => mret tt
  | Datatypes.S k' => s ← get; match nextReqEvent s with None => mret tt | Some now => processNextReqEvent now [];; run k' end
  end.
Definition leave_times (now : Z) (k : nat) : list Z := (fun i => tadd (now + i * c_rl cfg) (c_pl cfg)) <$> seqZ 0 (Z.of_nat k).

Lemma serves_perm d w p w' : serves d w p w' -> w ≡ₚ p :: w'.
Proof using. intros (w1 & w2 & -> & -> & _). symmetry. apply Permutation_middle. Qed.
Lemma leave_times_S now k : leave_times now (Datatypes.S k) = tadd now (c_pl cfg) :: leave_times (now + c_rl cfg) k.
Proof using.
  unfold leave_times. rewrite seqZ_cons by lia. rewrite fmap_cons. f_equal; [f_equal; lia|].
  replace (Z.pred (Z.of_nat (Datatypes.S k))) with (Z.of_nat k) by lia. rewrite <- (Z.add_0_r (Z.succ 0)), <- fmap_add_seqZ, <- list_fmap_compose.
  apply list_fmap_ext. intros i x _. cbn. f_equal. lia.
Qed.
Lemma run_wp k s w now : sound cfg s w -> length w = k -> (w <> [] -> nextReqEvent s = Some now) -> (w = [] -> nextReqEvent s = None) ->
  0 <= now -> now + Z.of_nat k * c_rl cfg < 2 ^ 64 ->
  wp (run k) s (fun _ s' => sound cfg s' [] /\ nextReqEvent s' = None /\
    exists out, sent s' = sent s ++ out /\ out.*1 ≡ₚ access <$> w /\ out.*2 = leave_times now k).
Proof using Hcfg.
  pose proof (ok_rl _ Hcfg) as Hrl. revert s w now. induction k as [|k IH]; intros s w now Hs Hl Hev Hno Hnow Hlt; cbn [run].
  { apply nil_length_inv in Hl as ->. wp_step. split; [done|]. split; [by apply Hno|]. exists []. by rewrite app_nil_r. }
  assert (w <> []) as Hw by (intros ->; done). wp_step. wp_step. rewrite Hev by done. wp_step.
  eapply wp_mono; [apply (process_wp now [] s w); try done; lia|].
  intros [] s1 (d & p & w' & acc & Hserve & _ & Hs1 & Hsent & _ & Hn). destruct Hn as [-> Hn]; [done|]. rewrite app_nil_r in Hs1.
  pose proof (serves_perm _ _ _ _ Hserve) as Hp. pose proof (Permutation_length Hp) as Hlen. cbn in Hlen.
  eapply wp_mono; [apply (IH s1 w' (now + c_rl cfg)); try done; try lia|].
  - intros Hw'. rewrite Hn. unfold next_event. destruct w'; [done|]. rewrite tadd_small by lia. done.
  - intros ->. by rewrite Hn.
  - intros [] s2 (Hs2 & Hn2 & out & Hout & Hperm & Htimes). split; [done|]. split; [done|].
    exists ((access p, tadd now (c_pl cfg)) :: out). split; [|split].
    + rewrite Hout, Hsent. by rewrite <- app_assoc.
    + cbn. rewrite Hp, Hperm. done.
    + rewrite leave_times_S. cbn. by rewrite Htimes.
Qed.

(** Left alone, the sink drains: as many events as packets wait answer each of them
    once, one request latency apart, and leave no event scheduled. *)
Theorem sink_drains s w now : sound cfg s w -> w <> [] -> nextReqEvent s = Some now -> 0 <= now ->
  now + zlen w * c_rl cfg < 2 ^ 64 ->
  exists s' out, run (length w) s = Ok (tt, s') /\ drain s' = true /\ nextReqEvent s' = None /\
    sent s' = sent s ++ out /\ out.*1 ≡ₚ access <$> w /\ out.*2 = leave_times now (length w).
Proof using Hcfg.
  intros Hs Hw Hev Hnow Hlt.
  destruct (wp_inv _ _ _ (run_wp (length w) s w now Hs eq_refl ltac:(done) ltac:(done) Hnow Hlt)) as ([] & s' & E & Hs' & Hn & out & H1 & H2 & H3).
  exists s', out. split; [done|]. split; [|by split_and!].
  destruct (proj1 (sound_empty _ _ Hs') eq_refl) as [Er Ew]. unfold drain. by rewrite Er, Ew.
Qed.

(** ** The other queue policies *)

(** Two of the three queue policies fail on the first packet they are to serve: the
    last-in first-out policy hands out the end of the queue, past its last packet, and
    the least-recently-granted policy panics on every requestor that is known, which is
    that of every packet that waits. *)
Theorem queue_policies_fail now offers s w : sound cfg (s <| queuePolicy := Fifo |>) w -> w <> [] ->
  (queuePolicy s = Lifo -> processNextReqEvent now offers s = Fault OutOfBounds) /\
  (forall toServe, queuePolicy s = Lrg toServe -> processNextReqEvent now offers s = Fault Panic).
Proof using Hcfg.
  intros Hs Hw. set (s1 := s <| nextReqEvent := None |>).
  pose proof (sound_totals cfg Hcfg _ w Hs) as (Er & Ew & Lr & Lw). pose proof (so_accounts _ _ _ Hs) as [Hc _].
  pose proof (load_pos cfg Hcfg true w (so_legal _ _ _ Hs)). pose proof (load_pos cfg Hcfg false w (so_legal _ _ _ Hs)).
  pose proof (f_equal c_n (so_config _ _ _ Hs)) as En. pose proof (ok_n _ Hcfg) as Hn. cbn in En, Er, Ew, Lr, Lw.
  assert (lsum (vol (c_es cfg)) (readQueue s1) + lsum (vol (c_es cfg)) (writeQueue s1) <> 0) as Hne0.
  { subst s1. cbn. rewrite Lr, Lw. intros E. apply Hw, (sound_empty _ w Hs). cbn. rewrite Er, Ew. lia. }
  assert (0 <= numPriorities (base s1)) as Hnp by (subst s1; cbn; lia).
  destruct (wp_inv _ _ _ (turn_bus_wp (c_es cfg) s1 Hc Hne0 Hnp)) as (d & s2 & Et & (j & q & Hq & Hne) & c & Hc2 & ->).
  set (v := queue_ptr d (readQueue s) (writeQueue s)). change (v !! j = Some q) in Hq. pose proof (zlookup_lt _ _ _ Hq) as Hj.
  destruct (highest_queue v (length v) j q ltac:(unfold zlen; lia) Hj Hq Hne) as (i & p & r & Hi & Hv & Hhi).
  assert (hasRequestor (pkt_requestorId p) c = true) as Hknown.
  { apply bool_decide_eq_true. destruct Hc2 as (st & ->). destruct d; cbn in Hv.
    - pose proof (proj2 (co_reads _ _ _ _ Hc) _ _ Hv) as Hall. by apply Forall_cons_1 in Hall as [(_ & _ & ?) _].
    - pose proof (proj2 (co_writes _ _ _ _ Hc) _ _ Hv) as Hall. by apply Forall_cons_1 in Hall as [(_ & _ & ?) _]. }
  assert (exists s2, turn_bus s1 = Ok (d, s2) /\ base s2 = c /\ queuePolicy s2 = queuePolicy s /\
    queue_ptr d (readQueue s2) (writeQueue s2) = v) as (s2 & Et2 & Eb & Eqp & Ev) by (by exists (s1 <| base := c |>)).
  assert (forall f, (r0 ← selectPacket (fun id => hasRequestor id (base s2)) (p :: r) (queuePolicy s2); aread (p :: r) (fst r0)) = Fault f ->
    processNextReqEvent now offers s = Fault f) as Hgo.
  { intros f Hf. apply (process_fails now offers s d s2 f Et2), take_fails. rewrite Ev.
    exact (pick_fails v (length v) s2 i p r f ltac:(unfold zlen; lia) Hi Hv Hhi Hf). }
  rewrite Eqp, Eb in Hgo. split.
  + intros E. apply Hgo. rewrite E. cbn [selectPacket mbind result_bind fst]. unfold aread.
    destruct ((p :: r) !! zlen (p :: r)) eqn:El; [|done]. apply zlookup_lt in El. lia.
  + intros l E. apply Hgo. rewrite E. cbn. by rewrite Hknown.
Qed.
End Serve.

(** ** A small sink, with a write that waits *)

Definition small : Config := mkConfig 10 20 64 2 2 1.
Lemma small_ok : config_ok small.
Proof. split; cbn; lia. Qed.
Definition empty_sink (qp : QoSQPolicy) : MemSink.t :=
  MemSink.create (QoS.create None None 1 false false) (Some qp) 10 20 64 2 2.
Definition write64 : Packet := sample false 7 0 0.
Definition waiting_sink (qp : QoSQPolicy) : MemSink.t :=
  match recvTimingReq 5 write64 (empty_sink qp) with Ok (_, s) => s | Fault _ => empty_sink qp end.
Lemma write64_legal : legal small write64.
Proof. by repeat split. Qed.
Lemma empty_sound : sound small (empty_sink q_fifo) [].
Proof. exact (create_sound small small_ok None None false I). Qed.
Lemma waiting_ok : recvTimingReq 5 write64 (empty_sink q_fifo) = Ok (true, waiting_sink q_fifo).
Proof. vm_compute. reflexivity. Qed.
Lemma waiting_sound : sound small (waiting_sink q_fifo) [write64].
Proof.
  destruct (wp_run _ _ _ _ _ (recv_wp small small_ok 5 write64 (empty_sink q_fifo) [] empty_sound write64_legal) waiting_ok)
    as (prio & Hp & _ & H & _).
  assert (prio = 0) as -> by (cbn in Hp; lia). exact H.
Qed.

Lemma sink_refines_witness : exists s',
  processNextReqEvent 5 [write64] (waiting_sink q_fifo) = Ok (tt, s') /\ length (sent s') = 1%nat.
Proof.
  destruct (proj2 (sink_refines small small_ok (waiting_sink q_fifo) [write64] waiting_sound) 5 [write64])
    as (d & p & w' & acc & s' & E & _ & _ & _ & _ & Es); [done|constructor; [apply write64_legal|constructor]|done|done|].
  exists s'. split; [exact E|]. rewrite Es. vm_compute. reflexivity.
Defined.
Lemma sink_drains_witness : exists s' out, run 1 (waiting_sink q_fifo) = Ok (tt, s') /\ drain s' = true /\ out.*2 = [25] /\
  sent s' = sent (waiting_sink q_fifo) ++ out.
Proof.
  destruct (sink_drains small small_ok (waiting_sink q_fifo) [write64] 5 waiting_sound) as (s' & out & E & Ed & _ & Es & _ & Et);
    [done|vm_compute; reflexivity|done|done|]. exists s', out. split; [exact E|]. split; [exact Ed|]. split; [exact Et|exact Es].
Defined.

Lemma queue_policies_fail_witness :
  processNextReqEvent 5 [] (waiting_sink q_lifo) = Fault OutOfBounds /\
  processNextReqEvent 5 [] (waiting_sink q_lrg) = Fault Panic.
Proof.
  assert (forall qp, (waiting_sink qp) <| queuePolicy := Fifo |> = waiting_sink q_fifo) as E by (intros []; vm_compute; reflexivity).
  split.
  - apply (queue_policies_fail small small_ok 5 [] (waiting_sink q_lifo) [write64]); [rewrite E; exact waiting_sound|done|].
    vm_compute. reflexivity.
  - apply (queue_policies_fail small small_ok 5 [] (waiting_sink q_lrg) [write64]) with (toServe := [7]); [rewrite E; exact waiting_sound|done|].
    vm_compute. reflexivity.
Defined.

(** A request larger than the buffer is refused by an empty sink, which then runs the
    event it has scheduled with nothing to serve. *)
Example oversize_request :
  match recvTimingReq 5 (write64 <| pkt_size := 192 |>) (empty_sink q_fifo) with
  | Ok (b, s) => b = false /\ nextReqEvent s = Some 5 /\ processNextReqEvent 5 [] s = Fault AssertFail
  | Fault _ => False
  end.
Proof. vm_compute. auto. Qed.
End SinkServe.
