(* ===== verification/MemCtrl.v ===== *)
(** The memory controller ([mem/mem_ctrl.cc], [mem/mem_ctrl.hh]): its state, how requests
    are split into bursts and enqueued, and how they are answered.  The scheduler and the
    events are in MemCtrlSched.v. *)
From S2P Require Import Prelude AddrRange Mitigation CmdBus Packet Dram Refresh NVM Defense QoSPolicy QoS MemSink.
From stdpp Require Import gmap.
From Stdlib Require String.
Open Scope Z_scope.

Module MemCtrl.
Import QoS.

(** ** State *)

Inductive MemSched := fcfs | frfcfs.
Inductive DrainState := Running | Draining | Drained | Resuming.
#[global] Instance DrainState_eq_dec : EqDecision DrainState.
Proof. solve_decision. Defined.

(** The members that do not change; an interface that is not connected is [None]. *)
Record Config := mkConfig {
  dram_cfg : option DRAMInterface.Config; dram_range : AddrRange.t;
  nvm_cfg : option NVMInterface.NConfig; nvm_range : AddrRange.t;
  readBufferSize : Z; writeBufferSize : Z; writeHighThreshold : Z; writeLowThreshold : Z; minWritesPerSwitch : Z;
  memSchedPolicy : option MemSched; frontendLatency : Z; backendLatency : Z;
  rh_defense_enable : bool; rh_mitigation : String.string }.

Record Stats := mkStats {
  readReqs : Z; writeReqs : Z; readBursts : Z; writeBursts : Z; servicedByWrQ : Z; mergedWrBursts : Z;
  numRdRetry : Z; numWrRetry : Z; bytesReadWrQ : Z; bytesReadSys : Z; bytesWrittenSys : Z; totGap : Z;
  rdPerTurnAround : list Z; wrPerTurnAround : list Z }.
#[global] Instance eta_Stats : Settable Stats := fun r =>
  mkStats (readReqs r) (writeReqs r) (readBursts r) (writeBursts r) (servicedByWrQ r) (mergedWrBursts r) (numRdRetry r)
    (numWrRetry r) (bytesReadWrQ r) (bytesReadSys r) (bytesWrittenSys r) (totGap r) (rdPerTurnAround r) (wrPerTurnAround r).

(** [bus] is the command bus the two interfaces share.  [helpers] are the burst helpers
    on the heap and [allocs] counts the allocations.  [sent] are the responses handed to
    the port with the tick they leave at; [retries] counts the retries sent. *)
Record t := mkCtrl {
  base : QoS.t; readQueue : list (list MemPacket); writeQueue : list (list MemPacket); isInWriteQueue : gset Z;
  respQueue : list MemPacket; helpers : gmap Z BurstHelper; allocs : nat;
  nextReqEvent : event; respondEvent : event; retryRdReq : bool; retryWrReq : bool;
  writesThisTime : Z; readsThisTime : Z; nextBurstAt : Z; prevArrival : Z; nextReqTime : Z;
  isTimingMode : bool; drainState : DrainState; bus : CmdBus.t;
  dram : DRAMInterface.t; nvm : NVMInterface.nvm; rh_defense : Defense.t;
  sent : list (Packet * Z); retries : Z; stats : Stats }.
#[global] Instance eta_t : Settable t := fun r =>
  mkCtrl (base r) (readQueue r) (writeQueue r) (isInWriteQueue r) (respQueue r) (helpers r) (allocs r) (nextReqEvent r)
    (respondEvent r) (retryRdReq r) (retryWrReq r) (writesThisTime r) (readsThisTime r) (nextBurstAt r) (prevArrival r)
    (nextReqTime r) (isTimingMode r) (drainState r) (bus r) (dram r) (nvm r) (rh_defense r) (sent r) (retries r) (stats r).

(** [fatal] unless an interface is connected and the thresholds are in order; the
    buffers are those of the interfaces together, and the thresholds percentages of the
    write buffer, truncated. *)
Definition create_config (dram_cfg : option DRAMInterface.Config) (dram_range : AddrRange.t)
    (nvm_cfg : option NVMInterface.NConfig) (nvm_range : AddrRange.t)
    (dram_reads dram_writes nvm_reads nvm_writes write_high_thresh_perc write_low_thresh_perc minWritesPerSwitch : Z)
    (memSchedPolicy : option MemSched) (frontendLatency backendLatency : Z)
    (rh_defense_enable : bool) (rh_mitigation : String.string) : result Config :=
  let part {A} (i : option A) (n : Z) : Z := match i with Some _ => n | None => 0 end in
  let reads := u32 (part dram_cfg dram_reads + part nvm_cfg nvm_reads) in
  let writes := u32 (part dram_cfg dram_writes + part nvm_cfg nvm_writes) in
  match dram_cfg, nvm_cfg with
  | None, None => Fault Panic
  | _, _ =>
      if write_high_thresh_perc <=? write_low_thresh_perc then Fault Panic
      else Ok (mkConfig dram_cfg dram_range nvm_cfg nvm_range reads writes
        (u32 (writes * write_high_thresh_perc) / 100) (u32 (writes * write_low_thresh_perc) / 100)
        minWritesPerSwitch memSchedPolicy frontendLatency backendLatency rh_defense_enable rh_mitigation)
  end.
Definition create (base : QoS.t) (bus : CmdBus.t) (dram : DRAMInterface.t) (nvm : NVMInterface.nvm) (rh : Defense.t) : t :=
  mkCtrl base (calloc (numPriorities base) []) (calloc (numPriorities base) []) ∅ [] ∅ 0 None None false false
    0 0 0 0 0 false Running bus dram nvm rh [] 0 (mkStats 0 0 0 0 0 0 0 0 0 0 0 0 [] []).

(** ** The parts of the controller *)

Section Code.
Context `{!StdLib, !Medium} (rand_stream : nat -> Z) (mem : nat -> Alloc) (c : Config) (now : Z).

Definition view (s : t) : DRAMInterface.CtrlView := DRAMInterface.mkView
  (fun next => bool_decide ((if next then busStateNext (base s) else busState (base s)) = READ))
  (fun next => bool_decide ((if next then busStateNext (base s) else busState (base s)) = WRITE))
  (bool_decide (drainState s = Draining)) (bool_decide (drainState s = Drained))
  (scheduled (nextReqEvent s)) (scheduled (respondEvent s)).

Definition on_base {B} (m : comp QoS.t B) : comp t B := zoom base (fun b s => s <| base := b |>) m.
Definition on_queues {B} (m : comp (qq MemPacket) B) : comp t B :=
  zoom (fun s => mkQQ (base s) [readQueue s; writeQueue s])
    (fun q s => match queues q with
                | [r; w] => s <| base := ctl q |> <| readQueue := r |> <| writeQueue := w |>
                | _ => s end) m.
(** Through the pointer to an interface: both issue their commands on [bus]. *)
Definition on_dram {B} (m : DRAMInterface.Config -> DRAMInterface.CtrlView -> comp DRAMInterface.t B) : comp t B :=
  s ← get;
  match dram_cfg c with
  | None => lift (Fault OutOfBounds)
  | Some dc => zoom (fun s => (dram s) <| DRAMInterface.bus := bus s |>)
                 (fun d s => s <| dram := d |> <| bus := DRAMInterface.bus d |>) (m dc (view s))
  end.
Definition on_nvm {B} (m : NVMInterface.NConfig -> DRAMInterface.CtrlView -> comp NVMInterface.nvm B) : comp t B :=
  s ← get;
  match nvm_cfg c with
  | None => lift (Fault OutOfBounds)
  | Some nc => zoom (fun s => (nvm s) <| NVMInterface.nbus := bus s |>)
                 (fun d s => s <| nvm := d |> <| bus := NVMInterface.nbus d |>) (m nc (view s))
  end.
Definition has_dram : bool := match dram_cfg c with Some _ => true | None => false end.
Definition has_nvm : bool := match nvm_cfg c with Some _ => true | None => false end.
Definition count_stat (g : Stats -> Stats) : comp t unit := modify (fun s => s <| stats ::= g |>).

Definition bytesPerBurst (is_dram : bool) : Z :=
  if is_dram then match dram_cfg c with Some dc => DRAMInterface.burstSize dc | None => 0 end
  else match nvm_cfg c with Some nc => DRAMInterface.burstSize (NVMInterface.mem nc) | None => 0 end.
Definition burstAlign (a : Z) (is_dram : bool) : Z := Z.ldiff a (bytesPerBurst is_dram - 1).

Definition readQueueFull (neededEntries : Z) (s : t) : bool :=
  readBufferSize c <? u64 (totalReadQueueSize (base s) + zlen (respQueue s) + neededEntries).
Definition writeQueueFull (neededEntries : Z) (s : t) : bool :=
  writeBufferSize c <? u64 (totalWriteQueueSize (base s) + neededEntries).

(** Which interface holds the address. *)
Definition media_of (a : Z) : result bool :=
  if has_dram && AddrRange.contains (dram_range c) a then Ok true
  else if has_nvm && AddrRange.contains (nvm_range c) a then Ok false
  else Fault Panic.

(** [if (!nextReqEvent.scheduled()) schedule(nextReqEvent, when)] *)
Definition schedule_next (when : Z) : comp t unit :=
  s ← get;
  when_ (negb (scheduled (nextReqEvent s))) (
    e ← lift (Packet.schedule now (nextReqEvent s) when);
    modify (fun s => s <| nextReqEvent := e |>)).

(** ** Answers *)

Definition accessAndRespond (p : Packet) (static_latency : Z) : comp t unit :=
  let needsResponse := pkt_needsResponse p in
  _ ← lift (media_of (pkt_addr p));
  let p := access p in
  if needsResponse then
    assert_ (pkt_isResponse p);;
    let response_time := u64 (now + static_latency + headerDelay p + payloadDelay p) in
    let p := p <| headerDelay := 0 |> <| payloadDelay := 0 |> in
    modify (fun s => s <| sent ::= fun l => l ++ [(p, response_time)] |>)
  else mret tt.

Definition recvAtomic (p : Packet) : result (Packet * Z) :=
  if cacheResponding p then Fault Panic else
  is_dram ← media_of (pkt_addr p);
  let latency := if is_dram : bool then match dram_cfg c with Some dc => DRAMInterface.accessLatency dc | None => 0 end
                 else match nvm_cfg c with Some nc => NVMInterface.n_accessLatency nc | None => 0 end in
  Ok (access p, if pkt_hasData (access p) then latency else 0).

(** ** Bursts *)

(** The next burst boundary, [(addr | (burst_size - 1)) + 1], and the bytes up to it. *)
Definition next_burst (burst_size a : Z) : Z := u64 (Z.lor a (burst_size - 1) + 1).
Definition piece_size (burst_size base_addr pkt_size a : Z) : Z :=
  u32 (u64 (Z.min (next_burst burst_size a) (u64 (base_addr + pkt_size)) - a)).

(** [decodePacket] of either interface, into a fresh allocation. *)
Definition decode (is_dram : bool) (p : Packet) (a size : Z) (is_read : bool) : comp t MemPacket :=
  s ← get;
  let k := allocs s in
  off ← lift (AddrRange.getOffset (if is_dram then dram_range c else nvm_range c) a);
  dc ← lift (match (if is_dram then dram_cfg c else NVMInterface.mem <$> nvm_cfg c) with
             | Some dc => Ok dc | None => Fault OutOfBounds end);
  mem_pkt ← lift (DRAMInterface.decodePacket dc (fun _ => off) (mem k) now p a size is_read is_dram);
  modify (fun s => s <| allocs := S k |>);;
  mret mem_pkt.
(** The packet of a burst: decoded, shown to the defence, counted by its rank. *)
Definition new_packet (is_dram : bool) (p : Packet) (a size : Z) (is_read : bool) : comp t MemPacket :=
  mem_pkt ← decode is_dram p a size is_read;
  if is_dram then
    mem_pkt ← (if rh_defense_enable c
               then zoom rh_defense (fun d s => s <| rh_defense := d |>)
                      (Defense.defend rand_stream (rh_mitigation c) now mem_pkt)
               else mret mem_pkt);
    on_dram (fun _ _ => DRAMInterface.setupRank (rank mem_pkt) is_read);;
    mret mem_pkt
  else
    on_nvm (fun _ _ => NVMInterface.n_setupRank is_read);;
    mret (if is_read then mem_pkt <| readyTime := MaxTick |> else mem_pkt).

Definition push_back (q : list (list MemPacket)) (p : MemPacket) : result (list (list MemPacket)) :=
  l ← aread q (qosValue p); awrite q (qosValue p) (l ++ [p]).

(** In how many queues of the write buffer a packet covers the bytes. *)
Definition covers (a size : Z) (p : MemPacket) : bool :=
  (addr p <=? a) && (u64 (a + size) <=? u64 (addr p + Packet.size p)).
Definition found_in (q : list (list MemPacket)) (a size : Z) : Z :=
  lsum (fun l => Z.b2z (existsb (covers a size) l)) q.

(** The variables of the loop over the bursts of a read. *)
Record ReadLoop := mkLoop { next_addr : Z; pktsServicedByWrQ : Z; burst_helper : option Z }.

(** [if (pkt_count > 1 && burst_helper == NULL) burst_helper = new BurstHelper(pkt_count)] *)
Definition get_helper (pkt_count : Z) (h : option Z) : comp t (option Z) :=
  match h with
  | Some _ => mret h
  | None =>
      if 1 <? pkt_count then
        s ← get;
        let k := Z.of_nat (allocs s) in
        modify (fun s => s <| helpers ::= <[k := mkHelper pkt_count 0]> |> <| allocs ::= S |>);;
        mret (Some k)
      else mret None
  end.
(** A burst that the write queue does not answer gets a packet in the read queue. *)
Definition place_read (p : Packet) (pkt_count : Z) (is_dram : bool) (a size : Z) (h : option Z) : comp t (option Z) :=
  h ← get_helper pkt_count h;
  mem_pkt ← new_packet is_dram p a size true;
  let mem_pkt := mem_pkt <| burstHelper := h |> in
  s ← get;
  assert_ (negb (readQueueFull 1 s));;
  q ← lift (push_back (readQueue s) mem_pkt);
  modify (fun s => s <| readQueue := q |>);;
  on_base (logRequest now READ (pkt_requestorId p) (pkt_qosValue p) (addr mem_pkt) 1);;
  mret h.
Definition read_burst (p : Packet) (pkt_count : Z) (is_dram : bool) (l : ReadLoop) : comp t ReadLoop :=
  let burst_size := bytesPerBurst is_dram in
  let a := next_addr l in
  let size := piece_size burst_size (pkt_addr p) (pkt_size p) a in
  count_stat (fun st => st <| readBursts ::= Z.succ |>);;
  s ← get;
  let found := if decide (burstAlign a is_dram ∈ isInWriteQueue s) then found_in (writeQueue s) a size else 0 in
  count_stat (fun st => st <| servicedByWrQ ::= Z.add found |> <| bytesReadWrQ ::= Z.add (found * burst_size) |>);;
  h ← (if 0 <? found then mret (burst_helper l) else place_read p pkt_count is_dram a size (burst_helper l));
  mret (mkLoop (next_burst burst_size a) (u32 (pktsServicedByWrQ l + found)) h).
Fixpoint read_bursts (n : nat) (p : Packet) (pkt_count : Z) (is_dram : bool) (l : ReadLoop) : comp t ReadLoop :=
  match n with
  | O => mret l
  | S n' => l ← read_burst p pkt_count is_dram l; read_bursts n' p pkt_count is_dram l
  end.
Definition set_serviced (h : option Z) (n : Z) : comp t unit :=
  match h with
  | None => mret tt
  | Some k => modify (fun s => s <| helpers ::= alter (fun b => b <| burstsServiced := n |>) k |>)
  end.
Definition addToReadQueue (p : Packet) (pkt_count : Z) (is_dram : bool) : comp t unit :=
  assert_ (negb (pkt_write p));;
  assert_ (negb (pkt_count =? 0));;
  l ← read_bursts (Z.to_nat pkt_count) p pkt_count is_dram (mkLoop (pkt_addr p) 0 None);
  if pktsServicedByWrQ l =? pkt_count then accessAndRespond p (frontendLatency c)
  else
    set_serviced (burst_helper l) (pktsServicedByWrQ l);;
    schedule_next now.

(** A burst that is not in the write queue yet gets a packet there. *)
Definition place_write (p : Packet) (is_dram : bool) (a size : Z) : comp t unit :=
  mem_pkt ← new_packet is_dram p a size false;
  s ← get;
  assert_ (totalWriteQueueSize (base s) <? writeBufferSize c);;
  q ← lift (push_back (writeQueue s) mem_pkt);
  modify (fun s => s <| writeQueue := q |> <| isInWriteQueue ::= fun l => {[ burstAlign a is_dram ]} ∪ l |>);;
  on_base (logRequest now WRITE (pkt_requestorId p) (pkt_qosValue p) (addr mem_pkt) 1);;
  s ← get;
  assert_ (totalWriteQueueSize (base s) =? Z.of_nat (stdpp.base.size (isInWriteQueue s))).
Definition write_burst (p : Packet) (is_dram : bool) (a : Z) : comp t Z :=
  let burst_size := bytesPerBurst is_dram in
  let size := piece_size burst_size (pkt_addr p) (pkt_size p) a in
  count_stat (fun st => st <| writeBursts ::= Z.succ |>);;
  s ← get;
  (if decide (burstAlign a is_dram ∈ isInWriteQueue s) then count_stat (fun st => st <| mergedWrBursts ::= Z.succ |>)
   else place_write p is_dram a size);;
  mret (next_burst burst_size a).
Fixpoint write_bursts (n : nat) (p : Packet) (is_dram : bool) (a : Z) : comp t Z :=
  match n with
  | O => mret a
  | S n' => a ← write_burst p is_dram a; write_bursts n' p is_dram a
  end.
Definition addToWriteQueue (p : Packet) (pkt_count : Z) (is_dram : bool) : comp t unit :=
  assert_ (pkt_write p);;
  write_bursts (Z.to_nat pkt_count) p is_dram (pkt_addr p);;
  accessAndRespond p (frontendLatency c);;
  schedule_next now.

(** ** Requests *)

Definition burst_count (is_dram : bool) (p : Packet) : result Z :=
  let offset := u32 (Z.land (pkt_addr p) (bytesPerBurst is_dram - 1)) in
  divCeil (u32 (offset + pkt_size p)) (bytesPerBurst is_dram).
Definition accept (p : Packet) (pkt_count : Z) (is_dram : bool) : comp t bool :=
  s ← get;
  if pkt_write p then
    assert_ (negb (pkt_size p =? 0));;
    if writeQueueFull pkt_count s
    then modify (fun s => s <| retryWrReq := true |>);; count_stat (fun st => st <| numWrRetry ::= Z.succ |>);; mret false
    else
      addToWriteQueue p pkt_count is_dram;;
      count_stat (fun st => st <| writeReqs ::= Z.succ |> <| bytesWrittenSys ::= Z.add (pkt_size p) |>);; mret true
  else
    assert_ (pkt_read p);;
    assert_ (negb (pkt_size p =? 0));;
    if readQueueFull pkt_count s
    then modify (fun s => s <| retryRdReq := true |>);; count_stat (fun st => st <| numRdRetry ::= Z.succ |>);; mret false
    else
      addToReadQueue p pkt_count is_dram;;
      count_stat (fun st => st <| readReqs ::= Z.succ |> <| bytesReadSys ::= Z.add (pkt_size p) |>);; mret true.
Definition recvTimingReq (p : Packet) : comp t bool :=
  if cacheResponding p then lift (Fault Panic) else
  if negb (pkt_read p || pkt_write p) then lift (Fault Panic) else
  s ← get;
  when_ (negb (prevArrival s =? 0)) (count_stat (fun st => st <| totGap ::= Z.add (tsub now (prevArrival s)) |>));;
  modify (fun s => s <| prevArrival := now |>);;
  is_dram ← lift (media_of (pkt_addr p));
  pkt_count ← lift (burst_count is_dram p);
  '(_, p) ← on_queues (qosSchedule now (bytesPerBurst is_dram) p);
  accept p pkt_count is_dram.

(** The requestor, told to retry, sends packets until one is refused. *)
Fixpoint retry (offers : list Packet) : comp t unit :=
  match offers with
  | [] => mret tt
  | p :: offers' => accepted ← recvTimingReq p; if (accepted : bool) then retry offers' else mret tt
  end.
Definition sendRetryReq (offers : list Packet) : comp t unit :=
  modify (fun s => s <| retries ::= Z.succ |>);; retry offers.
End Code.
End MemCtrl.
