(* ===== verification/MemCtrlSched.v ===== *)
(** The scheduler of the memory controller and its events ([mem/mem_ctrl.cc]): the choice
    of a packet, its burst, the turns of the bus, responses and draining. *)
From S2P Require Import Prelude AddrRange Mitigation CmdBus Packet Dram Refresh NVM Defense QoSPolicy QoS MemSink MemCtrl.
From stdpp Require Import gmap.
Open Scope Z_scope.

Module Sched.
Import QoS MemCtrl.

(** The events of a rank, its power event apart. *)
Inductive rank_event := activate_event | precharge_event | write_done_event | wake_up_event | refresh_event.

Section Code.
Context `{!StdLib, !Medium} (rand_stream : nat -> Z) (mem : nat -> Alloc) (c : Config) (now : Z).

(** ** The choice of a packet *)

Definition dram_of (s : t) : result (DRAMInterface.Config * list DRAMInterface.Rank) :=
  match dram_cfg c with Some dc => Ok (dc, DRAMInterface.ranks (dram s)) | None => Fault OutOfBounds end.
Definition nvm_of : result NVMInterface.NConfig :=
  match nvm_cfg c with Some nc => Ok nc | None => Fault OutOfBounds end.

Definition packetReady (s : t) (p : MemPacket) : result bool :=
  if isDram p then '(_, rs) ← dram_of s; DRAMInterface.burstReady rs p
  else nc ← nvm_of; Ok (NVMInterface.n_burstReady nc now (view s) (nvm s) p).

(** The positions of the packets chosen; [None] is [queue.end()]. *)
Definition chooseNextFRFCFS (s : t) (queue : list MemPacket) (extra_col_delay : Z) : result (option Z) :=
  let min_col_at := Z.max (tadd (nextBurstAt s) extra_col_delay) now in
  let from_dram := '(dc, rs) ← dram_of s; DRAMInterface.chooseNextFRFCFS dc now (view s) rs queue min_col_at in
  let from_nvm := nc ← nvm_of; NVMInterface.n_chooseNextFRFCFS nc now (view s) (nvm s) queue min_col_at in
  match has_dram c, has_nvm c with
  | true, true =>
      '(selected_pkt_it, col_allowed_at) ← from_dram;
      '(nvm_pkt_it, nvm_col_at) ← from_nvm;
      Ok (if nvm_col_at <? col_allowed_at then nvm_pkt_it else selected_pkt_it)
  | true, false => '(it, _) ← from_dram; Ok it
  | false, true => '(it, _) ← from_nvm; Ok it
  | false, false => Ok None
  end.
(** The first packet that is ready. *)
Fixpoint first_ready (s : t) (q : list MemPacket) (i : Z) : result (option Z) :=
  match q with
  | [] => Ok None
  | p :: q' => ready ← packetReady s p; if ready : bool then Ok (Some i) else first_ready s q' (i + 1)
  end.
Definition chooseNext (s : t) (queue : list MemPacket) (extra_col_delay : Z) : result (option Z) :=
  match queue with
  | [] => Ok None
  | [mem_pkt] => ready ← packetReady s mem_pkt; Ok (if ready : bool then Some 0 else None)
  | _ =>
      match memSchedPolicy c with
      | Some fcfs => first_ready s queue 0
      | Some frfcfs => chooseNextFRFCFS s queue extra_col_delay
      | None => Fault Panic
      end
  end.
(** The queues of one direction, the highest priority first: the priority and the
    position of the candidate. *)
Fixpoint pick (s : t) (v : list (list MemPacket)) (extra_col_delay : Z) (n : nat) : result (option (Z * Z)) :=
  match n with
  | O => Ok None
  | S n' =>
      queue ← aread v (Z.of_nat n');
      it ← chooseNext s queue extra_col_delay;
      match it with Some i => Ok (Some (Z.of_nat n', i)) | None => pick s v extra_col_delay n' end
  end.

Definition min_gap (dram_gap : DRAMInterface.Config -> Z) (nvm_gap : DRAMInterface.Config -> Z) : Z :=
  Z.min (match dram_cfg c with Some dc => dram_gap dc | None => MaxTick end)
        (match nvm_cfg c with Some nc => nvm_gap (NVMInterface.mem nc) | None => MaxTick end).
Definition minReadToWriteDataGap : Z := min_gap DRAMInterface.minReadToWriteDataGap DRAMInterface.minReadToWriteDataGap.
Definition minWriteToReadDataGap : Z := min_gap DRAMInterface.minWriteToReadDataGap DRAMInterface.minWriteToReadDataGap.

(** ** The burst *)

Definition selQueue (is_read : bool) (s : t) : list (list MemPacket) := if is_read then readQueue s else writeQueue s.
Definition commandOffset : Z :=
  match dram_cfg c with
  | Some dc => DRAMInterface.commandOffset dc
  | None => match nvm_cfg c with Some nc => NVMInterface.n_commandOffset nc | None => 0 end
  end.
Definition dram_burst (mem_pkt : MemPacket) : comp t MemPacket :=
  modify (fun s => s <| nextBurstAt ::= fun x => tadd x (Defense.bubble (rh_defense_enable c) mem_pkt) |>);;
  s ← get;
  '(mem_pkt, (cmd_at, next)) ← on_dram c (fun dc _ =>
     DRAMInterface.doBurstAccess dc now mem_pkt (nextBurstAt s) (selQueue (isRead mem_pkt) s));
  modify (fun s => s <| nextBurstAt := next |>);;
  when_ (has_nvm c) (on_nvm c (fun nc _ => NVMInterface.n_addRankToRankDelay nc cmd_at));;
  mret mem_pkt.
Definition nvm_burst (mem_pkt : MemPacket) : comp t MemPacket :=
  s ← get;
  '(mem_pkt, (cmd_at, next)) ← on_nvm c (fun nc _ => NVMInterface.n_doBurstAccess nc now mem_pkt (nextBurstAt s));
  modify (fun s => s <| nextBurstAt := next |>);;
  when_ (has_dram c) (on_dram c (fun dc _ => DRAMInterface.addRankToRankDelay dc cmd_at));;
  mret mem_pkt.
(** The packet comes back with its ready time. *)
Definition doBurstAccess (mem_pkt : MemPacket) : comp t MemPacket :=
  zoom bus (fun b s => s <| bus := b |>) (CmdBus.pruneBurstTick now);;
  mem_pkt ← (if isDram mem_pkt then dram_burst mem_pkt else nvm_burst mem_pkt);
  modify (fun s => s <| nextReqTime := tsub (nextBurstAt s) commandOffset |>);;
  modify (fun s => if isRead mem_pkt then s <| readsThisTime ::= fun n => u32 (n + 1) |>
                   else s <| writesThisTime ::= fun n => u32 (n + 1) |>);;
  mret mem_pkt.

(** ** The next request *)

Definition set_next (b : BusState) : comp t unit := on_base (modify (fun c => c <| busStateNext := b |>)).
(** The bus turns if it has to: does it? *)
Definition turn_bus : comp t bool :=
  s ← get;
  (match turnPolicy (base s) with
   | Some _ => b ← lift (selectNextBusState (base s)); set_next b
   | None => mret tt
   end);;
  s ← get;
  let switched_cmd_type := negb (bool_decide (busState (base s) = busStateNext (base s))) in
  on_base recordTurnaroundStats;;
  when_ switched_cmd_type (modify (fun s =>
    match busState (base s) with
    | READ => s <| stats ::= fun st => st <| rdPerTurnAround ::= fun l => l ++ [readsThisTime s] |> |> <| readsThisTime := 0 |>
    | WRITE => s <| stats ::= fun st => st <| wrPerTurnAround ::= fun l => l ++ [writesThisTime s] |> |> <| writesThisTime := 0 |>
    end));;
  on_base setCurrentBusState;;
  mret switched_cmd_type.

(** Reads of the NVM are issued, from the highest priority on. *)
Fixpoint issue_reads (n : nat) : comp t unit :=
  match n with
  | O => mret tt
  | S n' =>
      s ← get;
      nc ← lift nvm_of;
      when_ (NVMInterface.readsWaitingToIssue nc (nvm s)) (
        queue ← lift (aread (readQueue s) (Z.of_nat n'));
        queue ← on_nvm c (fun nc _ => NVMInterface.chooseRead nc now queue);
        s ← get;
        v ← lift (awrite (readQueue s) (Z.of_nat n') queue);
        modify (fun s => s <| readQueue := v |>));;
      issue_reads n'
  end.

(** Are the interfaces busy, and are all writes for the NVM? *)
Definition interfaces_busy : comp t (bool * bool) :=
  dram_busy ← (if has_dram c then on_dram c (fun dc v => Refresh.isBusy dc now v) else mret true);
  s ← get;
  match nvm_cfg c with
  | None => mret (dram_busy, false)
  | Some nc =>
      let all_writes_nvm := NVMInterface.numWritesQueued (nvm s) =? totalWriteQueueSize (base s) in
      let nvm_busy := NVMInterface.n_isBusy nc (view s) (totalReadQueueSize (base s) =? 0) all_writes_nvm (nvm s) in
      mret (dram_busy && nvm_busy, all_writes_nvm)
  end.
Definition allIntfDrained (s : t) : bool :=
  (negb (has_dram c) || Refresh.allRanksDrained (dram s)) && (negb (has_nvm c) || NVMInterface.n_allRanksDrained (nvm s)).
Definition nvm_full (s : t) : bool :=
  match nvm_cfg c with Some nc => NVMInterface.writeRespQueueFull nc (nvm s) | None => false end.

(** [queue.erase(it)]; the iterator belongs to the queue of priority [k]. *)
Definition erase (v : list (list MemPacket)) (p : MemPacket) (k i : Z) : result (list (list MemPacket)) :=
  if negb (qosValue p =? k) then Fault OutOfBounds else
  q ← aread v k;
  awrite v k (take (Z.to_nat i) q ++ drop (S (Z.to_nat i)) q).

(** The read waits in the response queue until it is ready. *)
Definition push_response (p : MemPacket) : comp t unit :=
  s ← get;
  (match last (respQueue s) with
   | None =>
       e ← lift (Packet.schedule now (respondEvent s) (readyTime p));
       modify (fun s => s <| respondEvent := e |>)
   | Some back => assert_ (readyTime back <=? readyTime p);; assert_ (scheduled (respondEvent s))
   end);;
  modify (fun s => s <| respQueue ::= fun l => l ++ [p] |>).

(** The results of the two branches: whether the handler goes on. *)
Definition no_reads : comp t bool :=
  s ← get;
  if negb (totalWriteQueueSize (base s) =? 0)
     && (bool_decide (drainState s = Draining) || (writeLowThreshold c <? totalWriteQueueSize (base s)))
  then set_next WRITE;; mret true
  else
    when_ (bool_decide (drainState s = Draining) && (match respQueue s with [] => true | _ => false end) && allIntfDrained s)
      (modify (fun s => s <| drainState := Drained |>));;
    mret false.
Definition serve_read (switched_cmd_type all_writes_nvm : bool) : comp t bool :=
  s ← get;
  to_read ← lift (pick s (readQueue s) (if switched_cmd_type then minWriteToReadDataGap else 0) (length (readQueue s)));
  match to_read with
  | None => mret false
  | Some (k, i) =>
      queue ← lift (aread (readQueue s) k);
      p ← lift (aread queue i);
      mem_pkt ← doBurstAccess p;
      assert_ (Packet.size mem_pkt <=? bytesPerBurst c (isDram mem_pkt));;
      assert_ (now <=? readyTime mem_pkt);;
      on_base (logResponse now READ (requestorId mem_pkt) (qosValue mem_pkt) (addr mem_pkt) 1
        (tsub (readyTime mem_pkt) (entryTime mem_pkt)));;
      push_response mem_pkt;;
      s ← get;
      v ← lift (erase (readQueue s) mem_pkt k i);
      modify (fun s => s <| readQueue := v |>);;
      when_ ((writeHighThreshold c <? totalWriteQueueSize (base s)) && negb (has_nvm c && all_writes_nvm && nvm_full s))
        (set_next WRITE);;
      mret true
  end.
Definition serve_write (switched_cmd_type all_writes_nvm : bool) : comp t bool :=
  s ← get;
  to_write ← lift (pick s (writeQueue s) (if switched_cmd_type then minReadToWriteDataGap else 0) (length (writeQueue s)));
  match to_write with
  | None => mret false
  | Some (k, i) =>
      queue ← lift (aread (writeQueue s) k);
      p ← lift (aread queue i);
      assert_ (Packet.size p <=? bytesPerBurst c (isDram p));;
      mem_pkt ← doBurstAccess p;
      modify (fun s => s <| isInWriteQueue ::= fun l => l ∖ {[ burstAlign c (addr mem_pkt) (isDram mem_pkt) ]} |>);;
      on_base (logResponse now WRITE (requestorId mem_pkt) (qosValue mem_pkt) (addr mem_pkt) 1
        (tsub (readyTime mem_pkt) (entryTime mem_pkt)));;
      s ← get;
      v ← lift (erase (writeQueue s) mem_pkt k i);
      modify (fun s => s <| writeQueue := v |>);;
      let writes := totalWriteQueueSize (base s) in
      let reads := totalReadQueueSize (base s) in
      let below_threshold := u64 (writes + minWritesPerSwitch c) <? writeLowThreshold c in
      when_ ((writes =? 0) || below_threshold && negb (bool_decide (drainState s = Draining))
             || negb (reads =? 0) && (minWritesPerSwitch c <=? writesThisTime s)
             || negb (reads =? 0) && has_nvm c && nvm_full s && all_writes_nvm)
        (set_next READ);;
      mret true
  end.
Definition serve (switched_cmd_type all_writes_nvm : bool) : comp t bool :=
  s ← get;
  match busState (base s) with
  | READ => if totalReadQueueSize (base s) =? 0 then no_reads else serve_read switched_cmd_type all_writes_nvm
  | WRITE => serve_write switched_cmd_type all_writes_nvm
  end.

(** [offers] are the packets of the requestor, if this event tells it to retry.  The
    event queue has taken the event off before it runs it. *)
Definition processNextReqEvent (offers : list Packet) : comp t unit :=
  modify (fun s => s <| nextReqEvent := None |>);;
  switched_cmd_type ← turn_bus;
  s ← get;
  when_ (has_nvm c) (issue_reads (length (readQueue s)));;
  '(busy, all_writes_nvm) ← interfaces_busy;
  if busy : bool then mret tt
  else
    goes_on ← serve switched_cmd_type all_writes_nvm;
    if goes_on : bool then
      s ← get;
      schedule_next now (Z.max (nextReqTime s) now);;
      s ← get;
      when_ (retryWrReq s && (totalWriteQueueSize (base s) <? writeBufferSize c)) (
        modify (fun s => s <| retryWrReq := false |>);; sendRetryReq rand_stream mem c now offers)
    else mret tt.

(** ** Responses *)

(** A burst of a split packet is served: is the packet complete? *)
Definition burst_serviced (k : Z) : comp t bool :=
  s ← get;
  match helpers s !! k with
  | None => lift (Fault OutOfBounds)
  | Some h =>
      let n := u32 (burstsServiced h + 1) in
      modify (fun s => s <| helpers ::= <[k := h <| burstsServiced := n |>]> |>);;
      if n =? burstCount h then modify (fun s => s <| helpers ::= delete k |>);; mret true else mret false
  end.
Definition respond (mem_pkt : MemPacket) : comp t unit :=
  accessAndRespond c now (pkt mem_pkt)
    (if rh_defense_enable c && negb (pkt_isResponse (pkt mem_pkt))
     then u64 (rh_SRAMDelay mem_pkt + frontendLatency c + backendLatency c) else u64 (frontendLatency c + backendLatency c)).
(** The response leaves the queue, and is sent when its packet is complete; [l] are the
    responses behind it. *)
Definition pop_response (mem_pkt : MemPacket) (l : list MemPacket) : comp t unit :=
  complete ← (match burstHelper mem_pkt with Some k => burst_serviced k | None => mret true end);
  when_ complete (respond mem_pkt);;
  modify (fun s => s <| respQueue := l |>).
(** The event of the next response, or what is left to do without one. *)
Definition next_response (mem_pkt : MemPacket) : comp t unit :=
  s ← get;
  match respQueue s with
  | front :: _ =>
      assert_ (now <=? readyTime front);;
      e ← lift (Packet.schedule now (respondEvent s) (readyTime front));
      modify (fun s => s <| respondEvent := e |>)
  | [] =>
      if bool_decide (drainState s = Draining) && (totalWriteQueueSize (base s) =? 0) && (totalReadQueueSize (base s) =? 0)
         && allIntfDrained s
      then modify (fun s => s <| drainState := Drained |>)
      else when_ (isDram mem_pkt) (on_dram c (fun _ _ => Refresh.checkRefreshState now (rank mem_pkt)))
  end.
Definition processRespondEvent (offers : list Packet) : comp t unit :=
  modify (fun s => s <| respondEvent := None |>);;
  s ← get;
  match respQueue s with
  | [] => lift (Fault OutOfBounds)
  | mem_pkt :: l =>
      when_ (isDram mem_pkt) (on_dram c (fun dc v => Refresh.respondEvent dc now v (rank mem_pkt)));;
      pop_response mem_pkt l;;
      next_response mem_pkt;;
      s ← get;
      when_ (retryRdReq s) (
        modify (fun s => s <| retryRdReq := false |>);; sendRetryReq rand_stream mem c now offers)
  end.

(** ** The events of the interfaces *)

(** [ctrl->restartScheduler(curTick())], when the handler asks for it. *)
Definition restart (b : bool) : comp t unit :=
  when_ b (s ← get; e ← lift (Packet.schedule now (nextReqEvent s) now); modify (fun s => s <| nextReqEvent := e |>)).
Definition rankEvent (j : Z) (e : rank_event) : comp t unit :=
  on_dram c (fun dc v =>
    d ← (get : comp DRAMInterface.t _);
    DRAMInterface.on_rb j (match e with
      | activate_event => Refresh.processActivateEvent now
      | precharge_event => Refresh.processPrechargeEvent dc now v
      | write_done_event => Refresh.processWriteDoneEvent
      | wake_up_event => Refresh.processWakeUpEvent now
      | refresh_event => Refresh.processRefreshEvent dc now v (DRAMInterface.activeRank d)
      end)).
Definition powerEvent (j : Z) : comp t unit :=
  b ← on_dram c (fun dc v => DRAMInterface.on_rb j (Refresh.processPowerEvent dc now v)); restart b.
Definition readReadyEvent : comp t unit :=
  b ← on_nvm c (fun _ v => NVMInterface.processReadReadyEvent now v); restart b.
Definition writeRespondEvent : comp t unit :=
  b ← on_nvm c (fun _ v => NVMInterface.processWriteRespondEvent now v); restart b.

(** ** Modes and draining *)

Definition startup (timing : bool) : comp t unit :=
  modify (fun s => s <| isTimingMode := timing |>);;
  when_ timing (modify (fun s => s <| nextBurstAt := tadd now commandOffset |>)).
(** [drainState] is [Draining] while [drain] runs, and then what it returns. *)
Definition drain : comp t DrainState :=
  modify (fun s => s <| drainState := Draining |>);;
  s ← get;
  if negb ((totalWriteQueueSize (base s) =? 0) && (totalReadQueueSize (base s) =? 0)
           && (match respQueue s with [] => true | _ => false end) && allIntfDrained s)
  then
    when_ (totalWriteQueueSize (base s) =? 0) (schedule_next now now);;
    when_ (has_dram c) (on_dram c (fun dc _ => Refresh.drainRanks dc now));;
    mret Draining
  else modify (fun s => s <| drainState := Drained |>);; mret Drained.
(** [timing] is the mode the system is in now. *)
Definition drainResume (timing : bool) : comp t unit :=
  modify (fun s => s <| drainState := Running |>);;
  s ← get;
  (if negb (isTimingMode s) && timing then
     startup timing;; on_dram c (fun dc _ => Refresh.startup dc now)
   else when_ (isTimingMode s && negb timing) (when_ (has_dram c) (on_dram c (fun dc _ => Refresh.suspend dc now))));;
  modify (fun s => s <| isTimingMode := timing |>).
End Code.
End Sched.
