(* ===== verification/MemCtrlSplit.v ===== *)
(** How the memory controller splits a request into bursts: the loop of [addToReadQueue]
    and [addToWriteQueue] ([mem/mem_ctrl.cc]) against the bursts the request touches. *)
From S2P Require Import Prelude AddrRange Packet QoS Dram MemCtrl.
From Stdlib Require String.
Open Scope Z_scope.
Import MemCtrl.

Module Split.

(** ** Bursts of [2 ^ k] bytes *)

Lemma low_ones k i : 0 <= k -> 0 <= i -> Z.testbit (2 ^ k - 1) i = (i <? k).
Proof.
  intros Hk Hi. replace (2 ^ k - 1) with (Z.ones k) by (rewrite Z.ones_equiv; lia). by apply Z.testbit_ones_nonneg.
Qed.
Lemma lor_low a k : 0 <= k -> Z.lor a (2 ^ k - 1) + 1 = (a / 2 ^ k + 1) * 2 ^ k.
Proof.
  intros Hk. enough (Z.lor a (2 ^ k - 1) = a / 2 ^ k * 2 ^ k + (2 ^ k - 1)) by lia.
  rewrite <- Z.shiftr_div_pow2, <- Z.shiftl_mul_pow2 by lia.
  assert (Z.land (Z.shiftl (Z.shiftr a k) k) (2 ^ k - 1) = 0) as Hd.
  { apply Z.bits_inj'. intros i Hi. autorewrite with bits. rewrite low_ones by lia.
    destruct (Z.ltb_spec i k); [by rewrite Z.testbit_neg_r by lia|by rewrite andb_false_r]. }
  rewrite Z.add_nocarry_lxor, Z.lxor_lor by done. apply Z.bits_inj'. intros i Hi. autorewrite with bits.
  rewrite low_ones by lia. destruct (Z.ltb_spec i k); [by rewrite !orb_true_r|]. rewrite !orb_false_r, Z.shiftr_spec by lia.
  f_equal. lia.
Qed.
Lemma ldiff_low a k : 0 <= k -> Z.ldiff a (2 ^ k - 1) = a / 2 ^ k * 2 ^ k.
Proof.
  intros Hk. rewrite <- Z.shiftr_div_pow2, <- Z.shiftl_mul_pow2 by lia. apply Z.bits_inj'. intros i Hi. autorewrite with bits.
  rewrite low_ones by lia. destruct (Z.ltb_spec i k).
  - rewrite andb_false_r. by rewrite Z.testbit_neg_r by lia.
  - rewrite andb_true_r, Z.shiftr_spec by lia. f_equal. lia.
Qed.
Lemma land_low a k : 0 <= k -> Z.land a (2 ^ k - 1) = a mod 2 ^ k.
Proof. intros Hk. replace (2 ^ k - 1) with (Z.ones k) by (rewrite Z.ones_equiv; lia). by apply Z.land_ones. Qed.

(** The number of the burst of an address, and a burst size that is a power of two. *)
Definition burst_no (bs a : Z) : Z := a / bs.
Definition pow2 (bs : Z) : Prop := exists k, 0 <= k < 32 /\ bs = 2 ^ k.
Lemma pow2_pos bs : pow2 bs -> 0 < bs <= 2 ^ 31.
Proof.
  intros (k & Hk & ->). split; [apply Z.pow_pos_nonneg; lia|apply Z.pow_le_mono_r; lia].
Qed.
(** No burst of the request is at the end of the address space. *)
Definition in_space (bs base size : Z) : Prop := 0 <= base /\ 0 < size < 2 ^ 31 /\ base + size + bs < 2 ^ 64.

Lemma next_burst_eq bs a : pow2 bs -> 0 <= a -> a + bs < 2 ^ 64 -> next_burst bs a = (burst_no bs a + 1) * bs.
Proof.
  intros Hbs Ha H64. pose proof (pow2_pos bs Hbs) as Hp. destruct Hbs as (k & Hk & ->). unfold next_burst, burst_no.
  rewrite lor_low by lia. apply u64_small.
  pose proof (Z.div_mod a (2 ^ k)). pose proof (Z.mod_pos_bound a (2 ^ k)). nia.
Qed.
Lemma piece_size_eq bs base size a : pow2 bs -> in_space bs base size -> base <= a < base + size ->
  piece_size bs base size a = Z.min ((burst_no bs a + 1) * bs) (base + size) - a.
Proof.
  intros Hbs (Hb & Hs & H64) Ha. pose proof (pow2_pos bs Hbs). unfold piece_size. rewrite next_burst_eq by (done || lia).
  unfold burst_no. pose proof (Z.div_mod a bs). pose proof (Z.mod_pos_bound a bs).
  rewrite (u64_small (base + size)) by lia. rewrite u64_small by nia. apply u32_small. nia.
Qed.

(** ** The pieces *)

(** The pieces of the loop, from address [a] on. *)
Fixpoint pieces (n : nat) (bs base size a : Z) : list (Z * Z) :=
  match n with O => [] | S n' => (a, piece_size bs base size a) :: pieces n' bs base size (next_burst bs a) end.
(** The part of a request that lies in burst [j]. *)
Definition part_of (bs base size j : Z) : Z * Z :=
  let lo := Z.max base (j * bs) in (lo, Z.min ((j + 1) * bs) (base + size) - lo).

Lemma pieces_from (n : nat) bs base size a : pow2 bs -> in_space bs base size -> base <= a ->
  burst_no bs a + Z.of_nat n = burst_no bs (base + size - 1) + 1 -> (base = a \/ burst_no bs a * bs = a /\ base < a) ->
  pieces n bs base size a = part_of bs base size <$> seqZ (burst_no bs a) (Z.of_nat n).
Proof.
  intros Hbs Hsp. pose proof (pow2_pos bs Hbs) as Hp. pose proof Hsp as (Hb & Hs & H64).
  revert a. induction n as [|n IH]; intros a Ha Hn Hstart; [done|]. cbn [pieces].
  rewrite seqZ_cons by lia. cbn [fmap list_fmap]. replace (Z.pred (Z.of_nat (S n))) with (Z.of_nat n) by lia.
  assert (a < base + size) as Hlt.
  { unfold burst_no in Hn. assert (a / bs <= (base + size - 1) / bs) as Hle by lia.
    destruct (Z.lt_ge_cases a (base + size)) as [|Hge]; [done|].
    destruct Hstart as [->|[E ?]]; [lia|]. unfold burst_no in E.
    pose proof (Z.div_mod (base + size - 1) bs). pose proof (Z.mod_pos_bound (base + size - 1) bs). nia. }
  assert (Z.max base (burst_no bs a * bs) = a) as Elo.
  { destruct Hstart as [<-|[E ?]]; [|lia]. unfold burst_no. pose proof (Z.mul_div_le base bs). lia. }
  assert (part_of bs base size (burst_no bs a) = (a, piece_size bs base size a)) as ->.
  { unfold part_of. rewrite Elo. by rewrite piece_size_eq by (done || lia). }
  assert (burst_no bs (next_burst bs a) = burst_no bs a + 1) as En.
  { rewrite next_burst_eq by (done || lia). unfold burst_no. by rewrite Z.div_mul by lia. }
  f_equal. rewrite <- Z.add_1_r, <- En. destruct n as [|n]; [done|]. apply IH.
  - rewrite next_burst_eq by (done || lia). unfold burst_no. pose proof (Z.div_mod a bs). pose proof (Z.mod_pos_bound a bs). nia.
  - lia.
  - right. rewrite En. rewrite next_burst_eq by (done || lia). split; [done|].
    unfold burst_no. pose proof (Z.div_mod a bs). pose proof (Z.mod_pos_bound a bs). nia.
Qed.

Lemma burst_count_eq c d p : pow2 (bytesPerBurst c d) -> in_space (bytesPerBurst c d) (pkt_addr p) (pkt_size p) ->
  exists n, burst_count c d p = Ok n /\ 0 < n < 2 ^ 32 /\
    burst_no (bytesPerBurst c d) (pkt_addr p) + n = burst_no (bytesPerBurst c d) (pkt_addr p + pkt_size p - 1) + 1.
Proof.
  intros Hbs (Hb & Hs & H64). pose proof (pow2_pos _ Hbs) as Hp. unfold burst_count.
  generalize dependent (bytesPerBurst c d). intros bs Hbs H64 Hp.
  assert (Z.land (pkt_addr p) (bs - 1) = pkt_addr p mod bs) as -> by (destruct Hbs as (k & ? & ->); apply land_low; lia).
  set (a := pkt_addr p) in *. set (sz := pkt_size p) in *. pose proof (Z.mod_pos_bound a bs ltac:(lia)) as Hm.
  rewrite (u32_small (a mod bs)) by lia.
  rewrite (u32_small (a mod bs + sz)) by lia. unfold QoS.divCeil. destruct (udiv _ bs) as [n|] eqn:E; unfold udiv in E;
    (destruct (Z.eqb_spec bs 0); [lia|]); [|done]. injection E as <-. eexists. split; [reflexivity|].
  unfold burst_no. pose proof (Z.div_mod a bs ltac:(lia)) as Da.
  assert ((a + sz - 1) / bs = a / bs + (a mod bs + sz - 1) / bs) as ->.
  { rewrite <- Z.div_add_l by lia. f_equal. lia. }
  assert ((a mod bs + sz + bs - 1) / bs = (a mod bs + sz - 1) / bs + 1) as ->.
  { rewrite <- Z.div_add by lia. f_equal. lia. }
  pose proof (Z.div_pos (a mod bs + sz - 1) bs ltac:(lia) ltac:(lia)).
  assert ((a mod bs + sz - 1) / bs < 2 ^ 32 - 1) by (apply Z.div_lt_upper_bound; nia). lia.
Qed.

Lemma burst_no_eq bs j x : 0 < bs -> j * bs <= x < (j + 1) * bs -> burst_no bs x = j.
Proof. intros Hbs Hx. unfold burst_no. symmetry. apply (Z.div_unique x bs j (x - j * bs)); lia. Qed.
Lemma burst_no_bounds bs x : 0 < bs -> burst_no bs x * bs <= x < (burst_no bs x + 1) * bs.
Proof. intros Hbs. unfold burst_no. pose proof (Z.div_mod x bs). pose proof (Z.mod_pos_bound x bs). nia. Qed.

Lemma part_in_burst bs base size j : 0 < bs -> 0 < size ->
  burst_no bs base <= j <= burst_no bs (base + size - 1) ->
  let x := part_of bs base size j in 0 < x.2 /\ burst_no bs x.1 = burst_no bs (x.1 + x.2 - 1).
Proof.
  intros Hbs Hs Hj. pose proof (burst_no_bounds bs base Hbs). pose proof (burst_no_bounds bs (base + size - 1) Hbs). cbn.
  assert (j * bs <= base + size - 1) by nia. assert (base < (j + 1) * bs) by nia. split; [lia|].
  rewrite !(burst_no_eq bs j); lia.
Qed.
Lemma sum_parts bs base size (n : nat) : 0 < bs -> 0 < size ->
  (burst_no bs base + Z.of_nat n) * bs < base + size ->
  lsum snd (part_of bs base size <$> seqZ (burst_no bs base) (Z.of_nat (S n))) =
    Z.min ((burst_no bs base + Z.of_nat (S n)) * bs) (base + size) - base.
Proof.
  intros Hbs Hs. pose proof (burst_no_bounds bs base Hbs). induction n as [|n IH]; intros Hn.
  - rewrite seqZ_cons, seqZ_nil by lia. unfold part_of. cbn [lsum fmap list_fmap snd]. lia.
  - rewrite seqZ_S, fmap_app, lsum_app, IH by lia. unfold part_of. cbn [lsum fmap list_fmap snd]. lia.
Qed.

(** C40. A request is split into exactly the bursts it touches: the loop of the controller
    takes, in order, the part of the request in each burst from the first to the last;
    no part is empty or crosses a burst boundary, and they add up to the request. *)
Theorem split_exact c d p : let bs := bytesPerBurst c d in
  pow2 bs -> in_space bs (pkt_addr p) (pkt_size p) ->
  exists n, burst_count c d p = Ok n /\
    let l := pieces (Z.to_nat n) bs (pkt_addr p) (pkt_size p) (pkt_addr p) in
    l = part_of bs (pkt_addr p) (pkt_size p) <$> seqZ (burst_no bs (pkt_addr p)) n /\
    Forall (fun x => 0 < x.2 /\ burst_no bs x.1 = burst_no bs (x.1 + x.2 - 1)) l /\ lsum snd l = pkt_size p.
Proof.
  intros bs Hbs Hsp. destruct (burst_count_eq c d p Hbs Hsp) as (n & E & Hn & Hno). exists n. split; [exact E|].
  pose proof (pow2_pos bs Hbs). pose proof Hsp as (Hb & Hs & H64). fold bs in Hno.
  assert (pieces (Z.to_nat n) bs (pkt_addr p) (pkt_size p) (pkt_addr p) =
    part_of bs (pkt_addr p) (pkt_size p) <$> seqZ (burst_no bs (pkt_addr p)) n) as El.
  { rewrite (pieces_from (Z.to_nat n)) by (done || lia || (by left)). by rewrite Z2Nat.id by lia. }
  cbn zeta. rewrite El. split; [done|].
  pose proof (burst_no_bounds bs (pkt_addr p + pkt_size p - 1) ltac:(lia)). split.
  - apply Forall_fmap, List.Forall_forall. intros j Hj%list_elem_of_In%elem_of_seqZ. apply part_in_burst; lia.
  - replace n with (Z.of_nat (S (Z.to_nat (n - 1)))) by lia. rewrite sum_parts by nia. nia.
Qed.

(** A read of 100 bytes at 1000 with bursts of 64 bytes. *)
Definition small : Config :=
  mkConfig (Some DRAMInterface.small) (AddrRange.mkRange 0 (2 ^ 20) [] 0) None (AddrRange.mkRange 0 0 [] 0) 8 8 6 4 2
    (Some frfcfs) 10 10 false String.EmptyString.
Definition request : Packet := mkPacket true false true 1000 100 3 0 true false false 0 0.
Lemma split_exact_witness : exists n, burst_count small true request = Ok n /\
  let l := pieces (Z.to_nat n) 64 1000 100 1000 in
  l = part_of 64 1000 100 <$> seqZ 15 n /\
  Forall (fun x => 0 < x.2 /\ burst_no 64 x.1 = burst_no 64 (x.1 + x.2 - 1)) l /\ lsum snd l = 100.
Proof.
  apply (split_exact small true request); [exists 6; by split|]. vm_compute. intuition congruence.
Defined.
Example small_pieces : pieces 3 64 1000 100 1000 = [(1000, 24); (1024, 64); (1088, 12)].
Proof. reflexivity. Qed.
End Split.
