(* ===== verification/MemCtrlInv.v ===== *)
(** The invariant of the memory controller with a DRAM interface ([mem/mem_ctrl.cc]): the
    queues stay within their buffers and agree with the counters, at most one write waits
    per burst, and every read is answered exactly once. *)
From S2P Require Import Prelude AddrRange Packet Dram QoSPolicy QoS QoSEscalate QoSAccount QoSSchedule QoSLife MemSink MemCtrl MemCtrlSched MemCtrlSplit.
From stdpp Require Import gmap.
Open Scope Z_scope.
Import QoS Escalate Account Schedule MemCtrl Sched Split.

Module CtrlInv.
#[local] Arguments vol : simpl never.
#[local] Arguments entries : simpl never.
#[local] Arguments weight : simpl never.
#[local] Arguments logRequest : simpl never.

(** ** Measures of the queues *)

Section Measures.
Context {A : Type} `{!QueuedPacket A} `{!QueuedPacketLaws A}.

Definition push (p : A) (j : Z) (v : list (list A)) : list (list A) := alter (fun q => q ++ [p]) (Z.to_nat j) v.
Definition drop_at (q1 q2 : list A) (j : Z) (v : list (list A)) : list (list A) := alter (fun _ => q1 ++ q2) (Z.to_nat j) v.
#[local] Arguments push : simpl never.
#[local] Arguments drop_at : simpl never.
Lemma weight_push f p (j : Z) v q : v !! j = Some q -> weight f (push p j v) = weight f v + f p.
Proof using. intros Hq. unfold weight, push. rewrite (lsum_alter_at _ _ _ _ _ Hq), lsum_app. cbn. lia. Qed.
Lemma weight_drop f p q1 q2 (j : Z) v : v !! j = Some (q1 ++ p :: q2) -> weight f (drop_at q1 q2 j v) = weight f v - f p.
Proof using. intros Hq. unfold weight, drop_at. rewrite (lsum_alter_at _ _ _ _ _ Hq), !lsum_app. cbn. lia. Qed.

(** Every packet satisfies the test. *)
Definition each (P : A -> bool) (v : list (list A)) : Prop := Forall (Forall (fun p => P p = true)) v.
Definition bad (P : A -> bool) (p : A) : Z := Z.b2z (negb (P p)).
Lemma lsum_zero {B} (f : B -> Z) l : (forall x, 0 <= f x) -> lsum f l = 0 <-> Forall (fun x => f x = 0) l.
Proof using.
  intros Hf. assert (forall l, 0 <= lsum f l) as Hp by (intros k; apply lsum_lower_0; auto).
  induction l as [|x l IH]; cbn [lsum]; [by split|]. pose proof (Hf x). pose proof (Hp l).
  rewrite Forall_cons, <- IH. lia.
Qed.
Lemma each_weight P v : each P v <-> weight (bad P) v = 0.
Proof using.
  assert (forall x, 0 <= bad P x) as Hb by (intros x; unfold bad; by destruct (P x)).
  unfold weight, each. rewrite lsum_zero by (intros q; apply lsum_lower_0; auto). apply Forall_iff. intros q.
  rewrite lsum_zero by done. apply Forall_iff. intros p. unfold bad. by destruct (P p).
Qed.
End Measures.
#[local] Arguments push : simpl never.
#[local] Arguments drop_at : simpl never.

Section Inv.
Context {HS : StdLib} {HM : Medium} (c : Config) (dc : DRAMInterface.Config) (n : Z).
Definition bs : Z := DRAMInterface.burstSize dc.

(** ** The packets of the controller *)

(** The burst of a packet, by its address. *)
Definition burst_of (p : MemPacket) : Z := burst_no bs (addr p) * bs.
(** A packet for the DRAM lies within one burst. *)
Definition legal (p : MemPacket) : bool :=
  isDram p && (0 <? Packet.size p) && (0 <=? addr p) && (addr p + Packet.size p <? 2 ^ 64)
  && (burst_no bs (addr p) =? burst_no bs (addr p + Packet.size p - 1)).
(** A read whose request is to be answered. *)
Definition owed (p : MemPacket) : bool :=
  isRead p && pkt_read (pkt p) && pkt_needsResponse (pkt p) && AddrRange.contains (dram_range c) (pkt_addr (pkt p)).
Definition sound_read (p : MemPacket) : bool := legal p && owed p.
Definition sound_write (p : MemPacket) : bool := legal p && negb (isRead p).

Definition at_burst (a : Z) (p : MemPacket) : Z := Z.b2z (burst_of p =? a).
Definition of_helper (k : Z) (p : MemPacket) : Z := Z.b2z (bool_decide (burstHelper p = Some k)).
Definition unsplit (p : MemPacket) : Z := Z.b2z (bool_decide (burstHelper p = None)).

(** ** The reads that wait for an answer *)

(** A measure of the reads in the read queue and the response queue. *)
Definition reads (f : MemPacket -> Z) (s : t) : Z := weight f (readQueue s) + lsum f (respQueue s).
(** The requests without an answer: a split request has a helper, any other one packet. *)
Definition pending_reads (s : t) : Z := reads unsplit s + Z.of_nat (stdpp.base.size (helpers s)).
Definition answered (s : t) : Z := lsum (fun x => Z.b2z (pkt_read x.1)) (sent s).
Definition owes (s : t) : Z := answered s + pending_reads s.

(** The helper of [k] counts the packets of its request that are still to be answered. *)
Definition helper_ok (s : t) (k : Z) : Prop :=
  match helpers s !! k with
  | Some h => 0 <= burstsServiced h /\ 0 < reads (of_helper k) s /\
              burstsServiced h + reads (of_helper k) s = burstCount h /\ burstCount h < 2 ^ 32
  | None => reads (of_helper k) s = 0
  end.

(** [own] is the helper of the request that is being split up, if there is one. *)
Record queues_sound (own : option Z) (s : t) : Prop := {
  qs_ready : ready bs n (base s) (readQueue s) (writeQueue s);
  qs_reads : each sound_read (readQueue s);
  qs_resps : Forall (fun p => sound_read p = true) (respQueue s);
  qs_writes : each sound_write (writeQueue s);
  qs_merged a : weight (at_burst a) (writeQueue s) = Z.b2z (bool_decide (a ∈ isInWriteQueue s));
  qs_wcount : totalWriteQueueSize (base s) = Z.of_nat (stdpp.base.size (isInWriteQueue s));
  qs_wroom : totalWriteQueueSize (base s) <= writeBufferSize c;
  qs_rroom : totalReadQueueSize (base s) + zlen (respQueue s) <= readBufferSize c;
  qs_helpers k : own <> Some k -> helper_ok s k;
  qs_fresh k : Z.of_nat (allocs s) <= k -> helpers s !! k = None }.
Record ctrl_ok (s : t) : Prop := {
  ck_queues : queues_sound None s;
  ck_event : respondEvent s = readyTime <$> head (respQueue s);
  ck_books : readReqs (stats s) = owes s }.

(** The controller is connected to a DRAM only. *)
Record config_ok : Prop := {
  cf_dram : dram_cfg c = Some dc; cf_nvm : nvm_cfg c = None; cf_burst : pow2 bs;
  cf_rb : 0 <= readBufferSize c < 2 ^ 32; cf_wb : 0 <= writeBufferSize c < 2 ^ 32 }.
Hypothesis Hcfg : config_ok.

Lemma bs_pos : 0 < bs <= 2 ^ 31.
Proof using Hcfg. apply pow2_pos, Hcfg. Qed.
Lemma bytes_eq : bytesPerBurst c true = bs.
Proof using Hcfg. unfold bytesPerBurst. by rewrite (cf_dram Hcfg). Qed.
Lemma burstAlign_eq a : burstAlign c a true = burst_no bs a * bs.
Proof using Hcfg.
  unfold burstAlign. rewrite bytes_eq. destruct (cf_burst Hcfg) as (k & Hk & ->). unfold burst_no. apply ldiff_low. lia.
Qed.
Lemma media_eq a : AddrRange.contains (dram_range c) a = true -> media_of c a = Ok true.
Proof using Hcfg. intros Ha. unfold media_of, has_dram. by rewrite (cf_dram Hcfg), Ha. Qed.

(** A legal packet is one entry of the buffers. *)
Lemma legal_spec p : legal p = true -> isDram p = true /\ 0 < Packet.size p <= bs /\ 0 <= addr p /\ addr p + Packet.size p < 2 ^ 64 /\
  burst_no bs (addr p) = burst_no bs (addr p + Packet.size p - 1).
Proof using Hcfg.
  unfold legal. intros [[[[Hd Hs%Z.ltb_lt]%andb_prop Ha%Z.leb_le]%andb_prop H64%Z.ltb_lt]%andb_prop Hb%Z.eqb_eq]%andb_prop.
  pose proof bs_pos as Hp. pose proof (burst_no_bounds bs (addr p) ltac:(lia)).
  pose proof (burst_no_bounds bs (addr p + Packet.size p - 1) ltac:(lia)).
  split; [done|]. rewrite <- Hb in *. lia.
Qed.
Lemma legal_entries p : legal p = true -> entries bs p = 1.
Proof using Hcfg.
  intros (_ & Hs & _)%legal_spec. pose proof bs_pos as Hp. unfold entries. cbn [qp_size MemPacket_queued].
  symmetry. apply (Z.div_unique _ bs 1 (Packet.size p - 1)); lia.
Qed.
(** ** The accounts and one packet more *)

Lemma ready_frame (b b' : QoS.t) (rq wq rq' wq' : list (list MemPacket)) : ready bs n b rq wq -> frame b b' -> accounts bs b' rq' wq' -> ready bs n b' rq' wq'.
Proof using.
  intros [] (_ & Ep & _ & En & _ & _ & Et & _) Ha. split; [done|done|by rewrite Ep|by rewrite Et|by rewrite En].
Qed.
Lemma ready_totals (b : QoS.t) (rq wq : list (list MemPacket)) : ready bs n b rq wq ->
  totalReadQueueSize b = weight (entries bs) rq /\ totalWriteQueueSize b = weight (entries bs) wq /\
  zlen rq = n /\ zlen wq = n.
Proof using.
  intros []. destruct rd_accounts0 as [[] _]. rewrite <- rd_prios0. unfold queues_ok in *. tauto.
Qed.
Lemma sound_bounds own s : queues_sound own s -> 0 <= totalReadQueueSize (base s) < 2 ^ 32 /\
  0 <= totalWriteQueueSize (base s) < 2 ^ 32 /\ 0 <= zlen (respQueue s) < 2 ^ 32.
Proof using Hcfg.
  intros Hs. pose proof (cf_rb Hcfg). pose proof (cf_wb Hcfg). destruct Hs. pose proof (zlen_nonneg (respQueue s)).
  enough (0 <= totalReadQueueSize (base s)) by lia. destruct (ready_totals _ _ _ qs_ready0) as (-> & _).
  pose proof bs_pos as Hb. apply lsum_lower_0. intros i q Hq. eapply (queues_vol bs); [lia| |exact Hq].
  by destruct qs_ready0 as [_ [[] _] _ _ _].
Qed.

Definition logged (k : Z) (p : MemPacket) (s : t) (b' : QoS.t) : Prop :=
  ready bs n b' (on_reads k (push p (qosValue p)) (readQueue s)) (on_writes k (push p (qosValue p)) (writeQueue s)) /\
  totalReadQueueSize b' = totalReadQueueSize (base s) + (if k =? 0 then 1 else 0) /\
  totalWriteQueueSize b' = totalWriteQueueSize (base s) + (if k =? 0 then 0 else 1).
Lemma log_push now k p own s : (k = 0 \/ k = 1) -> queues_sound own s -> legal p = true -> isRead p = (k =? 0) ->
  0 <= qosValue p < n ->
  wp (logRequest now (dir_of k) (requestorId p) (qosValue p) (addr p) 1) (base s) (fun _ b' => logged k p s b').
Proof using Hcfg.
  intros Hk Hs Hp Hr Hq. pose proof (sound_bounds _ _ Hs) as Hb. pose proof Hs as [Hrd _ _ _ _ _ _ _ _ _].
  pose proof (ready_totals _ _ _ Hrd) as (Er & Ew & Lr & Lw). pose proof bs_pos as Hbs.
  destruct (zlookup_is_Some (on_writes k (fun _ => writeQueue s) (readQueue s)) (qosValue p)) as [q Lq].
  { destruct Hk as [-> | ->]; cbn; lia. }
  pose proof (legal_entries p Hp) as He. apply legal_spec in Hp as (_ & Hsz & _).
  assert (dir_ok k p) as Hdir.
  { split; [cbn; lia|]. split; [exact Hr|]. cbn. intros Hk0. rewrite Hr. by destruct (Z.eqb_spec k 0). }
  pose proof (logRequest_wp bs (proj1 Hbs) now k (qosValue p) p (base s) (readQueue s) (writeQueue s) q Hk
    (rd_accounts _ _ _ _ _ Hrd) Lq Hdir eq_refl) as Hlog.
  rewrite He in Hlog. eapply wp_mono.
  - apply Hlog. unfold weight in Er, Ew. change (lsum (vol bs)) with (lsum (lsum (entries (A:=MemPacket) bs))). lia.
  - intros [] b' [Hf Ha]. cbn beta in Hf, Ha. assert (ready bs n b' (on_reads k (push p (qosValue p)) (readQueue s)) (on_writes k (push p (qosValue p)) (writeQueue s)))
      as Hrd' by exact (ready_frame _ _ _ _ _ _ Hrd Hf Ha).
    split; [exact Hrd'|].
    pose proof (ready_totals _ _ _ Hrd') as (Er' & Ew' & _). rewrite Er', Ew', Er, Ew.
    destruct Hk as [-> | ->]; cbn in Lq |- *.
    + rewrite (weight_push _ _ _ _ _ Lq). lia.
    + rewrite (weight_push _ _ _ _ _ Lq). lia.
Qed.
Lemma on_dir {B} k (f : B -> B) v : (k = 0 -> on_reads k f v = f v /\ on_writes k f v = v) /\
  (k = 1 -> on_reads k f v = v /\ on_writes k f v = f v).
Proof using. split; intros ->; done. Qed.
Lemma each_push {A} (P : A -> bool) p (j : Z) v : 0 <= j < zlen v -> P p = true -> each P v -> each P (push p j v).
Proof using.
  intros Hj Hp Hv. destruct (zlookup_is_Some v j Hj) as [q Hq]. apply each_weight in Hv. apply each_weight.
  rewrite (weight_push _ _ _ _ _ Hq), Hv. unfold bad. by rewrite Hp.
Qed.
Lemma each_drop {A} (P : A -> bool) p q1 q2 (j : Z) v : v !! j = Some (q1 ++ p :: q2) -> each P v -> each P (drop_at q1 q2 j v) /\ P p = true.
Proof using.
  intros Hq Hv. assert (P p = true) as Hp.
  { pose proof (Forall_zlookup _ _ _ _ Hv Hq) as H. cbn beta in H. apply Forall_app in H as [_ H]. by inversion H. }
  split; [|done]. apply each_weight in Hv. apply each_weight. rewrite (weight_drop _ _ _ _ _ _ Hq), Hv. unfold bad. by rewrite Hp.
Qed.

(** A read enters the read queue. *)
Definition read_in (p : MemPacket) (b' : QoS.t) (s : t) : t :=
  s <| readQueue := push p (qosValue p) (readQueue s) |> <| base := b' |>.
Lemma reads_in f p own s b' : queues_sound own s -> 0 <= qosValue p < n -> reads f (read_in p b' s) = reads f s + f p.
Proof using.
  intros Hs Hq. pose proof (ready_totals _ _ _ (qs_ready _ _ Hs)) as (_ & _ & Lr & _).
  destruct (zlookup_is_Some (readQueue s) (qosValue p)) as [q Lq]; [lia|]. unfold reads.
  change (weight f (push p (qosValue p) (readQueue s)) + lsum f (respQueue s) = weight f (readQueue s) + lsum f (respQueue s) + f p).
  rewrite (weight_push _ _ _ _ _ Lq). lia.
Qed.
Lemma read_in_sound own own' s p b' : queues_sound own s -> sound_read p = true -> 0 <= qosValue p < n ->
  totalReadQueueSize (base s) + zlen (respQueue s) < readBufferSize c -> logged 0 p s b' ->
  (forall k, own' <> Some k -> helper_ok (read_in p b' s) k) -> queues_sound own' (read_in p b' s).
Proof using Hcfg.
  intros [] Hp Hq Hroom (Hrd & Er & Ew) Hh. pose proof (ready_totals _ _ _ qs_ready0) as (_ & _ & Lr & Lw). cbn in Er, Ew.
  split; try done.
  - by apply each_push; [lia| |].
  - change (totalWriteQueueSize b' = Z.of_nat (stdpp.base.size (isInWriteQueue s))). lia.
  - change (totalWriteQueueSize b' <= writeBufferSize c). lia.
  - change (totalReadQueueSize b' + zlen (respQueue s) <= readBufferSize c). lia.
Qed.

(** A write enters the write queue. *)
Definition write_in (p : MemPacket) (a : Z) (b' : QoS.t) (s : t) : t :=
  s <| writeQueue := push p (qosValue p) (writeQueue s) |> <| isInWriteQueue ::= fun l => {[ a ]} ∪ l |> <| base := b' |>.
Lemma write_in_sound own s p b' : queues_sound own s -> sound_write p = true -> 0 <= qosValue p < n ->
  totalWriteQueueSize (base s) < writeBufferSize c -> burst_of p ∉ isInWriteQueue s -> logged 1 p s b' ->
  queues_sound own (write_in p (burst_of p) b' s).
Proof using Hcfg.
  intros [] Hp Hq Hroom Hnew (Hrd & Er & Ew). pose proof (ready_totals _ _ _ qs_ready0) as (_ & _ & Lr & Lw). cbn in Er, Ew.
  destruct (zlookup_is_Some (writeQueue s) (qosValue p)) as [q Lq]; [lia|].
  assert (isInWriteQueue (write_in p (burst_of p) b' s) = {[burst_of p]} ∪ isInWriteQueue s) as Ei by done.
  split; try done.
  - by apply each_push; [lia| |].
  - intros a. rewrite Ei. change (writeQueue (write_in p (burst_of p) b' s)) with (push p (qosValue p) (writeQueue s)).
    rewrite (weight_push _ _ _ _ _ Lq), qs_merged0. unfold at_burst. destruct (Z.eqb_spec (burst_of p) a) as [<-|Hne].
    + rewrite bool_decide_false, bool_decide_true by set_solver. done.
    + rewrite Z.add_0_r. f_equal. apply bool_decide_ext. set_solver.
  - rewrite Ei, size_union, size_singleton by set_solver. change (totalWriteQueueSize b' = Z.of_nat (1 + stdpp.base.size (isInWriteQueue s))). lia.
  - change (totalWriteQueueSize b' <= writeBufferSize c). lia.
  - change (totalReadQueueSize b' + zlen (respQueue s) <= readBufferSize c). lia.
Qed.

(** ** Steps that do not touch the queues *)

Record untouched (s s' : t) : Prop := {
  un_base : base s' = base s; un_rq : readQueue s' = readQueue s; un_wq : writeQueue s' = writeQueue s;
  un_set : isInWriteQueue s' = isInWriteQueue s; un_resp : respQueue s' = respQueue s; un_ev : respondEvent s' = respondEvent s;
  un_helpers : helpers s' = helpers s; un_sent : sent s' = sent s; un_reqs : readReqs (stats s') = readReqs (stats s);
  un_allocs : (allocs s <= allocs s')%nat }.
Lemma untouched_refl s : untouched s s.
Proof using. by split. Qed.
Lemma untouched_trans s s' s'' : untouched s s' -> untouched s' s'' -> untouched s s''.
Proof using. intros [] []. split; try congruence. lia. Qed.
Lemma untouched_reads f s s' : untouched s s' -> reads f s' = reads f s.
Proof using. intros []. unfold reads. congruence. Qed.
Lemma untouched_owes s s' : untouched s s' -> owes s' = owes s.
Proof using. intros H. unfold owes, answered, pending_reads. rewrite (untouched_reads _ _ _ H). destruct H. congruence. Qed.
Lemma untouched_helper s s' k : untouched s s' -> helper_ok s k -> helper_ok s' k.
Proof using.
  intros H. unfold helper_ok. rewrite (un_helpers _ _ H). destruct (helpers s !! k); by rewrite !(untouched_reads _ _ _ H).
Qed.
Lemma untouched_sound own s s' : untouched s s' -> queues_sound own s -> queues_sound own s'.
Proof using.
  intros H []. pose proof H as []. split; rewrite ?un_base0, ?un_rq0, ?un_wq0, ?un_resp0, ?un_set0; try done.
  - intros k Hk. eapply untouched_helper; eauto.
  - intros k Hk. rewrite un_helpers0. apply qs_fresh0. lia.
Qed.
Lemma untouched_ok s s' : untouched s s' -> ctrl_ok s -> ctrl_ok s'.
Proof using.
  intros H []. split; [by eapply untouched_sound|..].
  - by rewrite (un_ev _ _ H), (un_resp _ _ H).
  - by rewrite (un_reqs _ _ H), (untouched_owes _ _ H).
Qed.

(** ** The controller after construction *)

Lemma weight_calloc (f : MemPacket -> Z) k : 0 <= k -> weight f (calloc k []) = 0.
Proof using. intros Hk. unfold weight. rewrite lsum_calloc by done. cbn. lia. Qed.
Lemma each_calloc (P : MemPacket -> bool) k : each P (calloc k []).
Proof using. unfold each, calloc. apply Forall_replicate. constructor. Qed.
Lemma create_ok pol turn esc syn bus dram nvm rh : 0 < n <= 256 -> policy_ok n pol ->
  ctrl_ok (create (QoS.create pol turn n esc syn) bus dram nvm rh).
Proof using Hcfg.
  intros Hn Hp. pose proof (cf_rb Hcfg). pose proof (cf_wb Hcfg).
  pose proof (Life.empty_good (A:=MemPacket) bs pol turn n esc syn ltac:(lia)) as Hg.
  assert (forall f, reads f (create (QoS.create pol turn n esc syn) bus dram nvm rh) = 0) as Er.
  { intros f. unfold reads. cbn. rewrite weight_calloc; lia. }
  split; [|done|].
  - split; try done.
    + split; try done. apply zlen_calloc. lia.
    + apply each_calloc.
    + apply each_calloc.
    + intros a. cbn -[elem_of]. rewrite weight_calloc by lia. by rewrite bool_decide_false by set_solver.
    + cbn. lia.
    + cbn. unfold zlen. cbn. lia.
    + intros k _. unfold helper_ok. cbn. apply Er.
  - unfold owes, pending_reads. by rewrite Er.
Qed.
End Inv.
End CtrlInv.
