(* ===== verification/MemCtrlReq.v ===== *)
(** Receiving a request at the memory controller ([MemCtrl::recvTimingReq], [addToReadQueue],
    [addToWriteQueue] in [mem/mem_ctrl.cc]): what it promises of the state of MemCtrlInv.v,
    given what the decoder and the Rowhammer defence promise of a burst. *)
From S2P Require Import Prelude AddrRange Mitigation CmdBus Packet Dram Defense QoSPolicy QoS QoSEscalate QoSAccount QoSSchedule MemSink MemCtrl MemCtrlSched MemCtrlSplit MemCtrlInv.
From stdpp Require Import gmap.
Open Scope Z_scope.
Import QoS Escalate Account Schedule MemCtrl Sched Split CtrlInv.

Module CtrlReq.
#[local] Arguments vol : simpl never.
#[local] Arguments entries : simpl never.
#[local] Arguments weight : simpl never.
#[local] Arguments push : simpl never.
#[local] Arguments drop_at : simpl never.
#[local] Arguments logRequest : simpl never.

(** ** The packet of a burst *)

(** What the decoder makes of a burst of a request. *)
Record made (p : Packet) (a sz : Z) (rd : bool) (m : MemPacket) : Prop := {
  ma_addr : addr m = a; ma_size : Packet.size m = sz; ma_id : requestorId m = pkt_requestorId p;
  ma_qos : qosValue m = pkt_qosValue p; ma_pkt : pkt m = p; ma_read : isRead m = rd; ma_dram : isDram m = true;
  ma_helper : burstHelper m = None }.

(** What the controller relies on of the decoder, the ranks and the Rowhammer defence: as
    long as they stand [S k] more bursts, a burst gets its packet, and they stand [k] more.
    [F] says when they may fault instead. *)
Class Guard `{!StdLib, !Medium} (c : Config) (rand_stream : nat -> Z) (mem : nat -> Alloc) (now : Z) (F : Prop)
    (stands : nat -> DRAMInterface.t -> Defense.t -> Prop) : Prop := {
  guard_packet k p a sz rd s : stands (S k) (dram s) (rh_defense s) -> AddrRange.contains (dram_range c) a = true ->
    wpf F (new_packet rand_stream mem c now true p a sz rd) s (fun m s' =>
      untouched s s' /\ made p a sz rd m /\ stands k (dram s') (rh_defense s'));
  guard_less k d r : stands (S k) d r -> stands k d r }.

Section Req.
Context {HS : StdLib} {HM : Medium} (c : Config) (dc : DRAMInterface.Config) (n : Z).
Context (rand_stream : nat -> Z) (mem : nat -> Alloc) (now : Z) (F : Prop) (stands : nat -> DRAMInterface.t -> Defense.t -> Prop).
Context `{!Guard c rand_stream mem now F stands}.
Hypothesis Hcfg : config_ok c dc.
Abbreviation bs := (CtrlInv.bs dc).
Abbreviation queues_sound := (queues_sound c dc n).
Abbreviation sound_read := (sound_read c dc).
Abbreviation sound_write := (sound_write dc).

(** ** Requests *)

(** The requests the controller is made for. *)
Record legal_request (p : Packet) : Prop := {
  lr_write : pkt_write p = negb (pkt_read p); lr_cache : cacheResponding p = false;
  lr_space : in_space bs (pkt_addr p) (pkt_size p);
  lr_range a : pkt_addr p <= a < pkt_addr p + pkt_size p -> AddrRange.contains (dram_range c) a = true;
  lr_response : pkt_read p = true -> pkt_needsResponse p = true;
  lr_medium prio : pkt_needsResponse p = true -> pkt_isResponse (MemSink.access (p <| pkt_qosValue := prio |>)) = true }.

(** A piece of the request within one burst. *)
Definition piece_ok (p : Packet) (x : Z * Z) : Prop :=
  pkt_addr p <= x.1 /\ 0 < x.2 /\ x.1 + x.2 <= pkt_addr p + pkt_size p /\ burst_no bs x.1 = burst_no bs (x.1 + x.2 - 1).
Lemma pieces_ok p cnt : legal_request p -> burst_count c true p = Ok cnt ->
  0 < cnt < 2 ^ 32 /\ Forall (piece_ok p) (pieces (Z.to_nat cnt) bs (pkt_addr p) (pkt_size p) (pkt_addr p)) /\
  pieces (Z.to_nat cnt) bs (pkt_addr p) (pkt_size p) (pkt_addr p) =
    part_of bs (pkt_addr p) (pkt_size p) <$> seqZ (burst_no bs (pkt_addr p)) cnt /\
  burst_no bs (pkt_addr p) + cnt = burst_no bs (pkt_addr p + pkt_size p - 1) + 1.
Proof using Hcfg.
  intros [_ _ Hsp _ _ _] E. pose proof (bytes_eq c dc Hcfg) as Eb. pose proof (bs_pos c dc Hcfg) as Hp.
  pose proof (burst_count_eq c true p) as H. rewrite Eb in H. destruct (H (cf_burst _ _ Hcfg) Hsp) as (cnt' & E' & Hn & Hno).
  rewrite E in E'. injection E' as <-. split; [lia|]. rewrite (pieces_from (Z.to_nat cnt)) by (apply Hcfg || done || lia || by left).
  rewrite Z2Nat.id by lia. split; [|done]. apply Forall_fmap, Forall_forall. intros j [Hj1 Hj2]%elem_of_seqZ. cbn.
  pose proof Hsp as (Hb & Hs & H64). destruct (part_in_burst bs (pkt_addr p) (pkt_size p) j) as [H1 H2]; [lia..|]. cbn in H1, H2.
  unfold piece_ok, part_of. cbn. split; [lia|]. split; [lia|]. split; [lia|exact H2].
Qed.

Lemma made_legal p a sz rd m : legal_request p -> piece_ok p (a, sz) -> made p a sz rd m -> legal dc m = true.
Proof using Hcfg.
  intros [_ _ (Hb & Hs & H64) _ _ _] (H1 & H2 & H3 & H4) []. cbn in *. pose proof (bs_pos c dc Hcfg) as Hp. unfold legal.
  rewrite ma_addr0, ma_size0, ma_dram0. cbn [andb]. destruct (Z.ltb_spec 0 sz); [|lia]. destruct (Z.leb_spec 0 a); [|lia].
  destruct (Z.ltb_spec (a + sz) (2 ^ 64)); [|lia]. cbn [andb]. by apply Z.eqb_eq.
Qed.

(** ** Reads that the write queue answers *)

Lemma covers_burst p a sz m : legal_request p -> piece_ok p (a, sz) -> legal dc m = true -> covers a sz m = true ->
  burst_of dc m = burst_no bs a * bs.
Proof using Hcfg.
  intros [_ _ (Hb & Hs & H64) _ _ _] (H1 & H2 & H3 & H4) (_ & Hm & Ha & Hm64 & Hno)%(legal_spec c dc Hcfg).
  cbn in *. pose proof (bs_pos c dc Hcfg) as Hp. unfold covers, burst_of.
  rewrite !u64_small by lia. intros [L1%Z.leb_le L2%Z.leb_le]%andb_prop. f_equal.
  pose proof (burst_no_bounds bs (addr m) ltac:(lia)) as B1. pose proof (burst_no_bounds bs (addr m + Packet.size m - 1) ltac:(lia)) as B2.
  rewrite <- Hno in B2. symmetry. apply burst_no_eq; lia.
Qed.
Lemma lsum_le {B} (f g : B -> Z) l : Forall (fun x => f x <= g x) l -> lsum f l <= lsum g l.
Proof using. induction 1; cbn [lsum]; lia. Qed.
Lemma found_le own p a sz s : legal_request p -> piece_ok p (a, sz) -> queues_sound own s ->
  0 <= found_in (writeQueue s) a sz <= 1.
Proof using Hcfg.
  intros Hp Hx Hs. split; [unfold found_in; apply lsum_lower_0; intros i q _; by destruct (existsb _ _)|].
  transitivity (weight (at_burst dc (burst_no bs a * bs)) (writeQueue s)).
  - unfold found_in, weight. apply lsum_le. eapply Forall_impl; [exact (qs_writes _ _ _ _ _ Hs)|]. intros q Hq.
    induction Hq as [|m q Hm Hq IH]; [done|]. cbn [existsb lsum]. apply andb_prop in Hm as [Hm _].
    assert (0 <= lsum (at_burst dc (burst_no bs a * bs)) q) as H0.
    { apply lsum_lower_0. intros i x _. unfold at_burst. by destruct (_ =? _). }
    destruct (covers a sz m) eqn:Ec.
    + unfold at_burst at 1. rewrite (covers_burst p a sz m) by done. rewrite Z.eqb_refl. cbn [orb Z.b2z]. lia.
    + cbn [orb]. assert (0 <= at_burst dc (burst_no bs a * bs) m) by (unfold at_burst; by destruct (_ =? _)). lia.
  - rewrite (qs_merged _ _ _ _ _ Hs). by destruct (bool_decide _).
Qed.

(** ** The loop over the bursts of a read *)

(** What the loop leaves alone. *)
Record since (s0 s : t) : Prop := {
  si_wq : writeQueue s = writeQueue s0; si_set : isInWriteQueue s = isInWriteQueue s0; si_resp : respQueue s = respQueue s0;
  si_ev : respondEvent s = respondEvent s0; si_sent : sent s = sent s0; si_reqs : readReqs (stats s) = readReqs (stats s0);
  si_writes : totalWriteQueueSize (base s) = totalWriteQueueSize (base s0) }.
Lemma since_refl s : since s s.
Proof using. by split. Qed.
Lemma since_untouched s0 s s' : since s0 s -> untouched s s' -> since s0 s'.
Proof using. intros [] []. split; congruence. Qed.

(** After [i] of the [cnt] bursts: the helper appears with the first packet when the
    request is split; the packets in the queue are the bursts the write queue has not. *)
Record read_inv (p : Packet) (cnt : Z) (s0 : t) (i : Z) (l : ReadLoop) (s : t) : Prop := {
  ri_since : since s0 s;
  ri_found : 0 <= pktsServicedByWrQ l <= i;
  ri_sound : queues_sound (burst_helper l) s;
  ri_reads : totalReadQueueSize (base s) = totalReadQueueSize (base s0) + (i - pktsServicedByWrQ l);
  ri_owes : owes s = owes s0 + Z.b2z (pktsServicedByWrQ l <? i);
  ri_own : match burst_helper l with
           | Some k => helpers s !! k = Some (mkHelper cnt 0) /\ reads (of_helper k) s = i - pktsServicedByWrQ l /\
                       pktsServicedByWrQ l < i /\ 1 < cnt
           | None => pktsServicedByWrQ l = i \/ cnt = 1
           end;
  ri_stands : stands (Z.to_nat (cnt - i)) (dram s) (rh_defense s) }.
Lemma stat_untouched (g : Stats -> Stats) s : readReqs (g (stats s)) = readReqs (stats s) -> untouched s (s <| stats ::= g |>).
Proof using. intros H. split; try done. Qed.
Lemma read_inv_untouched p cnt s0 i l s s' : read_inv p cnt s0 i l s -> untouched s s' ->
  stands (Z.to_nat (cnt - i)) (dram s') (rh_defense s') -> read_inv p cnt s0 i l s'.
Proof using.
  intros [] H Hst. split; [by eapply since_untouched|done|by eapply untouched_sound| | | |done].
  - by rewrite (un_base _ _ H).
  - by rewrite (untouched_owes _ _ H).
  - rewrite (un_helpers _ _ H). destruct (burst_helper l); by rewrite ?(untouched_reads _ _ _ H).
Qed.

(** The helper is there before the packet. *)
Record opened (p : Packet) (cnt : Z) (s0 : t) (i : Z) (l : ReadLoop) (h : option Z) (s : t) : Prop := {
  op_since : since s0 s; op_sound : queues_sound h s;
  op_total : totalReadQueueSize (base s) = totalReadQueueSize (base s0) + (i - pktsServicedByWrQ l);
  op_owes : owes s = owes s0 + Z.b2z (bool_decide (h <> None));
  op_own : match h with
           | Some k => helpers s !! k = Some (mkHelper cnt 0) /\ reads (of_helper k) s = i - pktsServicedByWrQ l /\ 1 < cnt
           | None => cnt = 1 end }.
Lemma opened_untouched p cnt s0 i l h s s' : opened p cnt s0 i l h s -> untouched s s' -> opened p cnt s0 i l h s'.
Proof using.
  intros [] H. split; [by eapply since_untouched|by eapply untouched_sound|..].
  - by rewrite (un_base _ _ H).
  - by rewrite (untouched_owes _ _ H).
  - rewrite (un_helpers _ _ H). destruct h; by rewrite ?(untouched_reads _ _ _ H).
Qed.

Definition with_helper (k : Z) (h : BurstHelper) (s : t) : t := s <| helpers ::= <[k := h]> |> <| allocs ::= S |>.
Lemma with_helper_sound s h : queues_sound None s -> let k := Z.of_nat (allocs s) in
  queues_sound (Some k) (with_helper k h s) /\ owes (with_helper k h s) = owes s + 1 /\ reads (of_helper k) (with_helper k h s) = 0.
Proof using.
  intros Hs k. pose proof Hs as []. pose proof (qs_fresh0 k ltac:(lia)) as Hk.
  assert (forall f, reads f (with_helper k h s) = reads f s) as Er by done.
  assert (helpers (with_helper k h s) = <[k := h]> (helpers s)) as Eh by done.
  split; [|split].
  - split; try done.
    + intros k' Hne. unfold helper_ok. rewrite Eh, lookup_insert_ne by congruence. apply qs_helpers0. done.
    + intros k' Hk'. rewrite Eh, lookup_insert_ne by (change (allocs (with_helper k h s)) with (S (allocs s)) in Hk'; lia).
      apply qs_fresh0. change (allocs (with_helper k h s)) with (S (allocs s)) in Hk'. lia.
  - unfold owes, pending_reads. rewrite Er, Eh, map_size_insert_None by done. change (answered (with_helper k h s)) with (answered s). lia.
  - rewrite Er. pose proof (qs_helpers0 k ltac:(done)) as H. unfold helper_ok in H. by rewrite Hk in H.
Qed.
Lemma get_helper_wp p cnt s0 i l s (Q : option Z -> t -> Prop) : 0 <= i < cnt -> read_inv p cnt s0 i l s ->
  (forall h s', opened p cnt s0 i l h s' -> stands (Z.to_nat (cnt - i)) (dram s') (rh_defense s') -> Q h s') -> wpf F (get_helper cnt (burst_helper l)) s Q.
Proof using.
  intros Hi [] HQ. unfold get_helper. destruct (burst_helper l) as [k|] eqn:E.
  - wpf_step. apply HQ; [|done]. destruct ri_own0 as (H1 & H2 & H3 & H4). split; try done.
    rewrite ri_owes0. destruct (Z.ltb_spec (pktsServicedByWrQ l) i); [|lia]. by rewrite bool_decide_true.
  - destruct (Z.ltb_spec 1 cnt) as [Hc|Hc].
    + wpf_step. wpf_step. wpf_step. wpf_step. wpf_step. apply HQ; [|exact ri_stands0].
      change (opened p cnt s0 i l (Some (Z.of_nat (allocs s))) (with_helper (Z.of_nat (allocs s)) (mkHelper cnt 0) s)).
      destruct (with_helper_sound s (mkHelper cnt 0) ri_sound0) as (H1 & H2 & H3). assert (pktsServicedByWrQ l = i) as Hl by (destruct ri_own0; lia).
      split; try done.
      * by destruct ri_since0.
      * rewrite H2, ri_owes0, Hl, Z.ltb_irrefl, bool_decide_true by done. cbn. lia.
      * rewrite H3. split; [apply lookup_insert_eq|]. lia.
    + wpf_step. apply HQ; [|done]. split; try done.
      * rewrite ri_owes0. destruct (Z.ltb_spec (pktsServicedByWrQ l) i); [lia|]. by rewrite bool_decide_false by (intros []; done).
      * lia.
Qed.
Lemma push_back_ok (v : list (list MemPacket)) m : 0 <= qosValue m < zlen v -> push_back v m = Ok (push m (qosValue m) v).
Proof using.
  intros Hq. destruct (zlookup_is_Some v (qosValue m) Hq) as [q Eq]. unfold push_back, aread. rewrite Eq.
  cbn [mbind result_bind]. by apply (zalter_write (fun q => q ++ [m])).
Qed.
(** The packet of a read in the read queue. *)
Lemma opened_read p cnt s0 i l h s m b' : 0 <= i < cnt -> 0 <= pktsServicedByWrQ l <= i -> opened p cnt s0 i l h s ->
  0 <= qosValue m < n -> sound_read m = true -> burstHelper m = h ->
  totalReadQueueSize (base s0) + zlen (respQueue s0) + cnt <= readBufferSize c -> cnt < 2 ^ 32 -> logged dc n 0 m s b' ->
  stands (Z.to_nat (cnt - (i + 1))) (dram s) (rh_defense s) ->
  read_inv p cnt s0 (i + 1) (mkLoop (next_burst bs (next_addr l)) (u32 (pktsServicedByWrQ l + 0)) h) (read_in m b' s).
Proof using Hcfg.
  intros Hi Hl [] Hq Hm Hh Hroom H32 Hlog Hst. pose proof (reads_in c dc n) as Hin.
  assert (forall f, reads f (read_in m b' s) = reads f s + f m) as Er by (intros f; by eapply reads_in).
  rewrite Z.add_0_r, u32_small by lia. pose proof op_since0 as []. pose proof Hlog as (Hrd & Et & Ew). cbn in Et, Ew.
  split; cbn [pktsServicedByWrQ burst_helper]; try done.
  - split; try done. by change (totalWriteQueueSize b' = totalWriteQueueSize (base s0)); lia.
  - lia.
  - eapply read_in_sound; try done; [by rewrite si_resp0; lia|]. intros k Hk.
    pose proof (qs_helpers _ _ _ _ _ op_sound0 k Hk) as H. unfold helper_ok in *.
    change (helpers (read_in m b' s)) with (helpers s). assert (of_helper k m = 0) as E.
    { unfold of_helper. rewrite bool_decide_false; [done|]. congruence. }
    destruct (helpers s !! k); by rewrite Er, E, Z.add_0_r.
  - change (totalReadQueueSize b' = totalReadQueueSize (base s0) + (i + 1 - pktsServicedByWrQ l)). lia.
  - unfold owes, pending_reads in *. rewrite Er. change (answered (read_in m b' s)) with (answered s).
    change (helpers (read_in m b' s)) with (helpers s). destruct (Z.ltb_spec (pktsServicedByWrQ l) (i + 1)); [|lia].
    unfold unsplit in *. rewrite Hh. destruct h; cbn in *; lia.
  - destruct h as [k|]; [|by right]. destruct op_own0 as (H1 & H2 & H3). rewrite Er. split; [done|].
    unfold of_helper at 2. rewrite Hh, bool_decide_true by done. cbn. lia.
Qed.

Lemma place_read_wp p cnt s0 i l a sz s : legal_request p -> 0 <= i < cnt -> cnt < 2 ^ 32 -> 0 <= pkt_qosValue p < n ->
  pkt_read p = true -> piece_ok p (a, sz) -> totalReadQueueSize (base s0) + zlen (respQueue s0) + cnt <= readBufferSize c ->
  read_inv p cnt s0 i l s ->
  wpf F (place_read rand_stream mem c now p cnt true a sz (burst_helper l)) s (fun h s' =>
    read_inv p cnt s0 (i + 1) (mkLoop (next_burst bs (next_addr l)) (u32 (pktsServicedByWrQ l + 0)) h) s').
Proof using Hcfg Guard0.
  intros Hp Hi H32 Hq Hrd Hx Hroom Hinv. unfold place_read. wpf_step. eapply get_helper_wp; [done|exact Hinv|].
  intros h s1 Hop Hst. wpf_step. replace (Z.to_nat (cnt - i)) with (S (Z.to_nat (cnt - (i + 1)))) in Hst by lia.
  destruct Hx as (Hx1 & Hx2 & Hx3 & Hx4). cbn in Hx1, Hx2, Hx3, Hx4.
  eapply wpf_mono; [apply (guard_packet _ p a sz true s1 Hst); apply (lr_range p Hp); lia|]. intros m s2 (Hun & Hm & Hst2). cbn beta in *.
  apply (opened_untouched _ _ _ _ _ _ _ _ Hop) in Hun. pose proof (op_since _ _ _ _ _ _ _ Hun) as Hsi.
  pose proof (sound_bounds c dc n Hcfg _ _ (op_sound _ _ _ _ _ _ _ Hun)) as (B1 & B2 & B3). pose proof (ri_found _ _ _ _ _ _ Hinv) as Hl.
  pose proof (op_total _ _ _ _ _ _ _ Hun) as Et. pose proof (cf_rb c dc Hcfg) as Hrb.
  pose proof (ready_totals dc n _ _ _ (qs_ready _ _ _ _ _ (op_sound _ _ _ _ _ _ _ Hun))) as (_ & _ & Lr & Lw).
  set (m' := m <| burstHelper := h |>). assert (legal dc m' = true) as Hleg by exact (made_legal p a sz true m Hp (conj Hx1 (conj Hx2 (conj Hx3 Hx4))) Hm).
  assert (sound_read m' = true) as Hsm.
  { unfold CtrlInv.sound_read. rewrite Hleg. unfold owed. change (isRead m') with (isRead m). change (pkt m') with (pkt m).
    rewrite (ma_read _ _ _ _ _ Hm), (ma_pkt _ _ _ _ _ Hm), Hrd, (lr_response p Hp Hrd), (lr_range p Hp) by lia. done. }
  assert (qosValue m' = pkt_qosValue p) as Eq by apply Hm.
  wpf_step. wpf_step. wpf_step. apply wpf_assert; intros Hfull.
  { exfalso. apply negb_false_iff in Hfull. unfold readQueueFull in Hfull. rewrite (si_resp _ _ Hsi) in *. rewrite u64_small in Hfull by lia.
    apply Z.ltb_lt in Hfull. lia. }
  wpf_step. rewrite (push_back_ok (readQueue s2) m') by lia. apply wpf_lift; [done|]. intros q [= <-]. wpf_step. wpf_step. wpf_step.
  unfold on_base. wpf_step. change (addr m') with (addr m).
  pose proof (log_push c dc n Hcfg now 0 m' h s2 ltac:(by left) (op_sound _ _ _ _ _ _ _ Hun) Hleg (ma_read _ _ _ _ _ Hm) ltac:(lia)) as Hlog.
  change (requestorId m') with (requestorId m) in Hlog. rewrite Eq, (ma_id _ _ _ _ _ Hm) in Hlog.
  apply wpf_wp. eapply wp_mono; [exact Hlog|]. intros [] b' Hb'. apply wpf_ret.
  apply (opened_read p cnt s0 i l h s2 m' b'); try done; lia.
Qed.
Lemma read_burst_wp p cnt s0 i l s : legal_request p -> 0 <= i < cnt -> cnt < 2 ^ 32 -> 0 <= pkt_qosValue p < n ->
  pkt_read p = true -> piece_ok p (next_addr l, piece_size bs (pkt_addr p) (pkt_size p) (next_addr l)) ->
  totalReadQueueSize (base s0) + zlen (respQueue s0) + cnt <= readBufferSize c -> read_inv p cnt s0 i l s ->
  wpf F (read_burst rand_stream mem c now p cnt true l) s (fun l' s' =>
    read_inv p cnt s0 (i + 1) l' s' /\ next_addr l' = next_burst bs (next_addr l)).
Proof using Hcfg Guard0.
  intros Hp Hi H32 Hq Hrd Hx Hroom Hinv. unfold read_burst. rewrite (bytes_eq c dc Hcfg).
  set (a := next_addr l) in *. set (sz := piece_size bs (pkt_addr p) (pkt_size p) a) in *.
  wpf_step. unfold count_stat at 1. wpf_step. wpf_step. wpf_step.
  set (s1 := s <| stats ::= _ |>). assert (read_inv p cnt s0 i l s1) as H1.
  { eapply read_inv_untouched; [exact Hinv|by apply stat_untouched|apply Hinv]. }
  set (found := if decide (burstAlign c a true ∈ isInWriteQueue s1) then found_in (writeQueue s1) a sz else 0).
  assert (0 <= found <= 1) as Hf by (unfold found; case_decide; [by eapply found_le, H1|lia]).
  clearbody s1 found. wpf_step. unfold count_stat at 1. wpf_step.
  set (s2 := s1 <| stats ::= _ |>). assert (read_inv p cnt s0 i l s2) as H2.
  { eapply read_inv_untouched; [exact H1|by apply stat_untouched|apply H1]. }
  clearbody s2. wpf_step. destruct (Z.ltb_spec 0 found).
  - assert (found = 1) as -> by lia. wpf_step. wpf_step. split; [|done]. pose proof (ri_found _ _ _ _ _ _ H2).
    rewrite u32_small by lia. destruct H2. split; cbn [pktsServicedByWrQ burst_helper]; try done.
    + lia.
    + rewrite ri_reads0. lia.
    + rewrite ri_owes0. do 2 f_equal. destruct (Z.ltb_spec (pktsServicedByWrQ l) i), (Z.ltb_spec (pktsServicedByWrQ l + 1) (i + 1)); lia.
    + destruct (burst_helper l); intuition lia.
    + apply guard_less. by replace (S (Z.to_nat (cnt - (i + 1)))) with (Z.to_nat (cnt - i)) by lia.
  - assert (found = 0) as -> by lia. eapply wpf_mono; [by eapply place_read_wp|].
    intros h s3 H3. wpf_step. by split.
Qed.
Lemma read_bursts_wp p cnt s0 : legal_request p -> cnt < 2 ^ 32 -> 0 <= pkt_qosValue p < n -> pkt_read p = true ->
  totalReadQueueSize (base s0) + zlen (respQueue s0) + cnt <= readBufferSize c -> forall m i l s,
  0 <= i -> i + Z.of_nat m = cnt -> Forall (piece_ok p) (pieces m bs (pkt_addr p) (pkt_size p) (next_addr l)) ->
  read_inv p cnt s0 i l s -> wpf F (read_bursts rand_stream mem c now m p cnt true l) s (fun l' s' => read_inv p cnt s0 cnt l' s').
Proof using Hcfg Guard0.
  intros Hp H32 Hq Hrd Hroom. induction m as [|m IH]; intros i l s Hi Hm Hall Hinv; cbn [read_bursts].
  - apply wpf_ret. by replace cnt with i at 2 by lia.
  - cbn [pieces] in Hall. inversion Hall as [|? ? Hx Hall']; subst. wpf_step. 
    eapply wpf_mono; [apply (read_burst_wp p _ s0 i l s); try done; lia|]. intros l' s' [H' Ea]. cbn beta in *.
    eapply (IH (i + 1)); [lia|lia|by rewrite Ea|exact H'].
Qed.

(** ** The answer of the controller *)

Definition answer (p : Packet) (x : Packet * Z) (s : t) : t :=
  if pkt_needsResponse p then s <| sent ::= fun l => l ++ [x] |> else s.
Lemma accessAndRespond_wp p lat s (Q : unit -> t -> Prop) : legal_request p ->
  (forall x, pkt_read x.1 = pkt_read p -> Q tt (answer p x s)) -> wpf F (accessAndRespond c now p lat) s Q.
Proof using Hcfg.
  intros Hp HQ. pose proof (lr_space p Hp) as (? & ? & _). unfold accessAndRespond. wpf_step.
  rewrite (media_eq c dc Hcfg) by (apply (lr_range p Hp); lia). apply wpf_lift; [done|]. intros _ _.
  unfold answer in HQ. destruct (pkt_needsResponse p) eqn:E; [|wpf_step; by apply (HQ (p, 0))].
  wpf_step. pose proof (lr_medium p Hp (pkt_qosValue p) E) as Hm. replace (p <| pkt_qosValue := pkt_qosValue p |>) with p in Hm by by destruct p.
  apply wpf_assert; [by rewrite Hm|]. intros _. apply wpf_modify.
  lazymatch goal with |- Q tt (?s <| sent ::= fun l => l ++ [?x] |>) => apply (HQ x) end.
  change (pkt_read (MemSink.access p) = pkt_read p). apply access_read.
Qed.
Lemma schedule_nextReq_wp when s (Q : unit -> t -> Prop) : now <= when ->
  (forall s', untouched s s' -> dram s' = dram s -> rh_defense s' = rh_defense s -> Q tt s') -> wpf F (schedule_next now when) s Q.
Proof using.
  intros Hw HQ. unfold schedule_next. wpf_step. wpf_step. wpf_step.
  - wpf_step. unfold Packet.schedule. destruct (Z.leb_spec now when); [|lia]. lazymatch goal with H : negb _ = true |- _ => rewrite H end.
    apply wpf_lift; [done|]. intros e _. apply wpf_modify, HQ; [by split|done|done].
  - apply HQ; [apply untouched_refl|done|done].
Qed.
Lemma answer_sound own p x s : queues_sound own s -> queues_sound own (answer p x s).
Proof using. intros []. unfold answer. destruct (pkt_needsResponse p); by split. Qed.
Lemma answer_owes p x s : pkt_read x.1 = pkt_read p -> (pkt_read p = true -> pkt_needsResponse p = true) ->
  owes (answer p x s) = owes s + Z.b2z (pkt_read p).
Proof using.
  intros Hx Hn. unfold answer. destruct (pkt_needsResponse p).
  - unfold owes. change (pending_reads (s <| sent ::= fun l => l ++ [x] |>)) with (pending_reads s). unfold answered.
    change (sent (s <| sent ::= fun l => l ++ [x] |>)) with (sent s ++ [x]). rewrite lsum_app. cbn. rewrite Hx. lia.
  - destruct (pkt_read p); [by discriminate Hn|]. cbn. lia.
Qed.

(** ** A request in the queues *)

Record entered (p : Packet) (s0 s : t) : Prop := {
  en_sound : queues_sound None s; en_resp : respQueue s = respQueue s0; en_ev : respondEvent s = respondEvent s0;
  en_reqs : readReqs (stats s) = readReqs (stats s0); en_owes : owes s = owes s0 + Z.b2z (pkt_read p) }.
Lemma entered_untouched p s0 s s' : entered p s0 s -> untouched s s' -> entered p s0 s'.
Proof using.
  intros [] H. split; [by eapply untouched_sound|..].
  - by rewrite (un_resp _ _ H).
  - by rewrite (un_ev _ _ H).
  - by rewrite (un_reqs _ _ H).
  - by rewrite (untouched_owes _ _ H).
Qed.

(** The helper learns how many bursts the write queue has answered. *)
Definition served_by_writes (k m : Z) (s : t) : t := s <| helpers ::= alter (fun b => b <| burstsServiced := m |>) k |>.
Lemma served_sound p cnt s0 l k s : read_inv p cnt s0 cnt l s -> burst_helper l = Some k -> cnt < 2 ^ 32 ->
  queues_sound None (served_by_writes k (pktsServicedByWrQ l) s) /\ owes (served_by_writes k (pktsServicedByWrQ l) s) = owes s.
Proof using.
  intros [] E H32. rewrite E in *. destruct ri_own0 as (Hk & Er & Hl & Hc). set (s' := served_by_writes _ _ s).
  assert (helpers s' = alter (fun b => b <| burstsServiced := pktsServicedByWrQ l |>) k (helpers s)) as Eh by done.
  assert (forall f, reads f s' = reads f s) as Es by done. split.
  - destruct ri_sound0. split; try done.
    + intros k' _. unfold helper_ok. rewrite Eh, !Es. destruct (decide (k' = k)) as [->|Hne].
      * rewrite lookup_alter_eq, Hk. cbn. rewrite Er. lia.
      * rewrite lookup_alter_ne by done. apply qs_helpers0. congruence.
    + intros k' Hk'. rewrite Eh. apply qs_fresh0 in Hk'. destruct (decide (k' = k)) as [->|Hne]; [congruence|].
      by rewrite lookup_alter_ne.
  - unfold owes, pending_reads. rewrite Es, Eh, <- !size_dom, dom_alter_L. done.
Qed.

Lemma addToReadQueue_wp p cnt s (Q : unit -> t -> Prop) : legal_request p -> pkt_read p = true -> 0 <= pkt_qosValue p < n ->
  burst_count c true p = Ok cnt -> totalReadQueueSize (base s) + zlen (respQueue s) + cnt <= readBufferSize c ->
  queues_sound None s -> stands (Z.to_nat cnt) (dram s) (rh_defense s) ->
  (forall s', entered p s s' -> totalWriteQueueSize (base s') = totalWriteQueueSize (base s) ->
     writeQueue s' = writeQueue s -> isInWriteQueue s' = isInWriteQueue s -> Q tt s') ->
  wpf F (addToReadQueue rand_stream mem c now p cnt true) s Q.
Proof using Hcfg Guard0.
  intros Hp Hrd Hq Ecnt Hroom Hs Hst HQ. destruct (pieces_ok p cnt Hp Ecnt) as (Hcnt & Hall & _).
  unfold addToReadQueue. wpf_step. apply wpf_assert; [by rewrite (lr_write p Hp), Hrd|]. intros _.
  wpf_step. apply wpf_assert; [destruct (Z.eqb_spec cnt 0); [lia|done]|]. intros _. wpf_step.
  eapply wpf_mono; [eapply (read_bursts_wp p cnt s Hp ltac:(lia) Hq Hrd Hroom _ 0); [done|lia|exact Hall|]|].
  { split; cbn [pktsServicedByWrQ burst_helper]; try done; [lia|cbn; lia|by left|by rewrite Z.sub_0_r]. }
  intros l s1 H1. cbn beta in *. pose proof (ri_since _ _ _ _ _ _ H1) as Hsi. pose proof (ri_found _ _ _ _ _ _ H1) as Hl.
  pose proof (ri_own _ _ _ _ _ _ H1) as Hown. pose proof (ri_owes _ _ _ _ _ _ H1) as Ho.
  destruct (Z.eqb_spec (pktsServicedByWrQ l) cnt) as [El|Hne].
  - rewrite El, Z.ltb_irrefl in *. destruct (burst_helper l) as [k|] eqn:Eh; [lia|].
    apply accessAndRespond_wp; [done|]. intros x Hx. pose proof (ri_sound _ _ _ _ _ _ H1) as Hso. rewrite Eh in Hso.
    assert (pkt_needsResponse p = true) as Hn by by apply (lr_response p Hp).
    apply HQ.
    + split; [by apply answer_sound|..]; [unfold answer; rewrite Hn; apply Hsi..|].
      rewrite answer_owes, Hrd by (done || apply (lr_response p Hp)). cbn in *. lia.
    + unfold answer; rewrite Hn; apply Hsi.
    + unfold answer; rewrite Hn; apply Hsi.
    + unfold answer; rewrite Hn; apply Hsi.
  - destruct (Z.ltb_spec (pktsServicedByWrQ l) cnt); [|lia]. cbn in Ho. wpf_step.
    assert (exists s2, set_serviced (burst_helper l) (pktsServicedByWrQ l) s1 = Ok (tt, s2) /\ queues_sound None s2 /\ owes s2 = owes s1 /\ since s s2)
      as (s2 & E2 & Hs2 & Ho2 & Hsi2).
    { pose proof (ri_sound _ _ _ _ _ _ H1) as Hso. destruct (burst_helper l) as [k|] eqn:Eh.
      - exists (served_by_writes k (pktsServicedByWrQ l) s1). split; [done|].
        destruct (served_sound p cnt s l k s1 H1 Eh ltac:(lia)) as [H2 H3]. split; [done|]. split; [done|]. by destruct Hsi; split.
      - exists s1. done. }
    unfold wpf at 1. rewrite E2. apply schedule_nextReq_wp; [lia|]. intros s3 H3 _ _. destruct Hsi2.
    apply HQ; rewrite ?(un_base _ _ H3), ?(un_wq _ _ H3), ?(un_set _ _ H3); try done.
    apply (entered_untouched p s s2); [|done]. split; try done. rewrite Hrd. cbn. lia.
Qed.

(** ** The loop over the bursts of a write *)

(** The bursts of the pieces of a request, by their addresses. *)
Definition bursts (l : list (Z * Z)) : gset Z := list_to_set ((fun x => burst_no bs x.1 * bs) <$> l).
Record write_inv (p : Packet) (cnt : Z) (s0 : t) (i : Z) (s : t) : Prop := {
  wi_entered : entered p s0 s;
  wi_reads : totalReadQueueSize (base s) = totalReadQueueSize (base s0);
  wi_writes : totalWriteQueueSize (base s) <= totalWriteQueueSize (base s0) + i;
  wi_stands : stands (Z.to_nat (cnt - i)) (dram s) (rh_defense s) }.
Lemma write_inv_untouched p cnt s0 i s s' : write_inv p cnt s0 i s -> untouched s s' ->
  stands (Z.to_nat (cnt - i)) (dram s') (rh_defense s') -> write_inv p cnt s0 i s'.
Proof using. intros [] H Hst. split; [by eapply entered_untouched|by rewrite (un_base _ _ H)..|done]. Qed.

Lemma place_write_wp p cnt s0 i a sz s (Q : unit -> t -> Prop) : legal_request p -> 0 <= i < cnt -> cnt < 2 ^ 32 -> 0 <= pkt_qosValue p < n ->
  pkt_read p = false -> piece_ok p (a, sz) -> totalWriteQueueSize (base s0) + cnt <= writeBufferSize c ->
  write_inv p cnt s0 i s -> burst_no bs a * bs ∉ isInWriteQueue s ->
  (forall s', write_inv p cnt s0 (i + 1) s' -> isInWriteQueue s' = {[burst_no bs a * bs]} ∪ isInWriteQueue s -> Q tt s') ->
  wpf F (place_write rand_stream mem c now p true a sz) s Q.
Proof using Hcfg Guard0.
  intros Hp Hi H32 Hq Hrd (Hx1 & Hx2 & Hx3 & Hx4) Hroom Hinv Hnew HQ. cbn in Hx1, Hx2, Hx3, Hx4. unfold place_write. wpf_step.
  pose proof (wi_stands _ _ _ _ _ Hinv) as Hst. replace (Z.to_nat (cnt - i)) with (S (Z.to_nat (cnt - (i + 1)))) in Hst by lia.
  eapply wpf_mono; [apply (guard_packet _ p a sz false s Hst); apply (lr_range p Hp); lia|]. intros m s2 (Hun & Hm & Hst2). cbn beta in *.
  rewrite <- (un_set _ _ Hun) in Hnew. 
  pose proof (en_sound _ _ _ (wi_entered _ _ _ _ _ Hinv)) as Hs. apply (untouched_sound c dc n None s s2 Hun) in Hs.
  pose proof (entered_untouched p s0 s s2 (wi_entered _ _ _ _ _ Hinv) Hun) as [].
  pose proof (wi_writes _ _ _ _ _ Hinv) as Hw. pose proof (wi_reads _ _ _ _ _ Hinv) as Hr. rewrite <- (un_base _ _ Hun) in Hw, Hr.
  pose proof (ready_totals dc n _ _ _ (qs_ready _ _ _ _ _ Hs)) as (_ & _ & Lr & Lw).
  assert (legal dc m = true) as Hleg by exact (made_legal p a sz false m Hp (conj Hx1 (conj Hx2 (conj Hx3 Hx4))) Hm).
  assert (sound_write m = true) as Hsm by (unfold CtrlInv.sound_write; by rewrite Hleg, (ma_read _ _ _ _ _ Hm)).
  assert (burst_of dc m = burst_no bs a * bs) as Eb by (unfold burst_of; by rewrite (ma_addr _ _ _ _ _ Hm)).
  pose proof (ma_qos _ _ _ _ _ Hm) as Eq.
  wpf_step. wpf_step. wpf_step. apply wpf_assert; [intros H%Z.ltb_ge; lia|]. intros _. wpf_step.
  rewrite (push_back_ok (writeQueue s2) m) by lia. apply wpf_lift; [done|]. intros q [= <-]. wpf_step. wpf_step. wpf_step.
  unfold on_base. wpf_step. rewrite (burstAlign_eq c dc Hcfg).
  pose proof (log_push c dc n Hcfg now 1 m None s2 ltac:(by right) Hs Hleg (ma_read _ _ _ _ _ Hm) ltac:(lia)) as Hlog.
  rewrite Eq, (ma_id _ _ _ _ _ Hm) in Hlog. apply wpf_wp. eapply wp_mono; [exact Hlog|]. intros [] b' Hb'.
  rewrite <- Eq, <- Eb in *. change (wpf F (s ← get; assert_ (totalWriteQueueSize (base s) =? Z.of_nat (stdpp.base.size (isInWriteQueue s))))
    (write_in m (burst_of dc m) b' s2) Q).
  assert (queues_sound None (write_in m (burst_of dc m) b' s2)) as Hs3.
  { apply (write_in_sound c dc n Hcfg); try done; lia. }
  destruct Hb' as (_ & Et & Ew). cbn in Et, Ew. set (s3 := write_in m (burst_of dc m) b' s2) in *.
  change b' with (base s3) in Et, Ew. wpf_step. wpf_step. apply wpf_assert.
  { rewrite (qs_wcount _ _ _ _ _ Hs3), Z.eqb_refl. done. }
  intros _. apply HQ; [|by rewrite <- (un_set _ _ Hun)]. split; [|lia|lia|exact Hst2].
  split; [exact Hs3|done..].
Qed.
Lemma write_burst_wp p cnt s0 i a s : legal_request p -> 0 <= i < cnt -> cnt < 2 ^ 32 -> 0 <= pkt_qosValue p < n ->
  pkt_read p = false -> piece_ok p (a, piece_size bs (pkt_addr p) (pkt_size p) a) ->
  totalWriteQueueSize (base s0) + cnt <= writeBufferSize c -> write_inv p cnt s0 i s ->
  wpf F (write_burst rand_stream mem c now p true a) s (fun a' s' =>
    write_inv p cnt s0 (i + 1) s' /\ isInWriteQueue s' = {[burst_no bs a * bs]} ∪ isInWriteQueue s /\ a' = next_burst bs a).
Proof using Hcfg Guard0.
  intros Hp Hi H32 Hq Hrd Hx Hroom Hinv. unfold write_burst. rewrite (bytes_eq c dc Hcfg), (burstAlign_eq c dc Hcfg).
  wpf_step. unfold count_stat at 1. wpf_step. wpf_step. wpf_step. wpf_step.
  set (s1 := s <| stats ::= _ |>). assert (write_inv p cnt s0 i s1) as H1.
  { eapply write_inv_untouched; [exact Hinv|by apply stat_untouched|apply Hinv]. }
  change (isInWriteQueue s) with (isInWriteQueue s1). clearbody s1. case_decide as Hin.
  - unfold count_stat. wpf_step. wpf_step. set (s2 := s1 <| stats ::= _ |>). split; [|split; [change (isInWriteQueue s2) with (isInWriteQueue s1); set_solver|done]].
    assert (untouched s1 s2) as Hun by by apply stat_untouched. destruct H1. split.
    + by eapply entered_untouched.
    + by rewrite (un_base _ _ Hun).
    + rewrite (un_base _ _ Hun). lia.
    + apply guard_less. replace (S (Z.to_nat (cnt - (i + 1)))) with (Z.to_nat (cnt - i)) by lia. done.
  - apply (place_write_wp p cnt s0 i a (piece_size bs (pkt_addr p) (pkt_size p) a) s1); try done.
Qed.
Lemma write_bursts_wp p cnt s0 : legal_request p -> cnt < 2 ^ 32 -> 0 <= pkt_qosValue p < n -> pkt_read p = false ->
  totalWriteQueueSize (base s0) + cnt <= writeBufferSize c -> forall m i a s,
  0 <= i -> i + Z.of_nat m = cnt -> Forall (piece_ok p) (pieces m bs (pkt_addr p) (pkt_size p) a) ->
  write_inv p cnt s0 i s -> wpf F (write_bursts rand_stream mem c now m p true a) s (fun _ s' =>
    write_inv p cnt s0 cnt s' /\ isInWriteQueue s' = bursts (pieces m bs (pkt_addr p) (pkt_size p) a) ∪ isInWriteQueue s).
Proof using Hcfg Guard0.
  intros Hp H32 Hq Hrd Hroom. induction m as [|m IH]; intros i a s Hi Hm Hall Hinv; cbn [write_bursts].
  - apply wpf_ret. replace cnt with i at 2 by lia. split; [done|]. unfold bursts. set_solver.
  - cbn [pieces] in Hall. inversion Hall as [|? ? Hx Hall']; subst. wpf_step.
    eapply wpf_mono; [apply (write_burst_wp p (i + Z.of_nat (S m)) s0 i a s); try done; lia|]. intros a' s' (H' & E' & ->). cbn beta in *.
    eapply wpf_mono; [apply (IH (i + 1)); [lia|lia|done|exact H']|]. intros _ s'' [H'' E'']. split; [done|].
    rewrite E'', E'. unfold bursts. cbn [pieces fmap list_fmap list_to_set fst]. set_solver.
Qed.

Lemma addToWriteQueue_wp p cnt s (Q : unit -> t -> Prop) : legal_request p -> pkt_read p = false -> 0 <= pkt_qosValue p < n ->
  burst_count c true p = Ok cnt -> totalWriteQueueSize (base s) + cnt <= writeBufferSize c ->
  queues_sound None s -> stands (Z.to_nat cnt) (dram s) (rh_defense s) ->
  (forall s', entered p s s' -> totalReadQueueSize (base s') = totalReadQueueSize (base s) ->
     isInWriteQueue s' = bursts (pieces (Z.to_nat cnt) bs (pkt_addr p) (pkt_size p) (pkt_addr p)) ∪ isInWriteQueue s -> Q tt s') ->
  wpf F (addToWriteQueue rand_stream mem c now p cnt true) s Q.
Proof using Hcfg Guard0.
  intros Hp Hrd Hq Ecnt Hroom Hs Hst HQ. destruct (pieces_ok p cnt Hp Ecnt) as (Hcnt & Hall & _).
  unfold addToWriteQueue. wpf_step. apply wpf_assert; [by rewrite (lr_write p Hp), Hrd|]. intros _. wpf_step.
  eapply wpf_mono; [eapply (write_bursts_wp p cnt s Hp ltac:(lia) Hq Hrd Hroom _ 0); [done|lia|exact Hall|]|].
  { split; try lia; [split; try done; rewrite Hrd; cbn; lia|by rewrite Z.sub_0_r]. }
  intros _ s1 [[[] ? ? _] E1]. wpf_step. apply accessAndRespond_wp; [done|]. intros x Hx.
  apply schedule_nextReq_wp; [lia|]. intros s3 H3 _ _.
  assert (forall A (f : t -> A), (forall x', f (s1 <| sent ::= fun l => l ++ [x'] |>) = f s1) -> f (answer p x s1) = f s1) as Hans
    by (intros A f Hf; unfold answer; by destruct (pkt_needsResponse p)).
  apply HQ.
  - eapply entered_untouched; [|exact H3]. split; [by apply answer_sound|..].
    + by rewrite (Hans _ respQueue).
    + by rewrite (Hans _ respondEvent).
    + by rewrite (Hans _ (fun s => readReqs (stats s))).
    + rewrite answer_owes, Hrd by (done || apply Hp). rewrite Hrd in en_owes0. cbn in *. lia.
  - rewrite (un_base _ _ H3). by rewrite (Hans _ base).
  - rewrite (un_set _ _ H3). by rewrite (Hans _ isInWriteQueue).
Qed.

(** ** A whole request *)

Lemma bursts_spec p cnt a : legal_request p -> burst_count c true p = Ok cnt ->
  a ∈ bursts (pieces (Z.to_nat cnt) bs (pkt_addr p) (pkt_size p) (pkt_addr p)) <->
  exists x, pkt_addr p <= x < pkt_addr p + pkt_size p /\ a = burstAlign c x true.
Proof using Hcfg.
  intros Hp E. destruct (pieces_ok p cnt Hp E) as (Hcnt & Hall & El & Hno). pose proof (bs_pos c dc Hcfg) as Hb.
  unfold bursts. rewrite elem_of_list_to_set, list_elem_of_fmap. split.
  - intros ([x sz] & -> & Hx). rewrite Forall_forall in Hall. destruct (Hall _ Hx) as (H1 & H2 & H3 & _). cbn in *.
    exists x. rewrite (burstAlign_eq c dc Hcfg). split; [lia|done].
  - intros (x & Hx & ->). rewrite (burstAlign_eq c dc Hcfg). exists (part_of bs (pkt_addr p) (pkt_size p) (burst_no bs x)).
    pose proof (burst_no_bounds bs x ltac:(lia)). pose proof (burst_no_bounds bs (pkt_addr p) ltac:(lia)).
    pose proof (burst_no_bounds bs (pkt_addr p + pkt_size p - 1) ltac:(lia)). split.
    + unfold part_of. cbn. f_equal. symmetry. apply burst_no_eq; lia.
    + rewrite El. apply list_elem_of_fmap. exists (burst_no bs x). split; [done|]. apply elem_of_seqZ. nia.
Qed.

Definition requeued (b' : QoS.t) (rq wq : list (list MemPacket)) (s : t) : t :=
  s <| base := b' |> <| readQueue := rq |> <| writeQueue := wq |>.
Lemma moved_each (P : MemPacket -> bool) v v' : (forall b m, P (m <| qosValue := b |>) = P m) -> moved v v' -> each P v -> each P v'.
Proof using.
  intros HP [_ Hm] Hv. apply each_weight in Hv. apply each_weight. rewrite Hm; [done|]. intros b m. unfold bad. cbn [set_qosValue MemPacket_queued].
  by rewrite HP.
Qed.
Lemma moved_weight (f : MemPacket -> Z) v v' : (forall b m, f (m <| qosValue := b |>) = f m) -> moved v v' -> weight f v' = weight f v.
Proof using. intros Hf [_ Hm]. by apply Hm. Qed.
Lemma requeued_ok b' rq wq s : ctrl_ok c dc n s -> accounts bs b' rq wq -> moved (readQueue s) rq -> moved (writeQueue s) wq ->
  kept n (base s) b' -> ctrl_ok c dc n (requeued b' rq wq s) /\
  totalReadQueueSize b' = totalReadQueueSize (base s) /\ totalWriteQueueSize b' = totalWriteQueueSize (base s) /\
  owes (requeued b' rq wq s) = owes s.
Proof using.
  intros [[] Hev Hbooks] Ha Mr Mw (Kp & Kt & Kn & _). set (s' := requeued b' rq wq s).
  pose proof (ready_totals dc n _ _ _ qs_ready0) as (Er & Ew & _).
  assert (ready bs n b' rq wq) as Hrd' by (destruct qs_ready0; split; try done; congruence).
  pose proof (ready_totals dc n _ _ _ Hrd') as (Er' & Ew' & _).
  rewrite (moved_weight (entries bs) _ _ ltac:(done) Mr) in Er'. rewrite (moved_weight (entries bs) _ _ ltac:(done) Mw) in Ew'.
  assert (forall f, (forall b m, f (m <| qosValue := b |>) = f m) -> reads f s' = reads f s) as Es.
  { intros f Hf. unfold reads. change (readQueue s') with rq. by rewrite (moved_weight f _ _ Hf Mr). }
  assert (owes s' = owes s) as Ho by (unfold owes, pending_reads; by rewrite Es).
  split; [|split; [congruence|split; [congruence|exact Ho]]]. split; [|done|].
  - split; try done.
    + by eapply moved_each.
    + by eapply moved_each.
    + intros a. change (writeQueue s') with wq. by rewrite (moved_weight (at_burst dc a) _ _ ltac:(done) Mw).
    + change (totalWriteQueueSize b' = Z.of_nat (stdpp.base.size (isInWriteQueue s))). congruence.
    + change (totalWriteQueueSize b' <= writeBufferSize c). lia.
    + change (totalReadQueueSize b' + zlen (respQueue s) <= readBufferSize c). lia.
    + intros k Hk. pose proof (qs_helpers0 k Hk) as H. unfold helper_ok in *. change (helpers s') with (helpers s).
      destruct (helpers s !! k); by rewrite Es.
  - change (readReqs (stats s) = owes s'). by rewrite Ho.
Qed.

(** There is room for the bursts of the request. *)
Definition room (p : Packet) (cnt : Z) (s : t) : bool :=
  if pkt_read p then totalReadQueueSize (base s) + zlen (respQueue s) + cnt <=? readBufferSize c
  else totalWriteQueueSize (base s) + cnt <=? writeBufferSize c.
(** The burst addresses that wait to be written. *)
Definition touched (p : Packet) (a : Z) : Prop := exists x, pkt_addr p <= x < pkt_addr p + pkt_size p /\ a = burstAlign c x true.
Record received (p : Packet) (cnt : Z) (s : t) (b : bool) (s' : t) : Prop := {
  re_ok : ctrl_ok c dc n s'; re_room : b = room p cnt s;
  re_owes : owes s' = owes s + Z.b2z (b && pkt_read p);
  re_set a : a ∈ isInWriteQueue s' <-> a ∈ isInWriteQueue s \/ b && pkt_write p = true /\ touched p a;
  re_retry : b = false -> if pkt_read p then retryRdReq s' = true else retryWrReq s' = true }.

Lemma count_reads_ok (g : Stats -> Stats) p s0 s : entered p s0 s -> ctrl_ok c dc n s0 ->
  (forall st, readReqs (g st) = readReqs st + Z.b2z (pkt_read p)) -> ctrl_ok c dc n (s <| stats ::= g |>).
Proof using.
  intros [] [_ Hev Hb] Hg. split.
  - destruct en_sound0. by split.
  - change (respondEvent s = readyTime <$> head (respQueue s)). by rewrite en_ev0, en_resp0.
  - change (readReqs (g (stats s)) = owes s). rewrite Hg, en_owes0, en_reqs0, Hb. done.
Qed.
Lemma refuse_wp p cnt s (m : comp t bool) : ctrl_ok c dc n s -> room p cnt s = false ->
  (exists s1, untouched s s1 /\ (if pkt_read p then retryRdReq s1 = true else retryWrReq s1 = true) /\ m s = Ok (false, s1)) ->
  wpf F m s (fun b s' => received p cnt s b s').
Proof using.
  intros Hs Hr (s1 & Hun & Hret & E). unfold wpf. rewrite E. split.
  - by eapply untouched_ok.
  - done.
  - rewrite (untouched_owes _ _ Hun). cbn. lia.
  - intros a. rewrite (un_set _ _ Hun). cbn. intuition congruence.
  - done.
Qed.

Lemma accept_request_wp p cnt s : legal_request p -> 0 <= pkt_qosValue p < n -> burst_count c true p = Ok cnt -> ctrl_ok c dc n s ->
  stands (Z.to_nat cnt) (dram s) (rh_defense s) ->
  wpf F (accept rand_stream mem c now p cnt true) s (fun b s' => received p cnt s b s').
Proof using Hcfg Guard0.
  intros Hp Hq Ecnt Hok Hst. pose proof (ck_queues _ _ _ _ Hok) as Hs. pose proof (sound_bounds c dc n Hcfg _ _ Hs) as (B1 & B2 & B3).
  destruct (pieces_ok p cnt Hp Ecnt) as (Hcnt & _). pose proof (cf_rb c dc Hcfg) as Hrb. pose proof (cf_wb c dc Hcfg) as Hwb.
  pose proof (lr_space p Hp) as (_ & Hsz & _).
  assert (negb (pkt_size p =? 0) = true) as Hnz by (destruct (Z.eqb_spec (pkt_size p) 0); [lia|done]).
  unfold accept. wpf_step. wpf_step. rewrite (lr_write p Hp). destruct (pkt_read p) eqn:Hrd; cbn [negb].
  - wpf_step. apply wpf_assert; [done|]. intros _. wpf_step. apply wpf_assert; [by rewrite Hnz|]. intros _.
    unfold readQueueFull. rewrite u64_small by lia. destruct (Z.ltb_spec (readBufferSize c) (totalReadQueueSize (base s) + zlen (respQueue s) + cnt)).
    + apply refuse_wp; [done| |].
      * unfold room. rewrite Hrd. by apply Z.leb_gt.
      * rewrite Hrd. eexists. split; [|split; [|reflexivity]]; [by split|done].
    + wpf_step. apply (addToReadQueue_wp p cnt s); try done. intros s1 H1 _ _ Eset. wpf_step. unfold count_stat. wpf_step. wpf_step.
      set (s2 := s1 <| stats ::= _ |>). split.
      * apply (count_reads_ok _ p s s1 H1 Hok). intros st. rewrite Hrd. by destruct st.
      * unfold room. rewrite Hrd. symmetry. by apply Z.leb_le.
      * change (owes s2) with (owes s1). rewrite (en_owes _ _ _ H1), Hrd. done.
      * intros a. change (isInWriteQueue s2) with (isInWriteQueue s1). rewrite Eset, (lr_write p Hp), Hrd. cbn. intuition congruence.
      * done.
  - wpf_step. apply wpf_assert; [by rewrite Hnz|]. intros _.
    unfold writeQueueFull. rewrite u64_small by lia. destruct (Z.ltb_spec (writeBufferSize c) (totalWriteQueueSize (base s) + cnt)).
    + apply refuse_wp; [done| |].
      * unfold room. rewrite Hrd. by apply Z.leb_gt.
      * rewrite Hrd. eexists. split; [|split; [|reflexivity]]; [by split|done].
    + wpf_step. apply (addToWriteQueue_wp p cnt s); try done. intros s1 H1 _ Eset. wpf_step. unfold count_stat. wpf_step. wpf_step.
      set (s2 := s1 <| stats ::= _ |>). split.
      * apply (count_reads_ok _ p s s1 H1 Hok). intros st. rewrite Hrd. destruct st. cbn. lia.
      * unfold room. rewrite Hrd. symmetry. by apply Z.leb_le.
      * change (owes s2) with (owes s1). rewrite (en_owes _ _ _ H1), Hrd. done.
      * intros a. change (isInWriteQueue s2) with (isInWriteQueue s1). rewrite Eset, (lr_write p Hp), Hrd, elem_of_union, (bursts_spec p cnt a Hp Ecnt).
        unfold touched. cbn. intuition congruence.
      * done.
Qed.

Lemma legal_qos p prio : legal_request p -> legal_request (p <| pkt_qosValue := prio |>).
Proof using. intros []. by split. Qed.
Lemma received_from p cnt s s1 b s' : untouched s s1 -> received p cnt s1 b s' -> received p cnt s b s'.
Proof using.
  intros H []. split; try done.
  - rewrite re_room0. unfold room. by rewrite (un_base _ _ H), (un_resp _ _ H).
  - by rewrite re_owes0, (untouched_owes _ _ H).
  - intros a. by rewrite re_set0, (un_set _ _ H).
Qed.
Lemma recvTimingReq_wp p cnt s : legal_request p -> burst_count c true p = Ok cnt -> ctrl_ok c dc n s ->
  (policy (base s) = None -> 0 <= pkt_qosValue p < n) -> stands (Z.to_nat cnt) (dram s) (rh_defense s) ->
  wpf F (recvTimingReq rand_stream mem c now p) s (fun b s' => received p cnt s b s').
Proof using Hcfg Guard0.
  intros Hp Ecnt Hok Hpol Hst. pose proof (lr_space p Hp) as (? & Hsz & _). unfold recvTimingReq.
  rewrite (lr_cache p Hp), (lr_write p Hp). replace (negb (pkt_read p || negb (pkt_read p))) with false by by destruct (pkt_read p).
  wpf_step. wpf_step. wpf_step.
  apply (wpf_mono _ _ _ (fun _ s' => untouched s s' /\ dram s' = dram s /\ rh_defense s' = rh_defense s)).
  { wpf_step; [|by split; [apply untouched_refl|]]. unfold count_stat. wpf_step. split; [by apply stat_untouched|done]. }
  intros [] s1 (H1 & Ed & Er). wpf_step. wpf_step. set (s2 := s1 <| prevArrival := now |>).
  assert (untouched s s2) as H2 by (eapply untouched_trans; [exact H1|by split]). 
  change (dram s1) with (dram s2) in Ed. change (rh_defense s1) with (rh_defense s2) in Er. clearbody s2.
  wpf_step. rewrite (media_eq c dc Hcfg) by (apply (lr_range p Hp); lia). apply wpf_lift; [done|]. intros _ [= <-].
  wpf_step. rewrite Ecnt. apply wpf_lift; [done|]. intros _ [= <-]. wpf_step.
  pose proof (untouched_ok c dc n s s2 H2 Hok) as Hok2. pose proof (qs_ready _ _ _ _ _ (ck_queues _ _ _ _ Hok2)) as Hrd2.
  rewrite <- (un_base _ _ H2) in Hpol. rewrite (bytes_eq c dc Hcfg). unfold on_queues. wpf_step. apply wpf_wp.
  eapply wp_mono; [exact (qosSchedule_any bs (proj1 (bs_pos c dc Hcfg)) now p n _ _ _ Hrd2 Hpol)|].
  intros r q (prio & -> & Hprio & c' & rq & wq & -> & Ha & Mr & Mw & K). cbn beta iota.
  change (wpf F (accept rand_stream mem c now (p <| pkt_qosValue := prio |>) cnt true) (requeued c' rq wq s2) (fun b s' => received p cnt s b s')).
  destruct (requeued_ok c' rq wq s2 Hok2 Ha Mr Mw K) as (Hok3 & Et & Ew & Eo).
  eapply wpf_mono; [apply (accept_request_wp (p <| pkt_qosValue := prio |>) cnt); try done; [by apply legal_qos|]|].
  - change (stands (Z.to_nat cnt) (dram s2) (rh_defense s2)). by rewrite Ed, Er.
  - intros b s' []. apply (received_from p cnt s s2); [done|]. split; try done.
    + rewrite re_room0. unfold room. change (base (requeued c' rq wq s2)) with c'. by rewrite Et, Ew.
    + by rewrite re_owes0, Eo.
Qed.
End Req.
End CtrlReq.
