(* ===== verification/MemCtrlGuard.v ===== *)
(** What the memory controller relies on when it makes the packet of a burst (the class
    [Guard] of MemCtrlReq.v): without a Rowhammer defence it never fails, with row
    quarantine not as long as the detector can follow the activations. *)
From S2P Require Import Prelude AddrRange Mitigation CmdBus Packet Detector RRS RRSAccess RQ RQTables RQAccess RQInit Dram DramDecode Defense QoSPolicy QoS MemSink MemCtrl MemCtrlInv MemCtrlReq.
From Stdlib Require String.
Open Scope Z_scope.
Import QoS MemCtrl CtrlInv CtrlReq.

Module CtrlGuard.

Section Guard.
Context {HS : StdLib} {HM : Medium} (c : Config) (dc : DRAMInterface.Config) (rand_stream : nat -> Z) (mem : nat -> Alloc) (now : Z).
Hypothesis Hdram : dram_cfg c = Some dc.

(** The parts of the state the making of a packet works on. *)
Definition same_parts (s s' : t) : Prop := untouched s s' /\ dram s' = dram s /\ rh_defense s' = rh_defense s.
(** The packet names a row of the configuration. *)
Definition placed (F : Prop) (m : MemPacket) : Prop := F \/ 0 <= rank m < DRAMInterface.ranksPerChannel dc /\
  0 <= bank m < DRAMInterface.banksPerRank dc /\ 0 <= row m < DRAMInterface.rowsPerBank dc.
Lemma decode_wpf (F : Prop) p a sz rd s :
  (F \/ AddrRange.range_ok (dram_range c) /\ Decode.geometry dc /\ AddrRange.contains (dram_range c) a = true) ->
  wpf F (decode mem c now true p a sz rd) s (fun m s' => same_parts s s' /\ made p a sz rd m /\
    placed F m).
Proof using Hdram.
  intros HF. unfold decode. wpf_step. wpf_step. wpf_step. apply wpf_lift.
  { intros f E. destruct HF as [?|(Hr & _ & Ha)]; [done|]. destruct (AddrRange.getOffset_ok _ _ Hr Ha) as (x & Ex & _). congruence. }
  intros off Eoff. wpf_step. rewrite Hdram. apply wpf_lift; [done|]. intros _ [= <-]. wpf_step. apply wpf_lift.
  - intros f E. destruct HF as [?|(Hr & Hg & Ha)]; [done|]. destruct (AddrRange.getOffset_ok _ _ Hr Ha) as (x & Ex & Hx).
    destruct (Decode.decodePacket_ok dc Hg (fun _ => off) (mem (allocs s)) now p a sz rd true) as (m & Em & _); congruence.
  - intros m Em. wpf_step. wpf_step. wpf_step. pose proof (Decode.decodePacket_new _ _ _ _ _ _ _ _ _ _ Em) as Enew.
    split; [|split].
    + split; [|done]. split; try done. cbn. lia.
    + rewrite Enew. by split.
    + destruct HF as [?|(Hr & Hg & Ha)]; [by left|right]. destruct (AddrRange.getOffset_ok _ _ Hr Ha) as (x & Ex & Hx).
      destruct (Decode.decodePacket_ok dc Hg (fun _ => off) (mem (allocs s)) now p a sz rd true) as (m' & Em' & H1 & H2 & H3); [congruence|].
      rewrite Em in Em'. by injection Em' as <-.
Qed.
Lemma setup_wpf (F : Prop) m rd s (Q : unit -> t -> Prop) : (F \/ 0 <= rank m < zlen (DRAMInterface.ranks (dram s))) ->
  (forall s', untouched s s' -> rh_defense s' = rh_defense s ->
     zlen (DRAMInterface.ranks (dram s')) = zlen (DRAMInterface.ranks (dram s)) -> Q tt s') ->
  wpf F (on_dram c (fun _ _ => DRAMInterface.setupRank (rank m) rd)) s Q.
Proof using Hdram.
  intros HF HQ. unfold on_dram. wpf_step. wpf_step. rewrite Hdram. wpf_step. unfold DRAMInterface.setupRank, DRAMInterface.on_rb, wpf.
  change (DRAMInterface.ranks ((dram s) <| DRAMInterface.bus := bus s |>)) with (DRAMInterface.ranks (dram s)).
  unfold aread. destruct (DRAMInterface.ranks (dram s) !! rank m) as [r|] eqn:E.
  - cbn -[over]. apply HQ; [by split|done|]. cbn. by rewrite zlen_insert.
  - destruct HF as [?|Hr]; [done|]. destruct (zlookup_None _ _ E); lia.
Qed.

(** The defence marks the packet and leaves the rest of it alone. *)
Definition marked (m m' : MemPacket) : Prop := exists b x,
  m' = m <| rh_injectDelay := true |> <| rh_bubbleSize := b |> <| rh_SRAMDelay := x |>.
Lemma made_marked p a sz rd m m' : made p a sz rd m -> marked m m' -> made p a sz rd m' /\ rank m' = rank m.
Proof using. intros [] (b & x & ->). by split. Qed.

Section Stands.
Context (F : Prop) (ok : nat -> Defense.t -> Prop).
Hypothesis Hgood : F \/ AddrRange.range_ok (dram_range c) /\ Decode.geometry dc.
Hypothesis Hless : forall k r, ok (S k) r -> ok k r.
Hypothesis Hdef : rh_defense_enable c = true -> forall k m r, ok (S k) r -> AddrRange.contains (dram_range c) (addr m) = true -> placed F m ->
  wpf F (Defense.defend rand_stream (rh_mitigation c) now m) r (fun m' r' => marked m m' /\ ok k r').

(** The ranks are those of the configuration, and the defence stands [k] accesses. *)
Definition stands (k : nat) (d : DRAMInterface.t) (r : Defense.t) : Prop :=
  (F \/ zlen (DRAMInterface.ranks d) = DRAMInterface.ranksPerChannel dc) /\ ok k r.
Lemma guard_stands : Guard c rand_stream mem now F stands.
Proof using Hdram Hgood Hless Hdef.
  split; [|intros k d r [? ?]; split; auto]. intros k p a sz rd s [Hd Hok] Ha. unfold new_packet. wpf_step.
  eapply wpf_mono; [apply decode_wpf; destruct Hgood as [?|[? ?]]; [by left|by right]|].
  intros m s1 ((Hun & Ed & Er) & Hm & Hr). wpf_step.
  apply (wpf_mono _ _ _ (fun m' s2 => marked m m' /\ untouched s s2 /\ dram s2 = dram s /\ ok k (rh_defense s2)
    \/ m' = m /\ untouched s s2 /\ dram s2 = dram s /\ ok k (rh_defense s2))).
  - destruct (rh_defense_enable c) eqn:E.
    + wpf_step. rewrite Er. 
      assert (AddrRange.contains (dram_range c) (addr m) = true) as Ha' by (by rewrite (ma_addr _ _ _ _ _ Hm)).
      eapply wpf_mono; [exact (Hdef eq_refl k m _ Hok Ha' Hr)|].
      intros m' r' [Hmk Hok']. left. split; [done|]. split; [|split; [exact Ed|exact Hok']].
      eapply untouched_trans; [exact Hun|by split].
    + wpf_step. right. rewrite Er. auto.
  - intros m' s2 H2. assert (made p a sz rd m' /\ rank m' = rank m /\ untouched s s2 /\ dram s2 = dram s /\ ok k (rh_defense s2))
      as (Hm' & Erk & Hun2 & Ed2 & Hok2).
    { destruct H2 as [(Hmk & H2)|(-> & H2)]; [|done]. destruct (made_marked _ _ _ _ _ _ Hm Hmk) as [H3 H4]. done. }
    wpf_step. apply setup_wpf.
    { rewrite Erk, Ed2. destruct Hd as [?| ->]; [by left|]. destruct Hr as [?|[Hr _]]; [by left|right]. lia. }
    intros s3 Hun3 Er3 Ez. wpf_step. split; [by eapply untouched_trans|]. split; [done|]. split; [rewrite Ez, Ed2; exact Hd|by rewrite Er3].
Qed.
End Stands.
End Guard.

(** ** The guards *)

Section Instances.
Context {HS : StdLib} {HM : Medium} (c : Config) (dc : DRAMInterface.Config) (rand_stream : nat -> Z) (mem : nat -> Alloc) (now : Z).
Hypothesis Hdram : dram_cfg c = Some dc.

(** Whatever the defence does, a burst that does not fault has its packet. *)
Lemma guard_partial : Guard c rand_stream mem now True (stands dc True (fun _ _ => True)).
Proof using Hdram.
  apply guard_stands; [done|by left|done|]. intros _ k m r _ _ _. unfold Defense.defend. wpf_step.
  eapply (wpf_mono _ _ _ (fun _ _ => True)); [by apply wpf_any|]. intros d r' _. wpf_step. split; [|done]. by eexists _, _.
Qed.

Hypothesis Hrange : AddrRange.range_ok (dram_range c).
Hypothesis Hgeo : Decode.geometry dc.
Lemma guard_plain : rh_defense_enable c = false -> Guard c rand_stream mem now False (stands dc False (fun _ _ => True)).
Proof using Hdram Hrange Hgeo. intros E. apply guard_stands; [done|by right|done|]. by rewrite E. Qed.

(** Row quarantine stands as many accesses as its detector has counters left for. *)
Section Quarantine.
Context (entries rows thr : Z).
Hypothesis Hdims : 0 <= entries < 2 ^ 32 /\ 0 <= rows /\ 0 < thr.
Definition rq_stands (k : nat) (r : Defense.t) : Prop := exists rq W f g, r = Defense.RQ rq /\
  Access.ready entries rows thr rq W f g /\
  (forall b, Z.max 0 (W (0, 0, b)) + Z.of_nat k < 2 ^ 32 /\ Z.max 0 (W (0, 0, b)) + Z.of_nat k <= thr * (entries + 1)) /\
  forall a, AddrRange.contains (dram_range c) a = true -> 0 <= a /\ exists row, Row_Quarantine.randRowID rq !! (a / 8192) = Some row.
Lemma guard_quarantine : Defense.by_row (rh_mitigation c) = false ->
  Guard c rand_stream mem now False (stands dc False rq_stands).
Proof using Hdram Hrange Hgeo Hdims.
  intros Hrow. destruct Hdims as (Hn & Hrows & Hthr). apply guard_stands; [done|by right| |].
  - intros k r (rq & W & f & g & -> & H1 & H2 & H3). exists rq, W, f, g. split; [done|]. split; [done|]. split; [|done].
    intros b. specialize (H2 b). lia.
  - intros _ k m r (rq & W & f & g & -> & H1 & H2 & H3) Ha _. destruct (H3 _ Ha) as (H0 & row & Hrw).
    apply wpf_wp. unfold Defense.defend. rewrite Hrow. wp_step. unfold Defense.access, wp.
    assert (forall b, W (0, 0, b) + 1 < 2 ^ 32) as HW1 by (intros b; specialize (H2 b); lia).
    assert (forall b, W (0, 0, b) < thr * (entries + 1)) as HW2 by (intros b; specialize (H2 b); lia).
    destruct (wp_inv _ _ _ (Access.access_wp entries rows thr rq W f g now (addr m) row Hn Hrows Hthr H1 H0 Hrw HW1 HW2))
      as (d & rq' & -> & [(W' & f' & g' & Hr' & HW') Hids _]).
    cbn [mbind result_bind]. split; [by eexists _, _|]. exists rq', W', f', g'. split; [done|]. split; [done|]. split.
    + intros b. specialize (H2 b). specialize (HW' b). lia.
    + intros a Ha'. rewrite Hids. by apply H3.
Qed.
End Quarantine.

(** Row swap stands as many accesses as its detector and its tables are provisioned for. *)
Section Swap.
Import SwapAccess.
Context (ne thr nt cap limit : Z).
Let rows := DRAMInterface.rowsPerBank dc.
Let banks := DRAMInterface.banksPerRank dc.
Hypothesis Hdims : 0 <= ne < 2 ^ 32 /\ 0 < thr /\ 0 <= nt < 2 ^ 32 - 1 /\ 1 + 2 * nt + ne < rows /\ cap < nt.
Hypothesis Hlim : provisioned ne thr cap limit.
Definition rrs_stands (k : nat) (r : Defense.t) : Prop := exists rrs h, r = Defense.RRS rrs /\
  sound ne rows thr nt cap banks None h rrs /\
  (forall rk b, 0 <= rk < DRAMInterface.ranksPerChannel dc -> 0 <= b < banks -> (0, rk, b) ∈ dom (Randomized_Row_Swap.tables rrs)) /\
  forall x, Z.max 0 (loads h x) + Z.of_nat k <= limit.
Lemma guard_swap : Defense.by_row (rh_mitigation c) = true ->
  Guard c rand_stream mem now False (stands dc False rrs_stands).
Proof using Hdram Hrange Hgeo Hdims Hlim.
  intros Hrow. destruct Hdims as (Hne & Hthr & Hnt & Hroom & Hcap). apply guard_stands; [done|by right| |].
  - intros k r (rrs & h & -> & H1 & H2 & H3). exists rrs, h. split; [done|]. split; [done|]. split; [done|].
    intros x. specialize (H3 x). lia.
  - intros _ k m r (rrs & h & -> & H1 & H2 & H3) _ [[]|(Hrk & Hb & Hr)].
    apply wpf_wp. unfold Defense.defend. rewrite Hrow. wp_step. unfold Defense.access, wp.
    assert (forall x, loads (roll (window_over (Randomized_Row_Swap.base rrs) now) h) x <= Z.max 0 (loads h x)) as Hroll.
    { intros x. destruct window_over; cbn; lia. }
    assert (forall x, loads (roll (window_over (Randomized_Row_Swap.base rrs) now) h) x + 1 <= limit) as Hl.
    { intros x. specialize (H3 x). specialize (Hroll x). lia. }
    destruct (wp_inv _ _ _ (swap_access_wp ne rows thr nt cap banks Hne Hthr Hnt Hroom Hcap rand_stream h rrs now (row m) 0 (rank m) (bank m)
      H1 (H2 _ _ Hrk Hb) Hr (provisioned_le _ _ _ Hthr limit _ Hlim (Hl _)))) as (d & rrs' & -> & [Hr' [Hdom _] _ _]).
    cbn [mbind result_bind]. split; [by eexists _, _|]. eexists rrs', _. split; [done|]. split; [exact Hr'|]. rewrite Hdom. split; [done|].
    intros x. rewrite record_loads. specialize (H3 x). specialize (Hroll x). case_bool_decide; cbn; lia.
Qed.
End Swap.
End Instances.
End CtrlGuard.
