(* ===== verification/MemCtrlServe.v ===== *)
(** The events of the memory controller ([processNextReqEvent], [processRespondEvent] and
    the others in [mem/mem_ctrl.cc]) keep the invariant of MemCtrlInv.v. *)
From S2P Require Import Prelude AddrRange Mitigation CmdBus Packet Dram Refresh NVM Defense QoSPolicy QoS QoSEscalate QoSAccount QoSSchedule QoSTurn MemSink MemCtrl MemCtrlSched MemCtrlSplit MemCtrlInv MemCtrlReq MemCtrlGuard.
From stdpp Require Import gmap.
Open Scope Z_scope.
Import QoS Escalate Account Schedule MemCtrl Sched Split CtrlInv CtrlReq CtrlGuard.

Module CtrlServe.
#[local] Arguments vol : simpl never.
#[local] Arguments entries : simpl never.
#[local] Arguments weight : simpl never.
#[local] Arguments push : simpl never.
#[local] Arguments drop_at : simpl never.

Section Serve.
Context {HS : StdLib} {HM : Medium} (c : Config) (dc : DRAMInterface.Config) (n : Z).
Context (rand_stream : nat -> Z) (mem : nat -> Alloc) (now : Z).
Hypothesis Hcfg : config_ok c dc.
Abbreviation bs := (CtrlInv.bs dc).
Abbreviation queues_sound := (queues_sound c dc n).
Abbreviation ctrl_ok := (ctrl_ok c dc n).
Abbreviation sound_read := (sound_read c dc).
Abbreviation sound_write := (sound_write dc).

(** Partial correctness, with the invariant on both sides. *)
Definition keeps {A} (m : comp t A) : Prop := forall s, ctrl_ok s -> wpf True m s (fun _ s' => ctrl_ok s').
Lemma keeps_ret {A} (a : A) : keeps (mret a).
Proof using. intros s Hs. by apply wpf_ret. Qed.
Lemma keeps_bind {A B} (m : comp t A) (k : A -> comp t B) : keeps m -> (forall a, keeps (k a)) -> keeps (mbind k m).
Proof using. intros Hm Hk s Hs. apply wpf_bind. eapply wpf_mono; [exact (Hm s Hs)|]. intros a s' Hs'. exact (Hk a s' Hs'). Qed.
Lemma keeps_get {A} (k : t -> comp t A) : (forall s, ctrl_ok s -> wpf True (k s) s (fun _ s' => ctrl_ok s')) -> keeps (s ← get; k s).
Proof using. intros Hk s Hs. apply wpf_bind, wpf_get. exact (Hk s Hs). Qed.
Lemma keeps_lift {A} (m : result A) : keeps (lift m).
Proof using. intros s Hs. apply wpf_lift; [done|]. by intros a _. Qed.
Lemma keeps_assert b : keeps (assert_ b).
Proof using. intros s Hs. apply wpf_assert; [done|]. by intros _. Qed.
Lemma keeps_when b m : (b = true -> keeps m) -> keeps (when_ b m).
Proof using. intros Hm s Hs. apply wpf_when; intros Hb; [exact (Hm Hb s Hs)|done]. Qed.
Lemma keeps_untouched {A} (m : comp t A) : (forall s, wpf True m s (fun _ s' => untouched s s')) -> keeps m.
Proof using. intros Hm s Hs. eapply wpf_mono; [apply Hm|]. intros a s' H. exact (untouched_ok c dc n s s' H Hs). Qed.
Lemma keeps_modify g : (forall s, untouched s (g s)) -> keeps (modify g).
Proof using. intros Hg. apply keeps_untouched. intros s. by apply wpf_modify. Qed.

(** Through the pointer to the interface nothing of the queues changes. *)
Lemma on_dram_untouched {A} (m : DRAMInterface.Config -> DRAMInterface.CtrlView -> comp DRAMInterface.t A) s (Q : A -> t -> Prop) :
  (forall d v a d', m d v ((dram s) <| DRAMInterface.bus := bus s |>) = Ok (a, d') -> forall s', untouched s s' -> Q a s') -> wpf True (on_dram c m) s Q.
Proof using.
  intros HQ. unfold on_dram. wpf_step. wpf_step. destruct (dram_cfg c) as [d|]; [|by apply wpf_lift].
  wpf_step. apply wpf_of; [done|]. intros a d' E. eapply HQ; [exact E|]. by split.
Qed.
Lemma keeps_dram {A} (m : DRAMInterface.Config -> DRAMInterface.CtrlView -> comp DRAMInterface.t A) : keeps (on_dram c m).
Proof using. apply keeps_untouched. intros s. by apply on_dram_untouched. Qed.
Lemma keeps_nvm {A} (m : NVMInterface.NConfig -> DRAMInterface.CtrlView -> comp NVMInterface.nvm A) : keeps (on_nvm c m).
Proof using.
  apply keeps_untouched. intros s. unfold on_nvm. wpf_step. wpf_step. destruct (nvm_cfg c) as [d|]; [|by apply wpf_lift].
  wpf_step. apply wpf_of; [done|]. intros a d' _. by split.
Qed.
Lemma keeps_next when : keeps (schedule_next now when).
Proof using.
  apply keeps_untouched. intros s. unfold schedule_next. wpf_step. wpf_step. wpf_step; [|apply untouched_refl].
  wpf_step. apply wpf_lift; [done|]. intros e _. apply wpf_modify. by split.
Qed.

(** ** The direction of the bus *)

Definition redirected (b b' : QoS.t) : Prop := exists st x y, b' = b <| QoS.stats := st |> <| busState := x |> <| busStateNext := y |>.
Lemma redirected_trans b b' b'' : redirected b b' -> redirected b' b'' -> redirected b b''.
Proof using. intros (st0 & x0 & y0 & ->) (st & x & y & ->). by exists st, x, y. Qed.
Lemma accounts_redirected b b' (rq wq : list (list MemPacket)) : redirected b b' -> ready bs n b rq wq -> ready bs n b' rq wq.
Proof using. intros (st & x & y & ->) []. destruct rd_accounts0 as [[] Ht]. split; try done. Qed.
Lemma redirected_ok s b' : redirected (base s) b' -> ctrl_ok s -> ctrl_ok (s <| base := b' |>).
Proof using.
  intros Hr [[] He Hb]. split; [|done|done]. pose proof (accounts_redirected _ _ _ _ Hr qs_ready0). destruct Hr as (st & x & y & ->). by split.
Qed.
Lemma keeps_base (m : comp QoS.t unit) : (forall b, wpf True m b (fun _ b' => redirected b b')) -> keeps (on_base m).
Proof using.
  intros Hm s Hs. unfold on_base. wpf_step. eapply wpf_mono; [apply Hm|]. intros [] b' Hb. by apply redirected_ok.
Qed.
Lemma keeps_set_next d : keeps (set_next d).
Proof using.
  apply keeps_base. intros b. apply wpf_modify. exists (QoS.stats b), (busState b), d. by destruct b.
Qed.

(** ** A packet leaves its queue *)

Definition taken (k : Z) (p : MemPacket) (q1 q2 : list MemPacket) (s : t) (b' : QoS.t) : Prop :=
  ready bs n b' (on_reads k (drop_at q1 q2 (qosValue p)) (readQueue s)) (on_writes k (drop_at q1 q2 (qosValue p)) (writeQueue s)) /\
  totalReadQueueSize b' = totalReadQueueSize (base s) - (if k =? 0 then 1 else 0) /\
  totalWriteQueueSize b' = totalWriteQueueSize (base s) - (if k =? 0 then 0 else 1).
Lemma in_queue k j p q1 q2 own s : (k = 0 \/ k = 1) -> queues_sound own s ->
  on_writes k (fun _ => writeQueue s) (readQueue s) !! j = Some (q1 ++ p :: q2) -> qosValue p = j /\ legal dc p = true.
Proof using.
  intros Hk [] Hq. split.
  - destruct qs_ready0. destruct rd_accounts0 as [[] _]. destruct Hk as [-> | ->]; cbn in Hq.
    + destruct co_reads0 as [_ H]. specialize (H _ _ Hq). apply Forall_app in H as [_ H]. inversion H as [|? ? (_ & Hj & _)]. done.
    + destruct co_writes0 as [_ H]. specialize (H _ _ Hq). apply Forall_app in H as [_ H]. inversion H as [|? ? (_ & Hj & _)]. done.
  - destruct Hk as [-> | ->]; cbn in Hq.
    + destruct (each_drop _ _ _ _ _ _ Hq qs_reads0) as [_ H]. by apply andb_prop in H as [H _].
    + destruct (each_drop _ _ _ _ _ _ Hq qs_writes0) as [_ H]. by apply andb_prop in H as [H _].
Qed.
Lemma log_take delay k p q1 q2 own s : (k = 0 \/ k = 1) -> queues_sound own s ->
  on_writes k (fun _ => writeQueue s) (readQueue s) !! qosValue p = Some (q1 ++ p :: q2) ->
  wp (logResponse now (dir_of k) (requestorId p) (qosValue p) (addr p) 1 delay) (base s) (fun _ b' => taken k p q1 q2 s b').
Proof using Hcfg.
  intros Hk Hs Lq. destruct (in_queue _ _ _ _ _ _ _ Hk Hs Lq) as [_ Hp]. pose proof (qs_ready _ _ _ _ _ Hs) as Hrd.
  pose proof (bs_pos c dc Hcfg) as Hbs. pose proof (legal_entries c dc Hcfg p Hp) as He.
  pose proof (ready_totals dc n _ _ _ Hrd) as (Er & Ew & Lr & Lw).
  pose proof (logResponse_wp bs (proj1 Hbs) now delay k (qosValue p) p q1 q2 (base s) (readQueue s) (writeQueue s) Hk
    (rd_accounts _ _ _ _ _ Hrd) Lq) as Hlog.
  rewrite He in Hlog. eapply wp_mono; [exact Hlog|]. intros [] b' [Hf Ha]. cbn beta in Hf, Ha.
  assert (ready bs n b' (on_reads k (drop_at q1 q2 (qosValue p)) (readQueue s)) (on_writes k (drop_at q1 q2 (qosValue p)) (writeQueue s)))
    as Hrd' by exact (ready_frame dc n _ _ _ _ _ _ Hrd Hf Ha).
  split; [exact Hrd'|]. pose proof (ready_totals dc n _ _ _ Hrd') as (Er' & Ew' & _). rewrite Er', Ew', Er, Ew.
  destruct Hk as [-> | ->]; cbn in Lq |- *; rewrite (weight_drop _ _ _ _ _ _ Lq); lia.
Qed.

(** A read goes from its queue to the responses, with the tick it is ready at. *)
Definition timed (p p' : MemPacket) : Prop := exists x, p' = p <| readyTime := x |>.
Definition read_out (p' : MemPacket) (q1 q2 : list MemPacket) (b' : QoS.t) (e : event) (s : t) : t :=
  s <| base := b' |> <| respondEvent := e |> <| respQueue ::= fun l => l ++ [p'] |>
    <| readQueue := drop_at q1 q2 (qosValue p') (readQueue s) |>.
Lemma read_out_ok p p' q1 q2 b' e s : ctrl_ok s -> timed p p' -> readQueue s !! qosValue p = Some (q1 ++ p :: q2) ->
  taken 0 p q1 q2 s b' -> e = (match respQueue s with [] => Some (readyTime p') | _ => respondEvent s end) ->
  ctrl_ok (read_out p' q1 q2 b' e s).
Proof using Hcfg.
  intros [[] Hev Hb] (x & ->) Lq (Hrd & Et & Ew) ->. cbn in Et, Ew. set (p' := p <| readyTime := x |>).
  set (s' := read_out _ _ _ _ _ s). change (qosValue p') with (qosValue p) in *.
  assert (readQueue s' = drop_at q1 q2 (qosValue p) (readQueue s)) as Eq by done.
  assert (respQueue s' = respQueue s ++ [p']) as El by done.
  destruct (each_drop _ _ _ _ _ _ Lq qs_reads0) as [Hdrop Hp].
  assert (forall f : MemPacket -> Z, f p' = f p -> reads f s' = reads f s) as Er.
  { intros f Hf. unfold reads. rewrite Eq, El, (weight_drop _ _ _ _ _ _ Lq), lsum_app. cbn. lia. }
  assert (owes s' = owes s) as Ho by (unfold owes, pending_reads; by rewrite Er).
  split; [split; try done| |].
  - rewrite El. apply Forall_app. split; [done|]. constructor; [exact Hp|constructor].
  - change (totalWriteQueueSize b' = Z.of_nat (stdpp.base.size (isInWriteQueue s))). lia.
  - change (totalWriteQueueSize b' <= writeBufferSize c). lia.
  - rewrite El. change (totalReadQueueSize b' + zlen (respQueue s ++ [p']) <= readBufferSize c). unfold zlen in *.
    rewrite length_app. cbn [length]. lia.
  - intros k Hk. pose proof (qs_helpers0 k Hk) as H. unfold helper_ok in *. change (helpers s') with (helpers s).
    destruct (helpers s !! k); by rewrite (Er (of_helper k)).
  - rewrite El. change (respondEvent s') with (match respQueue s with [] => Some (readyTime p') | _ => respondEvent s end).
    by destruct (respQueue s).
  - by rewrite Ho.
Qed.

(** A write leaves its queue and the set of the bursts that wait. *)
Definition write_out (p : MemPacket) (q1 q2 : list MemPacket) (b' : QoS.t) (s : t) : t :=
  s <| isInWriteQueue ::= fun l => l ∖ {[ burst_of dc p ]} |> <| base := b' |> <| writeQueue := drop_at q1 q2 (qosValue p) (writeQueue s) |>.
Lemma write_out_ok p q1 q2 b' s : ctrl_ok s -> writeQueue s !! qosValue p = Some (q1 ++ p :: q2) -> taken 1 p q1 q2 s b' ->
  ctrl_ok (write_out p q1 q2 b' s).
Proof using Hcfg.
  intros [[] Hev Hb] Lq (Hrd & Et & Ew). cbn in Et, Ew. set (s' := write_out _ _ _ _ s).
  destruct (each_drop _ _ _ _ _ _ Lq qs_writes0) as [Hdrop Hp].
  assert (isInWriteQueue s' = isInWriteQueue s ∖ {[burst_of dc p]}) as Es by done.
  assert (burst_of dc p ∈ isInWriteQueue s) as Hin.
  { pose proof (qs_merged0 (burst_of dc p)) as Hm. pose proof (weight_drop (at_burst dc (burst_of dc p)) _ _ _ _ _ Lq) as Hw.
    unfold at_burst in Hw at 3. rewrite Z.eqb_refl in Hw. cbn in Hw.
    assert (0 <= weight (at_burst dc (burst_of dc p)) (drop_at q1 q2 (qosValue p) (writeQueue s))) as H0.
    { apply lsum_lower_0. intros i q _. apply lsum_lower_0. intros j m _. unfold at_burst. by destruct (_ =? _). }
    destruct (decide (burst_of dc p ∈ isInWriteQueue s)); [done|]. rewrite bool_decide_false in Hm by done. cbn in Hm. lia. }
  split; [split; try done|done|done].
  - intros a. rewrite Es. change (writeQueue s') with (drop_at q1 q2 (qosValue p) (writeQueue s)).
    rewrite (weight_drop _ _ _ _ _ _ Lq), qs_merged0. unfold at_burst. destruct (Z.eqb_spec (burst_of dc p) a) as [<-|Hne].
    + rewrite bool_decide_true, bool_decide_false by set_solver. done.
    + rewrite Z.sub_0_r. f_equal. apply bool_decide_ext. set_solver.
  - rewrite Es, size_difference, size_singleton by set_solver. change (totalWriteQueueSize b' = Z.of_nat (stdpp.base.size (isInWriteQueue s) - 1)).
    assert (stdpp.base.size (isInWriteQueue s) <> 0%nat) by (rewrite size_non_empty_iff; set_solver). lia.
  - change (totalWriteQueueSize b' <= writeBufferSize c). lia.
  - change (totalReadQueueSize b' + zlen (respQueue s) <= readBufferSize c). lia.
Qed.

(** ** The burst *)

Lemma dram_timed d p nb q s : wpf True (DRAMInterface.doBurstAccess d now p nb q) s (fun r _ => timed p r.1).
Proof using.
  unfold DRAMInterface.doBurstAccess. wpf_step. eapply (wpf_mono _ _ _ (fun _ _ => True)); [by apply wpf_any|]. intros [] s1 _.
  wpf_step. eapply (wpf_mono _ _ _ (fun _ _ => True)); [by apply wpf_any|]. intros [hit samples] s2 _.
  wpf_step. eapply (wpf_mono _ _ _ (fun _ _ => True)); [by apply wpf_any|]. intros [cmd_at gap] s3 _. cbv zeta.
  wpf_step. eapply (wpf_mono _ _ _ (fun _ _ => True)); [by apply wpf_any|]. intros bk s4 _. wpf_step. wpf_step.
  wpf_step. eapply (wpf_mono _ _ _ (fun _ _ => True)); [by apply wpf_any|]. intros [] s5 _. wpf_step. by eexists.
Qed.
Lemma doBurstAccess_timed p s : isDram p = true -> wpf True (doBurstAccess c now p) s (fun p' s' => untouched s s' /\ timed p p').
Proof using Hcfg.
  intros Hd. unfold doBurstAccess. rewrite Hd. wpf_step. wpf_step. apply wpf_of; [done|]. intros [] b _. wpf_step.
  unfold dram_burst. wpf_step. wpf_step. wpf_step. wpf_step. wpf_step.
  apply on_dram_untouched. intros d v [p' [cmd_at next]] d' E s2 Hun. pose proof (wpf_run _ _ _ _ _ _ (dram_timed _ _ _ _ _) E) as Ht. cbn in Ht.
  wpf_step. wpf_step. wpf_step. unfold has_nvm. rewrite (cf_nvm c dc Hcfg). cbn [when_]. wpf_step. wpf_step. wpf_step. wpf_step. wpf_step. wpf_step. wpf_step.
  split; [|exact Ht]. apply (untouched_trans s s2); [eapply untouched_trans; [|exact Hun]; by split|]. destruct (isRead p'); by split.
Qed.

Lemma erase_ok v p k i v' q : erase v p k i = Ok v' -> v !! k = Some q -> qosValue p = k /\
  v' = drop_at (take (Z.to_nat i) q) (drop (S (Z.to_nat i)) q) k v.
Proof using.
  unfold erase. destruct (Z.eqb_spec (qosValue p) k) as [E|]; [|done]. cbn [negb]. unfold aread at 1. intros Ev Hq. rewrite Hq in Ev.
  cbn [mbind result_bind] in Ev. split; [done|]. pose proof (zalter_write (fun _ => take (Z.to_nat i) q ++ drop (S (Z.to_nat i)) q) v k q Hq) as E'.
  rewrite E' in Ev. injection Ev as <-. done.
Qed.
Lemma split_at {A} (q : list A) (i : Z) p : q !! i = Some p -> q = take (Z.to_nat i) q ++ p :: drop (S (Z.to_nat i)) q.
Proof using.
  unfold lookup, zlist_lookup. destruct (i <? 0); [done|]. intros H. symmetry. by apply take_drop_middle.
Qed.

Lemma push_response_wp p s (Q : unit -> t -> Prop) :
  (forall e, e = (match respQueue s with [] => Some (readyTime p) | _ => respondEvent s end) ->
     Q tt (s <| respondEvent := e |> <| respQueue ::= fun l => l ++ [p] |>)) -> wpf True (push_response now p) s Q.
Proof using.
  intros HQ. unfold push_response. wpf_step. wpf_step. wpf_step. destruct (respQueue s) as [|r l] eqn:El.
  - simpl. wpf_step. apply wpf_lift; [done|]. intros e Ee. wpf_step. wpf_step.
    apply HQ. unfold Packet.schedule in Ee. by destruct (_ && _); [injection Ee as <-|].
  - destruct (last (r :: l)) as [b|] eqn:Eb; [|by apply last_None in Eb].
    wpf_step. apply wpf_assert; [done|]. intros _. apply wpf_assert; [done|]. intros _. wpf_step.
    replace s with (s <| respondEvent := respondEvent s |>) at 1 by by destruct s. by apply HQ.
Qed.
Lemma keeps_serve_read sw nw : keeps (serve_read c now sw nw).
Proof using Hcfg.
  unfold serve_read. apply keeps_get. intros s Hs. wpf_step. apply wpf_lift; [done|]. intros [[k i]|] _; [|by apply wpf_ret].
  wpf_step. apply wpf_lift; [done|]. intros q Eq. wpf_step. apply wpf_lift; [done|]. intros p Ep.
  unfold aread in Eq, Ep. destruct (readQueue s !! k) as [q0|] eqn:Lq; [|done]. injection Eq as <-.
  destruct (q0 !! i) as [p0|] eqn:Li; [|done]. injection Ep as <-. pose proof (split_at _ _ _ Li) as Esp. rewrite Esp in Lq.
  destruct (in_queue 0 k p0 _ _ _ s ltac:(by left) (ck_queues _ _ _ _ Hs) Lq) as [Hk Hleg]. subst k.
  wpf_step. eapply wpf_mono; [apply doBurstAccess_timed; by apply (legal_spec c dc Hcfg) in Hleg as []|].
  intros p' s1 [Hun Ht]. cbn beta. pose proof Ht as (x & Ex). assert (qosValue p' = qosValue p0 /\ requestorId p' = requestorId p0 /\ addr p' = addr p0) as (Eq & Eid & Ea) by (by rewrite Ex).
  apply (untouched_ok c dc n _ _ Hun) in Hs. rewrite <- (un_rq _ _ Hun) in Lq.
  wpf_step. apply wpf_assert; [done|]. intros _. wpf_step. apply wpf_assert; [done|]. intros _. wpf_step. unfold on_base. wpf_step.
  rewrite Eq, Eid, Ea. apply wpf_wp. eapply wp_mono; [exact (log_take _ 0 p0 _ _ None s1 ltac:(by left) (ck_queues _ _ _ _ Hs) Lq)|].
  intros [] b' Htk. set (s2 := s1 <| base := b' |>). wpf_step.
  apply push_response_wp. intros e He. wpf_step. wpf_step. wpf_step. apply wpf_lift; [done|]. intros v' Ev'.
  destruct (erase_ok _ _ _ _ _ _ Ev' Lq) as (_ & ->). rewrite <- Esp. wpf_step. wpf_step. wpf_step.
  assert (ctrl_ok (read_out p' (take (Z.to_nat i) q0) (drop (S (Z.to_nat i)) q0) b' e s1)) as Hok.
  { apply (read_out_ok p0 p'); try done. }
  unfold read_out in Hok. rewrite Eq in Hok. apply wpf_when; intros _; [|by apply wpf_ret].
  eapply wpf_mono; [exact (keeps_set_next WRITE _ Hok)|]. intros [] s3 H3. by apply wpf_ret.
Qed.

Lemma keeps_serve_write sw nw : keeps (serve_write c now sw nw).
Proof using Hcfg.
  unfold serve_write. apply keeps_get. intros s Hs. wpf_step. apply wpf_lift; [done|]. intros [[k i]|] _; [|by apply wpf_ret].
  wpf_step. apply wpf_lift; [done|]. intros q Eq. wpf_step. apply wpf_lift; [done|]. intros p Ep.
  unfold aread in Eq, Ep. destruct (writeQueue s !! k) as [q0|] eqn:Lq; [|done]. injection Eq as <-.
  destruct (q0 !! i) as [p0|] eqn:Li; [|done]. injection Ep as <-. pose proof (split_at _ _ _ Li) as Esp. rewrite Esp in Lq.
  destruct (in_queue 1 k p0 _ _ _ s ltac:(by right) (ck_queues _ _ _ _ Hs) Lq) as [Hk Hleg]. subst k.
  wpf_step. apply wpf_assert; [done|]. intros _.
  wpf_step. eapply wpf_mono; [apply doBurstAccess_timed; by apply (legal_spec c dc Hcfg) in Hleg as []|].
  intros p' s1 [Hun Ht]. cbn beta. pose proof Ht as (x & Ex).
  assert (qosValue p' = qosValue p0 /\ requestorId p' = requestorId p0 /\ addr p' = addr p0 /\ isDram p' = isDram p0) as (Eq & Eid & Ea & Ed)
    by (by rewrite Ex).
  apply (untouched_ok c dc n _ _ Hun) in Hs. rewrite <- (un_wq _ _ Hun) in Lq.
  rewrite (proj1 (legal_spec c dc Hcfg p0 Hleg)) in Ed.
  wpf_step. wpf_step. wpf_step. unfold on_base. wpf_step. rewrite Eq, Eid, Ea, Ed, (burstAlign_eq c dc Hcfg).
  apply wpf_wp. eapply wp_mono; [exact (log_take _ 1 p0 _ _ None s1 ltac:(by right) (ck_queues _ _ _ _ Hs) Lq)|].
  intros [] b' Htk. wpf_step. wpf_step. wpf_step. apply wpf_lift; [done|]. intros v' Ev'.
  destruct (erase_ok _ _ _ _ _ _ Ev' Lq) as (_ & ->). rewrite <- Esp. wpf_step. wpf_step. wpf_step.
  pose proof (write_out_ok p0 _ _ b' s1 Hs Lq Htk) as Hok. unfold write_out, burst_of in Hok.
  apply wpf_when; intros _; [|by apply wpf_ret].
  eapply wpf_mono; [exact (keeps_set_next READ _ Hok)|]. intros [] s3 H3. by apply wpf_ret.
Qed.
Lemma keeps_drained : keeps (modify (fun s => s <| drainState := Drained |>)).
Proof using. apply keeps_modify. by split. Qed.
Lemma keeps_no_reads : keeps (no_reads c).
Proof using.
  unfold no_reads. apply keeps_get. intros s Hs. destruct (_ && _).
  - exact (keeps_bind _ _ (keeps_set_next WRITE) (fun _ => keeps_ret true) s Hs).
  - exact (keeps_bind _ _ (keeps_when _ _ (fun _ => keeps_drained)) (fun _ => keeps_ret false) s Hs).
Qed.
Lemma keeps_serve sw nw : keeps (serve c now sw nw).
Proof using Hcfg.
  unfold serve. apply keeps_get. intros s Hs. destruct (busState (base s)); [destruct (_ =? 0)|].
  - by apply keeps_no_reads.
  - by apply keeps_serve_read.
  - by apply keeps_serve_write.
Qed.

(** ** The next request *)

Lemma keeps_turn_bus : keeps turn_bus.
Proof using.
  unfold turn_bus. apply keeps_get. intros s Hs. wpf_step.
  apply (wpf_mono _ _ _ (fun _ s' => ctrl_ok s')).
  { destruct (turnPolicy (base s)); [|by apply wpf_ret]. exact (keeps_bind _ _ (keeps_lift _) keeps_set_next s Hs). }
  intros [] s1 H1. clear s Hs. revert s1 H1. apply keeps_get. intros s Hs. revert s Hs.
  intros s Hs. revert Hs. generalize (negb (bool_decide (busState (base s) = busStateNext (base s)))). intros sw Hs.
  refine (keeps_bind _ _ (keeps_base _ _) _ s Hs).
  - intros b. apply wpf_modify. exists (count_turnaround (busStateNext b) (busState b) (QoS.stats b)), (busState b), (busStateNext b). by destruct b.
  - intros []. refine (keeps_bind _ _ (keeps_when _ _ (fun _ => keeps_modify _ _)) _).
    + intros s0. destruct (busState (base s0)); by split.
    + intros []. refine (keeps_bind _ _ (keeps_base _ _) (fun _ => keeps_ret _)).
      intros b. apply wpf_modify. exists (QoS.stats b), (busStateNext b), (busStateNext b). by destruct b.
Qed.

(** The offers of a requestor that is told to retry. *)
Definition offer (p : Packet) : Prop := legal_request c dc p /\ 0 <= pkt_qosValue p < n.
Lemma keeps_request p : offer p -> keeps (recvTimingReq rand_stream mem c now p).
Proof using Hcfg.
  intros [Hp Hq] s Hs. pose proof (guard_partial c dc rand_stream mem now (cf_dram c dc Hcfg)) as Hg.
  destruct (burst_count c true p) as [cnt|f] eqn:E.
  - eapply wpf_mono; [apply (recvTimingReq_wp c dc n rand_stream mem now True _ Hcfg p cnt s); try done; split; [by left|done]|].
    intros b s' []. done.
  - destruct (burst_count_eq c true p) as (cnt & E' & _); [rewrite (bytes_eq c dc Hcfg); apply Hcfg| |congruence].
    rewrite (bytes_eq c dc Hcfg). apply (lr_space c dc p Hp).
Qed.
Lemma keeps_retry offers : Forall offer offers -> keeps (retry rand_stream mem c now offers).
Proof using Hcfg.
  induction 1 as [|p l Hp _ IH]; cbn [retry]; [apply keeps_ret|].
  apply keeps_bind; [by apply keeps_request|]. intros []; [exact IH|apply keeps_ret].
Qed.
Lemma keeps_sendRetry offers : Forall offer offers -> keeps (sendRetryReq rand_stream mem c now offers).
Proof using Hcfg.
  intros H. apply keeps_bind; [apply keeps_modify; by split|]. intros []. by apply keeps_retry.
Qed.
Lemma keeps_busy : keeps (interfaces_busy c now).
Proof using Hcfg.
  unfold interfaces_busy. apply keeps_bind.
  - destruct (has_dram c); [apply keeps_dram|apply keeps_ret].
  - intros b. apply keeps_get. intros s Hs. rewrite (cf_nvm c dc Hcfg). by apply wpf_ret.
Qed.
Lemma keeps_nextReq offers : Forall offer offers -> keeps (processNextReqEvent rand_stream mem c now offers).
Proof using Hcfg.
  intros Ho. unfold processNextReqEvent. apply keeps_bind; [apply keeps_modify; by split|]. intros [].
  apply keeps_bind; [apply keeps_turn_bus|]. intros sw. apply keeps_get. intros s Hs.
  unfold has_nvm. rewrite (cf_nvm c dc Hcfg). refine (keeps_bind _ _ (keeps_ret tt) _ s Hs). intros []. clear s Hs.
  apply keeps_bind; [apply keeps_busy|]. intros [[] nw]; [apply keeps_ret|].
  apply keeps_bind; [apply keeps_serve|]. intros []; [|apply keeps_ret].
  apply keeps_get. intros s Hs. refine (keeps_bind _ _ (keeps_next _) _ s Hs). intros []. clear s Hs.
  apply keeps_get. intros s Hs. refine (keeps_when _ _ _ s Hs). intros _.
  apply keeps_bind; [apply keeps_modify; by split|]. intros []. by apply keeps_sendRetry.
Qed.

(** ** The response event *)

(** The invariant but for the response event, which is being handled. *)
Definition handling (s : t) : Prop := queues_sound None s /\ readReqs (stats s) = owes s.
Lemma handling_untouched s s' : untouched s s' -> handling s -> handling s'.
Proof using.
  intros H [H1 H2]. split; [by eapply untouched_sound|]. by rewrite (un_reqs _ _ H), (untouched_owes _ _ H).
Qed.

Definition popped (hs : gmap Z BurstHelper) (sn : list (Packet * Z)) (l : list MemPacket) (s : t) : t :=
  s <| helpers := hs |> <| sent := sn |> <| respQueue := l |>.
Lemma popped_handling hs sn m l s : handling s -> respQueue s = m :: l ->
  (forall k, Z.of_nat (allocs s) <= k -> hs !! k = None) -> (forall k, helper_ok (popped hs sn l s) k) ->
  owes (popped hs sn l s) = owes s -> handling (popped hs sn l s).
Proof using.
  intros [[] Hb] El Hf Hh Ho. split; [|by rewrite Ho]. rewrite El in *. inversion qs_resps0; subst. split; try done.
  change (totalReadQueueSize (base s) + zlen l <= readBufferSize c). unfold zlen in *. cbn [length] in *. lia.
Qed.
Lemma popped_reads f hs sn m l s : respQueue s = m :: l -> reads f (popped hs sn l s) = reads f s - f m.
Proof using. intros El. unfold reads. rewrite El. change (respQueue (popped hs sn l s)) with l. cbn [lsum]. change (readQueue (popped hs sn l s)) with (readQueue s). lia. Qed.
Lemma popped_owes hs sn m l s d : respQueue s = m :: l -> lsum (fun x => Z.b2z (pkt_read x.1)) sn = answered s + d ->
  Z.of_nat (stdpp.base.size hs) = Z.of_nat (stdpp.base.size (helpers s)) + unsplit m - d -> owes (popped hs sn l s) = owes s.
Proof using.
  intros El Hd Hs. unfold owes, pending_reads. rewrite (popped_reads _ _ _ _ _ _ El).
  change (answered (popped hs sn l s)) with (lsum (fun x => Z.b2z (pkt_read x.1)) sn). change (helpers (popped hs sn l s)) with hs. lia.
Qed.
Lemma popped_helper hs sn m l s k : handling s -> respQueue s = m :: l -> hs !! k = helpers s !! k -> burstHelper m <> Some k ->
  helper_ok (popped hs sn l s) k.
Proof using.
  intros [[] _] El Hk Hm. pose proof (qs_helpers0 k ltac:(done)) as H. unfold helper_ok in *.
  change (helpers (popped hs sn l s)) with hs. rewrite Hk. assert (of_helper k m = 0) as E by (unfold of_helper; by rewrite bool_decide_false).
  destruct (helpers s !! k); by rewrite !(popped_reads _ _ _ _ _ _ El), E, Z.sub_0_r.
Qed.

Lemma respond_wp m s (Q : unit -> t -> Prop) : owed c m = true ->
  (forall x, pkt_read x.1 = true -> Q tt (s <| sent ::= fun l => l ++ [x] |>)) -> wpf True (respond c now m) s Q.
Proof using.
  unfold owed. intros [[[_ Hr]%andb_prop Hn]%andb_prop _]%andb_prop HQ. unfold respond. 
  lazymatch goal with |- wpf _ (accessAndRespond _ _ _ ?x) _ _ => generalize x end. intros lat. unfold accessAndRespond. wpf_step. apply wpf_lift; [done|]. intros _ _. rewrite Hn. wpf_step. apply wpf_assert; [done|]. intros _.
  apply wpf_modify. apply HQ. cbn. by rewrite access_read.
Qed.

Lemma pop_wp m l s (Q : unit -> t -> Prop) : handling s -> respQueue s = m :: l ->
  (forall s', handling s' -> respQueue s' = l -> respondEvent s' = respondEvent s -> Q tt s') -> wpf True (pop_response c now m l) s Q.
Proof using.
  intros Hs El HQ. pose proof Hs as [[] _]. rewrite El in qs_resps0. inversion qs_resps0 as [|? ? Hm _]; subst.
  apply andb_prop in Hm as [_ Hm]. unfold pop_response. wpf_step. destruct (burstHelper m) as [k|] eqn:Eh.
  - unfold burst_serviced. wpf_step. wpf_step. destruct (helpers s !! k) as [h|] eqn:Ek; [|by apply wpf_lift].
    pose proof (qs_helpers0 k ltac:(done)) as Hk. unfold helper_ok in Hk. rewrite Ek in Hk. destruct Hk as (Hk1 & Hk2 & Hk3 & Hk4).
    rewrite u32_small by lia. set (h' := h <| burstsServiced := burstsServiced h + 1 |>).
    assert (of_helper k m = 1) as Ef by (unfold of_helper; by rewrite bool_decide_true).
    assert (unsplit m = 0) as Eu by (unfold unsplit; by rewrite bool_decide_false by congruence).
    wpf_step. wpf_step. destruct (Z.eqb_spec (burstsServiced h + 1) (burstCount h)) as [E|Hne].
    + wpf_step. wpf_step. wpf_step. wpf_step. cbn [when_]. apply respond_wp; [done|]. intros x Hx. wpf_step.
      set (hs := delete k (<[k:=h']> (helpers s))). change (Q tt (popped hs (sent s ++ [x]) l s)). apply HQ; [|done|done].
      assert (hs = delete k (helpers s)) as Ehs by (unfold hs; by rewrite delete_insert_eq).
      apply (popped_handling _ _ m); try done.
      * intros k' Hk'. rewrite Ehs. apply qs_fresh0 in Hk'. apply lookup_delete_None. by right.
      * intros k'. destruct (decide (k' = k)) as [->|Hk'].
        -- unfold helper_ok. change (helpers (popped hs (sent s ++ [x]) l s)) with hs. rewrite Ehs, lookup_delete_eq.
           rewrite (popped_reads _ _ _ _ _ _ El), Ef. lia.
        -- eapply popped_helper; try done; [by rewrite Ehs, lookup_delete_ne|congruence].
      * apply (popped_owes _ _ m l s 1); [done|rewrite lsum_app; cbn; by rewrite Hx|].
        rewrite Ehs, Eu. rewrite map_size_delete_Some by (by eexists).
        assert (stdpp.base.size (helpers s) <> 0%nat) by (intros E0%map_size_empty_inv; by rewrite E0 in Ek). lia.
    + wpf_step. wpf_step. cbn [when_]. wpf_step. wpf_step. set (hs := <[k:=h']> (helpers s)).
      lazymatch goal with |- Q tt ?s' => replace s' with (popped hs (sent s) l s) by by destruct s end. apply HQ; [|done|done].
      apply (popped_handling _ _ m); try done.
      * intros k' Hk'. apply qs_fresh0 in Hk'. unfold hs. rewrite lookup_insert_ne; congruence.
      * intros k'. destruct (decide (k' = k)) as [->|Hk'].
        -- unfold helper_ok. change (helpers (popped hs (sent s) l s)) with hs. unfold hs. rewrite lookup_insert_eq.
           rewrite (popped_reads _ _ _ _ _ _ El), Ef. cbn. lia.
        -- eapply popped_helper; try done; [by unfold hs; rewrite lookup_insert_ne|congruence].
      * apply (popped_owes _ _ m l s 0); [done|unfold answered; lia|].
        unfold hs. rewrite Eu, map_size_insert_Some by (by eexists). lia.
  - wpf_step. wpf_step. cbn [when_]. apply respond_wp; [done|]. intros x Hx. wpf_step.
    lazymatch goal with |- Q tt ?s' => replace s' with (popped (helpers s) (sent s ++ [x]) l s) by by destruct s end. apply HQ; [|done|done].
    apply (popped_handling _ _ m); try done.
    + intros k. eapply popped_helper; try done. congruence.
    + apply (popped_owes _ _ m l s 1); [done|rewrite lsum_app; cbn; by rewrite Hx|]. unfold unsplit. rewrite bool_decide_true by done. cbn. lia.
Qed.
Lemma next_response_wp m s : handling s -> respondEvent s = None -> wpf True (next_response c now m) s (fun _ s' => ctrl_ok s').
Proof using Hcfg.
  intros [Hs Hb] He. unfold next_response. wpf_step. wpf_step. destruct (respQueue s) as [|front l] eqn:El.
  - assert (ctrl_ok s) as Hok by (split; [done|by rewrite He, El|done]). destruct (_ && _); [by apply keeps_drained|].
    exact (keeps_when _ _ (fun _ => keeps_dram _) s Hok).
  - wpf_step. apply wpf_assert; [done|]. intros _. wpf_step. apply wpf_lift; [done|]. intros e Ee. wpf_step.
    assert (e = Some (readyTime front)) as -> by (unfold Packet.schedule in Ee; by destruct (_ && _); [injection Ee as <-|]).
    split; [by destruct Hs; split| |exact Hb]. change (Some (readyTime front) = readyTime <$> head (respQueue s)). by rewrite El.
Qed.
Lemma keeps_respondEvent offers : Forall offer offers -> keeps (processRespondEvent rand_stream mem c now offers).
Proof using Hcfg.
  intros Ho s Hs. unfold processRespondEvent. wpf_step. wpf_step. wpf_step. wpf_step. set (s1 := s <| respondEvent := None |>).
  assert (handling s1) as H1 by (destruct Hs as [[] _ Hb]; by split; [split|]). assert (respondEvent s1 = None) as E1 by done. clearbody s1. clear s Hs.
  destruct (respQueue s1) as [|m l] eqn:El; [by apply wpf_lift|]. wpf_step.
  apply (wpf_mono _ _ _ (fun _ s' => untouched s1 s')).
  { wpf_step; [|apply untouched_refl]. by apply on_dram_untouched. }
  intros [] s2 Hun. wpf_step. rewrite <- (un_resp _ _ Hun) in El. rewrite <- (un_ev _ _ Hun) in E1.
  apply (pop_wp m l); [by eapply handling_untouched|done|]. intros s3 H3 _ E3. wpf_step.
  eapply wpf_mono; [apply next_response_wp; [done|congruence]|]. intros [] s4 H4. revert s4 H4. apply keeps_get.
  intros s Hs. refine (keeps_when _ _ _ s Hs). intros _. apply keeps_bind; [apply keeps_modify; by split|]. intros []. by apply keeps_sendRetry.
Qed.

(** ** The other events and the modes *)

Lemma keeps_restart b : keeps (restart now b).
Proof using.
  apply keeps_when. intros _. apply keeps_get. intros s Hs. refine (keeps_bind _ _ (keeps_lift _) _ s Hs).
  intros e. apply keeps_modify. by split.
Qed.
Lemma keeps_startup timing : keeps (startup c now timing).
Proof using.
  apply keeps_bind; [apply keeps_modify; by split|]. intros []. apply keeps_when. intros _. apply keeps_modify. by split.
Qed.
Lemma keeps_drain : keeps (drain c now).
Proof using Hcfg.
  apply keeps_bind; [apply keeps_modify; by split|]. intros []. apply keeps_get. intros s Hs. destruct (negb _).
  - refine (keeps_bind _ _ (keeps_when _ _ (fun _ => keeps_next _)) _ s Hs). intros [].
    apply keeps_bind; [apply keeps_when; intros _; apply keeps_dram|]. intros []. apply keeps_ret.
  - refine (keeps_bind _ _ keeps_drained _ s Hs). intros []. apply keeps_ret.
Qed.
Lemma keeps_resume timing : keeps (drainResume c now timing).
Proof using Hcfg.
  apply keeps_bind; [apply keeps_modify; by split|]. intros []. apply keeps_get. intros s Hs. refine (keeps_bind _ _ _ _ s Hs).
  - destruct (_ && _).
    + apply keeps_bind; [apply keeps_startup|]. intros []. apply keeps_dram.
    + do 2 (apply keeps_when; intros _). apply keeps_dram.
  - intros []. apply keeps_modify. by split.
Qed.
End Serve.
End CtrlServe.
