(* ===== verification/MemCtrlRun.v ===== *)
(** The promises of the memory controller with a DRAM interface: receiving a request never
    fails, and over any run of requests and events the queues agree with the counters and
    every read that was accepted is answered exactly once. *)
From S2P Require Import Prelude AddrRange Mitigation CmdBus Packet Detector RQ RQAccess RQInit Dram DramDecode Refresh NVM Defense QoSPolicy QoS QoSEscalate QoSAccount QoSSchedule MemSink MemCtrl MemCtrlSched MemCtrlSplit MemCtrlInv MemCtrlReq MemCtrlGuard MemCtrlServe.
From stdpp Require Import gmap.
From Stdlib Require String Ascii.
Open Scope Z_scope.
Import QoS Escalate Account Schedule MemCtrl Sched Split CtrlInv CtrlReq CtrlGuard CtrlServe.

Module CtrlRun.
#[local] Arguments vol : simpl never.
#[local] Arguments entries : simpl never.
#[local] Arguments weight : simpl never.

(** ** Runs *)

(** The calls of the requestor and of the event queue; [offers] are the packets sent when
    the controller asks for a retry. *)
Inductive op :=
| Request (p : Packet) | NextRequest (offers : list Packet) | Response (offers : list Packet)
| RankEvent (rank_no : Z) (e : rank_event) | Power (rank_no : Z) | ReadReady | WriteRespond | DramStartup | Startup (timing : bool) | Drain | Resume (timing : bool).

Section Run.
Context {HS : StdLib} {HM : Medium} (c : Config) (dc : DRAMInterface.Config) (n : Z).
Context (rand_stream : nat -> Z) (mem : nat -> Alloc).

Definition exec (now : Z) (o : op) : comp t unit :=
  match o with
  | Request p => _ ← recvTimingReq rand_stream mem c now p; mret tt
  | NextRequest offers => processNextReqEvent rand_stream mem c now offers
  | Response offers => processRespondEvent rand_stream mem c now offers
  | RankEvent j e => rankEvent c now j e
  | Power j => powerEvent c now j
  | ReadReady => readReadyEvent c now
  | WriteRespond => writeRespondEvent c now
  | DramStartup => on_dram c (fun dc _ => Refresh.startup dc now)
  | Startup timing => startup c now timing
  | Drain => _ ← drain c now; mret tt
  | Resume timing => drainResume c now timing
  end.
Definition legal_op (o : op) : Prop :=
  match o with
  | Request p => offer c dc n p
  | NextRequest offers | Response offers => Forall (offer c dc n) offers
  | _ => True
  end.
Definition step (s s' : t) : Prop := exists now o, legal_op o /\ exec now o s = Ok (tt, s').

(** Operations in a row, each at its tick. *)
Fixpoint play (l : list (Z * op)) : comp t unit :=
  match l with [] => mret tt | (now, o) :: l' => exec now o;; play l' end.
Lemma play_steps l : Forall (fun x => legal_op x.2) l -> forall s s', play l s = Ok (tt, s') -> rtc step s s'.
Proof using.
  induction 1 as [|[now o] l Ho _ IH]; intros s s' E; cbn [play] in E.
  - injection E as <-. apply rtc_refl.
  - unfold mbind, comp_bind in E. destruct (exec now o s) as [[[] s1]|f] eqn:E1; [|done].
    eapply rtc_l; [by exists now, o|]. by apply IH.
Qed.

Hypothesis Hcfg : config_ok c dc.
Lemma keeps_exec now o : legal_op o -> keeps c dc n (exec now o).
Proof using Hcfg.
  intros Ho. destruct o; cbn [exec legal_op] in *.
  - apply keeps_bind; [by apply keeps_request|]. intros b. apply keeps_ret.
  - by apply keeps_nextReq.
  - by apply keeps_respondEvent.
  - apply keeps_dram.
  - apply keeps_bind; [apply keeps_dram|]. intros b. apply keeps_restart.
  - apply keeps_bind; [apply keeps_nvm|]. intros b. apply keeps_restart.
  - apply keeps_bind; [apply keeps_nvm|]. intros b. apply keeps_restart.
  - apply keeps_dram.
  - apply keeps_startup.
  - apply keeps_bind; [by apply keeps_drain|]. intros b. apply keeps_ret.
  - by apply keeps_resume.
Qed.
Lemma steps_ok s s' : rtc step s s' -> ctrl_ok c dc n s -> ctrl_ok c dc n s'.
Proof using Hcfg.
  induction 1 as [|s s1 s2 (now & o & Ho & E) _ IH]; [done|]. intros Hs. apply IH.
  exact (wpf_run _ _ _ _ _ _ (keeps_exec now o Ho s Hs) E).
Qed.

(** ** Nothing waits *)

(** The packets of the queues of one direction. *)
Definition waiting (v : list (list MemPacket)) : Z := weight (fun _ => 1) v.
Lemma waiting_entries (P : MemPacket -> bool) v : (forall p, P p = true -> legal dc p = true) -> each P v ->
  weight (entries (CtrlInv.bs dc)) v = waiting v.
Proof using Hcfg.
  intros HP Hv. unfold waiting, weight. induction Hv as [|q v Hq _ IH]; [done|]. cbn [lsum]. rewrite IH. f_equal.
  induction Hq as [|p q Hp _ IHq]; [done|]. cbn [lsum]. by rewrite IHq, (legal_entries c dc Hcfg p (HP _ Hp)).
Qed.
Lemma waiting_empty v : waiting v = 0 -> forall f, weight f v = 0.
Proof using.
  assert (forall q : list MemPacket, 0 <= lsum (fun _ => 1) q) as Hp by (intros q; apply lsum_lower_0; lia).
  unfold waiting, weight. rewrite lsum_zero by done. intros Hv f. induction Hv as [|q v Hq _ IH]; [done|].
  cbn [lsum]. rewrite IH. destruct q as [|p q]; [done|]. cbn [lsum] in Hq. specialize (Hp q). lia.
Qed.
Lemma no_reads_answered s : ctrl_ok c dc n s -> totalReadQueueSize (base s) = 0 -> respQueue s = [] -> answered s = readReqs (stats s).
Proof using Hcfg.
  intros [[] _ Hb] H0 Hr. destruct (ready_totals dc n _ _ _ qs_ready0) as (Et & _).
  rewrite (waiting_entries (sound_read c dc)) in Et; [|by intros p [? _]%andb_prop|done].
  assert (forall f, reads f s = 0) as Hz by (intros f; unfold reads; rewrite Hr, (waiting_empty (readQueue s)) by lia; done).
  rewrite Hb. unfold owes, pending_reads. rewrite Hz. assert (helpers s = ∅) as ->.
  { apply map_eq. intros k. rewrite lookup_empty. pose proof (qs_helpers0 k ltac:(done)) as H. unfold helper_ok in H.
    destruct (helpers s !! k); [|done]. rewrite Hz in H. lia. }
  rewrite map_size_empty. lia.
Qed.

(** C5. Over any run of requests, retries, events, drains and mode changes of a controller
    with a DRAM interface, of any scheduling policy: the counters are the numbers of
    packets that wait, within the buffers, where reads keep their place until their
    response is sent; at most one write waits per burst, and [isInWriteQueue] says which; a
    response event is scheduled exactly while responses wait, for the first; every read
    accepted is answered or waits, split or not, and none is answered twice, so that once
    no read waits every one has had its answer. *)
Theorem reads_answered_once pol turn esc syn bus dram nvm rh s :
  0 < n <= 256 -> policy_ok n pol -> rtc step (create (QoS.create pol turn n esc syn) bus dram nvm rh) s ->
  (totalReadQueueSize (base s) = waiting (readQueue s) /\ waiting (readQueue s) + zlen (respQueue s) <= readBufferSize c) /\
  (totalWriteQueueSize (base s) = waiting (writeQueue s) /\ waiting (writeQueue s) <= writeBufferSize c) /\
  (forall a, weight (at_burst dc a) (writeQueue s) = Z.b2z (bool_decide (a ∈ isInWriteQueue s))) /\
  respondEvent s = readyTime <$> head (respQueue s) /\
  readReqs (stats s) = answered s + pending_reads s /\
  (waiting (readQueue s) = 0 -> respQueue s = [] -> answered s = readReqs (stats s)).
Proof using Hcfg.
  intros Hn Hp Hr. pose proof (steps_ok _ _ Hr (create_ok c dc n Hcfg pol turn esc syn bus dram nvm rh Hn Hp)) as Hok.
  pose proof Hok as [[] He Hb]. destruct (ready_totals dc n _ _ _ qs_ready0) as (Et & Ew & _).
  rewrite (waiting_entries (sound_read c dc)) in Et; [|by intros p [? _]%andb_prop|done].
  rewrite (waiting_entries (sound_write dc)) in Ew; [|by intros p [? _]%andb_prop|done].
  split; [split; [done|lia]|]. split; [split; [done|lia]|]. split; [done|]. split; [done|]. split; [done|].
  intros H0 Hr0. apply no_reads_answered; [done|lia|done].
Qed.
End Run.

(** C4. Receiving a request never fails: whatever waits, a read or a write within the DRAM's
    range trips no assertion of the controller, and the state keeps its invariant.  The
    request is accepted exactly if its bursts fit in the buffer (reads count until they are
    answered); otherwise the requestor is remembered for a retry.  An accepted write leaves
    all the bursts it touches in [isInWriteQueue], merged with those that waited, and an
    accepted read is one answer more that is sent or owed; nothing else changes. *)
Theorem recvTimingReq_safe `{!StdLib, !Medium} c dc n rand_stream mem now stands `{!Guard c rand_stream mem now False stands} p s :
  config_ok c dc -> legal_request c dc p -> ctrl_ok c dc n s -> (policy (base s) = None -> 0 <= pkt_qosValue p < n) ->
  (forall cnt, burst_count c true p = Ok cnt -> stands (Z.to_nat cnt) (dram s) (rh_defense s)) ->
  exists cnt s', burst_count c true p = Ok cnt /\
    let accepted := room c p cnt s in
    recvTimingReq rand_stream mem c now p s = Ok (accepted, s') /\ ctrl_ok c dc n s' /\
    owes s' = owes s + Z.b2z (accepted && pkt_read p) /\
    (forall a, a ∈ isInWriteQueue s' <-> a ∈ isInWriteQueue s \/ accepted && pkt_write p = true /\
       exists x, pkt_addr p <= x < pkt_addr p + pkt_size p /\ a = burstAlign c x true) /\
    (accepted = false -> if pkt_read p then retryRdReq s' = true else retryWrReq s' = true).
Proof.
  intros Hcfg Hp Hs Hpol Hst. destruct (burst_count_eq c true p) as (cnt & E & _).
  { rewrite (bytes_eq c dc Hcfg). apply Hcfg. }
  { rewrite (bytes_eq c dc Hcfg). apply (lr_space c dc p Hp). }
  destruct (wp_inv _ _ _ (wpf_total _ _ _ (recvTimingReq_wp c dc n rand_stream mem now False stands Hcfg p cnt s Hp E Hs Hpol (Hst cnt E))))
    as (b & s' & Er & [Hok -> Ho Hset Hret]).
  exists cnt, s'. done.
Qed.

(** ** A controller with row quarantine *)

(** 16 banks of 4 rows; the name of the mitigation is RQ. *)
Definition aqua : Config :=
  mkConfig (Some DRAMInterface.small) (AddrRange.mkRange 0 524288 [] 0) None (AddrRange.mkRange 0 0 [] 0) 8 8 6 4 2
    (Some frfcfs) 10 10 true (String.String (Ascii.ascii_of_nat 82) (String.String (Ascii.ascii_of_nat 81) String.EmptyString)).
Definition no_nvm : NVMInterface.nvm :=
  NVMInterface.mkNVM [] [] [] 0 0 0 0 0 None None (NVMInterface.n_stats0 DRAMInterface.small) (CmdBus.mkBus [] 4).
Definition alloc (k : nat) : Alloc := mkAlloc (Z.of_nat k) 0 0.
Definition aqua0 : t :=
  create (QoS.create None None 1 false false) (CmdBus.mkBus [] 4) DRAMInterface.small_dram no_nvm (Defense.RQ Init.rq0).

Lemma aqua_config : config_ok aqua DRAMInterface.small.
Proof. split; try done. by exists 6. Qed.
Lemma aqua_range : AddrRange.range_ok (dram_range aqua).
Proof. split; [cbn; lia|constructor|constructor|by intros ?%elem_of_nil]. Qed.
Lemma aqua_contains a : AddrRange.contains (dram_range aqua) a = true <-> 0 <= a < 524288.
Proof.
  unfold AddrRange.contains. cbn. rewrite andb_true_r. split.
  - intros [?%Z.leb_le ?%Z.ltb_lt]%andb_prop. done.
  - intros [? ?]. apply andb_true_intro. split; [by apply Z.leb_le|by apply Z.ltb_lt].
Qed.
Lemma aqua_request : legal_request aqua DRAMInterface.small request.
Proof.
  split.
  - reflexivity.
  - reflexivity.
  - unfold in_space. cbn. lia.
  - intros a Ha. apply aqua_contains. cbn in Ha. lia.
  - reflexivity.
  - reflexivity.
Qed.
Lemma aqua_stands k : Z.of_nat k <= 12 ->
  stands DRAMInterface.small False (rq_stands aqua 2 16 4) k (dram aqua0) (rh_defense aqua0).
Proof.
  intros Hk. split; [by right|]. exists Init.rq0, (fun _ => 0), (fun _ _ => 0), (fun _ _ => 0). split; [done|].
  split; [exact Access.ready_rq0|]. split; [intros b; lia|]. intros a Ha%aqua_contains. split; [lia|].
  apply zlookup_is_Some. replace (zlen (Row_Quarantine.randRowID Init.rq0)) with 64 by (vm_compute; reflexivity).
  pose proof (Z.div_lt_upper_bound a 8192 64). pose proof (Z.div_pos a 8192). lia.
Qed.
Lemma aqua_ok : ctrl_ok aqua DRAMInterface.small 1 aqua0.
Proof. by apply create_ok; [exact aqua_config|..]. Qed.

(** A read of three bursts; with quarantine, it is accepted and owed. *)
Lemma recvTimingReq_safe_witness : exists cnt s', burst_count aqua true request = Ok cnt /\
  recvTimingReq (fun _ => 0) alloc aqua 100 request aqua0 = Ok (room aqua request cnt aqua0, s') /\
  ctrl_ok aqua DRAMInterface.small 1 s' /\ owes s' = owes aqua0 + Z.b2z (room aqua request cnt aqua0 && true).
Proof.
  destruct (@recvTimingReq_safe merge_std null_memory aqua DRAMInterface.small 1 (fun _ => 0) alloc 100 _
    (guard_quarantine aqua DRAMInterface.small (fun _ => 0) alloc 100 eq_refl aqua_range Decode.small_decode 2 16 4 ltac:(lia) eq_refl)
    request aqua0 aqua_config aqua_request aqua_ok) as (cnt & s' & E & Er & Hok & Ho & _).
  - cbn. lia.
  - intros cnt E. apply aqua_stands. vm_compute in E. injection E as <-. vm_compute. congruence.
  - exists cnt, s'. split; [exact E|split; [exact Er|split; [exact Hok|exact Ho]]].
Defined.

(** The read from its arrival to the answer, when its last burst is ready. *)
Definition aqua_ops : list (Z * op) :=
  [(0, Startup true); (0, DramStartup); (100, Request request); (100, NextRequest []); (100, RankEvent 0 activate_event);
   (100, Power 0); (100, NextRequest []); (102, NextRequest []); (106, RankEvent 0 activate_event); (112, NextRequest []);
   (134, Response []); (142, Response []); (152, Response [])].
Definition aqua_end : t := match play aqua (fun _ => 0) alloc aqua_ops aqua0 with Ok (_, s) => s | Fault _ => aqua0 end.
Lemma aqua_legal : Forall (fun x => legal_op aqua DRAMInterface.small 1 x.2) aqua_ops.
Proof.
  repeat constructor; try apply aqua_request; try done.
Qed.
Lemma reads_answered_once_witness : answered aqua_end = 1 /\ readReqs (stats aqua_end) = answered aqua_end + pending_reads aqua_end.
Proof.
  split; [vm_compute; reflexivity|].
  assert (rtc (step aqua DRAMInterface.small 1 (fun _ => 0) alloc) aqua0 aqua_end) as Hrun.
  { apply (play_steps aqua DRAMInterface.small 1 (fun _ => 0) alloc aqua_ops aqua_legal). vm_compute. reflexivity. }
  destruct (reads_answered_once aqua DRAMInterface.small 1 (fun _ => 0) alloc aqua_config None None false false
    (CmdBus.mkBus [] 4) DRAMInterface.small_dram no_nvm (Defense.RQ Init.rq0) aqua_end ltac:(lia) I Hrun) as (_ & _ & _ & _ & H & _).
  exact H.
Defined.
End CtrlRun.
