(* ===== verification/MemPort.v ===== *)
(** The port of the memory controller ([MemCtrl::MemoryPort] of [mem/mem_ctrl.{hh,cc}]) and what
    lies behind it: the contents of the interfaces and the queue of responses, with whole
    packets.  When a request is answered is decided in MemCtrl.v and MemCtrlSched.v, which see
    of a packet what decides it. *)
From S2P Require Import Prelude Flags Packet MemCmd Request PacketData AddrRange PacketQueue AbstractMem.
Open Scope Z_scope.

Module MemPort.
(** What has been done to the contents: a request answered at a tick with a latency, an atomic
    access, a functional write. *)
Inductive act := Answered (now static_latency : Z) (p : Pkt.t) | Atomic (p : Pkt.t) | Stored (p : Pkt.t).
(** An interface that is not connected is [None]; [log] records the accesses. *)
Record t := mkPort { dram : option AbstractMemory.t; nvm : option AbstractMemory.t; queue : PacketQueue.t; log : list act }.
#[global] Instance eta_t : Settable t := fun r => mkPort (dram r) (nvm r) (queue r) (log r).
Definition create (dram nvm : option AbstractMemory.t) : t := mkPort dram nvm (PacketQueue.create false) [].

Definition range_of (o : option AbstractMemory.t) : list AddrRange.t := match o with Some m => [AbstractMemory.range m] | None => [] end.
Definition getAddrRanges (s : t) : list AddrRange.t := range_of (dram s) ++ range_of (nvm s).

(** ** The interfaces *)

(** [intf && intf->getAddrRange().contains(pkt->getAddr())]. *)
Definition serves (o : option AbstractMemory.t) (p : Pkt.t) : result bool :=
  match o with
  | Some m => a ← Pkt.getAddr p; Ok (AddrRange.contains (AbstractMemory.range m) a)
  | None => Ok false
  end.
(** The interface of a packet: [true] is the DRAM. *)
Definition interface (p : Pkt.t) : comp t bool :=
  s ← get;
  in_dram ← lift (serves (dram s) p);
  if in_dram : bool then mret true
  else in_nvm ← lift (serves (nvm s) p); if in_nvm : bool then mret false else lift (Fault Panic).
Definition at_interface (is_dram : bool) {A} (m : comp AbstractMemory.t A) : comp t A :=
  s ← get;
  match (if is_dram then dram s else nvm s) with
  | Some x => zoom (fun _ => x) (fun x s => if is_dram then s <| dram := Some x |> else s <| nvm := Some x |>) m
  | None => lift (Fault OutOfBounds)
  end.
Definition on_queue {A} (m : comp PacketQueue.t A) : comp t A := zoom queue (fun q s => s <| queue := q |>) m.
Definition record (x : act) : comp t unit := modify (fun s => s <| log ::= fun l => l ++ [x] |>).

(** ** Accesses *)

Definition accessAndRespond (now : Z) (p : Pkt.t) (static_latency : Z) : comp t unit :=
  let needsResponse := MemCmd.needsResponse (Pkt.cmd p) in
  is_dram ← interface p;
  record (Answered now static_latency p);;
  p ← at_interface is_dram (AbstractMemory.access p);
  if needsResponse then
    assert_ (MemCmd.isResponse (Pkt.cmd p));;
    let response_time := u64 (now + static_latency + Pkt.headerDelay p + Pkt.payloadDelay p) in
    on_queue (PacketQueue.schedSendTiming true now (p <| Pkt.headerDelay := 0 |> <| Pkt.payloadDelay := 0 |>) response_time)
  else mret tt.
(** The latencies are those of the interfaces. *)
Definition recvAtomic (dram_latency nvm_latency : Z) (p : Pkt.t) : comp t (Pkt.t * Z) :=
  if Pkt.cacheResponding p then lift (Fault Panic)
  else
    is_dram ← interface p;
    record (Atomic p);;
    p ← at_interface is_dram (AbstractMemory.access p);
    mret (p, if MemCmd.hasData (Pkt.cmd p) then (if is_dram : bool then dram_latency else nvm_latency) else 0).
Definition recvFunctional (p : Pkt.t) : comp t Pkt.t :=
  is_dram ← interface p;
  when_ (negb (MemCmd.isRead (Pkt.cmd p)) && MemCmd.isWrite (Pkt.cmd p)) (record (Stored p));;
  at_interface is_dram (AbstractMemory.functionalAccess p).
(** The function of the port, which looks at the responses first. *)
Definition port_recvFunctional (p : Pkt.t) : comp t Pkt.t :=
  '(satisfied, p) ← on_queue (PacketQueue.trySatisfyFunctional p);
  if satisfied : bool then mret p else recvFunctional p.

(** ** The queue of responses *)

(** [sendTimingResp] is what the requestor does with a response, calls of the controller
    included. *)
Section Now.
Context (now : Z) (sendTimingResp : Pkt.t -> comp t bool).
Definition sendDeferredPacket : comp t unit :=
  dp ← on_queue (PacketQueue.take now);
  ok ← sendTimingResp dp.2;
  on_queue (PacketQueue.finish now ok dp).
Definition recvRespRetry : comp t unit := on_queue PacketQueue.retry_start;; sendDeferredPacket.
Definition processSendEvent : comp t unit := on_queue PacketQueue.event_start;; sendDeferredPacket.
End Now.
End MemPort.
