(* ===== verification/MemPortSpec.v ===== *)
(** What the port of the controller promises: its answers are those of the contents for the
    requests in the order they were answered, and the queue sends each once, in time and in
    order per address; a functional access sees either the responses or the contents. *)
From S2P Require Import Prelude Flags Packet MemCmd Request PacketData AddrRange PacketQueue PacketQueueSpec FunctionalAccess AbstractMem AbstractMemSpec MemPort.
From stdpp Require Import list.
Open Scope Z_scope.
Import MemPort.

Module MemPortSpec.
Import Functional(holder, shaped, payload, reader, writer, alike, overlay, at_, filled, covers, withinb).

Section Contents.
(** The ranges of the interfaces that are connected. *)
Context (rd rn : option AddrRange.t).
Implicit Types (now : Z) (s : t).

(** ** The specification *)

(** What the DRAM ([true]) and the NVM hold. *)
Definition contents : Type := bool -> MemSpec.spec.
Definition put (b : bool) (x : MemSpec.spec) (a : contents) : contents := fun c => if Bool.eqb c b then x else a c.
Definition side (p : Pkt.t) : bool := match rd with Some r => AddrRange.contains r (Pkt.addr p) | None => false end.
Definition range_at (b : bool) : option AddrRange.t := if b then rd else rn.
(** A response is due when its latency and the delays of its request have passed. *)
Definition reply now lat (q : Pkt.t) : PacketQueue.deferred :=
  (u64 (now + lat + Pkt.headerDelay q + Pkt.payloadDelay q), q <| Pkt.headerDelay := 0 |> <| Pkt.payloadDelay := 0 |>).
(** The responses of an access, and the contents it leaves. *)
Definition act_spec (x : act) (a : contents) : list PacketQueue.deferred * contents :=
  match x with
  | Answered now lat p =>
      let q := MemSpec.access_spec p (a (side p)) in
      (if MemCmd.needsResponse (Pkt.cmd p) then [reply now lat q.1] else [], put (side p) q.2 a)
  | Atomic p => ([], put (side p) (MemSpec.access_spec p (a (side p))).2 a)
  | Stored p => ([], put (side p) ((a (side p)) <| MemSpec.bytes ::= MemSpec.write_pkt p |>) a)
  end.
Fixpoint story (l : list act) (a : contents) : list PacketQueue.deferred * contents :=
  match l with
  | [] => ([], a)
  | x :: l' => let '(ds, a1) := act_spec x a in let '(ds', a2) := story l' a1 in (ds ++ ds', a2)
  end.
Lemma story_snoc l x a : story (l ++ [x]) a = ((story l a).1 ++ (act_spec x (story l a).2).1, (act_spec x (story l a).2).2).
Proof.
  revert a. induction l as [|y l IH]; intros a; cbn [story app].
  - cbn [fst snd]. destruct (act_spec x a) as [ds a1]. cbn. by rewrite app_nil_r.
  - destruct (act_spec y a) as [ds a1]. rewrite IH. destruct (story l a1) as [ds' a2]. cbn. by rewrite <- app_assoc.
Qed.

(** ** The interfaces *)

Definition backs (r : option AddrRange.t) (o : option AbstractMemory.t) (a : MemSpec.spec) : Prop :=
  match r, o with Some r, Some m => MemSpec.implements r m a | None, None => True | _, _ => False end.
Definition represents s (a : contents) : Prop := backs rd (dram s) (a true) /\ backs rn (nvm s) (a false).
Definition legal (p : Pkt.t) : Prop :=
  exists r, range_at (side p) = Some r /\ AddrRange.contains r (Pkt.addr p) = true /\ MemSpec.legal r p.
Definition set_side (b : bool) (m : AbstractMemory.t) s : t := if b then s <| dram := Some m |> else s <| nvm := Some m |>.

Lemma serves_ok r o a p : backs r o a -> Flags.isSet (Pkt.flags p) Pkt.VALID_ADDR = true ->
  serves o p = Ok (match r with Some r => AddrRange.contains r (Pkt.addr p) | None => false end).
Proof.
  intros H Hf. unfold serves, Pkt.getAddr. destruct r, o; try done. rewrite Hf. cbn. by rewrite (MemSpec.im_range _ _ _ H).
Qed.
Lemma interface_wp s a p : represents s a -> legal p -> wp (interface p) s (fun b s' => s' = s /\ b = side p).
Proof.
  intros [H1 H2] (r & Hr & Hc & Hp). unfold interface. wp_step. wp_step. wp_step. apply wp_lift.
  rewrite (serves_ok rd _ _ p H1) by apply Hp. cbn [rp]. unfold range_at in Hr. change (match rd with Some r => _ | None => false end) with (side p) in *.
  destruct (side p); [by wp_step|]. wp_step. apply wp_lift. rewrite (serves_ok rn _ _ p H2) by apply Hp. rewrite Hr, Hc. cbn [rp]. by wp_step.
Qed.
Definition at_side (b : bool) s : option AbstractMemory.t := if b then dram s else nvm s.
Lemma at_interface_wp {A} s a p r (m : comp AbstractMemory.t A) (R : A -> AbstractMemory.t -> Prop) : represents s a -> range_at (side p) = Some r ->
  (forall x, at_side (side p) s = Some x -> MemSpec.implements r x (a (side p)) -> wp m x R) ->
  wp (at_interface (side p) m) s (fun y s' => exists x, s' = set_side (side p) x s /\ R y x).
Proof.
  intros [H1 H2] Hr Hm. unfold at_interface, range_at, at_side in *. wp_step. wp_step. unfold backs in *.
  destruct (side p); [destruct (dram s) as [x|]|destruct (nvm s) as [x|]];
    rewrite Hr in *; try done; wp_step; (eapply wp_mono; [by apply Hm|]); intros y x' HR; by exists x'.
Qed.
Lemma set_side_same b s x : at_side b s = Some x -> set_side b x s = s.
Proof. unfold at_side, set_side. destruct s, b; cbn; by intros ->. Qed.
Lemma represents_set s a b r x m : represents s a -> range_at b = Some r -> MemSpec.implements r m x -> represents (set_side b m s) (put b x a).
Proof. intros [H1 H2] Hr Hm. unfold represents, range_at in *. destruct b; cbn; split; try done; by rewrite Hr. Qed.
Lemma side_same p q : Pkt.addr q = Pkt.addr p -> side q = side p.
Proof. unfold side. by intros ->. Qed.

(** ** The answers *)

Lemma payload_cmd c : MemCmd.needsResponse c = true -> MemCmd.hasData (MemCmd.responseCommand c) = true -> MemCmd.isRead c = true.
Proof. by destruct c. Qed.
Lemma legal_shaped r p : MemSpec.legal r p -> shaped p.
Proof. intros H. pose proof (MemSpec.lg_size _ _ H). split; [apply H|lia]. Qed.
Lemma legal_payload r p : MemSpec.legal r p -> MemCmd.isRead (Pkt.cmd p) || MemCmd.isWrite (Pkt.cmd p) = true -> payload p.
Proof. intros H. apply H. Qed.
Lemma answer_holder r p a : MemSpec.legal r p -> Pkt.cacheResponding p = false -> MemCmd.needsResponse (Pkt.cmd p) = true -> holder (MemSpec.access_spec p a).1.
Proof.
  intros H Hc Hn. destruct (MemSpec.access_response r p a H Hc Hn) as (E1 & E2 & E3). destruct (MemSpec.access_keeps p a) as (K1 & K2 & _).
  split.
  - destruct (legal_shaped r p H) as [[F1 F2] Hs]. split; [|by rewrite K1, K2]. by rewrite E2, !Flags.isSet_clear_ne.
  - rewrite E1. intros Hd. pose proof (payload_cmd _ Hn Hd) as Hr. destruct (legal_payload r p H) as [Hf Hl]; [by rewrite Hr|].
    unfold payload. rewrite E2, K2, E3 by done. rewrite Flags.isSet_clear_ne by done. split; [done|]. apply MemSpec.zlen_rd. pose proof (MemSpec.lg_size _ _ H). lia.
Qed.
Lemma reply_holder now lat q : holder q -> holder (reply now lat q).2.
Proof. intros [[] H]. by split; [split|]. Qed.

(** ** The invariant *)

(** What the interfaces held at first. *)
Context (a0 : contents).
(** [lent] is the response the requestor has been given in a call in progress. *)
Record good now (lent : option PacketQueue.deferred) s : Prop := {
  gp_contents : represents s (story (log s) a0).2;
  gp_queue : QueuePromise.queue_ok true now (story (log s) a0).1 lent (queue s);
  gp_holders : Forall (fun x => holder x.2) (story (log s) a0).1 }.
Definition extends s s' : Prop := exists k, log s' = log s ++ k.
Lemma extends_trans s1 s2 s3 : extends s1 s2 -> extends s2 s3 -> extends s1 s3.
Proof. intros [k1 H1] [k2 H2]. exists (k1 ++ k2). by rewrite H2, H1, app_assoc. Qed.
Lemma extends_same s s' : log s' = log s -> extends s s'.
Proof. exists []. by rewrite app_nil_r. Qed.
Lemma waiting_holders now lent s : good now lent s -> Forall (fun x => holder x.2) (PacketQueue.transmitList (queue s)).
Proof.
  intros [_ Hq Hh]. assert (exists l, l ++ PacketQueue.transmitList (queue s) ≡ₚ (story (log s) a0).1) as [l E].
  { destruct lent as [x|].
    - exists ((snd <$> PacketQueue.sent (queue s)) ++ [x]). rewrite <- app_assoc. exact (proj1 (QueuePromise.le_order _ _ _ _ _ Hq)).
    - exists (snd <$> PacketQueue.sent (queue s)). exact (proj1 (QueuePromise.gd_order _ _ _ _ Hq)). }
  rewrite <- E in Hh. by apply Forall_app in Hh as [_ ?].
Qed.

(** An access that has changed the contents and the log, and added its responses. *)
Lemma good_act now lent s s' x : good now lent s -> log s' = log s ++ [x] -> represents s' (act_spec x (story (log s) a0).2).2 ->
  QueuePromise.queue_ok true now ((story (log s) a0).1 ++ (act_spec x (story (log s) a0).2).1) lent (queue s') ->
  Forall (fun x => holder x.2) (act_spec x (story (log s) a0).2).1 -> good now lent s'.
Proof.
  intros H El Hr Hq Hh. split; rewrite El, story_snoc; cbn [fst snd]; [done|done|].
  apply Forall_app. split; [apply H|done].
Qed.

(** ** Calls *)

Inductive call := Respond (lat : Z) (p : Pkt.t) | AtomicAccess (p : Pkt.t) | Functional (p : Pkt.t).
(** The bytes of a functional access are in no response that waits. *)
Definition apart (p q : Pkt.t) : bool :=
  negb (Bool.eqb (Pkt.secure q) (Pkt.secure p) && MemCmd.hasData (Pkt.cmd q)) ||
  (Pkt.addr p + Pkt.size p <=? Pkt.addr q) || (Pkt.addr q + Pkt.size q <=? Pkt.addr p).
(** No more responses wait than the queue is meant for; and a functional write does not change
    one that waits. *)
Definition permits s (x : call) : bool :=
  match x with
  | Respond _ p => zlen (PacketQueue.transmitList (queue s)) <? 129
  | AtomicAccess p => true
  | Functional p => MemCmd.isRead (Pkt.cmd p) || forallb (fun d => apart p d.2) (PacketQueue.transmitList (queue s))
  end.
Record functional_ok (p : Pkt.t) : Prop := {
  fo_response : MemCmd.needsResponse (Pkt.cmd p) = true; fo_rw : MemCmd.isRead (Pkt.cmd p) || MemCmd.isWrite (Pkt.cmd p) = true;
  fo_fresh : Pkt.bytesValid p = [] }.
Definition call_ok now (x : call) : Prop :=
  match x with
  | Respond lat p => legal p /\ Pkt.cacheResponding p = false /\ 0 <= lat /\ 0 <= Pkt.headerDelay p /\ 0 <= Pkt.payloadDelay p /\
      now + lat + Pkt.headerDelay p + Pkt.payloadDelay p < MaxTick
  | AtomicAccess p => legal p /\ Pkt.cacheResponding p = false
  | Functional p => legal p /\ functional_ok p
  end.
Definition horizon now : Prop := 0 <= now /\ now + 1 < MaxTick.

Lemma zoom_queue {A} s (m : comp PacketQueue.t A) (Q : A -> t -> Prop) : wp m (queue s) (fun a q => Q a (s <| queue := q |>)) -> wp (on_queue m) s Q.
Proof. intros H. unfold on_queue. by wp_step. Qed.
Lemma set_side_log b m s x : set_side b m (s <| log := x |>) = (set_side b m s) <| log := x |>.
Proof. by destruct b. Qed.
Lemma set_side_fields b m s : queue (set_side b m s) = queue s /\ log (set_side b m s) = log s.
Proof. by destruct b. Qed.

Lemma port_respond_wp now lent s lat p : horizon now -> good now lent s -> call_ok now (Respond lat p) -> permits s (Respond lat p) = true ->
  wp (accessAndRespond now p lat) s (fun _ s' => good now lent s' /\ log s' = log s ++ [Answered now lat p]).
Proof.
  intros Hh H (Hp & Hc & Hl & Hhd & Hpd & Ht) Hperm. pose proof (gp_contents _ _ _ H) as Hr. destruct (id Hp) as (r & Er & _ & Hlg).
  set (a := (story (log s) a0).2) in *. unfold accessAndRespond. wp_step. eapply wp_mono; [by apply (interface_wp s a)|]. intros b s1 [-> ->].
  wp_step. unfold record. wp_step. set (s1 := over log _ s). wp_step.
  eapply wp_mono; [apply (at_interface_wp s1 a p r _ (fun q x => q = (MemSpec.access_spec p (a (side p))).1 /\ MemSpec.implements r x (MemSpec.access_spec p (a (side p))).2) Hr Er)|].
  { intros x _ Hx. apply MemSpec.mem_access_wp; [done|by right]. }
  intros q s2 (x & -> & -> & Hx). set (q := (MemSpec.access_spec p (a (side p))).1). pose proof (set_side_fields (side p) x s1) as [F1 F2].
  assert (represents (set_side (side p) x s1) (act_spec (Answered now lat p) a).2) as Hr2 by (cbn [act_spec snd]; exact (represents_set s1 a (side p) r _ x Hr Er Hx)).
  destruct (MemCmd.needsResponse (Pkt.cmd p)) eqn:En; cycle 1.
  { wp_step. split; [|exact F2]. eapply (good_act now lent s _ (Answered now lat p) H); [exact F2|exact Hr2|..]; cbn [act_spec fst]; rewrite En; [|constructor].
    rewrite app_nil_r, F1. apply H. }
  destruct (MemSpec.access_response r p (a (side p)) Hlg Hc En) as (E1 & E2 & _). destruct (MemSpec.access_keeps p (a (side p))) as (_ & _ & _ & E3 & E4).
  fold q in E1, E2, E3, E4. wp_step. apply wp_assert; [rewrite E1; by apply MemCmd.response_needed|]. apply zoom_queue. rewrite F1.
  change (queue s1) with (queue s). set (q' := over Pkt.payloadDelay _ _). set (w := u64 _).
  assert (w = now + lat + Pkt.headerDelay p + Pkt.payloadDelay p) as Ew by (unfold w; rewrite E3, E4; apply u64_small; unfold MaxTick in *; destruct Hh; lia).
  assert (QueuePromise.sendable now (q', w)) as Hs.
  { split; cbn [fst snd].
    - unfold QueuePromise.addressed. change (Pkt.flags q') with (Pkt.flags q). rewrite E2, Flags.isSet_clear_ne by done. apply Hlg.
    - unfold Pkt.isExpressSnoop. change (Pkt.flags q') with (Pkt.flags q). rewrite E2. apply Flags.isSet_clear.
    - destruct Hh. lia. }
  eapply wp_mono; [apply (QueuePromise.queue_schedule true now _ lent (queue s) q' w (gp_queue _ _ _ H)); [apply Hh|done|]|].
  { right. apply Z.ltb_lt in Hperm. lia. }
  intros [] q2 (Hq2 & _ & _). split; [|exact F2]. eapply (good_act now lent s _ (Answered now lat p) H); [exact F2|..].
  - destruct Hr2 as [Ha Hb]. by split.
  - cbn [act_spec fst]. rewrite En. exact Hq2.
  - cbn [act_spec fst]. rewrite En. constructor; [|constructor]. apply reply_holder. by apply (answer_holder r).
Qed.
Lemma atomic_wp dl nl now lent s p : good now lent s -> legal p -> Pkt.cacheResponding p = false ->
  wp (recvAtomic dl nl p) s (fun x s' => good now lent s' /\ extends s s').
Proof.
  intros H Hp Hc. pose proof (gp_contents _ _ _ H) as Hr. destruct (id Hp) as (r & Er & _ & Hlg).
  set (a := (story (log s) a0).2) in *. unfold recvAtomic. rewrite Hc. wp_step. eapply wp_mono; [by apply (interface_wp s a)|]. intros b s1 [-> ->].
  wp_step. unfold record. wp_step. set (s1 := over log _ s). wp_step.
  eapply wp_mono; [apply (at_interface_wp s1 a p r _ (fun q x => q = (MemSpec.access_spec p (a (side p))).1 /\ MemSpec.implements r x (MemSpec.access_spec p (a (side p))).2) Hr Er)|].
  { intros x _ Hx. apply MemSpec.mem_access_wp; [done|by right]. }
  intros q s2 (x & -> & -> & Hx). wp_step. destruct (set_side_fields (side p) x s1) as [F1 F2].
  split; [|exists [Atomic p]; exact F2]. eapply (good_act now lent s _ (Atomic p) H); [exact F2|exact (represents_set s1 a (side p) r _ x Hr Er Hx)|..|constructor].
  cbn [act_spec fst]. rewrite app_nil_r, F1. apply H.
Qed.

(** ** Functional accesses *)

Lemma legal_alike r p q : alike p q -> zlen (Pkt.data q) = zlen (Pkt.data p) -> MemSpec.legal r p -> MemSpec.legal r q.
Proof.
  intros (E1 & E2 & E3 & E4 & E5 & E6) Ed []. split; unfold Pkt.isMaskedWrite in *; rewrite ?E1, ?E2, ?E3, ?E4, ?E5, ?E6, ?Ed; done.
Qed.
Lemma alike_legal p q : alike p q -> zlen (Pkt.data q) = zlen (Pkt.data p) -> legal p -> legal q.
Proof.
  intros Ha Ed (r & Hr & Hc & Hl). exists r. rewrite (side_same p q) by apply Ha. split; [done|]. pose proof Ha as (_ & _ & Ea & _).
  rewrite Ea. split; [done|]. by apply (legal_alike r p).
Qed.
Lemma functional_reader p : legal p -> functional_ok p -> MemCmd.isRead (Pkt.cmd p) = true -> reader p /\ ~ (forall x, Functional.within p x -> filled p x = true).
Proof.
  intros (r & _ & _ & H) [] Hr. pose proof (MemSpec.lg_size _ _ H) as (Hs & _). split.
  - split; [by eapply legal_shaped|by apply (legal_payload r)|done|by left].
  - intros Hall. specialize (Hall (Pkt.addr p) ltac:(unfold Functional.within; lia)). unfold filled in Hall. by rewrite fo_fresh0, zlookup_nil in Hall.
Qed.
Lemma functional_writer p : legal p -> functional_ok p -> MemCmd.isRead (Pkt.cmd p) = false -> writer p.
Proof.
  intros (r & _ & _ & H) [] Hr. split; [by eapply legal_shaped|by apply (legal_payload r)|]. by rewrite Hr in fo_rw0.
Qed.
(** What a read of [p] answers: the responses [w] hold every byte, or the contents are read. *)
Definition read_answer (p q : Pkt.t) (b : Z -> Z) (w : list PacketQueue.deferred) : Prop :=
  exists l1 l2, w = l1 ++ l2 /\
    ((Pkt.cmd q = Pkt.cmd p /\ forall x, Functional.within p x -> overlay p l1 x = Some (at_ q x)) \/
     (l2 = [] /\ ~ (forall x, Functional.within p x -> overlay p w x <> None) /\
      Pkt.cmd q = MemCmd.responseCommand (Pkt.cmd p) /\ Pkt.data q = MemSpec.rd b (Pkt.addr p) (Pkt.size p))).
Lemma queue_same s l : l = PacketQueue.transmitList (queue s) -> s <| queue := (queue s) <| PacketQueue.transmitList := l |> |> = s.
Proof. intros ->. by destruct s as [d n []]. Qed.
Lemma functional_read_wp s a p : represents s a -> legal p -> functional_ok p -> MemCmd.isRead (Pkt.cmd p) = true ->
  Forall (fun x => holder x.2) (PacketQueue.transmitList (queue s)) ->
  wp (port_recvFunctional p) s (fun q s' => s' = s /\ read_answer p q (MemSpec.bytes (a (side p))) (PacketQueue.transmitList (queue s))).
Proof.
  intros Hr Hp Hf Er Hw. destruct (functional_reader p Hp Hf Er) as [Hrd Hn].
  destruct (Functional.try_list_read _ p Hrd Hw Hn) as (found & q & l1 & l2 & E & Hq & El & Ha & H2 & Hv & Hfd).
  unfold port_recvFunctional. wp_step. apply zoom_queue. unfold PacketQueue.trySatisfyFunctional. wp_step. wp_step. wp_step. apply wp_lift. rewrite E. cbn [rp].
  wp_step. wp_step. wp_step. rewrite queue_same by done. destruct found.
  - wp_step. split; [done|]. exists l1, l2. split; [done|]. left. split; [apply Ha|]. intros x Hx. destruct (proj1 Hfd eq_refl x Hx) as [Ho|Ho].
    + rewrite (Hv x Hx). by destruct (overlay p l1 x).
    + unfold filled in Ho. by rewrite (fo_fresh _ Hf), zlookup_nil in Ho.
  - assert (zlen (Pkt.data q) = zlen (Pkt.data p)) as Ed.
    { rewrite (proj2 (Functional.rd_payload _ Hq)), (proj2 (Functional.rd_payload _ Hrd)). by destruct Ha as (_ & _ & _ & _ & ? & _). }
    pose proof (alike_legal p q Ha Ed Hp) as Hlq. destruct (id Hlq) as (r & Hrr & _ & Hlr). unfold recvFunctional. wp_step.
    eapply wp_mono; [by apply (interface_wp s a)|]. intros b s1 [-> ->]. assert (Pkt.cmd q = Pkt.cmd p) as Ec by apply Ha. rewrite Ec, Er. wp_step.
    apply wp_when; [done|intros _].
    eapply wp_mono; [apply (at_interface_wp s a q r _ (fun y x => at_side (side q) s = Some x /\ Pkt.cmd y = MemCmd.responseCommand (Pkt.cmd p) /\
      Pkt.data y = MemSpec.rd (MemSpec.bytes (a (side q))) (Pkt.addr q) (Pkt.size q)) Hr Hrr)|].
    + intros x Hx Hi. eapply wp_mono; [apply (MemSpec.mem_functional_wp r q x _ Hi Hlr); rewrite Ec; apply Hf|]. intros y x' [E1 E2]. rewrite Ec, Er in *.
      destruct E2 as [-> E2]. done.
    + intros y s2 (x & -> & Hx & E1 & E2). rewrite set_side_same by done. split; [done|]. exists l1, l2. split; [done|]. right. specialize (H2 eq_refl). subst l2.
      rewrite El, app_nil_r. split; [done|]. split.
      * intros Hall. assert (false = true) as [=]. apply Hfd. intros z Hz. left. by apply Hall.
      * split; [done|]. rewrite E2, (side_same p q) by apply Ha. by destruct Ha as (_ & _ & -> & _ & -> & _).
Qed.
Lemma functional_write_wp s a p l : represents s a -> legal p -> functional_ok p -> MemCmd.isRead (Pkt.cmd p) = false ->
  PacketQueue.try_list p (PacketQueue.transmitList (queue s)) = Ok (false, p, l) ->
  wp (port_recvFunctional p) s (fun q s' => Pkt.cmd q = MemCmd.responseCommand (Pkt.cmd p) /\ represents s' (act_spec (Stored p) a).2 /\
    log s' = log s ++ [Stored p] /\ queue s' = (queue s) <| PacketQueue.transmitList := l |>).
Proof.
  intros Hr Hp Hf Er E. destruct (id Hp) as (r & Hrr & _ & Hlr). pose proof (fo_rw _ Hf) as Ew. rewrite Er in Ew. cbn [orb] in Ew.
  unfold port_recvFunctional. wp_step. apply zoom_queue. unfold PacketQueue.trySatisfyFunctional. wp_step. wp_step. wp_step. apply wp_lift. rewrite E. cbn [rp].
  wp_step. wp_step. wp_step. set (s1 := over queue _ s). assert (represents s1 a) as Hr1 by exact Hr.
  unfold recvFunctional. wp_step. eapply wp_mono; [by apply (interface_wp s1 a)|]. intros b s2 [-> ->]. rewrite Er, Ew. cbn [negb andb when_]. wp_step.
  unfold record. wp_step. set (s2 := over log _ s1).
  eapply wp_mono; [apply (at_interface_wp s2 a p r _ (fun y x => Pkt.cmd y = MemCmd.responseCommand (Pkt.cmd p) /\
      MemSpec.implements r x ((a (side p)) <| MemSpec.bytes ::= MemSpec.write_pkt p |>)) Hr1 Hrr)|].
  - intros x _ Hi. eapply wp_mono; [apply (MemSpec.mem_functional_wp r p x _ Hi Hlr); apply Hf|]. intros y x' [E1 E2]. by rewrite Er in E2.
  - intros y s3 (x & -> & E1 & Hx). destruct (set_side_fields (side p) x s2) as [F1 F2]. split; [done|].
    split; [exact (represents_set s2 a (side p) r _ x Hr1 Hrr Hx)|]. split; [exact F2|exact F1].
Qed.
Lemma apart_list p l : writer p -> Forall (fun x => holder x.2) l -> forallb (fun d => apart p d.2) l = true -> PacketQueue.try_list p l = Ok (false, p, l).
Proof.
  intros [Hs _ [Hw _]]. induction 1 as [|[tick q] l Hq Hl IH]; [done|]. cbn [forallb snd PacketQueue.try_list] in *. intros [H1 H2]%andb_true_iff.
  rewrite Functional.try_apart; [|done|done|by apply Functional.write_print|].
  - cbn [mbind result_bind]. by rewrite IH.
  - intros x Hx. unfold Functional.within, apart, covers in *. rewrite !orb_true_iff, negb_true_iff, !Z.leb_le in H1. destruct H1 as [[H1|H1]|H1].
    + by rewrite H1.
    + destruct (Z.leb_spec (Pkt.addr q) x); [lia|]. by rewrite andb_false_r.
    + destruct (Z.ltb_spec x (Pkt.addr q + Pkt.size q)); [lia|]. by rewrite andb_false_r.
Qed.
Lemma port_functional_wp now lent s p : good now lent s -> call_ok now (Functional p) -> permits s (Functional p) = true ->
  wp (port_recvFunctional p) s (fun _ s' => good now lent s' /\ extends s s').
Proof.
  intros H [Hp Hf] Hperm. pose proof (waiting_holders _ _ _ H) as Hw. cbn [permits] in Hperm. destruct (MemCmd.isRead (Pkt.cmd p)) eqn:Er; cbn [orb] in Hperm.
  - eapply wp_mono; [by apply (functional_read_wp s _ p (gp_contents _ _ _ H))|]. intros q s' [-> _]. split; [done|by apply extends_same].
  - pose proof (apart_list p _ (functional_writer p Hp Hf Er) Hw Hperm) as E.
    eapply wp_mono; [exact (functional_write_wp s _ p _ (gp_contents _ _ _ H) Hp Hf Er E)|].
    intros q s' (_ & Hr & El & Eq). split; [|by exists [Stored p]]. eapply (good_act now lent s s' (Stored p) H El Hr); [|constructor]. cbn [act_spec fst]. rewrite app_nil_r, Eq.
    replace ((queue s) <| PacketQueue.transmitList := PacketQueue.transmitList (queue s) |>) with (queue s) by (by destruct (queue s)). apply H.
Qed.

(** ** Runs *)

(** The latencies of the interfaces, for atomic accesses. *)
Context (dl nl : Z).
Definition do_call now (x : call) : comp t unit :=
  match x with
  | Respond lat p => accessAndRespond now p lat
  | AtomicAccess p => recvAtomic dl nl p;; mret tt
  | Functional p => port_recvFunctional p;; mret tt
  end.
Fixpoint performs now (l : list call) : comp t unit :=
  match l with [] => mret tt | x :: l' => s ← get; when_ (permits s x) (do_call now x);; performs now l' end.
(** The requestor takes a response, and makes calls before it returns, or refuses it. *)
Definition sendTimingResp now (ok : bool) (inside : list call) (_ : Pkt.t) : comp t bool :=
  (if ok then performs now inside else mret tt);; mret ok.
Inductive step := Calls (l : list call) | SendEvent (ok : bool) (inside : list call) | Retry (ok : bool) (inside : list call).
Definition exec now (st : step) : comp t unit :=
  match st with
  | Calls l => performs now l
  | SendEvent ok inside => processSendEvent now (sendTimingResp now ok inside)
  | Retry ok inside => recvRespRetry now (sendTimingResp now ok inside)
  end.
(** The event is served at its tick, the requestor calls back when it has refused. *)
Definition allowed now (st : step) s : Prop :=
  match st with
  | Calls l => Forall (call_ok now) l
  | SendEvent _ inside => Forall (call_ok now) inside /\ PacketQueue.sendEvent (queue s) = Some now
  | Retry _ inside => Forall (call_ok now) inside /\ PacketQueue.waitingOnRetry (queue s) = true
  end.

Lemma do_call_wp now lent s x : horizon now -> good now lent s -> call_ok now x -> permits s x = true ->
  wp (do_call now x) s (fun _ s' => good now lent s' /\ extends s s').
Proof.
  intros Hh H Hx Hp. destruct x as [lat p|p|p]; cbn [do_call].
  - eapply wp_mono; [by apply port_respond_wp|]. intros [] s' [H' E]. split; [done|by eexists].
  - destruct Hx. wp_step. eapply wp_mono; [by apply atomic_wp|]. intros y s' ?. by wp_step.
  - wp_step. eapply wp_mono; [by apply port_functional_wp|]. intros y s' ?. by wp_step.
Qed.
Lemma performs_wp now lent l : horizon now -> Forall (call_ok now) l -> forall s, good now lent s ->
  wp (performs now l) s (fun _ s' => good now lent s' /\ extends s s').
Proof.
  intros Hh. induction 1 as [|x l Hx Hl IH]; intros s H; cbn [performs]; [wp_step; split; [done|by apply extends_same]|].
  wp_step. wp_step. wp_step. apply wp_when; intros Hp; [|by apply IH].
  eapply wp_mono; [by apply do_call_wp|]. intros [] s1 [H1 E1]. eapply wp_mono; [by apply IH|]. intros [] s2 [H2 E2]. split; [done|by eapply extends_trans].
Qed.
Lemma good_queue_at now lent lent' s q : good now lent s -> QueuePromise.queue_ok true now (story (log s) a0).1 lent' q -> good now lent' (s <| queue := q |>).
Proof. intros [] Hq. by split. Qed.
Lemma port_sending_wp now ok inside s q : horizon now -> Forall (call_ok now) inside -> good now None s ->
  QueuePromise.sending true now (story (log s) a0).1 q ->
  wp (sendDeferredPacket now (sendTimingResp now ok inside)) (s <| queue := q |>) (fun _ s' => good now None s' /\ extends s s').
Proof.
  intros Hh Hin H Hs. unfold sendDeferredPacket. wp_step. apply zoom_queue. eapply wp_mono; [by apply QueuePromise.take_wp|]. intros x q2 (_ & _ & L & R).
  match goal with |- wp _ ?y _ => change y with (s <| queue := q2 |>) end. pose proof (good_queue_at now None (Some x) s q2 H L) as H2.
  wp_step. unfold sendTimingResp. destruct ok.
  - wp_step. eapply wp_mono; [by apply (performs_wp now (Some x) inside Hh Hin)|]. intros [] s3 [H3 E3]. wp_step. apply zoom_queue.
    eapply wp_mono; [apply (QueuePromise.finish_wp true now (story (log s3) a0).1 x (queue s3)); [apply H3|apply Hh]|]. intros [] q4 (H4 & _). split.
    + by apply (good_queue_at now (Some x) None s3 q4).
    + destruct E3 as [k E3]. by exists k.
  - wp_step. wp_step. wp_step. apply zoom_queue. eapply wp_mono; [by apply (QueuePromise.finish_refused_wp true now (story (log s) a0).1 x q2)|].
    intros [] q4 (H4 & _). split; [|by apply extends_same]. by apply (good_queue_at now None None s q4).
Qed.
Lemma port_exec_wp now st s : horizon now -> good now None s -> allowed now st s -> wp (exec now st) s (fun _ s' => good now None s' /\ extends s s').
Proof.
  intros Hh H Ha. destruct st as [l|ok l|ok l]; cbn [exec allowed] in *.
  - by apply performs_wp.
  - destruct Ha as [Hl He]. unfold processSendEvent. wp_step. apply zoom_queue.
    eapply wp_mono; [apply (QueuePromise.event_start_wp true now _ (queue s) (gp_queue _ _ _ H) He)|]. intros [] q [_ Hs]. by apply port_sending_wp.
  - destruct Ha as [Hl He]. unfold recvRespRetry. wp_step. apply zoom_queue.
    eapply wp_mono; [apply (QueuePromise.retry_start_wp true now _ (queue s) (gp_queue _ _ _ H) He)|]. intros [] q [_ Hs]. by apply port_sending_wp.
Qed.
Definition until now s : Prop := forall w, PacketQueue.sendEvent (queue s) = Some w -> now <= w.
Lemma good_until now now' s : good now None s -> now <= now' -> until now' s -> good now' None s.
Proof. intros [Hc Hq Hh] Hn Hu. split; try done. by apply (QueuePromise.good_time true now now'). Qed.
Fixpoint run (l : list (Z * step)) : comp t unit := match l with [] => mret tt | (now, st) :: l' => exec now st;; run l' end.
Fixpoint legal_run now (l : list (Z * step)) s : Prop :=
  match l with
  | [] => True
  | (now', st) :: l' => now <= now' /\ horizon now' /\ until now' s /\ allowed now' st s /\ forall s', exec now' st s = Ok (tt, s') -> legal_run now' l' s'
  end.
Fixpoint end_time now (l : list (Z * step)) : Z := match l with [] => now | (now', _) :: l' => end_time now' l' end.
Lemma port_run_wp l : forall now s, good now None s -> legal_run now l s -> wp (run l) s (fun _ s' => good (end_time now l) None s' /\ extends s s').
Proof.
  induction l as [|[now' st] l IH]; intros now s H Hl; cbn [run end_time]; [wp_step; split; [done|by apply extends_same]|]. destruct Hl as (Hn & Hh & Hu & Ha & Hl).
  pose proof (port_exec_wp now' st s Hh (good_until _ _ _ H Hn Hu) Ha) as Hw. destruct (wp_inv _ _ _ Hw) as ([] & s1 & E & H1 & E1).
  wp_step. eapply wp_ok; [exact E|]. eapply wp_mono; [by apply (IH now'), Hl|]. intros [] s2 [H2 E2]. split; [done|by eapply extends_trans].
Qed.
Lemma create_promise o1 o2 : represents (create o1 o2) a0 -> good 0 None (create o1 o2).
Proof. intros H. split; [done|apply (QueuePromise.create_good true false)|constructor]. Qed.
End Contents.

(** ** Properties *)

(** C11. Over any run of the controller's port (requests answered, atomic and functional
    accesses of whole packets of the memory, send events at their ticks, retries, and calls from
    within the taking of a response that is then accepted), in which at most 128 responses wait
    when one is added and a functional write touches no response that waits, no assertion fails
    (a requestor that calls from within a response and then refuses it makes the queue fail, see
    [QueuePromise.refusal_after_send]); each interface holds what the specification of the memory
    says for the accesses in order; the responses are its answers to the requests answered,
    each due when its latency and delays have passed; each waits or was sent once, not before
    it was due, those of an address in the order of the requests. *)
Theorem port_serves rd rn a0 dl nl now s l : good rd rn a0 now None s -> legal_run rd rn dl nl now l s ->
  exists s', run dl nl l s = Ok (tt, s') /\ good rd rn a0 (end_time now l) None s' /\ extends s s'.
Proof. intros H Hl. destruct (wp_inv _ _ _ (port_run_wp rd rn a0 dl nl l now s H Hl)) as ([] & s' & E & H'). by exists s'. Qed.

(** A memory of 64 bytes at 4096; a read and a write, whose answer is refused once, and a read
    requested when it is taken. *)
Definition port64 : t := create (Some MemSpec.zero64) None.
Definition zero_contents : contents := fun _ => MemSpec.mkSpec (fun _ => 0) ∅.
Definition read_at (a n : Z) : Pkt.t := MemSpec.packet MemCmd.ReadReq 3 a (calloc n 0).
Definition write_at (a : Z) (d : list Z) : Pkt.t := MemSpec.packet MemCmd.WriteReq 7 a d.
Definition demo_run : list (Z * step) :=
  [(10, Calls [Respond 20 (read_at 4098 4)]); (12, Calls [Respond 5 (write_at 4100 [1; 2; 3; 4]); Functional (read_at 4096 4)]);
   (17, SendEvent false []); (21, Retry true [Respond 1 (read_at 4100 2)]); (22, SendEvent true []); (30, SendEvent true [])].
Lemma port64_good : good (Some MemSpec.mem64) None zero_contents 0 None port64.
Proof. apply create_promise. split; [apply MemSpec.zero64_implements|done]. Qed.
Lemma packet_in_range p : AddrRange.contains MemSpec.mem64 (Pkt.addr p) = true -> MemSpec.legal MemSpec.mem64 p -> legal (Some MemSpec.mem64) None p.
Proof. intros Hc Hp. exists MemSpec.mem64. unfold side. by rewrite Hc. Qed.
Ltac legal_packet := apply packet_in_range; [done|]; apply MemSpec.packet_legal; (by vm_compute) || (intros E; by vm_compute in E) || (intros E; discriminate E).
Ltac port_step :=
  match goal with
  | |- _ /\ _ => split
  | |- True => exact I
  | |- forall s', _ = Ok (tt, s') -> _ => intros ? Es; vm_compute in Es; injection Es as <-
  | |- until _ _ => intros ? Eu; vm_compute in Eu; (discriminate Eu || (injection Eu as <-; lia))
  | |- horizon _ => split; vm_compute; done
  | |- legal _ _ _ => legal_packet
  | |- functional_ok _ => split; vm_compute; done
  | |- Forall _ [] => apply Forall_nil_2
  | |- Forall _ (_ :: _) => apply Forall_cons_2
  | |- _ => progress (cbn [allowed call_ok])
  | |- _ => by vm_compute
  end.
Lemma port_serves_witness : exists s', run 0 0 demo_run port64 = Ok (tt, s') /\
  (fun x => (x.1, Pkt.data x.2.2)) <$> PacketQueue.sent (queue s') = [(21, [1; 2; 3; 4]); (22, [1; 2]); (30, [0; 0; 0; 0])] /\
  good (Some MemSpec.mem64) None zero_contents 30 None s'.
Proof.
  destruct (port_serves (Some MemSpec.mem64) None zero_contents 0 0 0 port64 demo_run port64_good) as (s' & E & H & _).
  - unfold demo_run. cbn [legal_run]. repeat port_step.
  - exists s'. split; [exact E|]. split; [|exact H]. vm_compute in E. by injection E as <-.
Defined.

(** A response in the queue, before and after a functional write. *)
Definition patched (p : Pkt.t) (x y : PacketQueue.deferred) : Prop :=
  x.1 = y.1 /\ alike x.2 y.2 /\
  forall a, Functional.within x.2 a -> at_ y.2 a = if covers p x.2 a && withinb p a then at_ p a else at_ x.2 a.
(** C12. A functional access through the port does not fail.  A read changes nothing: if the
    responses that wait hold all its bytes it gets the bytes of the last one tried that holds
    each, and stays a request; otherwise it gets all its bytes from the contents of the
    interface and becomes a response.  A write goes to the contents, without ending a
    reservation, and into every response that holds one of its bytes. *)
Theorem port_functional rd rn s a p : represents rd rn s a -> legal rd rn p -> functional_ok p ->
  Forall (fun x => holder x.2) (PacketQueue.transmitList (queue s)) ->
  exists q s', port_recvFunctional p s = Ok (q, s') /\
    if MemCmd.isRead (Pkt.cmd p) then s' = s /\ read_answer p q (MemSpec.bytes (a (side rd p))) (PacketQueue.transmitList (queue s))
    else Pkt.cmd q = MemCmd.responseCommand (Pkt.cmd p) /\
         represents rd rn s' (put (side rd p) ((a (side rd p)) <| MemSpec.bytes ::= MemSpec.write_pkt p |>) a) /\
         exists l, queue s' = (queue s) <| PacketQueue.transmitList := l |> /\ Forall2 (patched p) (PacketQueue.transmitList (queue s)) l.
Proof.
  intros Hr Hp Hf Hw. destruct (MemCmd.isRead (Pkt.cmd p)) eqn:Er.
  - exact (wp_inv _ _ _ (functional_read_wp rd rn s a p Hr Hp Hf Er Hw)).
  - destruct (Functional.try_list_write p _ (functional_writer rd rn p Hp Hf Er) Hw) as (l & E & Hl).
    destruct (wp_inv _ _ _ (functional_write_wp rd rn s a p l Hr Hp Hf Er E)) as (q & s' & Eq & H1 & H2 & _ & H3).
    exists q, s'. split; [done|]. split; [done|]. split; [done|]. by exists l.
Qed.
(** A read of 4096 is answered and waits; then the bytes are written. *)
Definition stale_run : list (Z * step) := [(10, Calls [Respond 20 (read_at 4096 4)]); (12, Calls [Respond 5 (write_at 4096 [1; 2; 3; 4])])].
Lemma port_functional_witness : exists s q q', run 0 0 stale_run port64 = Ok (tt, s) /\
  port_recvFunctional (read_at 4096 8) s = Ok (q, s) /\ Pkt.data q = [1; 2; 3; 4; 0; 0; 0; 0] /\
  read_answer (read_at 4096 8) q (MemSpec.bytes ((story (Some MemSpec.mem64) (log s) zero_contents).2 true)) (PacketQueue.transmitList (queue s)) /\
  port_recvFunctional (read_at 4096 4) s = Ok (q', s) /\ Pkt.data q' = [0; 0; 0; 0] /\ Pkt.cmd q' = MemCmd.ReadReq.
Proof.
  destruct (wp_inv _ _ _ (port_run_wp (Some MemSpec.mem64) None zero_contents 0 0 stale_run 0 port64 port64_good ltac:(unfold stale_run; cbn [legal_run]; repeat port_step)))
    as ([] & s & E & H & _).
  assert (forall n, 0 < n <= 64 -> legal (Some MemSpec.mem64) None (read_at 4096 n) /\ functional_ok (read_at 4096 n)) as Hl.
  { intros n Hn. split; [|by split]. apply packet_in_range; [done|]. assert (zlen (calloc n 0) = n) as Ez by (apply zlen_calloc; lia).
    apply MemSpec.packet_legal; try done; [rewrite Ez; lia|]. intros E0. rewrite E0 in Ez. change (0 = n) in Ez. lia. }
  destruct (port_functional (Some MemSpec.mem64) None s _ (read_at 4096 8) (gp_contents _ _ _ _ _ _ H)) as (q & s1 & E1 & -> & Hq);
    [by apply Hl..|by apply (waiting_holders _ _ _ _ _ _ H)|].
  destruct (port_functional (Some MemSpec.mem64) None s _ (read_at 4096 4) (gp_contents _ _ _ _ _ _ H)) as (q' & s2 & E2 & -> & _);
    [by apply Hl..|by apply (waiting_holders _ _ _ _ _ _ H)|].
  exists s, q, q'. split; [exact E|]. split; [exact E1|]. vm_compute in E. injection E as E. rewrite <- E in E1, E2. vm_compute in E1, E2.
  injection E1 as E1. injection E2 as E2. split; [by rewrite <- E1|]. split; [exact Hq|]. rewrite <- E in *. rewrite <- E2. split; [by vm_compute|done].
Defined.
End MemPortSpec.
